(* ===== verification/_CoqProject ===== *)
-Q . S2P
Prelude.v
UtHash.v
NeuTypes.v
CStd.v
Tag.v
ProtocolBuf.v
Modbus.v
TagSort.v
ModbusPoint.v
ModbusPlan.v
ModbusStack.v
ModbusValue.v
ModbusReq.v
Group.v
Subscribe.v
NodeManager.v
CHeap.v
CFloat.v
DriverCache.v
CacheValue.v
DriverCacheOk.v
Driver.v
DriverOk.v
DriverWrite.v
DriverRead.v
DriverWriteOk.v
DriverReadOk.v
Persist.v
Adapter.v
AdapterConfig.v
AdapterStored.v
AdapterGtag.v
AdapterOk.v
AdapterRestart.v
AdapterFrame.v
MsgQueue.v
SubscribeRows.v
Manager.v
ManagerOk.v
ManagerTrans.v
ManagerAdd.v
ManagerHistory.v
ManagerRestart.v
ManagerCases.v
Simulator.v
SimulatorOk.v
SimulatorServe.v
SimulatorDriver.v
SimulatorStore.v
SimulatorLife.v
SimulatorSignal.v
ModbusConfig.v
ModbusConfigOk.v
Connection.v
ConnectionOk.v
ConnectionNet.v
ConnectionLife.v
ConnectionDriver.v
