(* ===== verification/Prelude.v ===== *)
(** * A verification library for the Neuron IIoT connectivity server

    Neuron connects industrial devices to applications.  A driver plugin polls
    the tags of a device group by group and keeps the last sample of each in a
    cache; the adapter of a node runs the plugin and serves the requests that
    configure it; the manager keeps the nodes (driver and application instances)
    and the subscriptions of applications to groups; everything that is configured
    is kept in a database, from which the next start restores it.  This library
    models that core and the whole Modbus driver, from the text of a tag address
    to the bytes on the wire and back to the value of the tag, and proves that
    these parts do what they are for.

    ** The parts and where they are modelled

    The language and data:
    - Machine integers, byte buffers, byte order and C strings: this file.  An
      integer of [w] bits is a [Z]; every assignment that truncates applies
      [u8], [u16], ... explicitly.  A buffer is a list of bytes in [Z].
    - [UtHash.v]: the uthash macros of include/neuron/utils/uthash.h as
      operations on the insertion-ordered list of elements, with their
      refinement to stdpp's finite maps.
    - [NeuTypes.v]: include/neuron/type.h and tag.h: tag types, error codes, the
      value union (264 bytes of memory) and the address option union (12 bytes
      of memory, with the overlaps the C code uses), bit and byte-order helpers.
    - [CStd.v]: what the sources use of the C library: [sscanf] with the
      directives that occur, decimal printing.  [CHeap.v]: a heap of blocks for
      the parts that own memory, with the monad [M] and its total-correctness
      triples [runs].  [CFloat.v]: [float] and [double] over [SpecFloat].

    The Modbus driver, src/plugins/modbus:
    - [Tag.v]: src/base/tag.c: address options, display formats, the UTF-8 check,
      the register order of strings.
    - [ProtocolBuf.v]: include/neuron/utils/protocol_buf.h: the buffers that
      frames are packed into from the back and unpacked from.
    - [Modbus.v]: modbus.c and modbus.h: the pieces of a frame, each with its wrap
      and unwrap function, and the CRC.
    - [TagSort.v]: src/base/tag_sort.c with the list merge sort of
      include/neuron/utils/utlist.h: sorting tags and splitting them into groups
      by a driver's callback.  The class [TotalCmp] is what the sort asks of the
      callback's comparison.
    - [ModbusPoint.v]: modbus_point.c: parsing a tag into a point, the comparison
      and grouping callbacks, read and write commands, packing of values.
      [ModbusPlan.v] has the theorems about the plans.
    - [ModbusStack.v]: modbus_stack.c: requests and responses.  The callbacks the
      stack is created with are the record [stack_ops], so that its theorems hold
      for every plugin.
    - [ModbusValue.v] and [ModbusReq.v]: the value conversions and the request
      engine of modbus_req.c: fail-over, receiving, retries, degradation of silent
      slaves, polling, writes.  The engine instantiates [stack_ops] and is itself
      parametrised by the record [conn_ops] of connection functions
      (src/connection), over any type of connection state.
    - [ModbusConfig.v]: the configuration of modbus_tcp.c and modbus_rtu.c with the
      texts it allocates, and the parameters of a connection; [ModbusConfigOk.v]
      has the theorem, over an assertion [owning] of the texts of the heap.

    The connections, src/connection/connection.c:
    - [Connection.v]: TCP, UDP and serial connections in a monad over the state of
      a connection and an operating system, which is the record [os_ops].
    - [ConnectionOk.v]: the class [Posix] of what is used of the operating system,
      the invariant [conn_ok] and what every operation keeps ([wp], total
      correctness).  [ConnectionNet.v]: an executable operating system that
      satisfies [Posix], for examples.  [ConnectionLife.v]: streams and histories
      ([conn_reachable]).
    - [ConnectionDriver.v]: the operations of connection.c as an instance of
      [conn_ops], and a driver that polls the simulator over them; the class
      [SimPeer] says what it relies on of the operating system and the network.

    The driver framework, src/adapter/driver:
    - [DriverCache.v]: cache.c: the samples of the tags with the memory they own;
      [CacheValue.v] says what a value owns and what it means, [DriverCacheOk.v]
      has the theorems.  The JSON library is the class [Jansson].
    - [Group.v]: src/base/group.c: the group, a table of tags.
    - [Driver.v], [DriverWrite.v], [DriverRead.v]: driver.c: groups, tags, timers
      and subscriptions; write requests with their checks and conversions; reads,
      reports and the callbacks of the plugin.  Theorems in [DriverOk.v],
      [DriverWriteOk.v] and [DriverReadOk.v].  The plugin's functions for tags are
      the record [plugin_ops].

    The node, src/adapter:
    - [Persist.v]: src/persist/sqlite.c over the schema in persistence: statements
      as operations on five tables with their constraints and cascades.  SQLite is
      the class [Sqlite], what is used of it [SqliteOk].
    - [Adapter.v]: adapter.c and storage.c: the life cycle of a node and the
      requests on groups and tags, each with what it stores.  The plugin's
      functions for the life cycle are the record [plugin_intf].
    - [AdapterConfig.v], [AdapterStored.v], [AdapterGtag.v]: memory and database
      as two views of one configuration, and every handler keeps them equal
      ([kept]).  [AdapterOk.v]: histories of requests ([served], [history]), timers
      and life cycle; the class [TagStable] is a relation on drivers that every
      request on tags respects.  [AdapterRestart.v]: creating a node from the
      database ([durable]).  [AdapterFrame.v]: what a request leaves alone.
    - [MsgQueue.v]: msg_q.c and its three threads as a step relation at the
      granularity of the mutex and the condition variable.

    The manager, src/core:
    - [Subscribe.v]: subscribe.c: the subscriptions; [SubscribeRows.v]: the same as
      rows of the database.  [NodeManager.v]: node_manager.c: the nodes.
    - [Manager.v]: the requests of manager.c with manager_internal.c and storage.c,
      and start-up; the adapters are objects in a heap behind the pointers of the
      node table.
    - [ManagerOk.v]: [system_ok], memory and database agree, and the requests on
      nodes and subscriptions keep it; [ManagerTrans.v]: requests that take a
      manager and a node (deleting and renaming groups and nodes); [ManagerAdd.v]:
      adding nodes; [ManagerHistory.v]: [handled], every request with everything
      it causes; [ManagerRestart.v]: start-up, and histories of requests and
      restarts ([reached]); [ManagerCases.v]: requests that go wrong.

    The embedded simulator, simulator/modbus_tcp_simulator.c:
    - [Simulator.v]: a Modbus TCP server with four register files, its clients, the
      tags whose registers a generator thread fills, and the generator.
    - [SimulatorOk.v]: the invariant [sim_ok], events of clients, generator and
      configuration ([sim_handle]), and what each of them may change.
    - [SimulatorServe.v]: an abstract Modbus server ([serve]) on requests as data,
      which the simulator implements on bytes that arrive in portions.
    - [SimulatorDriver.v]: a driver whose connection is the simulator; it
      instantiates [conn_ops] with the simulator's own handling of bytes.
    - [SimulatorStore.v]: start and stop, the row of the database, initialisation,
      the answers of the simulator, and the request of
      plugins/restful/simulator_handle.c that configures tags; JSON is the class
      [Json].  [SimulatorLife.v]: histories with restarts ([sim_life]).
    - [SimulatorSignal.v]: from the generator through simulator, frames and driver
      to the value that is published.

    Stateful code is explicit state passing.  [None] stands for undefined
    behaviour (an access outside a buffer or through a dangling pointer), a failed
    [assert] (the release build keeps them), or fuel that ran out; the
    documentation of each definition says which.  In the request engine, whose
    callbacks return no status, undefined behaviour is the event [EvUndefined]
    of the trace, and in the queue of a node the flag [w_fault].  Functions keep the names they
    have in C; two static functions both called [tag_sort] are told apart as
    [modbus_tag_sort_fn] and [modbus_tag_sort_write_fn], and the cases of the two
    message loops are called [handle_] and the request.

    ** What the theorems show

    - The system: after any history of requests, each one step with the answer of
      its node, and of restarts that come up ([comes_up]), the manager, its nodes and
      the database agree ([manager_and_database_agree]), and a restart that comes up
      restores the nodes, their configuration, what ran, and the subscriptions
      ([restart_restores_system]).  Requests keep to [request_ok]: values that the
      columns hold and updates that leave the display format of a tag.
    - The node: with the same [request_ok], its configuration survives a restart
      ([configuration_survives_restart]); requests that add [storable] tags are all or
      nothing ([add_tags_all_or_nothing], [add_gtags_all_or_nothing]); timers follow
      its state ([timers_follow_state]); its queue loses no wake-up
      ([consumer_never_sleeps_on_work], [queue_drains], [queue_bounded]) and, as
      long as it is not freed under a push, no message ([messages_freed_once]).
    - The cache: within [update_pre] (no error filter for values behind pointers, an
      opaque pointer replaces only a pointer or an error) an update implements the
      update of a map from tags to samples and touches only memory that it owns
      ([cache_update_refines], [cache_histories_safe]); changes are detected exactly where they should be
      ([cache_change_exact], [filter_err_transparent]).
    - The driver: reads, reports and immediate updates deliver what the cache has,
      once where it matters ([read_tag_correct] for values that are not rounded for
      display, [report_tag_once] but for floating point, [update_im_reports]); timers bring the cache in line with the tags
      ([timer_syncs_cache]); writes are checked, queued whole and delivered in
      order ([write_tags_atomic] and [write_tag_once] for values that are not behind
      pointers, [queued_writes_delivered]); an integer that is written to a tag without
      scale factor and bias is what is read back ([written_integer_reads_back]);
      histories that delete no group of 65536 tags keep the tables in order
      ([driver_histories_ok]).
    - Modbus reading: a group's tags become commands that cover exactly the tags'
      own registers ([modbus_tag_sort_correct], on top of
      [neu_tag_sort_partition]); a command becomes the frame of the protocol
      ([stack_read_correct]); a response yields its data bytes ([stack_recv_read],
      [stack_recv_exception]); the data bytes yield each tag's value
      ([value_handle_registers], [value_handle_coils]); and end to end, when the
      device answers with its registers, every tag of the command is reported with
      the value of its own registers ([read_command_delivers]).
    - Modbus writing: batches are packed without leaving their buffer
      ([modbus_write_tags_sort_safe], [write_cmd_bytes]), sent as the protocol
      requires ([stack_write_registers]), answered exactly once
      ([write_tag_responds], [write_tags_respond]); what is written is what is
      read back ([codec_roundtrip]).
    - The engine: reading always ends, without undefined behaviour while a command is
      polled, and over any connection the frames sent are the request, as often as
      the retries allow ([read_transmissions], with a connection that records what it
      is given); silent slaves are set aside after the configured
      number of cycles ([degrade_threshold]), fail-over alternates
      ([failover_alternates]).  What the engine does not survive, such as the answer to
      a write that carries values ([write_answered_with_values]), is the event
      [EvUndefined] of its trace.
    - The configuration of the TCP driver uses and releases memory as it should,
      for any sequence of configurations ([tcp_configs_safe]).
    - The simulator: whatever clients send, no array is left and registers of tags
      are not changed ([simulator_withstands_clients]); requests are answered as
      the protocol says ([simulator_implements_server]); a driver publishes what
      the simulator has ([poll_publishes_simulator]) and reads back what it has
      written ([written_value_is_polled]); the tags survive a restart
      ([simulator_survives_restart]); the exported driver reads the registers that
      the tags were configured for, and publishes the generated signals
      ([signal_is_published]).
    - Tags: addresses, options and formats survive printing and parsing
      ([address_roundtrip], [string_option_roundtrip], [format_roundtrip]), a
      parsed point is well-formed ([tag_to_point_ok]), the CRC and the UTF-8
      check equal their reference definitions ([calcrc_correct],
      [string_is_utf8_correct]), string order swaps are involutive
      ([string_ltoh_htol]).
    - Registries: a group refines a finite map and keeps its invariant
      ([group_refines_map], [group_reachable_ok], [group_rename_in_place],
      [paginate_tiles]); the subscription manager refines a set of triples
      ([subscribe_refines_set], [group_count_correct]) and renames a driver while
      it walks the table ([update_driver_name_correct]); the node manager refines
      a map ([node_manager_refines]) and its listing returns exactly the nodes of
      a query ([node_filter_correct], [find_tag_joined]).
    - The connections: in histories of [permitted] operations descriptors are neither
      lost nor closed twice and each operation returns ([descriptors_kept]), the callbacks of a client come in turn
      ([sessions_in_turn]), a server never lacks a slot for a client that it counts
      ([server_counts_clients]), the consumer of a stream does not see how the bytes
      were cut ([stream_in_order], for a [consumer_ok]), and on every operating system
      that behaves as [SimPeer] states a driver over connection.c publishes what the
      simulator has ([poll_over_connection]).
    - Places where the code does not do what it means to are theorems as well:
      [stack_write_overflow], [stack_recv_seq_wrap], [degrade_unreachable],
      [update_driver_name_diverges], [del_monitor_drops_last],
      [filter_err_use_after_free], [refused_bytes_wild_free], [array_write_wraps],
      [nan_test_before_byte_order], [renamed_group_keeps_samples],
      [rename_stopped_leaks_timers], [updated_format_not_stored],
      [pop_takes_newest], [queue_freed_under_producer],
      [subscribe_to_application_undefined], [renamed_application_keeps_receiving],
      [emptied_topic_is_lost], [refused_write_reported_done],
      [config_tag_out_of_range], [overlapped_tag_not_stored],
      [failed_start_disables], [rtu_link_keeps_flags], [udp_to_leaks],
      [connect_twice_leaks], [server_wait_overflows], [stick_parity_kept],
      [write_answered_with_values].

    ** Assumptions, fuel and bounds

    What the code relies on and this library does not define is a parameter with
    named hypotheses: connections ([conn_ops]; [connection_ops] is the instance
    from connection.c), the operating system ([os_ops], [Posix]: a descriptor that
    is opened was not open, closing closes it, what is received fits what was asked
    for; [FiniteQueue]: at any time finitely many bytes have come in; [SimPeer]: the
    simulator can be reached), plugins ([plugin_ops], [plugin_intf], and
    [plugin_keeps]: checking a tag leaves the columns of the database alone), JSON ([Jansson] for values in the cache, [Json] with [JsonOk]
    for documents), the sine of the C library, the test whether a text is an
    address of the network, SQLite ([Sqlite], [SqliteOk]), the order of
    [qsort] on equal elements, the libraries of the plugins.  Names in requests
    are shorter than 128 bytes, since they are arrays of the messages ([short]);
    [request_ok] says what else a request has to respect for its values to fit the
    columns of the database.

    A request of the manager that a node serves is one step together with the
    answer and the messages it causes ([handled]); other requests do not come in
    between.  At start-up the nodes are loaded before their first messages are
    handled.

    The bytes that a client of the simulator sends are at most those there is room
    for ([received]); the time of the generator is one whose saw is a number
    ([time_ok]); between driver and simulator a frame arrives in one piece; the
    statements on the row of the simulator succeed.

    [DL_SORT] is given one pass per element, and [neu_tag_sort_partition] proves
    that it returns.  The driver rename is given two visits per element and one
    more, and [update_driver_name_correct] proves that this is enough.  The retry
    loop has the configured number of rounds.  The loops over the registers of the
    simulator, whose index skips, have one round per register, which
    [simulator_survives_restart] shows to be enough.  The loops of the connections
    that send, receive and consume have a round for every byte and every retry,
    which [descriptors_kept] shows to be enough; the one that clears the line ends
    only when the peer pauses, and its number of rounds is an argument, which has to
    exceed the bytes that have come in.  Everything else is structural recursion.  Counters of 16 bits bound the number of tags in a batch
    ([length tags < 65536]) where a theorem needs it.

    ** What is not modelled

    Allocation failure, log output, metrics, tracing and sleeping are left out
    everywhere; freeing is modelled in the cache, the write requests and the
    message queue, and left out elsewhere.  Of the connections, the variant of
    serial lines for smart links is left out.
    Of the manager, templates, drivers added together with their groups, plugins
    that are added and deleted, properties of nodes, the built-in dashboard, the
    nodes of single plugins and the events for the monitor are left out; of the
    database, the tables that belong to them and those of users, certificates and policies.  Of
    the simulator, the sockets, the
    reading of the configuration file and the text of the exported document are
    left out; the stand-alone simulators are programs of their own.  The entry
    points of the Modbus plugins, the north-bound plugins, the rest of the REST
    interface, the JSON codecs, the event loop and the process start-up are
    input and output over libraries. *)

From stdpp Require Export prelude strings gmap sorting.
From Stdlib Require Export ZArith Lia.

#[export] Set Default Goal Selector "!".

(** ** Scopes and notations *)

Declare Scope neuron_scope.
Delimit Scope neuron_scope with neu.
#[global] Open Scope Z_scope.

(** ** Machine integers

    C integers are values of [Z]; an assignment to an object of [w] bits
    truncates, which the definitions below write out. *)

Definition u8 (z : Z) : Z := z mod 256.
Definition u16 (z : Z) : Z := z mod 65536.
Definition u32 (z : Z) : Z := z mod 4294967296.
Definition u64 (z : Z) : Z := z mod 18446744073709551616.

(** Two's-complement reading of the low bits, for the signed C types. *)
Definition s8 (z : Z) : Z := (z + 128) mod 256 - 128.
Definition s16 (z : Z) : Z := (z + 32768) mod 65536 - 32768.
Definition s32 (z : Z) : Z := (z + 2147483648) mod 4294967296 - 2147483648.
Definition s64 (z : Z) : Z :=
  (z + 9223372036854775808) mod 18446744073709551616 - 9223372036854775808.

Abbreviation is_u8 z := (0 <= z < 256) (only parsing).
Abbreviation is_u16 z := (0 <= z < 65536) (only parsing).
Abbreviation is_u32 z := (0 <= z < 4294967296) (only parsing).
Abbreviation is_u64 z := (0 <= z < 18446744073709551616) (only parsing).

(** Linear arithmetic that also knows the truncations, division and modulo. *)
Ltac zlia :=
  unfold u8, u16, u32, u64, s8, s16, s32, s64 in *;
  Z.to_euclidean_division_equations; lia.

(** ** Hint databases

    [neuron] holds the closure lemmas (ranges, lengths) that side conditions
    need again and again; [neuron_rw] the rewriting rules that compute lengths
    and byte-level reads. *)

Create HintDb neuron.
Create Rewrite HintDb neuron_rw.

Lemma u8_range z : is_u8 (u8 z).
Proof. zlia. Qed.
Lemma u16_range z : is_u16 (u16 z).
Proof. zlia. Qed.
Lemma u32_range z : is_u32 (u32 z).
Proof. zlia. Qed.
Lemma u64_range z : is_u64 (u64 z).
Proof. zlia. Qed.

Lemma u8_id z : is_u8 z → u8 z = z.
Proof. intros. by apply Z.mod_small. Qed.
Lemma u16_id z : is_u16 z → u16 z = z.
Proof. intros. by apply Z.mod_small. Qed.
Lemma u32_id z : is_u32 z → u32 z = z.
Proof. intros. by apply Z.mod_small. Qed.

#[export] Hint Resolve u8_range u16_range u32_range u64_range : neuron.

(** ** Byte buffers *)

(** Every cell of a buffer holds a [uint8_t]. *)
Definition bytes_ok (l : list Z) : Prop := Forall (λ b, is_u8 b) l.

Lemma bytes_ok_nil : bytes_ok [].
Proof. constructor. Qed.
Lemma bytes_ok_cons b l : is_u8 b → bytes_ok l → bytes_ok (b :: l).
Proof. intros ? ?. by constructor. Qed.
Lemma bytes_ok_app l k : bytes_ok (l ++ k) ↔ bytes_ok l ∧ bytes_ok k.
Proof. apply Forall_app. Qed.
Lemma bytes_ok_take n l : bytes_ok l → bytes_ok (take n l).
Proof. apply Forall_take. Qed.
Lemma bytes_ok_drop n l : bytes_ok l → bytes_ok (drop n l).
Proof. apply Forall_drop. Qed.
Lemma bytes_ok_rev l : bytes_ok l → bytes_ok (reverse l).
Proof. apply Forall_reverse. Qed.
Lemma bytes_ok_replicate n b : is_u8 b → bytes_ok (replicate n b).
Proof. intros. by apply Forall_replicate. Qed.

#[export] Hint Resolve bytes_ok_nil bytes_ok_cons bytes_ok_take bytes_ok_drop
  bytes_ok_rev bytes_ok_replicate : neuron.

(** [n] bytes of [z], least significant first, and the inverse reading. *)
Fixpoint le_store (n : nat) (z : Z) : list Z :=
  match n with
  | O => []
  | S n' => z mod 256 :: le_store n' (z / 256)
  end.

Fixpoint le_load (l : list Z) : Z :=
  match l with
  | [] => 0
  | b :: l' => b + 256 * le_load l'
  end.

Definition be_store (n : nat) (z : Z) : list Z := reverse (le_store n z).
Definition be_load (l : list Z) : Z := le_load (reverse l).

Lemma length_le_store n z : length (le_store n z) = n.
Proof. revert z. induction n as [|n IH]; intros z; simpl; auto. Qed.

Lemma length_be_store n z : length (be_store n z) = n.
Proof. unfold be_store. by rewrite length_reverse, length_le_store. Qed.

Lemma le_store_ok n z : bytes_ok (le_store n z).
Proof.
  revert z. induction n as [|n IH]; intros z; simpl; [constructor|].
  apply bytes_ok_cons; [zlia|apply IH].
Qed.

Lemma be_store_ok n z : bytes_ok (be_store n z).
Proof. apply bytes_ok_rev, le_store_ok. Qed.

#[export] Hint Resolve le_store_ok be_store_ok : neuron.
#[export] Hint Rewrite length_le_store length_be_store : neuron_rw.

Lemma le_load_store n z : le_load (le_store n z) = z mod 256 ^ Z.of_nat n.
Proof.
  revert z. induction n as [|n IH]; intros z; cbn [le_store le_load].
  - by rewrite Z.mod_1_r.
  - rewrite IH, Nat2Z.inj_succ, Z.pow_succ_r by lia.
    rewrite Z.rem_mul_r by lia. lia.
Qed.

Lemma be_load_store n z : be_load (be_store n z) = z mod 256 ^ Z.of_nat n.
Proof. unfold be_load, be_store. rewrite reverse_involutive. apply le_load_store. Qed.

Lemma le_store_load l n :
  bytes_ok l → n = length l → le_store n (le_load l) = l.
Proof.
  intros Hok ->. induction Hok as [|b l Hb Hl IH]; simpl; [done|].
  replace ((b + 256 * le_load l) mod 256) with b by zlia.
  replace ((b + 256 * le_load l) / 256) with (le_load l) by zlia.
  by rewrite IH.
Qed.

Lemma le_load_range l : bytes_ok l → 0 <= le_load l < 256 ^ Z.of_nat (length l).
Proof.
  induction 1 as [|b l Hb Hl IH]; cbn [le_load length]; [done|].
  rewrite Nat2Z.inj_succ, Z.pow_succ_r by lia. lia.
Qed.

(** [memcpy] out of and into a buffer at an offset. *)
Definition mem_read (off n : nat) (l : list Z) : list Z := take n (drop off l).
Definition mem_write (off : nat) (src l : list Z) : list Z :=
  take off l ++ src ++ drop (off + length src) l.

Lemma length_mem_read off n l :
  (off + n <= length l)%nat → length (mem_read off n l) = n.
Proof. intros. unfold mem_read. rewrite length_take, length_drop. lia. Qed.

Lemma length_mem_write off src l :
  (off + length src <= length l)%nat → length (mem_write off src l) = length l.
Proof.
  intros. unfold mem_write. rewrite !length_app, length_take, length_drop. lia.
Qed.

Lemma mem_read_write off src l :
  (off + length src <= length l)%nat →
  mem_read off (length src) (mem_write off src l) = src.
Proof.
  intros. unfold mem_read, mem_write.
  rewrite drop_app_length' by (rewrite length_take; lia).
  by rewrite take_app_length.
Qed.

Lemma mem_write_ok off src l :
  bytes_ok src → bytes_ok l → bytes_ok (mem_write off src l).
Proof.
  intros. unfold mem_write. rewrite !bytes_ok_app. auto with neuron.
Qed.

Lemma mem_read_ok off n l : bytes_ok l → bytes_ok (mem_read off n l).
Proof. intros. unfold mem_read. auto with neuron. Qed.

(** Two adjacent stores are one store of the concatenation. *)
Lemma mem_write_app off x y l :
  (off + length x + length y <= length l)%nat →
  mem_write (off + length x) y (mem_write off x l) = mem_write off (x ++ y) l.
Proof.
  intros Hl. unfold mem_write.
  rewrite take_app_ge, drop_app_ge by (rewrite length_take; lia).
  rewrite length_take_le, Nat.add_sub_swap, Nat.sub_diag by lia. simpl.
  replace (off + length x + length y - off)%nat with (length x + length y)%nat by lia.
  rewrite take_app_length, drop_app_ge, drop_drop by lia.
  rewrite length_app, <-!app_assoc. do 4 f_equal. lia.
Qed.

#[export] Hint Resolve mem_write_ok mem_read_ok : neuron.

(** Byte-order conversions of a little-endian host. *)
Definition bswap (n : nat) (z : Z) : Z := le_load (be_store n z).
Definition htons (z : Z) : Z := bswap 2 z.
Definition ntohs (z : Z) : Z := bswap 2 z.
Definition htonl (z : Z) : Z := bswap 4 z.
Definition ntohl (z : Z) : Z := bswap 4 z.

Lemma le_store_bswap n z : le_store n (bswap n z) = be_store n z.
Proof.
  unfold bswap. apply le_store_load; [auto with neuron|].
  by rewrite length_be_store.
Qed.

Lemma bswap_load l n : n = length l → bytes_ok l → bswap n (le_load l) = be_load l.
Proof. intros -> ?. unfold bswap, be_store, be_load. by rewrite le_store_load. Qed.

Lemma bswap_involutive n z : bswap n (bswap n z) = z mod 256 ^ Z.of_nat n.
Proof.
  unfold bswap at 1, be_store. rewrite le_store_bswap.
  unfold be_store. by rewrite reverse_involutive, le_load_store.
Qed.

#[global] Arguments le_store : simpl never.
#[global] Arguments le_load : simpl never.
#[global] Arguments be_store : simpl never.
#[global] Arguments be_load : simpl never.
#[global] Arguments mem_write : simpl never.
#[global] Arguments mem_read : simpl never.

(** ** C strings *)

(** What a [char\[n\]] field keeps of a string copied into it with a size
    limit of [n] characters. *)
Definition cstr_trunc (n : nat) (s : string) : string := String.substring 0 n s.

(** [strstr (hay, needle) != NULL] *)
Definition strstr (hay needle : string) : bool :=
  match String.index 0 needle hay with Some _ => true | None => false end.

Lemma substring_full s n : (String.length s <= n)%nat → String.substring 0 n s = s.
Proof.
  revert n. induction s as [|c s IH]; intros [|n]; simpl; intros Hn; try done; try lia.
  by rewrite IH by lia.
Qed.

(** ** Lists *)

Lemma Forall_snoc {A} (P : A → Prop) l x : Forall P (l ++ [x]) ↔ Forall P l ∧ P x.
Proof. rewrite Forall_app, Forall_singleton. done. Qed.

Lemma Forall_sublist {A} (P : A → Prop) l k : l `sublist_of` k → Forall P k → Forall P l.
Proof.
  rewrite !Forall_forall. intros Hs HP x Hx. apply HP. by eapply elem_of_sublist.
Qed.

Lemma StronglySorted_sublist {A} (R : relation A) l k :
  l `sublist_of` k → StronglySorted R k → StronglySorted R l.
Proof.
  induction 1 as [|x l k Hsub IH|x l k Hsub IH]; intros Hs; [done| |];
    apply StronglySorted_inv in Hs as [Hs Hx]; [|by apply IH].
  constructor; [by apply IH|]. by eapply Forall_sublist.
Qed.

Lemma last_snoc_inv {A} (l : list A) x : last l = Some x → ∃ k, l = k ++ [x].
Proof.
  destruct l as [|y l] using rev_ind; [done|].
  rewrite last_snoc. intros [= ->]. eauto.
Qed.

Lemma nth_fmap_lt {A B} (f : A → B) (l : list A) i d d' :
  (i < length l)%nat → nth i (f <$> l) d' = f (nth i l d).
Proof.
  revert i. induction l as [|x l IH]; intros [|i] Hi; simpl in *; try lia; try done.
  apply IH. lia.
Qed.

(** Finite case analysis over an interval of integers by computation. *)
Lemma interval_decide (P : Z → Prop) `{∀ z, Decision (P z)} lo n :
  forallb (λ z, bool_decide (P z)) (seqZ lo n) = true → ∀ b, lo <= b < lo + n → P b.
Proof.
  intros Hall b Hb. apply (bool_decide_eq_true_1 _).
  apply (proj1 (forallb_forall (λ z, bool_decide (P z)) (seqZ lo n)) Hall).
  apply list_elem_of_In, elem_of_seqZ. lia.
Qed.
