(* ===== verification/UtHash.v ===== *)
(** * Insertion-ordered hash tables (uthash)

    The server keeps every registry (tags of a group, nodes, subscriptions,
    cached values) in a uthash table.  [HASH_ITER] visits the elements in
    insertion order, so a table is modelled by the list of its elements in that
    order, with the field the macro was given as the key.  The abstract
    contract is a finite map: [to_map] is the abstraction function and the
    lemmas of section [Refinement] show that each macro implements the map
    operation. *)

From S2P Require Import Prelude.

Section Table.
Context {K A : Type} `{EqDecision K} (key : A → K).

(** [HASH_FIND]: the element with key [k]. *)
Fixpoint hash_find (k : K) (t : list A) : option A :=
  match t with
  | [] => None
  | e :: t' => if decide (key e = k) then Some e else hash_find k t'
  end.

(** [HASH_ADD]: a new element goes to the end of the application order. *)
Definition hash_add (e : A) (t : list A) : list A := t ++ [e].

(** [HASH_DEL] of the element that [HASH_FIND] returned for [k]. *)
Fixpoint hash_del (k : K) (t : list A) : list A :=
  match t with
  | [] => []
  | e :: t' => if decide (key e = k) then t' else e :: hash_del k t'
  end.

(** A write through the pointer that [HASH_FIND] returned for [k]. *)
Fixpoint hash_update (k : K) (f : A → A) (t : list A) : list A :=
  match t with
  | [] => []
  | e :: t' => if decide (key e = k) then f e :: t' else e :: hash_update k f t'
  end.

(** [HASH_ADD_KEYPTR_INORDER]: the macro walks from the head and stops in front
    of the first element that compares greater than the new one. *)
Fixpoint hash_add_inorder (cmp : A → A → Z) (e : A) (t : list A) : list A :=
  match t with
  | [] => [e]
  | x :: t' => if decide (cmp x e > 0) then e :: x :: t'
               else x :: hash_add_inorder cmp e t'
  end.

(** The representation invariant: no two elements share a key. *)
Definition table_ok (t : list A) : Prop := NoDup (key <$> t).

Lemma hash_find_Some k t e : hash_find k t = Some e → e ∈ t ∧ key e = k.
Proof.
  induction t as [|x t IH]; simpl; [done|].
  case_decide; intros He; simplify_eq; [set_solver|].
  destruct (IH He). set_solver.
Qed.

Lemma hash_find_None k t : hash_find k t = None ↔ k ∉ key <$> t.
Proof.
  induction t as [|x t IH]; csimpl.
  - split; intros _; [apply not_elem_of_nil|done].
  - case_decide; rewrite not_elem_of_cons; naive_solver.
Qed.

Lemma hash_find_is_Some k t : is_Some (hash_find k t) ↔ k ∈ key <$> t.
Proof.
  destruct (hash_find k t) as [e|] eqn:E.
  - apply hash_find_Some in E as [? <-]. split; [|eauto].
    intros _. by apply list_elem_of_fmap_2.
  - apply hash_find_None in E. split; [by intros []|done].
Qed.

Lemma hash_find_elem t e : table_ok t → e ∈ t → hash_find (key e) t = Some e.
Proof.
  unfold table_ok. induction t as [|x t IH]; csimpl; [set_solver|].
  rewrite NoDup_cons. intros [Hx Ht] [->|He]%elem_of_cons.
  - by rewrite decide_True.
  - rewrite decide_False; [by apply IH|].
    intros Hk. apply Hx. rewrite Hk. by apply list_elem_of_fmap_2.
Qed.

Lemma table_ok_inj t e e' : table_ok t → e ∈ t → e' ∈ t → key e = key e' → e = e'.
Proof.
  intros Ht He He' Hk. apply hash_find_elem in He; [|done].
  apply hash_find_elem in He'; [|done]. congruence.
Qed.

Lemma hash_find_add k e t :
  hash_find k (hash_add e t) =
    match hash_find k t with
    | Some x => Some x
    | None => if decide (key e = k) then Some e else None
    end.
Proof.
  unfold hash_add. induction t as [|x t IH]; simpl; [done|].
  destruct (decide (key x = k)); [done|apply IH].
Qed.

Lemma table_ok_add e t :
  table_ok t → hash_find (key e) t = None → table_ok (hash_add e t).
Proof.
  unfold table_ok, hash_add. rewrite hash_find_None, fmap_app. intros Ht He.
  apply NoDup_app. split_and!; [done| |apply NoDup_singleton].
  intros k Hk ->%list_elem_of_singleton. done.
Qed.

Lemma hash_del_sublist k t : hash_del k t `sublist_of` t.
Proof.
  induction t as [|x t IH]; simpl; [done|].
  case_decide; [by apply sublist_cons|by apply sublist_skip].
Qed.

Lemma table_ok_sublist t t' : t' `sublist_of` t → table_ok t → table_ok t'.
Proof. intros Hs Ht. eapply sublist_NoDup; [exact Ht|]. by apply fmap_sublist. Qed.

Lemma table_ok_del k t : table_ok t → table_ok (hash_del k t).
Proof. apply table_ok_sublist, hash_del_sublist. Qed.

Lemma hash_del_absent k t : hash_find k t = None → hash_del k t = t.
Proof.
  induction t as [|x t IH]; simpl; [done|]. case_decide; [done|].
  intros. by rewrite IH.
Qed.

Lemma hash_find_del k k' t :
  table_ok t →
  hash_find k (hash_del k' t) = if decide (k = k') then None else hash_find k t.
Proof.
  unfold table_ok. induction t as [|x t IH]; csimpl.
  { by case_decide. }
  rewrite NoDup_cons. intros [Hx Ht].
  destruct (decide (key x = k')) as [<-|Hne]; simpl.
  - destruct (decide (k = key x)) as [->|Hk]; [by apply hash_find_None|].
    by rewrite decide_False.
  - rewrite IH by done.
    destruct (decide (key x = k)), (decide (k = k')); congruence.
Qed.

Lemma elem_of_hash_del k t e :
  table_ok t → (e ∈ hash_del k t ↔ e ∈ t ∧ key e ≠ k).
Proof.
  unfold table_ok. induction t as [|x t IH]; csimpl; [set_solver|].
  rewrite NoDup_cons. intros [Hx Ht]. case_decide as Hk.
  - subst k. rewrite elem_of_cons. split.
    + intros He. split; [by right|]. intros Heq. apply Hx.
      rewrite <-Heq. by apply list_elem_of_fmap_2.
    + intros [[->|He] ?]; done.
  - rewrite !elem_of_cons, IH by done. naive_solver.
Qed.

Lemma length_hash_del k t :
  is_Some (hash_find k t) → S (length (hash_del k t)) = length t.
Proof.
  induction t as [|x t IH]; simpl; [by intros []|].
  case_decide; [done|]. simpl. intros. by rewrite IH.
Qed.

(** An in-place write that keeps the key keeps the whole key sequence. *)
Lemma hash_update_keys k f t :
  (∀ e, key (f e) = key e) → key <$> hash_update k f t = key <$> t.
Proof.
  intros Hf. induction t as [|x t IH]; simpl; [done|].
  case_decide; csimpl; by rewrite ?Hf, ?IH.
Qed.

Lemma hash_find_update k k' f t :
  (∀ e, key (f e) = key e) →
  hash_find k (hash_update k' f t) =
    if decide (k = k') then f <$> hash_find k t else hash_find k t.
Proof.
  intros Hf. induction t as [|x t IH]; simpl; [by case_decide|].
  destruct (decide (key x = k')) as [<-|Hne]; simpl; rewrite ?Hf;
    repeat case_decide; simplify_eq/=; try done; by rewrite IH.
Qed.

(** Overwriting the found element with one of the same key. *)
Lemma hash_replace_keys k e' t :
  key e' = k → key <$> hash_update k (λ _, e') t = key <$> t.
Proof.
  intros Hk. induction t as [|x t IH]; simpl; [done|].
  case_decide; csimpl; congruence.
Qed.

Lemma hash_find_replace k k' e' t :
  key e' = k' →
  hash_find k (hash_update k' (λ _, e') t) =
    if decide (k = k') then (λ _, e') <$> hash_find k t else hash_find k t.
Proof.
  intros Hf. induction t as [|x t IH]; simpl; [by case_decide|].
  destruct (decide (key x = k')) as [Hx|Hne]; simpl;
    repeat case_decide; simplify_eq/=; try done; by rewrite IH.
Qed.

(** With unique keys, a write through the found pointer is a map over the
    elements. *)
Lemma hash_update_fmap k f t :
  table_ok t → hash_update k f t = (λ e, if decide (key e = k) then f e else e) <$> t.
Proof.
  unfold table_ok. induction t as [|x t IH]; csimpl; [done|].
  rewrite NoDup_cons. intros [Hx Ht]. destruct (decide (key x = k)) as [Hk|Hk].
  - f_equal. rewrite <-(list_fmap_id t) at 1. apply list_fmap_ext. intros i e He.
    rewrite decide_False; [done|]. intros Hek. apply Hx. rewrite Hk, <-Hek.
    apply list_elem_of_fmap_2. by eapply list_elem_of_lookup_2.
  - by rewrite IH.
Qed.

Lemma elem_of_hash_update k f t e :
  table_ok t →
  e ∈ hash_update k f t ↔ (∃ e0, hash_find k t = Some e0 ∧ e = f e0) ∨ (e ∈ t ∧ key e ≠ k).
Proof.
  intros Ht. rewrite hash_update_fmap, list_elem_of_fmap by done. split.
  - intros (e0 & -> & He). destruct (decide (key e0 = k)) as [<-|Hk]; [left|by right].
    exists e0. split; [by apply hash_find_elem|done].
  - intros [(e0 & Hf & ->)|[He Hk]].
    + exists e0. apply hash_find_Some in Hf as [He Hk]. by rewrite decide_True.
    + exists e. by rewrite decide_False.
Qed.

Lemma elem_of_hash_replace k e' t x :
  table_ok t → x ∈ hash_update k (λ _, e') t → x = e' ∨ (x ∈ t ∧ key x ≠ k).
Proof.
  intros Ht Hx. rewrite hash_update_fmap in Hx by done.
  apply list_elem_of_fmap in Hx as (y & -> & Hy). destruct (decide (key y = k)); auto.
Qed.

Lemma hash_add_inorder_perm cmp e t : hash_add_inorder cmp e t ≡ₚ e :: t.
Proof.
  induction t as [|x t IH]; simpl; [done|]. case_decide; [done|].
  rewrite IH. apply Permutation_swap.
Qed.

Lemma table_ok_perm t t' : t ≡ₚ t' → table_ok t → table_ok t'.
Proof. intros Hp. unfold table_ok. by rewrite Hp. Qed.

Lemma table_ok_cons_fresh e t :
  table_ok t → hash_find (key e) t = None → table_ok (e :: t).
Proof. unfold table_ok. csimpl. rewrite hash_find_None, NoDup_cons. done. Qed.

Lemma hash_find_perm k t t' :
  table_ok t → t ≡ₚ t' → hash_find k t = hash_find k t'.
Proof.
  intros Ht Hp. pose proof (table_ok_perm _ _ Hp Ht) as Ht'.
  destruct (hash_find k t') as [e|] eqn:E.
  - apply hash_find_Some in E as [He <-]. apply hash_find_elem; [done|].
    by rewrite Hp.
  - apply hash_find_None in E. apply hash_find_None. by rewrite Hp.
Qed.
End Table.

#[export] Hint Resolve table_ok_add table_ok_del table_ok_perm : neuron.

(** ** Refinement: a table implements a finite map *)
Section Refinement.
Context {K A : Type} `{Countable K} (key : A → K).

Definition to_map (t : list A) : gmap K A := list_to_map ((λ e, (key e, e)) <$> t).

Lemma to_map_lookup t k : to_map t !! k = hash_find key k t.
Proof.
  unfold to_map. induction t as [|x t IH]; csimpl; [apply lookup_empty|].
  destruct (decide (key x = k)) as [<-|Hne].
  - by rewrite lookup_insert_eq.
  - by rewrite lookup_insert_ne, IH.
Qed.

Lemma to_map_add e t :
  hash_find key (key e) t = None → to_map (hash_add e t) = <[key e := e]> (to_map t).
Proof.
  intros Hn. apply map_eq. intros k. rewrite to_map_lookup, hash_find_add.
  destruct (decide (key e = k)) as [<-|Hne].
  - by rewrite lookup_insert_eq, Hn.
  - rewrite lookup_insert_ne, to_map_lookup by done. by destruct (hash_find key k t).
Qed.

Lemma to_map_del k t : table_ok key t → to_map (hash_del key k t) = delete k (to_map t).
Proof.
  intros Ht. apply map_eq. intros k'. rewrite to_map_lookup, hash_find_del by done.
  case_decide as Hk; [subst; by rewrite lookup_delete_eq|].
  by rewrite lookup_delete_ne, to_map_lookup.
Qed.

Lemma to_map_update k f t :
  (∀ e, key (f e) = key e) → to_map (hash_update key k f t) = alter f k (to_map t).
Proof.
  intros Hf. apply map_eq. intros k'. rewrite to_map_lookup, hash_find_update by done.
  rewrite lookup_alter, !to_map_lookup.
  destruct (decide (k = k')), (decide (k' = k)); congruence.
Qed.
End Refinement.
