(* ===== verification/NeuTypes.v ===== *)
(** * Data types shared by every component

    include/neuron/type.h, tag.h, define.h and errcodes.h: the tag types, the
    value union, byte-order helpers, the tag record and the error codes. *)

From S2P Require Import Prelude.

(** ** Error codes *)
Definition NEU_ERR_SUCCESS : Z := 0.
Definition NEU_ERR_EINTERNAL : Z := 1001.
Definition NEU_ERR_NODE_EXIST : Z := 2002.
Definition NEU_ERR_NODE_NOT_EXIST : Z := 2003.
Definition NEU_ERR_GROUP_ALREADY_SUBSCRIBED : Z := 2101.
Definition NEU_ERR_GROUP_NOT_SUBSCRIBE : Z := 2102.
Definition NEU_ERR_TAG_NOT_EXIST : Z := 2201.
Definition NEU_ERR_TAG_NAME_CONFLICT : Z := 2202.
Definition NEU_ERR_TAG_ATTRIBUTE_NOT_SUPPORT : Z := 2203.
Definition NEU_ERR_TAG_TYPE_NOT_SUPPORT : Z := 2204.
Definition NEU_ERR_TAG_ADDRESS_FORMAT_INVALID : Z := 2205.
Definition NEU_ERR_PLUGIN_READ_FAILURE : Z := 3000.
Definition NEU_ERR_PLUGIN_DISCONNECTED : Z := 3002.
Definition NEU_ERR_PLUGIN_TAG_NOT_ALLOW_WRITE : Z := 3004.
Definition NEU_ERR_PLUGIN_PROTOCOL_DECODE_FAILURE : Z := 3009.
Definition NEU_ERR_PLUGIN_DEVICE_NOT_RESPONSE : Z := 3015.

(** ** Tag types *)
Inductive neu_type_e :=
  | NEU_TYPE_INT8 | NEU_TYPE_UINT8 | NEU_TYPE_INT16 | NEU_TYPE_UINT16
  | NEU_TYPE_INT32 | NEU_TYPE_UINT32 | NEU_TYPE_INT64 | NEU_TYPE_UINT64
  | NEU_TYPE_FLOAT | NEU_TYPE_DOUBLE | NEU_TYPE_BIT | NEU_TYPE_BOOL
  | NEU_TYPE_STRING | NEU_TYPE_BYTES | NEU_TYPE_ERROR | NEU_TYPE_WORD
  | NEU_TYPE_DWORD | NEU_TYPE_LWORD | NEU_TYPE_PTR | NEU_TYPE_TIME
  | NEU_TYPE_DATA_AND_TIME | NEU_TYPE_ARRAY_CHAR | NEU_TYPE_ARRAY_INT8
  | NEU_TYPE_ARRAY_UINT8 | NEU_TYPE_ARRAY_INT16 | NEU_TYPE_ARRAY_UINT16
  | NEU_TYPE_ARRAY_INT32 | NEU_TYPE_ARRAY_UINT32 | NEU_TYPE_ARRAY_INT64
  | NEU_TYPE_ARRAY_UINT64 | NEU_TYPE_ARRAY_FLOAT | NEU_TYPE_ARRAY_DOUBLE
  | NEU_TYPE_ARRAY_BOOL | NEU_TYPE_ARRAY_STRING | NEU_TYPE_CUSTOM.

#[export] Instance neu_type_e_eq_dec : EqDecision neu_type_e.
Proof. solve_decision. Defined.

(** The integer value of each enumerator. *)
Definition type_code (t : neu_type_e) : Z :=
  match t with
  | NEU_TYPE_INT8 => 1 | NEU_TYPE_UINT8 => 2 | NEU_TYPE_INT16 => 3
  | NEU_TYPE_UINT16 => 4 | NEU_TYPE_INT32 => 5 | NEU_TYPE_UINT32 => 6
  | NEU_TYPE_INT64 => 7 | NEU_TYPE_UINT64 => 8 | NEU_TYPE_FLOAT => 9
  | NEU_TYPE_DOUBLE => 10 | NEU_TYPE_BIT => 11 | NEU_TYPE_BOOL => 12
  | NEU_TYPE_STRING => 13 | NEU_TYPE_BYTES => 14 | NEU_TYPE_ERROR => 15
  | NEU_TYPE_WORD => 16 | NEU_TYPE_DWORD => 17 | NEU_TYPE_LWORD => 18
  | NEU_TYPE_PTR => 19 | NEU_TYPE_TIME => 20 | NEU_TYPE_DATA_AND_TIME => 21
  | NEU_TYPE_ARRAY_CHAR => 22 | NEU_TYPE_ARRAY_INT8 => 23
  | NEU_TYPE_ARRAY_UINT8 => 24 | NEU_TYPE_ARRAY_INT16 => 25
  | NEU_TYPE_ARRAY_UINT16 => 26 | NEU_TYPE_ARRAY_INT32 => 27
  | NEU_TYPE_ARRAY_UINT32 => 28 | NEU_TYPE_ARRAY_INT64 => 29
  | NEU_TYPE_ARRAY_UINT64 => 30 | NEU_TYPE_ARRAY_FLOAT => 31
  | NEU_TYPE_ARRAY_DOUBLE => 32 | NEU_TYPE_ARRAY_BOOL => 33
  | NEU_TYPE_ARRAY_STRING => 34 | NEU_TYPE_CUSTOM => 40
  end.

(** ** Attributes *)
Definition NEU_ATTRIBUTE_READ : Z := 1.
Definition NEU_ATTRIBUTE_WRITE : Z := 2.
Definition NEU_ATTRIBUTE_SUBSCRIBE : Z := 4.

Definition attribute_test (attribute mask : Z) : bool :=
  Z.land attribute mask =? mask.

(** ** The union [neu_datatag_addr_option_u]

    Twelve bytes of memory with overlapping fields: [string.length] (16 bits),
    [bytes.length] (8 bits), [bit.op] and the endian codes all start at offset
    0.  The accessors read and write that memory the way a little-endian
    machine does. *)
Definition addr_option := list Z.
Definition addr_option_zero : addr_option := replicate 12 0.

Definition opt_endian (o : addr_option) : Z := le_load (mem_read 0 4 o).
Definition opt_value_default (o : addr_option) : bool := negb (le_load (mem_read 4 1 o) =? 0).
Definition opt_string_length (o : addr_option) : Z := le_load (mem_read 0 2 o).
Definition opt_string_type (o : addr_option) : Z := le_load (mem_read 4 4 o).
Definition opt_string_default (o : addr_option) : bool := negb (le_load (mem_read 8 1 o) =? 0).
Definition opt_bytes_length (o : addr_option) : Z := le_load (mem_read 0 1 o).
Definition opt_bit_op (o : addr_option) : bool := negb (le_load (mem_read 0 1 o) =? 0).
Definition opt_bit (o : addr_option) : Z := le_load (mem_read 1 1 o).

Definition set_endian (e : Z) (o : addr_option) : addr_option := mem_write 0 (le_store 4 e) o.
Definition set_value_default (b : bool) (o : addr_option) : addr_option :=
  mem_write 4 [if b then 1 else 0] o.
Definition set_string_length (n : Z) (o : addr_option) : addr_option := mem_write 0 (le_store 2 n) o.
Definition set_string_type (t : Z) (o : addr_option) : addr_option := mem_write 4 (le_store 4 t) o.
Definition set_string_default (b : bool) (o : addr_option) : addr_option :=
  mem_write 8 [if b then 1 else 0] o.
Definition set_bytes_length (n : Z) (o : addr_option) : addr_option := mem_write 0 (le_store 1 n) o.
Definition set_bit_op (b : bool) (o : addr_option) : addr_option :=
  mem_write 0 [if b then 1 else 0] o.
Definition set_bit (n : Z) (o : addr_option) : addr_option := mem_write 1 (le_store 1 n) o.

(** [neu_datatag_endian_e] and [neu_datatag_string_type_e] *)
Definition NEU_DATATAG_ENDIAN_L16 : Z := 0.
Definition NEU_DATATAG_ENDIAN_B16 : Z := 1.
Definition NEU_DATATAG_ENDIAN_LL32 : Z := 2.
Definition NEU_DATATAG_ENDIAN_LB32 : Z := 3.
Definition NEU_DATATAG_ENDIAN_BB32 : Z := 4.
Definition NEU_DATATAG_ENDIAN_BL32 : Z := 5.
Definition NEU_DATATAG_ENDIAN_L64 : Z := 6.
Definition NEU_DATATAG_ENDIAN_B64 : Z := 7.
Definition NEU_DATATAG_ENDIAN_LL64 : Z := 8.
Definition NEU_DATATAG_ENDIAN_LB64 : Z := 9.
Definition NEU_DATATAG_ENDIAN_BB64 : Z := 10.
Definition NEU_DATATAG_ENDIAN_BL64 : Z := 11.
Definition NEU_DATATAG_ENDIAN_WS64 : Z := 12.
Definition NEU_DATATAG_ENDIAN_WR64 : Z := 13.

Definition NEU_DATATAG_STRING_TYPE_H : Z := 0.
Definition NEU_DATATAG_STRING_TYPE_L : Z := 1.
Definition NEU_DATATAG_STRING_TYPE_D : Z := 2.
Definition NEU_DATATAG_STRING_TYPE_E : Z := 3.

(** ** The tag record [neu_datatag_t]

    [description] and [unit] are [NULL]-able in the C struct.  The floating
    point fields [decimal] and [bias] are carried as uninterpreted values. *)
Record neu_datatag_t := {
  tag_name : string;
  tag_address : string;
  tag_attribute : Z;
  tag_type : neu_type_e;
  tag_precision : Z;
  tag_decimal : Z;
  tag_bias : Z;
  tag_description : option string;
  tag_unit : option string;
  tag_option : addr_option;
  tag_meta : list Z;
  tag_format : list Z;
  tag_n_format : Z;
}.

(** ** The value union [neu_value_u]

    264 bytes (the [bytes] member needs 257, rounded up to the alignment of the
    pointers).  [value_zero] is the [{ 0 }] initializer. *)
Definition neu_value_u := list Z.
Definition NEU_VALUE_SIZE : nat := 256.
Definition value_zero : neu_value_u := replicate 264 0.

Definition val_u8 (v : neu_value_u) : Z := le_load (mem_read 0 1 v).
Definition val_u16 (v : neu_value_u) : Z := le_load (mem_read 0 2 v).
Definition val_u32 (v : neu_value_u) : Z := le_load (mem_read 0 4 v).
Definition val_u64 (v : neu_value_u) : Z := le_load (mem_read 0 8 v).
Definition set_u8 (z : Z) (v : neu_value_u) : neu_value_u := mem_write 0 (le_store 1 z) v.
Definition set_u16 (z : Z) (v : neu_value_u) : neu_value_u := mem_write 0 (le_store 2 z) v.
Definition set_u32 (z : Z) (v : neu_value_u) : neu_value_u := mem_write 0 (le_store 4 z) v.
Definition set_u64 (z : Z) (v : neu_value_u) : neu_value_u := mem_write 0 (le_store 8 z) v.

(** ** 64-bit byte orders: one permutation of the eight bytes each *)
Definition permute_bytes (p : list nat) (u : Z) : Z :=
  le_load ((λ i, nth i (le_store 8 u) 0) <$> p).

Definition neu_htonll : Z → Z := permute_bytes [7; 6; 5; 4; 3; 2; 1; 0]%nat.
Definition neu_htonlb : Z → Z := permute_bytes [1; 0; 3; 2; 5; 4; 7; 6]%nat.
Definition neu_htonbl : Z → Z := permute_bytes [6; 7; 4; 5; 2; 3; 0; 1]%nat.
Definition neu_htonws : Z → Z := permute_bytes [2; 3; 0; 1; 6; 7; 4; 5]%nat.
Definition neu_htonwr : Z → Z := permute_bytes [4; 5; 6; 7; 0; 1; 2; 3]%nat.
Definition neu_ntohll (u : Z) : Z := neu_htonll u.

(** [neu_ntohs_p] on the two bytes at offset [off] of a value. *)
Definition neu_ntohs_p (off : nat) (v : neu_value_u) : neu_value_u :=
  mem_write off (le_store 2 (ntohs (le_load (mem_read off 2 v)))) v.

(** ** Bits of 8- and 16-bit values

    The bit fields [b0], [b1], ... are allocated from the least significant
    bit; an index outside the [switch] runs into [assert (1 == 0)], which is
    [None]. *)
Definition get_bit_n (n : Z) (value index : Z) : option Z :=
  if decide (0 <= index < n) then Some (Z.b2z (Z.testbit value index)) else None.
Definition set_bit_n (n : Z) (value index v : Z) : option Z :=
  if decide (0 <= index < n)
  then Some (if Z.odd v then Z.setbit value index else Z.clearbit value index)
  else None.

Definition neu_value8_get_bit : Z → Z → option Z := get_bit_n 8.
Definition neu_value8_set_bit : Z → Z → Z → option Z := set_bit_n 8.
Definition neu_value16_get_bit : Z → Z → option Z := get_bit_n 16.
Definition neu_value16_set_bit : Z → Z → Z → option Z := set_bit_n 16.

(** 24-bit values: three bytes, least significant first. *)
Definition neu_value24_set (v : Z) : option (list Z) :=
  if decide (Z.land v 0xff000000 = 0)
  then Some [Z.land v 0xff; Z.land (Z.shiftr v 8) 0xff; Z.land (Z.shiftr v 16) 0xff]
  else None.
Definition neu_value24_get (v24 : list Z) : Z :=
  match v24 with
  | b0 :: b1 :: b2 :: _ => Z.lor (Z.lor b0 (Z.shiftl b1 8)) (Z.shiftl b2 16)
  | _ => 0
  end.

(** ** Lemmas on the byte orders *)

Lemma le_store_8 u : ∃ b0 b1 b2 b3 b4 b5 b6 b7,
  le_store 8 u = [b0; b1; b2; b3; b4; b5; b6; b7].
Proof. cbn [le_store]. by do 8 eexists. Qed.

Lemma permute_bytes_store p u :
  length p = 8%nat → le_store 8 (permute_bytes p u) = (λ i, nth i (le_store 8 u) 0) <$> p.
Proof.
  intros Hp. unfold permute_bytes. apply le_store_load; [|by rewrite length_fmap].
  apply Forall_fmap, Forall_true. intros i. cbv beta delta [compose].
  destruct (decide (i < 8)%nat).
  - pose proof (le_store_ok 8 u) as Hok. unfold bytes_ok in Hok.
    rewrite Forall_nth in Hok. apply Hok. by rewrite length_le_store.
  - rewrite nth_overflow by (rewrite length_le_store; lia). lia.
Qed.

(** Composing a byte permutation with itself gives the identity as soon as it
    does so on the eight positions. *)
Lemma permute_bytes_involutive p u :
  length p = 8%nat → (λ i, nth i p 0%nat) <$> p = seq 0 8 →
  Forall (λ i, (i < 8)%nat) p →
  permute_bytes p (permute_bytes p u) = u64 u.
Proof.
  intros Hl Hp Hf. unfold permute_bytes at 1.
  rewrite permute_bytes_store by done.
  trans (le_load ((λ i, nth i (le_store 8 u) 0) <$> seq 0 8)).
  - f_equal. rewrite <-Hp, <-list_fmap_compose. apply list_fmap_ext.
    intros k i Hk. cbv beta delta [compose].
    apply Forall_lookup_1 with (i := k) (x := i) in Hf; [|done].
    apply (nth_fmap_lt (λ j, nth j (le_store 8 u) 0)). lia.
  - destruct (le_store_8 u) as (?&?&?&?&?&?&?&?&E). 
    trans (le_load (le_store 8 u)); [by rewrite E|]. by rewrite le_load_store.
Qed.

Lemma neu_htonll_involutive u : neu_htonll (neu_htonll u) = u64 u.
Proof. by apply permute_bytes_involutive; repeat constructor. Qed.
Lemma neu_htonlb_involutive u : neu_htonlb (neu_htonlb u) = u64 u.
Proof. by apply permute_bytes_involutive; repeat constructor. Qed.
Lemma neu_htonbl_involutive u : neu_htonbl (neu_htonbl u) = u64 u.
Proof. by apply permute_bytes_involutive; repeat constructor. Qed.
Lemma neu_htonws_involutive u : neu_htonws (neu_htonws u) = u64 u.
Proof. by apply permute_bytes_involutive; repeat constructor. Qed.
Lemma neu_htonwr_involutive u : neu_htonwr (neu_htonwr u) = u64 u.
Proof. by apply permute_bytes_involutive; repeat constructor. Qed.

Lemma neu_htonll_bswap u : neu_htonll u = bswap 8 u.
Proof.
  unfold neu_htonll, permute_bytes, bswap, be_store.
  destruct (le_store_8 u) as (?&?&?&?&?&?&?&?&E). by rewrite E.
Qed.

Lemma neu_ntohll_htonll u : neu_ntohll (neu_htonll u) = u64 u.
Proof. apply neu_htonll_involutive. Qed.

Lemma get_set_bit_n n value i j v w :
  set_bit_n n value i v = Some w → 0 <= j < n →
  get_bit_n n w j =
    if decide (i = j) then Some (Z.b2z (Z.odd v)) else get_bit_n n value j.
Proof.
  unfold set_bit_n, get_bit_n. case_decide as Hi; [|done]. intros [= <-] Hj.
  rewrite (decide_True _ _ Hj). destruct (decide (i = j)) as [->|Hne].
  - destruct (Z.odd v); [rewrite Z.setbit_eq by lia|rewrite Z.clearbit_eq]; done.
  - rewrite (decide_True _ _ Hj).
    destruct (Z.odd v); [rewrite Z.setbit_neq by lia|rewrite Z.clearbit_neq by lia]; done.
Qed.
