(* ===== verification/CStd.v ===== *)
(** * The parts of the C library the tag code relies on

    [sscanf] with the conversions the sources use, and decimal printing
    ([%d] of a non-negative number). *)

From Stdlib Require Import Ascii.
From S2P Require Import Prelude.

Definition char_code (c : ascii) : Z := Z.of_nat (nat_of_ascii c).

(** [isspace] *)
Definition is_space (c : ascii) : bool :=
  let n := char_code c in (n =? 32) || ((9 <=? n) && (n <=? 13)).

Fixpoint skip_ws (s : string) : string :=
  match s with
  | String c s' => if is_space c then skip_ws s' else s
  | EmptyString => EmptyString
  end.

Definition digit_of (c : ascii) : option Z :=
  let n := char_code c in
  if (48 <=? n) && (n <=? 57) then Some (n - 48) else None.

(** The longest run of decimal digits, accumulated into [acc]. *)
Fixpoint scan_digits (acc : Z) (s : string) : Z * string :=
  match s with
  | String c s' =>
      match digit_of c with
      | Some d => scan_digits (acc * 10 + d) s'
      | None => (acc, s)
      end
  | EmptyString => (acc, s)
  end.

(** An optional sign and at least one digit: the subject of [strtol]. *)
Definition scan_sign (s : string) : bool * string :=
  match s with
  | String c s' =>
      if decide (c = "-"%char) then (true, s')
      else if decide (c = "+"%char) then (false, s') else (false, s)
  | EmptyString => (false, s)
  end.

Definition scan_number (s : string) : option (bool * Z * string) :=
  let '(neg, s1) := scan_sign s in
  match s1 with
  | String c s2 =>
      match digit_of c with
      | Some d => let '(v, rest) := scan_digits d s2 in Some (neg, v, rest)
      | None => None
      end
  | EmptyString => None
  end.

(** [strtoul] and [strtol] on a 64-bit [long], with their saturation. *)
Definition strtoul_value (neg : bool) (v : Z) : Z :=
  if v >=? 18446744073709551616 then 18446744073709551615
  else if neg then u64 (- v) else v.
Definition strtol_value (neg : bool) (v : Z) : Z :=
  if neg then (if v >? 9223372036854775808 then - 9223372036854775808 else - v)
  else (if v >? 9223372036854775807 then 9223372036854775807 else v).

(** Conversion directives.  The numeric ones carry the truncation of the
    assignment to the object the caller passes ([hh], [h] or no modifier). *)
Inductive directive :=
  | DLit (c : ascii)
  | DChar
  | DUnsigned (trunc : Z → Z)
  | DSigned (trunc : Z → Z).

(** [sscanf]: the values assigned, in order, and whether it stopped because
    the input ended. *)
Fixpoint sscanf_run (ds : list directive) (s : string) : list Z * bool :=
  match ds with
  | [] => ([], false)
  | DLit c :: ds' =>
      match s with
      | String c' s' => if decide (c' = c) then sscanf_run ds' s' else ([], false)
      | EmptyString => ([], true)
      end
  | DChar :: ds' =>
      match s with
      | String c' s' => let '(vs, e) := sscanf_run ds' s' in (char_code c' :: vs, e)
      | EmptyString => ([], true)
      end
  | DUnsigned trunc :: ds' =>
      match scan_number (skip_ws s) with
      | Some (neg, v, s') =>
          let '(vs, e) := sscanf_run ds' s' in (trunc (strtoul_value neg v) :: vs, e)
      | None => ([], match skip_ws s with EmptyString => true | _ => false end)
      end
  | DSigned trunc :: ds' =>
      match scan_number (skip_ws s) with
      | Some (neg, v, s') =>
          let '(vs, e) := sscanf_run ds' s' in (trunc (strtol_value neg v) :: vs, e)
      | None => ([], match skip_ws s with EmptyString => true | _ => false end)
      end
  end.

Definition sscanf (ds : list directive) (s : string) : list Z := fst (sscanf_run ds s).

(** The return value: the number of assignments, or [EOF] when the input ended
    before the first one. *)
Definition sscanf_ret (ds : list directive) (s : string) : Z :=
  match sscanf_run ds s with
  | ([], true) => -1
  | (vs, _) => Z.of_nat (length vs)
  end.

(** ** Decimal printing *)

Definition digit_char (d : Z) : ascii := ascii_of_nat (Z.to_nat (48 + d)).

Fixpoint print_dec_aux (fuel : nat) (n : Z) (acc : string) : string :=
  match fuel with
  | O => acc
  | S f =>
      let acc' := String (digit_char (n mod 10)) acc in
      if n / 10 =? 0 then acc' else print_dec_aux f (n / 10) acc'
  end.

(** Twenty digits hold every 64-bit value. *)
Definition print_dec (n : Z) : string := print_dec_aux 20 n EmptyString.

Lemma digit_of_char d : 0 <= d < 10 → digit_of (digit_char d) = Some d.
Proof.
  intros Hd. unfold digit_of, digit_char, char_code.
  rewrite nat_ascii_embedding by lia.
  rewrite Z2Nat.id by lia.
  rewrite (proj2 (Z.leb_le 48 _)), (proj2 (Z.leb_le _ 57)) by lia.
  simpl. f_equal. lia.
Qed.

(** A string that does not go on with a digit. *)
Definition no_digit (s : string) : Prop :=
  match s with String c _ => digit_of c = None | EmptyString => True end.

Lemma scan_digits_stop acc s : no_digit s → scan_digits acc s = (acc, s).
Proof. destruct s as [|c s]; simpl; [done|]. by intros ->. Qed.

Lemma scan_print_aux fuel n acc v :
  0 <= n < 10 ^ Z.of_nat fuel →
  ∃ k, 0 <= k ∧
  scan_digits v (print_dec_aux fuel n acc) = scan_digits (v * 10 ^ k + n) acc.
Proof.
  revert n acc. induction fuel as [|f IH]; intros n acc Hn; cbn [print_dec_aux].
  { exists 0. split; [done|]. f_equal. simpl in Hn. lia. }
  rewrite Nat2Z.inj_succ, Z.pow_succ_r in Hn by lia.
  destruct (Z.eqb_spec (n / 10) 0) as [E|E].
  - exists 1. split; [done|]. cbn [scan_digits].
    rewrite digit_of_char by zlia. f_equal. zlia.
  - destruct (IH (n / 10) (String (digit_char (n mod 10)) acc)) as (k&Hk&->); [zlia|].
    exists (k + 1). split; [lia|]. cbn [scan_digits].
    rewrite digit_of_char by zlia. f_equal.
    rewrite Z.pow_add_r by lia. zlia.
Qed.

Lemma print_dec_aux_head fuel n acc :
  0 <= n → fuel ≠ O →
  ∃ d r, 0 <= d < 10 ∧ print_dec_aux fuel n acc = String (digit_char d) r.
Proof.
  revert n acc. induction fuel as [|f IH]; intros n acc Hn Hf; [done|].
  cbn [print_dec_aux]. destruct (n / 10 =? 0).
  - exists (n mod 10), acc. split; [zlia|done].
  - destruct f as [|f]; [exists (n mod 10), acc; split; [zlia|done]|].
    apply IH; [zlia|done].
Qed.

Lemma digit_not_special d (P : ascii → Prop) :
  0 <= d < 10 → (∀ c, P c → digit_of c = None) → ¬ P (digit_char d).
Proof. intros Hd HP Hc. apply HP in Hc. by rewrite digit_of_char in Hc. Qed.

Lemma print_dec_aux_app fuel n acc rest :
  print_dec_aux fuel n (acc +:+ rest) = print_dec_aux fuel n acc +:+ rest.
Proof.
  revert n acc. induction fuel as [|f IH]; intros n acc; cbn [print_dec_aux]; [done|].
  destruct (n / 10 =? 0); [done|]. apply (IH _ (String _ acc)).
Qed.

(** Printing then scanning: the number comes back and the rest of the input is
    left where it was. *)
Lemma scan_number_print n rest :
  0 <= n < 10 ^ 20 → no_digit rest →
  scan_number (print_dec n +:+ rest) = Some (false, n, rest).
Proof.
  intros Hn Hr. unfold print_dec. rewrite <-print_dec_aux_app.
  change (EmptyString +:+ rest) with rest.
  destruct (print_dec_aux_head 20 n rest) as (d&r&Hd&E); [lia|done|].
  destruct (scan_print_aux 20 n rest 0) as (k&_&S); [done|].
  rewrite E in S |- *. unfold scan_number, scan_sign.
  rewrite !decide_False
    by (apply (digit_not_special d (λ c, c = _) Hd); by intros ? ->).
  cbn [scan_digits] in S. rewrite digit_of_char in S |- * by done.
  rewrite Z.mul_0_l, Z.add_0_l, Z.mul_0_l, Z.add_0_l in S. rewrite S.
  by rewrite scan_digits_stop.
Qed.

Lemma skip_ws_print n rest :
  0 <= n < 10 ^ 20 → skip_ws (print_dec n +:+ rest) = print_dec n +:+ rest.
Proof.
  intros Hn. unfold print_dec. rewrite <-print_dec_aux_app.
  destruct (print_dec_aux_head 20 n (EmptyString +:+ rest)) as (d&r&Hd&E); [lia|done|].
  rewrite E. cbn [skip_ws].
  destruct (is_space (digit_char d)) eqn:Hs; [|done]. exfalso.
  apply (digit_not_special d (λ c, is_space c = true) Hd); [|done].
  intros c Hc. unfold is_space, digit_of in *. apply orb_true_iff in Hc.
  destruct ((48 <=? char_code c) && (char_code c <=? 57)) eqn:Hb; [|done].
  rewrite !andb_true_iff in *. lia.
Qed.

(** One numeric conversion on a printed number. *)
Lemma sscanf_unsigned_print trunc ds n rest :
  0 <= n < 18446744073709551616 → no_digit rest →
  sscanf (DUnsigned trunc :: ds) (print_dec n +:+ rest) = trunc n :: sscanf ds rest.
Proof.
  intros Hn Hr. unfold sscanf. cbn [sscanf_run].
  rewrite skip_ws_print, scan_number_print by (done || lia).
  destruct (sscanf_run ds rest) as [vs e]. simpl. f_equal. f_equal.
  unfold strtoul_value. destruct (Z.geb_spec n 18446744073709551616); lia.
Qed.
