(* ===== verification/Tag.v ===== *)
(** * Tags: address options, display formats and string encodings

    src/base/tag.c.  An address such as ["1!400001.10H"] carries options after
    its last ['.'] or ['#']; [neu_datatag_parse_addr_option] decodes them into
    the option union according to the tag's type. *)

From Stdlib Require Import Ascii.
From S2P Require Import Prelude CStd NeuTypes.

(** ** Definitions *)

(** [strchr]: the suffix that starts at the first occurrence. *)
Fixpoint strchr (s : string) (c : ascii) : option string :=
  match s with
  | EmptyString => None
  | String c' s' => if decide (c' = c) then Some s else strchr s' c
  end.

(** The loop of [find_last_character]: keep the last hit, search again behind
    it.  Each round drops at least one character, so the length is enough fuel. *)
Fixpoint find_last_loop (fuel : nat) (find : option string) (ret : option string)
    (c : ascii) : option string :=
  match fuel, find with
  | S f, Some (String _ s' as hit) => find_last_loop f (strchr s' c) (Some hit) c
  | _, _ => ret
  end.

Definition find_last_character (str : string) (character : ascii) : option string :=
  let find := strchr str character in
  find_last_loop (S (String.length str)) find find character.

Definition fmt_hhd (c : ascii) : list directive := [DLit c; DSigned u8].
Definition fmt_hd_c (c : ascii) : list directive := [DLit c; DSigned u16; DChar].
Definition fmt_c (c : ascii) : list directive := [DLit c; DChar].
Definition fmt_cc (c : ascii) : list directive := [DLit c; DChar; DChar].

Definition ch (c : ascii) : Z := char_code c.

(** [case NEU_TYPE_BYTES].  The check reads [option->string.length], the 16
    bits at offset 0, although [bytes.length] was written. *)
Definition parse_option_bytes (address : string) (o : addr_option) : Z * addr_option :=
  match find_last_character address "." with
  | None => (-1, o)
  | Some op =>
      match sscanf (fmt_hhd ".") op with
      | [len] =>
          let o := set_bytes_length len o in
          if opt_string_length o <=? 0 then (-1, o) else (0, o)
      | _ => (-1, o)
      end
  end.

(** [case NEU_TYPE_STRING] *)
Definition parse_option_string (address : string) (o : addr_option) : Z * addr_option :=
  match find_last_character address "." with
  | None => (-1, o)
  | Some op =>
      let vs := sscanf (fmt_hd_c ".") op in
      let o := match vs with len :: _ => set_string_length len o | [] => o end in
      let t := match vs with _ :: t :: _ => t | _ => 0 end in
      let set k d := set_string_default d (set_string_type k o) in
      let o :=
        if decide (t = ch "H") then set NEU_DATATAG_STRING_TYPE_H false
        else if decide (t = ch "L") then set NEU_DATATAG_STRING_TYPE_L false
        else if decide (t = ch "D") then set NEU_DATATAG_STRING_TYPE_D false
        else if decide (t = ch "E") then set NEU_DATATAG_STRING_TYPE_E false
        else set NEU_DATATAG_STRING_TYPE_H true in
      if (Z.of_nat (length vs) <? 1) || (opt_string_length o <=? 0)
      then (-1, o) else (0, o)
  end.

(** [case NEU_TYPE_INT16 / UINT16] *)
Definition parse_option_16 (address : string) (o : addr_option) : Z * addr_option :=
  let o := set_endian NEU_DATATAG_ENDIAN_L16 o in
  match find_last_character address "#" with
  | None => (0, o)
  | Some op =>
      let e := match sscanf (fmt_c "#") op with e :: _ => e | [] => 0 end in
      if decide (e = ch "B") then (0, set_endian NEU_DATATAG_ENDIAN_B16 o)
      else (0, set_endian NEU_DATATAG_ENDIAN_L16 o)
  end.

Definition set_value_option (endian : Z) (default : bool) (o : addr_option) : addr_option :=
  set_value_default default (set_endian endian o).

(** [case NEU_TYPE_FLOAT / INT32 / UINT32 / DATA_AND_TIME / TIME] *)
Definition parse_option_32 (address : string) (o : addr_option) : Z * addr_option :=
  let o := set_value_option NEU_DATATAG_ENDIAN_LL32 true o in
  match find_last_character address "#" with
  | None => (0, o)
  | Some op =>
      match sscanf (fmt_cc "#") op with
      | [e1; e2] =>
          let o := if bool_decide (e1 = ch "B" ∧ e2 = ch "B")
                   then set_value_option NEU_DATATAG_ENDIAN_BB32 false o else o in
          let o := if bool_decide (e1 = ch "B" ∧ e2 = ch "L")
                   then set_value_option NEU_DATATAG_ENDIAN_BL32 false o else o in
          let o := if bool_decide (e1 = ch "L" ∧ e2 = ch "L")
                   then set_value_option NEU_DATATAG_ENDIAN_LL32 false o else o in
          let o := if bool_decide (e1 = ch "L" ∧ e2 = ch "B")
                   then set_value_option NEU_DATATAG_ENDIAN_LB32 false o else o in
          (0, o)
      | _ => (0, o)
      end
  end.

(** [case NEU_TYPE_DOUBLE / INT64 / UINT64] *)
Definition parse_option_64 (address : string) (o : addr_option) : Z * addr_option :=
  let o := set_value_option NEU_DATATAG_ENDIAN_L64 true o in
  match find_last_character address "#" with
  | None => (0, o)
  | Some op =>
      match sscanf (fmt_cc "#") op with
      | [e1; e2] =>
          if bool_decide (e1 = ch "B" ∧ e2 = ch "B")
          then (0, set_value_option NEU_DATATAG_ENDIAN_BB64 false o)
          else if bool_decide (e1 = ch "B" ∧ e2 = ch "L")
          then (0, set_value_option NEU_DATATAG_ENDIAN_BL64 false o)
          else if bool_decide (e1 = ch "L" ∧ e2 = ch "L")
          then (0, set_value_option NEU_DATATAG_ENDIAN_LL64 false o)
          else if bool_decide (e1 = ch "L" ∧ e2 = ch "B")
          then (0, set_value_option NEU_DATATAG_ENDIAN_LB64 false o)
          else if bool_decide (e1 = ch "W" ∧ e2 = ch "S")
          then (0, set_value_option NEU_DATATAG_ENDIAN_WS64 false o)
          else if bool_decide (e1 = ch "W" ∧ e2 = ch "R")
          then (0, set_value_option NEU_DATATAG_ENDIAN_WR64 false o)
          else (0, o)
      | [e1] =>
          if decide (e1 = ch "B") then (0, set_value_option NEU_DATATAG_ENDIAN_B64 false o)
          else if decide (e1 = ch "L") then (0, set_value_option NEU_DATATAG_ENDIAN_L64 false o)
          else (0, o)
      | _ => (0, o)
      end
  end.

(** [case NEU_TYPE_BOOL / BIT] *)
Definition parse_option_bit (address : string) (o : addr_option) : Z * addr_option :=
  match find_last_character address "." with
  | None => (0, set_bit_op false o)
  | Some op =>
      let o := match sscanf (fmt_hhd ".") op with b :: _ => set_bit b o | [] => o end in
      (0, set_bit_op true o)
  end.

Definition neu_datatag_parse_addr_option (datatag : neu_datatag_t) (o : addr_option)
    : Z * addr_option :=
  match tag_type datatag with
  | NEU_TYPE_BYTES => parse_option_bytes (tag_address datatag) o
  | NEU_TYPE_STRING => parse_option_string (tag_address datatag) o
  | NEU_TYPE_INT16 | NEU_TYPE_UINT16 => parse_option_16 (tag_address datatag) o
  | NEU_TYPE_FLOAT | NEU_TYPE_INT32 | NEU_TYPE_UINT32 | NEU_TYPE_DATA_AND_TIME
  | NEU_TYPE_TIME => parse_option_32 (tag_address datatag) o
  | NEU_TYPE_DOUBLE | NEU_TYPE_INT64 | NEU_TYPE_UINT64 =>
      parse_option_64 (tag_address datatag) o
  | NEU_TYPE_BOOL | NEU_TYPE_BIT => parse_option_bit (tag_address datatag) o
  | _ => (0, o)
  end.

(** *** Display formats: a comma separated list of up to 16 bytes *)

Definition NEU_TAG_FORMAT_LENGTH : nat := 16.

(** [neu_tag_format_str] into a buffer that is large enough (65 bytes hold 16
    three-digit numbers, 15 commas and the terminator). *)
Fixpoint format_tail (fs : list Z) : string :=
  match fs with
  | [] => EmptyString
  | f :: fs' => String "," (print_dec f +:+ format_tail fs')
  end.

Definition neu_tag_format_str (tag : neu_datatag_t) : string :=
  match take (Z.to_nat (tag_n_format tag)) (tag_format tag) with
  | [] => EmptyString
  | f :: fs => print_dec f +:+ format_tail fs
  end.

Definition format_directives : list directive :=
  DUnsigned u8 :: concat (replicate 15 [DLit ","%char; DUnsigned u8]).

(** [neu_format_from_str]: the return value and the bytes written to the front
    of [formats]. *)
Definition neu_format_from_str (format_str : option string) : Z * list Z :=
  match format_str with
  | None | Some EmptyString => (0, [])
  | Some s => (sscanf_ret format_directives s, sscanf format_directives s)
  end.

(** *** Copies of a tag: [NULL] strings become empty strings *)
Definition tag_array_copy (src : neu_datatag_t) : neu_datatag_t := {|
  tag_name := tag_name src;
  tag_address := tag_address src;
  tag_attribute := tag_attribute src;
  tag_type := tag_type src;
  tag_precision := tag_precision src;
  tag_decimal := tag_decimal src;
  tag_bias := tag_bias src;
  tag_description := Some (default EmptyString (tag_description src));
  tag_unit := Some (default EmptyString (tag_unit src));
  tag_option := tag_option src;
  tag_meta := tag_meta src;
  tag_format := tag_format src;
  tag_n_format := tag_n_format src;
|}.

Definition neu_tag_dup (tag : neu_datatag_t) : neu_datatag_t := tag_array_copy tag.

(** [neu_tag_copy]: the target, if there is one, is overwritten. *)
Definition neu_tag_copy (tag : option neu_datatag_t) (other : neu_datatag_t)
    : option neu_datatag_t :=
  match tag with Some _ => Some (tag_array_copy other) | None => None end.

(** *** UTF-8 *)

(** The number of leading one bits: the [for] loop with its moving mask. *)
Fixpoint pre_num_loop (fuel : nat) (byte mask num : Z) : Z :=
  match fuel with
  | O => num
  | S f =>
      if Z.land byte mask =? mask
      then pre_num_loop f byte (Z.shiftr mask 1) (num + 1) else num
  end.
Definition pre_num (byte : Z) : Z := pre_num_loop 8 byte 0x80 0.

(** [data\[i\]]; the strings are NUL terminated, so a read at [len] gives 0. *)
Definition byte_at (data : list Z) (i : nat) : Z := nth i data 0.

(** The inner loop over the continuation bytes. *)
Fixpoint utf8_cont (data : list Z) (i n : nat) : option nat :=
  match n with
  | O => Some i
  | S n' => if Z.land (byte_at data i) 0xc0 =? 0x80 then utf8_cont data (S i) n' else None
  end.

Fixpoint utf8_loop (fuel : nat) (data : list Z) (len i : nat) : bool :=
  match fuel with
  | O => true
  | S f =>
      if decide (i < len)%nat then
        if Z.land (byte_at data i) 0x80 =? 0 then utf8_loop f data len (S i)
        else
          let num := pre_num (byte_at data i) in
          if 1 <? num then
            match utf8_cont data (S i) (Z.to_nat (num - 1)) with
            | Some i' => utf8_loop f data len i'
            | None => false
            end
          else false
      else true
  end.

(** Every round advances [i], so [len] rounds are enough. *)
Definition neu_datatag_string_is_utf8 (data : list Z) (len : nat) : bool :=
  utf8_loop (S len) data len 0.

(** *** Byte swapping inside the registers of a string *)

Fixpoint htol_loop (fuel : nat) (str : list Z) (len i : nat) : list Z :=
  match fuel with
  | O => str
  | S f =>
      if decide (i < len)%nat then
        let t := byte_at str i in
        let str := <[i := byte_at str (i + 1)]> str in
        htol_loop f (<[(i + 1)%nat := t]> str) len (i + 2)
      else str
  end.

Definition neu_datatag_string_htol (str : list Z) (len : nat) : list Z :=
  htol_loop (S len) str len 0.
Definition neu_datatag_string_ltoh (str : list Z) (len : nat) : list Z :=
  neu_datatag_string_htol str len.

(** ** Finding the last option separator *)

Fixpoint last_occurrence (s : string) (c : ascii) : option string :=
  match s with
  | EmptyString => None
  | String c' s' =>
      match last_occurrence s' c with
      | Some t => Some t
      | None => if decide (c' = c) then Some s else None
      end
  end.

Lemma find_last_loop_spec fuel s ret c :
  (String.length s < fuel)%nat →
  find_last_loop fuel (strchr s c) ret c =
    match last_occurrence s c with Some t => Some t | None => ret end.
Proof.
  revert fuel ret. induction s as [|c' s IH]; intros fuel ret Hf; simpl in *.
  { by destruct fuel. }
  destruct (decide (c' = c)) as [->|Hne].
  - destruct fuel as [|f]; [lia|]. cbn [find_last_loop]. rewrite IH by lia.
    by destruct (last_occurrence s c).
  - rewrite IH by lia. by destruct (last_occurrence s c).
Qed.

Lemma find_last_character_spec s c : find_last_character s c = last_occurrence s c.
Proof.
  unfold find_last_character. rewrite find_last_loop_spec by lia.
  destruct (last_occurrence s c) eqn:E; [done|].
  induction s as [|c' s IH]; simpl in *; [done|].
  destruct (last_occurrence s c); [done|]. case_decide; [done|]. by apply IH.
Qed.

Lemma last_occurrence_strchr s c : strchr s c = None → last_occurrence s c = None.
Proof.
  induction s as [|c' s IH]; simpl; [done|].
  destruct (decide (c' = c)); [done|]. intros H. by rewrite IH.
Qed.

Lemma find_last_character_app p t c :
  strchr t c = None → find_last_character (p +:+ String c t) c = Some (String c t).
Proof.
  intros Ht. rewrite find_last_character_spec.
  induction p as [|c' p IH]; simpl.
  - by rewrite last_occurrence_strchr, decide_True.
  - by rewrite IH.
Qed.

Lemma strchr_app s t c : strchr s c = None → strchr (s +:+ t) c = strchr t c.
Proof.
  induction s as [|c' s IH]; simpl; [done|]. by case_decide.
Qed.

Lemma strchr_print_dec n c : digit_of c = None → 0 <= n → strchr (print_dec n) c = None.
Proof.
  intros Hc Hn. unfold print_dec.
  assert (Hgen : ∀ fuel acc m, 0 <= m → strchr acc c = None →
    strchr (print_dec_aux fuel m acc) c = None); [|by apply Hgen].
  intros fuel. induction fuel as [|f IH]; intros acc m Hm Ha; cbn [print_dec_aux]; [done|].
  assert (Hs : strchr (String (digit_char (m mod 10)) acc) c = None).
  { simpl. rewrite decide_False; [done|].
    intros Heq. apply (f_equal digit_of) in Heq.
    rewrite digit_of_char in Heq by zlia. congruence. }
  destruct (m / 10 =? 0); [done|]. apply IH; [zlia|done].
Qed.

(** ** Reading back what was written into the option union *)

Lemma option_string_fields o n t d :
  length o = 12%nat → is_u16 n → 0 <= t < 4 →
  let o' := set_string_default d (set_string_type t (set_string_length n o)) in
  length o' = 12%nat ∧ opt_string_length o' = n ∧ opt_string_type o' = t ∧
  opt_string_default o' = d.
Proof.
  intros Ho Hn Ht. do 12 (destruct o as [|? o]; [done|]). destruct o; [|done].
  cbv [set_string_default set_string_type set_string_length opt_string_length
    opt_string_type opt_string_default mem_write mem_read le_store le_load]. simpl.
  split_and!; [done|zlia|zlia|by destruct d].
Qed.

Lemma sscanf_string_option n k :
  1 <= n < 32768 → digit_of k = None →
  sscanf (fmt_hd_c ".") (String "." (print_dec n +:+ String k EmptyString)) = [n; ch k].
Proof.
  intros Hn Hk. unfold sscanf, fmt_hd_c. cbn [sscanf_run]. rewrite decide_True by done.
  rewrite skip_ws_print, scan_number_print by (done || lia).
  simpl. f_equal. unfold strtol_value.
  destruct (Z.gtb_spec n 9223372036854775807); [lia|]. by rewrite u16_id by lia.
Qed.

(** The letters of the four string layouts. *)
Definition string_type_letter (t : Z) : ascii :=
  if decide (t = NEU_DATATAG_STRING_TYPE_L) then "L"
  else if decide (t = NEU_DATATAG_STRING_TYPE_D) then "D"
  else if decide (t = NEU_DATATAG_STRING_TYPE_E) then "E" else "H".

(** An address that ends in [.<n><letter>] selects a string of [n]
    characters with the layout of that letter: printing the option behind any
    address prefix and parsing it gives the length and the layout back, and the
    option is marked as explicitly chosen. *)
Theorem string_option_roundtrip tag prefix n t o :
  tag_type tag = NEU_TYPE_STRING →
  tag_address tag =
    prefix +:+ String "." (print_dec n +:+ String (string_type_letter t) EmptyString) →
  1 <= n < 32768 → 0 <= t < 4 → length o = 12%nat →
  let '(ret, o') := neu_datatag_parse_addr_option tag o in
  ret = 0 ∧ opt_string_length o' = n ∧ opt_string_type o' = t ∧
  opt_string_default o' = false.
Proof.
  intros Hty Hadr Hn Ht Ho. unfold neu_datatag_parse_addr_option. rewrite Hty, Hadr.
  unfold parse_option_string.
  assert (Hk : digit_of (string_type_letter t) = None).
  { unfold string_type_letter. by repeat case_decide. }
  rewrite find_last_character_app; cycle 1.
  { rewrite strchr_app by (apply strchr_print_dec; [done|lia]).
    unfold string_type_letter. by repeat case_decide. }
  rewrite sscanf_string_option by done. cbv zeta.
  match goal with |- context [if _ || (opt_string_length ?x <=? 0) then _ else _] => set (o' := x) end.
  assert (Ho' : o' = set_string_default false (set_string_type t (set_string_length n o))).
  { unfold o', string_type_letter. clear o'.
    assert (t = 0 ∨ t = 1 ∨ t = 2 ∨ t = 3) as [->|[->|[->| ->]]] by lia; reflexivity. }
  destruct (option_string_fields o n t false) as (_&Hl&Hty'&Hd); [done|lia|done|].
  rewrite Ho', Hl. destruct (Z.leb_spec n 0); [lia|].
  change ((Z.of_nat (length [n; ch (string_type_letter t)]) <? 1) || false) with false.
  done.
Qed.

Definition example_string_tag : neu_datatag_t := {|
  tag_name := "serial"; tag_address := "1!400001.10L"; tag_attribute := 1;
  tag_type := NEU_TYPE_STRING; tag_precision := 0; tag_decimal := 0; tag_bias := 0;
  tag_description := None; tag_unit := None; tag_option := addr_option_zero;
  tag_meta := []; tag_format := []; tag_n_format := 0 |}.

Lemma string_option_roundtrip_witness :
  let '(ret, o') := neu_datatag_parse_addr_option example_string_tag addr_option_zero in
  ret = 0 ∧ opt_string_length o' = 10 ∧ opt_string_type o' = 1 ∧
  opt_string_default o' = false.
Proof.
  apply (string_option_roundtrip example_string_tag "1!400001" 10 1 addr_option_zero);
    first [reflexivity | lia].
Defined.

(** ** Display formats *)

Lemma format_tail_no_digit fs : no_digit (format_tail fs).
Proof. by destruct fs. Qed.

Lemma sscanf_format_tail k fs :
  Forall (λ f, is_u8 f) fs → (length fs <= k)%nat →
  sscanf_run (concat (replicate k [DLit ","%char; DUnsigned u8])) (format_tail fs) =
    (fs, bool_decide (length fs < k)%nat).
Proof.
  intros Hfs. revert k. induction Hfs as [|f fs Hf Hfs IH]; intros k Hk.
  { destruct k; [done|]. cbn [replicate concat app format_tail sscanf_run length].
    by rewrite bool_decide_eq_true_2 by lia. }
  destruct k as [|k]; simpl in Hk; [lia|].
  cbn [replicate concat format_tail app sscanf_run].
  rewrite decide_True by done.
  rewrite skip_ws_print by lia.
  rewrite scan_number_print by (lia || apply format_tail_no_digit).
  rewrite IH by lia. cbn [length]. unfold strtoul_value.
  destruct (Z.geb_spec f 18446744073709551616); [lia|].
  rewrite u8_id by done. f_equal. apply bool_decide_ext. lia.
Qed.

(** The display format of a tag survives printing and parsing: for up to
    16 bytes, [neu_format_from_str] applied to the string that
    [neu_tag_format_str] prints returns the number of bytes and the bytes. *)
Theorem format_roundtrip tag :
  let fs := take (Z.to_nat (tag_n_format tag)) (tag_format tag) in
  Forall (λ f, is_u8 f) fs → (length fs <= NEU_TAG_FORMAT_LENGTH)%nat →
  neu_format_from_str (Some (neu_tag_format_str tag)) = (Z.of_nat (length fs), fs).
Proof.
  intros fs. unfold neu_tag_format_str. fold fs. clearbody fs.
  intros Hfs Hl. destruct fs as [|f fs]; [done|].
  apply Forall_cons in Hfs as [Hf Hfs]. simpl in Hl.
  destruct (print_dec_aux_head 20 f (format_tail fs)) as (d&r&_&E); [lia|done|].
  unfold neu_format_from_str, sscanf_ret, sscanf.
  assert (Hs : print_dec f +:+ format_tail fs = String (digit_char d) r).
  { unfold print_dec. by rewrite <-print_dec_aux_app. }
  assert (Hrun : sscanf_run format_directives (print_dec f +:+ format_tail fs) =
    (f :: fs, bool_decide (length fs < 15)%nat)).
  { unfold format_directives. cbn [sscanf_run].
    rewrite skip_ws_print by lia.
    rewrite scan_number_print by (lia || apply format_tail_no_digit).
    rewrite sscanf_format_tail by (done || (unfold NEU_TAG_FORMAT_LENGTH in Hl; lia)).
    unfold strtoul_value. destruct (Z.geb_spec f 18446744073709551616); [lia|].
    by rewrite u8_id. }
  rewrite Hs in Hrun |- *. by rewrite Hrun.
Qed.

Definition example_format_tag : neu_datatag_t := {|
  tag_name := "fmt"; tag_address := "1!400001"; tag_attribute := 1;
  tag_type := NEU_TYPE_INT16; tag_precision := 0; tag_decimal := 0; tag_bias := 0;
  tag_description := None; tag_unit := None; tag_option := addr_option_zero;
  tag_meta := []; tag_format := [1; 20; 255] ++ replicate 13 0; tag_n_format := 3 |}.

Lemma format_roundtrip_witness :
  neu_tag_format_str example_format_tag = "1,20,255"%string ∧
  neu_format_from_str (Some (neu_tag_format_str example_format_tag)) = (3, [1; 20; 255]).
Proof.
  split; [reflexivity|]. apply (format_roundtrip example_format_tag).
  - repeat constructor; done.
  - vm_compute. repeat constructor.
Defined.

(** ** UTF-8 *)

(** How many continuation bytes the code expects after a lead byte. *)
Definition lead_continuations (b : Z) : option nat :=
  if b <? 0xc0 then None
  else if b <? 0xe0 then Some 1%nat
  else if b <? 0xf0 then Some 2%nat
  else if b <? 0xf8 then Some 3%nat
  else if b <? 0xfc then Some 4%nat
  else if b <? 0xfe then Some 5%nat
  else if b <? 0xff then Some 6%nat else Some 7%nat.

Inductive utf8_like : list Z → Prop :=
  | utf8_nil : utf8_like []
  | utf8_ascii b s : b < 0x80 → utf8_like s → utf8_like (b :: s)
  | utf8_multi b n cs s :
      lead_continuations b = Some n → length cs = n →
      Forall (λ c, 0x80 <= c < 0xc0) cs → utf8_like s → utf8_like (b :: cs ++ s).

Lemma utf8_like_cons_inv b l :
  utf8_like (b :: l) →
  (b < 0x80 ∧ utf8_like l) ∨
  ∃ n cs k, lead_continuations b = Some n ∧ length cs = n ∧
    Forall (λ c, 0x80 <= c < 0xc0) cs ∧ utf8_like k ∧ l = cs ++ k.
Proof. inversion 1; subst; [by left|right]. by do 3 eexists. Qed.

Lemma pre_num_lead b : is_u8 b → 0x80 <= b →
  (if 1 <? pre_num b then Some (Z.to_nat (pre_num b - 1)) else None) = lead_continuations b.
Proof.
  intros Hb Hlo. apply (interval_decide (λ b,
    (if 1 <? pre_num b then Some (Z.to_nat (pre_num b - 1)) else None)
    = lead_continuations b) 128 128); [by vm_compute|lia].
Qed.

Lemma byte_class b : is_u8 b →
  (Z.land b 0x80 =? 0) = (b <? 0x80) ∧
  (Z.land b 0xc0 =? 0x80) = bool_decide (0x80 <= b < 0xc0).
Proof.
  intros Hb.
  destruct (interval_decide (λ b, (Z.land b 0x80 =? 0) = (b <? 0x80) ∧
    (Z.land b 0xc0 =? 0x80) = (0x80 <=? b) && (b <? 0xc0)) 0 256) with b
    as [-> ->]; [by vm_compute|lia|]. split; [done|].
  destruct (Z.leb_spec 0x80 b), (Z.ltb_spec b 0xc0); case_bool_decide; simpl; lia || done.
Qed.

Lemma byte_at_app s rest i :
  (i < length s)%nat → byte_at (s ++ rest) i = byte_at s i.
Proof. intros. unfold byte_at. by rewrite app_nth1. Qed.

Lemma byte_at_end s rest : byte_at (s ++ 0 :: rest) (length s) = 0.
Proof. unfold byte_at. by rewrite app_nth2, Nat.sub_diag by lia. Qed.

Lemma drop_byte_at s i : (i < length s)%nat → drop i s = byte_at s i :: drop (S i) s.
Proof.
  intros Hi. apply lookup_lt_is_Some_2 in Hi as [x Hx].
  rewrite (drop_S _ _ _ Hx). unfold byte_at. by rewrite (nth_lookup_Some _ _ _ _ Hx).
Qed.

Lemma byte_at_ok s i : bytes_ok s → is_u8 (byte_at s i).
Proof.
  intros Hs. unfold byte_at. destruct (decide (i < length s)%nat).
  - by apply (proj1 (Forall_nth _ 0 s) Hs).
  - rewrite nth_overflow; lia.
Qed.

Lemma utf8_cont_spec s rest n i :
  bytes_ok s → (i <= length s)%nat →
  match utf8_cont (s ++ 0 :: rest) i n with
  | Some i' => i' = (i + n)%nat ∧ (i' <= length s)%nat ∧
      Forall (λ c, 0x80 <= c < 0xc0) (take n (drop i s))
  | None => ¬ ((i + n <= length s)%nat ∧
      Forall (λ c, 0x80 <= c < 0xc0) (take n (drop i s)))
  end.
Proof.
  intros Hs. revert i. induction n as [|n IH]; intros i Hi; cbn [utf8_cont].
  { split_and!; [lia|done|constructor]. }
  destruct (decide (i < length s)%nat) as [Hlt|Hge].
  - rewrite byte_at_app by done.
    rewrite (proj2 (byte_class _ (byte_at_ok s i Hs))), (drop_byte_at s i) by done.
    cbn [take]. case_bool_decide as Hc.
    + specialize (IH (S i)). destruct (utf8_cont _ (S i) n) as [i'|].
      * destruct IH as (->&?&?); [lia|]. split_and!; [lia|lia|by constructor].
      * intros [? ?%Forall_cons]. apply IH; [lia|]. split; [lia|tauto].
    + intros [_ ?%Forall_cons]. tauto.
  - replace i with (length s) by lia. rewrite byte_at_end. simpl. lia.
Qed.

Lemma utf8_loop_spec s rest fuel i :
  bytes_ok s → (i <= length s)%nat → (length s - i < fuel)%nat →
  utf8_loop fuel (s ++ 0 :: rest) (length s) i = true ↔ utf8_like (drop i s).
Proof.
  intros Hs. revert i. induction fuel as [|f IH]; intros i Hi Hf; [lia|].
  cbn [utf8_loop]. case_decide as Hlt; cycle 1.
  { rewrite drop_ge by lia. split; [constructor|done]. }
  rewrite byte_at_app, (drop_byte_at s i) by done.
  pose proof (byte_at_ok s i Hs) as Hb.
  rewrite (proj1 (byte_class _ Hb)).
  destruct (Z.ltb_spec (byte_at s i) 0x80) as [Hasc|Hhi].
  { rewrite IH by lia. split; [by constructor|].
    intros [[_ ?]|(?&?&?&Hlead&_)]%utf8_like_cons_inv; [done|].
    revert Hlead. unfold lead_continuations.
    destruct (Z.ltb_spec (byte_at s i) 0xc0); [done|lia]. }
  pose proof (pre_num_lead _ Hb Hhi) as Hlead. cbv zeta.
  destruct (1 <? pre_num (byte_at s i)).
  - pose proof (utf8_cont_spec s rest (Z.to_nat (pre_num (byte_at s i) - 1)) (S i) Hs) as Hc.
    symmetry in Hlead. set (n := Z.to_nat _) in *. destruct (utf8_cont _ (S i) n) as [i'|].
    + destruct Hc as (->&Hle&Hall); [lia|]. rewrite IH by lia.
      assert (Hd : drop (S i) s = take n (drop (S i) s) ++ drop (S i + n) s).
      { rewrite <-drop_drop. by rewrite take_drop. }
      assert (Hlen : length (take n (drop (S i) s)) = n).
      { rewrite length_take, length_drop. lia. }
      split; [rewrite Hd; by econstructor|].
      intros [[? _]|(n'&cs&k&Hn'&Hcs&_&Hk&Heq)]%utf8_like_cons_inv; [lia|].
      rewrite Hlead in Hn'. injection Hn' as <-.
      rewrite Hd in Heq. apply app_inj_1 in Heq as [_ ->]; [done|congruence].
    + split; [done|].
      intros [[? _]|(n'&cs&k&Hn'&Hcs&?&_&Heq)]%utf8_like_cons_inv; [lia|].
      rewrite Hlead in Hn'. injection Hn' as <-. exfalso. apply Hc; [lia|].
      rewrite Heq, <-Hcs, take_app_length. split; [|done].
      apply (f_equal length) in Heq. rewrite length_app, length_drop in Heq. lia.
  - split; [done|]. intros [[? _]|(?&?&?&?&_)]%utf8_like_cons_inv; [lia|congruence].
Qed.

(** [neu_datatag_string_is_utf8] terminates and decides a byte grammar:
    on a NUL-terminated string it answers [true] exactly when the string is a
    sequence of ASCII bytes and of lead bytes followed by the number of
    continuation bytes that the lead byte announces.  The grammar also has the
    lead bytes 0xF8 to 0xFF, which UTF-8 does not use. *)
Theorem string_is_utf8_correct s rest :
  bytes_ok s →
  neu_datatag_string_is_utf8 (s ++ 0 :: rest) (length s) = true ↔ utf8_like s.
Proof. intros Hs. unfold neu_datatag_string_is_utf8. rewrite utf8_loop_spec by (done || lia). done. Qed.

Lemma string_is_utf8_correct_witness :
  neu_datatag_string_is_utf8 ([0xe4; 0xbd; 0xa0; 0x41] ++ 0 :: []) 4 = true ↔
  utf8_like [0xe4; 0xbd; 0xa0; 0x41].
Proof. apply (string_is_utf8_correct [0xe4; 0xbd; 0xa0; 0x41] []). repeat constructor; done. Defined.

(** ** Swapping the bytes of each register *)

Fixpoint swap_pairs (l : list Z) : list Z :=
  match l with
  | a :: b :: l' => b :: a :: swap_pairs l'
  | _ => l
  end.

Lemma htol_loop_even fuel pre l k len :
  (k < fuel)%nat → (2 * k <= length l)%nat → len = (length pre + 2 * k)%nat →
  htol_loop fuel (pre ++ l) len (length pre) =
    pre ++ swap_pairs (take (2 * k) l) ++ drop (2 * k) l.
Proof.
  revert pre l k len. induction fuel as [|f IH]; intros pre l k len Hf Hl ->; [lia|].
  cbn [htol_loop]. destruct k as [|k].
  { rewrite Nat.mul_0_r, Nat.add_0_r, decide_False by lia. done. }
  destruct l as [|a [|b l]]; simpl in Hl; [lia|lia|].
  rewrite decide_True by lia. cbv zeta.
  replace (2 * S k)%nat with (S (S (2 * k))) by lia. cbn [take drop swap_pairs].
  unfold byte_at. rewrite !app_nth2 by lia.
  rewrite Nat.sub_diag, (Nat.add_comm (length pre) 1), Nat.add_sub. cbn [nth].
  replace (1 + length pre)%nat with (length pre + 1)%nat by lia.
  replace (length pre) with (length pre + 0)%nat at 2 by lia.
  rewrite !insert_app_r. cbn.
  replace (pre ++ b :: a :: l) with ((pre ++ [b; a]) ++ l) by (by rewrite <-app_assoc).
  replace (length pre + 2)%nat with (length (pre ++ [b; a])) by (rewrite length_app; done).
  rewrite (IH _ l k) by (rewrite ?length_app; simpl; lia).
  by rewrite <-app_assoc.
Qed.

Lemma htol_even str k :
  (2 * k <= length str)%nat →
  neu_datatag_string_htol str (2 * k) = swap_pairs (take (2 * k) str) ++ drop (2 * k) str.
Proof. intros. apply (htol_loop_even _ [] str k); simpl; lia. Qed.

Lemma length_swap_pairs n l : (length l <= n)%nat → length (swap_pairs l) = length l.
Proof.
  revert l. induction n as [|n IH]; intros l Hl; [by destruct l; [|simpl in *; lia]|].
  destruct l as [|a [|b l]]; simpl in *; auto. do 2 f_equal. apply IH. lia.
Qed.

Lemma swap_pairs_involutive n l : (length l <= n)%nat → swap_pairs (swap_pairs l) = l.
Proof.
  revert l. induction n as [|n IH]; intros l Hl; [by destruct l; [|simpl in *; lia]|].
  destruct l as [|a [|b l]]; simpl in *; auto. do 2 f_equal. apply IH. lia.
Qed.

(** Swapping the byte order of the registers of a string is its own
    inverse when the string occupies whole registers, so what
    [neu_datatag_string_htol] writes, [neu_datatag_string_ltoh] reads back; the
    bytes behind the string are not touched. *)
Theorem string_ltoh_htol str k :
  (2 * k <= length str)%nat →
  neu_datatag_string_ltoh (neu_datatag_string_htol str (2 * k)) (2 * k) = str ∧
  drop (2 * k) (neu_datatag_string_htol str (2 * k)) = drop (2 * k) str.
Proof.
  intros Hk. unfold neu_datatag_string_ltoh.
  assert (Hl : length (swap_pairs (take (2 * k) str)) = (2 * k)%nat).
  { rewrite (length_swap_pairs (length str)); rewrite length_take; lia. }
  rewrite (htol_even str) by done.
  rewrite htol_even by (rewrite length_app, Hl, length_drop; lia).
  rewrite take_app_length', drop_app_length' by done.
  rewrite (swap_pairs_involutive (length str)) by (rewrite length_take; lia).
  by rewrite take_drop.
Qed.

Lemma string_ltoh_htol_witness :
  neu_datatag_string_htol [66; 65; 68; 67; 0] 4 = [65; 66; 67; 68; 0] ∧
  neu_datatag_string_ltoh (neu_datatag_string_htol [66; 65; 68; 67; 0] (2 * 2)) (2 * 2)
    = [66; 65; 68; 67; 0].
Proof.
  split; [reflexivity|]. apply (string_ltoh_htol [66; 65; 68; 67; 0] 2). simpl. lia.
Defined.
