(* ===== verification/ProtocolBuf.v ===== *)
(** * Protocol buffers

    include/neuron/utils/protocol_buf.h.  A pack buffer is filled from its end
    towards its start, so a frame is written trailer first; an unpack buffer is
    consumed from its start.  A pointer into the buffer is the position it
    points to, [NULL] is [None]. *)

From S2P Require Import Prelude.

Record protocol_buf := {
  base : list Z;
  size : Z;
  offset : Z;
}.

Definition set_offset (off : Z) (b : protocol_buf) : protocol_buf :=
  {| base := base b; size := size b; offset := off |}.
Definition set_base (l : list Z) (b : protocol_buf) : protocol_buf :=
  {| base := l; size := size b; offset := offset b |}.

Definition neu_protocol_pack_buf_init (bs : list Z) (sz : Z) : protocol_buf :=
  {| base := bs; size := sz; offset := sz |}.
Definition neu_protocol_unpack_buf_init (bs : list Z) (sz : Z) : protocol_buf :=
  {| base := bs; size := sz; offset := 0 |}.
Definition neu_protocol_buf_size (b : protocol_buf) : Z := size b.
Definition neu_protocol_unpack_buf_new (sz : Z) : protocol_buf :=
  {| base := replicate (Z.to_nat sz) 0; size := sz; offset := 0 |}.
Definition neu_protocol_pack_buf_new (sz : Z) : protocol_buf :=
  {| base := replicate (Z.to_nat sz) 0; size := sz; offset := sz |}.
Definition neu_protocol_unpack_buf_reset (b : protocol_buf) : protocol_buf :=
  {| base := replicate (Z.to_nat (size b)) 0 ++ drop (Z.to_nat (size b)) (base b);
     size := size b; offset := 0 |}.
Definition neu_protocol_pack_buf_reset (b : protocol_buf) : protocol_buf :=
  {| base := replicate (Z.to_nat (size b)) 0 ++ drop (Z.to_nat (size b)) (base b);
     size := size b; offset := size b |}.

Definition neu_protocol_unpack_buf (b : protocol_buf) (n : Z) : option (Z * protocol_buf) :=
  if size b - offset b <? n then None
  else let b' := set_offset (u16 (offset b + n)) b in
       Some (offset b' - n, b').

Definition neu_protocol_unpack_buf_revert (b : protocol_buf) (n : Z) : protocol_buf :=
  set_offset (u16 (offset b - n)) b.

Definition neu_protocol_unpack_buf_get (b : protocol_buf) (n : Z) : option Z :=
  if size b - offset b <? n then None else Some (offset b).

Definition neu_protocol_pack_buf (b : protocol_buf) (n : Z) : option (Z * protocol_buf) :=
  if offset b <? n then None
  else let b' := set_offset (u16 (offset b - n)) b in Some (offset b', b').

Definition neu_protocol_pack_buf_set (b : protocol_buf) (off n : Z) : option Z :=
  if offset b + off + n - 1 >? size b then None else Some (offset b + off).

Definition neu_protocol_pack_buf_get (b : protocol_buf) : Z := offset b.
Definition neu_protocol_pack_buf_unused_size (b : protocol_buf) : Z := offset b.
Definition neu_protocol_pack_buf_used_size (b : protocol_buf) : Z := u16 (size b - offset b).
Definition neu_protocol_unpack_buf_unused_size (b : protocol_buf) : Z := u16 (size b - offset b).
Definition neu_protocol_unpack_buf_used_size (b : protocol_buf) : Z := offset b.
Definition neu_protocol_unpack_buf_use_all (b : protocol_buf) : protocol_buf :=
  set_offset (size b) b.
Definition neu_protocol_unpack_buf_size (b : protocol_buf) : Z := size b.

(** Stores and loads through a pointer into the buffer. *)
Definition poke (pos : Z) (bs : list Z) (b : protocol_buf) : protocol_buf :=
  set_base (mem_write (Z.to_nat pos) bs (base b)) b.
Definition peek (pos : Z) (n : nat) (b : protocol_buf) : list Z :=
  mem_read (Z.to_nat pos) n (base b).

(** ** Invariant and abstract views *)

Record buf_ok (b : protocol_buf) : Prop := {
  ok_len : Z.of_nat (length (base b)) = size b;
  ok_off : 0 <= offset b <= size b;
  ok_size : size b < 65536;
  ok_bytes : bytes_ok (base b);
}.

(** What has been packed so far, and what is left to unpack. *)
Definition packed (b : protocol_buf) : list Z := drop (Z.to_nat (offset b)) (base b).
Definition remaining (b : protocol_buf) : list Z := drop (Z.to_nat (offset b)) (base b).

Lemma buf_ok_pack_init bs :
  bytes_ok bs → Z.of_nat (length bs) < 65536 →
  buf_ok (neu_protocol_pack_buf_init bs (Z.of_nat (length bs))).
Proof. intros. split; simpl; auto; lia. Qed.

Lemma buf_ok_unpack_init bs :
  bytes_ok bs → Z.of_nat (length bs) < 65536 →
  buf_ok (neu_protocol_unpack_buf_init bs (Z.of_nat (length bs))).
Proof. intros. split; simpl; auto; lia. Qed.

Lemma packed_init bs : packed (neu_protocol_pack_buf_init bs (Z.of_nat (length bs))) = [].
Proof. unfold packed. simpl. by rewrite drop_ge by lia. Qed.

Lemma remaining_init bs :
  remaining (neu_protocol_unpack_buf_init bs (Z.of_nat (length bs))) = bs.
Proof. done. Qed.

Lemma length_packed b : buf_ok b → Z.of_nat (length (packed b)) = size b - offset b.
Proof. intros []. unfold packed. rewrite length_drop. lia. Qed.

Lemma length_remaining b : buf_ok b → Z.of_nat (length (remaining b)) = size b - offset b.
Proof. apply length_packed. Qed.

Lemma used_size_packed b :
  buf_ok b → neu_protocol_pack_buf_used_size b = Z.of_nat (length (packed b)).
Proof.
  intros Hb. rewrite length_packed by done. destruct Hb.
  unfold neu_protocol_pack_buf_used_size. apply u16_id. lia.
Qed.

(** Reserving room moves the offset down; filling the room puts the bytes in
    front of what was packed before. *)
Lemma pack_some b n :
  buf_ok b → 0 <= n <= offset b →
  neu_protocol_pack_buf b n = Some (offset b - n, set_offset (offset b - n) b).
Proof.
  intros [] Hn. unfold neu_protocol_pack_buf.
  destruct (Z.ltb_spec (offset b) n); [lia|]. simpl. by rewrite u16_id by lia.
Qed.

Lemma pack_fill b n k :
  buf_ok b → 0 <= n <= offset b → Z.of_nat (length k) = n → bytes_ok k →
  buf_ok (poke (offset b - n) k (set_offset (offset b - n) b)) ∧
  packed (poke (offset b - n) k (set_offset (offset b - n) b)) = k ++ packed b.
Proof.
  intros [Hl Ho Hs Hb] Hn Hk Hkb. split.
  - split; simpl; try lia; [|auto with neuron]. rewrite length_mem_write by lia. done.
  - unfold packed, poke. simpl. unfold mem_write.
    rewrite drop_app_length' by (rewrite length_take; lia). do 2 f_equal. lia.
Qed.

(** Stores to adjacent fields of a struct in the buffer. *)
Lemma poke_poke p x y b :
  0 <= p → p + Z.of_nat (length x + length y) <= Z.of_nat (length (base b)) →
  poke (p + Z.of_nat (length x)) y (poke p x b) = poke p (x ++ y) b.
Proof.
  intros Hp Hl. unfold poke, set_base. destruct b as [l sz off]. simpl in *. f_equal.
  rewrite Z2Nat.inj_add, Nat2Z.id by lia. rewrite mem_write_app by lia. done.
Qed.

(** Consuming [n] bytes hands out a pointer to the first of the remaining
    ones, or [NULL] when there are fewer. *)
Lemma unpack_some b n :
  buf_ok b → 0 <= n <= Z.of_nat (length (remaining b)) →
  neu_protocol_unpack_buf b n = Some (offset b, set_offset (offset b + n) b).
Proof.
  intros Hb Hn. rewrite length_remaining in Hn by done. destruct Hb.
  unfold neu_protocol_unpack_buf.
  destruct (Z.ltb_spec (size b - offset b) n); [lia|].
  simpl. rewrite u16_id by lia. do 2 f_equal. lia.
Qed.

Lemma unpack_none b n :
  buf_ok b → Z.of_nat (length (remaining b)) < n → neu_protocol_unpack_buf b n = None.
Proof.
  intros Hb Hn. rewrite length_remaining in Hn by done.
  unfold neu_protocol_unpack_buf. by destruct (Z.ltb_spec (size b - offset b) n); [|lia].
Qed.

Lemma unpack_rest b n :
  buf_ok b → 0 <= n <= Z.of_nat (length (remaining b)) →
  buf_ok (set_offset (offset b + n) b) ∧
  remaining (set_offset (offset b + n) b) = drop (Z.to_nat n) (remaining b).
Proof.
  intros Hb Hn. rewrite length_remaining in Hn by done. destruct Hb. split.
  - split; simpl; auto; lia.
  - unfold remaining. simpl. rewrite drop_drop. f_equal. lia.
Qed.

Lemma peek_remaining b off k n :
  0 <= k → 0 <= offset b →
  peek (offset b + k) n (set_offset off b) = take n (drop (Z.to_nat k) (remaining b)).
Proof.
  intros. unfold peek, mem_read, remaining. simpl. rewrite drop_drop. do 2 f_equal. lia.
Qed.

Lemma unpack_unused b :
  buf_ok b → neu_protocol_unpack_buf_unused_size b = Z.of_nat (length (remaining b)).
Proof. apply used_size_packed. Qed.
