(* ===== verification/Modbus.v ===== *)
(** * Modbus frames

    plugins/modbus/modbus.c and modbus.h: the enumerations of the protocol, the
    CRC of the serial variant, and the wrap/unwrap pair of every field group.
    A wrap returns [None] when its [assert] fails; an unwrap returns the C
    return value, the buffer and the decoded fields. *)

From S2P Require Import Prelude NeuTypes ProtocolBuf.

(** ** Enumerations *)

Inductive modbus_action_e := MODBUS_ACTION_DEFAULT | MODBUS_ACTION_HOLD_REG_WRITE.
#[export] Instance modbus_action_eq_dec : EqDecision modbus_action_e.
Proof. solve_decision. Defined.

Definition MODBUS_READ_COIL : Z := 0x01.
Definition MODBUS_READ_INPUT : Z := 0x02.
Definition MODBUS_READ_HOLD_REG : Z := 0x03.
Definition MODBUS_READ_INPUT_REG : Z := 0x04.
Definition MODBUS_WRITE_S_COIL : Z := 0x05.
Definition MODBUS_WRITE_S_HOLD_REG : Z := 0x06.
Definition MODBUS_WRITE_M_HOLD_REG : Z := 0x10.
Definition MODBUS_WRITE_M_COIL : Z := 0x0F.
Definition MODBUS_READ_COIL_ERR : Z := 0x81.
Definition MODBUS_READ_INPUT_ERR : Z := 0x82.
Definition MODBUS_READ_HOLD_REG_ERR : Z := 0x83.
Definition MODBUS_READ_INPUT_REG_ERR : Z := 0x84.
Definition MODBUS_WRITE_S_COIL_ERR : Z := 0x85.
Definition MODBUS_WRITE_S_HOLD_REG_ERR : Z := 0x86.
Definition MODBUS_WRITE_M_HOLD_REG_ERR : Z := 0x90.
Definition MODBUS_WRITE_M_COIL_ERR : Z := 0x8F.
Definition MODBUS_DEVICE_ERR : Z := -2.

Inductive modbus_area_e :=
  | MODBUS_AREA_COIL | MODBUS_AREA_INPUT
  | MODBUS_AREA_INPUT_REGISTER | MODBUS_AREA_HOLD_REGISTER.
#[export] Instance modbus_area_eq_dec : EqDecision modbus_area_e.
Proof. solve_decision. Defined.

Definition area_code (a : modbus_area_e) : Z :=
  match a with
  | MODBUS_AREA_COIL => 0
  | MODBUS_AREA_INPUT => 1
  | MODBUS_AREA_INPUT_REGISTER => 3
  | MODBUS_AREA_HOLD_REGISTER => 4
  end.

Inductive modbus_endianess := MODBUS_ABCD | MODBUS_BADC | MODBUS_DCBA | MODBUS_CDAB.
Inductive modbus_endianess_64 :=
  MODBUS_LL | MODBUS_LB | MODBUS_BB | MODBUS_BL | MODBUS_WS | MODBUS_WR.

Inductive modbus_address_base := base_0 | base_1.
Definition base_code (b : modbus_address_base) : Z :=
  match b with base_0 => 0 | base_1 => 1 end.

Definition modbus_area_to_str (area : modbus_area_e) : string :=
  match area with
  | MODBUS_AREA_COIL => "coil"
  | MODBUS_AREA_INPUT => "input"
  | MODBUS_AREA_INPUT_REGISTER => "input register"
  | MODBUS_AREA_HOLD_REGISTER => "hold register"
  end.

(** ** CRC *)

Definition crc_table : list Z := [
   0x0000; 0xC0C1; 0xC181; 0x0140; 0xC301; 0x03C0; 0x0280; 0xC241;
   0xC601; 0x06C0; 0x0780; 0xC741; 0x0500; 0xC5C1; 0xC481; 0x0440;
   0xCC01; 0x0CC0; 0x0D80; 0xCD41; 0x0F00; 0xCFC1; 0xCE81; 0x0E40;
   0x0A00; 0xCAC1; 0xCB81; 0x0B40; 0xC901; 0x09C0; 0x0880; 0xC841;
   0xD801; 0x18C0; 0x1980; 0xD941; 0x1B00; 0xDBC1; 0xDA81; 0x1A40;
   0x1E00; 0xDEC1; 0xDF81; 0x1F40; 0xDD01; 0x1DC0; 0x1C80; 0xDC41;
   0x1400; 0xD4C1; 0xD581; 0x1540; 0xD701; 0x17C0; 0x1680; 0xD641;
   0xD201; 0x12C0; 0x1380; 0xD341; 0x1100; 0xD1C1; 0xD081; 0x1040;
   0xF001; 0x30C0; 0x3180; 0xF141; 0x3300; 0xF3C1; 0xF281; 0x3240;
   0x3600; 0xF6C1; 0xF781; 0x3740; 0xF501; 0x35C0; 0x3480; 0xF441;
   0x3C00; 0xFCC1; 0xFD81; 0x3D40; 0xFF01; 0x3FC0; 0x3E80; 0xFE41;
   0xFA01; 0x3AC0; 0x3B80; 0xFB41; 0x3900; 0xF9C1; 0xF881; 0x3840;
   0x2800; 0xE8C1; 0xE981; 0x2940; 0xEB01; 0x2BC0; 0x2A80; 0xEA41;
   0xEE01; 0x2EC0; 0x2F80; 0xEF41; 0x2D00; 0xEDC1; 0xEC81; 0x2C40;
   0xE401; 0x24C0; 0x2580; 0xE541; 0x2700; 0xE7C1; 0xE681; 0x2640;
   0x2200; 0xE2C1; 0xE381; 0x2340; 0xE101; 0x21C0; 0x2080; 0xE041;
   0xA001; 0x60C0; 0x6180; 0xA141; 0x6300; 0xA3C1; 0xA281; 0x6240;
   0x6600; 0xA6C1; 0xA781; 0x6740; 0xA501; 0x65C0; 0x6480; 0xA441;
   0x6C00; 0xACC1; 0xAD81; 0x6D40; 0xAF01; 0x6FC0; 0x6E80; 0xAE41;
   0xAA01; 0x6AC0; 0x6B80; 0xAB41; 0x6900; 0xA9C1; 0xA881; 0x6840;
   0x7800; 0xB8C1; 0xB981; 0x7940; 0xBB01; 0x7BC0; 0x7A80; 0xBA41;
   0xBE01; 0x7EC0; 0x7F80; 0xBF41; 0x7D00; 0xBDC1; 0xBC81; 0x7C40;
   0xB401; 0x74C0; 0x7580; 0xB541; 0x7700; 0xB7C1; 0xB681; 0x7640;
   0x7200; 0xB2C1; 0xB381; 0x7340; 0xB101; 0x71C0; 0x7080; 0xB041;
   0x5000; 0x90C1; 0x9181; 0x5140; 0x9301; 0x53C0; 0x5280; 0x9241;
   0x9601; 0x56C0; 0x5780; 0x9741; 0x5500; 0x95C1; 0x9481; 0x5440;
   0x9C01; 0x5CC0; 0x5D80; 0x9D41; 0x5F00; 0x9FC1; 0x9E81; 0x5E40;
   0x5A00; 0x9AC1; 0x9B81; 0x5B40; 0x9901; 0x59C0; 0x5880; 0x9841;
   0x8801; 0x48C0; 0x4980; 0x8941; 0x4B00; 0x8BC1; 0x8A81; 0x4A40;
   0x4E00; 0x8EC1; 0x8F81; 0x4F40; 0x8D01; 0x4DC0; 0x4C80; 0x8C41;
   0x4400; 0x84C1; 0x8581; 0x4540; 0x8701; 0x47C0; 0x4680; 0x8641;
   0x8201; 0x42C0; 0x4380; 0x8341; 0x4100; 0x81C1; 0x8081; 0x4040].

Definition crc_step (crc b : Z) : Z :=
  Z.lxor (Z.shiftr crc 8) (nth (Z.to_nat (Z.land (Z.lxor crc b) 0xFF)) crc_table 0).

Definition calcrc (buf : list Z) : Z := fold_left crc_step buf 0xffff.

(** ** Field groups *)

Record modbus_header := { hdr_seq : Z; hdr_protocol : Z; hdr_len : Z }.
Record modbus_code := { code_slave_id : Z; code_function : Z }.
Record modbus_address := { adr_start_address : Z; adr_n_reg : Z }.
Record modbus_data := { data_n_byte : Z }.
Record modbus_crc := { crc_crc : Z }.

(** The packed sizes of the structs above. *)
Definition sizeof_header : Z := 6.
Definition sizeof_code : Z := 2.
Definition sizeof_address : Z := 4.
Definition sizeof_data : Z := 1.
Definition sizeof_crc : Z := 2.

Definition zero_header : modbus_header := {| hdr_seq := 0; hdr_protocol := 0; hdr_len := 0 |}.
Definition zero_code : modbus_code := {| code_slave_id := 0; code_function := 0 |}.

Definition modbus_header_wrap (b : protocol_buf) (seq : Z) : option protocol_buf :=
  if neu_protocol_pack_buf_unused_size b <? sizeof_header then None else
  '(p, b) ← neu_protocol_pack_buf b sizeof_header;
  let b := poke p (le_store 2 (htons seq)) b in
  let b := poke (p + 2) (le_store 2 0) b in
  Some (poke (p + 4)
    (le_store 2 (htons (u16 (neu_protocol_pack_buf_used_size b - sizeof_header)))) b).

Definition modbus_header_unwrap (b : protocol_buf) : Z * protocol_buf * modbus_header :=
  match neu_protocol_unpack_buf b sizeof_header with
  | None => (0, b, zero_header)
  | Some (p, b) =>
      let seq := le_load (peek p 2 b) in
      let protocol := le_load (peek (p + 2) 2 b) in
      let len := le_load (peek (p + 4) 2 b) in
      if ntohs len >? neu_protocol_unpack_buf_unused_size b then (0, b, zero_header)
      else if negb (protocol =? 0) then (-1, b, zero_header)
      else (sizeof_header, b,
            {| hdr_seq := ntohs seq; hdr_protocol := protocol; hdr_len := ntohs len |})
  end.

Definition modbus_code_wrap (b : protocol_buf) (slave_id function : Z) : option protocol_buf :=
  if neu_protocol_pack_buf_unused_size b <? sizeof_code then None else
  '(p, b) ← neu_protocol_pack_buf b sizeof_code;
  Some (poke (p + 1) [u8 function] (poke p [u8 slave_id] b)).

Definition modbus_code_unwrap (b : protocol_buf) : Z * protocol_buf * modbus_code :=
  match neu_protocol_unpack_buf b sizeof_code with
  | None => (0, b, zero_code)
  | Some (p, b) =>
      (sizeof_code, b, {| code_slave_id := le_load (peek p 1 b);
                          code_function := le_load (peek (p + 1) 1 b) |})
  end.

Definition modbus_address_wrap (b : protocol_buf) (start n_register : Z)
    (action : modbus_action_e) : option protocol_buf :=
  if bool_decide (action = MODBUS_ACTION_HOLD_REG_WRITE) && (n_register =? 1) then
    if neu_protocol_pack_buf_unused_size b <? 2 then None else
    '(p, b) ← neu_protocol_pack_buf b 2;
    Some (poke p (le_store 2 (htons start)) b)
  else
    if neu_protocol_pack_buf_unused_size b <? sizeof_address then None else
    '(p, b) ← neu_protocol_pack_buf b sizeof_address;
    Some (poke (p + 2) (le_store 2 (htons n_register))
           (poke p (le_store 2 (htons start)) b)).

Definition modbus_address_unwrap (b : protocol_buf) : Z * protocol_buf * modbus_address :=
  match neu_protocol_unpack_buf b sizeof_address with
  | None => (0, b, {| adr_start_address := 0; adr_n_reg := 0 |})
  | Some (p, b) =>
      (sizeof_address, b,
       {| adr_start_address := ntohs (le_load (peek p 2 b));
          adr_n_reg := ntohs (le_load (peek (p + 2) 2 b)) |})
  end.

Definition modbus_data_wrap (b : protocol_buf) (n_byte : Z) (bytes : list Z)
    (action : modbus_action_e) : option protocol_buf :=
  if neu_protocol_pack_buf_unused_size b <? sizeof_data + n_byte then None else
  '(p, b) ← neu_protocol_pack_buf b n_byte;
  let b := poke p (take (Z.to_nat n_byte) bytes) b in
  if bool_decide (action = MODBUS_ACTION_DEFAULT) || (n_byte >? 2) then
    '(p, b) ← neu_protocol_pack_buf b sizeof_data;
    Some (poke p [n_byte] b)
  else Some b.

Definition modbus_data_unwrap (b : protocol_buf) : Z * protocol_buf * modbus_data :=
  match neu_protocol_unpack_buf b sizeof_data with
  | None => (0, b, {| data_n_byte := 0 |})
  | Some (p, b) =>
      let n := le_load (peek p 1 b) in
      if n >? neu_protocol_unpack_buf_unused_size b then (0, b, {| data_n_byte := 0 |})
      else (sizeof_data, b, {| data_n_byte := n |})
  end.

Definition modbus_crc_set (b : protocol_buf) : option protocol_buf :=
  let used := neu_protocol_pack_buf_used_size b in
  let crc := calcrc (peek (neu_protocol_pack_buf_get b) (Z.to_nat (used - 2)) b) in
  p ← neu_protocol_pack_buf_set b (u16 (used - 2)) 2;
  Some (poke p (le_store 2 crc) b).

Definition modbus_crc_wrap (b : protocol_buf) : option protocol_buf :=
  if neu_protocol_pack_buf_unused_size b <? sizeof_crc then None else
  '(p, b) ← neu_protocol_pack_buf b sizeof_crc;
  Some (poke p (le_store 2 0) b).

Definition modbus_crc_unwrap (b : protocol_buf) : Z * protocol_buf * modbus_crc :=
  match neu_protocol_unpack_buf b sizeof_crc with
  | None => (0, b, {| crc_crc := 0 |})
  | Some (p, b) => (sizeof_crc, b, {| crc_crc := le_load (peek p 2 b) |})
  end.

(** ** The CRC table implements the bitwise CRC-16/MODBUS *)

(** One bit of the reflected polynomial 0xA001. *)
Definition crc_bit (c : Z) : Z :=
  if Z.testbit c 0 then Z.lxor (Z.shiftr c 1) 0xA001 else Z.shiftr c 1.

Definition crc_bits (n : nat) (c : Z) : Z := Nat.iter n crc_bit c.

Definition calcrc_reference (buf : list Z) : Z :=
  fold_left (λ crc b, crc_bits 8 (Z.lxor crc b)) buf 0xffff.

Lemma crc_bit_alt c :
  crc_bit c = Z.lxor (Z.shiftr c 1) (if Z.testbit c 0 then 0xA001 else 0).
Proof. unfold crc_bit. destruct (Z.testbit c 0); [done|]. by rewrite Z.lxor_0_r. Qed.

Lemma crc_bit_lxor x y : crc_bit (Z.lxor x y) = Z.lxor (crc_bit x) (crc_bit y).
Proof.
  rewrite !crc_bit_alt, Z.lxor_spec, Z.shiftr_lxor.
  rewrite (Z.lxor_assoc (Z.shiftr x 1) (if Z.testbit x 0 then _ else _)).
  rewrite <-(Z.lxor_assoc (if Z.testbit x 0 then _ else _) (Z.shiftr y 1)).
  rewrite (Z.lxor_comm (if Z.testbit x 0 then _ else _) (Z.shiftr y 1)).
  rewrite !Z.lxor_assoc. by destruct (Z.testbit x 0), (Z.testbit y 0).
Qed.

Lemma crc_bits_S n c : crc_bits (S n) c = crc_bit (crc_bits n c).
Proof. done. Qed.

Lemma crc_bits_S_r n c : crc_bits (S n) c = crc_bits n (crc_bit c).
Proof. apply Nat.iter_succ_r. Qed.

Lemma crc_bits_lxor n x y :
  crc_bits n (Z.lxor x y) = Z.lxor (crc_bits n x) (crc_bits n y).
Proof.
  induction n as [|n IH]; [done|]. rewrite !crc_bits_S, IH. apply crc_bit_lxor.
Qed.

Lemma crc_bits_shiftl n h : crc_bits n (Z.shiftl h (Z.of_nat n)) = h.
Proof.
  revert h. induction n as [|n IH]; intros h.
  { apply Z.shiftl_0_r. }
  rewrite crc_bits_S_r.
  replace (Z.shiftl h (Z.of_nat (S n))) with (2 * Z.shiftl h (Z.of_nat n)); cycle 1.
  { rewrite !Z.shiftl_mul_pow2, Nat2Z.inj_succ, Z.pow_succ_r by lia. lia. }
  rewrite crc_bit_alt, Z.testbit_even_0, Z.lxor_0_r, Z.shiftr_div_pow2 by lia.
  change (2 ^ 1) with 2. rewrite Z.mul_comm, Z.div_mul by lia. apply IH.
Qed.

Lemma low_high_byte x : x = Z.lxor (Z.shiftl (Z.shiftr x 8) 8) (Z.land x 0xFF).
Proof.
  change 0xFF with (Z.ones 8). apply Z.bits_inj'. intros n Hn.
  rewrite Z.lxor_spec, Z.land_spec, Z.shiftl_spec by done.
  destruct (decide (n < 8)).
  - rewrite Z.ones_spec_low, (Z.testbit_neg_r _ (n - 8)) by lia. by destruct (Z.testbit x n).
  - rewrite Z.ones_spec_high, Z.shiftr_spec by lia.
    replace (n - 8 + 8) with n by lia. by destruct (Z.testbit x n).
Qed.

Lemma crc_table_correct i : is_u8 i → nth (Z.to_nat i) crc_table 0 = crc_bits 8 i.
Proof.
  intros Hi. apply (interval_decide (λ i, nth (Z.to_nat i) crc_table 0 = crc_bits 8 i) 0 256);
    [by vm_compute|lia].
Qed.

Lemma crc_step_bits crc b : is_u8 b → crc_step crc b = crc_bits 8 (Z.lxor crc b).
Proof.
  intros Hb. unfold crc_step. set (x := Z.lxor crc b).
  rewrite (low_high_byte x) at 2. rewrite crc_bits_lxor.
  rewrite (crc_bits_shiftl 8). f_equal.
  - unfold x. rewrite Z.shiftr_lxor, (Z.shiftr_div_pow2 b) by lia.
    rewrite (Z.div_small b) by lia. by rewrite Z.lxor_0_r.
  - apply crc_table_correct. change 0xFF with (Z.ones 8).
    rewrite Z.land_ones by lia. apply Z.mod_pos_bound. lia.
Qed.

(** C40: the table driven [calcrc] computes the CRC-16/MODBUS of every byte
    string: it equals the bit-by-bit shift register with the polynomial 0xA001
    and the initial value 0xFFFF. *)
Theorem calcrc_correct buf : bytes_ok buf → calcrc buf = calcrc_reference buf.
Proof.
  unfold calcrc, calcrc_reference. generalize 0xffff.
  induction buf as [|b buf IH]; intros crc Hok; [done|].
  apply Forall_cons in Hok as [Hb Hok]. cbn [fold_left].
  by rewrite crc_step_bits, IH.
Qed.

Lemma calcrc_correct_witness :
  calcrc [0x01; 0x03; 0x00; 0x00; 0x00; 0x0A] = 0xCDC5 ∧
  calcrc [0x01; 0x03; 0x00; 0x00; 0x00; 0x0A] =
    calcrc_reference [0x01; 0x03; 0x00; 0x00; 0x00; 0x0A].
Proof. split; [reflexivity|]. apply calcrc_correct. repeat constructor; done. Defined.

(** ** What each wrap puts in front of the frame *)

(** [f] needs [need] free bytes and then prepends [bs rest] to the frame. *)
Definition prepends (f : protocol_buf → option protocol_buf) (need : Z)
    (bs : list Z → list Z) : Prop :=
  ∀ b, buf_ok b → need <= offset b →
    ∃ b', f b = Some b' ∧ buf_ok b' ∧ size b' = size b ∧
      packed b' = bs (packed b) ++ packed b.

Lemma prepends_intro f n bs :
  0 <= n →
  (∀ rest, Z.of_nat (length (bs rest)) = n ∧ bytes_ok (bs rest)) →
  (∀ b, buf_ok b → n <= offset b →
    f b = Some (poke (offset b - n) (bs (packed b)) (set_offset (offset b - n) b))) →
  prepends f n bs.
Proof.
  intros Hn Hbs Hf b Hb Ho. destruct (Hbs (packed b)) as [Hl Hok].
  destruct (pack_fill b n (bs (packed b))) as [Hok' Hp]; [done|lia|done|done|].
  eexists. split; [by apply Hf|]. done.
Qed.

(** A field store that continues a previous one. *)
Lemma poke_next p q x y b b' :
  buf_ok b → base b' = base b → 0 <= p → q = p + Z.of_nat (length x) →
  p + Z.of_nat (length x + length y) <= size b →
  poke q y (poke p x b') = poke p (x ++ y) b'.
Proof.
  intros [Hl _ _ _] Hbase Hp -> Hq. apply poke_poke; [done|]. rewrite Hbase. lia.
Qed.

Lemma le_store_htons z : le_store 2 (htons z) = be_store 2 z.
Proof. apply le_store_bswap. Qed.

Ltac solve_len := rewrite ?length_app, ?length_be_store, ?length_le_store; simpl; lia.
Ltac solve_bytes :=
  intros; rewrite ?bytes_ok_app; split_and?; auto with neuron;
  repeat constructor; auto with neuron; lia.

Lemma header_wrap_spec seq :
  prepends (λ b, modbus_header_wrap b seq) 6
    (λ rest, be_store 2 seq ++ [0; 0] ++ be_store 2 (Z.of_nat (length rest))).
Proof.
  apply prepends_intro; [lia|intros; split; [solve_len|solve_bytes]|].
  intros b Hb Ho. unfold modbus_header_wrap, neu_protocol_pack_buf_unused_size, sizeof_header.
  destruct (Z.ltb_spec (offset b) 6); [lia|].
  rewrite pack_some by (done || lia). cbn [mbind option_bind].
  rewrite !le_store_htons. change (le_store 2 0) with [0; 0].
  pose proof (ok_off b Hb). rewrite !(poke_next (offset b - 6) _ _ _ b) by (done || solve_len).
  f_equal. f_equal. rewrite <-!app_assoc. do 3 f_equal.
  unfold neu_protocol_pack_buf_used_size. simpl. rewrite length_packed by done.
  pose proof (ok_size b Hb). rewrite !u16_id; [lia|lia|rewrite u16_id; lia].
Qed.

Lemma code_wrap_spec slave_id function :
  is_u8 slave_id → is_u8 function →
  prepends (λ b, modbus_code_wrap b slave_id function) 2 (λ _, [slave_id; function]).
Proof.
  intros Hs Hf. apply prepends_intro; [lia|intros; split; [solve_len|solve_bytes]|].
  intros b Hb Ho. unfold modbus_code_wrap, neu_protocol_pack_buf_unused_size, sizeof_code.
  destruct (Z.ltb_spec (offset b) 2); [lia|].
  rewrite pack_some by (done || lia). cbn [mbind option_bind]. pose proof (ok_off b Hb).
  rewrite !u8_id, (poke_next (offset b - 2) _ _ _ b) by (done || solve_len). done.
Qed.

Lemma address_wrap_spec start n_register action :
  action = MODBUS_ACTION_DEFAULT ∨ n_register ≠ 1 →
  prepends (λ b, modbus_address_wrap b start n_register action) 4
    (λ _, be_store 2 start ++ be_store 2 n_register).
Proof.
  intros Hact. apply prepends_intro; [lia|intros; split; [solve_len|solve_bytes]|].
  intros b Hb Ho. unfold modbus_address_wrap, neu_protocol_pack_buf_unused_size, sizeof_address.
  replace (bool_decide (action = MODBUS_ACTION_HOLD_REG_WRITE) && (n_register =? 1)) with false.
  - destruct (Z.ltb_spec (offset b) 4); [lia|].
    rewrite pack_some by (done || lia). cbn [mbind option_bind]. pose proof (ok_off b Hb).
    rewrite !le_store_htons, (poke_next (offset b - 4) _ _ _ b) by (done || solve_len). done.
  - destruct Hact as [->|Hn]; [done|].
    destruct (Z.eqb_spec n_register 1); [done|]. by rewrite andb_false_r.
Qed.

Lemma address_wrap_single_spec start :
  prepends (λ b, modbus_address_wrap b start 1 MODBUS_ACTION_HOLD_REG_WRITE) 2
    (λ _, be_store 2 start).
Proof.
  apply prepends_intro; [lia|intros; split; [solve_len|solve_bytes]|].
  intros b Hb Ho. unfold modbus_address_wrap, neu_protocol_pack_buf_unused_size. simpl.
  destruct (Z.ltb_spec (offset b) 2); [lia|].
  rewrite pack_some by (done || lia). cbn [mbind option_bind]. by rewrite le_store_htons.
Qed.

Lemma data_wrap_spec n_byte bytes action :
  is_u8 n_byte → bytes_ok bytes → n_byte <= Z.of_nat (length bytes) →
  prepends (λ b, modbus_data_wrap b n_byte bytes action) (n_byte + 1)
    (λ _, (if bool_decide (action = MODBUS_ACTION_DEFAULT) || (n_byte >? 2)
           then [n_byte] else []) ++ take (Z.to_nat n_byte) bytes).
Proof.
  intros Hn Hok Hlen b Hb Ho.
  unfold modbus_data_wrap, neu_protocol_pack_buf_unused_size, sizeof_data.
  destruct (Z.ltb_spec (offset b) (1 + n_byte)); [lia|].
  rewrite pack_some by (done || lia). cbn [mbind option_bind].
  destruct (pack_fill b n_byte (take (Z.to_nat n_byte) bytes)) as [Hok1 Hp1];
    [done|lia|rewrite length_take; lia|auto with neuron|].
  destruct (_ || _); [|by eexists].
  set (b1 := poke _ _ _) in *. assert (offset b1 = offset b - n_byte) as Ho1 by done.
  rewrite pack_some by (done || lia). cbn [mbind option_bind].
  destruct (pack_fill b1 1 [n_byte]) as [Hok2 Hp2]; [done|lia|done|solve_bytes|].
  eexists. split_and!; [done|done|done|]. by rewrite Hp2, Hp1.
Qed.

Lemma crc_wrap_spec : prepends modbus_crc_wrap 2 (λ _, [0; 0]).
Proof.
  apply prepends_intro; [lia|intros; split; [solve_len|solve_bytes]|].
  intros b Hb Ho. unfold modbus_crc_wrap, neu_protocol_pack_buf_unused_size, sizeof_crc.
  destruct (Z.ltb_spec (offset b) 2); [lia|].
  rewrite pack_some by (done || lia). done.
Qed.

(** The CRC placeholder at the end of the frame is overwritten with the CRC of
    everything in front of it, low byte first. *)
Lemma crc_set_spec b frame :
  buf_ok b → packed b = frame ++ [0; 0] →
  ∃ b', modbus_crc_set b = Some b' ∧ buf_ok b' ∧ size b' = size b ∧
    packed b' = frame ++ le_store 2 (calcrc frame).
Proof.
  intros Hb Hp. unfold modbus_crc_set. rewrite used_size_packed, Hp by done.
  pose proof (length_packed b Hb) as Hlen. rewrite Hp, length_app in Hlen.
  simpl in Hlen. destruct Hb as [Hl Ho Hs Hby].
  rewrite length_app. simpl. set (n := length frame) in *.
  assert (Hpk : peek (neu_protocol_pack_buf_get b) (Z.to_nat (Z.of_nat (n + 2) - 2)) b = frame).
  { unfold peek, neu_protocol_pack_buf_get, mem_read. fold (packed b). rewrite Hp.
    replace (Z.to_nat (Z.of_nat (n + 2) - 2)) with n by lia. by apply take_app_length'. }
  rewrite Hpk. unfold neu_protocol_pack_buf_set. rewrite u16_id by lia.
  destruct (Z.gtb_spec (offset b + (Z.of_nat (n + 2) - 2) + 2 - 1) (size b)); [lia|].
  cbn [mbind option_bind]. eexists. split; [done|].
  assert (Hz : Z.to_nat (offset b + (Z.of_nat (n + 2) - 2)) = (Z.to_nat (offset b) + n)%nat) by lia.
  split_and!; [|done|].
  - split; simpl; try lia; [|auto with neuron].
    rewrite Hz, length_mem_write; rewrite ?length_le_store; lia.
  - unfold packed in *. simpl. rewrite Hz. unfold mem_write.
    rewrite drop_app_le by (rewrite length_take; lia).
    rewrite <-(take_drop (Z.to_nat (offset b) + n) (base b)) in Hp.
    rewrite drop_app_le in Hp by (rewrite length_take; lia).
    apply app_inj_1 in Hp as [-> ?]; [|rewrite length_drop, length_take; lia].
    rewrite length_le_store, (drop_ge _ (_ + _ + 2)) by lia. by rewrite app_nil_r.
Qed.

(** ** What each unwrap takes off the frame *)

(** [f] reads [fields] from a buffer whose remaining bytes start with [bs]. *)
Definition consumes {A} (f : protocol_buf → Z * protocol_buf * A) (bs : list Z)
    (P : list Z → Prop) (ret : Z) (fields : A) : Prop :=
  ∀ b rest, buf_ok b → remaining b = bs ++ rest → P rest →
    ∃ b', f b = (ret, b', fields) ∧ buf_ok b' ∧ remaining b' = rest ∧ size b' = size b.

(** The reservation succeeds and the bytes behind the pointer are [bs]. *)
Lemma unpack_prefix b bs rest n :
  buf_ok b → remaining b = bs ++ rest → n = Z.of_nat (length bs) →
  ∃ b', neu_protocol_unpack_buf b n = Some (offset b, b') ∧ buf_ok b' ∧
    remaining b' = rest ∧ size b' = size b ∧
    ∀ p k m, p = offset b + Z.of_nat k → (k + m <= length bs)%nat →
      peek p m b' = take m (drop k bs).
Proof.
  intros Hb Hr ->.
  assert (0 <= Z.of_nat (length bs) <= Z.of_nat (length (remaining b))) as Hle.
  { rewrite Hr, length_app. lia. }
  destruct (unpack_rest b _ Hb Hle) as [Hok Hrest].
  eexists. split; [by apply unpack_some|]. split_and!; [done| |done|].
  - by rewrite Hrest, Hr, Nat2Z.id, drop_app_length.
  - intros p k m -> Hkm. pose proof (ok_off b Hb). rewrite peek_remaining by lia.
    rewrite Nat2Z.id, Hr, drop_app_le, take_app_le by (rewrite ?length_drop; lia). done.
Qed.

Lemma ntohs_be z : ntohs (le_load (be_store 2 z)) = u16 z.
Proof. change (le_load (be_store 2 z)) with (bswap 2 z). apply (bswap_involutive 2). Qed.

Lemma be_store_2 z : be_store 2 z = [(z / 256) mod 256; z mod 256].
Proof. done. Qed.

Lemma le_load_1 b : le_load [b] = b.
Proof. unfold le_load. lia. Qed.

Lemma header_unwrap_spec seq len :
  is_u16 seq → is_u16 len →
  consumes modbus_header_unwrap (be_store 2 seq ++ [0; 0] ++ be_store 2 len)
    (λ rest, len <= Z.of_nat (length rest)) 6
    {| hdr_seq := seq; hdr_protocol := 0; hdr_len := len |}.
Proof.
  intros Hseq Hlen b rest Hb Hr HP.
  destruct (unpack_prefix b _ _ sizeof_header Hb Hr) as (b' & Hu & Hb' & Hr' & Hsz & Hpk); [done|].
  unfold modbus_header_unwrap. rewrite Hu.
  assert (Hs : peek (offset b) 2 b' = be_store 2 seq)
    by (by rewrite (Hpk _ 0%nat 2%nat) by (simpl; lia)).
  assert (Hp : peek (offset b + 2) 2 b' = [0; 0]) by (by rewrite (Hpk _ 2%nat 2%nat) by (simpl; lia)).
  assert (Hl : peek (offset b + 4) 2 b' = be_store 2 len)
    by (by rewrite (Hpk _ 4%nat 2%nat) by (simpl; lia)).
  rewrite Hs, Hp, Hl, !ntohs_be, !u16_id by done. rewrite unpack_unused, Hr' by done.
  destruct (Z.gtb_spec len (Z.of_nat (length rest))); [lia|]. by eexists.
Qed.

(** A header that announces more bytes than arrived is incomplete. *)
Lemma header_unwrap_short seq len b rest :
  is_u16 len → buf_ok b → remaining b = be_store 2 seq ++ [0; 0] ++ be_store 2 len ++ rest →
  Z.of_nat (length rest) < len → (modbus_header_unwrap b).1.1 = 0.
Proof.
  intros Hlen Hb Hr HP. rewrite !app_assoc, <-(app_assoc (be_store 2 seq)) in Hr.
  destruct (unpack_prefix b _ _ sizeof_header Hb Hr) as (b' & Hu & Hb' & Hr' & Hsz & Hpk); [done|].
  unfold modbus_header_unwrap. rewrite Hu.
  assert (Hl : peek (offset b + 4) 2 b' = be_store 2 len)
    by (by rewrite (Hpk _ 4%nat 2%nat) by (simpl; lia)).
  rewrite Hl, ntohs_be, u16_id by done. rewrite unpack_unused, Hr' by done.
  destruct (Z.gtb_spec len (Z.of_nat (length rest))); [done|lia].
Qed.

Lemma code_unwrap_spec slave_id function :
  consumes modbus_code_unwrap [slave_id; function] (λ _, True) 2
    {| code_slave_id := slave_id; code_function := function |}.
Proof.
  intros b rest Hb Hr _.
  destruct (unpack_prefix b _ _ sizeof_code Hb Hr) as (b' & Hu & Hb' & Hr' & Hsz & Hpk); [done|].
  unfold modbus_code_unwrap. rewrite Hu.
  assert (Hs : peek (offset b) 1 b' = [slave_id])
    by (by rewrite (Hpk _ 0%nat 1%nat) by (simpl; lia)).
  assert (Hf : peek (offset b + 1) 1 b' = [function])
    by (by rewrite (Hpk _ 1%nat 1%nat) by (simpl; lia)).
  rewrite Hs, Hf, !le_load_1. by eexists.
Qed.

Lemma address_unwrap_spec start n_reg :
  is_u16 start → is_u16 n_reg →
  consumes modbus_address_unwrap (be_store 2 start ++ be_store 2 n_reg) (λ _, True) 4
    {| adr_start_address := start; adr_n_reg := n_reg |}.
Proof.
  intros Hst Hn b rest Hb Hr _.
  destruct (unpack_prefix b _ _ sizeof_address Hb Hr) as (b' & Hu & Hb' & Hr' & Hsz & Hpk); [done|].
  unfold modbus_address_unwrap. rewrite Hu.
  assert (Hs : peek (offset b) 2 b' = be_store 2 start)
    by (by rewrite (Hpk _ 0%nat 2%nat) by (simpl; lia)).
  assert (Hf : peek (offset b + 2) 2 b' = be_store 2 n_reg)
    by (by rewrite (Hpk _ 2%nat 2%nat) by (simpl; lia)).
  rewrite Hs, Hf, !ntohs_be, !u16_id by done. by eexists.
Qed.

Lemma data_unwrap_spec n :
  consumes modbus_data_unwrap [n] (λ rest, n <= Z.of_nat (length rest)) 1
    {| data_n_byte := n |}.
Proof.
  intros b rest Hb Hr HP.
  destruct (unpack_prefix b _ _ sizeof_data Hb Hr) as (b' & Hu & Hb' & Hr' & Hsz & Hpk); [done|].
  unfold modbus_data_unwrap. rewrite Hu.
  assert (Hs : peek (offset b) 1 b' = [n])
    by (by rewrite (Hpk _ 0%nat 1%nat) by (simpl; lia)).
  rewrite Hs, le_load_1, unpack_unused, Hr' by done.
  destruct (Z.gtb_spec n (Z.of_nat (length rest))); [lia|]. by eexists.
Qed.

Lemma crc_unwrap_spec crc :
  is_u16 crc → consumes modbus_crc_unwrap (le_store 2 crc) (λ _, True) 2 {| crc_crc := crc |}.
Proof.
  intros Hc b rest Hb Hr _.
  destruct (unpack_prefix b _ _ sizeof_crc Hb Hr) as (b' & Hu & Hb' & Hr' & Hsz & Hpk); [done|].
  unfold modbus_crc_unwrap. rewrite Hu.
  assert (Hs : peek (offset b) 2 b' = le_store 2 crc)
    by (by rewrite (Hpk _ 0%nat 2%nat) by (simpl; lia)).
  rewrite Hs, le_load_store. change (256 ^ Z.of_nat 2) with 65536.
  rewrite Z.mod_small by done. by eexists.
Qed.

(** Too few bytes for a field group: the unwrap returns 0. *)
Lemma code_unwrap_short b :
  buf_ok b → (length (remaining b) < 2)%nat → modbus_code_unwrap b = (0, b, zero_code).
Proof.
  intros Hb Hr. unfold modbus_code_unwrap. rewrite unpack_none; [done|done|].
  unfold sizeof_code. lia.
Qed.
