(* ===== verification/TagSort.v ===== *)
(** * Sorting and grouping of tags

    src/base/tag_sort.c with the bottom-up merge sort [DL_SORT] of
    include/neuron/utils/utlist.h that it runs.  Drivers use it to turn the tags
    of a group into few protocol requests.  The first section verifies the sort,
    the second the greedy grouping, both for the callbacks the driver supplies:
    a comparison that is a total preorder ([TotalCmp]) and a grouping function
    with a private context. *)

From S2P Require Import Prelude.

(** What [neu_tag_sort] needs from a [neu_tag_sort_cmp]. *)
Class TotalCmp {A} (cmp : A → A → Z) : Prop := {
  cmp_flip x y : 0 < cmp x y → cmp y x <= 0;
  cmp_trans x y z : cmp x y <= 0 → cmp y z <= 0 → cmp x z <= 0;
}.

(** ** DL_SORT *)

Section dl_sort.
Context {A : Type} (cmp : A → A → Z).

(** The inner [while]: [p] is the run of [_ls_psize] elements at [_ls_p], [q]
    the list at [_ls_q] of which at most [qsize] elements belong to the second
    run.  The result is the elements appended to the output and the final
    [_ls_q]. *)
Fixpoint merge_runs (p : list A) : nat → list A → list A * list A :=
  fix go (qsize : nat) (q : list A) {struct qsize} : list A * list A :=
    match p with
    | [] =>
        match qsize, q with
        | S k, e :: q' => let '(out, rest) := go k q' in (e :: out, rest)
        | _, _ => ([], q)
        end
    | x :: p' =>
        match qsize, q with
        | S k, y :: q' =>
            if cmp x y <=? 0 then let '(out, rest) := merge_runs p' qsize q in (x :: out, rest)
            else let '(out, rest) := go k q' in (y :: out, rest)
        | _, _ => let '(out, rest) := merge_runs p' qsize q in (x :: out, rest)
        end
    end.

(** One pass over the list: merge neighbouring runs of [insize] elements.  The
    fuel bounds the merges, each of which consumes an element; the second
    component is [_ls_nmerges]. *)
Fixpoint dl_pass (fuel insize : nat) (p : list A) : list A * nat :=
  match fuel, p with
  | S fuel', _ :: _ =>
      let '(out, q) := merge_runs (take insize p) insize (drop insize p) in
      let '(tail, nmerges) := dl_pass fuel' insize q in
      (out ++ tail, S nmerges)
  | _, _ => (p, O)
  end.

(** The outer loop doubles the run length until a pass makes one merge. *)
Fixpoint dl_loop (fuel insize : nat) (l : list A) : option (list A) :=
  match fuel with
  | O => None
  | S fuel' =>
      let '(l', nmerges) := dl_pass (length l) insize l in
      if (nmerges <=? 1)%nat then Some l' else dl_loop fuel' (2 * insize) l'
  end.

Definition DL_SORT (l : list A) : option (list A) :=
  match l with [] => Some [] | _ => dl_loop (S (length l)) 1 l end.

(** *** Correctness of the sort *)

Definition cmp_le (x y : A) : Prop := cmp x y <= 0.
Definition sorted : list A → Prop := StronglySorted cmp_le.

Lemma merge_runs_nil k q : merge_runs [] k q = (take k q, drop k q).
Proof.
  revert q. induction k as [|k IH]; intros [|e q]; try done.
  change (merge_runs [] (S k) (e :: q))
    with (let '(out, rest) := merge_runs [] k q in (e :: out, rest)).
  by rewrite IH.
Qed.

Lemma merge_runs_cons x p k q :
  merge_runs (x :: p) k q =
    match k, q with
    | S k', y :: q' =>
        if cmp x y <=? 0 then let '(out, rest) := merge_runs p k q in (x :: out, rest)
        else let '(out, rest) := merge_runs (x :: p) k' q' in (y :: out, rest)
    | _, _ => let '(out, rest) := merge_runs p k q in (x :: out, rest)
    end.
Proof. by destruct k, q. Qed.

(** The merge consumes the first run and up to [k] elements of the second. *)
Lemma merge_runs_perm p k q :
  (merge_runs p k q).1 ≡ₚ p ++ take k q ∧ (merge_runs p k q).2 = drop k q.
Proof.
  revert k q. induction p as [|x p IHp]; intros k q.
  { by rewrite merge_runs_nil. }
  revert q. induction k as [|k IHk]; intros q; rewrite merge_runs_cons.
  { destruct (IHp 0%nat q) as [H1 H2]. destruct (merge_runs p 0 q). simpl in *.
    split; [by rewrite H1|done]. }
  destruct q as [|y q].
  { destruct (IHp (S k) []) as [H1 H2]. destruct (merge_runs p (S k) []). simpl in *.
    split; [by rewrite H1|done]. }
  destruct (cmp x y <=? 0).
  - destruct (IHp (S k) (y :: q)) as [H1 H2]. destruct (merge_runs p (S k) (y :: q)).
    simpl in *. split; [by rewrite H1|done].
  - destruct (IHk q) as [H1 H2]. destruct (merge_runs (x :: p) k q). simpl in *.
    split; [|done]. rewrite H1. simpl. rewrite Permutation_swap. by rewrite Permutation_middle.
Qed.

Context `{!TotalCmp cmp}.

Lemma sorted_cons_le x y l : cmp_le x y → sorted (y :: l) → Forall (cmp_le x) (y :: l).
Proof.
  intros Hxy Hs. apply StronglySorted_inv in Hs as [_ Hall].
  constructor; [done|]. eapply Forall_impl; [done|]. intros z Hyz. by eapply cmp_trans.
Qed.

Lemma merge_runs_sorted p k q :
  sorted p → sorted (take k q) → sorted (merge_runs p k q).1.
Proof.
  revert k q. induction p as [|x p IHp]; intros k q Hp.
  { by rewrite merge_runs_nil. }
  (* emitting [x] in front of what the recursive call emits *)
  assert (Hemit : ∀ k q, sorted (take k q) → Forall (cmp_le x) (take k q) →
    sorted (let '(out, rest) := merge_runs p k q in (x :: out, rest)).1).
  { intros k' q' Hq Hle. pose proof Hp as [Hp' Hx]%StronglySorted_inv.
    pose proof (IHp k' q' Hp' Hq) as IH. destruct (merge_runs_perm p k' q') as [Hperm _].
    destruct (merge_runs p k' q') as [out rest]. simpl in *. constructor; [done|].
    rewrite Hperm. by apply Forall_app. }
  revert q. induction k as [|k IHk]; intros q Hq; rewrite merge_runs_cons.
  { by apply Hemit. }
  destruct q as [|y q]; [by apply Hemit|].
  destruct (Z.leb_spec (cmp x y) 0) as [Hxy|Hxy].
  - apply Hemit; [done|]. by apply sorted_cons_le.
  - simpl in Hq. pose proof Hq as [Hq' Hy]%StronglySorted_inv.
    pose proof (IHk q Hq') as IH. destruct (merge_runs_perm (x :: p) k q) as [Hperm _].
    destruct (merge_runs (x :: p) k q) as [out rest]. simpl in *. constructor; [done|].
    rewrite Hperm. change (Forall (cmp_le y) ((x :: p) ++ take k q)).
    apply Forall_app. split; [|done]. apply sorted_cons_le; [by apply cmp_flip|done].
Qed.

(** A list made of sorted runs of [n] elements, the last one maybe shorter. *)
Inductive chunked (n : nat) : list A → Prop :=
  | chunked_last l : (length l <= n)%nat → sorted l → chunked n l
  | chunked_run r l : length r = n → sorted r → chunked n l → chunked n (r ++ l).

Lemma chunked_inv n l :
  chunked n l → sorted (take n l) ∧ chunked n (drop n l).
Proof.
  intros [l' Hl Hs|r l' Hr Hs Hc].
  - rewrite take_ge, drop_ge by lia. split; [done|]. constructor; [simpl; lia|constructor].
  - subst n. by rewrite take_app_length, drop_app_length.
Qed.

Lemma chunked_1 l : chunked 1 l.
Proof.
  induction l as [|x l IH].
  - constructor; [simpl; lia|constructor].
  - apply (chunked_run 1 [x] l); [done|repeat constructor|done].
Qed.

Lemma dl_pass_S fuel n p :
  p ≠ [] →
  dl_pass (S fuel) n p =
    ((merge_runs (take n p) n (drop n p)).1 ++ (dl_pass fuel n (drop n (drop n p))).1,
     S (dl_pass fuel n (drop n (drop n p))).2).
Proof.
  intros Hp. destruct p as [|x p]; [done|]. simpl.
  destruct (merge_runs_perm (take n (x :: p)) n (drop n (x :: p))) as [_ H2].
  destruct (merge_runs _ _ _) as [out rest]. simpl in H2. subst rest.
  by destruct (dl_pass _ _ _).
Qed.

Lemma dl_pass_perm fuel n l : (dl_pass fuel n l).1 ≡ₚ l.
Proof.
  revert l. induction fuel as [|fuel IH]; intros [|x l]; try done.
  rewrite dl_pass_S by done. cbn [fst].
  rewrite IH, (proj1 (merge_runs_perm _ _ _)), <-app_assoc, take_drop.
  by rewrite take_drop.
Qed.

Lemma dl_pass_chunked fuel n l :
  (0 < n)%nat → (length l <= fuel)%nat → chunked n l → chunked (2 * n) (dl_pass fuel n l).1.
Proof.
  intros Hn. revert l. induction fuel as [|fuel IH]; intros l Hf Hc.
  { destruct l; [|simpl in Hf; lia]. constructor; simpl; [lia|constructor]. }
  destruct (decide (l = [])) as [->|Hl]. { constructor; simpl; [lia|constructor]. }
  assert (0 < length l)%nat by (destruct l; simpl; [done|lia]).
  rewrite dl_pass_S by done. cbn [fst].
  destruct (chunked_inv _ _ Hc) as [Hs1 Hc1]. destruct (chunked_inv _ _ Hc1) as [Hs2 Hc2].
  pose proof (merge_runs_sorted (take n l) n (drop n l) Hs1 Hs2) as Hs.
  destruct (merge_runs_perm (take n l) n (drop n l)) as [Hperm _].
  apply Permutation_length in Hperm. rewrite length_app, !length_take, length_drop in Hperm.
  destruct (decide (2 * n <= length l)%nat).
  - apply chunked_run; [lia|done|]. apply IH; [|done]. rewrite !length_drop. lia.
  - rewrite (drop_ge (drop n l)) by (rewrite length_drop; lia).
    replace (dl_pass fuel n []).1 with (@nil A) by (by destruct fuel).
    rewrite app_nil_r. constructor; [lia|done].
Qed.

(** A pass that made at most one merge saw at most two runs. *)
Lemma dl_pass_merges fuel n l :
  (0 < n)%nat → (length l <= fuel)%nat →
  ((dl_pass fuel n l).2 <= 1)%nat ↔ (length l <= 2 * n)%nat.
Proof.
  intros Hn Hf. destruct fuel as [|fuel].
  { simpl. lia. }
  destruct (decide (l = [])) as [->|Hl]. { simpl. lia. }
  assert (0 < length l)%nat by (destruct l; simpl; [done|lia]).
  rewrite dl_pass_S by done. cbn [snd].
  assert (Hz : ∀ k : list A, (length k <= fuel)%nat →
    ((dl_pass fuel n k).2 = 0)%nat ↔ length k = 0%nat).
  { intros k Hk. destruct fuel; [simpl; lia|]. destruct k; [done|].
    rewrite dl_pass_S by done. simpl. lia. }
  rewrite <-Nat.succ_le_mono, Nat.le_0_r, Hz; rewrite !length_drop; lia.
Qed.

Lemma chunked_short n l : (length l <= n)%nat → chunked n l → sorted l.
Proof.
  intros Hl Hc. destruct (chunked_inv _ _ Hc) as [Hs _]. by rewrite take_ge in Hs by lia.
Qed.

Lemma dl_loop_correct fuel n l :
  (0 < n)%nat → (length l < n * 2 ^ fuel)%nat → (0 < fuel)%nat → chunked n l →
  ∃ l', dl_loop fuel n l = Some l' ∧ l' ≡ₚ l ∧ sorted l'.
Proof.
  revert n l. induction fuel as [|fuel IH]; intros n l Hn Hf Hpos Hc; [lia|]. simpl.
  pose proof (dl_pass_perm (length l) n l) as Hperm.
  pose proof (dl_pass_chunked (length l) n l Hn (Nat.le_refl _) Hc) as Hc'.
  pose proof (dl_pass_merges (length l) n l Hn (Nat.le_refl _)) as Hm.
  destruct (dl_pass (length l) n l) as [l1 m]. cbn [fst snd] in *.
  pose proof (Permutation_length Hperm) as Hlen.
  destruct (Nat.leb_spec m 1) as [H1|H1].
  - exists l1. split_and!; [done|done|]. apply (chunked_short (2 * n)); [lia|done].
  - assert (2 * n < length l)%nat as Hbig by lia.
    simpl in Hf. destruct (IH (2 * n)%nat l1) as (l' & Hl' & Hp & Hs); [lia| | |done|].
    + rewrite Hlen. nia.
    + destruct fuel; [simpl in *; nia|lia].
    + exists l'. split_and!; [done| |done]. by rewrite Hp.
Qed.

Lemma DL_SORT_correct l : ∃ l', DL_SORT l = Some l' ∧ l' ≡ₚ l ∧ sorted l'.
Proof.
  destruct l as [|x l]. { exists []. split_and!; [done|done|constructor]. }
  apply dl_loop_correct; [lia| |lia|apply chunked_1].
  rewrite Nat.mul_1_l. pose proof (Nat.pow_gt_lin_r 2 (S (length (x :: l)))). lia.
Qed.
End dl_sort.

Arguments DL_SORT {_} _ _.
Arguments sorted {_} _ _.

(** ** Grouping *)

(** [info.size], [info.context] ([None] is [NULL]) and [tags] of a group. *)
Record neu_tag_sort_t {A C : Type} := {
  info_size : Z;
  info_context : option C;
  sort_tags : list A;
}.
Arguments neu_tag_sort_t : clear implicits.

Record neu_tag_sort_result_t {A C : Type} := {
  n_sort : Z;
  sorts : list (neu_tag_sort_t A C);
}.
Arguments neu_tag_sort_result_t : clear implicits.

Section grouping.
Context {A C : Type}.
(** The driver's [neu_tag_sort_fn]: its verdict and the context it leaves in
    the group it was called on. *)
Context (fn : neu_tag_sort_t A C → A → A → bool * option C).
Context (cmp : A → A → Z).
Implicit Types (s : neu_tag_sort_t A C) (result : neu_tag_sort_result_t A C).

Definition with_context s (c : option C) : neu_tag_sort_t A C :=
  {| info_size := info_size s; info_context := c; sort_tags := sort_tags s |}.

Definition push_tag s (c : option C) (tag : A) : neu_tag_sort_t A C :=
  {| info_size := u16 (info_size s + 1); info_context := c;
     sort_tags := sort_tags s ++ [tag] |}.

(** The [for] loop over the existing groups: the groups after the loop and the
    flag [sorted].  [utarray_back] of a group without tags would be [NULL]. *)
Fixpoint try_groups (ss : list (neu_tag_sort_t A C)) (tag : A)
    : option (list (neu_tag_sort_t A C) * bool) :=
  match ss with
  | [] => Some ([], false)
  | s :: ss' =>
      back ← last (sort_tags s);
      let '(ok, c) := fn s back tag in
      if ok then Some (push_tag s c tag :: ss', true)
      else '(ss'', sorted) ← try_groups ss' tag;
           Some (with_context s c :: ss'', sorted)
  end.

(** A group created for [tag]; [fn] is called once to set up its context. *)
Definition new_group (tag : A) : neu_tag_sort_t A C :=
  let s := {| info_size := 1; info_context := None; sort_tags := [tag] |} in
  with_context s (fn s tag tag).2.

(** [tag_sort]; [None] is undefined behaviour: [n_sort] wraps and the new group
    is stored in front of the array. *)
Definition tag_sort result (tag : A) : option (neu_tag_sort_result_t A C) :=
  '(ss, sorted) ← try_groups (sorts result) tag;
  if (sorted : bool) then Some {| n_sort := n_sort result; sorts := ss |}
  else
    let n := u16 (n_sort result + 1) in
    if n =? 0 then None
    else Some {| n_sort := n; sorts := ss ++ [new_group tag] |}.

Fixpoint tag_sort_all result (tags : list A) : option (neu_tag_sort_result_t A C) :=
  match tags with
  | [] => Some result
  | tag :: tags' => result ← tag_sort result tag; tag_sort_all result tags'
  end.

Definition neu_tag_sort (tags : list A) : option (neu_tag_sort_result_t A C) :=
  head ← DL_SORT cmp tags;
  tag_sort_all {| n_sort := 0; sorts := [] |} head.

(** *** The grouping invariant *)

Definition all_tags (ss : list (neu_tag_sort_t A C)) : list A := concat (sort_tags <$> ss).

Record group_wf s : Prop := {
  wf_nonempty : sort_tags s ≠ [];
  wf_size : info_size s = u16 (Z.of_nat (length (sort_tags s)));
}.

Record result_wf result : Prop := {
  wf_n_sort : n_sort result = Z.of_nat (length (sorts result));
  wf_u16 : n_sort result < 65536;
  wf_groups : Forall group_wf (sorts result);
}.

Lemma group_wf_push s c tag : group_wf s → group_wf (push_tag s c tag).
Proof.
  intros [H1 H2]. split; simpl.
  - by destruct (sort_tags s).
  - rewrite H2, length_app. simpl. zlia.
Qed.

Lemma group_wf_new tag : group_wf (new_group tag).
Proof. by split. Qed.

(** The loop never meets an empty group; it either files the tag or leaves the
    tags of every group alone. *)
Lemma try_groups_spec ss tag :
  Forall group_wf ss →
  ∃ ss' ok, try_groups ss tag = Some (ss', ok) ∧ Forall group_wf ss' ∧
    length ss' = length ss ∧
    all_tags ss' ≡ₚ (if ok then [tag] else []) ++ all_tags ss.
Proof.
  induction 1 as [|s ss [H1 H2] Hss IH]; simpl.
  { by exists [], false. }
  destruct (last (sort_tags s)) as [back|] eqn:Hb; [|by apply last_None in Hb].
  simpl. destruct (fn s back tag) as [[] c].
  - eexists _, true. split_and!; [done| |done|].
    + constructor; [by apply group_wf_push|done].
    + unfold all_tags. simpl. rewrite (Permutation_app_comm _ [tag]). done.
  - destruct IH as (ss' & ok & -> & Hwf & Hlen & Hperm). simpl.
    eexists _, ok. split_and!; [done|by constructor|simpl; lia|].
    unfold all_tags in *. simpl. rewrite Hperm, !app_assoc.
    by rewrite (Permutation_app_comm (sort_tags s)).
Qed.

Lemma tag_sort_spec result tag :
  result_wf result → n_sort result < 65535 →
  ∃ result', tag_sort result tag = Some result' ∧ result_wf result' ∧
    n_sort result' <= n_sort result + 1 ∧
    all_tags (sorts result') ≡ₚ tag :: all_tags (sorts result).
Proof.
  intros [Hn Hu Hg] Hlt.
  destruct (try_groups_spec _ tag Hg) as (ss' & ok & Ht & Hwf & Hlen & Hperm).
  unfold tag_sort. rewrite Ht. simpl. destruct ok.
  - eexists. split_and!; [done| |simpl; lia|done]. split; simpl; [lia|lia|done].
  - rewrite u16_id by lia. destruct (Z.eqb_spec (n_sort result + 1) 0); [lia|].
    eexists. split_and!; [done| |simpl; lia|].
    + split; simpl; [rewrite length_app; simpl; lia|lia|].
      apply Forall_snoc. split; [done|apply group_wf_new].
    + unfold all_tags in *. cbn [sorts].
      rewrite fmap_app, concat_app, Hperm. by rewrite Permutation_app_comm.
Qed.

Lemma tag_sort_all_spec tags result :
  result_wf result → n_sort result + Z.of_nat (length tags) < 65536 →
  ∃ result', tag_sort_all result tags = Some result' ∧ result_wf result' ∧
    all_tags (sorts result') ≡ₚ tags ++ all_tags (sorts result).
Proof.
  revert result. induction tags as [|tag tags IH]; intros result Hwf Hlen.
  { by exists result. }
  simpl in Hlen. simpl.
  destruct (tag_sort_spec result tag) as (r1 & -> & Hwf1 & Hn1 & Hp1); [done|lia|]. simpl.
  destruct (IH r1) as (r2 & Hr2 & Hwf2 & Hp2); [done|lia|].
  exists r2. split_and!; [done|done|]. rewrite Hp2, Hp1. by rewrite Permutation_middle.
Qed.

(** One step, for a property of single groups: [P] holds before of every group,
    [P'] afterwards. *)
Lemma tag_sort_step (P P' : neu_tag_sort_t A C → Prop) tag result result' :
  P' (new_group tag) →
  (∀ s, P s → P' s) →
  (∀ s back, P s → last (sort_tags s) = Some back →
     P' ((if (fn s back tag).1 then λ c, push_tag s c tag else with_context s)
          (fn s back tag).2)) →
  Forall P (sorts result) → tag_sort result tag = Some result' → Forall P' (sorts result').
Proof.
  intros Hnew Himpl Hstep HP.
  assert (Htry : ∀ ss ss' ok, Forall P ss →
    try_groups ss tag = Some (ss', ok) → Forall P' ss').
  { induction ss as [|s ss IH]; intros ss' ok HPs; simpl.
    { by intros [= <- <-]. }
    apply Forall_cons in HPs as [Hs HPs].
    destruct (last (sort_tags s)) as [back|] eqn:Hb; [|done]. simpl.
    specialize (Hstep s back Hs Hb). destruct (fn s back tag) as [[] c]; simpl in Hstep.
    - intros [= <- <-]. constructor; [done|]. by eapply Forall_impl.
    - destruct (try_groups ss tag) as [[ss'' ok']|] eqn:E; [|done]. simpl.
      intros [= <- <-]. constructor; [done|]. by eapply IH. }
  unfold tag_sort. destruct (try_groups (sorts result) tag) as [[ss ok]|] eqn:Et; [|done].
  simpl. pose proof (Htry _ _ _ HP Et) as Hss. destruct ok.
  - by intros [= <-].
  - destruct (_ =? 0); [done|]. intros [= <-]. simpl. by apply Forall_snoc.
Qed.

Context `{!TotalCmp cmp}.

(** The result exists, is well formed and holds exactly the tags given. *)
Lemma neu_tag_sort_total tags :
  Z.of_nat (length tags) < 65536 →
  ∃ result, neu_tag_sort tags = Some result ∧ result_wf result ∧
    all_tags (sorts result) ≡ₚ tags.
Proof.
  intros Hlen. unfold neu_tag_sort.
  destruct (DL_SORT_correct cmp tags) as (l & -> & Hp & _). simpl.
  destruct (tag_sort_all_spec l {| n_sort := 0; sorts := [] |}) as (r & Hr & Hwf & Hperm).
  - by split.
  - simpl. rewrite Hp. lia.
  - exists r. split_and!; [done|done|]. rewrite Hperm. unfold all_tags. simpl.
    by rewrite app_nil_r.
Qed.

(** Rule induction for the groups of the result: a property that a fresh group
    has and that the callback preserves, accepting or rejecting.  An incoming
    tag compares above every tag of the group, because the list was sorted. *)
Lemma neu_tag_sort_invariant (P : neu_tag_sort_t A C → Prop) (Q : A → Prop) tags result :
  (∀ tag, Q tag → P (new_group tag)) →
  (∀ s back tag, P s → Q tag → last (sort_tags s) = Some back →
     Forall (λ x, cmp x tag <= 0) (sort_tags s) →
     P ((if (fn s back tag).1 then λ c, push_tag s c tag else with_context s)
          (fn s back tag).2)) →
  Forall Q tags → neu_tag_sort tags = Some result →
  Forall (λ s, P s ∧ sorted cmp (sort_tags s)) (sorts result).
Proof.
  intros Hnew Hstep HQ. unfold neu_tag_sort.
  destruct (DL_SORT_correct cmp tags) as (l & -> & Hp & Hl). simpl. rewrite <-Hp in HQ. clear Hp.
  set (R := λ (todo : list A) s, P s ∧ sorted cmp (sort_tags s) ∧
    Forall (λ x, Forall (cmp_le cmp x) todo) (sort_tags s)).
  assert (Hgen : ∀ todo result0, sorted cmp todo → Forall Q todo →
    Forall (R todo) (sorts result0) → tag_sort_all result0 todo = Some result →
    Forall (R []) (sorts result)).
  { induction todo as [|tag todo IH]; intros result0 Hs HQt HR; simpl; [by intros [= <-]|].
    apply StronglySorted_inv in Hs as [Hs Htag]. apply Forall_cons in HQt as [HQ1 HQt].
    destruct (tag_sort result0 tag) as [r|] eqn:E; [|done]. simpl. apply IH; [done|done|].
    eapply (tag_sort_step (R (tag :: todo)) (R todo) tag result0); [| | |done|done].
    - split; [by apply Hnew|]. split; [repeat constructor|by repeat constructor].
    - intros s (H1 & H2 & H3). split_and!; [done|done|].
      eapply Forall_impl; [done|]. intros x Hx. by apply Forall_cons in Hx as [_ Hx].
    - intros s back (H1 & H2 & H3) Hb.
      assert (Hle : Forall (λ x, cmp x tag <= 0) (sort_tags s)).
      { eapply Forall_impl; [exact H3|]. intros x Hx. by apply Forall_cons in Hx as [Hx _]. }
      assert (H3' : Forall (λ x, Forall (cmp_le cmp x) todo) (sort_tags s)).
      { eapply Forall_impl; [exact H3|]. intros x Hx. by apply Forall_cons in Hx as [_ Hx]. }
      pose proof (Hstep s back tag H1 HQ1 Hb Hle) as H4.
      destruct (fn s back tag) as [[] c]; simpl in *; (split; [done|]); simpl.
      + split; [|by apply Forall_snoc]. apply StronglySorted_app_2; [|done|repeat constructor].
        intros x y Hx Hy%list_elem_of_singleton. subst y.
        rewrite Forall_forall in Hle. by apply Hle.
      + by split. }
  intros Hr. eapply Forall_impl; [by apply (Hgen l {| n_sort := 0; sorts := [] |} Hl HQ (Forall_nil_2 _) Hr)|].
  by intros s (H1 & H2 & _).
Qed.

(** C24: [neu_tag_sort] terminates and partitions its input, whatever the
    driver's grouping callback decides: with fewer than 65536 tags and a
    comparison that is a total preorder it returns a result whose groups are
    non-empty, counted by [n_sort] and [info.size], each in ascending order, and
    together hold exactly the tags given. *)
Theorem neu_tag_sort_partition tags :
  Z.of_nat (length tags) < 65536 →
  ∃ result, neu_tag_sort tags = Some result ∧ result_wf result ∧
    all_tags (sorts result) ≡ₚ tags ∧
    Forall (λ s, sorted cmp (sort_tags s)) (sorts result).
Proof.
  intros Hlen. destruct (neu_tag_sort_total tags Hlen) as (r & Hr & Hwf & Hperm).
  exists r. split_and!; [done|done|done|].
  eapply Forall_impl; [eapply (neu_tag_sort_invariant (λ _, True) (λ _, True) tags r)|];
    [done|done|by apply Forall_true|done|by intros s [_ Hs]].
Qed.
End grouping.

(** The integers with their subtraction, in groups of neighbours. *)
#[export] Instance sub_total : TotalCmp Z.sub.
Proof. split; intros *; lia. Qed.

Definition neighbours (_ : neu_tag_sort_t Z unit) (t1 t2 : Z) : bool * option unit :=
  (t2 - t1 <=? 1, None).

Lemma neu_tag_sort_partition_witness :
  ∃ result, neu_tag_sort neighbours Z.sub [7; 3; 8; 1; 4; 9] = Some result ∧ result_wf result ∧
    all_tags (sorts result) ≡ₚ [7; 3; 8; 1; 4; 9] ∧
    Forall (λ s, sorted Z.sub (sort_tags s)) (sorts result).
Proof. apply (neu_tag_sort_partition neighbours Z.sub [7; 3; 8; 1; 4; 9]). simpl. lia. Defined.
