(* ===== verification/ModbusPoint.v ===== *)
(** * Modbus points: address parsing, request planning, write packing

    plugins/modbus/modbus_point.c and modbus_point.h.  A tag address such as
    ["1!400001"] becomes a point (slave, area, register range); the points of a
    group are sorted and merged into few read or write commands. *)

From Stdlib Require Import Ascii.
From S2P Require Import Prelude CStd NeuTypes Tag TagSort Modbus.

(** ** Data *)

(** [point_type] is [None] in zeroed memory, 0 being no enumerator. *)
Record modbus_point_t := {
  slave_id : Z;
  area : modbus_area_e;
  start_address : Z;
  n_register : Z;
  point_type : option neu_type_e;
  option_ : addr_option;
  point_name : string;
}.

(** The [calloc]ed point. *)
Definition point_zero : modbus_point_t := {|
  slave_id := 0; area := MODBUS_AREA_COIL; start_address := 0; n_register := 0;
  point_type := None; option_ := addr_option_zero; point_name := EmptyString |}.

Record modbus_point_write_t := { point : modbus_point_t; value : neu_value_u }.
Record neu_plugin_tag_value_t := { ptv_tag : neu_datatag_t; ptv_value : neu_value_u }.

Definition NEU_TAG_NAME_LEN : nat := 128.

Definition with_option o p := {|
  slave_id := slave_id p; area := area p; start_address := start_address p;
  n_register := n_register p; point_type := point_type p; option_ := o;
  point_name := point_name p |}.
Definition with_slave s p := {|
  slave_id := s; area := area p; start_address := start_address p;
  n_register := n_register p; point_type := point_type p; option_ := option_ p;
  point_name := point_name p |}.
Definition with_start s t p := {|
  slave_id := slave_id p; area := area p; start_address := s;
  n_register := n_register p; point_type := Some t; option_ := option_ p;
  point_name := point_name p |}.
Definition with_area a p := {|
  slave_id := slave_id p; area := a; start_address := start_address p;
  n_register := n_register p; point_type := point_type p; option_ := option_ p;
  point_name := point_name p |}.
Definition with_n_register n p := {|
  slave_id := slave_id p; area := area p; start_address := start_address p;
  n_register := n; point_type := point_type p; option_ := option_ p;
  point_name := point_name p |}.
Definition with_name n p := {|
  slave_id := slave_id p; area := area p; start_address := start_address p;
  n_register := n_register p; point_type := point_type p; option_ := option_ p;
  point_name := n |}.

(** ** From a tag to a point *)

(** ["%hhu!%c%u"] *)
Definition fmt_address : list directive :=
  [DUnsigned u8; DLit "!"%char; DChar; DUnsigned u32].

Definition area_of_char (c : Z) : option modbus_area_e :=
  if decide (c = ch "0") then Some MODBUS_AREA_COIL
  else if decide (c = ch "1") then Some MODBUS_AREA_INPUT
  else if decide (c = ch "3") then Some MODBUS_AREA_INPUT_REGISTER
  else if decide (c = ch "4") then Some MODBUS_AREA_HOLD_REGISTER
  else None.

Definition is_bit_area (a : modbus_area_e) : bool :=
  match a with MODBUS_AREA_COIL | MODBUS_AREA_INPUT => true | _ => false end.

(** The three-way assignment of [point->start_address]. *)
Definition point_start (start : Z) (address_base : modbus_address_base) : Z :=
  if (start =? 65536) && (base_code address_base =? 0) then 65535
  else if (start =? 0) && (base_code address_base =? 1) then 0
  else u16 (u16 start - base_code address_base).

(** [switch (point->area)]: the checks that depend on the area; 0 is "go on". *)
Definition check_area (tag : neu_datatag_t) (p : modbus_point_t) : Z :=
  match area p with
  | MODBUS_AREA_INPUT | MODBUS_AREA_COIL =>
      if negb (bool_decide (point_type p = Some NEU_TYPE_BIT)) then NEU_ERR_TAG_TYPE_NOT_SUPPORT
      else if opt_bit (option_ p) >? 7 then NEU_ERR_TAG_ADDRESS_FORMAT_INVALID
      else NEU_ERR_SUCCESS
  | MODBUS_AREA_INPUT_REGISTER | MODBUS_AREA_HOLD_REGISTER =>
      if bool_decide (point_type p = Some NEU_TYPE_STRING) && (opt_string_length (option_ p) <=? 0)
      then NEU_ERR_TAG_ADDRESS_FORMAT_INVALID
      else if bool_decide (point_type p = Some NEU_TYPE_BYTES) && (opt_bytes_length (option_ p) <=? 0)
      then NEU_ERR_TAG_ADDRESS_FORMAT_INVALID
      else if bool_decide (point_type p = Some NEU_TYPE_BIT) && (opt_bit (option_ p) >? 15)
      then NEU_ERR_TAG_ADDRESS_FORMAT_INVALID
      else if bool_decide (point_type p = Some NEU_TYPE_BIT)
              && attribute_test (tag_attribute tag) NEU_ATTRIBUTE_WRITE
      then NEU_ERR_TAG_ATTRIBUTE_NOT_SUPPORT
      else NEU_ERR_SUCCESS
  end.

(** A case of the last [switch] that is only allowed on registers. *)
Definition registers (n : Z) (p : modbus_point_t) : Z * modbus_point_t :=
  if is_bit_area (area p) then (NEU_ERR_TAG_TYPE_NOT_SUPPORT, p)
  else (NEU_ERR_SUCCESS, with_n_register n p).

(** [switch (point->type)]: [inl] goes on to the [strncpy], [inr] returns. *)
Definition count_registers (p : modbus_point_t)
    : (Z * modbus_point_t) + (Z * modbus_point_t) :=
  match point_type p with
  | Some (NEU_TYPE_BIT | NEU_TYPE_BOOL | NEU_TYPE_INT8 | NEU_TYPE_UINT8 | NEU_TYPE_PTR) =>
      inl (NEU_ERR_SUCCESS, with_n_register 1 p)
  | Some (NEU_TYPE_UINT16 | NEU_TYPE_INT16 | NEU_TYPE_WORD) => inl (registers 1 p)
  | Some (NEU_TYPE_UINT32 | NEU_TYPE_INT32 | NEU_TYPE_FLOAT | NEU_TYPE_DWORD
         | NEU_TYPE_TIME | NEU_TYPE_DATA_AND_TIME) => inl (registers 2 p)
  | Some (NEU_TYPE_UINT64 | NEU_TYPE_INT64 | NEU_TYPE_DOUBLE | NEU_TYPE_LWORD) =>
      inl (registers 4 p)
  | Some NEU_TYPE_STRING =>
      let len := opt_string_length (option_ p) in
      let t := opt_string_type (option_ p) in
      if is_bit_area (area p) then inl (NEU_ERR_TAG_TYPE_NOT_SUPPORT, p)
      else if len >? 127 then inr (NEU_ERR_TAG_ADDRESS_FORMAT_INVALID, p)
      else if (t =? NEU_DATATAG_STRING_TYPE_H) || (t =? NEU_DATATAG_STRING_TYPE_L)
      then inl (NEU_ERR_SUCCESS, with_n_register (u16 (len / 2 + len mod 2)) p)
      else if (t =? NEU_DATATAG_STRING_TYPE_D) || (t =? NEU_DATATAG_STRING_TYPE_E)
      then inl (NEU_ERR_SUCCESS, with_n_register len p)
      else inl (NEU_ERR_SUCCESS, p)
  | Some NEU_TYPE_BYTES =>
      let len := opt_bytes_length (option_ p) in
      if is_bit_area (area p) then inl (NEU_ERR_TAG_TYPE_NOT_SUPPORT, p)
      else if (len >? 128) || (len mod 2 =? 1)
      then inr (NEU_ERR_TAG_ADDRESS_FORMAT_INVALID, p)
      else inl (NEU_ERR_SUCCESS, with_n_register (u16 (len / 2 + len mod 2)) p)
  | _ => inr (NEU_ERR_TAG_TYPE_NOT_SUPPORT, p)
  end.

(** The return value and the point as it was left, also on the error paths. *)
Definition modbus_tag_to_point (tag : neu_datatag_t) (p : modbus_point_t)
    (address_base : modbus_address_base) : Z * modbus_point_t :=
  let '(ret, o) := neu_datatag_parse_addr_option tag (option_ p) in
  let p := with_option o p in
  if negb (ret =? 0) then (NEU_ERR_TAG_ADDRESS_FORMAT_INVALID, p) else
  let vs := sscanf fmt_address (tag_address tag) in
  let p := match vs with s :: _ => with_slave s p | [] => p end in
  match vs with
  | [_; c; start] =>
      if start >? 65536 then (NEU_ERR_TAG_ADDRESS_FORMAT_INVALID, p) else
      let p := with_start (point_start start address_base) (tag_type tag) p in
      match area_of_char c with
      | None => (NEU_ERR_TAG_ADDRESS_FORMAT_INVALID, p)
      | Some a =>
          let p := with_area a p in
          if (bool_decide (a = MODBUS_AREA_INPUT) || bool_decide (a = MODBUS_AREA_INPUT_REGISTER))
             && attribute_test (tag_attribute tag) NEU_ATTRIBUTE_WRITE
          then (NEU_ERR_TAG_ATTRIBUTE_NOT_SUPPORT, p)
          else
            let ret := check_area tag p in
            if negb (ret =? 0) then (ret, p)
            else match count_registers p with
                 | inl (ret, p) => (ret, with_name (cstr_trunc NEU_TAG_NAME_LEN (tag_name tag)) p)
                 | inr r => r
                 end
      end
  | _ => (NEU_ERR_TAG_ADDRESS_FORMAT_INVALID, p)
  end.

Definition modbus_write_tag_to_point (tag : neu_plugin_tag_value_t)
    (p : modbus_point_write_t) (address_base : modbus_address_base)
    : Z * modbus_point_write_t :=
  let '(ret, pt) := modbus_tag_to_point (ptv_tag tag) (point p) address_base in
  (ret, {| point := pt; value := ptv_value tag |}).

(** ** Comparison and grouping callbacks *)

(** One [if (a > b) return 1; else if (a < b) return -1;]. *)
Definition cmp_step (a b rest : Z) : Z :=
  if a >? b then 1 else if a <? b then -1 else rest.

Definition tag_cmp (t1 t2 : modbus_point_t) : Z :=
  cmp_step (slave_id t1) (slave_id t2)
    (cmp_step (area_code (area t1)) (area_code (area t2))
      (cmp_step (start_address t1) (start_address t2)
        (cmp_step (n_register t1) (n_register t2) 0))).

Definition tag_cmp_write (t1 t2 : modbus_point_write_t) : Z :=
  cmp_step (slave_id (point t1)) (slave_id (point t2))
    (cmp_step (area_code (area (point t1))) (area_code (area (point t2)))
      (cmp_step (start_address (point t1)) (start_address (point t2))
        (cmp_step (n_register (point t1)) (n_register (point t2)) 0))).

Record modbus_sort_ctx := { ctx_start : Z; ctx_end : Z }.

(** [tag_sort]: the verdict and the context left behind; [max_byte] is the
    thread-local [modbus_read_max_byte]. *)
Definition modbus_tag_sort_fn (max_byte : Z)
    (sort : neu_tag_sort_t modbus_point_t modbus_sort_ctx) (t1 t2 : modbus_point_t)
    : bool * option modbus_sort_ctx :=
  match info_context sort with
  | None =>
      (true, Some {| ctx_start := start_address t1;
                     ctx_end := u16 (start_address t1 + n_register t1) |})
  | Some ctx =>
      if negb (slave_id t1 =? slave_id t2) then (false, Some ctx)
      else if negb (bool_decide (area t1 = area t2)) then (false, Some ctx)
      else if start_address t2 >? ctx_end ctx then (false, Some ctx)
      else if
        match area t1 with
        | MODBUS_AREA_COIL | MODBUS_AREA_INPUT =>
            (ctx_end ctx - ctx_start ctx + 7) ÷ 8 >=? max_byte
        | MODBUS_AREA_INPUT_REGISTER | MODBUS_AREA_HOLD_REGISTER =>
            let now_bytes := u16 ((ctx_end ctx - ctx_start ctx) * 2) in
            let add_now := u16 (now_bytes + n_register t2 * 2) in
            add_now >=? max_byte
        end
      then (false, Some ctx)
      else (true, Some (if start_address t2 + n_register t2 >? ctx_end ctx
                        then {| ctx_start := ctx_start ctx;
                                ctx_end := u16 (start_address t2 + n_register t2) |}
                        else ctx))
  end.

(** [tag_sort_write] differs in the limit for coils. *)
Definition modbus_tag_sort_write_fn (max_byte : Z)
    (sort : neu_tag_sort_t modbus_point_write_t modbus_sort_ctx)
    (t1 t2 : modbus_point_write_t) : bool * option modbus_sort_ctx :=
  match info_context sort with
  | None =>
      (true, Some {| ctx_start := start_address (point t1);
                     ctx_end := u16 (start_address (point t1) + n_register (point t1)) |})
  | Some ctx =>
      if negb (slave_id (point t1) =? slave_id (point t2)) then (false, Some ctx)
      else if negb (bool_decide (area (point t1) = area (point t2))) then (false, Some ctx)
      else if start_address (point t2) >? ctx_end ctx then (false, Some ctx)
      else if
        match area (point t1) with
        | MODBUS_AREA_COIL | MODBUS_AREA_INPUT =>
            (ctx_end ctx - ctx_start ctx) ÷ 8 >=? max_byte - 1
        | MODBUS_AREA_INPUT_REGISTER | MODBUS_AREA_HOLD_REGISTER =>
            let now_bytes := u16 ((ctx_end ctx - ctx_start ctx) * 2) in
            let add_now := u16 (now_bytes + n_register (point t2) * 2) in
            add_now >=? max_byte
        end
      then (false, Some ctx)
      else (true, Some (if start_address (point t2) + n_register (point t2) >? ctx_end ctx
                        then {| ctx_start := ctx_start ctx;
                                ctx_end := u16 (start_address (point t2) + n_register (point t2)) |}
                        else ctx))
  end.

(** ** Read commands *)

Record modbus_read_cmd_t := {
  rc_slave_id : Z;
  rc_area : modbus_area_e;
  rc_start_address : Z;
  rc_n_register : Z;
  rc_tags : list modbus_point_t;
}.

(** [None]: a group without a first tag or without a context, which
    [utarray_front] and the dereference of [ctx] rely on never seeing. *)
Definition read_cmd_of_sort (s : neu_tag_sort_t modbus_point_t modbus_sort_ctx)
    : option modbus_read_cmd_t :=
  tag ← head (sort_tags s);
  ctx ← info_context s;
  Some {| rc_slave_id := slave_id tag; rc_area := area tag;
          rc_start_address := start_address tag;
          rc_n_register := u16 (ctx_end ctx - ctx_start ctx);
          rc_tags := sort_tags s |}.

Definition modbus_tag_sort (tags : list modbus_point_t) (max_byte : Z)
    : option (list modbus_read_cmd_t) :=
  result ← neu_tag_sort (modbus_tag_sort_fn max_byte) tag_cmp tags;
  mapM read_cmd_of_sort (sorts result).

(** ** Byte orders *)

Definition modbus_convert_endianess (v : neu_value_u) (endianess : modbus_endianess)
    : neu_value_u :=
  match endianess with
  | MODBUS_ABCD => v
  | MODBUS_CDAB => neu_ntohs_p 2 (neu_ntohs_p 0 (set_u32 (htonl (val_u32 v)) v))
  | MODBUS_BADC => neu_ntohs_p 2 (neu_ntohs_p 0 v)
  | MODBUS_DCBA => set_u32 (htonl (val_u32 v)) v
  end.

Definition modbus_convert_endianess_64 (v : neu_value_u) (endianess_64 : modbus_endianess_64)
    : neu_value_u :=
  match endianess_64 with
  | MODBUS_LL => v
  | MODBUS_BB => set_u64 (neu_htonll (val_u64 v)) v
  | MODBUS_LB => set_u64 (neu_htonlb (val_u64 v)) v
  | MODBUS_BL => set_u64 (neu_htonbl (val_u64 v)) v
  | MODBUS_WS => set_u64 (neu_htonws (val_u64 v)) v
  | MODBUS_WR => set_u64 (neu_htonwr (val_u64 v)) v
  end.

(** ** Write commands *)

(** [cal_n_byte]: the number of bytes and the value converted to wire order in
    place; [None] is the failed [assert] of the default case. *)
Definition cal_n_byte (type : option neu_type_e) (v : neu_value_u) (o : addr_option)
    (endianess : modbus_endianess) (default_tag_endian : bool)
    (endianess_64 : modbus_endianess_64) (default_tag_endian_64 : bool)
    : option (Z * neu_value_u) :=
  match type with
  | Some (NEU_TYPE_UINT16 | NEU_TYPE_INT16) => Some (2, set_u16 (htons (val_u16 v)) v)
  | Some (NEU_TYPE_FLOAT | NEU_TYPE_UINT32 | NEU_TYPE_INT32) =>
      let v := if default_tag_endian then modbus_convert_endianess v endianess else v in
      Some (4, set_u32 (htonl (val_u32 v)) v)
  | Some (NEU_TYPE_DOUBLE | NEU_TYPE_INT64 | NEU_TYPE_UINT64) =>
      let v := if default_tag_endian_64 then modbus_convert_endianess_64 v endianess_64 else v in
      Some (8, set_u64 (neu_htonll (val_u64 v)) v)
  | Some NEU_TYPE_BIT => Some (1, v)
  | Some NEU_TYPE_STRING =>
      let len := opt_string_length o in
      Some (len, if opt_string_type o =? NEU_DATATAG_STRING_TYPE_L
                 then neu_datatag_string_ltoh v (Z.to_nat len) else v)
  | Some NEU_TYPE_BYTES => Some (opt_bytes_length o, v)
  | _ => None
  end.

Record modbus_write_cmd_t := {
  wc_slave_id : Z;
  wc_area : modbus_area_e;
  wc_start_address : Z;
  wc_n_register : Z;
  wc_n_byte : Z;
  wc_bytes : list Z;
  wc_tags : list modbus_point_write_t;
}.

(** [memcpy] to [dst + off] of the first [n] bytes of [src]; [None] when it
    would leave one of the two objects. *)
Definition memcpy_at (dst : list Z) (off n : Z) (src : list Z) : option (list Z) :=
  if (0 <=? off) && (0 <=? n) && (off + n <=? Z.of_nat (length dst))
     && (n <=? Z.of_nat (length src))
  then Some (mem_write (Z.to_nat off) (take (Z.to_nat n) src) dst) else None.

(** The state of the loop over the tags of one group. *)
Record pack_state := {
  ps_bytes : list Z;
  ps_data_bit : list Z;
  ps_k : Z;
  ps_n_byte : Z;
  ps_tags : list modbus_point_write_t;
}.

Section write_group.
Context (endianess : modbus_endianess) (endianess_64 : modbus_endianess_64).

Definition pack_tag (front : modbus_point_write_t) (st : pack_state)
    (t : modbus_point_write_t) : option pack_state :=
  if bool_decide (area (point t) = MODBUS_AREA_COIL) then
    '(n, v) ← cal_n_byte (point_type (point t)) (value t) (option_ (point t))
                endianess true endianess_64 true;
    let i := Z.to_nat (ps_k st / 8) in
    old ← ps_data_bit st !! i;
    Some {| ps_bytes := ps_bytes st;
            ps_data_bit := <[i := u8 (old + Z.shiftl (s8 (val_u8 v)) (ps_k st mod 8))]>
                             (ps_data_bit st);
            ps_k := ps_k st + 1; ps_n_byte := ps_n_byte st + n;
            ps_tags := ps_tags st ++ [{| point := point t; value := v |}] |}
  else
    '(n, v) ← cal_n_byte (point_type (point t)) (value t) (option_ (point t))
                endianess (opt_value_default (option_ (point t)))
                endianess_64 (opt_value_default (option_ (point t)));
    bytes ← memcpy_at (ps_bytes st)
              (2 * (start_address (point t) - start_address (point front))) n v;
    Some {| ps_bytes := bytes; ps_data_bit := ps_data_bit st; ps_k := ps_k st;
            ps_n_byte := ps_n_byte st + n;
            ps_tags := ps_tags st ++ [{| point := point t; value := v |}] |}.

Fixpoint pack_tags (front : modbus_point_write_t) (st : pack_state)
    (ts : list modbus_point_write_t) : option pack_state :=
  match ts with
  | [] => Some st
  | t :: ts' => st ← pack_tag front st t; pack_tags front st ts'
  end.

(** The body of the [for] loop of [modbus_write_tags_sort]. *)
Definition write_cmd_of_sort (s : neu_tag_sort_t modbus_point_write_t modbus_sort_ctx)
    : option modbus_write_cmd_t :=
  front ← head (sort_tags s);
  ctx ← info_context s;
  let num_tags := length (sort_tags s) in
  st ← pack_tags front
         {| ps_bytes := replicate (num_tags * 264) 0;
            ps_data_bit := replicate ((num_tags + 7) / 8) 0;
            ps_k := 0; ps_n_byte := 0; ps_tags := [] |} (sort_tags s);
  bytes ← (if bool_decide (area (point front) = MODBUS_AREA_COIL)
           then memcpy_at (ps_bytes st) 0 ((ps_k st + 7) / 8) (ps_data_bit st)
           else Some (ps_bytes st));
  Some {| wc_slave_id := slave_id (point front); wc_area := area (point front);
          wc_start_address := start_address (point front);
          wc_n_register := u16 (ctx_end ctx - ctx_start ctx);
          wc_n_byte := u8 (ps_n_byte st);
          wc_bytes := bytes; wc_tags := ps_tags st |}.

(** [max_byte] is again the thread-local of [modbus_tag_sort], 250 unless a read
    on the same thread has set it. *)
Definition modbus_write_tags_sort (max_byte : Z) (tags : list modbus_point_write_t)
    : option (list modbus_write_cmd_t) :=
  result ← neu_tag_sort (modbus_tag_sort_write_fn max_byte) tag_cmp_write tags;
  mapM write_cmd_of_sort (sorts result).
End write_group.

(** ** What a successful parse guarantees *)

Record point_ok (p : modbus_point_t) : Prop := {
  ok_slave : is_u8 (slave_id p);
  ok_start : is_u16 (start_address p);
  ok_count : 1 <= n_register p <= 127;
  ok_bits : is_bit_area (area p) = true →
    n_register p = 1 ∧ point_type p = Some NEU_TYPE_BIT;
}.

Lemma length_set_string_length n o :
  length o = 12%nat → length (set_string_length n o) = 12%nat.
Proof.
  intros Ho. unfold set_string_length.
  rewrite length_mem_write; rewrite ?length_le_store; lia.
Qed.

Lemma opt_string_type_set k d o :
  length o = 12%nat → 0 <= k < 4 →
  opt_string_type (set_string_default d (set_string_type k o)) = k.
Proof.
  intros Ho Hk. do 12 (destruct o as [|? o]; [done|]). destruct o; [|done].
  cbv [set_string_default set_string_type opt_string_type mem_write mem_read le_store le_load].
  simpl. zlia.
Qed.

Lemma parse_option_string_type address o ret o' :
  length o = 12%nat → parse_option_string address o = (ret, o') → ret = 0 →
  0 <= opt_string_type o' < 4.
Proof.
  intros Ho Hp ->. unfold parse_option_string in Hp.
  destruct (find_last_character address ".") as [op|]; [|done].
  set (o1 := match sscanf (fmt_hd_c ".") op with [] => o | len :: _ => set_string_length len o end) in *.
  assert (Hl : length o1 = 12%nat).
  { unfold o1. destruct (sscanf _ _); [done|by apply length_set_string_length]. }
  destruct (_ || _); [done|]. injection Hp as <-.
  repeat case_decide; rewrite opt_string_type_set; done.
Qed.

Lemma point_start_range start b :
  0 <= start → is_u16 (point_start start b).
Proof.
  intros Hs. unfold point_start. destruct (_ && _); [done|]. destruct (_ && _); [done|].
  apply u16_range.
Qed.

Lemma sscanf_address_range s v c start :
  sscanf fmt_address s = [v; c; start] → is_u8 v ∧ is_u32 start.
Proof.
  unfold sscanf, fmt_address. cbn [sscanf_run].
  destruct (scan_number (skip_ws s)) as [[[neg n] s']|]; [|done].
  destruct s' as [|c1 s']; [done|]. destruct (decide (c1 = "!"%char)); [|done].
  destruct s' as [|c2 s']; [done|].
  destruct (scan_number (skip_ws s')) as [[[neg' n'] s'']|]; [|done].
  simpl. intros [= <- _ <-]. auto with neuron.
Qed.

Lemma check_area_lengths tag p :
  check_area tag p = 0 → is_bit_area (area p) = false →
  (point_type p = Some NEU_TYPE_STRING → 0 < opt_string_length (option_ p)) ∧
  (point_type p = Some NEU_TYPE_BYTES → 0 < opt_bytes_length (option_ p)).
Proof.
  unfold check_area. intros Hc Hb. split; intros Hty; rewrite Hty in Hc.
  - destruct (area p); simplify_eq/=; destruct (Z.leb_spec (opt_string_length (option_ p)) 0); done.
  - destruct (area p); simplify_eq/=; destruct (Z.leb_spec (opt_bytes_length (option_ p)) 0); done.
Qed.

(** The register count of the last [switch] is between 1 and 127. *)
Lemma count_registers_ok tag p r q :
  check_area tag p = 0 → count_registers p = inl (0, q) →
  (point_type p = Some NEU_TYPE_STRING → 0 <= opt_string_type (option_ p) < 4) →
  r = n_register q →
  q = with_n_register r p ∧ 1 <= r <= 127 ∧
  (is_bit_area (area p) = true → r = 1 ∧ point_type p = Some NEU_TYPE_BIT).
Proof.
  intros Hc Hr Hst ->. unfold count_registers, registers in Hr.
  destruct (is_bit_area (area p)) eqn:Hb.
  { unfold check_area in Hc. assert (point_type p = Some NEU_TYPE_BIT) as Hty.
    { destruct (area p); try done; case_bool_decide; done. }
    rewrite Hty in Hr. injection Hr as <-. done. }
  destruct (check_area_lengths tag p Hc Hb) as [Hs Hby].
  destruct (point_type p) as [ty|]; [|done].
  destruct ty; simplify_eq/=; try (split_and!; done).
  - specialize (Hs eq_refl). specialize (Hst eq_refl).
    destruct (Z.gtb_spec (opt_string_length (option_ p)) 127); [done|].
    unfold NEU_DATATAG_STRING_TYPE_H, NEU_DATATAG_STRING_TYPE_L, NEU_DATATAG_STRING_TYPE_D,
      NEU_DATATAG_STRING_TYPE_E in Hr.
    destruct (Z.eqb_spec (opt_string_type (option_ p)) 0),
      (Z.eqb_spec (opt_string_type (option_ p)) 1),
      (Z.eqb_spec (opt_string_type (option_ p)) 2),
      (Z.eqb_spec (opt_string_type (option_ p)) 3); simplify_eq/=; try lia;
      (split_and!; [done|zlia|zlia|done]).
  - specialize (Hby eq_refl).
    destruct (Z.gtb_spec (opt_bytes_length (option_ p)) 128); [done|].
    destruct (Z.eqb_spec (opt_bytes_length (option_ p) mod 2) 1); [done|].
    simplify_eq/=. split_and!; [done|zlia|zlia|done].
Qed.

Lemma parse_addr_option_string_type tag o ret o' :
  length o = 12%nat → neu_datatag_parse_addr_option tag o = (ret, o') → ret = 0 →
  tag_type tag = NEU_TYPE_STRING → 0 <= opt_string_type o' < 4.
Proof.
  intros Ho Hp Hret Hty. unfold neu_datatag_parse_addr_option in Hp. rewrite Hty in Hp.
  by eapply parse_option_string_type.
Qed.

(** The successful path of [modbus_tag_to_point], step by step. *)
Lemma tag_to_point_inv tag address_base q :
  modbus_tag_to_point tag point_zero address_base = (NEU_ERR_SUCCESS, q) →
  ∃ p q', check_area tag p = 0 ∧ count_registers p = inl (0, q') ∧
    q = with_name (cstr_trunc NEU_TAG_NAME_LEN (tag_name tag)) q' ∧
    point_type p = Some (tag_type tag) ∧ is_u8 (slave_id p) ∧ is_u16 (start_address p) ∧
    (point_type p = Some NEU_TYPE_STRING → 0 <= opt_string_type (option_ p) < 4) ∧
    (attribute_test (tag_attribute tag) NEU_ATTRIBUTE_WRITE = true →
     area p ≠ MODBUS_AREA_INPUT ∧ area p ≠ MODBUS_AREA_INPUT_REGISTER).
Proof.
  unfold modbus_tag_to_point.
  destruct (neu_datatag_parse_addr_option tag (option_ point_zero)) as [ret o] eqn:Hopt.
  destruct (Z.eqb_spec ret 0) as [Hret|]; [|done]. cbn [negb].
  destruct (sscanf fmt_address (tag_address tag)) as [|v [|c [|start [|]]]] eqn:Hscan; try done.
  apply sscanf_address_range in Hscan as [Hv Hstart].
  destruct (Z.gtb_spec start 65536) as [|Hle]; [done|].
  destruct (area_of_char c) as [a|]; [|done].
  destruct (_ && attribute_test _ _) eqn:Hw; [done|].
  set (p := with_area a _). destruct (Z.eqb_spec (check_area tag p) 0) as [Hc|Hc]; cycle 1.
  { cbn [negb]. intros [= Hx _]. done. }
  cbn [negb]. destruct (count_registers p) as [[r q']|[r q']] eqn:Hcount; cycle 1.
  { intros [= -> ->]. exfalso. revert Hcount. unfold count_registers, registers.
    destruct (point_type p) as [[]|]; try done; repeat (destruct (is_bit_area _) || destruct (_ || _)
      || destruct (_ >? _)); done. }
  intros [= -> <-]. exists p, q'. do 5 (split; [done|]). split; [|split].
  - simpl. apply point_start_range. lia.
  - intros Hty. eapply (parse_addr_option_string_type tag (option_ point_zero)); [done|exact Hopt|done|].
    simpl in Hty. congruence.
  - intros Hattr. rewrite Hattr, andb_true_r in Hw. simpl. by destruct a.
Qed.

Lemma tag_to_point_wf tag address_base q :
  modbus_tag_to_point tag point_zero address_base = (NEU_ERR_SUCCESS, q) →
  point_ok q ∧ point_type q = Some (tag_type tag) ∧
  point_name q = cstr_trunc NEU_TAG_NAME_LEN (tag_name tag).
Proof.
  intros (p & q' & Hc & Hcount & -> & Hty & Hsl & Hst & Hstr & Hw)%tag_to_point_inv.
  destruct (count_registers_ok tag p (n_register q') q' Hc Hcount) as (Hq & Hn & Hb);
    [done|done|].
  rewrite Hq. split_and!; [|done|done].
  split; simpl; [done|done|done|]. intros Ha. by destruct (Hb Ha).
Qed.

Lemma tag_to_point_writable tag address_base q :
  modbus_tag_to_point tag point_zero address_base = (NEU_ERR_SUCCESS, q) →
  attribute_test (tag_attribute tag) NEU_ATTRIBUTE_WRITE = true →
  area q = MODBUS_AREA_COIL ∨
  (area q = MODBUS_AREA_HOLD_REGISTER ∧ tag_type tag ≠ NEU_TYPE_BIT).
Proof.
  intros (p & q' & Hc & Hcount & -> & Hty & Hsl & Hst & Hstr & Hw)%tag_to_point_inv Hattr.
  destruct (count_registers_ok tag p (n_register q') q' Hc Hcount) as (Hq & Hn & Hb);
    [done|done|].
  rewrite Hq. simpl. destruct (Hw Hattr). unfold check_area in Hc.
  destruct (area p); try done; [by left|right]. split; [done|].
  intros Hbit. rewrite Hty, Hbit, Hattr in Hc. simpl in Hc. by destruct (_ >? _).
Qed.

(** C39: a tag that [modbus_tag_to_point] accepts yields a well-formed point:
    8-bit slave, 16-bit start address, between 1 and 127 registers, a single bit
    when the area is coil or input; the point keeps the tag's type and name; and
    a writable tag lies in the coil area or is a non-bit holding register. *)
Theorem tag_to_point_ok tag address_base q :
  modbus_tag_to_point tag point_zero address_base = (NEU_ERR_SUCCESS, q) →
  point_ok q ∧ point_type q = Some (tag_type tag) ∧
  point_name q = cstr_trunc NEU_TAG_NAME_LEN (tag_name tag) ∧
  (attribute_test (tag_attribute tag) NEU_ATTRIBUTE_WRITE = true →
   area q = MODBUS_AREA_COIL ∨
   (area q = MODBUS_AREA_HOLD_REGISTER ∧ tag_type tag ≠ NEU_TYPE_BIT)).
Proof.
  intros Hq. destruct (tag_to_point_wf tag address_base q Hq) as (Hok & Hty & Hn).
  split_and!; [done|done|done|]. by apply tag_to_point_writable with address_base.
Qed.

Definition example_tag (ty : neu_type_e) (adr : string) (attr : Z) : neu_datatag_t := {|
  tag_name := "t"; tag_address := adr; tag_attribute := attr;
  tag_type := ty; tag_precision := 0; tag_decimal := 0; tag_bias := 0;
  tag_description := None; tag_unit := None; tag_option := addr_option_zero;
  tag_meta := []; tag_format := []; tag_n_format := 0 |}.

Lemma tag_to_point_ok_witness :
  let r := modbus_tag_to_point (example_tag NEU_TYPE_FLOAT "1!400011#BL" 3) point_zero base_1 in
  r.1 = NEU_ERR_SUCCESS ∧ point_ok r.2 ∧ start_address r.2 = 10 ∧ n_register r.2 = 2.
Proof.
  intros r. assert (E : r = (NEU_ERR_SUCCESS, r.2)) by reflexivity.
  destruct (tag_to_point_ok _ _ _ E) as (Hok & _). split_and!; [reflexivity|exact Hok|..]; reflexivity.
Defined.

(** *** Printing and parsing an address *)

Definition area_char (a : modbus_area_e) : ascii :=
  match a with
  | MODBUS_AREA_COIL => "0" | MODBUS_AREA_INPUT => "1"
  | MODBUS_AREA_INPUT_REGISTER => "3" | MODBUS_AREA_HOLD_REGISTER => "4"
  end.

Definition print_address (slave : Z) (a : modbus_area_e) (address : Z) : string :=
  print_dec slave +:+ String "!" (String (area_char a) (print_dec address)).

(** The registers of the numeric types. *)
Definition numeric_registers (ty : neu_type_e) : option Z :=
  match ty with
  | NEU_TYPE_INT16 | NEU_TYPE_UINT16 => Some 1
  | NEU_TYPE_INT32 | NEU_TYPE_UINT32 | NEU_TYPE_FLOAT => Some 2
  | NEU_TYPE_INT64 | NEU_TYPE_UINT64 | NEU_TYPE_DOUBLE => Some 4
  | _ => None
  end.

Lemma sscanf_print_address slave a address :
  is_u8 slave → 0 <= address <= 65536 →
  sscanf fmt_address (print_address slave a address) = [slave; ch (area_char a); address].
Proof.
  intros Hs Ha. unfold fmt_address, print_address.
  rewrite sscanf_unsigned_print by (done || lia). rewrite u8_id by done. f_equal.
  pose proof (sscanf_unsigned_print u32 [] address EmptyString ltac:(lia) I) as Hp.
  assert (Hnil : print_dec address +:+ EmptyString = print_dec address).
  { generalize (print_dec address). intros s. induction s as [|x s IH]; [done|].
    exact (f_equal (String x) IH). }
  rewrite Hnil, u32_id in Hp by lia. revert Hp. unfold sscanf. cbn [sscanf_run].
  rewrite decide_True by done.
  destruct (scan_number (skip_ws (print_dec address))) as [[[neg n] s']|]; [|done].
  simpl. by intros [= ->].
Qed.

Lemma area_of_area_char a : area_of_char (ch (area_char a)) = Some a.
Proof. by destruct a. Qed.

Lemma strchr_print_address slave a address c :
  digit_of c = None → c ≠ "!"%char → 0 <= slave → 0 <= address →
  strchr (print_address slave a address) c = None.
Proof.
  intros Hc Hne Hs Ha. unfold print_address.
  rewrite strchr_app by by apply strchr_print_dec. simpl.
  rewrite decide_False by congruence. rewrite decide_False; [by apply strchr_print_dec|].
  intros <-. by destruct a.
Qed.

(** Addresses survive printing and parsing.  For a slave, a register area
    and a 1-based address in the 16-bit range, the text [slave!<area><address>]
    of a numeric read-only tag parses to the point with that slave and area, the
    0-based register address [address - 1] and the register count of its type. *)
Theorem address_roundtrip tag slave a address n :
  is_u8 slave → is_bit_area a = false → 1 <= address <= 65536 →
  tag_address tag = print_address slave a address →
  numeric_registers (tag_type tag) = Some n →
  attribute_test (tag_attribute tag) NEU_ATTRIBUTE_WRITE = false →
  let '(ret, q) := modbus_tag_to_point tag point_zero base_1 in
  ret = NEU_ERR_SUCCESS ∧ slave_id q = slave ∧ area q = a ∧
  start_address q = address - 1 ∧ n_register q = n ∧
  point_type q = Some (tag_type tag).
Proof.
  intros Hs Hb Hadr Htxt Hn Hattr. unfold modbus_tag_to_point.
  assert (Hsharp : find_last_character (tag_address tag) "#" = None).
  { rewrite Htxt, find_last_character_spec. apply last_occurrence_strchr.
    apply strchr_print_address; done || lia. }
  destruct (neu_datatag_parse_addr_option tag (option_ point_zero)) as [ret o] eqn:Hopt.
  assert (ret = 0) as ->.
  { unfold neu_datatag_parse_addr_option, parse_option_16, parse_option_32, parse_option_64 in Hopt.
    rewrite Hsharp in Hopt. by destruct (tag_type tag); simplify_eq/=. }
  cbn [negb Z.eqb]. rewrite Htxt, sscanf_print_address by lia.
  destruct (Z.gtb_spec address 65536); [lia|]. rewrite area_of_area_char, Hattr, andb_false_r.
  assert (Hstart : point_start address base_1 = address - 1).
  { unfold point_start. simpl. rewrite andb_false_r.
    destruct (Z.eqb_spec address 0); [lia|]. simpl. zlia. }
  rewrite Hstart. unfold check_area, count_registers, registers.
  destruct a; try done; cbn; destruct (tag_type tag); simplify_eq/=; done.
Qed.

Lemma address_roundtrip_witness :
  let r := modbus_tag_to_point (example_tag NEU_TYPE_UINT32 "17!365536" 1) point_zero base_1 in
  r.1 = NEU_ERR_SUCCESS ∧ slave_id r.2 = 17 ∧ area r.2 = MODBUS_AREA_INPUT_REGISTER ∧
  start_address r.2 = 65535 ∧ n_register r.2 = 2 ∧ point_type r.2 = Some NEU_TYPE_UINT32.
Proof.
  apply (address_roundtrip (example_tag NEU_TYPE_UINT32 "17!365536" 1) 17
           MODBUS_AREA_INPUT_REGISTER 65536 2); first [reflexivity | lia].
Defined.

(** ** The comparison is a total preorder *)

Lemma cmp_step_spec a b r :
  (b < a ∧ cmp_step a b r = 1) ∨ (a < b ∧ cmp_step a b r = -1) ∨ (a = b ∧ cmp_step a b r = r).
Proof.
  unfold cmp_step. destruct (Z.gtb_spec a b); [lia|]. destruct (Z.ltb_spec a b); lia.
Qed.

(** A step is non-positive iff the pair is below lexicographically. *)
Lemma cmp_step_le a b r : cmp_step a b r <= 0 ↔ a < b ∨ (a = b ∧ r <= 0).
Proof. destruct (cmp_step_spec a b r) as [[? ->]|[[? ->]|[? ->]]]; lia. Qed.

Lemma cmp_step_gt a b r : 0 < cmp_step a b r ↔ b < a ∨ (a = b ∧ 0 < r).
Proof. destruct (cmp_step_spec a b r) as [[? ->]|[[? ->]|[? ->]]]; lia. Qed.

#[export] Instance tag_cmp_total : TotalCmp tag_cmp.
Proof.
  split; unfold tag_cmp; intros *; rewrite ?cmp_step_gt, ?cmp_step_le; lia.
Qed.

#[export] Instance tag_cmp_write_total : TotalCmp tag_cmp_write.
Proof.
  split; unfold tag_cmp_write; intros *; rewrite ?cmp_step_gt, ?cmp_step_le; lia.
Qed.

(** Within one slave and area the order is that of the start addresses. *)
Lemma tag_cmp_start t1 t2 :
  slave_id t1 = slave_id t2 → area t1 = area t2 → tag_cmp t1 t2 <= 0 →
  start_address t1 <= start_address t2.
Proof.
  unfold tag_cmp. intros Hs Ha. rewrite !cmp_step_le, Hs, Ha. lia.
Qed.
