(* ===== verification/ModbusPlan.v ===== *)
(** * The request plan of a Modbus group

    Theorems about [modbus_tag_sort] and [modbus_write_tags_sort] of
    plugins/modbus/modbus_point.c, proved against the interface of the generic
    tag sort ([TotalCmp] and the group invariant rule): the commands partition
    the tags, each command covers the registers of its tags and nothing else,
    and its size respects the frame limit. *)

From S2P Require Import Prelude CStd NeuTypes Tag TagSort Modbus ModbusPoint.

(** ** Contiguous register ranges *)

(** The points [pts] belong together and cover exactly the addresses from [s]
    up to [e]. *)
Record span (pts : list modbus_point_t) (s e : Z) : Prop := {
  span_head : ∃ p0, head pts = Some p0 ∧ start_address p0 = s;
  span_same : ∀ p q, p ∈ pts → q ∈ pts → slave_id p = slave_id q ∧ area p = area q;
  span_inside : ∀ p, p ∈ pts → s <= start_address p ∧ start_address p + n_register p <= e;
  span_covered : ∀ a, s <= a < e →
    ∃ p, p ∈ pts ∧ start_address p <= a < start_address p + n_register p;
  span_nonempty : s < e;
}.

Lemma span_singleton p :
  point_ok p → span [p] (start_address p) (start_address p + n_register p).
Proof.
  intros [_ _ Hn _]. split.
  - by exists p.
  - intros q q' ->%list_elem_of_singleton ->%list_elem_of_singleton. done.
  - intros q ->%list_elem_of_singleton. lia.
  - intros a Ha. exists p. split; [by apply list_elem_of_singleton|lia].
  - lia.
Qed.

(** Some point ends exactly at the end of the range. *)
Lemma span_last pts s e :
  span pts s e → ∃ p, p ∈ pts ∧ start_address p + n_register p = e.
Proof.
  intros [_ _ Hin Hcov Hne]. destruct (Hcov (e - 1)) as (p & Hp & Ha); [lia|].
  exists p. split; [done|]. pose proof (Hin p Hp). lia.
Qed.

(** A range whose 16-bit end has wrapped accepts no further point. *)
Lemma span_no_wrap pts s e t :
  span pts s e → Forall point_ok pts →
  Forall (λ p, start_address p <= start_address t) pts →
  start_address t <= u16 e → e < 65536.
Proof.
  intros Hspan Hok Hle Ht. destruct (span_last _ _ _ Hspan) as (p & Hp & He).
  rewrite Forall_forall in Hok, Hle. specialize (Hle p Hp). destruct (Hok p Hp).
  destruct (decide (e < 65536)); [done|].
  assert (u16 e = e - 65536) by zlia. lia.
Qed.

Lemma span_extend pts s e t back :
  span pts s e → point_ok t → back ∈ pts →
  slave_id back = slave_id t → area back = area t →
  Forall (λ p, start_address p <= start_address t) pts → start_address t <= e →
  span (pts ++ [t]) s (Z.max e (start_address t + n_register t)).
Proof.
  intros Hspan [_ _ Hn _] Hback Hsl Har Hle Ht.
  destruct Hspan as [(p0 & Hp0 & Hs) Hsame Hin Hcov Hne].
  assert (Hmem : ∀ p, p ∈ pts ++ [t] ↔ p ∈ pts ∨ p = t).
  { intros p. by rewrite elem_of_app, list_elem_of_singleton. }
  assert (Hst : s <= start_address t).
  { rewrite Forall_forall in Hle. destruct (Hin back Hback). specialize (Hle _ Hback). lia. }
  split.
  - exists p0. split; [|done]. by destruct pts.
  - intros p q Hp%Hmem Hq%Hmem.
    destruct Hp as [Hp| ->], Hq as [Hq| ->]; [by apply Hsame| | |done].
    + destruct (Hsame p back Hp Hback). split; congruence.
    + destruct (Hsame q back Hq Hback). split; congruence.
  - intros p [Hp| ->]%Hmem; [|lia]. destruct (Hin p Hp). lia.
  - intros a Ha. destruct (decide (a < e)) as [Hae|Hae].
    + destruct (Hcov a) as (p & Hp & Hpa); [lia|]. exists p. split; [|done].
      apply Hmem. by left.
    + exists t. split; [apply Hmem; by right|lia].
  - lia.
Qed.

(** The registers a bounded group may span: one point, or fewer than the limit
    ([bits] is the limit of the coil areas). *)
Definition span_bound (bits max_byte : Z) (pts : list modbus_point_t) (s e : Z) : Prop :=
  ∀ p, p ∈ pts →
    if is_bit_area (area p) then e - s <= bits
    else (e - s) * 2 < max_byte ∨ pts = [p].

(** ** The grouping callback keeps the range *)

(** The body shared by the two callbacks, with the coil test as a parameter. *)
Definition plan_step (coil_full : modbus_sort_ctx → bool) (max_byte : Z)
    (c : option modbus_sort_ctx) (t1 t2 : modbus_point_t) : bool * option modbus_sort_ctx :=
  match c with
  | None => (true, Some {| ctx_start := start_address t1;
                           ctx_end := u16 (start_address t1 + n_register t1) |})
  | Some ctx =>
      if negb (slave_id t1 =? slave_id t2) then (false, Some ctx)
      else if negb (bool_decide (area t1 = area t2)) then (false, Some ctx)
      else if start_address t2 >? ctx_end ctx then (false, Some ctx)
      else if (if is_bit_area (area t1) then coil_full ctx
               else u16 (u16 ((ctx_end ctx - ctx_start ctx) * 2) + n_register t2 * 2) >=? max_byte)
      then (false, Some ctx)
      else (true, Some (if start_address t2 + n_register t2 >? ctx_end ctx
                        then {| ctx_start := ctx_start ctx;
                                ctx_end := u16 (start_address t2 + n_register t2) |}
                        else ctx))
  end.

Definition read_full (max_byte : Z) (ctx : modbus_sort_ctx) : bool :=
  (ctx_end ctx - ctx_start ctx + 7) ÷ 8 >=? max_byte.
Definition write_full (max_byte : Z) (ctx : modbus_sort_ctx) : bool :=
  (ctx_end ctx - ctx_start ctx) ÷ 8 >=? max_byte - 1.

Lemma read_fn_plan max_byte s t1 t2 :
  modbus_tag_sort_fn max_byte s t1 t2 =
    plan_step (read_full max_byte) max_byte (info_context s) t1 t2.
Proof. unfold modbus_tag_sort_fn, plan_step. by destruct (info_context s), (area t1). Qed.

Lemma write_fn_plan max_byte s t1 t2 :
  modbus_tag_sort_write_fn max_byte s t1 t2 =
    plan_step (write_full max_byte) max_byte (info_context s) (point t1) (point t2).
Proof.
  unfold modbus_tag_sort_write_fn, plan_step. by destruct (info_context s), (area (point t1)).
Qed.

Section plan.
Context (coil_full : modbus_sort_ctx → bool) (bits max_byte : Z).
Context (Hbits : ∀ s e, 0 <= s <= e → coil_full {| ctx_start := s; ctx_end := e |} = false →
  e - s + 1 <= bits).
Context (Hbits1 : 1 <= bits < 65536).
Context (Hmax : 1 <= max_byte < 65280).

(** What is known of a group: its context is the range of its points. *)
Definition planned (c : option modbus_sort_ctx) (pts : list modbus_point_t) : Prop :=
  ∃ s e, c = Some {| ctx_start := s; ctx_end := u16 e |} ∧ span pts s e ∧
    span_bound bits max_byte pts s e ∧ Forall point_ok pts.

Lemma planned_new t : point_ok t → planned (plan_step coil_full max_byte None t t).2 [t].
Proof.
  intros Ht. exists (start_address t), (start_address t + n_register t).
  split_and!; [done|by apply span_singleton| |by constructor].
  intros p ->%list_elem_of_singleton. destruct (is_bit_area (area t)) eqn:Hb; [|by right].
  destruct (ok_bits t Ht Hb). lia.
Qed.

(** The register limit after adding [t] to a range that passed the test. *)
Lemma add_now_bound pts s e t p :
  span pts s e → Forall point_ok pts → point_ok t → p ∈ pts →
  e < 65536 → ((e - s) * 2 < max_byte ∨ pts = [p]) →
  u16 (u16 ((e - s) * 2) + n_register t * 2) < max_byte →
  (e - s) * 2 + n_register t * 2 < max_byte.
Proof.
  intros Hspan Hok Ht Hp He Hb Hadd.
  assert (0 <= s) as Hs.
  { destruct Hspan as [(p0 & Hp0 & Hs) _ _ _ _]. rewrite Forall_forall in Hok.
    destruct pts; simplify_eq/=. apply (ok_start p0). apply Hok. by left. }
  assert (e - s < 32640).
  { destruct Hb as [Hb| ->]; [lia|].
    destruct (span_last _ _ _ Hspan) as (q & ->%list_elem_of_singleton & Hq).
    destruct Hspan as [(p0 & [= ->] & Hs') _ _ _ _].
    rewrite Forall_singleton in Hok. destruct (ok_count _ Hok). lia. }
  pose proof (span_nonempty _ _ _ Hspan). destruct (ok_count t Ht).
  rewrite !u16_id in Hadd; rewrite ?u16_id; lia.
Qed.

Lemma planned_step c pts back t :
  planned c pts → point_ok t → last pts = Some back →
  Forall (λ x, tag_cmp x t <= 0) pts →
  let '(ok, c') := plan_step coil_full max_byte c back t in
  planned c' (if ok then pts ++ [t] else pts).
Proof.
  intros (s & e & -> & Hspan & Hbound & Hok) Ht Hlast Hcmp.
  assert (Hkeep : planned (Some {| ctx_start := s; ctx_end := u16 e |}) pts).
  { by exists s, e. }
  assert (Hback : back ∈ pts).
  { apply last_snoc_inv in Hlast as [k ->]. apply elem_of_app. right.
    by apply list_elem_of_singleton. }
  unfold plan_step. cbn [ctx_start ctx_end].
  destruct (Z.eqb_spec (slave_id back) (slave_id t)) as [Hsl|]; [|done].
  case_bool_decide as Har; [|done]. cbn [negb].
  destruct (Z.gtb_spec (start_address t) (u16 e)) as [|Hst]; [done|].
  destruct (if is_bit_area (area back) then _ else _) eqn:Hfull; [done|].
  assert (Hle : Forall (λ p, start_address p <= start_address t) pts).
  { rewrite Forall_forall in Hcmp |- *. intros p Hp. apply tag_cmp_start; [| |by apply Hcmp].
    - destruct (span_same _ _ _ Hspan p back Hp Hback). congruence.
    - destruct (span_same _ _ _ Hspan p back Hp Hback). congruence. }
  pose proof (span_no_wrap _ _ _ _ Hspan Hok Hle Hst) as He.
  assert (0 <= s) as Hs.
  { destruct (span_inside _ _ _ Hspan back Hback) as [H1 _].
    destruct Hspan as [(p0 & Hp0 & <-) _ _ _ _]. rewrite Forall_forall in Hok.
    apply (ok_start p0). apply Hok. destruct pts; simplify_eq/=. by left. }
  pose proof (span_nonempty _ _ _ Hspan) as Hne. rewrite (u16_id e) in * by lia.
  exists s, (Z.max e (start_address t + n_register t)).
  split_and!; [|by eapply span_extend| |].
  - destruct (Z.gtb_spec (start_address t + n_register t) e).
    + by rewrite Z.max_r by lia.
    + by rewrite Z.max_l, u16_id by lia.
  - assert (Hall : ∀ p, p ∈ pts ++ [t] → area p = area back).
    { intros p [Hp|Hp%list_elem_of_singleton]%elem_of_app; [|by subst].
      by destruct (span_same _ _ _ Hspan p back Hp Hback). }
    intros p Hp. rewrite (Hall p Hp). specialize (Hbound back Hback).
    destruct (is_bit_area (area back)) eqn:Hb.
    + apply Hbits in Hfull; [|lia]. rewrite Har in Hb. destruct (ok_bits t Ht Hb). lia.
    + left. rewrite Z.geb_leb in Hfull. apply Z.leb_gt in Hfull.
      pose proof (add_now_bound pts s e t back Hspan Hok Ht Hback He Hbound Hfull).
      pose proof (ok_count t Ht). lia.
  - by apply Forall_snoc.
Qed.
End plan.

(** ** Read commands *)

(** What a read command promises: all its tags are of its slave and area and
    inside its range, every address of the range belongs to a tag, and the data
    of the response fits the limit unless a single tag is larger by itself. *)
Record cmd_planned (max_byte : Z) (c : modbus_read_cmd_t) : Prop := {
  cmd_tags : rc_tags c ≠ [];
  cmd_inside : Forall (λ t, slave_id t = rc_slave_id c ∧ area t = rc_area c ∧
    rc_start_address c <= start_address t ∧
    start_address t + n_register t <= rc_start_address c + rc_n_register c) (rc_tags c);
  cmd_covered : ∀ a, rc_start_address c <= a < rc_start_address c + rc_n_register c →
    ∃ t, t ∈ rc_tags c ∧ start_address t <= a < start_address t + n_register t;
  cmd_size : if is_bit_area (rc_area c) then (rc_n_register c + 7) / 8 <= max_byte
             else rc_n_register c * 2 < max_byte ∨ ∃ t, rc_tags c = [t];
}.

Lemma span_width bits max_byte pts s e :
  1 <= bits < 65536 → max_byte < 65280 → Forall point_ok pts →
  span pts s e → span_bound bits max_byte pts s e → 0 < e - s < 65536.
Proof.
  intros Hbits Hmax Hok Hspan Hb. pose proof (span_nonempty _ _ _ Hspan).
  destruct (span_last _ _ _ Hspan) as (p & Hp & He). specialize (Hb p Hp).
  destruct (is_bit_area (area p)); [lia|]. destruct Hb as [Hb| ->]; [lia|].
  rewrite Forall_singleton in Hok. destruct (span_head _ _ _ Hspan) as (p0 & [= ->] & Hs).
  pose proof (ok_count _ Hok). lia.
Qed.

Lemma read_cmd_planned max_byte s :
  1 <= max_byte <= 8192 →
  planned (8 * (max_byte - 1) + 1) max_byte (info_context s) (sort_tags s) →
  ∃ c, read_cmd_of_sort s = Some c ∧ rc_tags c = sort_tags s ∧ cmd_planned max_byte c.
Proof.
  intros Hmax (st & e & Hctx & Hspan & Hb & Hok). unfold read_cmd_of_sort. rewrite Hctx.
  pose proof Hspan as [(p0 & Hp0 & Hst) Hsame Hin Hcov _]. rewrite Hp0. simpl.
  assert (Hw : 0 < e - st < 65536).
  { eapply span_width; [| |exact Hok|exact Hspan|exact Hb]; lia. }
  assert (Hn : u16 (u16 e - st) = e - st).
  { unfold u16. rewrite Zminus_mod_idemp_l. apply Z.mod_small. lia. }
  assert (Hp0' : p0 ∈ sort_tags s).
  { destruct (sort_tags s); simplify_eq/=. by left. }
  eexists. split_and!; [done|done|]. split; simpl; rewrite ?Hn.
  - by destruct (sort_tags s).
  - rewrite Forall_forall. intros t Ht. destruct (Hsame t p0 Ht Hp0') as [-> ->].
    destruct (Hin t Ht). split_and!; (done || lia).
  - intros a Ha. apply Hcov. lia.
  - specialize (Hb p0 Hp0'). destruct (is_bit_area (area p0)); [zlia|].
    destruct Hb as [Hb|Hb]; [by left|right; eauto].
Qed.

Lemma mapM_Forall {A B} (f : A → option B) (P : A → Prop) (R : A → B → Prop) l :
  (∀ x, P x → ∃ y, f x = Some y ∧ R x y) → Forall P l →
  ∃ k, mapM f l = Some k ∧ Forall2 R l k.
Proof.
  intros Hf. induction 1 as [|x l Hx Hl (k & Hk & HR)]; [by exists []|].
  destruct (Hf x Hx) as (y & Hy & HRy). exists (y :: k).
  split; [|by constructor]. simpl. by rewrite Hy, Hk.
Qed.

Lemma Forall2_concat_tags {A B C} (f : A → list C) (g : B → list C) R l k :
  (∀ x y, R x y → g y = f x) → Forall2 R l k → concat (g <$> k) = concat (f <$> l).
Proof.
  intros Hfg. induction 1 as [|x y l k HR _ IH]; [done|].
  rewrite !fmap_cons. cbn [concat]. by rewrite IH, (Hfg _ _ HR).
Qed.

Lemma read_full_bits max_byte s e :
  0 <= s <= e → read_full max_byte {| ctx_start := s; ctx_end := e |} = false →
  e - s + 1 <= 8 * (max_byte - 1) + 1.
Proof.
  intros Hse. unfold read_full. simpl. rewrite Z.geb_leb, Z.leb_gt.
  rewrite Z.quot_div_nonneg by lia. intros. zlia.
Qed.


Definition example_point (a : modbus_area_e) (ty : neu_type_e) (start n : Z) : modbus_point_t := {|
  slave_id := 1; area := a; start_address := start; n_register := n;
  point_type := Some ty; option_ := addr_option_zero; point_name := "t" |}.

Definition example_points : list modbus_point_t :=
  [example_point MODBUS_AREA_HOLD_REGISTER NEU_TYPE_FLOAT 12 2;
   example_point MODBUS_AREA_HOLD_REGISTER NEU_TYPE_UINT16 10 1;
   example_point MODBUS_AREA_COIL NEU_TYPE_BIT 3 1;
   example_point MODBUS_AREA_HOLD_REGISTER NEU_TYPE_INT16 11 1;
   example_point MODBUS_AREA_HOLD_REGISTER NEU_TYPE_INT64 65534 4].


(** ** Write commands *)

(** The bytes [cal_n_byte] reports for a point. *)
Definition wire_bytes (p : modbus_point_t) : option Z :=
  match point_type p with
  | Some (NEU_TYPE_UINT16 | NEU_TYPE_INT16) => Some 2
  | Some (NEU_TYPE_FLOAT | NEU_TYPE_UINT32 | NEU_TYPE_INT32) => Some 4
  | Some (NEU_TYPE_DOUBLE | NEU_TYPE_INT64 | NEU_TYPE_UINT64) => Some 8
  | Some NEU_TYPE_BIT => Some 1
  | Some NEU_TYPE_STRING => Some (opt_string_length (option_ p))
  | Some NEU_TYPE_BYTES => Some (opt_bytes_length (option_ p))
  | _ => None
  end.

(** A point that can be packed: its encoding fits its registers. *)
Record write_ok (t : modbus_point_write_t) : Prop := {
  wr_point : point_ok (point t);
  wr_bytes : ∃ n, wire_bytes (point t) = Some n ∧ 0 <= n <= 2 * n_register (point t);
  wr_value : length (value t) = 264%nat;
  wr_area : area (point t) = MODBUS_AREA_COIL ∨ area (point t) = MODBUS_AREA_HOLD_REGISTER;
}.

(** Every writable type the parser accepts meets that condition. *)
Lemma tag_to_point_wire tag address_base q n :
  modbus_tag_to_point tag point_zero address_base = (NEU_ERR_SUCCESS, q) →
  wire_bytes q = Some n → 0 <= n <= 2 * n_register q ∧ n <= 128.
Proof.
  intros (p & q' & Hc & Hcount & -> & Hty & _ & _ & Hstr & _)%tag_to_point_inv.
  destruct (count_registers_ok tag p (n_register q') q' Hc Hcount) as (Hq & Hn & Hb);
    [done|done|].
  destruct (is_bit_area (area p)) eqn:Hba.
  { destruct (Hb eq_refl) as [Hr Hbit]. rewrite Hq. unfold wire_bytes. simpl. rewrite Hbit.
    intros [= <-]. lia. }
  destruct (check_area_lengths tag p Hc Hba) as [Hs Hby].
  assert (Hw : wire_bytes (with_name (cstr_trunc NEU_TAG_NAME_LEN (tag_name tag)) q') = wire_bytes p)
    by (by rewrite Hq).
  rewrite Hw. unfold wire_bytes. simpl. clear Hw Hb Hq. revert Hcount.
  unfold count_registers, registers. rewrite Hba.
  destruct (point_type p) as [ty|]; [|done].
  destruct ty; try done; try (intros [= <-] [= <-]; simpl; lia).
  - specialize (Hs eq_refl). specialize (Hstr eq_refl). destruct (Z.gtb_spec (opt_string_length (option_ p)) 127); [done|].
    unfold NEU_DATATAG_STRING_TYPE_H, NEU_DATATAG_STRING_TYPE_L, NEU_DATATAG_STRING_TYPE_D,
      NEU_DATATAG_STRING_TYPE_E.
    destruct (Z.eqb_spec (opt_string_type (option_ p)) 0),
      (Z.eqb_spec (opt_string_type (option_ p)) 1),
      (Z.eqb_spec (opt_string_type (option_ p)) 2),
      (Z.eqb_spec (opt_string_type (option_ p)) 3);
      intros Hcount [= <-]; simplify_eq/=; zlia.
  - specialize (Hby eq_refl). destruct (Z.gtb_spec (opt_bytes_length (option_ p)) 128); [done|].
    destruct (_ =? 1); [done|]. intros [= <-] [= <-]. simpl. zlia.
Qed.

(** *** Conversions keep the size of the value *)

Lemma length_htol_loop fuel str len i : length (htol_loop fuel str len i) = length str.
Proof.
  revert str i. induction fuel as [|fuel IH]; intros str i; simpl; [done|].
  destruct (decide _); [|done]. by rewrite IH, !length_insert.
Qed.

Lemma length_store_front n z (v : list Z) :
  (n <= length v)%nat → length (mem_write 0 (le_store n z) v) = length v.
Proof. intros. rewrite length_mem_write; rewrite ?length_le_store; lia. Qed.

Lemma length_ntohs_p off v :
  (off + 2 <= 264)%nat → length v = 264%nat → length (neu_ntohs_p off v) = 264%nat.
Proof.
  intros. unfold neu_ntohs_p. rewrite length_mem_write; rewrite ?length_le_store; lia.
Qed.

Lemma length_convert_endianess v e :
  length v = 264%nat → length (modbus_convert_endianess v e) = 264%nat.
Proof.
  intros Hv.
  assert (H32 : ∀ z, length (set_u32 z v) = 264%nat).
  { intros z. unfold set_u32. rewrite length_store_front; lia. }
  destruct e; cbn [modbus_convert_endianess]; repeat (apply length_ntohs_p; [lia|]); done.
Qed.

Lemma length_convert_endianess_64 v e :
  length v = 264%nat → length (modbus_convert_endianess_64 v e) = 264%nat.
Proof.
  intros Hv. destruct e; cbn [modbus_convert_endianess_64]; unfold set_u64;
    rewrite ?length_store_front; lia.
Qed.

Lemma cal_n_byte_spec p v e d e64 d64 n :
  wire_bytes p = Some n → length v = 264%nat →
  ∃ v', cal_n_byte (point_type p) v (option_ p) e d e64 d64 = Some (n, v') ∧
    length v' = 264%nat.
Proof.
  unfold wire_bytes, cal_n_byte. intros Hn Hv.
  pose proof (length_convert_endianess v e Hv). pose proof (length_convert_endianess_64 v e64 Hv).
  destruct (point_type p) as [ty|]; [|done].
  destruct ty; simplify_eq; eexists; (split; [reflexivity|]);
    unfold set_u16, set_u32, set_u64, neu_datatag_string_ltoh, neu_datatag_string_htol;
    repeat case_match; rewrite ?length_store_front, ?length_htol_loop; lia.
Qed.

Lemma memcpy_at_some dst off n src :
  0 <= off → 0 <= n → off + n <= Z.of_nat (length dst) → n <= Z.of_nat (length src) →
  memcpy_at dst off n src = Some (mem_write (Z.to_nat off) (take (Z.to_nat n) src) dst).
Proof.
  intros H1 H2 H3 H4. unfold memcpy_at.
  destruct (Z.leb_spec 0 off), (Z.leb_spec 0 n), (Z.leb_spec (off + n) (Z.of_nat (length dst))),
    (Z.leb_spec n (Z.of_nat (length src))); done || lia.
Qed.

(** *** Packing a group never leaves its buffers *)

Section pack.
Context (endianess : modbus_endianess) (endianess_64 : modbus_endianess_64).
Context (front : modbus_point_write_t) (num : nat).

(** The buffers of a group of [num] tags after [k] of its coils. *)
Record pack_ok (st : pack_state) (k : Z) : Prop := {
  pk_bytes : length (ps_bytes st) = (num * 264)%nat;
  pk_bits : length (ps_data_bit st) = ((num + 7) / 8)%nat;
  pk_k : ps_k st = k;
}.

(** The registers of a tag lie inside the buffer. *)
Definition fits (t : modbus_point_write_t) : Prop :=
  area (point t) ≠ MODBUS_AREA_COIL →
  start_address (point front) <= start_address (point t) ∧
  2 * (start_address (point t) - start_address (point front) + n_register (point t))
    <= Z.of_nat (num * 264).

Lemma pack_tag_ok st k t :
  pack_ok st k → write_ok t → 0 <= k < Z.of_nat num →
  fits t →
  ∃ st', pack_tag endianess endianess_64 front st t = Some st' ∧
    pack_ok st' (if bool_decide (area (point t) = MODBUS_AREA_COIL) then k + 1 else k) ∧
    (∃ t', point t' = point t ∧ ps_tags st' = ps_tags st ++ [t']).
Proof.
  intros [Hby Hbi Hk] [Hpt (n & Hn & Hle) Hv _] Hnum Hfit. unfold pack_tag.
  case_bool_decide as Ha.
  - destruct (cal_n_byte_spec (point t) (value t) endianess true endianess_64 true n Hn Hv)
      as (v' & -> & Hv'). cbn [mbind option_bind].
    destruct (lookup_lt_is_Some_2 (ps_data_bit st) (Z.to_nat (ps_k st / 8))) as [old Hold].
    { rewrite Hbi, Hk. apply Nat2Z.inj_lt. rewrite Z2Nat.id by (apply Z.div_pos; lia).
      rewrite Nat2Z.inj_div, Nat2Z.inj_add. zlia. }
    rewrite Hold. cbn [mbind option_bind]. eexists. split; [done|].
    split; [|by eexists; split; [|reflexivity]].
    split; simpl; [done|by rewrite length_insert|lia].
  - destruct (cal_n_byte_spec (point t) (value t) endianess (opt_value_default (option_ (point t)))
      endianess_64 (opt_value_default (option_ (point t))) n Hn Hv) as (v' & -> & Hv').
    cbn [mbind option_bind]. pose proof (ok_count _ Hpt). destruct (Hfit Ha).
    rewrite memcpy_at_some by lia. cbn [mbind option_bind].
    eexists. split; [done|].
    split; [|by eexists; split; [|reflexivity]]. split; simpl; [|done|done].
    rewrite length_mem_write; [done|]. rewrite length_take. lia.
Qed.

Lemma pack_tags_ok ts st k :
  pack_ok st k → 0 <= k → k + Z.of_nat (length ts) <= Z.of_nat num →
  Forall (λ t, write_ok t ∧ fits t) ts →
  ∃ st' k', pack_tags endianess endianess_64 front st ts = Some st' ∧ pack_ok st' k' ∧
    0 <= k' <= k + Z.of_nat (length ts) ∧
    point <$> ps_tags st' = (point <$> ps_tags st) ++ (point <$> ts).
Proof.
  revert st k. induction ts as [|t ts IH]; intros st k Hst Hk Hlen Hts.
  { exists st, k. split_and!; [done|done|lia|simpl; lia|]. by rewrite app_nil_r. }
  apply Forall_cons in Hts as [[Hw Hf] Hts]. simpl in Hlen. cbn [pack_tags length].
  destruct (pack_tag_ok st k t Hst Hw ltac:(lia) Hf) as (st1 & -> & Hst1 & t' & Ht' & Htags).
  cbn [mbind option_bind].
  destruct (IH st1 _ Hst1) as (st2 & k2 & Hst2 & Hok2 & Hk2 & Htags2); [| |done|].
  - destruct (bool_decide _); lia.
  - destruct (bool_decide _); lia.
  - exists st2, k2. split; [done|]. split; [done|]. split; [destruct (bool_decide _); lia|].
    rewrite Htags2, Htags, !fmap_app, fmap_cons, <-app_assoc. simpl. by rewrite Ht'.
Qed.
End pack.

(** What a write command promises about its target. *)
(** The bytes the encodings of some points take together. *)
Definition wire_sum (pts : list modbus_point_t) : Z :=
  foldr (λ p acc, default 0 (wire_bytes p) + acc) 0 pts.

Record write_cmd_planned (c : modbus_write_cmd_t) (pts : list modbus_point_t) : Prop := {
  wcmd_points : point <$> wc_tags c = pts;
  wcmd_nonempty : pts ≠ [];
  wcmd_inside : Forall (λ p, slave_id p = wc_slave_id c ∧ area p = wc_area c ∧
    wc_start_address c <= start_address p ∧
    start_address p + n_register p <= wc_start_address c + wc_n_register c) pts;
  wcmd_covered : ∀ a, wc_start_address c <= a < wc_start_address c + wc_n_register c →
    ∃ p, p ∈ pts ∧ start_address p <= a < start_address p + n_register p;
  wcmd_n_byte : wc_n_byte c = u8 (wire_sum pts);
}.

Lemma pack_tags_n_byte endianess endianess_64 front ts : ∀ st st',
  Forall write_ok ts → pack_tags endianess endianess_64 front st ts = Some st' →
  ps_n_byte st' = ps_n_byte st + wire_sum (point <$> ts).
Proof.
  induction ts as [|t ts IH]; intros st st' Hok; cbn [pack_tags fmap list_fmap wire_sum foldr].
  { intros [= <-]. lia. }
  apply Forall_cons in Hok as [[_ (n & Hn & _) Hv _] Hok].
  intros (st1 & Hst1 & Hrest)%bind_Some. apply IH in Hrest; [|done]. rewrite Hrest, Hn. cbn [default].
  assert (Hst : ps_n_byte st1 = ps_n_byte st + n); [|unfold wire_sum, id; lia].
  revert Hst1. unfold pack_tag. case_bool_decide.
  - destruct (cal_n_byte_spec (point t) (value t) endianess true endianess_64 true n Hn Hv)
      as (v' & -> & _). cbn [mbind option_bind]. intros (? & _ & [= <-])%bind_Some. done.
  - destruct (cal_n_byte_spec (point t) (value t) endianess (opt_value_default (option_ (point t)))
      endianess_64 (opt_value_default (option_ (point t))) n Hn Hv) as (v' & -> & _).
    cbn [mbind option_bind]. intros (? & _ & [= <-])%bind_Some. done.
Qed.

(** A group that spans [s] to [e] fits the buffer allocated for it. *)
Lemma planned_fits bits max_byte tags front s e :
  max_byte <= 528 → head tags = Some front → Forall write_ok tags →
  span (point <$> tags) s e → span_bound bits max_byte (point <$> tags) s e →
  Forall (fits front (length tags)) tags.
Proof.
  intros Hmax Hfront Hok Hspan Hb. rewrite Forall_forall in Hok. apply Forall_forall.
  intros t Ht Hcoil. destruct (Hok t Ht) as [Hpt _ _ Harea].
  assert (Hin : point t ∈ point <$> tags) by by apply list_elem_of_fmap_2.
  destruct (span_inside _ _ _ Hspan _ Hin) as [H1 H2].
  destruct (span_head _ _ _ Hspan) as (p0 & Hp0 & Hs).
  destruct tags as [|t0 tags]; simplify_eq/=.
  split; [done|]. specialize (Hb _ Hin).
  destruct Harea as [Ha|Ha]; [done|]. rewrite Ha in Hb. simpl in Hb.
  destruct Hb as [Hb|Hb].
  - destruct tags as [|t1 tags]; [|simpl; lia].
    apply list_elem_of_singleton in Ht as ->. pose proof (ok_count _ Hpt). simpl. lia.
  - injection Hb as Hb1 Hb2. pose proof (ok_count _ Hpt). rewrite Hb1. lia.
Qed.

Lemma write_cmd_planned_intro endianess endianess_64 max_byte s :
  2 <= max_byte <= 528 → Forall write_ok (sort_tags s) →
  planned (8 * (max_byte - 1)) max_byte (info_context s) (point <$> sort_tags s) →
  ∃ c, write_cmd_of_sort endianess endianess_64 s = Some c ∧
    write_cmd_planned c (point <$> sort_tags s).
Proof.
  intros Hmax Hwr (st & e & Hctx & Hspan & Hb & Hok). unfold write_cmd_of_sort.
  pose proof Hspan as [(p0 & Hp0 & Hst) Hsame Hin Hcov _].
  destruct (head (sort_tags s)) as [front|] eqn:Hfront; cycle 1.
  { by destruct (sort_tags s). }
  assert (p0 = point front) as -> by (by destruct (sort_tags s); simplify_eq/=).
  assert (Hfin : point front ∈ point <$> sort_tags s).
  { destruct (sort_tags s); simplify_eq/=. by left. }
  rewrite Hctx. cbn [mbind option_bind].
  assert (Hfits : Forall (λ t, write_ok t ∧ fits front (length (sort_tags s)) t) (sort_tags s)).
  { apply Forall_and. split; [done|]. eapply planned_fits; [|done..|exact Hspan|exact Hb]. lia. }
  destruct (pack_tags_ok endianess endianess_64 front (length (sort_tags s)) (sort_tags s)
    {| ps_bytes := replicate (length (sort_tags s) * 264) 0;
       ps_data_bit := replicate ((length (sort_tags s) + 7) / 8) 0;
       ps_k := 0; ps_n_byte := 0; ps_tags := [] |} 0)
    as (st' & k & Hpack & [Hby Hbi Hk] & Hkr & Htags); [|lia|lia|done|].
  { split; simpl; rewrite ?length_replicate; done. }
  rewrite Hpack. cbn [mbind option_bind].
  assert (Hcopy : ∃ bytes, (if bool_decide (area (point front) = MODBUS_AREA_COIL)
    then memcpy_at (ps_bytes st') 0 ((ps_k st' + 7) / 8) (ps_data_bit st')
    else Some (ps_bytes st')) = Some bytes).
  { case_bool_decide; [|by eexists]. rewrite memcpy_at_some; [by eexists|lia|zlia| |].
    - rewrite Hby, Hk. zlia.
    - rewrite Hbi, Hk, Nat2Z.inj_div, Nat2Z.inj_add. apply Z.div_le_mono; lia. }
  destruct Hcopy as [bytes ->]. cbn [mbind option_bind].
  assert (Hw : 0 < e - st < 65536).
  { eapply span_width; [| |exact Hok|exact Hspan|exact Hb]; lia. }
  assert (Hn : u16 (u16 e - st) = e - st).
  { unfold u16. rewrite Zminus_mod_idemp_l. apply Z.mod_small. lia. }
  apply pack_tags_n_byte in Hpack; [|done]. simpl in Hpack.
  eexists. split; [done|]. split; simpl; rewrite ?Hn; [| | | |by rewrite Hpack].
  - done.
  - by destruct (sort_tags s).
  - rewrite Forall_forall. intros p Hp. destruct (Hsame p _ Hp Hfin) as [-> ->].
    destruct (Hin p Hp). split_and!; (done || lia).
  - intros a Ha. apply Hcov. lia.
Qed.

Lemma write_full_bits max_byte s e :
  0 <= s <= e → write_full max_byte {| ctx_start := s; ctx_end := e |} = false →
  e - s + 1 <= 8 * (max_byte - 1).
Proof.
  intros Hse. unfold write_full. simpl. rewrite Z.geb_leb, Z.leb_gt.
  rewrite Z.quot_div_nonneg by lia. intros. zlia.
Qed.

Lemma write_tags_sort_spec endianess endianess_64 max_byte tags :
  Forall write_ok tags → Z.of_nat (length tags) < 65536 → 2 <= max_byte <= 528 →
  ∃ cmds groups, modbus_write_tags_sort endianess endianess_64 max_byte tags = Some cmds ∧
    concat groups ≡ₚ point <$> tags ∧ Forall2 write_cmd_planned cmds groups.
Proof.
  intros Hok Hlen Hmax. unfold modbus_write_tags_sort.
  destruct (neu_tag_sort_total (modbus_tag_sort_write_fn max_byte) tag_cmp_write tags Hlen)
    as (result & Hr & _ & Hperm).
  rewrite Hr. cbn [mbind option_bind].
  set (bits := 8 * (max_byte - 1)).
  set (P := λ s : neu_tag_sort_t modbus_point_write_t modbus_sort_ctx,
    Forall write_ok (sort_tags s) ∧
    planned bits max_byte (info_context s) (point <$> sort_tags s)).
  assert (Hinv : Forall (λ s, P s ∧ sorted tag_cmp_write (sort_tags s)) (sorts result)).
  { eapply (neu_tag_sort_invariant (modbus_tag_sort_write_fn max_byte) tag_cmp_write
      P write_ok); [| |exact Hok|exact Hr].
    - intros t Ht. split; [by constructor|].
      apply (planned_new (write_full max_byte)); [lia|by apply wr_point].
    - intros s back t [Hw Hs] Ht Hlast Hcmp. rewrite write_fn_plan.
      pose proof (planned_step (write_full max_byte) bits max_byte
        (write_full_bits max_byte) ltac:(lia) _ _ (point back) (point t) Hs (wr_point t Ht)) as Hstep.
      rewrite fmap_last, Hlast in Hstep. specialize (Hstep eq_refl).
      rewrite Forall_fmap in Hstep. specialize (Hstep Hcmp).
      destruct (plan_step _ _ _ _ _) as [[] c']; simpl; (split; [|simpl; rewrite ?fmap_app; done]).
      + simpl. by apply Forall_snoc.
      + done. }
  destruct (mapM_Forall (write_cmd_of_sort endianess endianess_64)
    (λ s, P s ∧ sorted tag_cmp_write (sort_tags s))
    (λ s c, write_cmd_planned c (point <$> sort_tags s)) (sorts result)) as (cmds & Hm & HR).
  - intros s [[Hw Hs] _]. by eapply write_cmd_planned_intro.
  - done.
  - exists cmds, ((λ s, point <$> sort_tags s) <$> sorts result). split; [done|]. split.
    + rewrite <-Hperm. unfold all_tags. clear.
      induction (sorts result) as [|s ss IH]; [done|].
      rewrite !fmap_cons. cbn [concat]. by rewrite fmap_app, IH.
    + rewrite Forall2_fmap_r. by apply Forall2_flip.
Qed.

(** C35: packing a batch of writes is memory safe and complete. For writable points
    whose encoding fits their registers, fewer than 65536 of them,
    [modbus_write_tags_sort] returns (no [assert] fails and no [memcpy] leaves the
    buffer sized by the number of tags), the commands hold exactly the points given,
    and each command covers the registers of its tags and no others and carries the
    number of bytes of their encodings modulo 256, the width of the field, which
    more than 255 coils exceed. *)
Theorem modbus_write_tags_sort_safe endianess endianess_64 max_byte tags :
  Forall write_ok tags → Z.of_nat (length tags) < 65536 → 2 <= max_byte <= 528 →
  ∃ cmds groups, modbus_write_tags_sort endianess endianess_64 max_byte tags = Some cmds ∧
    concat groups ≡ₚ point <$> tags ∧ Forall2 write_cmd_planned cmds groups.
Proof. apply write_tags_sort_spec. Qed.

Definition example_write (a : modbus_area_e) (ty : neu_type_e) (start n v : Z) : modbus_point_write_t :=
  {| point := example_point a ty start n; value := set_u64 v value_zero |}.

Definition example_writes : list modbus_point_write_t :=
  [example_write MODBUS_AREA_HOLD_REGISTER NEU_TYPE_UINT32 12 2 0x01020304;
   example_write MODBUS_AREA_COIL NEU_TYPE_BIT 3 1 1;
   example_write MODBUS_AREA_HOLD_REGISTER NEU_TYPE_UINT16 11 1 0xAABB;
   example_write MODBUS_AREA_COIL NEU_TYPE_BIT 4 1 1].

Lemma modbus_write_tags_sort_safe_witness :
  ∃ cmds groups,
    modbus_write_tags_sort MODBUS_ABCD MODBUS_LL 250 example_writes = Some cmds ∧
    concat groups ≡ₚ point <$> example_writes ∧ Forall2 write_cmd_planned cmds groups.
Proof.
  apply (modbus_write_tags_sort_safe MODBUS_ABCD MODBUS_LL 250 example_writes).
  - repeat constructor; simpl; try (done || lia || (by left) || (by right));
      eexists; (split; [reflexivity|simpl; lia]).
  - simpl. lia.
  - lia.
Defined.

(** *** The bytes of a register write *)

Section encode.
Context (endianess : modbus_endianess) (endianess_64 : modbus_endianess_64).

(** The wire bytes of one tag. *)
Definition encode (t : modbus_point_write_t) : list Z :=
  match cal_n_byte (point_type (point t)) (value t) (option_ (point t)) endianess
          (opt_value_default (option_ (point t))) endianess_64
          (opt_value_default (option_ (point t))) with
  | Some (n, v) => take (Z.to_nat n) v
  | None => []
  end.

(** Holding registers that follow each other without gap or overlap from the
    address [a] on and fill their registers. *)
Fixpoint adjacent (a : Z) (ts : list modbus_point_write_t) : Prop :=
  match ts with
  | [] => True
  | t :: ts' =>
      write_ok t ∧ area (point t) = MODBUS_AREA_HOLD_REGISTER ∧ start_address (point t) = a ∧
      wire_bytes (point t) = Some (2 * n_register (point t)) ∧
      adjacent (a + n_register (point t)) ts'
  end.

Definition total_registers (ts : list modbus_point_write_t) : Z :=
  foldr (λ t n, n_register (point t) + n) 0 ts.

Lemma encode_spec t :
  write_ok t → wire_bytes (point t) = Some (2 * n_register (point t)) →
  ∃ v, cal_n_byte (point_type (point t)) (value t) (option_ (point t)) endianess
         (opt_value_default (option_ (point t))) endianess_64
         (opt_value_default (option_ (point t))) = Some (2 * n_register (point t), v) ∧
    length v = 264%nat ∧ encode t = take (Z.to_nat (2 * n_register (point t))) v ∧
    Z.of_nat (length (encode t)) = 2 * n_register (point t).
Proof.
  intros [Hp _ Hv _] Hw. unfold encode.
  destruct (cal_n_byte_spec (point t) (value t) endianess (opt_value_default (option_ (point t)))
    endianess_64 (opt_value_default (option_ (point t))) _ Hw Hv) as (v & -> & Hlen).
  exists v. split_and!; [done|done|done|]. rewrite length_take. pose proof (ok_count _ Hp). lia.
Qed.

Lemma pack_tags_adjacent front ts a st pre m :
  adjacent a ts → start_address (point front) <= a →
  ps_bytes st = pre ++ replicate m 0 →
  Z.of_nat (length pre) = 2 * (a - start_address (point front)) →
  2 * total_registers ts <= Z.of_nat m →
  ∃ st', pack_tags endianess endianess_64 front st ts = Some st' ∧
    ps_bytes st' = pre ++ concat (encode <$> ts) ++
      replicate (Z.to_nat (Z.of_nat m - 2 * total_registers ts)) 0 ∧
    ps_n_byte st' = ps_n_byte st + 2 * total_registers ts.
Proof.
  revert a st pre m. induction ts as [|t ts IH]; intros a st pre m Hadj Ha Hst Hpre Hm.
  { exists st. split; [done|]. simpl. rewrite Hst. split; [|lia]. do 2 f_equal. lia. }
  destruct Hadj as (Hok & Harea & Hstart & Hwire & Hadj). cbn [pack_tags].
  destruct (encode_spec t Hok Hwire) as (v & Hcal & Hv & Henc & Hlen).
  pose proof (ok_count _ (wr_point t Hok)) as Hn.
  assert (Htot : 0 <= total_registers ts).
  { clear -Hadj. revert Hadj. generalize (a + n_register (point t)).
    induction ts as [|t' ts IH]; intros b Hadj; simpl; [lia|].
    destruct Hadj as (Hok & _ & _ & _ & Hadj). pose proof (IH _ Hadj).
    pose proof (ok_count _ (wr_point t' Hok)). lia. }
  cbn [total_registers foldr] in Hm |- *. fold (total_registers ts) in *.
  unfold pack_tag. rewrite Harea, bool_decide_eq_false_2 by done. rewrite Hcal.
  cbn [mbind option_bind].
  rewrite memcpy_at_some; [|lia|lia|rewrite Hst, length_app, length_replicate; lia|lia].
  cbn [mbind option_bind]. rewrite <-Henc, Hst.
  replace (Z.to_nat (2 * (start_address (point t) - start_address (point front))))
    with (length pre) by lia.
  destruct (IH (a + n_register (point t))
    {| ps_bytes := mem_write (length pre) (encode t) (pre ++ replicate m 0);
       ps_data_bit := ps_data_bit st; ps_k := ps_k st;
       ps_n_byte := ps_n_byte st + 2 * n_register (point t);
       ps_tags := ps_tags st ++ [{| point := point t; value := v |}] |}
    (pre ++ encode t) (m - length (encode t))%nat) as (st' & Hst' & Hby & Hn').
  - done.
  - lia.
  - simpl. unfold mem_write. rewrite take_app_length, drop_app_ge by lia.
    rewrite drop_replicate, <-app_assoc. do 3 f_equal. lia.
  - rewrite length_app. lia.
  - lia.
  - exists st'. split; [done|]. rewrite Hby, Hn'. cbn [ps_n_byte]. split; [|lia].
    rewrite fmap_cons. cbn [concat]. rewrite <-!app_assoc. do 4 f_equal. lia.
Qed.

(** The data of a multi-register write is the concatenation of the wire
    encodings of its tags: when the tags of a group follow each other without
    gap or overlap, the command carries two bytes per register, each tag's bytes
    at the offset of its address, followed only by zeros. *)
Theorem write_cmd_bytes s front ctx :
  head (sort_tags s) = Some front → info_context s = Some ctx →
  adjacent (start_address (point front)) (sort_tags s) →
  2 * total_registers (sort_tags s) <= Z.of_nat (length (sort_tags s) * 264) →
  ∃ c pad, write_cmd_of_sort endianess endianess_64 s = Some c ∧
    wc_n_byte c = u8 (2 * total_registers (sort_tags s)) ∧
    wc_bytes c = concat (encode <$> sort_tags s) ++ replicate pad 0.
Proof.
  intros Hfront Hctx Hadj Hfit. unfold write_cmd_of_sort. rewrite Hfront, Hctx.
  cbn [mbind option_bind].
  destruct (pack_tags_adjacent front (sort_tags s) (start_address (point front))
    {| ps_bytes := replicate (length (sort_tags s) * 264) 0;
       ps_data_bit := replicate ((length (sort_tags s) + 7) / 8) 0;
       ps_k := 0; ps_n_byte := 0; ps_tags := [] |} [] (length (sort_tags s) * 264)%nat)
    as (st' & -> & Hby & Hn); [done|lia|done|simpl; lia|done|].
  cbn [mbind option_bind].
  assert (area (point front) = MODBUS_AREA_HOLD_REGISTER) as ->.
  { destruct (sort_tags s); simplify_eq/=. by destruct Hadj as (_ & ? & _). }
  rewrite bool_decide_eq_false_2 by done. cbn [mbind option_bind].
  eexists _, _. split; [done|]. simpl in *. by rewrite Hn, Hby.
Qed.
End encode.

Definition example_group : neu_tag_sort_t modbus_point_write_t modbus_sort_ctx := {|
  info_size := 2;
  info_context := Some {| ctx_start := 11; ctx_end := 14 |};
  sort_tags := [example_write MODBUS_AREA_HOLD_REGISTER NEU_TYPE_UINT16 11 1 0xAABB;
                example_write MODBUS_AREA_HOLD_REGISTER NEU_TYPE_UINT32 12 2 0x01020304] |}.

Lemma write_cmd_bytes_witness :
  concat (encode MODBUS_ABCD MODBUS_LL <$> sort_tags example_group) =
    [0xAA; 0xBB; 0x01; 0x02; 0x03; 0x04] ∧
  ∃ c pad, write_cmd_of_sort MODBUS_ABCD MODBUS_LL example_group = Some c ∧
    wc_n_byte c = u8 (2 * total_registers (sort_tags example_group)) ∧
    wc_bytes c = concat (encode MODBUS_ABCD MODBUS_LL <$> sort_tags example_group) ++
      replicate pad 0.
Proof.
  split; [reflexivity|].
  eapply (write_cmd_bytes MODBUS_ABCD MODBUS_LL example_group); [reflexivity|reflexivity| |].
  - simpl. split_and!; try done; split; simpl; try (done || lia || (by right));
      try (split; simpl; done || lia); eexists; (split; [reflexivity|simpl; lia]).
  - simpl. lia.
Defined.
