(* ===== verification/ModbusStack.v ===== *)
(** * The Modbus stack: building requests and taking responses apart

    plugins/modbus/modbus_stack.c.  The stack calls back into the plugin to send
    bytes, to deliver values and to answer write requests; the callbacks are the
    record [stack_ops] over the plugin state [Ctx], as the function pointers of
    [struct modbus_stack] are.  OpenTelemetry tracing is left out. *)

From S2P Require Import Prelude NeuTypes ProtocolBuf Modbus ModbusPoint.

Inductive modbus_protocol_e := MODBUS_PROTOCOL_TCP | MODBUS_PROTOCOL_RTU.
#[export] Instance modbus_protocol_eq_dec : EqDecision modbus_protocol_e.
Proof. solve_decision. Defined.

Definition is_tcp (p : modbus_protocol_e) : bool :=
  match p with MODBUS_PROTOCOL_TCP => true | MODBUS_PROTOCOL_RTU => false end.

(** [struct modbus_stack] without the callbacks and the scratch buffer, whose
    size is fixed. *)
Record modbus_stack_t := {
  protocol : modbus_protocol_e;
  read_seq : Z;
  write_seq : Z;
}.

Definition stack_buf_size : Z := 256.

Definition modbus_stack_create (p : modbus_protocol_e) : modbus_stack_t :=
  {| protocol := p; read_seq := 0; write_seq := 0 |}.

Definition modbus_stack_is_rtu (stack : modbus_stack_t) : bool :=
  bool_decide (protocol stack = MODBUS_PROTOCOL_RTU).

(** The plugin as the stack sees it. *)
Record stack_ops (Ctx Req : Type) := {
  send_fn : Ctx → list Z → Z * Ctx;
  (** slave, number of bytes, bytes ([NULL] is empty), error *)
  value_fn : Ctx → Z → Z → list Z → Z → Ctx;
  write_resp : Ctx → Req → Z → Ctx;
  check_header : Ctx → bool;
  (** [modbus_value_handle_test] *)
  value_test_fn : Ctx → Req → modbus_point_t → Z → list Z → Ctx;
}.
Arguments send_fn {_ _}.
Arguments value_fn {_ _}.
Arguments write_resp {_ _}.
Arguments check_header {_ _}.
Arguments value_test_fn {_ _}.

Definition is_read_function (f : Z) : bool :=
  (f =? MODBUS_READ_COIL) || (f =? MODBUS_READ_INPUT) || (f =? MODBUS_READ_HOLD_REG)
  || (f =? MODBUS_READ_INPUT_REG).
Definition is_addressed_write (f : Z) : bool :=
  (f =? MODBUS_WRITE_S_COIL) || (f =? MODBUS_WRITE_M_HOLD_REG) || (f =? MODBUS_WRITE_M_COIL).
Definition is_error_function (f : Z) : bool :=
  (f =? MODBUS_READ_COIL_ERR) || (f =? MODBUS_READ_INPUT_ERR) || (f =? MODBUS_READ_HOLD_REG_ERR)
  || (f =? MODBUS_READ_INPUT_REG_ERR) || (f =? MODBUS_WRITE_S_COIL_ERR)
  || (f =? MODBUS_WRITE_S_HOLD_REG_ERR) || (f =? MODBUS_WRITE_M_HOLD_REG_ERR)
  || (f =? MODBUS_WRITE_M_COIL_ERR).

Section stack.
Context {Ctx Req : Type} (ops : stack_ops Ctx Req).
Implicit Types (stack : modbus_stack_t) (ctx : Ctx).

(** Take [n] bytes off the buffer, a [uint16_t] argument. *)
Definition take_bytes (n : Z) (b : protocol_buf) : option (list Z * protocol_buf) :=
  '(p, b) ← neu_protocol_unpack_buf b (u16 n);
  Some (peek p (Z.to_nat (u16 n)) b, b).

(** The read branch of [modbus_stack_recv]: [None] returns -1. *)
Definition recv_values stack ctx (header : modbus_header) (code : modbus_code)
    (b : protocol_buf) : option (protocol_buf * Ctx) :=
  let '(ret, b, data) := modbus_data_unwrap b in
  if ret <=? 0 then None else
  let n := if is_tcp (protocol stack) && (data_n_byte data =? 0xff)
           then hdr_len header - sizeof_code - sizeof_data else data_n_byte data in
  '(bytes, b) ← take_bytes n b;
  Some (b, value_fn ops ctx (code_slave_id code) (u16 n) bytes 0).

(** The [switch (code.function)]: [inl] returns from the function. *)
Definition recv_function stack ctx (header : modbus_header) (code : modbus_code)
    (b : protocol_buf) : (Z * Ctx) + (protocol_buf * Ctx) :=
  let f := code_function code in
  if is_read_function f then
    match recv_values stack ctx header code b with
    | Some r => inr r
    | None => inl (-1, ctx)
    end
  else if is_addressed_write f then
    let '(ret, b, _) := modbus_address_unwrap b in
    if ret <=? 0 then inl (-1, ctx) else inr (b, ctx)
  else if is_error_function f then inl (MODBUS_DEVICE_ERR, ctx)
  else if f =? MODBUS_WRITE_S_HOLD_REG then inr (b, ctx)
  else inl (-1, ctx).

Definition modbus_stack_recv stack ctx (slave : Z) (b : protocol_buf) : Z * Ctx :=
  let '(ok, b, header) :=
    if is_tcp (protocol stack) then
      let '(ret, b, header) := modbus_header_unwrap b in
      if ret <=? 0 then (false, b, header)
      else (negb (check_header ops ctx && negb (hdr_seq header + 1 =? read_seq stack)
                  && negb (hdr_seq header + 1 =? write_seq stack)), b, header)
    else (true, b, zero_header) in
  if negb ok then (-1, ctx) else
  let '(ret, b, code) := modbus_code_unwrap b in
  if ret <=? 0 then (-1, ctx) else
  if negb (code_slave_id code =? slave) then (-1, ctx) else
  match recv_function stack ctx header code b with
  | inl r => r
  | inr (b, ctx) =>
      if is_tcp (protocol stack) then (neu_protocol_unpack_buf_used_size b, ctx)
      else let '(ret, b, _) := modbus_crc_unwrap b in
           if ret <=? 0 then (-1, ctx) else (neu_protocol_unpack_buf_used_size b, ctx)
  end.

(** [modbus_stack_recv_test]: as above for a single point; the trailing CRC is
    not unpacked and the length byte 0xff is special for both protocols. *)
Definition modbus_stack_recv_test stack ctx (req : Req) (point : modbus_point_t)
    (b : protocol_buf) : Z * Ctx :=
  let '(ok, b, header) :=
    if is_tcp (protocol stack) then
      let '(ret, b, header) := modbus_header_unwrap b in (negb (ret <=? 0), b, header)
    else (true, b, zero_header) in
  if negb ok then (-1, ctx) else
  let '(ret, b, code) := modbus_code_unwrap b in
  if ret <=? 0 then (-1, ctx) else
  if negb (code_slave_id code =? slave_id point) then (-1, ctx) else
  let f := code_function code in
  if is_read_function f then
    let '(ret, b, data) := modbus_data_unwrap b in
    if ret <=? 0 then (-1, ctx) else
    let n := if data_n_byte data =? 0xff
             then hdr_len header - sizeof_code - sizeof_data else data_n_byte data in
    match take_bytes n b with
    | None => (-1, ctx)
    | Some (bytes, b) =>
        let ctx := value_test_fn ops ctx req point (data_n_byte data) bytes in
        (neu_protocol_unpack_buf_used_size b, ctx)
    end
  else if is_addressed_write f then
    let '(ret, b, _) := modbus_address_unwrap b in
    if ret <=? 0 then (-1, ctx) else (neu_protocol_unpack_buf_used_size b, ctx)
  else if is_error_function f then (MODBUS_DEVICE_ERR, ctx)
  else if f =? MODBUS_WRITE_S_HOLD_REG then (neu_protocol_unpack_buf_used_size b, ctx)
  else (-1, ctx).

Definition read_function (a : modbus_area_e) : Z :=
  match a with
  | MODBUS_AREA_COIL => MODBUS_READ_COIL
  | MODBUS_AREA_INPUT => MODBUS_READ_INPUT
  | MODBUS_AREA_INPUT_REGISTER => MODBUS_READ_INPUT_REG
  | MODBUS_AREA_HOLD_REGISTER => MODBUS_READ_HOLD_REG
  end.

(** The data bytes added to [*response_size]. *)
Definition response_data (a : modbus_area_e) (n_reg : Z) : Z :=
  match a with
  | MODBUS_AREA_COIL | MODBUS_AREA_INPUT => n_reg / 8 + (if n_reg mod 8 >? 0 then 1 else 0)
  | MODBUS_AREA_INPUT_REGISTER | MODBUS_AREA_HOLD_REGISTER => n_reg * 2
  end.

(** The wrapping of a frame at its front: TCP header with a sequence number, or
    the CRC of the serial line. *)
Definition frame_end stack (seq : Z) (b : protocol_buf) : option protocol_buf :=
  if is_tcp (protocol stack) then modbus_header_wrap b seq else modbus_crc_set b.
Definition frame_begin stack (b : protocol_buf) : option protocol_buf :=
  if is_tcp (protocol stack) then Some b else modbus_crc_wrap b.
Definition framing_size stack : Z :=
  if is_tcp (protocol stack) then sizeof_header else 2.

Definition bump_read_seq stack : modbus_stack_t :=
  if is_tcp (protocol stack)
  then {| protocol := protocol stack; read_seq := u16 (read_seq stack + 1);
          write_seq := write_seq stack |} else stack.
Definition bump_write_seq stack : modbus_stack_t :=
  if is_tcp (protocol stack)
  then {| protocol := protocol stack; read_seq := read_seq stack;
          write_seq := u16 (write_seq stack + 1) |} else stack.

(** The request frame of a read, packed backwards into [buf\[16\]].  The buffer
    is static, but every byte of the frame is written. *)
Definition read_frame stack (slave : Z) (a : modbus_area_e) (start n_reg : Z)
    : option (list Z) :=
  b ← frame_begin stack (neu_protocol_pack_buf_init (replicate 16 0) 16);
  b ← modbus_address_wrap b start n_reg MODBUS_ACTION_DEFAULT;
  b ← modbus_code_wrap b slave (read_function a);
  b ← frame_end stack (read_seq stack) b;
  Some (peek (neu_protocol_pack_buf_get b) (Z.to_nat (neu_protocol_pack_buf_used_size b)) b).

(** The return value, [*response_size], the stack and the plugin; [None] is a
    failed [assert]. *)
Definition modbus_stack_read stack ctx (slave : Z) (a : modbus_area_e) (start n_reg : Z)
    (is_test : bool) : option (Z * Z * modbus_stack_t * Ctx) :=
  frame ← read_frame stack slave a start n_reg;
  let size := u16 (u16 (response_data a n_reg) + sizeof_code + sizeof_data
                   + framing_size stack) in
  let '(ret, ctx) := send_fn ops ctx frame in
  let ctx := if (ret <=? 0) && negb is_test
             then value_fn ops ctx 0 0 [] NEU_ERR_PLUGIN_DISCONNECTED else ctx in
  Some (ret, size, bump_read_seq stack, ctx).

(** The [switch (area)] of [modbus_stack_write]. *)
Definition write_body ctx (req : Req) (slave : Z) (a : modbus_area_e) (start n_reg : Z)
    (bytes : list Z) (n_byte : Z) (b : protocol_buf) : option (protocol_buf * Ctx) :=
  match a with
  | MODBUS_AREA_COIL =>
      if n_byte >? 1 then
        b ← modbus_data_wrap b ((n_byte + 7) / 8) bytes MODBUS_ACTION_DEFAULT;
        b ← modbus_address_wrap b start n_byte MODBUS_ACTION_DEFAULT;
        b ← modbus_code_wrap b slave MODBUS_WRITE_M_COIL;
        Some (b, ctx)
      else
        b ← modbus_address_wrap b start (if nth 0 bytes 0 >? 0 then 0xff00 else 0)
              MODBUS_ACTION_DEFAULT;
        b ← modbus_code_wrap b slave MODBUS_WRITE_S_COIL;
        Some (b, ctx)
  | MODBUS_AREA_HOLD_REGISTER =>
      b ← modbus_data_wrap b n_byte bytes MODBUS_ACTION_HOLD_REG_WRITE;
      b ← modbus_address_wrap b start n_reg MODBUS_ACTION_HOLD_REG_WRITE;
      b ← modbus_code_wrap b slave
            (if n_reg >? 1 then MODBUS_WRITE_M_HOLD_REG else MODBUS_WRITE_S_HOLD_REG);
      Some (b, ctx)
  | _ => Some (b, write_resp ops ctx req NEU_ERR_PLUGIN_TAG_NOT_ALLOW_WRITE)
  end.

Definition modbus_stack_write stack ctx (req : Req) (slave : Z) (a : modbus_area_e)
    (start n_reg : Z) (bytes : list Z) (n_byte response_size : Z) (response : bool)
    : option (Z * Z * modbus_stack_t * Ctx) :=
  b ← frame_begin stack
        (neu_protocol_pack_buf_init (replicate (Z.to_nat stack_buf_size) 0) stack_buf_size);
  '(b, ctx) ← write_body ctx req slave a start n_reg bytes n_byte b;
  b ← frame_end stack (write_seq stack) b;
  let size := u16 (response_size + sizeof_code + sizeof_address + framing_size stack) in
  let frame := peek (neu_protocol_pack_buf_get b) (Z.to_nat (neu_protocol_pack_buf_used_size b)) b in
  let '(ret, ctx) := send_fn ops ctx frame in
  let ctx := if response
             then write_resp ops ctx req
                    (if ret >? 0 then NEU_ERR_SUCCESS else NEU_ERR_PLUGIN_DISCONNECTED)
             else ctx in
  Some (ret, size, bump_write_seq stack, ctx).
End stack.

(** ** Frames *)

(** The buffer of size [sz] holds the frame [p]. *)
Definition holds (b : protocol_buf) (sz : Z) (p : list Z) : Prop :=
  buf_ok b ∧ size b = sz ∧ packed b = p.

Lemma holds_init n :
  Z.of_nat n < 65536 →
  holds (neu_protocol_pack_buf_init (replicate n 0) (Z.of_nat n)) (Z.of_nat n) [].
Proof.
  intros Hn. split_and!.
  - pose proof (buf_ok_pack_init (replicate n 0)) as H. rewrite length_replicate in H.
    apply H; [apply bytes_ok_replicate; lia|lia].
  - done.
  - pose proof (packed_init (replicate n 0)) as H. by rewrite length_replicate in H.
Qed.

Lemma holds_prepend f need bs b sz p :
  prepends f need bs → holds b sz p → need + Z.of_nat (length p) <= sz →
  ∃ b', f b = Some b' ∧ holds b' sz (bs p ++ p).
Proof.
  intros Hf (Hok & Hsz & Hp) Hfit. pose proof (length_packed b Hok) as Hl.
  destruct (Hf b Hok) as (b' & Hb' & Hok' & Hsz' & Hp'); [rewrite Hp in Hl; lia|].
  exists b'. split; [done|]. split_and!; [done|congruence|]. by rewrite Hp', Hp.
Qed.

Lemma holds_crc b sz frame :
  holds b sz (frame ++ [0; 0]) →
  ∃ b', modbus_crc_set b = Some b' ∧ holds b' sz (frame ++ le_store 2 (calcrc frame)).
Proof.
  intros (Hok & Hsz & Hp). destruct (crc_set_spec b frame Hok Hp) as (b' & Hb' & Hok' & Hsz' & Hp').
  exists b'. split; [done|]. split_and!; [done|congruence|done].
Qed.

Lemma holds_peek b sz p :
  holds b sz p →
  peek (neu_protocol_pack_buf_get b) (Z.to_nat (neu_protocol_pack_buf_used_size b)) b = p.
Proof.
  intros (Hok & _ & <-). rewrite used_size_packed by done. rewrite Nat2Z.id.
  unfold peek, mem_read, neu_protocol_pack_buf_get. fold (packed b). by apply take_ge.
Qed.

(** The protocol data unit between the two framings, and the frame around it. *)
Definition frame_of (proto : modbus_protocol_e) (seq : Z) (pdu : list Z) : list Z :=
  match proto with
  | MODBUS_PROTOCOL_TCP => be_store 2 seq ++ [0; 0] ++ be_store 2 (Z.of_nat (length pdu)) ++ pdu
  | MODBUS_PROTOCOL_RTU => pdu ++ le_store 2 (calcrc pdu)
  end.

(** Room that the framing needs around [pdu]. *)
Definition framing_room (proto : modbus_protocol_e) : Z :=
  match proto with MODBUS_PROTOCOL_TCP => 6 | MODBUS_PROTOCOL_RTU => 2 end.

(** Packing between [frame_begin] and [frame_end]: [trailer] is what
    [frame_begin] left at the end. *)
Definition trailer (proto : modbus_protocol_e) : list Z :=
  match proto with MODBUS_PROTOCOL_TCP => [] | MODBUS_PROTOCOL_RTU => [0; 0] end.

Lemma frame_begin_spec stack sz :
  0 <= sz < 65536 → framing_room (protocol stack) <= sz →
  ∃ b, frame_begin stack (neu_protocol_pack_buf_init (replicate (Z.to_nat sz) 0) sz) = Some b ∧
    holds b sz (trailer (protocol stack)).
Proof.
  intros Hsz Hroom. unfold frame_begin, framing_room in *.
  pose proof (holds_init (Z.to_nat sz)) as Hi. rewrite Z2Nat.id in Hi by lia.
  specialize (Hi ltac:(lia)). destruct (protocol stack); simpl.
  - by eexists.
  - apply (holds_prepend _ _ _ _ _ _ crc_wrap_spec Hi). simpl. lia.
Qed.

Lemma frame_end_spec stack seq b sz pdu :
  holds b sz (pdu ++ trailer (protocol stack)) →
  framing_room (protocol stack) + Z.of_nat (length pdu) <= sz →
  ∃ b', frame_end stack seq b = Some b' ∧ holds b' sz (frame_of (protocol stack) seq pdu).
Proof.
  intros Hb Hfit. unfold frame_end, frame_of, framing_room, trailer in *.
  destruct (protocol stack); simpl in *.
  - rewrite app_nil_r in Hb.
    destruct (holds_prepend _ _ _ b sz pdu (header_wrap_spec seq) Hb Hfit) as (b' & -> & Hb').
    exists b'. split; [done|]. by rewrite <-!app_assoc in Hb'.
  - by apply holds_crc.
Qed.

Lemma read_frame_spec stack slave a start n_reg :
  is_u8 slave →
  read_frame stack slave a start n_reg =
    Some (frame_of (protocol stack) (read_seq stack)
            ([slave; read_function a] ++ be_store 2 start ++ be_store 2 n_reg)).
Proof.
  intros Hs. unfold read_frame.
  destruct (frame_begin_spec stack 16) as (b0 & Hb0 & H0); [lia|by destruct (protocol stack)|].
  change (Z.to_nat 16) with 16%nat in Hb0. rewrite Hb0. cbn [mbind option_bind].
  assert (Hroom : Z.of_nat (length (trailer (protocol stack))) <= 2) by (by destruct (protocol stack)).
  destruct (holds_prepend _ _ _ _ _ _ (address_wrap_spec start n_reg _ (or_introl eq_refl)) H0)
    as (b1 & Hb1 & H1); [lia|].
  rewrite Hb1. cbn [mbind option_bind].
  assert (Hf : is_u8 (read_function a)) by (by destruct a).
  destruct (holds_prepend _ _ _ _ _ _ (code_wrap_spec slave (read_function a) Hs Hf) H1)
    as (b2 & Hb2 & H2); [rewrite !length_app, !length_be_store; lia|].
  rewrite Hb2. cbn [mbind option_bind].
  destruct (frame_end_spec stack (read_seq stack) b2 16
    ([slave; read_function a] ++ be_store 2 start ++ be_store 2 n_reg)) as (b3 & Hb3 & H3).
  - by rewrite <-!app_assoc in *.
  - rewrite !length_app, !length_be_store. by destruct (protocol stack).
  - rewrite Hb3. cbn [mbind option_bind]. by rewrite (holds_peek _ _ _ H3).
Qed.

(** The response a conforming device gives: function code, byte count, data. *)
Definition read_response (proto : modbus_protocol_e) (seq slave f : Z) (data : list Z) : list Z :=
  frame_of proto seq ([slave; f; Z.of_nat (length data)] ++ data).

Lemma length_frame_of proto seq pdu :
  Z.of_nat (length (frame_of proto seq pdu)) = framing_room proto + Z.of_nat (length pdu).
Proof.
  destruct proto; unfold frame_of, framing_room;
    rewrite !length_app, ?length_be_store, ?length_le_store; simpl; lia.
Qed.

Lemma stack_read_spec {Ctx Req} (ops : stack_ops Ctx Req) stack ctx slave a start n_reg is_test :
  is_u8 slave → 0 <= n_reg <= 32000 →
  ∃ size,
    modbus_stack_read ops stack ctx slave a start n_reg is_test =
      (let '(ret, ctx') := send_fn ops ctx
         (frame_of (protocol stack) (read_seq stack)
            ([slave; read_function a] ++ be_store 2 start ++ be_store 2 n_reg)) in
       Some (ret, size, bump_read_seq stack,
             if (ret <=? 0) && negb is_test
             then value_fn ops ctx' 0 0 [] NEU_ERR_PLUGIN_DISCONNECTED else ctx')) ∧
    ∀ seq data, Z.of_nat (length data) =
        (if is_bit_area a then (n_reg + 7) / 8 else 2 * n_reg) →
      size = Z.of_nat (length (read_response (protocol stack) seq slave (read_function a) data)).
Proof.
  intros Hs Hn. eexists. unfold modbus_stack_read. rewrite read_frame_spec by done.
  cbn [mbind option_bind]. split; [by destruct (send_fn _ _ _)|].
  intros seq data Hdata. unfold read_response. rewrite length_frame_of, length_app, Nat2Z.inj_add, Hdata.
  assert (Hrd : response_data a n_reg = if is_bit_area a then (n_reg + 7) / 8 else 2 * n_reg).
  { destruct a; simpl; try lia; destruct (Z.gtb_spec (n_reg mod 8) 0); zlia. }
  rewrite Hrd. unfold framing_size, framing_room, sizeof_code, sizeof_data, sizeof_header.
  destruct (is_bit_area a), (protocol stack); simpl; rewrite !u16_id; rewrite ?u16_id; zlia.
Qed.

(** A read request.  [modbus_stack_read] sends the Modbus application data
    unit of the read (slave, function code of the area, start address and
    quantity big endian; with the MBAP header carrying the current sequence
    number for TCP, with the CRC behind it for RTU), announces as response size
    exactly the length of a conforming answer with the data of [n_reg] registers
    or bits, advances the sequence number, and reports a failed transmission to
    the plugin unless it is a test read. *)
Theorem stack_read_correct {Ctx Req} (ops : stack_ops Ctx Req) stack ctx slave a start n_reg is_test :
  is_u8 slave → 0 <= n_reg <= 32000 →
  ∃ size,
    modbus_stack_read ops stack ctx slave a start n_reg is_test =
      (let '(ret, ctx') := send_fn ops ctx
         (frame_of (protocol stack) (read_seq stack)
            ([slave; read_function a] ++ be_store 2 start ++ be_store 2 n_reg)) in
       Some (ret, size, bump_read_seq stack,
             if (ret <=? 0) && negb is_test
             then value_fn ops ctx' 0 0 [] NEU_ERR_PLUGIN_DISCONNECTED else ctx')) ∧
    ∀ seq data, Z.of_nat (length data) =
        (if is_bit_area a then (n_reg + 7) / 8 else 2 * n_reg) →
      size = Z.of_nat (length (read_response (protocol stack) seq slave (read_function a) data)).
Proof. apply stack_read_spec. Qed.

(** A plugin that records what it is asked to do. *)
Inductive stack_event :=
  | Sent (frame : list Z)
  | Delivered (slave n_byte : Z) (bytes : list Z) (error : Z)
  | Responded (error : Z).

Definition recording_ops : stack_ops (list stack_event) unit := {|
  send_fn := λ ctx frame, (Z.of_nat (length frame), ctx ++ [Sent frame]);
  value_fn := λ ctx slave n bytes error, ctx ++ [Delivered slave n bytes error];
  write_resp := λ ctx _ error, ctx ++ [Responded error];
  check_header := λ _, true;
  value_test_fn := λ ctx _ p n bytes, ctx ++ [Delivered (slave_id p) n bytes 0];
|}.

Lemma stack_read_correct_witness :
  modbus_stack_read recording_ops (modbus_stack_create MODBUS_PROTOCOL_RTU) [] 1
      MODBUS_AREA_HOLD_REGISTER 0 10 false =
    Some (8, 25, modbus_stack_create MODBUS_PROTOCOL_RTU,
          [Sent [0x01; 0x03; 0x00; 0x00; 0x00; 0x0A; 0xC5; 0xCD]]) ∧
  25 = Z.of_nat (length (read_response MODBUS_PROTOCOL_RTU 0 1 3 (replicate 20 7))).
Proof.
  destruct (stack_read_correct recording_ops (modbus_stack_create MODBUS_PROTOCOL_RTU) [] 1
    MODBUS_AREA_HOLD_REGISTER 0 10 false) as (size & Heq & Hsize); [lia|lia|].
  split; [reflexivity|]. specialize (Hsize 0 (replicate 20 7) eq_refl).
  vm_compute in Heq. injection Heq as <-. exact Hsize.
Defined.

(** ** Receiving *)

Lemma is_read_function_area a : is_read_function (read_function a) = true.
Proof. by destruct a. Qed.

Lemma take_bytes_spec b d rest :
  buf_ok b → remaining b = d ++ rest → Z.of_nat (length d) < 65536 →
  ∃ b', take_bytes (Z.of_nat (length d)) b = Some (d, b') ∧ buf_ok b' ∧
    remaining b' = rest ∧ size b' = size b.
Proof.
  intros Hb Hr Hlen. unfold take_bytes. rewrite u16_id by lia.
  destruct (unpack_prefix b d rest _ Hb Hr eq_refl) as (b' & -> & Hb' & Hr' & Hsz & Hpk).
  exists b'. cbn [mbind option_bind]. split; [|done].
  rewrite (Hpk (offset b) 0%nat) by lia. rewrite drop_0, Nat2Z.id, take_ge by lia. done.
Qed.

(** The read branch on a conforming payload: the data goes to the plugin. *)
Lemma recv_values_spec {Ctx Req} (ops : stack_ops Ctx Req) stack ctx header code b data rest :
  buf_ok b → remaining b = [Z.of_nat (length data)] ++ data ++ rest →
  Z.of_nat (length data) < 256 →
  (is_tcp (protocol stack) = true → hdr_len header = 3 + Z.of_nat (length data)) →
  ∃ b', recv_values ops stack ctx header code b =
      Some (b', value_fn ops ctx (code_slave_id code) (Z.of_nat (length data)) data 0) ∧
    buf_ok b' ∧ remaining b' = rest ∧ size b' = size b.
Proof.
  intros Hb Hr Hlen Hhdr. unfold recv_values.
  destruct (data_unwrap_spec (Z.of_nat (length data)) b (data ++ rest) Hb Hr)
    as (b1 & -> & Hb1 & Hr1 & Hs1); [rewrite length_app; lia|]. cbn [data_n_byte]. simpl Z.leb.
  assert (Hn : (if is_tcp (protocol stack) && (Z.of_nat (length data) =? 0xff)
    then hdr_len header - sizeof_code - sizeof_data else Z.of_nat (length data)) =
    Z.of_nat (length data)).
  { unfold sizeof_code, sizeof_data. destruct (is_tcp _); simpl; [|done].
    specialize (Hhdr eq_refl). destruct (_ =? 0xff); lia. }
  rewrite Hn. destruct (take_bytes_spec b1 data rest Hb1 Hr1) as (b2 & -> & Hb2 & Hr2 & Hs2); [lia|].
  cbn [mbind option_bind]. exists b2. rewrite u16_id by lia. split_and!; [done|done|done|congruence].
Qed.

(** A frame with any two bytes in the place of the serial CRC. *)
Definition raw_frame (proto : modbus_protocol_e) (seq : Z) (crc pdu : list Z) : list Z :=
  match proto with
  | MODBUS_PROTOCOL_TCP => be_store 2 seq ++ [0; 0] ++ be_store 2 (Z.of_nat (length pdu)) ++ pdu
  | MODBUS_PROTOCOL_RTU => pdu ++ crc
  end.

Lemma frame_of_raw proto seq pdu :
  frame_of proto seq pdu = raw_frame proto seq (le_store 2 (calcrc pdu)) pdu.
Proof. by destruct proto. Qed.

(** The sequence number check of TCP. *)
Definition seq_accepted {Ctx Req} (ops : stack_ops Ctx Req) (ctx : Ctx) (stack : modbus_stack_t)
    (seq : Z) : bool :=
  negb (check_header ops ctx && negb (seq + 1 =? read_seq stack)
        && negb (seq + 1 =? write_seq stack)).

(** The part of [modbus_stack_recv] up to the function code, on a frame. *)
Lemma recv_front {Ctx Req} (ops : stack_ops Ctx Req) stack ctx slave seq crc f payload :
  let pdu := [slave; f] ++ payload in
  let frame := raw_frame (protocol stack) seq crc pdu in
  bytes_ok frame → Z.of_nat (length frame) < 65536 → is_u16 seq →
  (is_tcp (protocol stack) = true → seq_accepted ops ctx stack seq = true) →
  ∃ b header,
    modbus_stack_recv ops stack ctx slave
        (neu_protocol_unpack_buf_init frame (Z.of_nat (length frame))) =
      match recv_function ops stack ctx header {| code_slave_id := slave; code_function := f |} b with
      | inl r => r
      | inr (b, ctx) =>
          if is_tcp (protocol stack) then (neu_protocol_unpack_buf_used_size b, ctx)
          else let '(ret, b, _) := modbus_crc_unwrap b in
               if ret <=? 0 then (-1, ctx) else (neu_protocol_unpack_buf_used_size b, ctx)
      end ∧
    buf_ok b ∧ size b = Z.of_nat (length frame) ∧
    (is_tcp (protocol stack) = true → hdr_len header = Z.of_nat (length pdu)) ∧
    remaining b = payload ++ (if is_tcp (protocol stack) then [] else crc).
Proof.
  intros pdu frame Hok Hlen Hseq Hacc.
  pose proof (buf_ok_unpack_init frame Hok Hlen) as Hb. pose proof (remaining_init frame) as Hr.
  unfold modbus_stack_recv, frame, raw_frame in *. clear frame. destruct (protocol stack); simpl is_tcp in *.
  - destruct (header_unwrap_spec seq (Z.of_nat (length pdu)) Hseq
      ltac:(rewrite !length_app in Hlen; lia) _ pdu Hb) as (b1 & -> & Hb1 & Hr1 & Hs1).
    { rewrite Hr. by rewrite <-!app_assoc. }
    { lia. }
    change (6 <=? 0) with false. cbv beta iota. cbn [hdr_seq].
    fold (seq_accepted ops ctx stack seq). rewrite Hacc by done. cbv beta iota. cbn [negb].
    unfold pdu in Hr1.
    destruct (code_unwrap_spec slave f b1 payload Hb1 Hr1 I) as (b2 & -> & Hb2 & Hr2 & Hs2).
    change (2 <=? 0) with false. cbv beta iota. cbn [code_slave_id]. rewrite Z.eqb_refl. cbn [negb].
    eexists b2, _. split; [done|]. split_and!; [done|by rewrite Hs2, Hs1|done|].
    by rewrite app_nil_r.
  - cbn [negb]. unfold pdu in Hr. rewrite <-app_assoc in Hr.
    destruct (code_unwrap_spec slave f _ (payload ++ crc) Hb Hr I) as (b2 & -> & Hb2 & Hr2 & Hs2).
    change (2 <=? 0) with false. cbv beta iota. cbn [code_slave_id]. rewrite Z.eqb_refl. cbn [negb].
    eexists b2, _. split; [done|]. by split_and!.
Qed.

Lemma used_size_all b : buf_ok b → remaining b = [] → neu_protocol_unpack_buf_used_size b = size b.
Proof.
  intros Hb Hr. pose proof (length_remaining b Hb) as Hl. rewrite Hr in Hl. simpl in Hl.
  unfold neu_protocol_unpack_buf_used_size. lia.
Qed.

(** The tail of [modbus_stack_recv]: nothing for TCP, two bytes for RTU. *)
Lemma recv_tail {Ctx} (tcp : bool) (ctx : Ctx) b crc :
  buf_ok b → length crc = 2%nat → bytes_ok crc →
  remaining b = (if tcp then [] else crc) →
  (if tcp then (neu_protocol_unpack_buf_used_size b, ctx)
   else let '(ret, b, _) := modbus_crc_unwrap b in
        if ret <=? 0 then (-1, ctx) else (neu_protocol_unpack_buf_used_size b, ctx)) =
  (size b, ctx).
Proof.
  intros Hb Hlen Hok Hr. destruct tcp; [by rewrite used_size_all|].
  destruct (crc_unwrap_spec (le_load crc)
    ltac:(pose proof (le_load_range crc Hok) as H; by rewrite Hlen in H) b [] Hb)
    as (b' & -> & Hb' & Hr' & Hs'); [|done|].
  - by rewrite le_store_load, app_nil_r.
  - change (2 <=? 0) with false. cbv beta iota. by rewrite used_size_all, Hs'.
Qed.

Lemma recv_read_spec {Ctx Req} (ops : stack_ops Ctx Req) stack ctx slave a seq crc data :
  is_u8 slave → is_u16 seq → bytes_ok data → Z.of_nat (length data) < 256 →
  bytes_ok crc → length crc = 2%nat →
  (is_tcp (protocol stack) = true → seq_accepted ops ctx stack seq = true) →
  let frame := raw_frame (protocol stack) seq crc
                 ([slave; read_function a; Z.of_nat (length data)] ++ data) in
  modbus_stack_recv ops stack ctx slave
      (neu_protocol_unpack_buf_init frame (Z.of_nat (length frame))) =
    (Z.of_nat (length frame), value_fn ops ctx slave (Z.of_nat (length data)) data 0).
Proof.
  intros Hsl Hseq Hdata Hlen Hcrc Hcl Hacc frame.
  assert (Hf : is_u8 (read_function a)) by (by destruct a).
  assert (Hfok : bytes_ok frame).
  { unfold frame, raw_frame. destruct (protocol stack); rewrite ?bytes_ok_app; split_and?;
      auto with neuron; repeat constructor; lia. }
  assert (Hfl : Z.of_nat (length frame) < 65536).
  { unfold frame, raw_frame. destruct (protocol stack);
      rewrite ?length_app, ?length_be_store; simpl; lia. }
  destruct (recv_front ops stack ctx slave seq crc (read_function a)
    ([Z.of_nat (length data)] ++ data) Hfok Hfl Hseq Hacc)
    as (b & header & Heq & Hb & Hs & Hh & Hr).
  change ([slave; read_function a] ++ [Z.of_nat (length data)] ++ data)
    with ([slave; read_function a; Z.of_nat (length data)] ++ data) in Heq, Hs.
  fold frame in Heq, Hs. rewrite Heq. unfold recv_function. cbn [code_function].
  rewrite is_read_function_area, <-app_assoc in *.
  destruct (recv_values_spec ops stack ctx header
    {| code_slave_id := slave; code_function := read_function a |} b data _ Hb Hr)
    as (b' & -> & Hb' & Hr' & Hs'); [lia| |].
  { intros Ht. rewrite Hh by done. rewrite !length_app. simpl. lia. }
  rewrite (recv_tail _ _ b' crc) by done. cbn [code_slave_id]. by rewrite Hs', Hs.
Qed.

(** A read response is taken apart correctly.  On the frame of a conforming
    response from the addressed slave (of an accepted sequence number for TCP,
    with any two CRC bytes for RTU), [modbus_stack_recv] hands exactly the data
    bytes of the response to the plugin, once, and returns the size of the
    frame. *)
Theorem stack_recv_read {Ctx Req} (ops : stack_ops Ctx Req) stack ctx slave a seq crc data :
  is_u8 slave → is_u16 seq → bytes_ok data → Z.of_nat (length data) < 256 →
  bytes_ok crc → length crc = 2%nat →
  (is_tcp (protocol stack) = true → seq_accepted ops ctx stack seq = true) →
  let frame := raw_frame (protocol stack) seq crc
                 ([slave; read_function a; Z.of_nat (length data)] ++ data) in
  modbus_stack_recv ops stack ctx slave
      (neu_protocol_unpack_buf_init frame (Z.of_nat (length frame))) =
    (Z.of_nat (length frame), value_fn ops ctx slave (Z.of_nat (length data)) data 0).
Proof. apply recv_read_spec. Qed.

Definition example_stack : modbus_stack_t :=
  {| protocol := MODBUS_PROTOCOL_TCP; read_seq := 6; write_seq := 0 |}.

Lemma stack_recv_read_witness :
  modbus_stack_recv recording_ops example_stack [] 1
      (neu_protocol_unpack_buf_init [0; 5; 0; 0; 0; 7; 1; 3; 4; 10; 11; 12; 13] 13) =
    (13, [Delivered 1 4 [10; 11; 12; 13] 0]).
Proof.
  apply (stack_recv_read recording_ops example_stack [] 1 MODBUS_AREA_HOLD_REGISTER 5 [0; 0]
    [10; 11; 12; 13]); try done; simpl; try lia; repeat constructor; lia.
Defined.

(** A device exception is reported as such.  For every exception function
    code the stack returns [MODBUS_DEVICE_ERR] and delivers no value; a frame of
    another slave is refused with -1, again without delivering anything. *)
Theorem stack_recv_exception {Ctx Req} (ops : stack_ops Ctx Req) stack ctx slave seq crc f code :
  is_u8 slave → is_u16 seq → is_u8 f → is_u8 code → bytes_ok crc → length crc = 2%nat →
  is_error_function f = true →
  (is_tcp (protocol stack) = true → seq_accepted ops ctx stack seq = true) →
  let frame := raw_frame (protocol stack) seq crc [slave; f; code] in
  modbus_stack_recv ops stack ctx slave
      (neu_protocol_unpack_buf_init frame (Z.of_nat (length frame))) = (MODBUS_DEVICE_ERR, ctx).
Proof.
  intros Hsl Hseq Hf Hcode Hcrc Hcl Herr Hacc frame.
  assert (Hfok : bytes_ok frame).
  { unfold frame, raw_frame. destruct (protocol stack); rewrite ?bytes_ok_app; split_and?;
      auto with neuron; repeat constructor; lia. }
  assert (Hfl : Z.of_nat (length frame) < 65536).
  { unfold frame, raw_frame. destruct (protocol stack);
      rewrite ?length_app, ?length_be_store; simpl; lia. }
  destruct (recv_front ops stack ctx slave seq crc f [code] Hfok Hfl Hseq Hacc)
    as (b & header & Heq & _).
  change ([slave; f] ++ [code]) with [slave; f; code] in Heq. fold frame in Heq. rewrite Heq.
  unfold recv_function. cbn [code_function]. rewrite Herr.
  assert (is_read_function f = false ∧ is_addressed_write f = false) as [-> ->]; [|done].
  revert Herr. unfold is_error_function, is_read_function, is_addressed_write.
  rewrite !orb_true_iff, !Z.eqb_eq.
  intros [[[[[[[->| ->]| ->]| ->]| ->]| ->]| ->]| ->]; done.
Qed.

Lemma stack_recv_exception_witness :
  modbus_stack_recv recording_ops (modbus_stack_create MODBUS_PROTOCOL_RTU) [] 1
      (neu_protocol_unpack_buf_init [1; 0x83; 2; 0xC0; 0xF1] 5) = (MODBUS_DEVICE_ERR, []).
Proof.
  apply (stack_recv_exception recording_ops (modbus_stack_create MODBUS_PROTOCOL_RTU) [] 1 0
    [0xC0; 0xF1] 0x83 2); try done; try lia; repeat constructor; lia.
Defined.

(** ** Writing *)

(** The protocol data unit of a write to holding registers. *)
Definition write_pdu (slave start n_reg : Z) (data : list Z) : list Z :=
  if n_reg =? 1
  then [slave; MODBUS_WRITE_S_HOLD_REG] ++ be_store 2 start ++ data
  else [slave; MODBUS_WRITE_M_HOLD_REG] ++ be_store 2 start ++ be_store 2 n_reg ++
       [Z.of_nat (length data)] ++ data.

(** What the stack packs before the framing of a multi-register write. *)
Lemma write_body_registers {Ctx Req} (ops : stack_ops Ctx Req) ctx req slave start n_reg bytes n_byte
    b rest :
  is_u8 slave → 1 <= n_reg → n_byte = 2 * n_reg → n_byte < 256 →
  bytes_ok bytes → n_byte <= Z.of_nat (length bytes) →
  n_byte + 7 + Z.of_nat (length rest) <= 256 → holds b 256 rest →
  ∃ b', write_body ops ctx req slave MODBUS_AREA_HOLD_REGISTER start n_reg bytes n_byte b =
      Some (b', ctx) ∧
    holds b' 256 (write_pdu slave start n_reg (take (Z.to_nat n_byte) bytes) ++ rest).
Proof.
  intros Hsl Hreg Hnb Hlt Hok Hlen Hroom H0. unfold write_body.
  destruct (holds_prepend _ _ _ _ _ _ (data_wrap_spec n_byte bytes MODBUS_ACTION_HOLD_REG_WRITE
    ltac:(lia) Hok Hlen) H0) as (b1 & -> & H1); [lia|]. cbn [mbind option_bind].
  rewrite bool_decide_eq_false_2 in H1 by done. cbn [orb] in H1.
  assert (Hdata : Z.of_nat (length (take (Z.to_nat n_byte) bytes)) = n_byte)
    by (rewrite length_take; lia).
  unfold write_pdu. destruct (Z.eqb_spec n_reg 1) as [->|Hne].
  - destruct (Z.gtb_spec n_byte 2); [lia|].
    destruct (holds_prepend _ _ _ _ _ _ (address_wrap_single_spec start) H1) as (b2 & -> & Hp2);
      [rewrite !length_app; simpl; lia|]. cbn [mbind option_bind].
    change (1 >? 1) with false. cbv beta iota.
    destruct (holds_prepend _ _ _ _ _ _ (code_wrap_spec slave MODBUS_WRITE_S_HOLD_REG Hsl ltac:(done)) Hp2)
      as (b3 & -> & Hp3); [rewrite !length_app, length_be_store; simpl; lia|].
    exists b3. split; [done|]. by rewrite <-!app_assoc in *.
  - destruct (Z.gtb_spec n_byte 2); [|lia].
    destruct (holds_prepend _ _ _ _ _ _ (address_wrap_spec start n_reg
      MODBUS_ACTION_HOLD_REG_WRITE (or_intror Hne)) H1)
      as (b2 & -> & Hp2); [rewrite !length_app; simpl; lia|]. cbn [mbind option_bind].
    destruct (Z.gtb_spec n_reg 1); [|lia].
    destruct (holds_prepend _ _ _ _ _ _ (code_wrap_spec slave MODBUS_WRITE_M_HOLD_REG Hsl ltac:(done)) Hp2)
      as (b3 & -> & Hp3); [rewrite !length_app, !length_be_store; simpl; lia|].
    exists b3. split; [done|]. rewrite Hdata. by rewrite <-!app_assoc in *.
Qed.

Lemma length_write_pdu slave start n_reg data :
  Z.of_nat (length (write_pdu slave start n_reg data)) =
    Z.of_nat (length data) + (if n_reg =? 1 then 4 else 7).
Proof.
  unfold write_pdu. destruct (n_reg =? 1);
    rewrite !length_app, !length_be_store; simpl; lia.
Qed.

(** The frame of a write that fits the buffer. *)
Lemma stack_write_frame {Ctx Req} (ops : stack_ops Ctx Req) stack ctx req slave start n_reg
    bytes n_byte response_size response :
  is_u8 slave → 1 <= n_reg → n_byte = 2 * n_reg → n_byte < 256 →
  bytes_ok bytes → n_byte <= Z.of_nat (length bytes) →
  n_byte + 7 + framing_room (protocol stack) <= stack_buf_size →
  let pdu := write_pdu slave start n_reg (take (Z.to_nat n_byte) bytes) in
  ∃ size, modbus_stack_write ops stack ctx req slave MODBUS_AREA_HOLD_REGISTER start n_reg
      bytes n_byte response_size response =
    let '(ret, ctx') := send_fn ops ctx (frame_of (protocol stack) (write_seq stack) pdu) in
    Some (ret, size, bump_write_seq stack,
          if response then write_resp ops ctx' req
            (if ret >? 0 then NEU_ERR_SUCCESS else NEU_ERR_PLUGIN_DISCONNECTED) else ctx').
Proof.
  intros Hsl Hreg Hnb Hlt Hok Hlen Hroom pdu. eexists. unfold modbus_stack_write, stack_buf_size in *.
  destruct (frame_begin_spec stack 256) as (b0 & -> & H0); [lia|lia|]. cbn [mbind option_bind].
  assert (Htr : Z.of_nat (length (trailer (protocol stack))) <= framing_room (protocol stack))
    by (by destruct (protocol stack)).
  destruct (write_body_registers ops ctx req slave start n_reg bytes n_byte b0
    (trailer (protocol stack)) Hsl Hreg Hnb Hlt Hok Hlen ltac:(lia) H0) as (b1 & -> & H1). cbn [mbind option_bind].
  destruct (frame_end_spec stack (write_seq stack) _ _ _ H1) as (b2 & -> & H2).
  { rewrite length_write_pdu, length_take. destruct (n_reg =? 1); lia. }
  cbn [mbind option_bind]. rewrite (holds_peek _ _ _ H2). fold pdu. by destruct (send_fn _ _ _).
Qed.

(** A write to holding registers.  As long as the frame fits the 256-byte
    buffer, [modbus_stack_write] sends the write request of the protocol
    (function 6 with the value for one register, function 16 with quantity,
    byte count and data for several), advances the write sequence number, and
    answers the request with the outcome of the transmission when asked to. *)
Theorem stack_write_registers {Ctx Req} (ops : stack_ops Ctx Req) stack ctx req slave start n_reg
    bytes n_byte response_size response :
  is_u8 slave → 1 <= n_reg → n_byte = 2 * n_reg → n_byte < 256 →
  bytes_ok bytes → n_byte <= Z.of_nat (length bytes) →
  n_byte + 7 + framing_room (protocol stack) <= stack_buf_size →
  let pdu := write_pdu slave start n_reg (take (Z.to_nat n_byte) bytes) in
  ∃ size, modbus_stack_write ops stack ctx req slave MODBUS_AREA_HOLD_REGISTER start n_reg
      bytes n_byte response_size response =
    let '(ret, ctx') := send_fn ops ctx (frame_of (protocol stack) (write_seq stack) pdu) in
    Some (ret, size, bump_write_seq stack,
          if response then write_resp ops ctx' req
            (if ret >? 0 then NEU_ERR_SUCCESS else NEU_ERR_PLUGIN_DISCONNECTED) else ctx').
Proof. apply stack_write_frame. Qed.

Lemma stack_write_registers_witness :
  modbus_stack_write recording_ops example_stack [] () 1 MODBUS_AREA_HOLD_REGISTER 16 2
      [0xDE; 0xAD; 0xBE; 0xEF] 4 0 true =
    Some (17, 12, {| protocol := MODBUS_PROTOCOL_TCP; read_seq := 6; write_seq := 1 |},
      [Sent [0; 0; 0; 0; 0; 11; 1; 16; 0; 16; 0; 2; 4; 0xDE; 0xAD; 0xBE; 0xEF];
       Responded NEU_ERR_SUCCESS]) ∧
  ∃ size, modbus_stack_write recording_ops example_stack [] () 1 MODBUS_AREA_HOLD_REGISTER 16 2
      [0xDE; 0xAD; 0xBE; 0xEF] 4 0 true =
    let '(ret, ctx') := send_fn recording_ops [] (frame_of MODBUS_PROTOCOL_TCP 0
        (write_pdu 1 16 2 (take 4 [0xDE; 0xAD; 0xBE; 0xEF]))) in
    Some (ret, size, bump_write_seq example_stack,
          write_resp recording_ops ctx' ()
            (if ret >? 0 then NEU_ERR_SUCCESS else NEU_ERR_PLUGIN_DISCONNECTED)).
Proof.
  split; [reflexivity|].
  apply (stack_write_registers recording_ops example_stack [] () 1 16 2 [0xDE; 0xAD; 0xBE; 0xEF] 4 0 true);
    try done; simpl; try lia; repeat constructor; lia.
Defined.

(** The frame buffer is too small for the largest batches.  The planner
    joins up to 124 registers (248 bytes) into one TCP write, but from 122
    registers on the frame needs more than the 256 bytes of the buffer and the
    [assert] in [modbus_header_wrap] fails. *)
Theorem stack_write_overflow {Ctx Req} (ops : stack_ops Ctx Req) stack ctx req slave start n_reg
    bytes response_size response :
  protocol stack = MODBUS_PROTOCOL_TCP → is_u8 slave → 122 <= n_reg <= 124 →
  bytes_ok bytes → 2 * n_reg <= Z.of_nat (length bytes) →
  modbus_stack_write ops stack ctx req slave MODBUS_AREA_HOLD_REGISTER start n_reg
      bytes (2 * n_reg) response_size response = None.
Proof.
  intros Htcp Hsl Hreg Hok Hlen. unfold modbus_stack_write, stack_buf_size in *.
  destruct (frame_begin_spec stack 256) as (b0 & -> & H0); [lia|by rewrite Htcp|].
  cbn [mbind option_bind]. rewrite Htcp in H0.
  destruct (write_body_registers ops ctx req slave start n_reg bytes (2 * n_reg) b0
    (trailer MODBUS_PROTOCOL_TCP) Hsl ltac:(lia)
    eq_refl ltac:(lia) Hok Hlen ltac:(simpl; lia) H0) as (b1 & -> & Hb1 & Hs1 & Hp1).
  cbn [mbind option_bind]. unfold frame_end. rewrite Htcp. cbn [is_tcp].
  pose proof (length_packed b1 Hb1) as Hl. rewrite Hp1 in Hl. simpl trailer in Hl.
  rewrite app_nil_r, length_write_pdu, length_take in Hl.
  destruct (Z.eqb_spec n_reg 1); [lia|].
  unfold modbus_header_wrap, neu_protocol_pack_buf_unused_size, sizeof_header.
  by destruct (Z.ltb_spec (offset b1) 6); [|lia].
Qed.

Lemma stack_write_overflow_witness :
  modbus_stack_write recording_ops example_stack [] () 1 MODBUS_AREA_HOLD_REGISTER 0 122
      (replicate 248 7) (2 * 122) 0 false = None.
Proof.
  apply (stack_write_overflow recording_ops example_stack [] () 1 0 122 (replicate 248 7) 0 false);
    [done|lia|lia| |vm_compute; congruence].
  apply bytes_ok_replicate. lia.
Defined.

(** A frame of a sequence number that is not accepted is refused. *)
Lemma stack_recv_refused {Ctx Req} (ops : stack_ops Ctx Req) stack ctx slave seq pdu :
  let frame := frame_of MODBUS_PROTOCOL_TCP seq pdu in
  protocol stack = MODBUS_PROTOCOL_TCP → bytes_ok pdu → Z.of_nat (length frame) < 65536 →
  is_u16 seq → seq_accepted ops ctx stack seq = false →
  modbus_stack_recv ops stack ctx slave
      (neu_protocol_unpack_buf_init frame (Z.of_nat (length frame))) = (-1, ctx).
Proof.
  intros frame Hp Hok Hlen Hseq Hacc.
  assert (Hfok : bytes_ok frame).
  { unfold frame, frame_of. rewrite !bytes_ok_app. split_and!; auto with neuron.
    repeat constructor; lia. }
  pose proof (buf_ok_unpack_init frame Hfok Hlen) as Hb. pose proof (remaining_init frame) as Hr.
  assert (is_u16 (Z.of_nat (length pdu))).
  { unfold frame in Hlen. rewrite length_frame_of in Hlen. simpl in Hlen. lia. }
  unfold modbus_stack_recv. rewrite Hp. cbn [is_tcp].
  destruct (header_unwrap_spec seq (Z.of_nat (length pdu)) Hseq ltac:(lia) _ pdu Hb)
    as (b1 & -> & _); [by rewrite Hr; unfold frame, frame_of; rewrite <-!app_assoc|lia|].
  change (6 <=? 0) with false. cbv beta iota. cbn [hdr_seq].
  fold (seq_accepted ops ctx stack seq). by rewrite Hacc.
Qed.

(** The sequence number check fails at the wrap-around.  With header checks
    enabled, every response to the TCP request with sequence number 65535 is
    refused: the stack compares 65536 with its own number, which has wrapped to
    0 when the request was sent. *)
Theorem stack_recv_seq_wrap {Ctx Req} (ops : stack_ops Ctx Req) (ctx : Ctx) stack slave pdu :
  check_header ops ctx = true → read_seq stack = 65535 → protocol stack = MODBUS_PROTOCOL_TCP →
  is_u16 (write_seq stack) → bytes_ok pdu → Z.of_nat (length pdu) < 65530 →
  let frame := frame_of MODBUS_PROTOCOL_TCP (read_seq stack) pdu in
  modbus_stack_recv ops (bump_read_seq stack) ctx slave
      (neu_protocol_unpack_buf_init frame (Z.of_nat (length frame))) = (-1, ctx).
Proof.
  intros Hc Hs Hp Hw Hok Hlen frame. apply stack_recv_refused.
  - unfold bump_read_seq. by rewrite Hp.
  - done.
  - rewrite length_frame_of. simpl. lia.
  - lia.
  - unfold seq_accepted, bump_read_seq. rewrite Hc, Hp, Hs. cbn.
    change (65535 + 1 =? u16 (65535 + 1)) with false.
    destruct (Z.eqb_spec (65535 + 1) (write_seq stack)); [lia|done].
Qed.

Lemma stack_recv_seq_wrap_witness :
  modbus_stack_recv recording_ops
      (bump_read_seq {| protocol := MODBUS_PROTOCOL_TCP; read_seq := 65535; write_seq := 3 |}) [] 1
      (neu_protocol_unpack_buf_init [255; 255; 0; 0; 0; 5; 1; 3; 2; 0; 7] 11) = (-1, []).
Proof.
  apply (stack_recv_seq_wrap recording_ops []
    {| protocol := MODBUS_PROTOCOL_TCP; read_seq := 65535; write_seq := 3 |} 1 [1; 3; 2; 0; 7]);
    try done; simpl; try lia; repeat constructor; lia.
Defined.

(** ** Requests that always fit

    A packing step needs room in front of the offset and nothing else, so the
    frames below are built whatever the bytes are. *)

(** Packing at most [n] bytes succeeds when there is room for them. *)
Definition packs (n : Z) (f : protocol_buf → option protocol_buf) : Prop :=
  ∀ b, n <= offset b <= size b → size b < 65536 →
    ∃ b', f b = Some b' ∧ size b' = size b ∧ offset b - n <= offset b' <= offset b ∧ 0 <= offset b'.

Lemma pack_buf_room b n :
  0 <= n <= offset b → offset b < 65536 →
  neu_protocol_pack_buf b n = Some (offset b - n, set_offset (offset b - n) b).
Proof.
  intros Hn Hb. unfold neu_protocol_pack_buf. destruct (Z.ltb_spec (offset b) n); [lia|].
  simpl. by rewrite u16_id by lia.
Qed.

Ltac pack_step :=
  match goal with |- context [?x <? ?y] => destruct (Z.ltb_spec x y);
    [unfold neu_protocol_pack_buf_unused_size in *; simpl in *; lia|] end;
  rewrite pack_buf_room by (simpl; unfold neu_protocol_pack_buf_unused_size in *; lia);
  cbn [mbind option_bind].

Lemma code_wrap_packs slave f : packs sizeof_code (λ b, modbus_code_wrap b slave f).
Proof.
  intros b Hb Hs. unfold modbus_code_wrap, sizeof_code in *. pack_step.
  eexists. split; [done|]. simpl. lia.
Qed.

Lemma address_wrap_packs start n action :
  packs sizeof_address (λ b, modbus_address_wrap b start n action).
Proof.
  intros b Hb Hs. unfold modbus_address_wrap, sizeof_address in *.
  destruct (bool_decide _ && _); pack_step; (eexists; split; [done|]; simpl; lia).
Qed.

Lemma data_wrap_packs n bytes action :
  0 <= n → packs (sizeof_data + n) (λ b, modbus_data_wrap b n bytes action).
Proof.
  intros Hn b Hb Hs. unfold modbus_data_wrap, sizeof_data in *. pack_step.
  destruct (_ || _); [|eexists; split; [done|]; simpl; lia].
  rewrite pack_buf_room by (simpl; lia). cbn [mbind option_bind].
  eexists. split; [done|]. simpl. lia.
Qed.

Lemma packs_bind n m f g :
  0 <= n → packs n f → packs m g → packs (n + m) (λ b, b ← f b; g b).
Proof.
  intros Hn Hf Hg b Hb Hs.
  destruct (decide (0 <= m)) as [Hm|Hm].
  - destruct (Hf b) as (b1 & -> & Hs1 & Ho1 & Hp1); [lia|done|]. cbn [mbind option_bind].
    destruct (Hg b1) as (b2 & -> & Hs2 & Ho2 & Hp2); [lia|lia|]. exists b2. split; [done|]. lia.
  - destruct (Hg b) as (b2 & _ & _ & Ho2 & _); [lia|done|]. lia.
Qed.

Lemma header_wrap_packs seq : packs sizeof_header (λ b, modbus_header_wrap b seq).
Proof.
  intros b Hb Hs. unfold modbus_header_wrap, sizeof_header in *. pack_step.
  eexists. split; [done|]. simpl. lia.
Qed.

Lemma crc_wrap_packs : packs sizeof_crc modbus_crc_wrap.
Proof.
  intros b Hb Hs. unfold modbus_crc_wrap, sizeof_crc in *. pack_step.
  eexists. split; [done|]. simpl. lia.
Qed.

Lemma crc_set_room b :
  0 <= offset b <= size b - 2 → size b < 65536 → is_Some (modbus_crc_set b).
Proof.
  intros Hb Hs. unfold modbus_crc_set, neu_protocol_pack_buf_used_size, neu_protocol_pack_buf_set.
  rewrite (u16_id (size b - offset b)) by lia. rewrite u16_id by lia.
  destruct (Z.gtb_spec (offset b + (size b - offset b - 2) + 2 - 1) (size b)); [lia|].
  by eexists.
Qed.

(** A body of at most [n] bytes leaves room for the framing on both sides. *)
Lemma framing_total stack seq sz n (body : protocol_buf → option protocol_buf) :
  2 <= n → n + sizeof_header <= sz < 65536 → packs n body →
  is_Some (b ← frame_begin stack (neu_protocol_pack_buf_init (replicate (Z.to_nat sz) 0) sz);
           b ← body b; frame_end stack seq b).
Proof.
  unfold sizeof_header. intros Hn Hsz Hbody. unfold frame_begin, frame_end.
  destruct (is_tcp (protocol stack)); cbn [mbind option_bind].
  - destruct (Hbody (neu_protocol_pack_buf_init (replicate (Z.to_nat sz) 0) sz))
      as (b1 & -> & Hs1 & Ho1 & _); [simpl; lia|simpl; lia|]. cbn [mbind option_bind]. simpl in *.
    destruct (header_wrap_packs seq b1) as (b2 & -> & _); [unfold sizeof_header; lia|lia|by eexists].
  - destruct (crc_wrap_packs (neu_protocol_pack_buf_init (replicate (Z.to_nat sz) 0) sz))
      as (b0 & Hb0 & Hs0 & Ho0 & _); [unfold sizeof_crc; simpl; lia|simpl; lia|].
    assert (Hoff : offset b0 = sz - 2).
    { revert Hb0. unfold modbus_crc_wrap, sizeof_crc.
      pack_step. intros [= <-]. done. }
    rewrite Hb0. cbn [mbind option_bind]. simpl in *.
    destruct (Hbody b0) as (b1 & -> & Hs1 & Ho1 & Hp1); [lia|lia|]. cbn [mbind option_bind].
    apply crc_set_room; lia.
Qed.

Lemma read_frame_total stack slave a start n_reg :
  is_Some (read_frame stack slave a start n_reg).
Proof.
  destruct (framing_total stack (read_seq stack) 16 (sizeof_address + sizeof_code)
    (λ b, b ← modbus_address_wrap b start n_reg MODBUS_ACTION_DEFAULT;
          modbus_code_wrap b slave (read_function a))) as [b Hb];
    [unfold sizeof_address, sizeof_code; lia|done| |].
  { apply packs_bind; [done|apply address_wrap_packs|apply code_wrap_packs]. }
  unfold read_frame. change (Z.to_nat 16) with 16%nat in Hb.
  apply bind_Some in Hb as (b0 & -> & Hb). apply bind_Some in Hb as (b1 & Hb1 & Hb).
  apply bind_Some in Hb1 as (b2 & Hb2 & Hb1). cbn [mbind option_bind].
  rewrite Hb2. cbn [mbind option_bind]. rewrite Hb1. cbn [mbind option_bind].
  rewrite Hb. by eexists.
Qed.

Lemma stack_read_total {Ctx Req} (ops : stack_ops Ctx Req) stack ctx slave a start n_reg is_test :
  is_Some (modbus_stack_read ops stack ctx slave a start n_reg is_test).
Proof.
  unfold modbus_stack_read. destruct (read_frame_total stack slave a start n_reg) as [f ->].
  cbn [mbind option_bind]. destruct (send_fn ops ctx f). by eexists.
Qed.

(** The frame of a write of at most 243 bytes fits the buffer. *)
Lemma write_body_packs {Ctx Req} (ops : stack_ops Ctx Req) ctx req slave a start n_reg bytes n_byte :
  0 <= n_byte → packs (n_byte + 7)
    (λ b, fst <$> write_body ops ctx req slave a start n_reg bytes n_byte b).
Proof.
  intros Hn b Hb Hs. pose proof Z.div_le_upper_bound (n_byte + 7) 8 (n_byte + 1) ltac:(lia) as Hdiv.
  pose proof (Z.div_pos (n_byte + 7) 8 ltac:(lia) ltac:(lia)).
  assert (Hlift : ∀ n f, 0 <= n <= n_byte + 7 → packs n f →
    ∃ b', fst <$> (b ← f b; Some (b, ctx)) = Some b' ∧ size b' = size b ∧
      offset b - (n_byte + 7) <= offset b' <= offset b ∧ 0 <= offset b').
  { intros n f Hle Hf. destruct (Hf b) as (b' & -> & ? & ? & ?); [lia|lia|].
    exists b'. split; [done|]. lia. }
  unfold write_body. destruct a; [destruct (Z.gtb_spec n_byte 1)| | |].
  - destruct (Hlift (sizeof_data + (n_byte + 7) / 8 + (sizeof_address + sizeof_code))
      (λ b, b ← modbus_data_wrap b ((n_byte + 7) / 8) bytes MODBUS_ACTION_DEFAULT;
            b ← modbus_address_wrap b start n_byte MODBUS_ACTION_DEFAULT;
            modbus_code_wrap b slave MODBUS_WRITE_M_COIL)) as (b' & Hb' & Hrest).
    { unfold sizeof_data, sizeof_address, sizeof_code. zlia. }
    { repeat apply packs_bind; try (unfold sizeof_data, sizeof_address; lia);
        [by apply data_wrap_packs|apply address_wrap_packs|apply code_wrap_packs]. }
    exists b'. split; [|done]. rewrite <-Hb'.
    by destruct (modbus_data_wrap _ _ _ _) as [b1|]; cbn; [destruct (modbus_address_wrap b1 _ _ _)|].
  - destruct (Hlift (sizeof_address + sizeof_code)
      (λ b, b ← modbus_address_wrap b start (if nth 0 bytes 0 >? 0 then 0xff00 else 0)
                  MODBUS_ACTION_DEFAULT;
            modbus_code_wrap b slave MODBUS_WRITE_S_COIL)) as (b' & Hb' & Hrest).
    { unfold sizeof_address, sizeof_code. lia. }
    { apply packs_bind; [done|apply address_wrap_packs|apply code_wrap_packs]. }
    exists b'. split; [|done]. rewrite <-Hb'. by destruct (modbus_address_wrap b _ _ _).
  - simpl. exists b. split; [done|]. lia.
  - simpl. exists b. split; [done|]. lia.
  - destruct (Hlift (sizeof_data + n_byte + (sizeof_address + sizeof_code))
      (λ b, b ← modbus_data_wrap b n_byte bytes MODBUS_ACTION_HOLD_REG_WRITE;
            b ← modbus_address_wrap b start n_reg MODBUS_ACTION_HOLD_REG_WRITE;
            modbus_code_wrap b slave (if n_reg >? 1 then MODBUS_WRITE_M_HOLD_REG
                                      else MODBUS_WRITE_S_HOLD_REG))) as (b' & Hb' & Hrest).
    { unfold sizeof_data, sizeof_address, sizeof_code. lia. }
    { repeat apply packs_bind; try (unfold sizeof_data, sizeof_address; lia);
        [by apply data_wrap_packs|apply address_wrap_packs|apply code_wrap_packs]. }
    exists b'. split; [|done]. rewrite <-Hb'.
    by destruct (modbus_data_wrap _ _ _ _) as [b1|]; cbn; [destruct (modbus_address_wrap b1 _ _ _)|].
Qed.

Lemma stack_write_total {Ctx Req} (ops : stack_ops Ctx Req) stack ctx req slave a start n_reg bytes
    n_byte response_size response :
  0 <= n_byte <= 243 →
  is_Some (modbus_stack_write ops stack ctx req slave a start n_reg bytes n_byte response_size response).
Proof.
  intros Hn. unfold modbus_stack_write, stack_buf_size.
  destruct (framing_total stack (write_seq stack) 256 (n_byte + 7)
    (λ b, fst <$> write_body ops ctx req slave a start n_reg bytes n_byte b)) as [b Hb];
    [lia|unfold sizeof_header; lia|apply write_body_packs; lia|].
  apply bind_Some in Hb as (b0 & -> & Hb). apply bind_Some in Hb as (b1 & Hb1 & Hb).
  apply fmap_Some in Hb1 as ([b1' ctx'] & Hb1 & ->). cbn [mbind option_bind]. rewrite Hb1.
  cbn [mbind option_bind fst] in *. rewrite Hb. cbn [mbind option_bind].
  destruct (send_fn ops ctx' _). by eexists.
Qed.
