(* ===== verification/ModbusValue.v ===== *)
(** * Modbus values: from response bytes to tag values and back

    The conversions of plugins/modbus/modbus_req.c: [modbus_value_handle] cuts
    the value of every tag out of the data of a response and brings it into host
    order; [convert_value] does the reverse for a write; [modbus_value_handle_test]
    serves the single-tag test read. *)

From S2P Require Import Prelude NeuTypes Tag Modbus ModbusPoint ModbusPlan.

(** [neu_dvalue_t]: the type tag and the value union; [precision] and
    [attrs], which the plugin leaves 0, are left out. *)
Record neu_dvalue_t := { dvalue_type : option neu_type_e; dvalue_value : neu_value_u }.

(** An error value: [value.i32] carries the code. *)
Definition error_dvalue (error : Z) : neu_dvalue_t :=
  {| dvalue_type := Some NEU_TYPE_ERROR; dvalue_value := set_u32 error value_zero |}.

(** [strlen] of [value.str] *)
Fixpoint strlen (v : list Z) : nat :=
  match v with
  | [] => O
  | b :: v' => if b =? 0 then O else S (strlen v')
  end.

(** ** Reading *)

(** The first [switch]: copy the tag's registers, or its bit, into a zeroed
    value.  [None]: the [assert] of a bit index out of range. *)
Definition extract_value (cmd_start n_byte : Z) (bytes : list Z) (p : modbus_point_t)
    : option neu_value_u :=
  match area p with
  | MODBUS_AREA_HOLD_REGISTER | MODBUS_AREA_INPUT_REGISTER =>
      if n_byte >=? (start_address p - cmd_start) * 2 + n_register p * 2 then
        let off := Z.to_nat ((start_address p - cmd_start) * 2) in
        let n := Z.to_nat (n_register p * 2) in
        Some (mem_write 256 [u8 (n_register p * 2)]
               (mem_write 0 (mem_read off n bytes) value_zero))
      else Some value_zero
  | MODBUS_AREA_COIL | MODBUS_AREA_INPUT =>
      let off := u16 (start_address p - cmd_start) in
      if n_byte >? off / 8 then
        b ← neu_value8_get_bit (nth (Z.to_nat (off / 8)) bytes 0) (off mod 8);
        Some (set_u8 b value_zero)
      else Some value_zero
  end.

(** The second [switch]: host byte order and string layout by type. *)
Definition convert_read (endianess : modbus_endianess) (endianess_64 : modbus_endianess_64)
    (p : modbus_point_t) (v : neu_value_u) : option neu_value_u :=
  match point_type p with
  | Some (NEU_TYPE_UINT16 | NEU_TYPE_INT16) => Some (set_u16 (ntohs (val_u16 v)) v)
  | Some (NEU_TYPE_FLOAT | NEU_TYPE_INT32 | NEU_TYPE_UINT32) =>
      let v := if opt_value_default (option_ p) then modbus_convert_endianess v endianess else v in
      Some (set_u32 (ntohl (val_u32 v)) v)
  | Some (NEU_TYPE_DOUBLE | NEU_TYPE_INT64 | NEU_TYPE_UINT64) =>
      let v := if opt_value_default (option_ p)
               then modbus_convert_endianess_64 v endianess_64 else v in
      Some (set_u64 (neu_ntohll (val_u64 v)) v)
  | Some NEU_TYPE_BIT =>
      match area p with
      | MODBUS_AREA_HOLD_REGISTER | MODBUS_AREA_INPUT_REGISTER =>
          b ← neu_value16_get_bit (htons (val_u16 v)) (opt_bit (option_ p));
          Some (set_u8 b value_zero)
      | _ => Some v
      end
  | Some NEU_TYPE_STRING =>
      let v := if opt_string_type (option_ p) =? NEU_DATATAG_STRING_TYPE_L
               then neu_datatag_string_ltoh v (strlen v) else v in
      Some (if neu_datatag_string_is_utf8 v (strlen v) then v
            else mem_write 0 [63; 0] v)
  | _ => Some v
  end.

(** The value of one tag of a command. *)
Definition point_value (endianess : modbus_endianess) (endianess_64 : modbus_endianess_64)
    (cmd : modbus_read_cmd_t) (slave n_byte : Z) (bytes : list Z) (p : modbus_point_t)
    : option neu_dvalue_t :=
  if (start_address p + n_register p >? rc_start_address cmd + rc_n_register cmd)
     || negb (slave =? slave_id p)
  then Some (error_dvalue NEU_ERR_PLUGIN_READ_FAILURE)
  else
    v ← extract_value (rc_start_address cmd) n_byte bytes p;
    v ← convert_read endianess endianess_64 p v;
    Some {| dvalue_type := point_type p; dvalue_value := v |}.

(** [modbus_value_handle]: the [driver.update] calls it makes, in order; the tag
    name is [NULL] for the whole group. *)
Record tag_update := { up_group : string; up_tag : option string; up_value : neu_dvalue_t }.

Definition modbus_value_handle (endianess : modbus_endianess) (endianess_64 : modbus_endianess_64)
    (group : string) (cmd : modbus_read_cmd_t) (slave n_byte : Z) (bytes : list Z) (error : Z)
    : option (list tag_update) :=
  if error =? NEU_ERR_PLUGIN_DISCONNECTED then
    Some [{| up_group := group; up_tag := None; up_value := error_dvalue error |}]
  else if negb (error =? NEU_ERR_SUCCESS) then
    Some ((λ p, {| up_group := group; up_tag := Some (point_name p);
                   up_value := error_dvalue error |}) <$> rc_tags cmd)
  else mapM (λ p, v ← point_value endianess endianess_64 cmd slave n_byte bytes p;
                  Some {| up_group := group; up_tag := Some (point_name p); up_value := v |})
         (rc_tags cmd).

(** ** Writing one tag *)

(** [convert_value]: [n_byte] and the value in wire order. *)
Definition convert_value (endianess : modbus_endianess) (endianess_64 : modbus_endianess_64)
    (v : neu_value_u) (tag : neu_datatag_t) (p : modbus_point_t) : option (Z * neu_value_u) :=
  match tag_type tag with
  | NEU_TYPE_UINT16 | NEU_TYPE_INT16 => Some (2, set_u16 (htons (val_u16 v)) v)
  | NEU_TYPE_FLOAT | NEU_TYPE_UINT32 | NEU_TYPE_INT32 =>
      let v := if opt_value_default (option_ p) then modbus_convert_endianess v endianess else v in
      Some (4, set_u32 (htonl (val_u32 v)) v)
  | NEU_TYPE_DOUBLE | NEU_TYPE_INT64 | NEU_TYPE_UINT64 =>
      let v := if opt_value_default (tag_option tag)
               then modbus_convert_endianess_64 v endianess_64 else v in
      Some (8, set_u64 (neu_htonll (val_u64 v)) v)
  | NEU_TYPE_BIT => Some (1, v)
  | NEU_TYPE_STRING =>
      Some (u8 (opt_string_length (option_ p)),
            if opt_string_type (option_ p) =? NEU_DATATAG_STRING_TYPE_L
            then neu_datatag_string_ltoh v (Z.to_nat (opt_string_length (option_ p))) else v)
  | NEU_TYPE_BYTES => Some (opt_bytes_length (option_ p), v)
  | _ => None
  end.

(** ** The test read *)

(** The enumerators of [neu_json_type_e] the test read uses. *)
Inductive neu_json_type_e := NEU_JSON_INT | NEU_JSON_BIT | NEU_JSON_STR | NEU_JSON_DOUBLE
  | NEU_JSON_FLOAT.

(** The union [neu_json_value_u] by the member written. *)
Inductive neu_json_value_u := val_int (z : Z) | val_bit (z : Z) | val_str (s : list Z).

Definition convert_point_endianess_64_for_test (v : neu_value_u) (p : modbus_point_t)
    (default_endianess : modbus_endianess_64) : neu_value_u :=
  let endian := opt_endian (option_ p) in
  modbus_convert_endianess_64 v
    (if opt_value_default (option_ p) then default_endianess
     else if (endian =? NEU_DATATAG_ENDIAN_B64) || (endian =? NEU_DATATAG_ENDIAN_BB64) then MODBUS_BB
     else if endian =? NEU_DATATAG_ENDIAN_LB64 then MODBUS_LB
     else if endian =? NEU_DATATAG_ENDIAN_BL64 then MODBUS_BL
     else if endian =? NEU_DATATAG_ENDIAN_WS64 then MODBUS_WS
     else if endian =? NEU_DATATAG_ENDIAN_WR64 then MODBUS_WR
     else MODBUS_LL).

(** The JSON type and value handed to [test_read_tag_response]; [None] for a
    type whose [jtype] stays uninitialised or a bit index out of range. *)
Definition modbus_value_handle_test (endianess_64 : modbus_endianess_64) (p : modbus_point_t)
    (n_byte : Z) (bytes : list Z) : option (neu_json_type_e * neu_json_value_u) :=
  let recv_bytes :=
    if negb (is_bit_area (area p)) && (n_byte >=? n_register p * 2)
    then mem_write 0 (take (Z.to_nat (n_register p * 2)) bytes) (replicate 256 0)
    else replicate 256 0 in
  jbit ← (if is_bit_area (area p) && (n_byte >=? 1)
          then neu_value8_get_bit (nth 0 bytes 0) 0 else Some 0);
  let u16_ := le_load (mem_read 0 2 recv_bytes) in
  let u32_ := le_load (mem_read 0 4 recv_bytes) in
  let u64_ := neu_ntohll (val_u64 (convert_point_endianess_64_for_test
                (set_u64 (le_load (mem_read 0 8 recv_bytes)) value_zero) p endianess_64)) in
  match point_type p with
  | Some NEU_TYPE_UINT16 => Some (NEU_JSON_INT, val_int (ntohs u16_))
  | Some NEU_TYPE_INT16 => Some (NEU_JSON_INT, val_int (s16 (ntohs u16_)))
  | Some NEU_TYPE_FLOAT => Some (NEU_JSON_FLOAT, val_int (ntohl u32_))
  | Some NEU_TYPE_INT32 => Some (NEU_JSON_INT, val_int (s32 (ntohl u32_)))
  | Some NEU_TYPE_UINT32 => Some (NEU_JSON_INT, val_int (ntohl u32_))
  | Some NEU_TYPE_DOUBLE => Some (NEU_JSON_DOUBLE, val_int (s64 u64_))
  | Some NEU_TYPE_INT64 | Some NEU_TYPE_UINT64 => Some (NEU_JSON_INT, val_int (s64 u64_))
  | Some NEU_TYPE_BIT =>
      if is_bit_area (area p) then Some (NEU_JSON_INT, val_bit jbit)
      else b ← neu_value16_get_bit (htons u16_) (opt_bit (option_ p));
           Some (NEU_JSON_BIT, val_bit b)
  | Some NEU_TYPE_STRING =>
      let n := Z.to_nat (n_register p * 2) in
      let s := take n (take (strlen recv_bytes) recv_bytes ++ replicate n 0) ++ [0] in
      let s := if opt_string_type (option_ p) =? NEU_DATATAG_STRING_TYPE_L
               then neu_datatag_string_ltoh s n else s in
      Some (NEU_JSON_STR, val_str (if neu_datatag_string_is_utf8 s n then s
                                   else mem_write 0 [63; 0] s))
  | _ => None
  end.

(** ** Byte orders as permutations of the wire bytes *)

Ltac solve_bytes_ok := repeat (apply bytes_ok_cons; [done|]); apply bytes_ok_nil.

Lemma store_swap l rest :
  bytes_ok l →
  mem_write 0 (le_store (length l) (bswap (length l) (le_load (mem_read 0 (length l) (l ++ rest)))))
    (l ++ rest) = reverse l ++ rest.
Proof.
  intros Hl. unfold mem_read. rewrite drop_0, take_app_length.
  rewrite le_store_bswap. unfold be_store. rewrite le_store_load by done.
  unfold mem_write. rewrite length_reverse. simpl. by rewrite drop_app_length.
Qed.

Lemma set_u16_swap a b rest :
  is_u8 a → is_u8 b →
  set_u16 (htons (val_u16 (a :: b :: rest))) (a :: b :: rest) = b :: a :: rest.
Proof. intros. apply (store_swap [a; b] rest). solve_bytes_ok. Qed.

Lemma set_u32_swap a b c d rest :
  is_u8 a → is_u8 b → is_u8 c → is_u8 d →
  set_u32 (htonl (val_u32 (a :: b :: c :: d :: rest))) (a :: b :: c :: d :: rest) =
    d :: c :: b :: a :: rest.
Proof. intros. apply (store_swap [a; b; c; d] rest). solve_bytes_ok. Qed.

Lemma ntohs_p_0 a b rest :
  is_u8 a → is_u8 b → neu_ntohs_p 0 (a :: b :: rest) = b :: a :: rest.
Proof. intros. apply (store_swap [a; b] rest). solve_bytes_ok. Qed.

Lemma ntohs_p_2 a b c d rest :
  is_u8 c → is_u8 d → neu_ntohs_p 2 (a :: b :: c :: d :: rest) = a :: b :: d :: c :: rest.
Proof. intros Hc Hd. exact (f_equal (λ l, a :: b :: l) (ntohs_p_0 c d rest Hc Hd)). Qed.

(** The order of the four wire bytes [A B C D] that each setting names. *)
Definition order32 (e : modbus_endianess) (l : list Z) : list Z :=
  match e, l with
  | MODBUS_ABCD, [a; b; c; d] => [a; b; c; d]
  | MODBUS_BADC, [a; b; c; d] => [b; a; d; c]
  | MODBUS_DCBA, [a; b; c; d] => [d; c; b; a]
  | MODBUS_CDAB, [a; b; c; d] => [c; d; a; b]
  | _, _ => l
  end.

Lemma convert_endianess_order e a b c d rest :
  is_u8 a → is_u8 b → is_u8 c → is_u8 d →
  modbus_convert_endianess (a :: b :: c :: d :: rest) e = order32 e [a; b; c; d] ++ rest.
Proof.
  intros. destruct e; cbn [modbus_convert_endianess order32 app].
  - done.
  - rewrite ntohs_p_0, ntohs_p_2 by done. done.
  - by rewrite set_u32_swap.
  - rewrite set_u32_swap, ntohs_p_0, ntohs_p_2 by done. done.
Qed.

(** The permutation of the eight wire bytes behind each 64-bit setting. *)
Definition perm64 (e : modbus_endianess_64) : list nat :=
  match e with
  | MODBUS_LL => [0; 1; 2; 3; 4; 5; 6; 7]
  | MODBUS_LB => [1; 0; 3; 2; 5; 4; 7; 6]
  | MODBUS_BB => [7; 6; 5; 4; 3; 2; 1; 0]
  | MODBUS_BL => [6; 7; 4; 5; 2; 3; 0; 1]
  | MODBUS_WS => [2; 3; 0; 1; 6; 7; 4; 5]
  | MODBUS_WR => [4; 5; 6; 7; 0; 1; 2; 3]
  end%nat.

Definition order64 (e : modbus_endianess_64) (l : list Z) : list Z :=
  (λ i, nth i l 0) <$> perm64 e.

Lemma set_u64_permute p l rest :
  bytes_ok l → length l = 8%nat → length p = 8%nat →
  set_u64 (permute_bytes p (val_u64 (l ++ rest))) (l ++ rest) = ((λ i, nth i l 0) <$> p) ++ rest.
Proof.
  intros Hl Hlen Hp. unfold set_u64, val_u64, mem_read.
  rewrite drop_0, take_app_length' by done. rewrite permute_bytes_store by done.
  rewrite le_store_load by done. unfold mem_write. rewrite length_fmap, Hp. simpl.
  by rewrite drop_app_length' by done.
Qed.

Lemma convert_endianess_64_order e l rest :
  bytes_ok l → length l = 8%nat →
  modbus_convert_endianess_64 (l ++ rest) e = order64 e l ++ rest.
Proof.
  intros Hl Hlen. destruct e; cbn [modbus_convert_endianess_64]; unfold order64;
    try by apply set_u64_permute.
  do 8 (destruct l as [|? l]; [done|]). by destruct l.
Qed.

Lemma set_u64_swap l rest :
  bytes_ok l → length l = 8%nat →
  set_u64 (neu_htonll (val_u64 (l ++ rest))) (l ++ rest) = order64 MODBUS_BB l ++ rest.
Proof. intros. by apply set_u64_permute. Qed.

Lemma val_of_prefix n l rest :
  bytes_ok l → length l = n → le_load (mem_read 0 n (reverse l ++ rest)) = be_load l.
Proof.
  intros Hl <-. unfold mem_read. rewrite drop_0, take_app_length' by (by rewrite length_reverse).
  done.
Qed.

(** The settings are involutions: writing uses the same one as reading. *)
Lemma order32_involutive e a b c d : order32 e (order32 e [a; b; c; d]) = [a; b; c; d].
Proof. by destruct e. Qed.

Lemma order64_involutive e l : length l = 8%nat → order64 e (order64 e l) = l.
Proof. intros Hl. do 8 (destruct l as [|? l]; [done|]). destruct l; [|done]. by destruct e. Qed.

Lemma order64_ok e l : bytes_ok l → length l = 8%nat → bytes_ok (order64 e l) ∧ length (order64 e l) = 8%nat.
Proof.
  intros Hl Hlen. do 8 (destruct l as [|? l]; [done|]). destruct l; [|done].
  unfold bytes_ok in *. rewrite !Forall_cons in Hl. destruct_and!.
  destruct e; (split; [solve_bytes_ok|done]).
Qed.

(** ** The codec round trip *)

Definition is_numeric (ty : neu_type_e) : bool :=
  match numeric_registers ty with Some _ => true | None => false end.

(** What the device returns when it is read after the write: the wire bytes in
    a zeroed value. *)
Definition wire_value (n : Z) (v : neu_value_u) : neu_value_u :=
  mem_write 0 (take (Z.to_nat n) v) value_zero.

Lemma wire_value_app l rest n :
  Z.to_nat n = length l → (length l <= 264)%nat →
  wire_value n (l ++ rest) = l ++ replicate (264 - length l) 0.
Proof.
  intros Hn Hl. unfold wire_value, mem_write, value_zero. rewrite Hn, take_app_length, take_0.
  by rewrite drop_replicate.
Qed.

Lemma split_front {A} n (v : list A) :
  (n <= length v)%nat → ∃ l rest, v = l ++ rest ∧ length l = n.
Proof.
  intros Hn. exists (take n v), (drop n v). rewrite take_drop, length_take. split; [done|lia].
Qed.

(** Encoding and decoding of [l] by their byte permutations. *)
Lemma roundtrip_16 a b rest :
  is_u8 a → is_u8 b →
  let w := wire_value 2 (set_u16 (htons (val_u16 (a :: b :: rest))) (a :: b :: rest)) in
  take 2 (set_u16 (ntohs (val_u16 w)) w) = [a; b].
Proof.
  intros Ha Hb w. unfold w. rewrite set_u16_swap by done.
  rewrite (wire_value_app [b; a] rest) by (done || (simpl; lia)). cbn [app].
  change ntohs with htons. by rewrite set_u16_swap.
Qed.

Lemma roundtrip_32 (def : bool) e l rest :
  bytes_ok l → length l = 4%nat →
  let conv v := if def then modbus_convert_endianess v e else v in
  let v := conv (l ++ rest) in
  let w := wire_value 4 (set_u32 (htonl (val_u32 v)) v) in
  take 4 (set_u32 (ntohl (val_u32 (conv w))) (conv w)) = l.
Proof.
  intros Hl Hlen conv v w. change ntohl with htonl. unfold w, v, conv. clear w v conv.
  set (e' := if def then e else MODBUS_ABCD).
  assert (Hconv : ∀ a b c d rest', is_u8 a → is_u8 b → is_u8 c → is_u8 d →
    (if def then modbus_convert_endianess (a :: b :: c :: d :: rest') e
     else a :: b :: c :: d :: rest') = order32 e' [a; b; c; d] ++ rest').
  { intros. unfold e'. destruct def; [by apply convert_endianess_order|done]. }
  assert (Hwire : ∀ a b c d rest',
    wire_value 4 (a :: b :: c :: d :: rest') = a :: b :: c :: d :: replicate 260 0).
  { intros a b c d rest'. apply (wire_value_app [a; b; c; d] rest'); simpl; [done|lia]. }
  do 4 (destruct l as [|? l]; [done|]). destruct l; [|done].
  unfold bytes_ok in Hl. rewrite !Forall_cons in Hl. destruct_and!. cbn [app].
  rewrite Hconv by done.
  destruct e'; cbn [order32 app] in *; rewrite set_u32_swap by done; rewrite Hwire;
    rewrite Hconv by done; by rewrite set_u32_swap.
Qed.

Lemma roundtrip_64 (def : bool) e l rest :
  bytes_ok l → length l = 8%nat →
  let conv v := if def then modbus_convert_endianess_64 v e else v in
  let v := conv (l ++ rest) in
  let w := wire_value 8 (set_u64 (neu_htonll (val_u64 v)) v) in
  take 8 (set_u64 (neu_ntohll (val_u64 (conv w))) (conv w)) = l.
Proof.
  intros Hl Hlen conv v w. change neu_ntohll with neu_htonll. unfold w, v, conv. clear w v conv.
  set (e' := if def then e else MODBUS_LL).
  assert (Hconv : ∀ k rest', bytes_ok k → length k = 8%nat →
    (if def then modbus_convert_endianess_64 (k ++ rest') e else k ++ rest') = order64 e' k ++ rest').
  { intros k rest' Hk Hkl. unfold e'. destruct def; [by apply convert_endianess_64_order|].
    by apply (convert_endianess_64_order MODBUS_LL). }
  rewrite Hconv by done. destruct (order64_ok e' l Hl Hlen) as [Ho Hol].
  rewrite set_u64_swap by done. destruct (order64_ok MODBUS_BB _ Ho Hol) as [Hb Hbl].
  rewrite wire_value_app by (rewrite Hbl; done || lia). rewrite Hconv by done.
  destruct (order64_ok e' _ Hb Hbl) as [Hc Hcl]. rewrite set_u64_swap by done.
  destruct (order64_ok MODBUS_BB _ Hc Hcl) as [_ Hdl].
  rewrite take_app_length' by done.
  do 8 (destruct l as [|? l]; [done|]). destruct l; [|done]. by destruct e'.
Qed.

(** Encoding for the wire and decoding the registers preserves the bytes. *)
Lemma codec_preserves e e64 p ty v :
  point_type p = Some ty → is_numeric ty = true → bytes_ok v → length v = 264%nat →
  ∃ n w r, cal_n_byte (point_type p) v (option_ p) e (opt_value_default (option_ p))
      e64 (opt_value_default (option_ p)) = Some (n, w) ∧
    numeric_registers ty = Some (n / 2) ∧
    convert_read e e64 p (wire_value n w) = Some r ∧
    take (Z.to_nat n) r = take (Z.to_nat n) v.
Proof.
  intros Hty Hnum Hok Hlen. unfold convert_read. rewrite Hty in *. clear Hty.
  assert (Hk : numeric_registers ty = Some 1 ∨ numeric_registers ty = Some 2 ∨
    numeric_registers ty = Some 4) by (destruct ty; try done; simpl; auto).
  destruct Hk as [Hk|[Hk|Hk]].
  - destruct v as [|a [|b rest]]; [done|done|]. unfold bytes_ok in Hok.
    rewrite !Forall_cons in Hok. destruct Hok as (Ha & Hb & _).
    destruct ty; try done; (eexists 2, _, _; split; [reflexivity|]; split; [done|]; split; [done|]);
      by apply roundtrip_16.
  - destruct (split_front 4 v) as (l & rest & -> & Hl); [lia|]. apply bytes_ok_app in Hok as [Hok _].
    destruct ty; try done; (eexists 4, _, _; split; [reflexivity|]; split; [done|]; split; [done|]);
      rewrite (take_app_length' l rest (Z.to_nat 4)) by done; by apply roundtrip_32.
  - destruct (split_front 8 v) as (l & rest & -> & Hl); [lia|]. apply bytes_ok_app in Hok as [Hok _].
    destruct ty; try done; (eexists 8, _, _; split; [reflexivity|]; split; [done|]; split; [done|]);
      rewrite (take_app_length' l rest (Z.to_nat 8)) by done; by apply roundtrip_64.
Qed.

(** Values survive a write and a read.  For every numeric type, every
    16/32/64-bit byte-order setting and every tag option, encoding a value for
    the wire ([cal_n_byte]) succeeds with two bytes per register, and decoding
    the registers the device then holds ([convert_read], the switch of
    [modbus_value_handle]) gives the bytes of the value back. *)
Theorem codec_roundtrip e e64 p ty v :
  point_type p = Some ty → is_numeric ty = true → bytes_ok v → length v = 264%nat →
  ∃ n w r, cal_n_byte (point_type p) v (option_ p) e (opt_value_default (option_ p))
      e64 (opt_value_default (option_ p)) = Some (n, w) ∧
    numeric_registers ty = Some (n / 2) ∧
    convert_read e e64 p (wire_value n w) = Some r ∧
    take (Z.to_nat n) r = take (Z.to_nat n) v.
Proof. apply codec_preserves. Qed.

Lemma codec_roundtrip_witness :
  let p := example_point MODBUS_AREA_HOLD_REGISTER NEU_TYPE_UINT32 0 2 in
  let p := with_option (set_value_default true addr_option_zero) p in
  let v := set_u32 0x01020304 value_zero in
  ∃ w r, cal_n_byte (point_type p) v (option_ p) MODBUS_CDAB (opt_value_default (option_ p))
      MODBUS_LL (opt_value_default (option_ p)) = Some (4, w) ∧
    take 4 w = [3; 4; 1; 2] ∧
    convert_read MODBUS_CDAB MODBUS_LL p (wire_value 4 w) = Some r ∧
    take 4 r = take 4 v.
Proof.
  intros p' p v.
  destruct (codec_roundtrip MODBUS_CDAB MODBUS_LL p NEU_TYPE_UINT32 v) as (n & w & r & Hc & _ & Hr & Ht);
    [reflexivity|reflexivity| |reflexivity|].
  - apply mem_write_ok; [apply le_store_ok|apply bytes_ok_replicate; lia].
  - pose proof Hc as Hc'. vm_compute in Hc'. injection Hc' as <- <-.
    eexists _, r. split_and!; [exact Hc|reflexivity|exact Hr|exact Ht].
Defined.

(** ** Reads deliver the registers of the device *)

(** The registers [start, ..., start + n - 1] of a device as they appear in a
    response. *)
Definition registers_bytes (mem : Z → Z) (start n : Z) : list Z :=
  concat ((λ a, be_store 2 (mem a)) <$> seqZ start n).

Lemma concat_pairs_slice (f : Z → list Z) l i k :
  (∀ a, length (f a) = 2%nat) →
  take (2 * k) (drop (2 * i) (concat (f <$> l))) = concat (f <$> take k (drop i l)).
Proof.
  intros Hf. assert (Hd : ∀ j m, drop (2 * j) (concat (f <$> m)) = concat (f <$> drop j m)).
  { induction j as [|j IH]; intros m; [done|]. destruct m as [|a m]; [done|].
    rewrite fmap_cons. cbn [concat]. replace (2 * S j)%nat with (2 + 2 * j)%nat by lia.
    rewrite <-drop_drop, drop_app_length' by done. apply IH. }
  rewrite Hd. generalize (drop i l). clear l. induction k as [|k IH]; intros m; [done|].
  destruct m as [|a m]; [done|]. cbn [take]. rewrite !fmap_cons. cbn [concat].
  replace (2 * S k)%nat with (2 + 2 * k)%nat by lia.
  rewrite take_app_ge, Hf by (rewrite Hf; lia).
  replace (2 + 2 * k - 2)%nat with (2 * k)%nat by lia. by rewrite IH.
Qed.

Lemma registers_bytes_slice mem s n s' k :
  s <= s' → 0 <= k → s' + k <= s + n →
  mem_read (Z.to_nat ((s' - s) * 2)) (Z.to_nat (k * 2)) (registers_bytes mem s n) =
    registers_bytes mem s' k.
Proof.
  intros Hs Hk Hn. unfold mem_read, registers_bytes.
  replace (Z.to_nat ((s' - s) * 2)) with (2 * Z.to_nat (s' - s))%nat by lia.
  replace (Z.to_nat (k * 2)) with (2 * Z.to_nat k)%nat by lia.
  rewrite concat_pairs_slice by (intros; apply length_be_store). do 2 f_equal.
  rewrite <-(Z2Nat.id k) at 2 by lia. apply list_eq. intros i.
  destruct (decide (i < Z.to_nat k)%nat) as [Hi|Hi].
  - rewrite lookup_take_lt, lookup_drop, !lookup_seqZ_lt by lia. f_equal. lia.
  - rewrite lookup_take_ge by lia. rewrite lookup_seqZ_ge by lia. done.
Qed.

Lemma length_registers_bytes mem s n :
  0 <= n → length (registers_bytes mem s n) = Z.to_nat (2 * n).
Proof.
  intros Hn. unfold registers_bytes.
  assert (Hl : ∀ l, length (concat ((λ a, be_store 2 (mem a)) <$> l)) = (2 * length l)%nat).
  { induction l as [|a l IH]; [done|]. rewrite fmap_cons. cbn [concat].
    rewrite length_app, IH, length_be_store. simpl. lia. }
  rewrite Hl, length_seqZ. lia.
Qed.

Lemma registers_bytes_ok mem s n : bytes_ok (registers_bytes mem s n).
Proof.
  unfold registers_bytes, bytes_ok. apply Forall_concat, Forall_fmap, Forall_true.
  intros a. apply be_store_ok.
Qed.

(** The value a tag stands for, from the wire bytes of its registers: big
    endian, after the reordering of the node's setting unless the tag's address
    fixes one itself. *)
Definition reference_value (e : modbus_endianess) (e64 : modbus_endianess_64)
    (p : modbus_point_t) (wire : list Z) : Z :=
  be_load (if opt_value_default (option_ p) then
             if n_register p =? 2 then order32 e wire
             else if n_register p =? 4 then order64 e64 wire else wire
           else wire).

(** The numeric cases of [convert_read] on a value that starts with [wire]. *)
Lemma convert_read_reference e e64 p ty wire rest :
  point_type p = Some ty → numeric_registers ty = Some (n_register p) →
  bytes_ok wire → length wire = Z.to_nat (2 * n_register p) →
  ∃ v, convert_read e e64 p (wire ++ rest) = Some v ∧
    le_load (mem_read 0 (length wire) v) = reference_value e e64 p wire.
Proof.
  intros Hty Hn Hok Hlen. unfold convert_read, reference_value. rewrite Hty.
  assert (Hk : n_register p = 1 ∨ n_register p = 2 ∨ n_register p = 4)
    by (destruct ty; simplify_eq/=; lia).
  destruct Hk as [Hk|[Hk|Hk]]; rewrite Hk in *; cbn [Z.eqb Pos.eqb].
  - destruct wire as [|a [|b [|]]]; try done. unfold bytes_ok in Hok.
    rewrite !Forall_cons in Hok. destruct Hok as (Ha & Hb & _).
    replace (if opt_value_default (option_ p) then [a; b] else [a; b]) with [a; b]
      by (by destruct (opt_value_default _)).
    destruct ty; try done; (eexists; split; [done|]); cbn [app]; change ntohs with htons;
      rewrite set_u16_swap by done; apply (val_of_prefix 2 [a; b]); try done; solve_bytes_ok.
  - assert (Hord : ∃ a b c d, (if opt_value_default (option_ p)
        then modbus_convert_endianess (wire ++ rest) e else wire ++ rest) = [a; b; c; d] ++ rest ∧
      (if opt_value_default (option_ p) then order32 e wire else wire) = [a; b; c; d] ∧
      is_u8 a ∧ is_u8 b ∧ is_u8 c ∧ is_u8 d ∧ length wire = 4%nat).
    { destruct wire as [|a [|b [|c [|d [|]]]]]; try done. unfold bytes_ok in Hok.
      rewrite !Forall_cons in Hok. destruct_and!. cbn [app].
      destruct (opt_value_default _); [rewrite convert_endianess_order by done; destruct e|];
        by do 4 eexists. }
    destruct Hord as (a & b & c & d & Hc & Ho & Ha & Hb & Hcc & Hd & Hl).
    rewrite Ho, Hl.
    destruct ty; try done; (eexists; split; [done|]); rewrite Hc; cbn [app];
      change ntohl with htonl; rewrite set_u32_swap by done;
      apply (val_of_prefix 4 [a; b; c; d]); try done; solve_bytes_ok.
  - assert (Hord : ∃ l, (if opt_value_default (option_ p)
        then modbus_convert_endianess_64 (wire ++ rest) e64 else wire ++ rest) = l ++ rest ∧
      (if opt_value_default (option_ p) then order64 e64 wire else wire) = l ∧
      bytes_ok l ∧ length l = 8%nat).
    { destruct (opt_value_default _); [|by eexists].
      rewrite convert_endianess_64_order by done. eexists. split; [done|]. split; [done|].
      by apply order64_ok. }
    destruct Hord as (l & Hc & Ho & Hl & Hll). rewrite Ho, Hlen.
    assert (Hrev : order64 MODBUS_BB l = reverse l).
    { do 8 (destruct l as [|? l]; [done|]). by destruct l. }
    destruct ty; try done; (eexists; split; [done|]); rewrite Hc;
      change neu_ntohll with neu_htonll; rewrite set_u64_swap, Hrev by done;
      by apply (val_of_prefix 8 l).
Qed.

(** A store behind a prefix leaves the prefix alone. *)
Lemma mem_write_behind off src (w r : list Z) :
  (length w <= off)%nat → ∃ r', mem_write off src (w ++ r) = w ++ r'.
Proof.
  intros Hoff. unfold mem_write. rewrite take_app_ge by done. rewrite <-app_assoc. by eexists.
Qed.

Lemma extract_registers cmd_start n_byte bytes p wire :
  is_bit_area (area p) = false → (length wire <= 256)%nat →
  (start_address p - cmd_start) * 2 + n_register p * 2 <= n_byte →
  mem_read (Z.to_nat ((start_address p - cmd_start) * 2)) (Z.to_nat (n_register p * 2)) bytes = wire →
  ∃ rest, extract_value cmd_start n_byte bytes p = Some (wire ++ rest).
Proof.
  intros Ha Hl Hn Hw. unfold extract_value. rewrite Hw.
  assert (Hfront : ∃ r, mem_write 0 wire value_zero = wire ++ r).
  { unfold mem_write. rewrite take_0. by eexists. }
  destruct Hfront as [r ->]. destruct (mem_write_behind 256 [u8 (n_register p * 2)] wire r Hl) as [r' ->].
  exists r'. by destruct (area p); try done;
    destruct (Z.geb_spec n_byte ((start_address p - cmd_start) * 2 + n_register p * 2)); done || lia.
Qed.

Lemma point_value_registers e e64 max_byte cmd p ty mem :
  cmd_planned max_byte cmd → p ∈ rc_tags cmd → point_ok p → 0 <= rc_n_register cmd →
  is_bit_area (area p) = false →
  point_type p = Some ty → numeric_registers ty = Some (n_register p) →
  let bytes := registers_bytes mem (rc_start_address cmd) (rc_n_register cmd) in
  ∃ v, point_value e e64 cmd (rc_slave_id cmd) (2 * rc_n_register cmd) bytes p =
      Some {| dvalue_type := Some ty; dvalue_value := v |} ∧
    le_load (mem_read 0 (Z.to_nat (2 * n_register p)) v) =
      reference_value e e64 p (registers_bytes mem (start_address p) (n_register p)).
Proof.
  intros [_ Hin _ _] Hp Hok Hn Harea Hty Hreg bytes. rewrite Forall_forall in Hin.
  destruct (Hin p Hp) as (Hsl & Har & Hlo & Hhi). pose proof (ok_count p Hok) as Hc.
  unfold point_value. rewrite Hsl, Z.eqb_refl.
  destruct (Z.gtb_spec (start_address p + n_register p) (rc_start_address cmd + rc_n_register cmd));
    [lia|]. cbn [orb negb].
  set (wire := registers_bytes mem (start_address p) (n_register p)).
  assert (Hwl : length wire = Z.to_nat (2 * n_register p)) by (apply length_registers_bytes; lia).
  destruct (extract_registers (rc_start_address cmd) (2 * rc_n_register cmd) bytes p wire Harea)
    as [rest ->].
  { rewrite Hwl. lia. }
  { lia. }
  { by apply registers_bytes_slice; lia. }
  cbn [mbind option_bind].
  destruct (convert_read_reference e e64 p ty wire rest Hty Hreg) as (v & -> & Hv).
  - apply registers_bytes_ok.
  - done.
  - cbn [mbind option_bind]. rewrite Hty. exists v. split; [done|]. by rewrite <-Hwl.
Qed.

(** A read delivers the registers of the device.  When a response carries
    the contents of the registers a planned command asked for, every numeric tag
    of the command gets the value of its own registers: big endian after the
    byte-order setting that applies to the tag. *)
Theorem value_handle_registers e e64 max_byte cmd p ty mem :
  cmd_planned max_byte cmd → p ∈ rc_tags cmd → point_ok p → 0 <= rc_n_register cmd →
  is_bit_area (area p) = false →
  point_type p = Some ty → numeric_registers ty = Some (n_register p) →
  let bytes := registers_bytes mem (rc_start_address cmd) (rc_n_register cmd) in
  ∃ v, point_value e e64 cmd (rc_slave_id cmd) (2 * rc_n_register cmd) bytes p =
      Some {| dvalue_type := Some ty; dvalue_value := v |} ∧
    le_load (mem_read 0 (Z.to_nat (2 * n_register p)) v) =
      reference_value e e64 p (registers_bytes mem (start_address p) (n_register p)).
Proof. apply point_value_registers. Qed.

Definition example_read_cmd : modbus_read_cmd_t := {|
  rc_slave_id := 1; rc_area := MODBUS_AREA_HOLD_REGISTER; rc_start_address := 10;
  rc_n_register := 3;
  rc_tags := [example_point MODBUS_AREA_HOLD_REGISTER NEU_TYPE_UINT16 10 1;
              example_point MODBUS_AREA_HOLD_REGISTER NEU_TYPE_UINT32 11 2] |}.

Lemma example_read_cmd_planned : cmd_planned 250 example_read_cmd.
Proof.
  split; simpl.
  - done.
  - repeat constructor; simpl; lia.
  - intros a Ha. destruct (decide (a = 10)) as [->|].
    + eexists. split; [by left|]. simpl. lia.
    + eexists. split; [right; by left|]. simpl. lia.
  - left. lia.
Qed.

Lemma value_handle_registers_witness :
  ∃ v, point_value MODBUS_ABCD MODBUS_LL example_read_cmd 1 6 [0; 9; 1; 2; 3; 4]
        (example_point MODBUS_AREA_HOLD_REGISTER NEU_TYPE_UINT32 11 2) =
      Some {| dvalue_type := Some NEU_TYPE_UINT32; dvalue_value := v |} ∧
    val_u32 v = 0x01020304.
Proof.
  pose (mem := λ a : Z, if a =? 10 then 9 else if a =? 11 then 0x0102 else 0x0304).
  destruct (value_handle_registers MODBUS_ABCD MODBUS_LL 250 example_read_cmd
    (example_point MODBUS_AREA_HOLD_REGISTER NEU_TYPE_UINT32 11 2) NEU_TYPE_UINT32 mem)
    as (v & Hv & Hval).
  - exact example_read_cmd_planned.
  - right. by left.
  - by split.
  - done.
  - reflexivity.
  - reflexivity.
  - reflexivity.
  - exists v. split; [exact Hv|exact Hval].
Defined.

(** A read of coils delivers the bits of the device: when bit [i] of the
    response is the coil at [start + i], every tag of the command gets the state
    of its own coil. *)
Theorem value_handle_coils e e64 max_byte cmd p coils bytes n_byte :
  cmd_planned max_byte cmd → p ∈ rc_tags cmd → point_ok p →
  rc_n_register cmd <= 8 * n_byte → rc_n_register cmd < 65536 →
  is_bit_area (area p) = true →
  (∀ i, 0 <= i < rc_n_register cmd →
    Z.testbit (nth (Z.to_nat (i / 8)) bytes 0) (i mod 8) = coils (rc_start_address cmd + i)) →
  ∃ v, point_value e e64 cmd (rc_slave_id cmd) n_byte bytes p =
      Some {| dvalue_type := Some NEU_TYPE_BIT; dvalue_value := v |} ∧
    val_u8 v = Z.b2z (coils (start_address p)).
Proof.
  intros [_ Hin _ _] Hp Hok Hn Hw Harea Hbits. rewrite Forall_forall in Hin.
  destruct (Hin p Hp) as (Hsl & Har & Hlo & Hhi). destruct (ok_bits p Hok Harea) as [H1 Hty].
  rewrite H1 in Hhi. unfold point_value. rewrite Hsl, Z.eqb_refl, H1.
  destruct (Z.gtb_spec (start_address p + 1) (rc_start_address cmd + rc_n_register cmd)); [lia|].
  cbn [orb negb].
  set (i := start_address p - rc_start_address cmd).
  specialize (Hbits i ltac:(lia)). replace (rc_start_address cmd + i) with (start_address p) in Hbits by lia.
  assert (Hex : extract_value (rc_start_address cmd) n_byte bytes p =
    Some (set_u8 (Z.b2z (coils (start_address p))) value_zero)).
  { unfold extract_value. fold i. rewrite u16_id by lia.
    assert (0 <= i mod 8 < 8) by (apply Z.mod_pos_bound; lia).
    assert (Hbit : neu_value8_get_bit (nth (Z.to_nat (i / 8)) bytes 0) (i mod 8) =
      Some (Z.b2z (coils (start_address p)))).
    { unfold neu_value8_get_bit, get_bit_n. rewrite decide_True by done. by rewrite Hbits. }
    destruct (area p); try done;
      (destruct (Z.gtb_spec n_byte (i / 8)); [|zlia]); by rewrite Hbit. }
  rewrite Hex. cbn [mbind option_bind]. unfold convert_read. rewrite Hty.
  eexists. split; [by destruct (area p)|]. by destruct (coils (start_address p)).
Qed.

Lemma value_handle_coils_witness :
  let cmd := {| rc_slave_id := 1; rc_area := MODBUS_AREA_COIL; rc_start_address := 20;
                rc_n_register := 1;
                rc_tags := [example_point MODBUS_AREA_COIL NEU_TYPE_BIT 20 1] |} in
  ∃ v, point_value MODBUS_ABCD MODBUS_LL cmd 1 1 [1]
        (example_point MODBUS_AREA_COIL NEU_TYPE_BIT 20 1) =
      Some {| dvalue_type := Some NEU_TYPE_BIT; dvalue_value := v |} ∧ val_u8 v = 1.
Proof.
  intros cmd.
  apply (value_handle_coils MODBUS_ABCD MODBUS_LL 250 cmd
    (example_point MODBUS_AREA_COIL NEU_TYPE_BIT 20 1) (λ _, true) [1] 1);
    try reflexivity; try (simpl; lia).
  - split; simpl; [done|by repeat constructor| |done].
    intros a Ha. eexists. split; [by left|]. simpl. lia.
  - by left.
  - split; simpl; done || lia.
  - intros i Hi. simpl in Hi. assert (i = 0) as -> by lia. reflexivity.
Defined.
