(* ===== verification/ModbusReq.v ===== *)
(** * The Modbus request engine

    plugins/modbus/modbus_req.c: sending requests with fail-over to a backup
    device, receiving and checking responses, the retry loop, the degradation of
    silent slaves, the polling of a group and the writes.

    The connection (src/connection) is the record [conn_ops] over an abstract
    connection state; log output, metrics, the round-trip time and sleeping are
    left out.  The driver callbacks of the adapter are collected in the trace
    [out]. *)

From S2P Require Import Prelude NeuTypes Tag ProtocolBuf Modbus ModbusPoint ModbusPlan.
From S2P Require Import ModbusStack ModbusValue.

(** ** State *)

(** The connection functions the plugin calls. *)
Record conn_ops (Conn Param : Type) := {
  neu_conn_send : Conn → list Z → Z * Conn;
  neu_conn_recv : Conn → Z → Z * list Z * Conn;
  neu_conn_tcp_server_send : Conn → Z → list Z → Z * Conn;
  neu_conn_tcp_server_recv : Conn → Z → Z → Z * list Z * Conn;
  neu_conn_is_connected : Conn → bool;
  neu_conn_disconnect : Conn → Conn;
  neu_conn_clear_recv_buffer : Conn → Conn;
  neu_conn_reconfig : Conn → Param → Conn;
}.
Arguments neu_conn_send {_ _}.
Arguments neu_conn_recv {_ _}.
Arguments neu_conn_tcp_server_send {_ _}.
Arguments neu_conn_tcp_server_recv {_ _}.
Arguments neu_conn_is_connected {_ _}.
Arguments neu_conn_disconnect {_ _}.
Arguments neu_conn_clear_recv_buffer {_ _}.
Arguments neu_conn_reconfig {_ _}.

(** Calls of the adapter callbacks.  [EvUndefined] stands for a failed [assert], a
    [NULL] pointer or an index out of range that is dereferenced, or a variable that
    is used uninitialised: what the process does from there on is not defined, and
    what the definitions say after it has no meaning. *)
Inductive driver_event :=
  | EvUpdate (u : tag_update)
  | EvWriteResponse (req : Z) (error : Z)
  | EvTestRead (req : Z) (jtype : neu_json_type_e) (type : option neu_type_e)
      (jvalue : neu_json_value_u) (error : Z)
  | EvUndefined.

(** [struct modbus_group_data] *)
Record modbus_group_data := {
  gd_group : string;
  gd_tags : list modbus_point_t;
  gd_cmds : list modbus_read_cmd_t;
  gd_address_base : modbus_address_base;
}.

(** [struct neu_plugin]; [plugin_group_data] and [cmd_idx] say which command is
    being polled. *)
Record neu_plugin {Conn Param : Type} := {
  conn : Conn;
  stack : modbus_stack_t;
  plugin_group_data : option modbus_group_data;
  cmd_idx : nat;
  is_server : bool;
  client_fd : Z;
  endianess : modbus_endianess;
  endianess_64 : modbus_endianess_64;
  address_base : modbus_address_base;
  max_retries : nat;
  plugin_check_header : bool;
  degradation : bool;
  degrade_cycle : Z;
  backup : bool;
  current_backup : bool;
  first_attempt_done : bool;
  param : Param;
  param_backup : Param;
  out : list driver_event;
}.
Arguments neu_plugin : clear implicits.

(** The arrays [failed_cycles] and [skip], global to the process. *)
Record slave_state := { failed_cycles : list Z; skip : list bool }.
Definition slave_state_zero : slave_state :=
  {| failed_cycles := replicate 256 0; skip := replicate 256 false |}.

Section engine.
Context {Conn Param : Type} (cops : conn_ops Conn Param).
Abbreviation plugin_t := (neu_plugin Conn Param).
Implicit Types (plugin : plugin_t).

Definition with_conn (c : Conn) plugin : plugin_t := {|
  conn := c; stack := stack plugin; plugin_group_data := plugin_group_data plugin;
  cmd_idx := cmd_idx plugin; is_server := is_server plugin; client_fd := client_fd plugin;
  endianess := endianess plugin; endianess_64 := endianess_64 plugin;
  address_base := address_base plugin; max_retries := max_retries plugin;
  plugin_check_header := plugin_check_header plugin; degradation := degradation plugin;
  degrade_cycle := degrade_cycle plugin; backup := backup plugin;
  current_backup := current_backup plugin; first_attempt_done := first_attempt_done plugin;
  param := param plugin; param_backup := param_backup plugin; out := out plugin |}.

Definition with_stack (s : modbus_stack_t) plugin : plugin_t := {|
  conn := conn plugin; stack := s; plugin_group_data := plugin_group_data plugin;
  cmd_idx := cmd_idx plugin; is_server := is_server plugin; client_fd := client_fd plugin;
  endianess := endianess plugin; endianess_64 := endianess_64 plugin;
  address_base := address_base plugin; max_retries := max_retries plugin;
  plugin_check_header := plugin_check_header plugin; degradation := degradation plugin;
  degrade_cycle := degrade_cycle plugin; backup := backup plugin;
  current_backup := current_backup plugin; first_attempt_done := first_attempt_done plugin;
  param := param plugin; param_backup := param_backup plugin; out := out plugin |}.

Definition with_cmd (gd : modbus_group_data) (i : nat) plugin : plugin_t := {|
  conn := conn plugin; stack := stack plugin; plugin_group_data := Some gd;
  cmd_idx := i; is_server := is_server plugin; client_fd := client_fd plugin;
  endianess := endianess plugin; endianess_64 := endianess_64 plugin;
  address_base := address_base plugin; max_retries := max_retries plugin;
  plugin_check_header := plugin_check_header plugin; degradation := degradation plugin;
  degrade_cycle := degrade_cycle plugin; backup := backup plugin;
  current_backup := current_backup plugin; first_attempt_done := first_attempt_done plugin;
  param := param plugin; param_backup := param_backup plugin; out := out plugin |}.

Definition with_backup (cur first : bool) (c : Conn) plugin : plugin_t := {|
  conn := c; stack := stack plugin; plugin_group_data := plugin_group_data plugin;
  cmd_idx := cmd_idx plugin; is_server := is_server plugin; client_fd := client_fd plugin;
  endianess := endianess plugin; endianess_64 := endianess_64 plugin;
  address_base := address_base plugin; max_retries := max_retries plugin;
  plugin_check_header := plugin_check_header plugin; degradation := degradation plugin;
  degrade_cycle := degrade_cycle plugin; backup := backup plugin;
  current_backup := cur; first_attempt_done := first;
  param := param plugin; param_backup := param_backup plugin; out := out plugin |}.

Definition emit (evs : list driver_event) plugin : plugin_t := {|
  conn := conn plugin; stack := stack plugin; plugin_group_data := plugin_group_data plugin;
  cmd_idx := cmd_idx plugin; is_server := is_server plugin; client_fd := client_fd plugin;
  endianess := endianess plugin; endianess_64 := endianess_64 plugin;
  address_base := address_base plugin; max_retries := max_retries plugin;
  plugin_check_header := plugin_check_header plugin; degradation := degradation plugin;
  degrade_cycle := degrade_cycle plugin; backup := backup plugin;
  current_backup := current_backup plugin; first_attempt_done := first_attempt_done plugin;
  param := param plugin; param_backup := param_backup plugin; out := out plugin ++ evs |}.

(** ** The stack callbacks *)

Definition modbus_send_msg plugin (bytes : list Z) : Z * plugin_t :=
  let plugin := with_conn (neu_conn_clear_recv_buffer cops (conn plugin)) plugin in
  if is_server plugin then
    let '(ret, c) := neu_conn_tcp_server_send cops (conn plugin) (client_fd plugin) bytes in
    (ret, with_conn c plugin)
  else
    let plugin :=
      if backup plugin && negb (neu_conn_is_connected cops (conn plugin)) then
        if negb (current_backup plugin) && first_attempt_done plugin
        then with_backup true (first_attempt_done plugin)
               (neu_conn_reconfig cops (conn plugin) (param_backup plugin)) plugin
        else with_backup false true
               (neu_conn_reconfig cops (conn plugin) (param plugin)) plugin
      else plugin in
    let '(ret, c) := neu_conn_send cops (conn plugin) bytes in
    (ret, with_conn c plugin).

(** The command being polled. *)
Definition current_cmd plugin : option (modbus_group_data * modbus_read_cmd_t) :=
  gd ← plugin_group_data plugin;
  cmd ← gd_cmds gd !! cmd_idx plugin;
  Some (gd, cmd).

(** [modbus_value_handle] on the plugin.  Without group data, or with [cmd_idx]
    beyond the commands, the first lines dereference a pointer that is not there;
    a bit number above 15 fails an [assert]. *)
Definition value_handle plugin (slave n_byte : Z) (bytes : list Z) (error : Z) : plugin_t :=
  match current_cmd plugin with
  | None => emit [EvUndefined] plugin
  | Some (gd, cmd) =>
      match modbus_value_handle (endianess plugin) (endianess_64 plugin) (gd_group gd) cmd
              slave n_byte bytes error with
      | Some ups => emit (EvUpdate <$> ups) plugin
      | None => emit [EvUndefined] plugin
      end
  end.

Definition modbus_write_resp plugin (req error : Z) : plugin_t :=
  emit [EvWriteResponse req error] plugin.

(** For a type that the test read does not know [jtype] is not initialised. *)
Definition value_handle_test plugin (req : Z) (p : modbus_point_t) (n_byte : Z) (bytes : list Z)
    : plugin_t :=
  match modbus_value_handle_test (endianess_64 plugin) p n_byte bytes with
  | Some (jtype, jvalue) => emit [EvTestRead req jtype (point_type p) jvalue NEU_ERR_SUCCESS] plugin
  | None => emit [EvUndefined] plugin
  end.

Definition plugin_ops : stack_ops plugin_t Z := {|
  send_fn := modbus_send_msg;
  value_fn := value_handle;
  write_resp := modbus_write_resp;
  check_header := plugin_check_header;
  value_test_fn := value_handle_test;
|}.

(** ** Receiving *)

Definition recv_data plugin (size : Z) : Z * list Z * plugin_t :=
  let '(ret, data, c) :=
    if is_server plugin then neu_conn_tcp_server_recv cops (conn plugin) (client_fd plugin) size
    else neu_conn_recv cops (conn plugin) size in
  (ret, data, with_conn c plugin).

(** [recv_size == expected_size ? ret : -1], after the frame was processed. *)
Definition process_received_data plugin (recv_buf : list Z) (recv_size expected_size slave : Z)
    : Z * plugin_t :=
  let pbuf := neu_protocol_unpack_buf_init recv_buf (u16 recv_size) in
  let '(ret, plugin) := modbus_stack_recv plugin_ops (stack plugin) plugin slave pbuf in
  if ret =? MODBUS_DEVICE_ERR then (-2, plugin)
  else (if recv_size =? expected_size then ret else -1, plugin).

Definition process_received_data_test plugin (recv_buf : list Z) (recv_size expected_size : Z)
    (req : Z) (point : modbus_point_t) : Z * plugin_t :=
  let pbuf := neu_protocol_unpack_buf_init recv_buf (u16 recv_size) in
  let '(ret, plugin) := modbus_stack_recv_test plugin_ops (stack plugin) plugin req point pbuf in
  if ret =? MODBUS_DEVICE_ERR then (-2, plugin)
  else (if recv_size =? expected_size then ret else -1, plugin).

(** [valid_modbus_tcp_response]: the header, then as many bytes as it announces.
    The return value and the contents of [recv_buf]. *)
Definition valid_modbus_tcp_response plugin (recv_buf : list Z) (response_size : Z)
    : Z * list Z * plugin_t :=
  let '(ret, data, plugin) := recv_data plugin sizeof_header in
  let recv_buf := mem_write 0 data recv_buf in
  if ret <=? 0 then (0, recv_buf, plugin)
  else if negb (ret =? sizeof_header) then (-1, recv_buf, plugin)
  else
    let len := htons (le_load (mem_read 4 2 recv_buf)) in
    if len >? u64 (response_size - sizeof_header) then (-1, recv_buf, plugin)
    else
      let '(ret, data, plugin) := recv_data plugin len in
      let recv_buf := mem_write 6 data recv_buf in
      (if ret =? len then ret + sizeof_header else -1, recv_buf, plugin).

Definition process_modbus_tcp plugin (response_size slave : Z) : Z * plugin_t :=
  let recv_buf := replicate (Z.to_nat response_size) 0 in
  let '(total, recv_buf, plugin) := valid_modbus_tcp_response plugin recv_buf response_size in
  if total >? 0 then process_received_data plugin recv_buf total response_size slave
  else (total, plugin).

Definition process_modbus_tcp_test plugin (response_size req : Z) (point : modbus_point_t)
    : Z * plugin_t :=
  let recv_buf := replicate (Z.to_nat response_size) 0 in
  let '(total, recv_buf, plugin) := valid_modbus_tcp_response plugin recv_buf response_size in
  if total >? 0 then process_received_data_test plugin recv_buf total response_size req point
  else (total, plugin).

Definition process_modbus_rtu plugin (response_size slave : Z) : Z * plugin_t :=
  let recv_buf := replicate (Z.to_nat response_size) 0 in
  let '(ret, data, plugin) := recv_data plugin response_size in
  let recv_buf := mem_write 0 data recv_buf in
  if (ret =? 0) || (ret =? -1) then (0, plugin)
  else process_received_data plugin recv_buf ret response_size slave.

Definition process_protocol_buf plugin (slave response_size : Z) : Z * plugin_t :=
  match protocol (stack plugin) with
  | MODBUS_PROTOCOL_TCP => process_modbus_tcp plugin response_size slave
  | MODBUS_PROTOCOL_RTU => process_modbus_rtu plugin response_size slave
  end.

Definition process_protocol_buf_test plugin (req : Z) (point : modbus_point_t) (response_size : Z)
    : Z * plugin_t :=
  match protocol (stack plugin) with
  | MODBUS_PROTOCOL_TCP => process_modbus_tcp_test plugin response_size req point
  | MODBUS_PROTOCOL_RTU => (-1, plugin)
  end.

(** ** Reading one command *)

(** [modbus_stack_read] on the plugin: return value and response size. *)
Definition stack_read plugin (cmd : modbus_read_cmd_t) (is_test : bool)
    : option (Z * Z * plugin_t) :=
  '(ret, size, s, plugin') ← modbus_stack_read plugin_ops (stack plugin) plugin
      (rc_slave_id cmd) (rc_area cmd) (rc_start_address cmd) (rc_n_register cmd) is_test;
  Some (ret, size, with_stack s plugin').

(** Send and, if that worked, receive: [ret_r], [ret_buf]. *)
Definition read_once plugin (cmd : modbus_read_cmd_t) (ret_buf : Z)
    : option (Z * Z * plugin_t) :=
  '(ret_r, size, plugin) ← stack_read plugin cmd false;
  if ret_r >? 0 then
    let '(ret_buf, plugin) := process_protocol_buf plugin (rc_slave_id cmd) size in
    Some (ret_r, ret_buf, plugin)
  else Some (ret_r, ret_buf, plugin).

(** The [for] loop over the retries: it goes on only while the request was sent
    and no answer came. *)
Fixpoint retry_loop (n : nat) plugin (cmd : modbus_read_cmd_t) (ret_r ret_buf : Z)
    : option (Z * Z * plugin_t) :=
  match n with
  | O => Some (ret_r, ret_buf, plugin)
  | S n' =>
      '(ret_r, ret_buf, plugin) ← read_once plugin cmd ret_buf;
      if (ret_r >? 0) && (ret_buf =? 0) then retry_loop n' plugin cmd ret_r ret_buf
      else Some (ret_r, ret_buf, plugin)
  end.

Definition handle_modbus_error plugin (cmd : modbus_read_cmd_t) (error : Z) : plugin_t :=
  value_handle plugin (rc_slave_id cmd) 0 [] error.

Definition disconnect plugin : plugin_t :=
  with_conn (neu_conn_disconnect cops (conn plugin)) plugin.

(** The plugin, the global slave state and whether [slave_err] was set. *)
Definition finalize_modbus_read_result plugin (g : slave_state) (cmd : modbus_read_cmd_t)
    (ret_r ret_buf : Z) : plugin_t * slave_state * bool :=
  if ret_r <=? 0 then
    (disconnect (handle_modbus_error plugin cmd NEU_ERR_PLUGIN_DISCONNECTED), g, false)
  else if ret_buf <=? 0 then
    if ret_buf =? 0 then
      (handle_modbus_error plugin cmd NEU_ERR_PLUGIN_DEVICE_NOT_RESPONSE, g, true)
    else if ret_buf =? -1 then
      (disconnect (handle_modbus_error plugin cmd NEU_ERR_PLUGIN_PROTOCOL_DECODE_FAILURE), g, false)
    else if ret_buf =? -2 then
      (handle_modbus_error plugin cmd NEU_ERR_PLUGIN_READ_FAILURE, g, false)
    else (plugin, g, false)
  else
    (plugin, {| failed_cycles := <[Z.to_nat (rc_slave_id cmd) := 0]> (failed_cycles g);
                skip := skip g |}, false).

Definition check_modbus_read_result plugin (g : slave_state) (cmd : modbus_read_cmd_t)
    : option (plugin_t * slave_state * bool) :=
  '(ret_r, ret_buf, plugin) ← read_once plugin cmd 0;
  '(ret_r, ret_buf, plugin) ←
     (if (ret_r <=? 0) || (ret_buf =? 0)
      then retry_loop (max_retries plugin) plugin cmd ret_r ret_buf
      else Some (ret_r, ret_buf, plugin));
  Some (finalize_modbus_read_result plugin g cmd ret_r ret_buf).

(** ** Degradation *)

(** [set_skip_timer] once its thread has been started, and the step the timer
    thread takes when it fires. *)
Definition set_skip_timer (g : slave_state) (slave : Z) : slave_state :=
  {| failed_cycles := <[Z.to_nat slave := 0]> (failed_cycles g); skip := skip g |}.
Definition degrade_timer (g : slave_state) (slave : Z) : slave_state :=
  {| failed_cycles := failed_cycles g; skip := <[Z.to_nat slave := false]> (skip g) |}.

Definition slave_failed (g : slave_state) (slave : Z) : Z := nth (Z.to_nat slave) (failed_cycles g) 0.
Definition slave_skipped (g : slave_state) (slave : Z) : bool := nth (Z.to_nat slave) (skip g) false.

(** The bookkeeping after a command was read. *)
Definition degrade (cycle : Z) (g : slave_state) (slave : Z) (err : bool) : slave_state :=
  let g := if err
           then {| failed_cycles := <[Z.to_nat slave := u8 (slave_failed g slave + 1)]> (failed_cycles g);
                   skip := skip g |}
           else g in
  if slave_failed g slave >=? cycle
  then set_skip_timer {| failed_cycles := failed_cycles g;
                         skip := <[Z.to_nat slave := true]> (skip g) |} slave
  else g.

(** ** Polling a group *)

(** The loop over the commands; [err] is [slave_err_record]. *)
Fixpoint poll_cmds plugin (g : slave_state) (gd : modbus_group_data) (err : list bool)
    (i : nat) (cmds : list modbus_read_cmd_t) : option (plugin_t * slave_state) :=
  match cmds with
  | [] => Some (plugin, g)
  | cmd :: cmds' =>
      let plugin := with_cmd gd i plugin in
      let slave := rc_slave_id cmd in
      if nth (Z.to_nat slave) err false then poll_cmds plugin g gd err (S i) cmds'
      else if negb (degradation plugin) || negb (slave_skipped g slave) then
        '(plugin, g, slave_err) ← check_modbus_read_result plugin g cmd;
        if degradation plugin then
          poll_cmds plugin (degrade (degrade_cycle plugin) g slave slave_err) gd
            (if (slave_err : bool) then <[Z.to_nat slave := true]> err else err) (S i) cmds'
        else poll_cmds plugin g gd err (S i) cmds'
      else poll_cmds plugin g gd err (S i) cmds'
  end.

(** The points of a group; a tag that does not parse still contributes the
    point as far as it was filled in. *)
Definition group_points (tags : list neu_datatag_t) (base : modbus_address_base)
    : list modbus_point_t :=
  (λ tag, (modbus_tag_to_point tag point_zero base).2) <$> tags.

Definition prepare_group (name : string) (tags : list neu_datatag_t) (base : modbus_address_base)
    (max_byte : Z) : option modbus_group_data :=
  let points := group_points tags base in
  cmds ← modbus_tag_sort points max_byte;
  Some {| gd_group := name; gd_tags := points; gd_cmds := cmds; gd_address_base := base |}.

(** [modbus_group_timer]: the cached group data is rebuilt when it is missing or
    was built for another address base. *)
Definition modbus_group_timer plugin (g : slave_state) (name : string) (tags : list neu_datatag_t)
    (user_data : option modbus_group_data) (max_byte : Z)
    : option (modbus_group_data * plugin_t * slave_state) :=
  gd ← match user_data with
       | Some gd => if base_code (gd_address_base gd) =? base_code (address_base plugin)
                    then Some gd else prepare_group name tags (address_base plugin) max_byte
       | None => prepare_group name tags (address_base plugin) max_byte
       end;
  let plugin := with_cmd gd (cmd_idx plugin) plugin in
  '(plugin, g) ← poll_cmds plugin g gd (replicate 256 false) 0 (gd_cmds gd);
  Some (gd, plugin, g).

(** ** Test read and writes *)

Definition test_error plugin (req error : Z) : plugin_t :=
  emit [EvTestRead req NEU_JSON_INT (Some NEU_TYPE_ERROR) (val_int 0) error] plugin.

Definition modbus_test_read_tag plugin (req : Z) (tag : neu_datatag_t) : option plugin_t :=
  let '(err, point) := modbus_tag_to_point tag point_zero (address_base plugin) in
  if negb (err =? NEU_ERR_SUCCESS) then Some (test_error plugin req err) else
  '(ret, size, s, plugin') ← modbus_stack_read plugin_ops (stack plugin) plugin
      (slave_id point) (area point) (start_address point) (n_register point) true;
  let plugin := with_stack s plugin' in
  if ret <=? 0 then Some (test_error plugin req NEU_ERR_PLUGIN_READ_FAILURE) else
  let '(ret, plugin) := process_protocol_buf_test plugin req point size in
  if ret =? 0 then Some (test_error plugin req NEU_ERR_PLUGIN_DEVICE_NOT_RESPONSE)
  else if ret =? -1 then Some (test_error plugin req NEU_ERR_PLUGIN_PROTOCOL_DECODE_FAILURE)
  else if ret =? -2 then Some (test_error plugin req NEU_ERR_PLUGIN_READ_FAILURE)
  else Some plugin.

(** [write_modbus_point] and [write_modbus_points]: write, then wait for the
    answer, whose outcome is ignored. *)
Definition write_and_wait plugin (req slave : Z) (a : modbus_area_e) (start n_reg : Z)
    (bytes : list Z) (n_byte : Z) (response : bool) : option (Z * plugin_t) :=
  '(ret, size, s, plugin') ← modbus_stack_write plugin_ops (stack plugin) plugin req
      slave a start n_reg bytes n_byte 0 response;
  let plugin := with_stack s plugin' in
  if ret >? 0 then
    let '(_, plugin) := process_protocol_buf plugin slave size in Some (ret, plugin)
  else Some (ret, plugin).

Definition write_modbus_point plugin (req : Z) (p : modbus_point_t) (v : neu_value_u) (n_byte : Z)
    : option (Z * plugin_t) :=
  write_and_wait plugin req (slave_id p) (area p) (start_address p) (n_register p)
    (take 256 v) n_byte true.

Definition write_modbus_points plugin (cmd : modbus_write_cmd_t) (req : Z) : option (Z * plugin_t) :=
  write_and_wait plugin req (wc_slave_id cmd) (wc_area cmd) (wc_start_address cmd)
    (wc_n_register cmd) (wc_bytes cmd) (wc_n_byte cmd) false.

Definition modbus_write_tag plugin (req : Z) (tag : neu_datatag_t) (v : neu_value_u)
    : option (Z * plugin_t) :=
  let '(ret, point) := modbus_tag_to_point tag point_zero (address_base plugin) in
  if negb (ret =? 0) then None else
  '(n_byte, v) ← convert_value (endianess plugin) (endianess_64 plugin) v tag point;
  write_modbus_point plugin req point v n_byte.

(** [modbus_write_tags]: every command is sent; one failure turns the single
    response into an error. *)
Fixpoint write_cmds plugin (req : Z) (cmds : list modbus_write_cmd_t) (rv : bool)
    : option (bool * plugin_t) :=
  match cmds with
  | [] => Some (rv, plugin)
  | cmd :: cmds' =>
      '(ret, plugin) ← write_modbus_points plugin cmd req;
      write_cmds plugin req cmds' (rv || (ret <=? 0))
  end.

Definition write_point_zero : modbus_point_write_t := {| point := point_zero; value := value_zero |}.

Definition modbus_write_tags plugin (req : Z) (tags : list neu_plugin_tag_value_t) (max_byte : Z)
    : option plugin_t :=
  points ← mapM (λ t, let '(ret, p) := modbus_write_tag_to_point t write_point_zero
                                         (address_base plugin) in
                      if ret =? 0 then Some p else None) tags;
  cmds ← modbus_write_tags_sort (endianess plugin) (endianess_64 plugin) max_byte points;
  '(failed, plugin) ← write_cmds plugin req cmds false;
  Some (emit [EvWriteResponse req
                (if (failed : bool) then NEU_ERR_PLUGIN_DISCONNECTED else NEU_ERR_SUCCESS)] plugin).
End engine.

(** ** Responses to write requests *)

Definition responses (evs : list driver_event) : list (Z * Z) :=
  omap (λ ev, match ev with EvWriteResponse req error => Some (req, error) | _ => None end) evs.

Lemma responses_app l k : responses (l ++ k) = responses l ++ responses k.
Proof. apply omap_app. Qed.

Lemma responses_updates ups : responses (EvUpdate <$> ups) = [].
Proof. by induction ups. Qed.

(** [modbus_stack_recv] does nothing to the plugin but deliver values. *)
Definition delivers {Ctx Req} (ops : stack_ops Ctx Req) (ctx ctx' : Ctx) : Prop :=
  ctx' = ctx ∨ ∃ sl n bytes, ctx' = value_fn ops ctx sl n bytes 0.

Lemma recv_values_ctx {Ctx Req} (ops : stack_ops Ctx Req) s ctx h code b r :
  recv_values ops s ctx h code b = Some r → delivers ops ctx r.2.
Proof.
  unfold recv_values. destruct (modbus_data_unwrap b) as [[ret b1] data].
  destruct (ret <=? 0); [done|]. destruct (take_bytes _ _) as [[bytes b2]|]; [|done].
  simpl. intros [= <-]. right. by do 3 eexists.
Qed.

Lemma stack_recv_ctx {Ctx Req} (ops : stack_ops Ctx Req) s ctx slave b :
  delivers ops ctx (modbus_stack_recv ops s ctx slave b).2.
Proof.
  unfold modbus_stack_recv.
  assert (Hid : delivers ops ctx ctx) by by left.
  assert (Hf : ∀ h code b, match recv_function ops s ctx h code b with
    | inl r => delivers ops ctx r.2 | inr r => delivers ops ctx r.2 end).
  { intros h code b'. unfold recv_function. destruct (is_read_function _).
    { destruct (recv_values ops s ctx h code b') as [r|] eqn:E; [|done].
      by apply recv_values_ctx in E. }
    destruct (is_addressed_write _).
    { destruct (modbus_address_unwrap b') as [[ret b1] adr]. by destruct (ret <=? 0). }
    destruct (is_error_function _); [done|]. by destruct (_ =? _). }
  destruct (if is_tcp _ then _ else _) as [[ok b1] h]. destruct ok; [|done]. simpl.
  destruct (modbus_code_unwrap b1) as [[ret b2] code]. destruct (ret <=? 0); [done|].
  destruct (code_slave_id code =? slave); [|done]. simpl. specialize (Hf h code b2).
  destruct (recv_function ops s ctx h code b2) as [r|[b3 ctx']]; [done|]. simpl in Hf.
  destruct (is_tcp _); [done|]. destruct (modbus_crc_unwrap b3) as [[ret' b4] crc].
  by destruct (ret' <=? 0).
Qed.

Section engine_lemmas.
Context {Conn Param : Type} (cops : conn_ops Conn Param).
Implicit Types (plugin : neu_plugin Conn Param).

Lemma send_msg_out plugin bytes : out (modbus_send_msg cops plugin bytes).2 = out plugin.
Proof.
  unfold modbus_send_msg. simpl. destruct (is_server plugin).
  { by destruct (neu_conn_tcp_server_send _ _ _ _). }
  destruct (backup plugin && _); simpl; [destruct (negb (current_backup plugin) && _); simpl|];
    by destruct (neu_conn_send _ _ _).
Qed.

(** Delivering values adds events to the trace and nothing else. *)
Lemma value_handle_emits plugin sl n bytes error :
  ∃ evs, value_handle plugin sl n bytes error = emit evs plugin ∧ responses evs = [].
Proof.
  unfold value_handle. destruct (current_cmd plugin) as [[gd cmd]|]; [|by eexists].
  destruct (modbus_value_handle _ _ _ _ _ _ _ _) as [ups|]; [|by eexists].
  eexists. split; [done|]. apply responses_updates.
Qed.

Lemma value_handle_responses plugin sl n bytes error :
  responses (out (value_handle plugin sl n bytes error)) = responses (out plugin).
Proof.
  destruct (value_handle_emits plugin sl n bytes error) as (evs & -> & Hevs). simpl.
  by rewrite responses_app, Hevs, app_nil_r.
Qed.

Lemma delivers_responses plugin plugin' :
  delivers (plugin_ops cops) plugin plugin' → responses (out plugin') = responses (out plugin).
Proof. intros [->|(sl & n & bytes & ->)]; [done|]. apply value_handle_responses. Qed.

Lemma process_received_responses plugin buf size expected slave :
  responses (out (process_received_data cops plugin buf size expected slave).2) =
    responses (out plugin).
Proof.
  unfold process_received_data.
  pose proof (stack_recv_ctx (plugin_ops cops) (stack plugin) plugin slave
    (neu_protocol_unpack_buf_init buf (u16 size))) as Hd.
  destruct (modbus_stack_recv _ _ _ _ _) as [ret plugin']. simpl in Hd.
  apply delivers_responses in Hd. by destruct (ret =? _).
Qed.

Lemma recv_data_out plugin size ret data plugin' :
  recv_data cops plugin size = (ret, data, plugin') → out plugin' = out plugin.
Proof. unfold recv_data. destruct (if is_server plugin then _ else _) as [[? ?] ?]. by intros [= <- <- <-]. Qed.

Lemma valid_tcp_out plugin buf size ret buf' plugin' :
  valid_modbus_tcp_response cops plugin buf size = (ret, buf', plugin') → out plugin' = out plugin.
Proof.
  unfold valid_modbus_tcp_response.
  destruct (recv_data cops plugin sizeof_header) as [[r1 d1] p1] eqn:E1.
  apply recv_data_out in E1. destruct (r1 <=? 0); [by intros [= <- <- <-]|].
  destruct (r1 =? sizeof_header); [|by intros [= <- <- <-]]. cbn [negb].
  destruct (_ >? _); [by intros [= <- <- <-]|].
  destruct (recv_data cops p1 _) as [[r2 d2] p2] eqn:E2. apply recv_data_out in E2.
  intros [= <- <- <-]. congruence.
Qed.

Lemma process_protocol_buf_responses plugin slave size :
  responses (out (process_protocol_buf cops plugin slave size).2) = responses (out plugin).
Proof.
  unfold process_protocol_buf, process_modbus_tcp, process_modbus_rtu.
  destruct (protocol (stack plugin)).
  - destruct (valid_modbus_tcp_response _ _ _ _) as [[total buf] plugin'] eqn:E.
    apply valid_tcp_out in E. destruct (total >? 0); [|by rewrite <-E].
    by rewrite process_received_responses, E.
  - destruct (recv_data cops plugin size) as [[ret data] plugin'] eqn:E.
    apply recv_data_out in E. destruct (_ || _); [by rewrite <-E|].
    by rewrite process_received_responses, E.
Qed.

Definition writable_area (a : modbus_area_e) : Prop :=
  a = MODBUS_AREA_COIL ∨ a = MODBUS_AREA_HOLD_REGISTER.

(** The answer to a write as the stack words it. *)
Definition outcome (ret : Z) : Z :=
  if ret >? 0 then NEU_ERR_SUCCESS else NEU_ERR_PLUGIN_DISCONNECTED.

Lemma stack_write_responses plugin s req slave a start n_reg bytes n_byte size response r :
  writable_area a →
  modbus_stack_write (plugin_ops cops) s plugin req slave a start n_reg bytes n_byte size response =
    Some r →
  responses (out r.2) = responses (out plugin) ++
    (if response then [(req, outcome r.1.1.1)] else []).
Proof.
  intros Ha. unfold modbus_stack_write.
  destruct (frame_begin _ _) as [b0|]; [|done]. cbn [mbind option_bind].
  assert (Hbody : ∀ b b' plugin', write_body (plugin_ops cops) plugin req slave a start n_reg bytes
    n_byte b = Some (b', plugin') → plugin' = plugin).
  { intros b b' plugin'. unfold write_body. destruct Ha as [-> | ->]; [destruct (n_byte >? 1)|];
      intros Heq; repeat (apply bind_Some in Heq as (? & _ & Heq)); congruence. }
  destruct (write_body _ _ _ _ _ _ _ _ _ _) as [[b1 plugin1]|] eqn:Eb; [|done].
  apply Hbody in Eb as ->. cbn [mbind option_bind].
  destruct (frame_end _ _ _) as [b2|]; [|done]. cbn [mbind option_bind].
  match goal with |- context [send_fn _ _ ?f] => set (frame := f) end.
  pose proof (send_msg_out plugin frame) as Ho. simpl.
  destruct (modbus_send_msg cops plugin frame) as [ret plugin2]. simpl in Ho.
  intros [= <-]. simpl. destruct response; simpl; [|by rewrite Ho, app_nil_r].
  by rewrite responses_app, Ho.
Qed.

Lemma write_and_wait_responses plugin req slave a start n_reg bytes n_byte response r :
  writable_area a →
  write_and_wait cops plugin req slave a start n_reg bytes n_byte response = Some r →
  responses (out r.2) = responses (out plugin) ++ (if response then [(req, outcome r.1)] else []).
Proof.
  intros Ha. unfold write_and_wait.
  destruct (modbus_stack_write _ _ _ _ _ _ _ _ _ _ _ _) as [[[[ret size] s] plugin1]|] eqn:E; [|done].
  apply stack_write_responses in E; [|done]. cbn [mbind option_bind fst snd] in *.
  destruct (ret >? 0).
  - pose proof (process_protocol_buf_responses (with_stack s plugin1) slave size) as Hp.
    destruct (process_protocol_buf _ _ _ _) as [? plugin2]. intros [= <-]. simpl in *.
    by rewrite Hp.
  - by intros [= <-].
Qed.

Lemma write_cmds_responses cmds plugin req rv failed plugin' :
  Forall (λ c, writable_area (wc_area c)) cmds →
  write_cmds cops plugin req cmds rv = Some (failed, plugin') →
  responses (out plugin') = responses (out plugin).
Proof.
  revert plugin rv. induction cmds as [|cmd cmds IH]; intros plugin rv Hw; simpl.
  { by intros [= <- <-]. }
  apply Forall_cons in Hw as [Hc Hw].
  destruct (write_modbus_points cops plugin cmd req) as [[ret plugin1]|] eqn:E; [|done].
  apply write_and_wait_responses in E; [|done]. cbn [mbind option_bind].
  intros Hrest. apply IH in Hrest; [|done]. rewrite Hrest. simpl in E. by rewrite E, app_nil_r.
Qed.

(** The tags of a batch that the plugin can write. *)
Definition batch_ok (t : neu_plugin_tag_value_t) : Prop :=
  attribute_test (tag_attribute (ptv_tag t)) NEU_ATTRIBUTE_WRITE = true ∧
  length (ptv_value t) = 264%nat ∧
  tag_type (ptv_tag t) ∈ [NEU_TYPE_UINT16; NEU_TYPE_INT16; NEU_TYPE_FLOAT; NEU_TYPE_UINT32;
    NEU_TYPE_INT32; NEU_TYPE_DOUBLE; NEU_TYPE_INT64; NEU_TYPE_UINT64; NEU_TYPE_BIT;
    NEU_TYPE_STRING; NEU_TYPE_BYTES].

Lemma batch_write_ok t base p :
  batch_ok t → modbus_write_tag_to_point t write_point_zero base = (0, p) → write_ok p.
Proof.
  intros (Hattr & Hlen & Hty). unfold modbus_write_tag_to_point. simpl.
  destruct (modbus_tag_to_point (ptv_tag t) point_zero base) as [r q] eqn:E. intros [= -> <-].
  destruct (tag_to_point_wf _ _ _ E) as (Hok & Hqty & _).
  assert (Hw : ∃ n, wire_bytes q = Some n).
  { unfold wire_bytes. rewrite Hqty. clear -Hty. revert Hty. generalize (tag_type (ptv_tag t)).
    intros ty Hty. repeat (apply elem_of_cons in Hty as [->|Hty]; [by eexists|]).
    by apply not_elem_of_nil in Hty. }
  destruct Hw as [n Hn]. split; simpl; [done| |done|].
  - exists n. split; [done|]. by apply (tag_to_point_wire _ _ _ _ E).
  - destruct (tag_to_point_writable _ _ _ E Hattr) as [?|[? _]]; [by left|by right].
Qed.

Lemma convert_value_total e e64 v tag base p :
  batch_ok {| ptv_tag := tag; ptv_value := v |} →
  modbus_tag_to_point tag point_zero base = (NEU_ERR_SUCCESS, p) →
  ∃ n w, convert_value e e64 v tag p = Some (n, w) ∧ 0 <= n <= 128.
Proof.
  intros (_ & _ & Hty) E. simpl in Hty. destruct (tag_to_point_wf _ _ _ E) as (_ & Hq & _).
  assert (Hwire : ∀ n, wire_bytes p = Some n → 0 <= n <= 128).
  { intros n Hn. destruct (tag_to_point_wire _ _ _ _ E Hn). lia. }
  unfold wire_bytes in Hwire. rewrite Hq in Hwire. unfold convert_value.
  destruct (tag_type tag); try (by exfalso; clear -Hty; set_solver);
    eexists _, _; (split; [reflexivity|]); specialize (Hwire _ eq_refl); try lia.
  rewrite u8_id; lia.
Qed.

Lemma write_and_wait_total plugin req slave a start n_reg bytes n_byte response :
  0 <= n_byte <= 243 →
  is_Some (write_and_wait cops plugin req slave a start n_reg bytes n_byte response).
Proof.
  intros Hn. unfold write_and_wait.
  destruct (stack_write_total (plugin_ops cops) (stack plugin) plugin req slave a start n_reg bytes
    n_byte 0 response Hn) as [[[[ret size] st] p1] ->]. cbn [mbind option_bind].
  destruct (ret >? 0); [destruct (process_protocol_buf _ _ _ _)|]; by eexists.
Qed.

(** A single write gets exactly one answer.  For a writable tag that parses
    and has a type the plugin can encode, [modbus_write_tag] returns (no assert
    fails) and has answered the request once, with success exactly when the
    frame could be sent. *)
Theorem write_tag_responds plugin req tag v :
  batch_ok {| ptv_tag := tag; ptv_value := v |} →
  (modbus_tag_to_point tag point_zero (address_base plugin)).1 = NEU_ERR_SUCCESS →
  ∃ ret plugin', modbus_write_tag cops plugin req tag v = Some (ret, plugin') ∧
    responses (out plugin') = responses (out plugin) ++ [(req, outcome ret)].
Proof.
  intros Hb Hparse. unfold modbus_write_tag.
  destruct (modbus_tag_to_point tag point_zero (address_base plugin)) as [r p] eqn:E.
  simpl in Hparse. subst r. change (negb (NEU_ERR_SUCCESS =? 0)) with false. cbv iota.
  destruct (convert_value_total (endianess plugin) (endianess_64 plugin) _ _ _ _ Hb E)
    as (n & w & -> & Hn). cbn [mbind option_bind].
  destruct (write_and_wait_total plugin req (slave_id p) (area p) (start_address p) (n_register p)
    (take 256 w) n true ltac:(lia)) as [[ret plugin'] Hw].
  exists ret, plugin'. split; [exact Hw|]. apply write_and_wait_responses in Hw; [done|].
  destruct Hb as (Hattr & _). destruct (tag_to_point_writable _ _ _ E Hattr) as [?|[? _]];
    [by left|by right].
Qed.

Lemma write_cmds_total cmds : ∀ plugin req rv,
  Forall (λ c, 0 <= wc_n_byte c <= 243) cmds → is_Some (write_cmds cops plugin req cmds rv).
Proof.
  induction cmds as [|cmd cmds IH]; intros plugin req rv Hn; simpl; [by eexists|].
  apply Forall_cons in Hn as [Hc Hn].
  destruct (write_and_wait_total plugin req (wc_slave_id cmd) (wc_area cmd) (wc_start_address cmd)
    (wc_n_register cmd) (wc_bytes cmd) (wc_n_byte cmd) false Hc) as [[ret p1] Hw].
  unfold write_modbus_points. rewrite Hw. cbn [mbind option_bind]. by apply IH.
Qed.

(** The points of a batch whose tags all parse. *)
Definition batch_points (base : modbus_address_base) (tags : list neu_plugin_tag_value_t)
    : list modbus_point_t :=
  (λ t, (modbus_tag_to_point (ptv_tag t) point_zero base).2) <$> tags.
Definition batch_parses (base : modbus_address_base) (t : neu_plugin_tag_value_t) : Prop :=
  (modbus_tag_to_point (ptv_tag t) point_zero base).1 = NEU_ERR_SUCCESS.

Lemma batch_mapM base tags :
  Forall batch_ok tags → Forall (batch_parses base) tags →
  ∃ points, mapM (λ t, let '(ret, p) := modbus_write_tag_to_point t write_point_zero base in
                       if ret =? 0 then Some p else None) tags = Some points ∧
    Forall write_ok points ∧ point <$> points = batch_points base tags.
Proof.
  induction tags as [|t tags IH]; intros Hok Hp; [by exists []; repeat split; constructor|].
  apply Forall_cons in Hok as [Ht Hok]. apply Forall_cons in Hp as [Hpt Hp].
  destruct (IH Hok Hp) as (points & Hm & Hw & Heq). cbn [mapM].
  destruct (modbus_write_tag_to_point t write_point_zero base) as [r q] eqn:E.
  pose proof E as Eq. unfold modbus_write_tag_to_point in Eq. unfold batch_parses in Hpt.
  simpl in Eq. destruct (modbus_tag_to_point (ptv_tag t) point_zero base) as [r' q'] eqn:E'.
  simpl in Hpt. subst r'. injection Eq as <- <-. change (NEU_ERR_SUCCESS =? 0) with true. cbv iota.
  cbn [mbind option_bind]. rewrite Hm. cbn [mbind option_bind]. eexists. split; [reflexivity|].
  split; [constructor; [by eapply batch_write_ok|done]|].
  unfold batch_points. rewrite !fmap_cons, E'. simpl. f_equal. exact Heq.
Qed.

(** Every command of a plan is as small as the batch. *)
Lemma wire_sum_nonneg pts : Forall (λ p, ∃ n, wire_bytes p = Some n ∧ 0 <= n) pts → 0 <= wire_sum pts.
Proof.
  induction 1 as [|p pts (n & Hn & Hle) _ IH]; simpl; [done|]. rewrite Hn. simpl. unfold wire_sum, id in *. lia.
Qed.

Lemma wire_sum_app l k : wire_sum (l ++ k) = wire_sum l + wire_sum k.
Proof. induction l as [|p l IH]; simpl; [done|]. unfold wire_sum in *. lia. Qed.

Lemma wire_sum_perm l k : l ≡ₚ k → wire_sum l = wire_sum k.
Proof. induction 1; simpl; unfold wire_sum in *; lia. Qed.

Lemma wire_sum_group groups g :
  Forall (λ p, ∃ n, wire_bytes p = Some n ∧ 0 <= n) (concat groups) → g ∈ groups →
  0 <= wire_sum g <= wire_sum (concat groups).
Proof.
  intros Hall. induction groups as [|g' groups IH]; [by intros ?%not_elem_of_nil|].
  cbn [concat] in *. apply Forall_app in Hall as [Hg Hgs]. rewrite wire_sum_app.
  pose proof (wire_sum_nonneg _ Hg). pose proof (wire_sum_nonneg _ Hgs).
  intros [->|Hin]%elem_of_cons; [lia|]. specialize (IH Hgs Hin). lia.
Qed.

(** A batch of writes gets exactly one answer.  For writable tags that parse
    and can be encoded, in at most 243 bytes together, [modbus_write_tags]
    returns (no assert fails, every frame fits its buffer) and, however the
    transmissions end, has answered the request exactly once. *)
Theorem write_tags_respond plugin req tags max_byte :
  Forall batch_ok tags → Forall (batch_parses (address_base plugin)) tags →
  Z.of_nat (length tags) < 65536 → 2 <= max_byte <= 528 →
  wire_sum (batch_points (address_base plugin) tags) <= 243 →
  ∃ plugin' error, modbus_write_tags cops plugin req tags max_byte = Some plugin' ∧
    responses (out plugin') = responses (out plugin) ++ [(req, error)] ∧
    (error = NEU_ERR_SUCCESS ∨ error = NEU_ERR_PLUGIN_DISCONNECTED).
Proof.
  intros Hok Hparse Hlen Hmax Hsum. unfold modbus_write_tags.
  destruct (batch_mapM _ _ Hok Hparse) as (points & -> & Hpts & Hpp). cbn [mbind option_bind].
  assert (Hpl : length points = length tags).
  { by rewrite <-(length_fmap point points), Hpp; unfold batch_points; rewrite length_fmap. }
  destruct (write_tags_sort_spec (endianess plugin) (endianess_64 plugin) max_byte points)
    as (cmds & groups & -> & Hperm & Hcmds); [done|lia|done|]. cbn [mbind option_bind].
  assert (Hall : Forall (λ p, writable_area (area p) ∧ ∃ n, wire_bytes p = Some n ∧ 0 <= n)
                   (concat groups)).
  { rewrite Hperm, Forall_fmap. eapply Forall_impl; [exact Hpts|]. intros t [_ (n & Hn & ?) _ Ha].
    split; [exact Ha|]. exists n. split; [done|lia]. }
  apply Forall_and in Hall as [Hareas Hwire].
  assert (Hc : Forall (λ c, writable_area (wc_area c) ∧ 0 <= wc_n_byte c <= 243) cmds).
  { apply Forall_forall. intros c Hin. apply list_elem_of_lookup in Hin as [i Hi].
    destruct (Forall2_lookup_l _ _ _ _ _ Hcmds Hi) as (g & Hg & [_ Hne Hin _ Hnb]).
    apply list_elem_of_lookup_2 in Hg. split.
    - destruct g as [|p g]; [done|]. apply Forall_cons in Hin as [(_ & <- & _) _].
      rewrite Forall_forall in Hareas. apply Hareas. rewrite list_elem_of_In. apply in_concat.
      exists (p :: g). split; [by apply list_elem_of_In|by left].
    - pose proof (wire_sum_group _ _ Hwire Hg) as Hb.
      rewrite (wire_sum_perm _ _ Hperm), Hpp in Hb. rewrite Hnb, u8_id; lia. }
  apply Forall_and in Hc as [Hca Hcn].
  destruct (write_cmds_total cmds plugin req false Hcn) as [[failed plugin1] Ew]. rewrite Ew.
  apply write_cmds_responses in Ew; [|done]. cbn [mbind option_bind].
  eexists _, _. split; [done|]. simpl. rewrite responses_app, Ew. split; [done|].
  destruct failed; [by right|by left].
Qed.

(** ** Degradation of silent slaves *)

Definition slaves_wf (g : slave_state) : Prop :=
  length (failed_cycles g) = 256%nat ∧ length (skip g) = 256%nat.

(** [n] polling cycles in which the slave stays silent. *)
Definition silent_cycles (cycle : Z) (slave : Z) (n : nat) (g : slave_state) : slave_state :=
  Nat.iter n (λ g, degrade cycle g slave true) g.

Lemma degrade_silent cycle g slave n :
  slaves_wf g → is_u8 slave → slave_failed g slave = Z.of_nat n → Z.of_nat n + 1 <= 255 →
  slaves_wf (degrade cycle g slave true) ∧
  if Z.of_nat n + 1 <? cycle
  then slave_failed (degrade cycle g slave true) slave = Z.of_nat n + 1 ∧
       slave_skipped (degrade cycle g slave true) slave = slave_skipped g slave
  else slave_failed (degrade cycle g slave true) slave = 0 ∧
       slave_skipped (degrade cycle g slave true) slave = true.
Proof.
  intros [Hl1 Hl2] Hs Hf Hn. unfold degrade. rewrite Hf, u8_id by lia.
  assert (Hi : (Z.to_nat slave < 256)%nat) by lia.
  assert (Hnth : ∀ (A : Type) (x d : A) (l : list A), length l = 256%nat →
    nth (Z.to_nat slave) (<[Z.to_nat slave := x]> l) d = x).
  { intros A x d l Hl. apply nth_lookup_Some. by rewrite list_lookup_insert_eq by lia. }
  assert (Hset : slave_failed {| failed_cycles := <[Z.to_nat slave := Z.of_nat n + 1]> (failed_cycles g);
    skip := skip g |} slave = Z.of_nat n + 1) by (unfold slave_failed; simpl; by apply Hnth).
  rewrite Hset. rewrite Z.geb_leb.
  destruct (Z.ltb_spec (Z.of_nat n + 1) cycle) as [Hlt|Hge].
  - destruct (Z.leb_spec cycle (Z.of_nat n + 1)); [lia|].
    split; [split; simpl; rewrite ?length_insert; done|]. split; [done|done].
  - destruct (Z.leb_spec cycle (Z.of_nat n + 1)); [|lia].
    split; [split; simpl; rewrite ?length_insert; done|].
    unfold slave_failed, slave_skipped, set_skip_timer. simpl.
    split; apply Hnth; by rewrite ?length_insert.
Qed.

(** A silent slave is set aside after exactly the configured number of
    cycles.  For a threshold that fits the 8-bit counter, [degrade_cycle]
    consecutive cycles without an answer, and no fewer, mark the slave as
    skipped and reset its counter; the timer ends the pause. *)
Theorem degrade_threshold g slave n cycle :
  slaves_wf g → is_u8 slave → slave_failed g slave = 0 → slave_skipped g slave = false →
  (n <= Z.to_nat cycle)%nat → 1 <= cycle <= 255 →
  slave_skipped (silent_cycles cycle slave n g) slave = bool_decide (n = Z.to_nat cycle) ∧
  slave_failed (silent_cycles cycle slave n g) slave =
    (if decide (n = Z.to_nat cycle) then 0 else Z.of_nat n) ∧
  slave_skipped (degrade_timer (silent_cycles cycle slave n g) slave) slave = false.
Proof.
  intros Hwf Hs Hf Hk Hn Hc.
  assert (Hgen : ∀ m, (m <= n)%nat → slaves_wf (silent_cycles cycle slave m g) ∧
    slave_skipped (silent_cycles cycle slave m g) slave = bool_decide (m = Z.to_nat cycle) ∧
    slave_failed (silent_cycles cycle slave m g) slave =
      (if decide (m = Z.to_nat cycle) then 0 else Z.of_nat m)).
  { induction m as [|m IH]; intros Hm.
    { simpl. rewrite bool_decide_eq_false_2, decide_False by lia. done. }
    destruct IH as (IHwf & IHs & IHf); [lia|]. rewrite decide_False in IHf by lia.
    change (silent_cycles cycle slave (S m) g)
      with (degrade cycle (silent_cycles cycle slave m g) slave true).
    destruct (degrade_silent cycle (silent_cycles cycle slave m g) slave m) as [Hwf' Hcase];
      [done|done|done|lia|]. split; [done|].
    destruct (Z.ltb_spec (Z.of_nat m + 1) cycle); destruct Hcase as [-> ->].
    - rewrite IHs, !bool_decide_eq_false_2, decide_False by lia. split; [done|lia].
    - rewrite bool_decide_eq_true_2, decide_True by lia. done. }
  destruct (Hgen n (Nat.le_refl n)) as ([_ Hwl] & Hsk & Hfl). split_and!; [done|done|].
  unfold slave_skipped, degrade_timer. simpl. apply nth_lookup_Some.
  by rewrite list_lookup_insert_eq by lia.
Qed.

(** A threshold above 255 never takes effect.  The configuration accepts
    thresholds up to 65535, but the counter of failed cycles has eight bits:
    with a threshold of 256 or more no number of silent cycles makes the plugin
    skip the slave. *)
Theorem degrade_unreachable g slave n cycle :
  slaves_wf g → is_u8 slave → 256 <= cycle → slave_failed g slave < 256 →
  slave_skipped (silent_cycles cycle slave n g) slave = slave_skipped g slave.
Proof.
  intros [Hl1 Hl2] Hs Hc Hf.
  assert (Hgen : length (failed_cycles (silent_cycles cycle slave n g)) = 256%nat ∧
    skip (silent_cycles cycle slave n g) = skip g); [|by unfold slave_skipped; destruct Hgen as [_ ->]].
  induction n as [|n [IH1 IH2]]; [done|].
  change (silent_cycles cycle slave (S n) g)
    with (degrade cycle (silent_cycles cycle slave n g) slave true).
  set (g' := silent_cycles cycle slave n g) in *. unfold degrade.
  set (c := u8 (slave_failed g' slave + 1)).
  assert (Hset : slave_failed {| failed_cycles := <[Z.to_nat slave := c]> (failed_cycles g');
    skip := skip g' |} slave = c).
  { unfold slave_failed. simpl. apply nth_lookup_Some. by rewrite list_lookup_insert_eq by lia. }
  rewrite Hset. pose proof (u8_range (slave_failed g' slave + 1)) as Hr. fold c in Hr.
  destruct (Z.geb_spec c cycle); [lia|]. simpl. by rewrite length_insert.
Qed.

(** ** Fail-over *)

(** The device a send goes to when the connection is down. *)
Definition after_sends (n : nat) (frame : list Z) plugin : neu_plugin Conn Param :=
  Nat.iter n (λ p, (modbus_send_msg cops p frame).2) plugin.

(** Fail-over alternates.  As long as the connection stays down, a client
    with a backup device tries the original device first and then alternates
    between the backup and the original device with every request. *)
Theorem failover_alternates plugin frame n :
  (∀ c, neu_conn_is_connected cops c = false) →
  backup plugin = true → is_server plugin = false → first_attempt_done plugin = false →
  current_backup (after_sends (S n) frame plugin) = Nat.odd n ∧
  first_attempt_done (after_sends (S n) frame plugin) = true.
Proof.
  intros Hdown Hb Hsrv Hfirst.
  assert (Hstep : ∀ p, backup p = true → is_server p = false →
    let p' := (modbus_send_msg cops p frame).2 in
    backup p' = true ∧ is_server p' = false ∧ first_attempt_done p' = true ∧
    current_backup p' = negb (current_backup p) && first_attempt_done p).
  { intros p Hpb Hps. unfold modbus_send_msg. simpl. rewrite Hps, Hpb, Hdown. simpl.
    destruct (negb (current_backup p) && first_attempt_done p) eqn:E; simpl;
      destruct (neu_conn_send _ _ _); simpl; split_and!; try done.
    by apply andb_true_iff in E as [_ ->]. }
  assert (Hgen : ∀ m, let p := after_sends (S m) frame plugin in
    backup p = true ∧ is_server p = false ∧ first_attempt_done p = true ∧
    current_backup p = Nat.odd m).
  { induction m as [|m IH].
    - simpl. destruct (Hstep plugin Hb Hsrv) as (H1 & H2 & H3 & H4). split_and!; try done.
      by rewrite H4, Hfirst, andb_false_r.
    - destruct IH as (H1 & H2 & H3 & H4).
      change (after_sends (S (S m)) frame plugin)
        with (modbus_send_msg cops (after_sends (S m) frame plugin) frame).2.
      destruct (Hstep _ H1 H2) as (H1' & H2' & H3' & H4'). split_and!; try done.
      rewrite H4', H3, H4, andb_true_r, Nat.odd_succ. by rewrite <-Nat.negb_odd. }
  destruct (Hgen n) as (_ & _ & ? & ?). done.
Qed.

(** ** What a request leaves alone *)

(** Everything of the plugin but the connection, the fail-over flags and the
    trace. *)
Definition config plugin :=
  (stack plugin, plugin_group_data plugin, cmd_idx plugin,
   (is_server plugin, client_fd plugin, backup plugin),
   (endianess plugin, endianess_64 plugin, address_base plugin),
   (max_retries plugin, plugin_check_header plugin, degradation plugin, degrade_cycle plugin)).

Lemma send_msg_config plugin bytes : config (modbus_send_msg cops plugin bytes).2 = config plugin.
Proof.
  unfold modbus_send_msg. simpl. destruct (is_server plugin) eqn:Es.
  { by destruct (neu_conn_tcp_server_send _ _ _ _). }
  destruct (backup plugin && _); simpl; [destruct (negb (current_backup plugin) && _); simpl|];
    by destruct (neu_conn_send _ _ _).
Qed.

Lemma value_handle_config plugin sl n bytes error :
  config (value_handle plugin sl n bytes error) = config plugin.
Proof.
  by destruct (value_handle_emits plugin sl n bytes error) as (evs & -> & _).
Qed.

Lemma recv_data_config plugin size ret data plugin' :
  recv_data cops plugin size = (ret, data, plugin') → config plugin' = config plugin.
Proof. unfold recv_data. destruct (if is_server plugin then _ else _) as [[? ?] ?]. by intros [= <- <- <-]. Qed.

Lemma process_received_config plugin buf size expected slave :
  config (process_received_data cops plugin buf size expected slave).2 = config plugin.
Proof.
  unfold process_received_data.
  pose proof (stack_recv_ctx (plugin_ops cops) (stack plugin) plugin slave
    (neu_protocol_unpack_buf_init buf (u16 size))) as Hd.
  destruct (modbus_stack_recv _ _ _ _ _) as [ret plugin']. simpl in Hd.
  assert (config plugin' = config plugin).
  { destruct Hd as [->|(sl & n & bytes & ->)]; [done|apply value_handle_config]. }
  by destruct (ret =? _).
Qed.

Lemma valid_tcp_config plugin buf size ret buf' plugin' :
  valid_modbus_tcp_response cops plugin buf size = (ret, buf', plugin') →
  config plugin' = config plugin.
Proof.
  unfold valid_modbus_tcp_response.
  destruct (recv_data cops plugin sizeof_header) as [[r1 d1] p1] eqn:E1.
  apply recv_data_config in E1. destruct (r1 <=? 0); [by intros [= <- <- <-]|].
  destruct (r1 =? sizeof_header); [|by intros [= <- <- <-]]. cbn [negb].
  destruct (_ >? _); [by intros [= <- <- <-]|].
  destruct (recv_data cops p1 _) as [[r2 d2] p2] eqn:E2. apply recv_data_config in E2.
  intros [= <- <- <-]. congruence.
Qed.

Lemma process_protocol_buf_config plugin slave size :
  config (process_protocol_buf cops plugin slave size).2 = config plugin.
Proof.
  unfold process_protocol_buf, process_modbus_tcp, process_modbus_rtu.
  destruct (protocol (stack plugin)).
  - destruct (valid_modbus_tcp_response _ _ _ _) as [[total buf] plugin'] eqn:E.
    apply valid_tcp_config in E. destruct (total >? 0); [|done].
    by rewrite process_received_config.
  - destruct (recv_data cops plugin size) as [[ret data] plugin'] eqn:E.
    apply recv_data_config in E. destruct (_ || _); [done|].
    by rewrite process_received_config.
Qed.

Lemma config_stack p p' : config p' = config p → stack p' = stack p.
Proof. unfold config. congruence. Qed.

Lemma config_retries p p' : config p' = config p → max_retries p' = max_retries p.
Proof. unfold config. congruence. Qed.

(** What receiving leaves alone of the connection. *)
Section observed.
Context {A : Type} (obs : Conn → A).
Context (obs_recv : ∀ c n, obs (neu_conn_recv cops c n).2 = obs c).
Context (obs_server_recv : ∀ c fd n, obs (neu_conn_tcp_server_recv cops c fd n).2 = obs c).

Lemma recv_data_obs plugin size ret data plugin' :
  recv_data cops plugin size = (ret, data, plugin') → obs (conn plugin') = obs (conn plugin).
Proof using obs_recv obs_server_recv.
  unfold recv_data. destruct (is_server plugin).
  - pose proof (obs_server_recv (conn plugin) (client_fd plugin) size) as Ho.
    destruct (neu_conn_tcp_server_recv _ _ _ _) as [[? ?] ?]. by intros [= <- <- <-].
  - pose proof (obs_recv (conn plugin) size) as Ho.
    destruct (neu_conn_recv _ _ _) as [[? ?] ?]. by intros [= <- <- <-].
Qed.

Lemma valid_tcp_obs plugin buf size ret buf' plugin' :
  valid_modbus_tcp_response cops plugin buf size = (ret, buf', plugin') →
  obs (conn plugin') = obs (conn plugin).
Proof using obs_recv obs_server_recv.
  unfold valid_modbus_tcp_response.
  destruct (recv_data cops plugin sizeof_header) as [[r1 d1] p1] eqn:E1.
  apply recv_data_obs in E1. destruct (r1 <=? 0); [by intros [= <- <- <-]|].
  destruct (r1 =? sizeof_header); [|by intros [= <- <- <-]]. cbn [negb].
  destruct (_ >? _); [by intros [= <- <- <-]|].
  destruct (recv_data cops p1 _) as [[r2 d2] p2] eqn:E2. apply recv_data_obs in E2.
  intros [= <- <- <-]. congruence.
Qed.

Lemma process_received_obs plugin buf size expected slave :
  obs (conn (process_received_data cops plugin buf size expected slave).2) = obs (conn plugin).
Proof using.
  unfold process_received_data.
  pose proof (stack_recv_ctx (plugin_ops cops) (stack plugin) plugin slave
    (neu_protocol_unpack_buf_init buf (u16 size))) as Hd.
  destruct (modbus_stack_recv _ _ _ _ _) as [ret plugin']. cbn [snd] in Hd.
  assert (conn plugin' = conn plugin).
  { destruct Hd as [->|(sl & n & bytes & ->)]; [done|].
    cbn [value_fn plugin_ops]. by destruct (value_handle_emits plugin sl n bytes 0) as (evs & -> & _). }
  destruct (ret =? _); cbn [snd]; congruence.
Qed.

Lemma process_protocol_buf_obs plugin slave size :
  obs (conn (process_protocol_buf cops plugin slave size).2) = obs (conn plugin).
Proof using obs_recv obs_server_recv.
  unfold process_protocol_buf, process_modbus_tcp, process_modbus_rtu.
  destruct (protocol (stack plugin)).
  - destruct (valid_modbus_tcp_response _ _ _ _) as [[total buf] plugin'] eqn:E.
    apply valid_tcp_obs in E. destruct (total >? 0); [|done]. by rewrite process_received_obs.
  - destruct (recv_data cops plugin size) as [[ret data] plugin'] eqn:E.
    apply recv_data_obs in E. destruct (_ || _); [done|]. by rewrite process_received_obs.
Qed.
End observed.

(** ** Defined behaviour *)

Definition undefined (evs : list driver_event) : bool :=
  existsb (λ ev, match ev with EvUndefined => true | _ => false end) evs.

Lemma undefined_updates evs ups : undefined (evs ++ (EvUpdate <$> ups)) = undefined evs.
Proof.
  unfold undefined. rewrite existsb_app. induction ups as [|u ups IH]; simpl in *; [apply orb_false_r|done].
Qed.

(** A tag of a bit in a register has a bit number below 16, as
    [modbus_tag_to_point] checks. *)
Definition bit_ok (p : modbus_point_t) : Prop :=
  point_type p = Some NEU_TYPE_BIT → is_bit_area (area p) = false → 0 <= opt_bit (option_ p) <= 15.

(** A command is being polled whose tags have such bit numbers. *)
Definition polling plugin : Prop :=
  ∃ gd cmd, current_cmd plugin = Some (gd, cmd) ∧ Forall bit_ok (rc_tags cmd).

Lemma point_value_total e e64 cmd slave n_byte bytes p :
  bit_ok p → is_Some (point_value e e64 cmd slave n_byte bytes p).
Proof.
  intros Hp. unfold point_value. destruct (_ || _); [by eexists|].
  assert (is_Some (extract_value (rc_start_address cmd) n_byte bytes p)) as [v ->].
  { unfold extract_value. destruct (area p); destruct (_ : bool); try by eexists.
    all: unfold neu_value8_get_bit, get_bit_n; rewrite decide_True by zlia; by eexists. }
  cbn [mbind option_bind]. unfold bit_ok in Hp. unfold convert_read.
  destruct (point_type p) as [[]|]; try by eexists.
  destruct (area p); try by eexists.
  all: specialize (Hp eq_refl eq_refl); unfold neu_value16_get_bit, get_bit_n;
    rewrite decide_True by lia; by eexists.
Qed.

Lemma value_handle_total e e64 group cmd slave n_byte bytes error :
  Forall bit_ok (rc_tags cmd) →
  is_Some (modbus_value_handle e e64 group cmd slave n_byte bytes error).
Proof.
  intros Hb. unfold modbus_value_handle. destruct (error =? _); [by eexists|].
  destruct (negb _); [by eexists|]. apply mapM_is_Some_2. eapply Forall_impl; [done|]. intros p Hp. unfold compose.
  destruct (point_value_total e e64 cmd slave n_byte bytes p Hp) as [v ->]. by eexists.
Qed.

Lemma value_handle_defined plugin sl n bytes error :
  polling plugin → undefined (out (value_handle plugin sl n bytes error)) = undefined (out plugin).
Proof.
  intros (gd & cmd & Hc & Hb). unfold value_handle. rewrite Hc.
  destruct (value_handle_total (endianess plugin) (endianess_64 plugin) (gd_group gd) cmd sl n bytes error
    Hb) as [ups ->]. apply undefined_updates.
Qed.

Lemma config_polling p p' : config p' = config p → polling p → polling p'.
Proof.
  unfold config, polling, current_cmd. intros [= _ Hg Hi _ _ _ _ _ _ _ _ _ _].
  by rewrite Hg, Hi.
Qed.

Lemma process_protocol_buf_defined plugin slave size :
  polling plugin →
  undefined (out (process_protocol_buf cops plugin slave size).2) = undefined (out plugin).
Proof.
  intros Hp.
  assert (Hr : ∀ plugin' buf sz, config plugin' = config plugin → out plugin' = out plugin →
    undefined (out (process_received_data cops plugin' buf sz size slave).2) = undefined (out plugin)).
  { intros plugin' buf sz Hcfg Hout. unfold process_received_data.
    pose proof (stack_recv_ctx (plugin_ops cops) (stack plugin') plugin' slave
      (neu_protocol_unpack_buf_init buf (u16 sz))) as Hd.
    destruct (modbus_stack_recv _ _ _ _ _) as [ret p2]. cbn [snd] in Hd. rewrite <-Hout.
    assert (undefined (out p2) = undefined (out plugin')).
    { destruct Hd as [->|(sl & n & bytes & ->)]; [done|].
      apply value_handle_defined. by apply (config_polling plugin). }
    by destruct (ret =? _). }
  unfold process_protocol_buf, process_modbus_tcp, process_modbus_rtu.
  destruct (protocol (stack plugin)).
  - destruct (valid_modbus_tcp_response _ _ _ _) as [[total buf] plugin'] eqn:E.
    pose proof (valid_tcp_out _ _ _ _ _ _ E) as Ho. apply valid_tcp_config in E.
    destruct (total >? 0); [|cbn [snd]; by rewrite Ho]. by apply Hr.
  - destruct (recv_data cops plugin size) as [[ret data] plugin'] eqn:E.
    pose proof (recv_data_out _ _ _ _ _ E) as Ho. apply recv_data_config in E.
    destruct (_ || _); [cbn [snd]; by rewrite Ho|]. by apply Hr.
Qed.

(** ** A poll from the request to the tag values *)

(** The connection transmits [frame] and then hands out [resp], as a stream the
    plugin reads in the portions its protocol uses. *)
Definition answers (proto : modbus_protocol_e) (c : Conn) (frame resp : list Z) : Prop :=
  ∃ ret c1, neu_conn_send cops (neu_conn_clear_recv_buffer cops c) frame = (ret, c1) ∧ 0 < ret ∧
  match proto with
  | MODBUS_PROTOCOL_TCP =>
      ∃ c2 c3, neu_conn_recv cops c1 6 = (6, take 6 resp, c2) ∧
        neu_conn_recv cops c2 (Z.of_nat (length resp) - 6) =
          (Z.of_nat (length resp) - 6, drop 6 resp, c3)
  | MODBUS_PROTOCOL_RTU =>
      ∃ c2, neu_conn_recv cops c1 (Z.of_nat (length resp)) = (Z.of_nat (length resp), resp, c2)
  end.

(** The value of the tag [p] reported by [u] is that of its registers. *)
Definition reports e e64 (mem : Z → Z) (group : string) (p : modbus_point_t) (u : tag_update) : Prop :=
  up_group u = group ∧ up_tag u = Some (point_name p) ∧
  dvalue_type (up_value u) = point_type p ∧
  le_load (mem_read 0 (Z.to_nat (2 * n_register p)) (dvalue_value (up_value u))) =
    reference_value e e64 p (registers_bytes mem (start_address p) (n_register p)).

Definition numeric_point (p : modbus_point_t) : Prop :=
  point_ok p ∧ ∃ ty, point_type p = Some ty ∧ numeric_registers ty = Some (n_register p).

Lemma value_handle_numeric e e64 group max_byte cmd mem :
  cmd_planned max_byte cmd → 0 <= rc_n_register cmd → is_bit_area (rc_area cmd) = false →
  Forall numeric_point (rc_tags cmd) →
  ∃ ups, modbus_value_handle e e64 group cmd (rc_slave_id cmd) (2 * rc_n_register cmd)
      (registers_bytes mem (rc_start_address cmd) (rc_n_register cmd)) 0 = Some ups ∧
    Forall2 (reports e e64 mem group) (rc_tags cmd) ups.
Proof.
  intros Hplan Hn Harea Hnum. unfold modbus_value_handle. simpl Z.eqb. cbn [negb].
  apply (mapM_Forall _ (λ p, p ∈ rc_tags cmd)); [|by apply Forall_forall].
  intros p Hp. rewrite Forall_forall in Hnum. destruct (Hnum p Hp) as (Hok & ty & Hty & Hreg).
  assert (area p = rc_area cmd) as Ha.
  { destruct Hplan as [_ Hin _ _]. rewrite Forall_forall in Hin. by destruct (Hin p Hp) as (_ & ? & _). }
  destruct (point_value_registers e e64 max_byte cmd p ty mem Hplan Hp Hok Hn) as (v & -> & Hv);
    [by rewrite Ha|done|done|].
  cbn [mbind option_bind]. eexists. split; [done|]. split_and!; [done|done|by rewrite Hty|done].
Qed.

(** Receiving the whole of [resp] gives the result of [modbus_stack_recv] on it. *)
Lemma process_answer plugin c frame resp slave seq pdu :
  is_server plugin = false → answers (protocol (stack plugin)) c frame resp →
  resp = frame_of (protocol (stack plugin)) seq pdu → Z.of_nat (length resp) < 65536 →
  (0 < length pdu)%nat →
  ∃ ret c1, neu_conn_send cops (neu_conn_clear_recv_buffer cops c) frame = (ret, c1) ∧ 0 < ret ∧
  (conn plugin = c1 →
   ∃ c2, process_protocol_buf cops plugin slave (Z.of_nat (length resp)) =
     process_received_data cops (with_conn c2 plugin) resp (Z.of_nat (length resp))
       (Z.of_nat (length resp)) slave).
Proof.
  intros Hsrv (ret & c1 & Hsend & Hret & Hproto) Hresp Hlen Hpdu.
  exists ret, c1. split; [done|]. split; [done|]. intros Hconn.
  unfold process_protocol_buf, process_modbus_tcp, process_modbus_rtu, valid_modbus_tcp_response,
    recv_data. rewrite Nat2Z.id.
  destruct (protocol (stack plugin)) eqn:Hp.
  - destruct Hproto as (c2 & c3 & H1 & H2). exists c3.
    rewrite Hsrv, Hconn. unfold sizeof_header. rewrite H1. cbn [is_server with_conn conn].
    change (6 <=? 0) with false. change (6 =? 6) with true. cbn [negb].
    assert (Hl : Z.of_nat (length resp) = 6 + Z.of_nat (length pdu))
      by (by rewrite Hresp, length_frame_of).
    assert (Hb1 : mem_write 0 (take 6 resp) (replicate (length resp) 0) =
      take 6 resp ++ replicate (length pdu) 0).
    { unfold mem_write. rewrite take_0, app_nil_l, length_take, drop_replicate. do 2 f_equal. lia. }
    assert (Hlenf : htons (le_load (mem_read 4 2 (take 6 resp ++ replicate (length pdu) 0))) =
      Z.of_nat (length pdu)).
    { rewrite Hresp. transitivity (u16 (Z.of_nat (length pdu))); [apply ntohs_be|].
      apply u16_id. lia. }
    rewrite Hb1, Hlenf.
    assert (Hu : u64 (Z.of_nat (length resp) - 6) = Z.of_nat (length pdu)) by zlia.
    rewrite Hu. destruct (Z.gtb_spec (Z.of_nat (length pdu)) (Z.of_nat (length pdu))); [lia|].
    rewrite Hsrv. replace (Z.of_nat (length pdu)) with (Z.of_nat (length resp) - 6) by lia.
    rewrite H2. rewrite Z.eqb_refl.
    assert (Hb2 : mem_write 6 (drop 6 resp) (take 6 resp ++ replicate (length pdu) 0) = resp).
    { unfold mem_write. rewrite take_app_length' by (rewrite length_take; lia).
      rewrite drop_app_ge by (rewrite length_take; lia).
      rewrite drop_replicate.
      replace (length pdu - (6 + length (drop 6 resp) - length (take 6 resp)))%nat with 0%nat
        by (rewrite length_drop, length_take; lia).
      by rewrite app_nil_r, take_drop. }
    rewrite Hb2. replace (Z.of_nat (length resp) - 6 + 6) with (Z.of_nat (length resp)) by lia.
    destruct (Z.gtb_spec (Z.of_nat (length resp)) 0); [done|lia].
  - destruct Hproto as (c2 & H1). exists c2. rewrite Hsrv, Hconn, H1.
    assert (Hb : mem_write 0 resp (replicate (length resp) 0) = resp).
    { unfold mem_write. rewrite take_0, drop_ge by (rewrite length_replicate; lia).
      by rewrite app_nil_r. }
    rewrite Hb. assert (Hl : Z.of_nat (length resp) = 2 + Z.of_nat (length pdu))
      by (by rewrite Hresp, length_frame_of).
    destruct (Z.eqb_spec (Z.of_nat (length resp)) 0), (Z.eqb_spec (Z.of_nat (length resp)) (-1));
      lia || done.
Qed.

(** The request frame of a read command. *)
Definition cmd_request (st : modbus_stack_t) (cmd : modbus_read_cmd_t) : list Z :=
  frame_of (protocol st) (read_seq st)
    ([rc_slave_id cmd; read_function (rc_area cmd)] ++
     be_store 2 (rc_start_address cmd) ++ be_store 2 (rc_n_register cmd)).

(** The answer of a device with the registers [mem]. *)
Definition cmd_response (st : modbus_stack_t) (cmd : modbus_read_cmd_t) (mem : Z → Z) : list Z :=
  read_response (protocol st) (read_seq st) (rc_slave_id cmd) (read_function (rc_area cmd))
    (registers_bytes mem (rc_start_address cmd) (rc_n_register cmd)).

(** One transmission to a conforming device. *)
Lemma read_once_answered plugin cmd gd mem max_byte rb :
  is_server plugin = false → backup plugin = false → current_cmd plugin = Some (gd, cmd) →
  cmd_planned max_byte cmd → is_u8 (rc_slave_id cmd) → 1 <= rc_n_register cmd <= 127 →
  is_bit_area (rc_area cmd) = false → Forall numeric_point (rc_tags cmd) →
  0 <= read_seq (stack plugin) < 65535 →
  answers (protocol (stack plugin)) (conn plugin) (cmd_request (stack plugin) cmd)
    (cmd_response (stack plugin) cmd mem) →
  ∃ ret ups plugin', read_once cops plugin cmd rb =
      Some (ret, Z.of_nat (length (cmd_response (stack plugin) cmd mem)), plugin') ∧ 0 < ret ∧
    out plugin' = out plugin ++ (EvUpdate <$> ups) ∧
    Forall2 (reports (endianess plugin) (endianess_64 plugin) mem (gd_group gd)) (rc_tags cmd) ups.
Proof.
  intros Hsrv Hbk Hcur Hplan Hsl Hn Harea Hnum Hseq Hans.
  set (resp := cmd_response (stack plugin) cmd mem) in *.
  set (data := registers_bytes mem (rc_start_address cmd) (rc_n_register cmd)).
  assert (Hdl : Z.of_nat (length data) = 2 * rc_n_register cmd)
    by (unfold data; rewrite length_registers_bytes; lia).
  set (pdu := [rc_slave_id cmd; read_function (rc_area cmd); Z.of_nat (length data)] ++ data).
  assert (Hrp : resp = frame_of (protocol (stack plugin)) (read_seq (stack plugin)) pdu) by done.
  assert (Hrl : Z.of_nat (length resp) < 65536).
  { rewrite Hrp, length_frame_of. unfold pdu. rewrite length_app. simpl.
    destruct (protocol (stack plugin)); simpl; lia. }
  unfold read_once, stack_read.
  destruct (stack_read_spec (plugin_ops cops) (stack plugin) plugin (rc_slave_id cmd) (rc_area cmd)
    (rc_start_address cmd) (rc_n_register cmd) false Hsl ltac:(lia)) as (size & -> & Hsize).
  specialize (Hsize (read_seq (stack plugin)) data). rewrite Harea in Hsize. specialize (Hsize Hdl).
  fold (cmd_request (stack plugin) cmd).
  set (st := bump_read_seq (stack plugin)).
  assert (Hproto : protocol st = protocol (stack plugin)).
  { unfold st, bump_read_seq. by destruct (is_tcp _). }
  destruct (process_answer (with_stack st plugin) (conn plugin) (cmd_request (stack plugin) cmd) resp
    (rc_slave_id cmd) (read_seq (stack plugin)) pdu) as (ret & c1 & Hsend & Hret & _);
    [done|by rewrite <-Hproto in Hans|by rewrite Hrp, <-Hproto|done|simpl; lia|].
  assert (Hmsg : send_fn (plugin_ops cops) plugin (cmd_request (stack plugin) cmd) =
    (ret, with_conn c1 (with_conn (neu_conn_clear_recv_buffer cops (conn plugin)) plugin))).
  { simpl. unfold modbus_send_msg. simpl. rewrite Hsrv, Hbk. simpl. by rewrite Hsend. }
  rewrite Hmsg. cbn [mbind option_bind].
  destruct (Z.leb_spec ret 0); [lia|]. cbn [andb negb]. destruct (Z.gtb_spec ret 0); [|lia].
  set (p2 := with_stack st _).
  destruct (process_answer p2 (conn plugin) (cmd_request (stack plugin) cmd) resp
    (rc_slave_id cmd) (read_seq (stack plugin)) pdu) as (ret' & c1' & Hsend' & _ & Hproc);
    [done|by rewrite <-Hproto in Hans|by rewrite Hrp, <-Hproto|done|simpl; lia|].
  rewrite Hsend in Hsend'. injection Hsend' as <- <-. destruct (Hproc eq_refl) as (c2 & Hpb).
  assert (size = Z.of_nat (length resp)) as -> by done. rewrite Hpb.
  unfold process_received_data. rewrite u16_id by lia.
  set (p3 := with_conn c2 p2). change (stack p3) with st.
  assert (Hrecv : modbus_stack_recv (plugin_ops cops) st p3 (rc_slave_id cmd)
    (neu_protocol_unpack_buf_init resp (Z.of_nat (length resp))) =
    (Z.of_nat (length resp), value_fn (plugin_ops cops) p3 (rc_slave_id cmd)
       (Z.of_nat (length data)) data 0)).
  { rewrite Hrp, frame_of_raw, <-Hproto. apply recv_read_spec; try done; try lia.
    - apply registers_bytes_ok.
    - apply le_store_ok.
    - intros Htcp. unfold seq_accepted, st, bump_read_seq. rewrite Hproto in Htcp. rewrite Htcp. simpl.
      rewrite u16_id by lia. rewrite Z.eqb_refl. by rewrite andb_false_r. }
  rewrite Hrecv. destruct (Z.eqb_spec (Z.of_nat (length resp)) MODBUS_DEVICE_ERR) as [He|_].
  { unfold MODBUS_DEVICE_ERR in He. lia. }
  rewrite Z.eqb_refl.
  destruct (value_handle_numeric (endianess plugin) (endianess_64 plugin) (gd_group gd) max_byte cmd mem
    Hplan ltac:(lia) Harea Hnum) as (ups & Hups & Hrep).
  exists ret, ups, (emit (EvUpdate <$> ups) p3). split; [|by split_and!].
  do 2 f_equal. simpl. unfold value_handle. change (current_cmd p3) with (current_cmd plugin).
  rewrite Hcur, Hdl. change (endianess p3) with (endianess plugin).
  change (endianess_64 p3) with (endianess_64 plugin).
  unfold data. by rewrite Hups.
Qed.

(** A command that a conforming device answers. *)
Lemma command_answered plugin g cmd gd mem max_byte :
  is_server plugin = false → backup plugin = false → current_cmd plugin = Some (gd, cmd) →
  cmd_planned max_byte cmd → is_u8 (rc_slave_id cmd) → 1 <= rc_n_register cmd <= 127 →
  is_bit_area (rc_area cmd) = false → Forall numeric_point (rc_tags cmd) →
  0 <= read_seq (stack plugin) < 65535 →
  answers (protocol (stack plugin)) (conn plugin) (cmd_request (stack plugin) cmd)
    (cmd_response (stack plugin) cmd mem) →
  ∃ plugin' g' ups, check_modbus_read_result cops plugin g cmd = Some (plugin', g', false) ∧
    out plugin' = out plugin ++ (EvUpdate <$> ups) ∧
    Forall2 (reports (endianess plugin) (endianess_64 plugin) mem (gd_group gd)) (rc_tags cmd) ups ∧
    failed_cycles g' = <[Z.to_nat (rc_slave_id cmd) := 0]> (failed_cycles g) ∧ skip g' = skip g.
Proof.
  intros Hsrv Hbk Hcur Hplan Hsl Hn Harea Hnum Hseq Hans. unfold check_modbus_read_result.
  destruct (read_once_answered plugin cmd gd mem max_byte 0 Hsrv Hbk Hcur Hplan Hsl Hn Harea Hnum
    Hseq Hans) as (ret & ups & plugin' & -> & Hret & Hout & Hrep).
  cbn [mbind option_bind]. destruct (Z.leb_spec ret 0); [lia|].
  set (len := Z.of_nat (length (cmd_response (stack plugin) cmd mem))).
  assert (0 < len).
  { unfold len, cmd_response, read_response. rewrite length_frame_of, length_app. simpl.
    destruct (protocol (stack plugin)); simpl; lia. }
  destruct (Z.eqb_spec len 0); [lia|]. cbn [orb mbind option_bind].
  unfold finalize_modbus_read_result.
  destruct (Z.leb_spec ret 0); [lia|]. destruct (Z.leb_spec len 0); [lia|].
  by do 3 eexists.
Qed.

(** Polling a command delivers the device's data.  When the device answers
    the request of a planned register command with the contents of its
    registers, [check_modbus_read_result] succeeds on the first transmission,
    reports for every numeric tag of the command, in order and exactly once, the
    value of that tag's own registers in the byte order set for it, resets the
    failure counter of the slave and signals no error. *)
Theorem read_command_delivers plugin g cmd gd mem max_byte :
  is_server plugin = false → backup plugin = false → current_cmd plugin = Some (gd, cmd) →
  cmd_planned max_byte cmd → is_u8 (rc_slave_id cmd) → 1 <= rc_n_register cmd <= 127 →
  is_bit_area (rc_area cmd) = false → Forall numeric_point (rc_tags cmd) →
  0 <= read_seq (stack plugin) < 65535 →
  answers (protocol (stack plugin)) (conn plugin) (cmd_request (stack plugin) cmd)
    (cmd_response (stack plugin) cmd mem) →
  ∃ plugin' g' ups, check_modbus_read_result cops plugin g cmd = Some (plugin', g', false) ∧
    out plugin' = out plugin ++ (EvUpdate <$> ups) ∧
    Forall2 (reports (endianess plugin) (endianess_64 plugin) mem (gd_group gd)) (rc_tags cmd) ups ∧
    failed_cycles g' = <[Z.to_nat (rc_slave_id cmd) := 0]> (failed_cycles g) ∧ skip g' = skip g.
Proof. by apply command_answered. Qed.
End engine_lemmas.

(** ** The number of transmissions *)

Section transmissions.
Context {Conn Param : Type} (cops : conn_ops Conn Param).

(** Any connection, with a record of the frames it is given to send. *)
Definition recording : conn_ops (Conn * list (list Z)) Param := {|
  neu_conn_send := λ c bytes,
    let '(ret, c') := neu_conn_send cops c.1 bytes in (ret, (c', c.2 ++ [bytes]));
  neu_conn_recv := λ c n,
    let '(ret, data, c') := neu_conn_recv cops c.1 n in (ret, data, (c', c.2));
  neu_conn_tcp_server_send := λ c fd bytes,
    let '(ret, c') := neu_conn_tcp_server_send cops c.1 fd bytes in (ret, (c', c.2 ++ [bytes]));
  neu_conn_tcp_server_recv := λ c fd n,
    let '(ret, data, c') := neu_conn_tcp_server_recv cops c.1 fd n in (ret, data, (c', c.2));
  neu_conn_is_connected := λ c, neu_conn_is_connected cops c.1;
  neu_conn_disconnect := λ c, (neu_conn_disconnect cops c.1, c.2);
  neu_conn_clear_recv_buffer := λ c, (neu_conn_clear_recv_buffer cops c.1, c.2);
  neu_conn_reconfig := λ c param, (neu_conn_reconfig cops c.1 param, c.2);
|}.
Implicit Types (plugin : neu_plugin (Conn * list (list Z)) Param).

Definition sent plugin : list (list Z) := (conn plugin).2.

(** The frames of [k] transmissions of a command: each has the next sequence
    number. *)
Definition cmd_requests (st : modbus_stack_t) (cmd : modbus_read_cmd_t) (k : nat) : list (list Z) :=
  (λ i, cmd_request (Nat.iter i bump_read_seq st) cmd) <$> seq 0 k.

Lemma cmd_requests_S st cmd k :
  cmd_requests st cmd (S k) = cmd_request st cmd :: cmd_requests (bump_read_seq st) cmd k.
Proof.
  unfold cmd_requests. cbn [seq]. rewrite fmap_cons. f_equal. rewrite <-fmap_S_seq, <-list_fmap_compose.
  apply list_fmap_ext. intros i x _. cbn. by rewrite Nat.iter_swap.
Qed.

Lemma send_msg_sent plugin bytes :
  sent (modbus_send_msg recording plugin bytes).2 = sent plugin ++ [bytes].
Proof.
  unfold modbus_send_msg, sent. cbn. destruct (is_server plugin).
  { by destruct (neu_conn_tcp_server_send _ _ _ _). }
  destruct (backup plugin && _); cbn; [destruct (negb (current_backup plugin) && _); cbn|];
    by destruct (neu_conn_send _ _ _).
Qed.

Lemma process_protocol_buf_sent plugin slave size :
  sent (process_protocol_buf recording plugin slave size).2 = sent plugin.
Proof.
  apply (process_protocol_buf_obs recording snd); intros; cbn.
  - by destruct (neu_conn_recv _ _ _) as [[? ?] ?].
  - by destruct (neu_conn_tcp_server_recv _ _ _ _) as [[? ?] ?].
Qed.

(** One transmission sends one frame; the sequence number advances, the settings
    stay, and nothing undefined happens. *)
Lemma read_once_sent plugin cmd rb :
  is_u8 (rc_slave_id cmd) → 0 <= rc_n_register cmd <= 32000 → polling plugin →
  ∃ r, read_once recording plugin cmd rb = Some r ∧
    sent r.2 = sent plugin ++ [cmd_request (stack plugin) cmd] ∧
    config r.2 = config (with_stack (bump_read_seq (stack plugin)) plugin) ∧
    undefined (out r.2) = undefined (out plugin).
Proof.
  intros Hsl Hn Hp. unfold read_once, stack_read.
  destruct (stack_read_spec (plugin_ops recording) (stack plugin) plugin (rc_slave_id cmd) (rc_area cmd)
    (rc_start_address cmd) (rc_n_register cmd) false Hsl Hn) as (size & -> & _).
  fold (cmd_request (stack plugin) cmd). cbn [send_fn plugin_ops].
  pose proof (send_msg_sent plugin (cmd_request (stack plugin) cmd)) as Hsent.
  pose proof (send_msg_config recording plugin (cmd_request (stack plugin) cmd)) as Hcfg.
  pose proof (send_msg_out recording plugin (cmd_request (stack plugin) cmd)) as Hout.
  destruct (modbus_send_msg _ _ _) as [ret p1]. cbn [fst snd] in *. cbn [mbind option_bind value_fn plugin_ops].
  pose proof (config_polling _ _ Hcfg Hp) as Hp1.
  set (p2 := with_stack _ _).
  assert (Hp2 : sent p2 = sent p1 ∧ config p2 = config (with_stack (bump_read_seq (stack plugin)) plugin) ∧
    undefined (out p2) = undefined (out plugin)).
  { rewrite <-Hout. unfold p2. destruct (_ && _).
    - pose proof (value_handle_defined p1 0 0 [] NEU_ERR_PLUGIN_DISCONNECTED Hp1) as Hd.
      destruct (value_handle_emits p1 0 0 [] NEU_ERR_PLUGIN_DISCONNECTED) as (evs & E & _). rewrite E in *.
      split_and!; [done| |done]. unfold config in *. simpl in *. congruence.
    - split_and!; [done| |done]. unfold config in *. simpl in *. congruence. }
  destruct Hp2 as (Hs2 & Hc2 & Hu2). destruct (ret >? 0); cycle 1.
  { eexists. split; [done|]. cbn [snd]. split_and!; [congruence|done|done]. }
  pose proof (process_protocol_buf_sent p2 (rc_slave_id cmd) size) as Hs3.
  pose proof (process_protocol_buf_config recording p2 (rc_slave_id cmd) size) as Hc3.
  assert (polling p2) as Hpp by (apply (config_polling (with_stack (bump_read_seq (stack plugin)) plugin)); done).
  pose proof (process_protocol_buf_defined recording p2 (rc_slave_id cmd) size Hpp) as Hu3.
  destruct (process_protocol_buf _ _ _ _) as [rb' p3]. eexists. split; [done|]. cbn [snd] in *.
  split_and!; congruence.
Qed.

Lemma retry_loop_sent n cmd : ∀ plugin ret_r ret_buf,
  is_u8 (rc_slave_id cmd) → 0 <= rc_n_register cmd <= 32000 → polling plugin →
  ∃ r k, retry_loop recording n plugin cmd ret_r ret_buf = Some r ∧ (k <= n)%nat ∧
    sent r.2 = sent plugin ++ cmd_requests (stack plugin) cmd k ∧ polling r.2 ∧
    undefined (out r.2) = undefined (out plugin).
Proof.
  induction n as [|n IH]; intros plugin ret_r ret_buf Hsl Hn Hp; cbn [retry_loop].
  { eexists _, 0%nat. split; [done|]. cbn [snd cmd_requests seq fmap list_fmap]. by rewrite app_nil_r. }
  destruct (read_once_sent plugin cmd ret_buf Hsl Hn Hp) as ([[r1 b1] p1] & -> & Hs1 & Hc1 & Hu1).
  cbn [mbind option_bind fst snd] in *.
  assert (Hp1 : polling p1)
    by (apply (config_polling (with_stack (bump_read_seq (stack plugin)) plugin)); done).
  destruct ((r1 >? 0) && (b1 =? 0)).
  - destruct (IH p1 r1 b1 Hsl Hn Hp1) as (r & k & -> & Hk & Hs & Hpr & Hu).
    exists r, (S k). split; [done|]. split; [lia|]. split_and!; [|done|congruence].
    rewrite Hs, Hs1, cmd_requests_S, <-app_assoc. cbn [app]. do 3 f_equal.
    by apply (config_stack (with_stack (bump_read_seq (stack plugin)) plugin)).
  - eexists _, 1%nat. split; [done|]. split; [lia|]. by split_and!.
Qed.

Lemma finalize_sent plugin g cmd ret_r ret_buf :
  polling plugin →
  let r := finalize_modbus_read_result recording plugin g cmd ret_r ret_buf in
  sent r.1.1 = sent plugin ∧ undefined (out r.1.1) = undefined (out plugin).
Proof.
  intros Hp.
  assert (Hv : ∀ err, sent (handle_modbus_error plugin cmd err) = sent plugin ∧
    undefined (out (handle_modbus_error plugin cmd err)) = undefined (out plugin)).
  { intros err. split; [|by apply value_handle_defined]. unfold handle_modbus_error.
    by destruct (value_handle_emits plugin (rc_slave_id cmd) 0 [] err) as (evs & -> & _). }
  unfold finalize_modbus_read_result.
  repeat (destruct (_ <=? _) || destruct (_ =? _)); cbn [fst]; try done; apply Hv.
Qed.

(** C37: reading a command always ends, with a bounded number of transmissions.
    While a command is polled whose tags have bit numbers below 16, as the tags that
    the parser accepts, [check_modbus_read_result] returns however the device and
    the connection behave: over every connection, with a record of the frames it is
    given to send, those are the request of the command at least once and at most
    [max_retries] times more, each with the next sequence number of the stack, and no
    [assert] fails and no pointer that is not there is dereferenced on the way
    ([undefined]). *)
Theorem read_transmissions plugin g cmd gd :
  is_u8 (rc_slave_id cmd) → 0 <= rc_n_register cmd <= 32000 →
  current_cmd plugin = Some (gd, cmd) → Forall bit_ok (rc_tags cmd) →
  ∃ r k, check_modbus_read_result recording plugin g cmd = Some r ∧
    (1 <= k <= 1 + max_retries plugin)%nat ∧
    sent r.1.1 = sent plugin ++ cmd_requests (stack plugin) cmd k ∧
    undefined (out r.1.1) = undefined (out plugin).
Proof.
  intros Hsl Hn Hcur Hb. assert (Hp : polling plugin) by (by exists gd, cmd).
  unfold check_modbus_read_result.
  destruct (read_once_sent plugin cmd 0 Hsl Hn Hp) as ([[r1 b1] p1] & -> & Hs1 & Hc1 & Hu1).
  cbn [mbind option_bind fst snd] in *.
  assert (Hp1 : polling p1)
    by (apply (config_polling (with_stack (bump_read_seq (stack plugin)) plugin)); done).
  pose proof (config_retries _ _ Hc1) as Hm. cbn [max_retries with_stack] in Hm.
  pose proof (config_stack _ _ Hc1) as Hst. cbn [stack with_stack] in Hst.
  destruct ((r1 <=? 0) || (b1 =? 0)).
  - destruct (retry_loop_sent (max_retries p1) cmd p1 r1 b1 Hsl Hn Hp1)
      as ([[r2 b2] p2] & k & -> & Hk & Hs & Hp2 & Hu). cbn [mbind option_bind snd] in *.
    destruct (finalize_sent p2 g cmd r2 b2 Hp2) as [Hfs Hfu].
    eexists _, (S k). split; [done|]. split; [lia|]. split; [|congruence].
    rewrite Hfs, Hs, Hs1, cmd_requests_S, Hst, <-app_assoc. done.
  - cbn [mbind option_bind]. destruct (finalize_sent p1 g cmd r1 b1 Hp1) as [Hfs Hfu].
    eexists _, 1%nat. split; [done|]. split; [lia|]. split; [by rewrite Hfs, Hs1|congruence].
Qed.
End transmissions.

(** ** A simulated device

    A connection whose peer is a Modbus TCP device with the registers [mem]; the
    state is the stream of bytes it has still to hand out. *)
Section simulated.
Context (mem : Z → Z) (alive : bool).

Definition device_answer (frame : list Z) : list Z :=
  let seq := be_load (mem_read 0 2 frame) in
  let slave := nth 6 frame 0 in
  let f := nth 7 frame 0 in
  let start := be_load (mem_read 8 2 frame) in
  if is_read_function f
  then read_response MODBUS_PROTOCOL_TCP seq slave f
         (registers_bytes mem start (be_load (mem_read 10 2 frame)))
  else frame_of MODBUS_PROTOCOL_TCP seq ([slave; f] ++ mem_read 8 4 frame).

Definition sim_recv (c : list Z) (n : Z) : Z * list Z * list Z :=
  (Z.of_nat (length (take (Z.to_nat n) c)), take (Z.to_nat n) c, drop (Z.to_nat n) c).

Definition sim_ops : conn_ops (list Z) unit := {|
  neu_conn_send := λ c frame,
    if alive then (Z.of_nat (length frame), device_answer frame) else (-1, []);
  neu_conn_recv := sim_recv;
  neu_conn_tcp_server_send := λ c _ frame, (Z.of_nat (length frame), device_answer frame);
  neu_conn_tcp_server_recv := λ c _, sim_recv c;
  neu_conn_is_connected := λ _, alive;
  neu_conn_disconnect := λ _, [];
  neu_conn_clear_recv_buffer := λ _, [];
  neu_conn_reconfig := λ c _, c;
|}.
End simulated.

Definition example_gd : modbus_group_data := {|
  gd_group := "g"; gd_tags := rc_tags example_read_cmd; gd_cmds := [example_read_cmd];
  gd_address_base := base_1 |}.

Definition example_plugin (bk : bool) : neu_plugin (list Z) unit := {|
  conn := []; stack := modbus_stack_create MODBUS_PROTOCOL_TCP;
  plugin_group_data := Some example_gd; cmd_idx := 0; is_server := false; client_fd := 0;
  endianess := MODBUS_ABCD; endianess_64 := MODBUS_LL; address_base := base_1;
  max_retries := 2; plugin_check_header := true; degradation := true; degrade_cycle := 2;
  backup := bk; current_backup := false; first_attempt_done := false;
  param := (); param_backup := (); out := [] |}.

Lemma read_command_delivers_witness :
  ∃ plugin' g' ups,
    check_modbus_read_result (sim_ops (λ a, a + 0x100) true) (example_plugin false) slave_state_zero
      example_read_cmd = Some (plugin', g', false) ∧
    out plugin' = [] ++ (EvUpdate <$> ups) ∧
    Forall2 (reports MODBUS_ABCD MODBUS_LL (λ a, a + 0x100) "g") (rc_tags example_read_cmd) ups ∧
    failed_cycles g' = <[1%nat := 0]> (failed_cycles slave_state_zero) ∧
    skip g' = skip slave_state_zero.
Proof.
  apply (read_command_delivers (sim_ops (λ a, a + 0x100) true) (example_plugin false) slave_state_zero
    example_read_cmd example_gd (λ a, a + 0x100) 250); try reflexivity; try (simpl; lia).
  - exact example_read_cmd_planned.
  - repeat constructor; simpl; try done; eexists; split; reflexivity.
  - eexists _, _. split; [reflexivity|]. split; [vm_compute; done|].
    eexists _, _. split; reflexivity.
Defined.

(** The same driver with a record of its transmissions, over a line on which
    nothing can be sent. *)
Definition example_recorded : neu_plugin (list Z * list (list Z)) unit := {|
  conn := ([], []); stack := modbus_stack_create MODBUS_PROTOCOL_TCP;
  plugin_group_data := Some example_gd; cmd_idx := 0; is_server := false; client_fd := 0;
  endianess := MODBUS_ABCD; endianess_64 := MODBUS_LL; address_base := base_1;
  max_retries := 2; plugin_check_header := true; degradation := true; degrade_cycle := 2;
  backup := false; current_backup := false; first_attempt_done := false;
  param := (); param_backup := (); out := [] |}.

Lemma read_transmissions_witness :
  ∃ r k, check_modbus_read_result (recording (sim_ops id false)) example_recorded slave_state_zero
      example_read_cmd = Some r ∧ (1 <= k <= 3)%nat ∧
    sent r.1.1 = cmd_requests (stack example_recorded) example_read_cmd k ∧
    undefined (out r.1.1) = false.
Proof.
  apply (read_transmissions (sim_ops id false) example_recorded slave_state_zero example_read_cmd example_gd);
    [done|done|reflexivity|by repeat constructor].
Defined.

(** A device that answers a write with the answer to a read, before anything has
    been polled: the values are looked up in group data that is not there. *)
Definition rogue_ops : conn_ops (list Z) unit := {|
  neu_conn_send := λ c frame,
    (Z.of_nat (length frame),
     read_response MODBUS_PROTOCOL_TCP (be_load (mem_read 0 2 frame)) (nth 6 frame 0)
       MODBUS_READ_HOLD_REG [0; 0; 0]);
  neu_conn_recv := sim_recv;
  neu_conn_tcp_server_send := λ c _ frame, (Z.of_nat (length frame), []);
  neu_conn_tcp_server_recv := λ c _, sim_recv c;
  neu_conn_is_connected := λ _, true;
  neu_conn_disconnect := λ _, [];
  neu_conn_clear_recv_buffer := λ _, [];
  neu_conn_reconfig := λ c _, c;
|}.

Definition example_write_tag : neu_plugin_tag_value_t := {|
  ptv_tag := example_tag NEU_TYPE_UINT16 "1!400011" 3; ptv_value := set_u16 0x1234 value_zero |}.

(** A driver that has not polled yet. *)
Definition fresh_plugin (check : bool) : neu_plugin (list Z) unit := {|
  conn := []; stack := modbus_stack_create MODBUS_PROTOCOL_TCP;
  plugin_group_data := None; cmd_idx := 0; is_server := false; client_fd := 0;
  endianess := MODBUS_ABCD; endianess_64 := MODBUS_LL; address_base := base_1;
  max_retries := 2; plugin_check_header := check; degradation := true; degrade_cycle := 2;
  backup := false; current_backup := false; first_attempt_done := false;
  param := (); param_backup := (); out := [] |}.

(** The answer to a write is not compared with the request: an answer that carries
    values is delivered as the result of a poll, and before the first poll
    [modbus_value_handle] dereferences group data that is [NULL]. *)
Theorem write_answered_with_values (check : bool) :
  ∃ ret plugin', modbus_write_tag rogue_ops (fresh_plugin check) 7
      (ptv_tag example_write_tag) (ptv_value example_write_tag) = Some (ret, plugin') ∧
    undefined (out plugin') = true.
Proof. destruct check; eexists _, _; split; vm_compute; reflexivity. Qed.

Lemma write_tag_responds_witness :
  ∃ ret plugin', modbus_write_tag (sim_ops id true) (example_plugin false) 7
      (ptv_tag example_write_tag) (ptv_value example_write_tag) = Some (ret, plugin') ∧
    responses (out plugin') = [] ++ [(7, outcome ret)].
Proof.
  apply (write_tag_responds (sim_ops id true) (example_plugin false) 7 (ptv_tag example_write_tag)
    (ptv_value example_write_tag)); [repeat constructor|vm_compute; reflexivity].
Defined.

Lemma write_tags_respond_witness :
  ∃ plugin' error, modbus_write_tags (sim_ops id true) (example_plugin false) 7
      [example_write_tag; example_write_tag] 250 = Some plugin' ∧
    responses (out plugin') = [] ++ [(7, error)] ∧
    (error = NEU_ERR_SUCCESS ∨ error = NEU_ERR_PLUGIN_DISCONNECTED).
Proof.
  apply (write_tags_respond (sim_ops id true) (example_plugin false) 7
    [example_write_tag; example_write_tag] 250);
    [repeat constructor|repeat constructor|simpl; lia|lia|vm_compute; discriminate].
Defined.

Lemma degrade_threshold_witness :
  slave_skipped (silent_cycles 3 17 3 slave_state_zero) 17 = true ∧
  slave_failed (silent_cycles 3 17 3 slave_state_zero) 17 = 0 ∧
  slave_skipped (degrade_timer (silent_cycles 3 17 3 slave_state_zero) 17) 17 = false.
Proof.
  apply (degrade_threshold slave_state_zero 17 3 3); try reflexivity; try lia; split; reflexivity.
Defined.

Lemma failover_alternates_witness :
  current_backup (after_sends (sim_ops id false) 2 [1] (example_plugin true)) = true ∧
  first_attempt_done (after_sends (sim_ops id false) 2 [1] (example_plugin true)) = true.
Proof. apply (failover_alternates (sim_ops id false) (example_plugin true) [1] 1); reflexivity. Defined.

Lemma degrade_unreachable_witness :
  slave_skipped (silent_cycles 300 17 400 slave_state_zero) 17 = false.
Proof.
  apply (degrade_unreachable slave_state_zero 17 400 300); try lia; [split; reflexivity|].
  vm_compute. reflexivity.
Defined.
