(* ===== verification/Group.v ===== *)
(** * Groups of tags

    src/base/group.c: a group owns its tags in a uthash table keyed by name; the
    order number of an element is its place in the list the user sees.  The
    mutex makes every operation atomic; [now] is the reading of [gettimeofday].
    Allocation failures are left out. *)

From S2P Require Import Prelude UtHash NeuTypes Tag.

(** ** State *)

Record tag_elem_t := { el_name : string; el_tag : neu_datatag_t; el_order : Z }.

Record neu_group_t := {
  group_name : string;
  tags : list tag_elem_t;
  next_tag_order : Z;
  interval : Z;
  timestamp : Z;
}.

Definition set_tags (ts : list tag_elem_t) (now : Z) (g : neu_group_t) : neu_group_t :=
  {| group_name := group_name g; tags := ts; next_tag_order := next_tag_order g;
     interval := interval g; timestamp := now |}.

Definition tag_order_cmp (l r : tag_elem_t) : Z :=
  Z.b2z (el_order l >? el_order r) - Z.b2z (el_order l <? el_order r).

(** ** Operations *)

Definition neu_group_new (name : string) (itv : Z) : neu_group_t :=
  {| group_name := name; tags := []; next_tag_order := 0; interval := itv; timestamp := 0 |}.

Definition neu_group_get_name (g : neu_group_t) : string := group_name g.

Definition neu_group_set_name (g : neu_group_t) (name : option string) : Z * neu_group_t :=
  match name with
  | None => (NEU_ERR_EINTERNAL, g)
  | Some n => (0, {| group_name := n; tags := tags g; next_tag_order := next_tag_order g;
                     interval := interval g; timestamp := timestamp g |})
  end.

Definition neu_group_check_name (g : neu_group_t) (name : string) : Z :=
  match hash_find el_name name (tags g) with
  | Some _ => NEU_ERR_TAG_NAME_CONFLICT
  | None => NEU_ERR_SUCCESS
  end.

Definition neu_group_get_interval (g : neu_group_t) : Z := interval g.
Definition neu_group_set_interval (g : neu_group_t) (itv : Z) : neu_group_t :=
  {| group_name := group_name g; tags := tags g; next_tag_order := next_tag_order g;
     interval := itv; timestamp := timestamp g |}.

Definition neu_group_update (now : Z) (g : neu_group_t) (itv : Z) : Z * neu_group_t :=
  if negb (interval g =? itv)
  then (0, {| group_name := group_name g; tags := tags g; next_tag_order := next_tag_order g;
              interval := itv; timestamp := now |})
  else (0, g).

Definition neu_group_add_tag (now : Z) (g : neu_group_t) (tag : neu_datatag_t) : Z * neu_group_t :=
  match hash_find el_name (tag_name tag) (tags g) with
  | Some _ => (NEU_ERR_TAG_NAME_CONFLICT, g)
  | None =>
      let el := {| el_name := tag_name tag; el_tag := neu_tag_dup tag;
                   el_order := next_tag_order g |} in
      (0, {| group_name := group_name g; tags := hash_add el (tags g);
             next_tag_order := u64 (next_tag_order g + 1);
             interval := interval g; timestamp := now |})
  end.

(** [neu_tag_copy] replaces the whole tag of the element. *)
Definition neu_group_update_tag (now : Z) (g : neu_group_t) (tag : neu_datatag_t) : Z * neu_group_t :=
  match hash_find el_name (tag_name tag) (tags g) with
  | Some _ =>
      (NEU_ERR_SUCCESS,
       set_tags (hash_update el_name (tag_name tag)
         (λ el, {| el_name := el_name el; el_tag := tag_array_copy tag; el_order := el_order el |})
         (tags g)) now g)
  | None => (NEU_ERR_TAG_NOT_EXIST, g)
  end.

Definition rename_datatag (name : string) (t : neu_datatag_t) : neu_datatag_t := {|
  tag_name := name; tag_address := tag_address t; tag_attribute := tag_attribute t;
  tag_type := tag_type t; tag_precision := tag_precision t; tag_decimal := tag_decimal t;
  tag_bias := tag_bias t; tag_description := tag_description t; tag_unit := tag_unit t;
  tag_option := tag_option t; tag_meta := tag_meta t; tag_format := tag_format t;
  tag_n_format := tag_n_format t |}.

Definition rename_elem (name : string) (el : tag_elem_t) : tag_elem_t :=
  {| el_name := name; el_tag := rename_datatag name (el_tag el); el_order := el_order el |}.

Definition neu_group_rename_tag (now : Z) (g : neu_group_t) (old_name new_name : string)
    : Z * neu_group_t :=
  match hash_find el_name old_name (tags g) with
  | None => (NEU_ERR_TAG_NOT_EXIST, g)
  | Some el =>
      if decide (old_name = new_name) then (NEU_ERR_SUCCESS, g)
      else match hash_find el_name new_name (tags g) with
           | Some _ => (NEU_ERR_TAG_NAME_CONFLICT, g)
           | None =>
               let ts := hash_del el_name old_name (tags g) in
               (NEU_ERR_SUCCESS,
                set_tags (hash_add_inorder tag_order_cmp (rename_elem new_name el) ts) now g)
           end
  end.

Definition neu_group_del_tag (now : Z) (g : neu_group_t) (name : string) : Z * neu_group_t :=
  match hash_find el_name name (tags g) with
  | Some _ => (NEU_ERR_SUCCESS, set_tags (hash_del el_name name (tags g)) now g)
  | None => (NEU_ERR_TAG_NOT_EXIST, g)
  end.

(** [to_array] *)
Definition neu_group_get_tag (g : neu_group_t) : list neu_datatag_t := el_tag <$> tags g.

Definition filter_tags (ts : list tag_elem_t) (predicate : neu_datatag_t → bool)
    : list neu_datatag_t :=
  List.filter predicate (el_tag <$> ts).

(** The counting loop of [filter_tags_by_page]: the page and [count]. *)
Fixpoint page_loop (predicate : neu_datatag_t → bool) (start_index end_index : Z)
    (ts : list neu_datatag_t) (count : Z) : list neu_datatag_t * Z :=
  match ts with
  | [] => ([], count)
  | t :: ts' =>
      if predicate t then
        let '(page, n) := page_loop predicate start_index end_index ts' (count + 1) in
        (if (count >=? start_index) && (count <? end_index) then t :: page else page, n)
      else page_loop predicate start_index end_index ts' count
  end.

Definition filter_tags_by_page (ts : list tag_elem_t) (predicate : neu_datatag_t → bool)
    (current_page page_size : Z) : list neu_datatag_t * Z :=
  let start_index := (current_page - 1) * page_size in
  page_loop predicate start_index (start_index + page_size) (el_tag <$> ts) 0.

Definition is_readable (t : neu_datatag_t) : bool :=
  attribute_test (tag_attribute t) NEU_ATTRIBUTE_READ
  || attribute_test (tag_attribute t) NEU_ATTRIBUTE_SUBSCRIBE.

Definition name_contains (name : string) (t : neu_datatag_t) : bool :=
  strstr (tag_name t) name
  || match tag_description t with Some d => strstr d name | None => false end.

Definition description_contains (s : string) (t : neu_datatag_t) : bool :=
  match tag_description t with Some d => strstr d s | None => false end.

Record query := {
  q_name : option string;
  q_desc : option string;
  q_tagnames : list string;
}.

Definition match_query (q : query) (t : neu_datatag_t) : bool :=
  let filter :=
    match q_name q with None => true | Some n => name_contains n t end
    && match q_desc q with None => true | Some d => description_contains d t end in
  if filter && negb (bool_decide (q_tagnames q = []))
  then existsb (λ n, bool_decide (tag_name t = n)) (q_tagnames q)
  else filter.

Definition is_readable_and_match_query (q : query) (t : neu_datatag_t) : bool :=
  is_readable t && match_query q t.

Definition neu_group_query_tag (g : neu_group_t) (name : string) : list neu_datatag_t :=
  filter_tags (tags g) (name_contains name).
Definition neu_group_query_read_tag (g : neu_group_t) (q : query) : list neu_datatag_t :=
  filter_tags (tags g) (is_readable_and_match_query q).
Definition neu_group_query_read_tag_paginate (g : neu_group_t) (name desc : option string)
    (current_page page_size : Z) : list neu_datatag_t * Z :=
  filter_tags_by_page (tags g)
    (match_query {| q_name := name; q_desc := desc; q_tagnames := [] |}) current_page page_size.
Definition neu_group_get_read_tag (g : neu_group_t) : list neu_datatag_t :=
  filter_tags (tags g) is_readable.

Definition neu_group_tag_size (g : neu_group_t) : Z := u16 (Z.of_nat (length (tags g))).

Definition neu_group_find_tag (g : neu_group_t) (name : string) : option neu_datatag_t :=
  (λ el, neu_tag_dup (el_tag el)) <$> hash_find el_name name (tags g).

(** [neu_group_change_test]: the arguments of the callback, if it is called. *)
Definition neu_group_change_test (g : neu_group_t) (ts : Z)
    : option (Z * list neu_datatag_t * Z) :=
  if negb (timestamp g =? ts) then Some (timestamp g, neu_group_get_tag g, interval g) else None.
Definition neu_group_is_change (g : neu_group_t) (ts : Z) : bool := negb (timestamp g =? ts).

(** ** Invariant *)

Definition order_lt (x y : tag_elem_t) : Prop := el_order x < el_order y.

Record group_ok (g : neu_group_t) : Prop := {
  gok_table : table_ok el_name (tags g);
  gok_names : Forall (λ el, tag_name (el_tag el) = el_name el) (tags g);
  gok_sorted : StronglySorted order_lt (tags g);
  gok_orders : Forall (λ el, 0 <= el_order el < next_tag_order g) (tags g);
  gok_next : is_u64 (next_tag_order g);
}.

Lemma group_ok_new name itv : group_ok (neu_group_new name itv).
Proof. split; simpl; try constructor; lia || done. Qed.

Lemma tag_order_cmp_gt x y : tag_order_cmp x y > 0 ↔ el_order y < el_order x.
Proof.
  unfold tag_order_cmp. destruct (Z.gtb_spec (el_order x) (el_order y)),
    (Z.ltb_spec (el_order x) (el_order y)); simpl; lia.
Qed.

(** Putting an element back by its order number puts it where it was. *)
Lemma reinsert_in_place ts old el new :
  StronglySorted order_lt ts → hash_find el_name old ts = Some el → el_order new = el_order el →
  hash_add_inorder tag_order_cmp new (hash_del el_name old ts) =
    hash_update el_name old (λ _, new) ts.
Proof.
  induction ts as [|x ts IH]; simpl; intros Hs Hf Ho; [done|].
  apply StronglySorted_inv in Hs as [Hs Hx]. destruct (decide (el_name x = old)) as [Hn|Hn].
  - injection Hf as ->. destruct ts as [|y ts]; simpl; [done|].
    rewrite decide_True; [done|]. apply tag_order_cmp_gt. apply Forall_cons in Hx as [Hx _].
    unfold order_lt in Hx. lia.
  - simpl. rewrite decide_False.
    + by rewrite IH.
    + rewrite tag_order_cmp_gt. apply hash_find_Some in Hf as [Hel _].
      rewrite Forall_forall in Hx. specialize (Hx el Hel). unfold order_lt in Hx. lia.
Qed.

(** A write that keeps the order numbers keeps the invariant of the order. *)
Lemma hash_update_orders k f ts :
  (∀ el, hash_find el_name k ts = Some el → el_order (f el) = el_order el) →
  el_order <$> hash_update el_name k f ts = el_order <$> ts.
Proof.
  induction ts as [|x ts IH]; simpl; intros Hf; [done|].
  destruct (decide (el_name x = k)); csimpl.
  - by rewrite (Hf x eq_refl).
  - by rewrite IH.
Qed.

Lemma sorted_orders ts ts' :
  el_order <$> ts' = el_order <$> ts → StronglySorted order_lt ts → StronglySorted order_lt ts'.
Proof.
  revert ts'. induction ts as [|x ts IH]; intros [|y ts'] Heq Hs; try done.
  assert (el_order <$> ts' = el_order <$> ts) as Hos by by injection Heq.
  assert (el_order y = el_order x) as Ho by by injection Heq.
  apply StronglySorted_inv in Hs as [Hs Hx].
  constructor; [by apply IH|]. unfold order_lt in *.
  assert (Hfm : Forall (λ o, el_order x < o) (el_order <$> ts)) by by rewrite Forall_fmap.
  rewrite <-Hos, Forall_fmap in Hfm. eapply Forall_impl; [exact Hfm|]. simpl. intros z Hz. lia.
Qed.

Lemma range_orders ts ts' n :
  el_order <$> ts' = el_order <$> ts → Forall (λ el, 0 <= el_order el < n) ts →
  Forall (λ el, 0 <= el_order el < n) ts'.
Proof.
  intros Heq Hf.
  assert (Hfm : Forall (λ o, 0 <= o < n) (el_order <$> ts)) by by rewrite Forall_fmap.
  rewrite <-Heq, Forall_fmap in Hfm. exact Hfm.
Qed.

Lemma Forall_hash_update (P : tag_elem_t → Prop) k f ts :
  Forall P ts → (∀ el, P el → P (f el)) → Forall P (hash_update el_name k f ts).
Proof.
  intros HP Hf. induction HP as [|x ts Hx HP IH]; simpl; [constructor|].
  destruct (decide _); constructor; auto.
Qed.

(** ** Every operation keeps the invariant *)

Lemma group_ok_add now g tag :
  group_ok g → next_tag_order g < 18446744073709551615 →
  group_ok (neu_group_add_tag now g tag).2.
Proof.
  intros [Ht Hn Hs Ho Hx] Hlt. unfold neu_group_add_tag.
  destruct (hash_find el_name (tag_name tag) (tags g)) eqn:Hf; [by split|].
  assert (Hu : u64 (next_tag_order g + 1) = next_tag_order g + 1) by (apply Z.mod_small; lia).
  split; simpl; rewrite ?Hu.
  - by apply table_ok_add.
  - by apply Forall_snoc.
  - apply StronglySorted_app_2; [|done|repeat constructor].
    intros x y Hxin ->%list_elem_of_singleton. rewrite Forall_forall in Ho.
    unfold order_lt. simpl. apply Ho in Hxin. lia.
  - apply Forall_snoc. split; [|simpl; lia]. eapply Forall_impl; [exact Ho|]. simpl. intros; lia.
  - lia.
Qed.

Lemma group_ok_del now g name : group_ok g → group_ok (neu_group_del_tag now g name).2.
Proof.
  intros [Ht Hn Hs Ho Hx]. unfold neu_group_del_tag.
  destruct (hash_find _ _ _); [|by split]. pose proof (hash_del_sublist el_name name (tags g)) as Hsub.
  split; simpl; [by apply table_ok_del| | | |done].
  - by eapply Forall_sublist.
  - by eapply StronglySorted_sublist.
  - by eapply Forall_sublist.
Qed.

Lemma group_ok_update_tag now g tag : group_ok g → group_ok (neu_group_update_tag now g tag).2.
Proof.
  intros [Ht Hn Hs Ho Hx]. unfold neu_group_update_tag.
  destruct (hash_find el_name (tag_name tag) (tags g)) as [el|] eqn:Hf; [|by split].
  set (f := λ el, {| el_name := el_name el; el_tag := tag_array_copy tag; el_order := el_order el |}).
  assert (Hords : el_order <$> hash_update el_name (tag_name tag) f (tags g) = el_order <$> tags g)
    by by apply hash_update_orders.
  split; simpl; [| |by eapply sorted_orders|by eapply range_orders|done].
  - unfold table_ok. by rewrite hash_update_keys.
  - clear -Hn. induction Hn as [|x ts Hx Hn IH]; simpl; [constructor|].
    destruct (decide (el_name x = tag_name tag)); constructor; auto.
Qed.

Lemma rename_in_place now g old new el :
  group_ok g → hash_find el_name old (tags g) = Some el → old ≠ new →
  hash_find el_name new (tags g) = None →
  tags (neu_group_rename_tag now g old new).2 = hash_update el_name old (rename_elem new) (tags g).
Proof.
  intros Hg Hf Hne Hc. unfold neu_group_rename_tag. rewrite Hf, decide_False, Hc by done. simpl.
  rewrite (reinsert_in_place _ _ el) by (done || apply Hg).
  clear -Hf. induction (tags g) as [|x ts IH]; simpl in *; [done|].
  destruct (decide (el_name x = old)); [by injection Hf as ->|]. by rewrite IH.
Qed.

Lemma group_ok_rename now g old new : group_ok g → group_ok (neu_group_rename_tag now g old new).2.
Proof.
  intros Hg. destruct (hash_find el_name old (tags g)) as [el|] eqn:Hf; cycle 1.
  { unfold neu_group_rename_tag. by rewrite Hf. }
  destruct (decide (old = new)) as [->|Hne].
  { unfold neu_group_rename_tag. by rewrite Hf, decide_True. }
  destruct (hash_find el_name new (tags g)) eqn:Hc.
  { unfold neu_group_rename_tag. by rewrite Hf, decide_False, Hc. }
  pose proof (rename_in_place now g old new el Hg Hf Hne Hc) as Hts.
  assert (Hrest : next_tag_order (neu_group_rename_tag now g old new).2 = next_tag_order g).
  { unfold neu_group_rename_tag. by rewrite Hf, decide_False, Hc. }
  destruct Hg as [Ht Hn Hs Ho Hx].
  assert (Hords : el_order <$> hash_update el_name old (rename_elem new) (tags g) = el_order <$> tags g)
    by by apply hash_update_orders.
  split; rewrite ?Hts, ?Hrest; [| |by eapply sorted_orders|by eapply range_orders|done].
  - (* the new name is not among the others *)
    apply hash_find_None in Hc. clear -Ht Hc. unfold table_ok in *.
    induction (tags g) as [|x ts IH]; simpl; [done|]. csimpl in *.
    rewrite NoDup_cons in Ht. destruct Ht as [Hx Ht]. apply not_elem_of_cons in Hc as [Hcx Hc].
    destruct (decide (el_name x = old)); csimpl; [by apply NoDup_cons|].
    apply NoDup_cons. split; [|by apply IH]. intros Hin. apply Hx. clear -Hin Hcx.
    induction ts as [|y ts IH]; simpl in *; [done|].
    destruct (decide (el_name y = old)); csimpl in *; rewrite elem_of_cons in Hin |- *; [|naive_solver].
    destruct Hin as [Heq|Hin]; [done|by right].
  - apply Forall_hash_update; [done|]. done.
Qed.

(** ** The abstract group: a finite map from names to tags *)

Definition group_map (g : neu_group_t) : gmap string neu_datatag_t :=
  el_tag <$> to_map el_name (tags g).

Lemma group_map_lookup g k : group_map g !! k = el_tag <$> hash_find el_name k (tags g).
Proof. unfold group_map. by rewrite lookup_fmap, to_map_lookup. Qed.

(** The operations that change a group. *)
Inductive group_op :=
  | OpAdd (tag : neu_datatag_t)
  | OpUpdate (tag : neu_datatag_t)
  | OpRename (old_name new_name : string)
  | OpDel (name : string).

Definition run_op (now : Z) (op : group_op) (g : neu_group_t) : Z * neu_group_t :=
  match op with
  | OpAdd t => neu_group_add_tag now g t
  | OpUpdate t => neu_group_update_tag now g t
  | OpRename o n => neu_group_rename_tag now g o n
  | OpDel n => neu_group_del_tag now g n
  end.

Definition spec_op (op : group_op) (m : gmap string neu_datatag_t)
    : Z * gmap string neu_datatag_t :=
  match op with
  | OpAdd t =>
      match m !! tag_name t with
      | Some _ => (NEU_ERR_TAG_NAME_CONFLICT, m)
      | None => (NEU_ERR_SUCCESS, <[tag_name t := neu_tag_dup t]> m)
      end
  | OpUpdate t =>
      match m !! tag_name t with
      | Some _ => (NEU_ERR_SUCCESS, <[tag_name t := tag_array_copy t]> m)
      | None => (NEU_ERR_TAG_NOT_EXIST, m)
      end
  | OpRename o n =>
      match m !! o with
      | None => (NEU_ERR_TAG_NOT_EXIST, m)
      | Some t =>
          if decide (o = n) then (NEU_ERR_SUCCESS, m)
          else match m !! n with
               | Some _ => (NEU_ERR_TAG_NAME_CONFLICT, m)
               | None => (NEU_ERR_SUCCESS, <[n := rename_datatag n t]> (delete o m))
               end
      end
  | OpDel n =>
      match m !! n with
      | Some _ => (NEU_ERR_SUCCESS, delete n m)
      | None => (NEU_ERR_TAG_NOT_EXIST, m)
      end
  end.

Lemma run_op_ok now op g :
  group_ok g → next_tag_order g < 18446744073709551615 → group_ok (run_op now op g).2.
Proof.
  intros Hg Hn. destruct op; simpl.
  - by apply group_ok_add.
  - by apply group_ok_update_tag.
  - by apply group_ok_rename.
  - by apply group_ok_del.
Qed.

(** The tag table after a rename, seen as a map. *)
Lemma rename_map ts old new el :
  table_ok el_name ts → hash_find el_name old ts = Some el → hash_find el_name new ts = None →
  to_map el_name (hash_add_inorder tag_order_cmp (rename_elem new el) (hash_del el_name old ts)) =
    <[new := rename_elem new el]> (delete old (to_map el_name ts)).
Proof.
  intros Ht Ho Hn. apply map_eq. intros k. rewrite to_map_lookup.
  assert (Hd : hash_find el_name new (hash_del el_name old ts) = None).
  { rewrite hash_find_del by done. by case_decide. }
  assert (Hok : table_ok el_name (rename_elem new el :: hash_del el_name old ts)).
  { apply table_ok_cons_fresh; [by apply table_ok_del|done]. }
  rewrite (hash_find_perm el_name k _ _ (table_ok_perm el_name _ _
    (Permutation_sym (hash_add_inorder_perm tag_order_cmp _ _)) Hok)
    (hash_add_inorder_perm tag_order_cmp _ _)).
  simpl. destruct (decide (new = k)) as [->|Hk]; [by rewrite lookup_insert_eq|].
  rewrite lookup_insert_ne, hash_find_del by done. case_decide as Hko; [subst; by rewrite lookup_delete_eq|].
  by rewrite lookup_delete_ne, to_map_lookup.
Qed.

(** Each operation is the operation on the map; only unique names are needed. *)
Lemma run_op_refines now op g :
  table_ok el_name (tags g) →
  (run_op now op g).1 = (spec_op op (group_map g)).1 ∧
  group_map (run_op now op g).2 = (spec_op op (group_map g)).2.
Proof.
  intros Ht.
  destruct op as [t|t|o n|n]; simpl; rewrite ?group_map_lookup.
  - unfold neu_group_add_tag. destruct (hash_find _ _ _) eqn:Hf; [done|]. split; [done|].
    unfold group_map. simpl. rewrite to_map_add by done. by rewrite fmap_insert.
  - unfold neu_group_update_tag. destruct (hash_find _ _ _) as [el|] eqn:Hf; [|done]. split; [done|].
    unfold group_map. simpl. rewrite to_map_update by done. apply map_eq. intros k.
    rewrite lookup_fmap, lookup_alter. destruct (decide (tag_name t = k)) as [<-|Hk].
    + by rewrite to_map_lookup, Hf, lookup_insert_eq.
    + by rewrite lookup_insert_ne, lookup_fmap.
  - unfold neu_group_rename_tag. destruct (hash_find el_name o (tags g)) as [el|] eqn:Ho; [|done].
    simpl. destruct (decide (o = n)); [done|].
    destruct (hash_find el_name n (tags g)) eqn:Hn; [done|]. split; [done|].
    unfold group_map. simpl. rewrite rename_map by done. by rewrite fmap_insert, fmap_delete.
  - unfold neu_group_del_tag. destruct (hash_find _ _ _) eqn:Hf; [|done]. split; [done|].
    unfold group_map. simpl. rewrite to_map_del by done. by rewrite fmap_delete.
Qed.

Definition names_ok (g : neu_group_t) : Prop :=
  table_ok el_name (tags g) ∧ Forall (λ el, tag_name (el_tag el) = el_name el) (tags g).

(** Unique names that match the tags, whatever the order numbers are. *)
Lemma run_op_names now op g : names_ok g → names_ok (run_op now op g).2.
Proof.
  intros [Ht Hn]. destruct op as [t|t|o n|n]; simpl.
  - unfold neu_group_add_tag. destruct (hash_find _ _ _) eqn:Hf; [done|].
    split; simpl; [by apply table_ok_add|by apply Forall_snoc].
  - unfold neu_group_update_tag. destruct (hash_find _ _ _) as [el|] eqn:Hf; [|done].
    split; simpl; [unfold table_ok; by rewrite hash_update_keys|].
    clear -Hn. induction Hn as [|x ts Hx Hn IH]; simpl; [constructor|].
    destruct (decide (el_name x = tag_name t)); constructor; auto.
  - unfold neu_group_rename_tag. destruct (hash_find el_name o (tags g)) as [el|] eqn:Ho; [|done].
    destruct (decide (o = n)); [done|].
    destruct (hash_find el_name n (tags g)) eqn:Hf; [done|].
    pose proof (hash_add_inorder_perm tag_order_cmp (rename_elem n el)
      (hash_del el_name o (tags g))) as Hp.
    split; simpl.
    + eapply table_ok_perm; [by symmetry|].
      apply table_ok_cons_fresh; [by apply table_ok_del|]. simpl.
      rewrite hash_find_del by done. by case_decide.
    + rewrite Hp. constructor; [done|]. by eapply Forall_sublist; [apply hash_del_sublist|].
  - unfold neu_group_del_tag. destruct (hash_find _ _ _) eqn:Hf; [|done].
    split; simpl; [by apply table_ok_del|]. by eapply Forall_sublist; [apply hash_del_sublist|].
Qed.

(** C32: a group implements a finite map.  Each operation that changes a group
    returns the code of the abstract operation on the map from names to tags
    and leaves a group that represents the resulting map, errors included:
    adding an existing name, updating or deleting a missing one, and renaming
    to a taken name change nothing. *)
Theorem group_refines_map now op g :
  group_ok g →
  (run_op now op g).1 = (spec_op op (group_map g)).1 ∧
  group_map (run_op now op g).2 = (spec_op op (group_map g)).2.
Proof. intros Hg. by apply run_op_refines, gok_table. Qed.

(** A run of operations on a new group. *)
Definition run_ops (now : Z) (ops : list group_op) (g : neu_group_t) : neu_group_t :=
  foldl (λ g op, (run_op now op g).2) g ops.

Lemma run_op_order now op g :
  is_u64 (next_tag_order g) → next_tag_order g < 18446744073709551615 →
  next_tag_order (run_op now op g).2 <= next_tag_order g + 1.
Proof.
  intros Hu Hlt. destruct op; simpl;
    unfold neu_group_add_tag, neu_group_update_tag, neu_group_rename_tag, neu_group_del_tag;
    repeat case_match; simpl; try lia.
  unfold u64. rewrite Z.mod_small; lia.
Qed.

(** The invariant holds in every reachable group: names are unique and
    match the tags, and the order numbers ascend, after any sequence of
    operations shorter than the 64-bit order counter. *)
Theorem group_reachable_ok now name itv ops :
  Z.of_nat (length ops) < 18446744073709551615 →
  group_ok (run_ops now ops (neu_group_new name itv)).
Proof.
  assert (Hgen : ∀ ops g, group_ok g →
    next_tag_order g + Z.of_nat (length ops) < 18446744073709551615 →
    group_ok (run_ops now ops g)).
  { clear ops. induction ops as [|op ops IH]; intros g Hg Hlen; [done|]. simpl in Hlen.
    apply IH; [apply run_op_ok; [done|lia]|].
    pose proof (run_op_order now op g (gok_next g Hg)). lia. }
  intros Hlen. apply Hgen; [apply group_ok_new|simpl; lia].
Qed.

Definition example_ops : list group_op :=
  [OpAdd (example_string_tag); OpRename "serial" "sn"; OpAdd example_string_tag; OpDel "sn"].

Lemma group_reachable_ok_witness : group_ok (run_ops 5 example_ops (neu_group_new "g" 1000)).
Proof. apply (group_reachable_ok 5 "g" 1000 example_ops). simpl. lia. Defined.

Lemma group_refines_map_witness :
  let g := run_ops 5 [OpAdd example_string_tag] (neu_group_new "g" 1000) in
  (run_op 6 (OpAdd example_string_tag) g).1 = NEU_ERR_TAG_NAME_CONFLICT ∧
  (run_op 6 (OpAdd example_string_tag) g).1 = (spec_op (OpAdd example_string_tag) (group_map g)).1 ∧
  group_map (run_op 6 (OpAdd example_string_tag) g).2 =
    (spec_op (OpAdd example_string_tag) (group_map g)).2.
Proof.
  intros g. split; [reflexivity|]. apply (group_refines_map 6 (OpAdd example_string_tag) g).
  apply group_ok_add; [apply group_ok_new|simpl; lia].
Defined.

(** Renaming keeps the place of the tag.  A successful rename replaces the
    element where it stands: the list of tags a user sees keeps its order, and
    only the name of the one tag changes. *)
Theorem group_rename_in_place now g old new :
  group_ok g → (neu_group_rename_tag now g old new).1 = NEU_ERR_SUCCESS →
  neu_group_get_tag (neu_group_rename_tag now g old new).2 =
    (λ t, if decide (tag_name t = old) then rename_datatag new t else t) <$> neu_group_get_tag g.
Proof.
  intros Hg. pose proof (gok_names g Hg) as Hn. pose proof (gok_table g Hg) as Ht.
  unfold neu_group_get_tag. intros Hr.
  destruct (hash_find el_name old (tags g)) as [el|] eqn:Hf; cycle 1.
  { unfold neu_group_rename_tag in Hr. by rewrite Hf in Hr. }
  assert (Hsame : old = new → tags (neu_group_rename_tag now g old new).2 = tags g).
  { intros Heq. unfold neu_group_rename_tag. by rewrite Hf, decide_True. }
  assert (Htags : tags (neu_group_rename_tag now g old new).2 =
    (λ el, if decide (el_name el = old) then rename_elem new el else el) <$> tags g).
  { destruct (decide (old = new)) as [Heq|Hne].
    - rewrite Hsame by done. rewrite <-(list_fmap_id (tags g)) at 1. apply list_fmap_ext.
      intros i x Hx. simpl. destruct (decide (el_name x = old)) as [Hxo|]; [|done].
      apply list_elem_of_lookup_2 in Hx. rewrite Forall_forall in Hn. specialize (Hn x Hx).
      destruct x as [nm tg ord]; simpl in *. subst. unfold rename_elem. simpl. f_equal.
      by destruct tg; simpl in *; subst.
    - destruct (hash_find el_name new (tags g)) eqn:Hc.
      { unfold neu_group_rename_tag in Hr. by rewrite Hf, decide_False, Hc in Hr. }
      rewrite (rename_in_place now g old new el) by done. by apply hash_update_fmap. }
  rewrite Htags, <-!list_fmap_compose. apply list_fmap_ext. intros i x Hx. simpl.
  apply list_elem_of_lookup_2 in Hx. rewrite Forall_forall in Hn. rewrite (Hn x Hx).
  by destruct (decide _).
Qed.

Lemma group_rename_in_place_witness :
  let t1 := example_string_tag in
  let t2 := rename_datatag "second" t1 in
  let g := run_ops 5 [OpAdd t1; OpAdd t2] (neu_group_new "g" 1000) in
  (neu_group_rename_tag 6 g "serial" "first").1 = NEU_ERR_SUCCESS ∧
  tag_name <$> neu_group_get_tag (neu_group_rename_tag 6 g "serial" "first").2 =
    ["first"%string; "second"%string] ∧
  neu_group_get_tag (neu_group_rename_tag 6 g "serial" "first").2 =
    (λ t, if decide (tag_name t = "serial"%string) then rename_datatag "first" t else t)
      <$> neu_group_get_tag g.
Proof.
  intros t1 t2 g. split; [reflexivity|]. split; [reflexivity|].
  apply (group_rename_in_place 6 g "serial" "first"); [|reflexivity].
  apply (run_op_ok 5 (OpAdd t2)); [|vm_compute; reflexivity].
  apply (run_op_ok 5 (OpAdd t1)); [apply group_ok_new|simpl; lia].
Defined.

(** ** Pages *)

Lemma page_loop_spec predicate s e ts count :
  0 <= count → s <= e →
  page_loop predicate s e ts count =
    (take (Z.to_nat (e - Z.max s count)) (drop (Z.to_nat (s - count)) (List.filter predicate ts)),
     count + Z.of_nat (length (List.filter predicate ts))).
Proof.
  revert count. induction ts as [|t ts IH]; intros count Hc Hse; simpl.
  { rewrite drop_nil, take_nil. f_equal. lia. }
  destruct (predicate t); [|by apply IH]. rewrite IH by lia. cbn [length].
  f_equal; [|lia]. rewrite Z.geb_leb.
  destruct (Z.leb_spec s count) as [Hs|Hs]; cbn [andb].
  - replace (Z.to_nat (s - count)) with 0%nat by lia.
    replace (Z.to_nat (s - (count + 1))) with 0%nat by lia. rewrite !drop_0.
    destruct (Z.ltb_spec count e) as [He|He].
    + replace (Z.to_nat (e - Z.max s count)) with (S (Z.to_nat (e - Z.max s (count + 1)))) by lia.
      done.
    + replace (Z.to_nat (e - Z.max s count)) with 0%nat by lia.
      by replace (Z.to_nat (e - Z.max s (count + 1))) with 0%nat by lia.
  - replace (Z.to_nat (s - count)) with (S (Z.to_nat (s - (count + 1)))) by lia. cbn [drop].
    do 2 f_equal. lia.
Qed.

Lemma filter_page_spec ts predicate page size :
  1 <= page → 0 <= size →
  filter_tags_by_page ts predicate page size =
    (take (Z.to_nat size) (drop (Z.to_nat ((page - 1) * size)) (filter_tags ts predicate)),
     Z.of_nat (length (filter_tags ts predicate))).
Proof.
  intros Hp Hs. unfold filter_tags_by_page, filter_tags. rewrite page_loop_spec by nia.
  rewrite Z.sub_0_r, Z.add_0_l. do 2 f_equal. f_equal. nia.
Qed.

(** The pages of a tag query tile the result.  Page [p] of the paginated
    query is the [p]-th block of [page_size] matching tags, the total is the
    number of matches, and the pages up to the last one put together are the
    matching tags in their order, none missing and none twice. *)
Theorem paginate_tiles g name desc size n :
  1 <= size →
  let q := {| q_name := name; q_desc := desc; q_tagnames := [] |} in
  let matches := filter_tags (tags g) (match_query q) in
  (length matches <= n * Z.to_nat size)%nat →
  concat ((λ p, (neu_group_query_read_tag_paginate g name desc (Z.of_nat p) size).1) <$> seq 1 n) =
    matches ∧
  ∀ p, (neu_group_query_read_tag_paginate g name desc (Z.of_nat (S p)) size).2 =
    Z.of_nat (length matches).
Proof.
  intros Hs q matches Hn. unfold neu_group_query_read_tag_paginate. fold q. split; cycle 1.
  { intros p. by rewrite filter_page_spec by lia. }
  assert (Hpage : ∀ p, (1 <= p)%nat →
    (filter_tags_by_page (tags g) (match_query q) (Z.of_nat p) size).1 =
    take (Z.to_nat size) (drop ((p - 1) * Z.to_nat size) matches)).
  { intros p Hp. rewrite filter_page_spec by lia. simpl.
    rewrite Z2Nat.inj_mul by lia. do 3 f_equal. lia. }
  assert (Hgen : ∀ k s, (1 <= s)%nat →
    concat ((λ p, (filter_tags_by_page (tags g) (match_query q) (Z.of_nat p) size).1) <$> seq s k) =
    take (k * Z.to_nat size) (drop ((s - 1) * Z.to_nat size) matches)).
  { induction k as [|k IH]; intros s Hs1; [done|]. cbn [seq]. rewrite fmap_cons. cbn [concat].
    rewrite IH, Hpage by lia. cbn [Nat.mul].
    replace (S s - 1)%nat with (S (s - 1)) by lia. cbn [Nat.mul].
    rewrite (Nat.add_comm (Z.to_nat size) ((s - 1) * Z.to_nat size)).
    rewrite <-drop_drop. apply take_take_drop. }
  rewrite Hgen by lia. simpl. rewrite drop_0. by apply take_ge.
Qed.

Lemma paginate_tiles_witness :
  let t n := rename_datatag n example_string_tag in
  let g := run_ops 5 [OpAdd (t "a1"); OpAdd (t "b"); OpAdd (t "a2"); OpAdd (t "a3")]
             (neu_group_new "g" 1000) in
  let q := {| q_name := Some "a"%string; q_desc := None; q_tagnames := [] |} in
  tag_name <$> filter_tags (tags g) (match_query q) = ["a1"; "a2"; "a3"]%string ∧
  concat ((λ p, (neu_group_query_read_tag_paginate g (Some "a"%string) None (Z.of_nat p) 2).1)
    <$> seq 1 2) = filter_tags (tags g) (match_query q) ∧
  ∀ p, (neu_group_query_read_tag_paginate g (Some "a"%string) None (Z.of_nat (S p)) 2).2 = 3.
Proof.
  intros t g q. split; [reflexivity|].
  apply (paginate_tiles g (Some "a"%string) None 2 2); [lia|vm_compute; lia].
Defined.
