(* ===== verification/Subscribe.v ===== *)
(** * Subscriptions of applications to driver groups

    src/core/subscribe.c: a table keyed by driver and group whose elements hold
    the applications subscribed to that group.  The keys are fixed-size
    character arrays filled by [strncpy].  Allocation failures are left out. *)

From S2P Require Import Prelude UtHash NeuTypes.

(** ** State *)

Definition NEU_NODE_NAME_LEN : nat := 128.
Definition NEU_GROUP_NAME_LEN : nat := 128.

(** [sub_elem_key_t] *)
Definition sub_key := (string * string)%type.

Record neu_app_subscribe_t := {
  app_name : string;
  app_params : option string;
  app_static_tags : option string;
  app_addr : Z;
}.

Record sub_elem_t := { key : sub_key; apps : list neu_app_subscribe_t }.

Definition neu_subscribe_mgr_t := list sub_elem_t.

(** The two [strncpy] calls every operation starts with. *)
Definition make_key (driver group : string) : sub_key :=
  (cstr_trunc NEU_NODE_NAME_LEN driver, cstr_trunc NEU_GROUP_NAME_LEN group).

Definition key_driver (el : sub_elem_t) : string := (key el).1.
Definition key_group (el : sub_elem_t) : string := (key el).2.
Definition is_app (app : string) (sub : neu_app_subscribe_t) : bool :=
  bool_decide (app_name sub = app).

(** ** Operations *)

Definition neu_subscribe_manager_create : neu_subscribe_mgr_t := [].

Definition neu_subscribe_manager_find (mgr : neu_subscribe_mgr_t) (driver group : string)
    : option (list neu_app_subscribe_t) :=
  apps <$> hash_find key (make_key driver group) mgr.

Definition neu_subscribe_manager_find_by_driver (mgr : neu_subscribe_mgr_t) (driver : string)
    : list neu_app_subscribe_t :=
  concat (apps <$> List.filter (λ el, bool_decide (driver = key_driver el)) mgr).

(** [neu_resp_subscribe_info_t] *)
Record neu_resp_subscribe_info_t := {
  info_driver : string;
  info_app : string;
  info_group : string;
  info_params : option string;
  info_static_tags : option string;
}.

Definition opt_strstr (hay : string) (needle : option string) : bool :=
  match needle with None => true | Some n => strstr hay n end.

Definition neu_subscribe_manager_get (mgr : neu_subscribe_mgr_t) (app : string)
    (driver group : option string) : list neu_resp_subscribe_info_t :=
  concat ((λ el,
    (λ sub, {| info_driver := key_driver el; info_app := app; info_group := key_group el;
               info_params := app_params sub; info_static_tags := app_static_tags sub |})
    <$> List.filter (λ sub, is_app app sub && opt_strstr (key_driver el) driver
                            && opt_strstr (key_group el) group) (apps el)) <$> mgr).

Definition neu_subscribe_manager_group_count (mgr : neu_subscribe_mgr_t) (app : string) : Z :=
  Z.of_nat (length (concat ((λ el, List.filter (is_app app) (apps el)) <$> mgr))).

(** Erase the first application of that name. *)
Fixpoint erase_app (app : string) (l : list neu_app_subscribe_t) : list neu_app_subscribe_t :=
  match l with
  | [] => []
  | sub :: l' => if is_app app sub then l' else sub :: erase_app app l'
  end.

Definition set_apps (l : list neu_app_subscribe_t) (el : sub_elem_t) : sub_elem_t :=
  {| key := key el; apps := l |}.

Definition neu_subscribe_manager_unsub (mgr : neu_subscribe_mgr_t) (driver app group : string)
    : Z * neu_subscribe_mgr_t :=
  let k := make_key driver group in
  match hash_find key k mgr with
  | Some el =>
      if existsb (is_app app) (apps el)
      then (NEU_ERR_SUCCESS, hash_update key k (λ el, set_apps (erase_app app (apps el)) el) mgr)
      else (NEU_ERR_GROUP_NOT_SUBSCRIBE, mgr)
  | None => (NEU_ERR_GROUP_NOT_SUBSCRIBE, mgr)
  end.

(** The loop walks the elements of the table it is changing; an unsubscription
    changes an element in place, so every element is visited once. *)
Definition neu_subscribe_manager_unsub_all (mgr : neu_subscribe_mgr_t) (app : string)
    : neu_subscribe_mgr_t :=
  foldl (λ m el, if existsb (is_app app) (apps el)
                 then (neu_subscribe_manager_unsub m (key_driver el) app (key_group el)).2
                 else m) mgr mgr.

Definition neu_subscribe_manager_sub (mgr : neu_subscribe_mgr_t) (driver app group : string)
    (params static_tags : option string) (addr : Z) : Z * neu_subscribe_mgr_t :=
  let k := make_key driver group in
  let sub := {| app_name := cstr_trunc NEU_NODE_NAME_LEN app; app_params := params;
                app_static_tags := static_tags; app_addr := addr |} in
  match hash_find key k mgr with
  | Some el =>
      if existsb (is_app app) (apps el) then (NEU_ERR_GROUP_ALREADY_SUBSCRIBED, mgr)
      else (NEU_ERR_SUCCESS, hash_update key k (λ el, set_apps (apps el ++ [sub]) el) mgr)
  | None => (NEU_ERR_SUCCESS, hash_add {| key := k; apps := [sub] |} mgr)
  end.

(** Write through the pointer to the first application of that name. *)
Fixpoint update_app (app : string) (f : neu_app_subscribe_t → neu_app_subscribe_t)
    (l : list neu_app_subscribe_t) : list neu_app_subscribe_t :=
  match l with
  | [] => []
  | sub :: l' => if is_app app sub then f sub :: l' else sub :: update_app app f l'
  end.

Definition neu_subscribe_manager_update_params (mgr : neu_subscribe_mgr_t)
    (app driver group : string) (params static_tags : option string) : Z * neu_subscribe_mgr_t :=
  let k := make_key driver group in
  match hash_find key k mgr with
  | Some el =>
      if existsb (is_app app) (apps el)
      then (NEU_ERR_SUCCESS,
            hash_update key k (λ el, set_apps (update_app app
              (λ sub, {| app_name := app_name sub; app_params := params;
                         app_static_tags := static_tags; app_addr := app_addr sub |})
              (apps el)) el) mgr)
      else (NEU_ERR_GROUP_NOT_SUBSCRIBE, mgr)
  | None => (NEU_ERR_GROUP_NOT_SUBSCRIBE, mgr)
  end.

Definition removed (driver : string) (group : option string) (el : sub_elem_t) : bool :=
  bool_decide (driver = key_driver el)
  && match group with None => true | Some g => bool_decide (g = key_group el) end.

Definition neu_subscribe_manager_remove (mgr : neu_subscribe_mgr_t) (driver : string)
    (group : option string) : neu_subscribe_mgr_t :=
  List.filter (λ el, negb (removed driver group el)) mgr.

Definition rename_app (new_name : string) (sub : neu_app_subscribe_t) : neu_app_subscribe_t :=
  {| app_name := cstr_trunc NEU_NODE_NAME_LEN new_name; app_params := app_params sub;
     app_static_tags := app_static_tags sub; app_addr := app_addr sub |}.

Definition neu_subscribe_manager_update_app_name (mgr : neu_subscribe_mgr_t) (app new_name : string)
    : neu_subscribe_mgr_t :=
  (λ el, set_apps ((λ sub, if is_app app sub then rename_app new_name sub else sub) <$> apps el) el)
    <$> mgr.

Definition rename_driver (new_name : string) (el : sub_elem_t) : sub_elem_t :=
  {| key := (cstr_trunc NEU_NODE_NAME_LEN new_name, key_group el); apps := apps el |}.

(** [HASH_ITER] over a table whose elements are taken out and added again at the
    end: [visited] is in front of the loop variable, which is the head of
    [todo].  The next element is captured before the body runs, so the loop ends
    when there was none, and otherwise meets the re-added elements again. *)
Fixpoint rename_driver_loop (fuel : nat) (driver new_name : string)
    (visited todo : list sub_elem_t) : option neu_subscribe_mgr_t :=
  match fuel with
  | O => None
  | S fuel' =>
      match todo with
      | [] => Some visited
      | el :: rest =>
          if bool_decide (driver = key_driver el) then
            let el' := rename_driver new_name el in
            match rest with
            | [] => Some (visited ++ [el'])
            | _ => rename_driver_loop fuel' driver new_name visited (rest ++ [el'])
            end
          else rename_driver_loop fuel' driver new_name (visited ++ [el]) rest
      end
  end.

(** Each element is renamed and visited at most twice when the name changes. *)
Definition neu_subscribe_manager_update_driver_name (mgr : neu_subscribe_mgr_t)
    (driver new_name : string) : option neu_subscribe_mgr_t :=
  rename_driver_loop (S (2 * length mgr)) driver new_name [] mgr.

Definition neu_subscribe_manager_update_group_name (mgr : neu_subscribe_mgr_t)
    (driver group new_name : string) : Z * neu_subscribe_mgr_t :=
  let k := make_key driver group in
  match hash_find key k mgr with
  | None => (NEU_ERR_GROUP_NOT_SUBSCRIBE, mgr)
  | Some el =>
      (0, hash_add {| key := (key_driver el, cstr_trunc NEU_GROUP_NAME_LEN new_name);
                      apps := apps el |} (hash_del key k mgr))
  end.

(** ** The abstract state: a set of (driver, group, application) *)

Definition triples_of (el : sub_elem_t) : list (string * string * string) :=
  (λ sub, (key_driver el, key_group el, app_name sub)) <$> apps el.
Definition triples (mgr : neu_subscribe_mgr_t) : list (string * string * string) :=
  concat (triples_of <$> mgr).

Definition subscribed (mgr : neu_subscribe_mgr_t) (driver group app : string) : Prop :=
  (driver, group, app) ∈ triples mgr.
#[export] Instance subscribed_dec mgr d g a : Decision (subscribed mgr d g a).
Proof. unfold subscribed. apply _. Defined.

(** A name that fits its field. *)
Definition short (s : string) : Prop := (String.length s < 128)%nat.

Record mgr_ok (mgr : neu_subscribe_mgr_t) : Prop := {
  mok_table : table_ok key mgr;
  mok_apps : Forall (λ el, NoDup (app_name <$> apps el)) mgr;
  mok_short : Forall (λ el, short (key_driver el) ∧ short (key_group el)) mgr;
}.

Lemma cstr_trunc_short s : short s → cstr_trunc 128 s = s.
Proof. intros Hs. apply substring_full. unfold short in Hs. lia. Qed.

Lemma make_key_short d g : short d → short g → make_key d g = (d, g).
Proof. intros. unfold make_key. by rewrite !cstr_trunc_short. Qed.

Lemma elem_of_triples mgr d g a :
  subscribed mgr d g a ↔ ∃ el, el ∈ mgr ∧ key el = (d, g) ∧ a ∈ app_name <$> apps el.
Proof.
  unfold subscribed, triples. rewrite list_elem_of_In, in_concat. split.
  - intros (l & Hl & Hin). rewrite <-list_elem_of_In in Hl. rewrite <-list_elem_of_In in Hin.
    apply list_elem_of_fmap in Hl as (el & -> & Hel).
    apply list_elem_of_fmap in Hin as (sub & [= -> -> ->] & Hsub).
    exists el. split; [done|]. split; [by destruct el as [[]]|]. by apply list_elem_of_fmap_2.
  - intros (el & Hel & Hk & (sub & -> & Hsub)%list_elem_of_fmap).
    exists (triples_of el). split; [by apply list_elem_of_In, list_elem_of_fmap_2|].
    apply list_elem_of_In. apply list_elem_of_fmap. exists sub. unfold key_driver, key_group. by rewrite Hk.
Qed.

(** The applications of one group. *)
Lemma subscribed_find mgr d g a :
  table_ok key mgr →
  subscribed mgr d g a ↔ ∃ el, hash_find key (d, g) mgr = Some el ∧ a ∈ app_name <$> apps el.
Proof.
  intros Ht. rewrite elem_of_triples. split.
  - intros (el & Hel & Hk & Ha). exists el. split; [|done]. rewrite <-Hk. by apply hash_find_elem.
  - intros (el & Hf & Ha). apply hash_find_Some in Hf as [Hel Hk]. by exists el.
Qed.

Lemma existsb_is_app a l : existsb (is_app a) l = true ↔ a ∈ app_name <$> l.
Proof.
  rewrite existsb_exists. split.
  - intros (sub & Hin & Ha%bool_decide_eq_true). rewrite <-list_elem_of_In in Hin.
    rewrite <-Ha. by apply list_elem_of_fmap_2.
  - intros (sub & -> & Hin)%list_elem_of_fmap. exists sub. rewrite <-list_elem_of_In.
    split; [done|]. by apply bool_decide_eq_true.
Qed.

Lemma existsb_is_app_false a l : existsb (is_app a) l = false ↔ a ∉ app_name <$> l.
Proof. rewrite <-existsb_is_app. by destruct (existsb _ _). Qed.

(** A change of the applications of one element. *)
Lemma subscribed_update mgr k f d g a :
  table_ok key mgr →
  subscribed (hash_update key k (λ el, set_apps (f el) el) mgr) d g a ↔
    if decide ((d, g) = k)
    then ∃ el, hash_find key k mgr = Some el ∧ a ∈ app_name <$> f el
    else subscribed mgr d g a.
Proof.
  intros Ht. assert (Ht' : table_ok key (hash_update key k (λ el, set_apps (f el) el) mgr)).
  { unfold table_ok. by rewrite hash_update_keys. }
  rewrite subscribed_find by done. rewrite hash_find_update by done.
  destruct (decide ((d, g) = k)) as [->|];
    [rewrite decide_True by done|rewrite decide_False by done; by rewrite subscribed_find].
  split.
  - intros (el & (el0 & Hf & ->)%fmap_Some & Ha). by exists el0.
  - intros (el & Hf & Ha). eexists. by rewrite Hf.
Qed.

Lemma subscribed_add mgr el d g a :
  subscribed (hash_add el mgr) d g a ↔
    subscribed mgr d g a ∨ (key el = (d, g) ∧ a ∈ app_name <$> apps el).
Proof.
  rewrite !elem_of_triples. unfold hash_add. setoid_rewrite elem_of_app.
  setoid_rewrite list_elem_of_singleton. naive_solver.
Qed.

Lemma erase_app_names app l :
  NoDup (app_name <$> l) → NoDup (app_name <$> erase_app app l) ∧
  ∀ a, a ∈ app_name <$> erase_app app l ↔ a ∈ app_name <$> l ∧ a ≠ app.
Proof.
  induction l as [|sub l IH]; csimpl; [intros _; split; [by apply NoDup_nil_2|]; set_solver|].
  rewrite NoDup_cons. intros [Hn Hl]. unfold is_app. case_bool_decide as Heq.
  - split; [done|]. subst app. set_solver.
  - destruct (IH Hl) as [IH1 IH2]. csimpl. split.
    + apply NoDup_cons. split; [|done]. rewrite IH2. naive_solver.
    + intros a. rewrite !elem_of_cons, IH2. naive_solver.
Qed.

Lemma mgr_ok_update mgr k f :
  mgr_ok mgr → (∀ el, NoDup (app_name <$> apps el) → hash_find key k mgr = Some el →
    NoDup (app_name <$> f el)) →
  mgr_ok (hash_update key k (λ el, set_apps (f el) el) mgr).
Proof.
  intros [Ht Ha Hs] Hf. split.
  - unfold table_ok. by rewrite hash_update_keys.
  - clear Hs. revert Hf. clear Ht. induction Ha as [|el mgr Hel Ha IH]; simpl; intros Hf; [constructor|].
    destruct (decide (key el = k)); constructor; auto. by apply Hf.
  - clear -Hs. induction Hs as [|el mgr Hel Hs IH]; simpl; [constructor|].
    destruct (decide (key el = k)); by constructor.
Qed.

(** ** Correctness of each operation *)

Lemma sub_spec mgr d a g params st addr :
  mgr_ok mgr → short d → short a → short g →
  let '(ret, mgr') := neu_subscribe_manager_sub mgr d a g params st addr in
  mgr_ok mgr' ∧
  if decide (subscribed mgr d g a) then ret = NEU_ERR_GROUP_ALREADY_SUBSCRIBED ∧ mgr' = mgr
  else ret = NEU_ERR_SUCCESS ∧
    ∀ d' g' a', subscribed mgr' d' g' a' ↔ subscribed mgr d' g' a' ∨ (d', g', a') = (d, g, a).
Proof.
  intros Hok Hd Ha Hg. pose proof (mok_table mgr Hok) as Ht. unfold neu_subscribe_manager_sub.
  rewrite make_key_short by done. unfold NEU_NODE_NAME_LEN. rewrite cstr_trunc_short by done.
  destruct (hash_find key (d, g) mgr) as [el|] eqn:Hf.
  - assert (Hsub : subscribed mgr d g a ↔ a ∈ app_name <$> apps el).
    { rewrite subscribed_find by done. rewrite Hf. naive_solver. }
    destruct (existsb (is_app a) (apps el)) eqn:He.
    + apply existsb_is_app in He. split; [done|]. rewrite decide_True by by apply Hsub. done.
    + apply existsb_is_app_false in He. rewrite decide_False by by rewrite Hsub.
      split; [|split; [done|]].
      * apply mgr_ok_update; [done|]. intros el' Hn Hf'. rewrite Hf in Hf'. injection Hf' as <-.
        rewrite fmap_app. apply NoDup_app. split_and!; [done| |apply NoDup_singleton].
        intros x Hx ->%list_elem_of_singleton. done.
      * intros d' g' a'. rewrite subscribed_update by done.
        destruct (decide ((d', g') = (d, g))) as [[= -> ->]|Hne].
        -- rewrite (subscribed_find mgr d g) by done. rewrite Hf. setoid_rewrite fmap_app.
           setoid_rewrite elem_of_app. csimpl. setoid_rewrite list_elem_of_singleton. naive_solver.
        -- naive_solver.
  - assert (Hns : ¬ subscribed mgr d g a).
    { rewrite subscribed_find by done. rewrite Hf. naive_solver. }
    rewrite decide_False by done. split; [|split; [done|]].
    + split; [by apply table_ok_add| |]; apply Forall_snoc.
      * split; [by apply mok_apps|]. simpl. apply NoDup_singleton.
      * split; [by apply mok_short|done].
    + intros d' g' a'. rewrite subscribed_add. csimpl. rewrite list_elem_of_singleton. naive_solver.
Qed.

Lemma unsub_spec mgr d a g :
  mgr_ok mgr → short d → short g →
  let '(ret, mgr') := neu_subscribe_manager_unsub mgr d a g in
  mgr_ok mgr' ∧
  if decide (subscribed mgr d g a)
  then ret = NEU_ERR_SUCCESS ∧
    ∀ d' g' a', subscribed mgr' d' g' a' ↔ subscribed mgr d' g' a' ∧ (d', g', a') ≠ (d, g, a)
  else ret = NEU_ERR_GROUP_NOT_SUBSCRIBE ∧ mgr' = mgr.
Proof.
  intros Hok Hd Hg. pose proof (mok_table mgr Hok) as Ht. unfold neu_subscribe_manager_unsub.
  rewrite make_key_short by done.
  assert (Hsub : subscribed mgr d g a ↔
    ∃ el, hash_find key (d, g) mgr = Some el ∧ a ∈ app_name <$> apps el) by by apply subscribed_find.
  destruct (hash_find key (d, g) mgr) as [el|] eqn:Hf; cycle 1.
  { split; [done|]. rewrite decide_False; [done|]. rewrite Hsub. naive_solver. }
  destruct (existsb (is_app a) (apps el)) eqn:He; cycle 1.
  { apply existsb_is_app_false in He. split; [done|]. rewrite decide_False; [done|].
    rewrite Hsub. naive_solver. }
  apply existsb_is_app in He. rewrite decide_True by (apply Hsub; naive_solver).
  assert (Hnd : NoDup (app_name <$> apps el)).
  { pose proof (mok_apps mgr Hok) as Ha. rewrite Forall_forall in Ha. apply Ha.
    by apply hash_find_Some in Hf as [? _]. }
  split; [|split; [done|]].
  - apply mgr_ok_update; [done|]. intros el' Hn _. by apply erase_app_names.
  - intros d' g' a'. rewrite subscribed_update by done.
    destruct (decide ((d', g') = (d, g))) as [[= -> ->]|Hne]; [|naive_solver].
    rewrite (subscribed_find mgr d g) by done. rewrite Hf.
    destruct (erase_app_names a (apps el) Hnd) as [_ Hin]. split.
    + intros (el' & [= <-] & [? ?]%Hin). split; [by exists el|congruence].
    + intros [(el' & [= <-] & ?) Hne]. exists el. split; [done|]. apply Hin. split; [done|congruence].
Qed.

(** The loop of [unsub_all] over a part of the table. *)
Lemma unsub_all_loop app l : ∀ m,
  mgr_ok m → NoDup (key <$> l) → (∀ el, el ∈ l → hash_find key (key el) m = Some el) →
  let m' := foldl (λ m el, if existsb (is_app app) (apps el)
                 then (neu_subscribe_manager_unsub m (key_driver el) app (key_group el)).2
                 else m) m l in
  mgr_ok m' ∧ ∀ d g a, subscribed m' d g a ↔
    subscribed m d g a ∧ ¬ (a = app ∧ (d, g) ∈ key <$> l).
Proof.
  induction l as [|el l IH]; intros m Hok Hnd Hl; csimpl.
  { split; [done|]. set_solver. }
  apply NoDup_cons in Hnd as [Hel Hnd]. pose proof (Hl el ltac:(set_solver)) as Hf.
  assert (Hkey : key el = (key_driver el, key_group el)) by by destruct el as [[]].
  destruct (existsb (is_app app) (apps el)) eqn:He.
  - pose proof (mok_short m Hok) as Hs. rewrite Forall_forall in Hs.
    destruct (Hs el) as [Hsd Hsg]; [by apply hash_find_Some in Hf as [? _]|].
    pose proof (unsub_spec m (key_driver el) app (key_group el) Hok Hsd Hsg) as Hspec.
    destruct (neu_subscribe_manager_unsub _ _ _ _) as [ret m1] eqn:Hm1. simpl.
    destruct Hspec as [Hok1 Hspec]. rewrite decide_True in Hspec; cycle 1.
    { apply subscribed_find; [apply Hok|]. exists el. rewrite <-Hkey.
      split; [done|by apply existsb_is_app]. }
    destruct Hspec as [_ Hsub]. destruct (IH m1) as [Hok' Hsub']; [done|done| |].
    { intros el' Hin. pose proof (Hl el' ltac:(set_solver)) as Hf'.
      assert (key el' ≠ key el) by (intros Hk; apply Hel; rewrite <-Hk; by apply list_elem_of_fmap_2).
      unfold neu_subscribe_manager_unsub in Hm1. rewrite make_key_short, <-Hkey, Hf, He in Hm1 by done.
      injection Hm1 as _ <-. rewrite hash_find_update by done. by rewrite decide_False. }
    split; [done|]. intros d g a. rewrite Hsub', Hsub, elem_of_cons, Hkey. naive_solver.
  - apply existsb_is_app_false in He. destruct (IH m) as [Hok' Hsub']; [done|done|set_solver|].
    split; [done|]. intros d g a. rewrite Hsub', elem_of_cons. split; [|naive_solver].
    intros [Hs Hn]. split; [done|]. intros [-> [Hdg|?]]; [|naive_solver].
    apply subscribed_find in Hs as (el' & Hf' & Ha); [|apply Hok].
    rewrite Hdg, Hf in Hf'. by injection Hf' as <-.
Qed.

Lemma unsub_all_spec mgr app :
  mgr_ok mgr →
  let mgr' := neu_subscribe_manager_unsub_all mgr app in
  mgr_ok mgr' ∧ ∀ d g a, subscribed mgr' d g a ↔ subscribed mgr d g a ∧ a ≠ app.
Proof.
  intros Hok. destruct (unsub_all_loop app mgr mgr Hok) as [Hok' Hsub];
    [apply Hok|intros; apply hash_find_elem; [apply Hok|done]|].
  split; [done|]. intros d g a. unfold neu_subscribe_manager_unsub_all. rewrite Hsub.
  split; [|naive_solver]. intros [Hs Hn]. split; [done|]. intros ->. apply Hn. split; [done|].
  apply elem_of_triples in Hs as (el & Hel & <- & _). by apply list_elem_of_fmap_2.
Qed.

Lemma remove_spec mgr driver group :
  mgr_ok mgr →
  let mgr' := neu_subscribe_manager_remove mgr driver group in
  mgr_ok mgr' ∧ ∀ d g a, subscribed mgr' d g a ↔
    subscribed mgr d g a ∧ ¬ (d = driver ∧ (group = None ∨ group = Some g)).
Proof.
  intros [Ht Ha Hs]. unfold neu_subscribe_manager_remove. cbv zeta.
  assert (Hsub : List.filter (λ el, negb (removed driver group el)) mgr `sublist_of` mgr).
  { clear. induction mgr as [|el mgr IH]; simpl; [done|].
    destruct (negb _); [by apply sublist_skip|by apply sublist_cons]. }
  split.
  { split; [by eapply table_ok_sublist|by eapply Forall_sublist|by eapply Forall_sublist]. }
  intros d g a. rewrite !elem_of_triples. setoid_rewrite list_elem_of_In. setoid_rewrite filter_In.
  setoid_rewrite negb_true_iff. split.
  - intros (el & [Hin Hr] & Hk & Hin'). split; [by exists el|]. intros [-> Hg]. revert Hr.
    unfold removed, key_driver, key_group. rewrite Hk. simpl.
    rewrite bool_decide_eq_true_2 by done. destruct Hg as [->| ->]; [done|].
    by rewrite bool_decide_eq_true_2.
  - intros [(el & Hin & Hk & Hin') Hn]. exists el. split_and!; [done| |done|done].
    unfold removed, key_driver, key_group. rewrite Hk. simpl. case_bool_decide; [|done].
    destruct group as [g'|]; simpl; [case_bool_decide; naive_solver|naive_solver].
Qed.

Lemma update_app_names app f l :
  (∀ sub, app_name (f sub) = app_name sub) → app_name <$> update_app app f l = app_name <$> l.
Proof.
  intros Hf. induction l as [|sub l IH]; simpl; [done|].
  destruct (is_app app sub); csimpl; by rewrite ?Hf, ?IH.
Qed.

Lemma update_params_spec mgr d a g params st :
  mgr_ok mgr → short d → short g →
  let '(ret, mgr') := neu_subscribe_manager_update_params mgr a d g params st in
  mgr_ok mgr' ∧ (∀ d' g' a', subscribed mgr' d' g' a' ↔ subscribed mgr d' g' a') ∧
  ret = if decide (subscribed mgr d g a) then NEU_ERR_SUCCESS else NEU_ERR_GROUP_NOT_SUBSCRIBE.
Proof.
  intros Hok Hd Hg. pose proof (mok_table mgr Hok) as Ht.
  unfold neu_subscribe_manager_update_params. rewrite make_key_short by done.
  assert (Hsub : subscribed mgr d g a ↔
    ∃ el, hash_find key (d, g) mgr = Some el ∧ a ∈ app_name <$> apps el) by by apply subscribed_find.
  destruct (hash_find key (d, g) mgr) as [el|] eqn:Hf; cycle 1.
  { split_and!; [done|done|]. rewrite decide_False; [done|]. rewrite Hsub. naive_solver. }
  destruct (existsb (is_app a) (apps el)) eqn:He; cycle 1.
  { apply existsb_is_app_false in He. split_and!; [done|done|]. rewrite decide_False; [done|].
    rewrite Hsub. naive_solver. }
  apply existsb_is_app in He. rewrite decide_True by (apply Hsub; naive_solver).
  split_and!; [| |done].
  - apply mgr_ok_update; [done|]. intros el' Hn _. by rewrite update_app_names.
  - intros d' g' a'. rewrite subscribed_update by done.
    destruct (decide ((d', g') = (d, g))) as [[= -> ->]|Hne]; [|done].
    rewrite (subscribed_find mgr d g) by done. by setoid_rewrite update_app_names.
Qed.

(** ** The set of subscriptions as the specification *)

Definition triple := (string * string * string)%type.
Definition abs (mgr : neu_subscribe_mgr_t) : gset triple := list_to_set (triples mgr).

Inductive sub_op :=
  | OpSub (driver app group : string) (params static_tags : option string) (addr : Z)
  | OpUnsub (driver app group : string)
  | OpUnsubAll (app : string)
  | OpRemove (driver : string) (group : option string)
  | OpUpdateParams (app driver group : string) (params static_tags : option string).

(** The C functions of type void answer 0. *)
Definition run_sub (op : sub_op) (mgr : neu_subscribe_mgr_t) : Z * neu_subscribe_mgr_t :=
  match op with
  | OpSub d a g p s addr => neu_subscribe_manager_sub mgr d a g p s addr
  | OpUnsub d a g => neu_subscribe_manager_unsub mgr d a g
  | OpUnsubAll a => (0, neu_subscribe_manager_unsub_all mgr a)
  | OpRemove d g => (0, neu_subscribe_manager_remove mgr d g)
  | OpUpdateParams a d g p s => neu_subscribe_manager_update_params mgr a d g p s
  end.

Definition spec_sub (op : sub_op) (subs : gset triple) : Z * gset triple :=
  match op with
  | OpSub d a g _ _ _ =>
      if decide ((d, g, a) ∈ subs) then (NEU_ERR_GROUP_ALREADY_SUBSCRIBED, subs)
      else (NEU_ERR_SUCCESS, subs ∪ {[(d, g, a)]})
  | OpUnsub d a g =>
      if decide ((d, g, a) ∈ subs) then (NEU_ERR_SUCCESS, subs ∖ {[(d, g, a)]})
      else (NEU_ERR_GROUP_NOT_SUBSCRIBE, subs)
  | OpUnsubAll a => (0, filter (λ t, t.2 ≠ a) subs)
  | OpRemove d g =>
      (0, filter (λ t, ¬ (t.1.1 = d ∧ (g = None ∨ g = Some t.1.2))) subs)
  | OpUpdateParams a d g _ _ =>
      (if decide ((d, g, a) ∈ subs) then NEU_ERR_SUCCESS else NEU_ERR_GROUP_NOT_SUBSCRIBE, subs)
  end.

Definition op_short (op : sub_op) : Prop :=
  match op with
  | OpSub d a g _ _ _ => short d ∧ short a ∧ short g
  | OpUnsub d _ g | OpUpdateParams _ d g _ _ => short d ∧ short g
  | _ => True
  end.

(** The results of a sequence of operations and the state it ends in. *)
Fixpoint run_all {S : Type} (step : sub_op → S → Z * S) (ops : list sub_op) (s : S) : list Z * S :=
  match ops with
  | [] => ([], s)
  | op :: ops' =>
      let '(r, s1) := step op s in
      let '(rs, s2) := run_all step ops' s1 in (r :: rs, s2)
  end.

Lemma elem_of_abs mgr d g a : (d, g, a) ∈ abs mgr ↔ subscribed mgr d g a.
Proof. unfold abs. by rewrite elem_of_list_to_set. Qed.

Lemma run_sub_refines op mgr :
  mgr_ok mgr → op_short op →
  mgr_ok (run_sub op mgr).2 ∧ prod_map id abs (run_sub op mgr) = spec_sub op (abs mgr).
Proof.
  intros Hok Hs. destruct op as [d a g p s addr|d a g|a|d g|a d g p s]; simpl in *.
  - destruct Hs as (Hd & Ha & Hg). pose proof (sub_spec mgr d a g p s addr Hok Hd Ha Hg) as Hspec.
    destruct (neu_subscribe_manager_sub _ _ _ _ _ _ _) as [ret mgr']. destruct Hspec as [Hok' Hspec].
    split; [done|]. unfold prod_map. simpl. destruct (decide (subscribed mgr d g a)) as [Hsub|Hsub];
      [rewrite decide_True by (by apply elem_of_abs)|rewrite decide_False by (by rewrite elem_of_abs)].
    + by destruct Hspec as [-> ->].
    + destruct Hspec as [-> Hiff]. f_equal. apply set_eq. intros [[d' g'] a'].
      rewrite elem_of_union, elem_of_singleton, !elem_of_abs. apply Hiff.
  - destruct Hs as (Hd & Hg). pose proof (unsub_spec mgr d a g Hok Hd Hg) as Hspec.
    destruct (neu_subscribe_manager_unsub _ _ _ _) as [ret mgr']. destruct Hspec as [Hok' Hspec].
    split; [done|]. unfold prod_map. simpl. destruct (decide (subscribed mgr d g a)) as [Hsub|Hsub];
      [rewrite decide_True by (by apply elem_of_abs)|rewrite decide_False by (by rewrite elem_of_abs)].
    + destruct Hspec as [-> Hiff]. f_equal. apply set_eq. intros [[d' g'] a'].
      rewrite elem_of_difference, elem_of_singleton, !elem_of_abs. apply Hiff.
    + by destruct Hspec as [-> ->].
  - destruct (unsub_all_spec mgr a Hok) as [Hok' Hiff]. split; [done|]. unfold prod_map. simpl.
    f_equal. apply set_eq. intros [[d' g'] a']. rewrite elem_of_filter, !elem_of_abs, Hiff. simpl. tauto.
  - destruct (remove_spec mgr d g Hok) as [Hok' Hiff]. split; [done|]. unfold prod_map. simpl.
    f_equal. apply set_eq. intros [[d' g'] a']. rewrite elem_of_filter, !elem_of_abs, Hiff. simpl. tauto.
  - destruct Hs as (Hd & Hg). pose proof (update_params_spec mgr d a g p s Hok Hd Hg) as Hspec.
    destruct (neu_subscribe_manager_update_params _ _ _ _ _ _) as [ret mgr'].
    destruct Hspec as (Hok' & Hiff & ->). split; [done|]. unfold prod_map. simpl. f_equal.
    + by destruct (decide (subscribed mgr d g a)) as [Hsub|Hsub];
      [rewrite decide_True by (by apply elem_of_abs)|rewrite decide_False by (by rewrite elem_of_abs)].
    + apply set_eq. intros [[d' g'] a']. rewrite !elem_of_abs. apply Hiff.
Qed.

Lemma run_all_refines ops : ∀ mgr,
  mgr_ok mgr → Forall op_short ops →
  mgr_ok (run_all run_sub ops mgr).2 ∧
  prod_map id abs (run_all run_sub ops mgr) = run_all spec_sub ops (abs mgr).
Proof.
  induction ops as [|op ops IH]; intros mgr Hok Hs; simpl; [done|].
  apply Forall_cons in Hs as [Hop Hs]. destruct (run_sub_refines op mgr Hok Hop) as [Hok1 Heq].
  destruct (run_sub op mgr) as [r m1]. rewrite <-Heq. simpl in *.
  destruct (IH m1 Hok1 Hs) as [Hok2 Heq2]. rewrite <-Heq2. by destruct (run_all run_sub ops m1).
Qed.

Lemma create_ok : mgr_ok neu_subscribe_manager_create.
Proof. split; [apply NoDup_nil_2|constructor|constructor]. Qed.

(** ** Renaming a driver *)

Definition of_driver (driver : string) (el : sub_elem_t) : bool := bool_decide (driver = key_driver el).

Lemma rename_loop_done fuel d new visited todo :
  (length todo < fuel)%nat → Forall (λ el, of_driver d el = false) todo →
  rename_driver_loop fuel d new visited todo = Some (visited ++ todo).
Proof.
  intros Hf Hall. revert fuel visited Hf. induction Hall as [|el todo Hel Hall IH];
    intros [|fuel] visited; simpl; intros Hf; [lia|by rewrite app_nil_r|lia|].
  unfold of_driver in Hel. rewrite Hel, IH by lia. by rewrite <-app_assoc.
Qed.

(** [rest] is still to be visited for the first time, [moved] was re-added. *)
Lemma rename_loop_spec d new rest : ∀ fuel visited moved,
  cstr_trunc NEU_NODE_NAME_LEN new ≠ d →
  (2 * length rest + length moved < fuel)%nat → Forall (λ el, of_driver d el = false) moved →
  rename_driver_loop fuel d new visited (rest ++ moved) =
    Some (visited ++ List.filter (λ el, negb (of_driver d el)) rest ++ moved
          ++ (rename_driver new <$> List.filter (of_driver d) rest)).
Proof.
  induction rest as [|el rest IH]; intros fuel visited moved Hne Hf Hall.
  { cbn [app List.filter fmap list_fmap]. rewrite !app_nil_r. apply rename_loop_done; [simpl in Hf; lia|done]. }
  destruct fuel as [|fuel]; [lia|]. cbn [length] in Hf. simpl.
  fold (of_driver d el). destruct (of_driver d el) eqn:Hel; simpl.
  - assert (Hm : Forall (λ el, of_driver d el = false) (moved ++ [rename_driver new el])).
    { apply Forall_snoc. split; [done|]. apply bool_decide_eq_false_2. unfold key_driver. simpl. congruence. }
    destruct (rest ++ moved) as [|e l] eqn:Hrm.
    { apply app_eq_nil in Hrm as [-> ->]. done. }
    rewrite <-Hrm, <-app_assoc. rewrite IH; [|done|rewrite length_app; simpl; lia|done].
    csimpl. by rewrite <-!app_assoc.
  - rewrite IH by (done || lia). by rewrite <-app_assoc.
Qed.

Lemma update_driver_name_spec mgr d new :
  short new → new ≠ d →
  neu_subscribe_manager_update_driver_name mgr d new =
    Some (List.filter (λ el, negb (of_driver d el)) mgr
          ++ (rename_driver new <$> List.filter (of_driver d) mgr)).
Proof.
  intros Hs Hne. unfold neu_subscribe_manager_update_driver_name.
  rewrite <-(app_nil_r mgr) at 2. rewrite rename_loop_spec; [done| |simpl; lia|constructor].
  unfold NEU_NODE_NAME_LEN. by rewrite cstr_trunc_short.
Qed.

(** Up to order, the renamed table maps every element. *)
Definition rename_if (d new : string) (el : sub_elem_t) : sub_elem_t :=
  if of_driver d el then rename_driver new el else el.

Lemma rename_split_perm d new mgr :
  List.filter (λ el, negb (of_driver d el)) mgr
    ++ (rename_driver new <$> List.filter (of_driver d) mgr) ≡ₚ rename_if d new <$> mgr.
Proof.
  induction mgr as [|el mgr IH]; simpl; [done|]. unfold rename_if at 1.
  destruct (of_driver d el); csimpl; [|by rewrite IH].
  rewrite <-IH. symmetry. apply Permutation_middle.
Qed.

Lemma elem_of_abs_fmap f mgr t :
  (∀ el, apps (f el) = apps el) →
  t ∈ abs (f <$> mgr) ↔ ∃ el, el ∈ mgr ∧ key (f el) = t.1 ∧ t.2 ∈ app_name <$> apps el.
Proof.
  intros Hf. destruct t as [[d g] a]. rewrite elem_of_abs, elem_of_triples. split.
  - intros (el & (el0 & -> & Hel)%list_elem_of_fmap & Hk & Ha). rewrite Hf in Ha. by exists el0.
  - intros (el & Hel & Hk & Ha). exists (f el). rewrite Hf.
    split; [by apply list_elem_of_fmap_2|done].
Qed.

Lemma rename_if_key d new el :
  short new → key (rename_if d new el) =
    (if decide (key_driver el = d) then new else key_driver el, key_group el).
Proof.
  intros Hs. unfold rename_if, of_driver. case_bool_decide; simpl.
  - rewrite decide_True by done. unfold NEU_NODE_NAME_LEN. by rewrite cstr_trunc_short.
  - rewrite decide_False by done. by destruct el as [[]].
Qed.

Lemma rename_if_apps d new el : apps (rename_if d new el) = apps el.
Proof. unfold rename_if. by destruct (of_driver d el). Qed.

Lemma rename_if_ok d new mgr :
  mgr_ok mgr → short new → new ∉ key_driver <$> mgr → mgr_ok (rename_if d new <$> mgr).
Proof.
  intros [Ht Ha Hsh] Hs Hn. split.
  - unfold table_ok. rewrite <-list_fmap_compose. eapply NoDup_fmap_2_strong; cycle 1.
    { by eapply NoDup_fmap_1. }
    intros x y Hx Hy Heq. simpl in Heq. rewrite !rename_if_key in Heq by done.
    assert (Hnx : key_driver x ≠ new) by (intros Hk; apply Hn; rewrite <-Hk; by apply list_elem_of_fmap_2).
    assert (Hny : key_driver y ≠ new) by (intros Hk; apply Hn; rewrite <-Hk; by apply list_elem_of_fmap_2).
    apply (table_ok_inj key mgr); [done|done|done|].
    destruct x as [[dx gx] ax], y as [[dy gy] ay]; unfold key_driver, key_group in *; simpl in *.
    destruct (decide (dx = d)), (decide (dy = d)); congruence.
  - apply Forall_fmap. eapply Forall_impl; [exact Ha|]. intros el Hel. simpl. by rewrite rename_if_apps.
  - apply Forall_fmap. eapply Forall_impl; [exact Hsh|]. intros el [? ?]. simpl.
    unfold key_driver, key_group. rewrite rename_if_key by done. simpl. by destruct (decide _).
Qed.

Lemma mgr_ok_perm m m' : m ≡ₚ m' → mgr_ok m → mgr_ok m'.
Proof.
  intros Hp [Ht Ha Hs]. split; [by eapply table_ok_perm|by rewrite <-Hp|by rewrite <-Hp].
Qed.

Lemma abs_perm m m' : m ≡ₚ m' → abs m = abs m'.
Proof.
  intros Hp. apply set_eq. intros [[d g] a]. rewrite !elem_of_abs, !elem_of_triples.
  by setoid_rewrite Hp.
Qed.

Lemma abs_rename_driver d new mgr :
  short new → abs (rename_if d new <$> mgr) =
    set_map (λ t : triple, (if decide (t.1.1 = d) then new else t.1.1, t.1.2, t.2)) (abs mgr).
Proof.
  intros Hs. apply set_eq. intros [[d' g] a]. rewrite elem_of_abs_fmap by apply rename_if_apps.
  rewrite elem_of_map. simpl. split.
  - intros (el & Hel & Hk & Ha). rewrite rename_if_key in Hk by done. injection Hk as <- <-.
    exists (key_driver el, key_group el, a). split; [done|]. apply elem_of_abs, elem_of_triples.
    exists el. by destruct el as [[]].
  - intros ([[d0 g0] a0] & [= -> -> ->] & (el & Hel & Hk & Ha)%elem_of_abs%elem_of_triples).
    exists el. rewrite rename_if_key by done. unfold key_driver, key_group. by rewrite Hk.
Qed.

Lemma rename_loop_diverges d new : ∀ fuel visited todo,
  cstr_trunc NEU_NODE_NAME_LEN new = d →
  (2 <= length (List.filter (of_driver d) todo))%nat →
  rename_driver_loop fuel d new visited todo = None.
Proof.
  induction fuel as [|fuel IH]; intros visited todo Heq Hlen; simpl; [done|].
  destruct todo as [|el rest]; simpl in Hlen; [lia|]. fold (of_driver d el).
  destruct (of_driver d el) eqn:Hel; [|by apply IH]. simpl in Hlen.
  destruct rest as [|e rest']; [simpl in Hlen; lia|]. apply IH; [done|].
  rewrite List.filter_app, length_app. simpl.
  assert (Hr : of_driver d (rename_driver new el) = true) by (by apply bool_decide_eq_true_2).
  rewrite Hr. simpl in *. lia.
Qed.

(** ** Renaming a group *)

Lemma update_group_name_ok mgr d g new :
  mgr_ok mgr → short d → short g → short new → new = g ∨ (d, new) ∉ key <$> mgr →
  mgr_ok (neu_subscribe_manager_update_group_name mgr d g new).2.
Proof.
  intros [Ht Ha Hsh] Hd Hg Hnew Hfresh. unfold neu_subscribe_manager_update_group_name.
  rewrite make_key_short by done. destruct (hash_find key (d, g) mgr) as [el|] eqn:Hf; [|by split].
  pose proof (hash_find_Some key _ _ _ Hf) as [Hel Hk]. unfold key_driver. rewrite Hk.
  unfold NEU_GROUP_NAME_LEN. rewrite cstr_trunc_short by done.
  assert (Hfd : hash_find key (d, new) (hash_del key (d, g) mgr) = None).
  { rewrite hash_find_del by done. case_decide as E; [done|]. apply hash_find_None.
    by destruct Hfresh as [->|]. }
  split; [by apply table_ok_add; [apply table_ok_del|]| |]; apply Forall_snoc;
    (split; [eapply Forall_sublist; [apply hash_del_sublist|done]|]); [|done].
  rewrite Forall_forall in Ha. exact (Ha el Hel).
Qed.

Lemma update_group_name_spec mgr d g new :
  mgr_ok mgr → short d → short g → short new → (d, new) ∉ key <$> mgr →
  let '(ret, mgr') := neu_subscribe_manager_update_group_name mgr d g new in
  mgr_ok mgr' ∧
  ret = (if decide ((d, g) ∈ key <$> mgr) then 0 else NEU_ERR_GROUP_NOT_SUBSCRIBE) ∧
  abs mgr' = set_map (λ t : triple, (t.1.1, if decide (t.1 = (d, g)) then new else t.1.2, t.2)) (abs mgr).
Proof.
  intros Hok Hd Hg Hnew Hfresh. pose proof Hok as [Ht _ _].
  pose proof (update_group_name_ok mgr d g new Hok Hd Hg Hnew (or_intror Hfresh)) as Hok'.
  revert Hok'. unfold neu_subscribe_manager_update_group_name. rewrite make_key_short by done.
  destruct (hash_find key (d, g) mgr) as [el|] eqn:Hf; intros Hok'.
  - pose proof (hash_find_Some key _ _ _ Hf) as [Hel Hk].
    assert (Hkd : key_driver el = d) by (unfold key_driver; by rewrite Hk). rewrite Hkd.
    unfold NEU_GROUP_NAME_LEN. rewrite cstr_trunc_short by done.
    split_and!.
    + simpl in Hok'. rewrite Hkd in Hok'. unfold NEU_GROUP_NAME_LEN in Hok'.
      by rewrite cstr_trunc_short in Hok'.
    + rewrite decide_True; [done|]. rewrite <-Hk. by apply list_elem_of_fmap_2.
    + apply set_eq. intros [[d' g'] a']. rewrite elem_of_abs, subscribed_add, elem_of_map. csimpl. split.
      * intros [(el' & Hel' & Hk' & Ha')%elem_of_triples|([= <- <-] & Ha')].
        -- apply elem_of_hash_del in Hel' as [Hel' Hne]; [|done]. exists (d', g', a'). simpl.
           rewrite decide_False by congruence. split; [done|]. apply elem_of_abs, elem_of_triples. by exists el'.
        -- exists (d, g, a'). simpl. rewrite decide_True by done. split; [done|].
           apply elem_of_abs, elem_of_triples. by exists el.
      * intros ([[d0 g0] a0] & [= -> -> ->] & (el' & Hel' & Hk' & Ha')%elem_of_abs%elem_of_triples).
        simpl. destruct (decide ((d0, g0) = (d, g))) as [[= -> ->]|Hne].
        -- right. split; [done|]. rewrite (table_ok_inj key mgr el el'); [done|done|done|done|congruence].
        -- left. apply elem_of_triples. exists el'. split; [|done]. apply elem_of_hash_del; [done|].
           split; [done|congruence].
  - apply hash_find_None in Hf. split_and!; [done|by rewrite decide_False|].
    apply set_eq. intros [[d' g'] a']. rewrite elem_of_map.
    assert (Hid : ∀ d0 g0 a0, (d0, g0, a0) ∈ abs mgr → (d0, g0) ≠ (d, g)).
    { intros d0 g0 a0 (el & Hel & Hk & _)%elem_of_abs%elem_of_triples [= -> ->].
      apply Hf. rewrite <-Hk. by apply list_elem_of_fmap_2. }
    split.
    + intros Hin. exists (d', g', a'). simpl. by rewrite decide_False by eauto.
    + intros ([[d0 g0] a0] & Heq & Hin). simpl in Heq. rewrite decide_False in Heq by eauto. by simplify_eq.
Qed.

(** ** Renaming an application *)

Lemma rename_app_names app new (l : list neu_app_subscribe_t) :
  short new → app_name <$> ((λ sub, if is_app app sub then rename_app new sub else sub) <$> l) =
    (λ a, if decide (a = app) then new else a) <$> (app_name <$> l).
Proof.
  intros Hs. rewrite <-!list_fmap_compose. apply list_fmap_ext. intros _ sub _. simpl.
  unfold is_app. case_bool_decide; [rewrite decide_True by done|by rewrite decide_False].
  simpl. unfold NEU_NODE_NAME_LEN. by rewrite cstr_trunc_short.
Qed.

Lemma update_app_name_spec mgr app new :
  mgr_ok mgr → short new → Forall (λ el, new ∉ app_name <$> apps el) mgr →
  let mgr' := neu_subscribe_manager_update_app_name mgr app new in
  mgr_ok mgr' ∧
  abs mgr' = set_map (λ t : triple, (t.1, if decide (t.2 = app) then new else t.2)) (abs mgr).
Proof.
  intros [Ht Ha Hsh] Hs Hfresh. unfold neu_subscribe_manager_update_app_name. cbv zeta. split.
  - split.
    + unfold table_ok. rewrite <-list_fmap_compose. done.
    + apply Forall_fmap, Forall_forall. intros el Hel. simpl. rewrite rename_app_names by done.
      rewrite Forall_forall in Ha, Hfresh. specialize (Ha el Hel). specialize (Hfresh el Hel). simpl in *.
      apply NoDup_fmap_2_strong; [|done]. intros x y Hx Hy.
      destruct (decide (x = app)), (decide (y = app)); congruence.
    + by apply Forall_fmap.
  - apply set_eq. intros [[d g] a]. rewrite elem_of_abs, elem_of_triples, elem_of_map. split.
    + intros (el' & (el & -> & Hel)%list_elem_of_fmap & Hk & Hin). simpl in Hin.
      rewrite rename_app_names in Hin by done. apply list_elem_of_fmap in Hin as (a0 & -> & Hin).
      exists (d, g, a0). split; [done|]. apply elem_of_abs, elem_of_triples. by exists el.
    + intros ([[d0 g0] a0] & [= -> -> ->] & (el & Hel & Hk & Hin)%elem_of_abs%elem_of_triples).
      eexists. split; [by apply list_elem_of_fmap_2|]. simpl. split; [done|].
      rewrite rename_app_names by done. apply list_elem_of_fmap. by exists a0.
Qed.

(** ** Queries *)

Lemma triples_NoDup mgr : mgr_ok mgr → NoDup (triples mgr).
Proof.
  intros [Ht Ha _]. unfold triples. revert Ht. induction Ha as [|el mgr Hel Ha IH]; csimpl.
  { intros _. apply NoDup_nil_2. }
  intros Ht. unfold table_ok in Ht. csimpl in Ht. apply NoDup_cons in Ht as [Hn Ht].
  apply NoDup_app. split_and!; [| |by apply IH].
  - apply (NoDup_fmap_1 (λ t : triple, t.2)). unfold triples_of. by rewrite <-list_fmap_compose.
  - intros [[d g] a] Hin Hin'. apply list_elem_of_fmap in Hin as (sub & [= -> -> ->] & _).
    apply (elem_of_triples mgr) in Hin' as (el' & Hel' & Hk & _). apply Hn.
    replace (key el) with (key el') by (rewrite Hk; by destruct el as [[]]).
    by apply list_elem_of_fmap_2.
Qed.

Lemma group_count_length mgr app :
  neu_subscribe_manager_group_count mgr app =
    Z.of_nat (length (filter (λ t : triple, t.2 = app) (triples mgr))).
Proof.
  unfold neu_subscribe_manager_group_count. f_equal. unfold triples.
  induction mgr as [|el mgr IH]; csimpl; [done|].
  rewrite filter_app, !length_app, IH. f_equal. unfold triples_of.
  induction (apps el) as [|sub l IHl]; csimpl; [done|]. unfold is_app at 1.
  destruct (bool_decide_reflect (app_name sub = app)) as [He|He].
  - rewrite filter_cons_True by done. simpl. by rewrite IHl.
  - rewrite filter_cons_False by done. apply IHl.
Qed.

Lemma get_length mgr app :
  Z.of_nat (length (neu_subscribe_manager_get mgr app None None)) =
    neu_subscribe_manager_group_count mgr app.
Proof.
  unfold neu_subscribe_manager_get, neu_subscribe_manager_group_count. f_equal.
  induction mgr as [|el mgr IH]; [done|]. rewrite !fmap_cons. cbn [concat].
  rewrite !length_app, IH, length_fmap. f_equal.
  clear. induction (apps el) as [|sub l IHl]; [done|]. cbn [List.filter opt_strstr].
  cbn [opt_strstr] in IHl. rewrite !andb_true_r. destruct (is_app app sub); cbn [length]; by rewrite IHl.
Qed.

Lemma group_count_size mgr app :
  mgr_ok mgr →
  neu_subscribe_manager_group_count mgr app = Z.of_nat (size (filter (λ t, t.2 = app) (abs mgr))).
Proof.
  intros Hok. rewrite group_count_length. f_equal.
  rewrite <-(size_list_to_set (C := gset triple)) by (apply NoDup_filter, triples_NoDup, Hok).
  f_equal. apply set_eq. intros t. unfold abs.
  by rewrite elem_of_list_to_set, elem_of_filter, list_elem_of_filter, elem_of_list_to_set.
Qed.

(** ** Main theorems *)

(** C33: for every sequence of subscribe, unsubscribe, unsubscribe-all, remove
    and parameter updates with names that fit their fields, started from an
    empty manager, the answers are those of a plain set of (driver, group,
    application) triples and the manager ends in a state that represents the
    set the specification ends in, with unique keys and no application twice
    in a group. *)
Theorem subscribe_refines_set ops :
  Forall op_short ops →
  mgr_ok (run_all run_sub ops neu_subscribe_manager_create).2 ∧
  prod_map id abs (run_all run_sub ops neu_subscribe_manager_create) = run_all spec_sub ops ∅.
Proof. intros Hs. apply (run_all_refines ops neu_subscribe_manager_create create_ok Hs). Qed.

Definition example_sub_ops : list sub_op :=
  [OpSub "modbus" "mqtt" "g1" None None 1; OpSub "modbus" "kafka" "g1" None None 2;
   OpSub "modbus" "mqtt" "g1" None None 1; OpSub "opc" "mqtt" "g2" None None 1;
   OpUnsub "modbus" "kafka" "g1"; OpUnsub "modbus" "kafka" "g1";
   OpRemove "opc" None; OpUpdateParams "mqtt" "modbus" "g1" (Some "p"%string) None].

Lemma subscribe_refines_set_witness :
  Forall op_short example_sub_ops ∧
  (run_all run_sub example_sub_ops neu_subscribe_manager_create).1 =
    [0; 0; NEU_ERR_GROUP_ALREADY_SUBSCRIBED; 0; 0; NEU_ERR_GROUP_NOT_SUBSCRIBE; 0; 0] ∧
  prod_map id abs (run_all run_sub example_sub_ops neu_subscribe_manager_create) =
    run_all spec_sub example_sub_ops ∅.
Proof.
  assert (Hs : Forall op_short example_sub_ops).
  { unfold example_sub_ops. repeat constructor; unfold short; simpl; lia. }
  split; [exact Hs|]. split; [vm_compute; reflexivity|]. apply (subscribe_refines_set example_sub_ops Hs).
Defined.

(** C38: renaming a driver walks a table it is reordering; the walk ends, and
    when no group of a driver called [new] is in the table the result is
    well-formed and every subscription to [d] is a subscription to [new], the
    others unchanged. *)
Theorem update_driver_name_correct mgr d new :
  mgr_ok mgr → short new → new ≠ d → new ∉ key_driver <$> mgr →
  ∃ mgr', neu_subscribe_manager_update_driver_name mgr d new = Some mgr' ∧ mgr_ok mgr' ∧
    abs mgr' =
      set_map (λ t : triple, (if decide (t.1.1 = d) then new else t.1.1, t.1.2, t.2)) (abs mgr).
Proof.
  intros Hok Hs Hne Hfresh. eexists. split; [by apply update_driver_name_spec|].
  pose proof (rename_split_perm d new mgr) as Hp. split.
  - eapply mgr_ok_perm; [symmetry; exact Hp|]. by apply rename_if_ok.
  - rewrite (abs_perm _ _ Hp). by apply abs_rename_driver.
Qed.

Definition example_mgr : neu_subscribe_mgr_t :=
  (run_all run_sub [OpSub "modbus" "mqtt" "g1" None None 1; OpSub "opc" "mqtt" "g1" None None 1;
                    OpSub "modbus" "kafka" "g2" None None 2] neu_subscribe_manager_create).2.

Lemma example_mgr_ok : mgr_ok example_mgr.
Proof.
  apply (run_all_refines _ _ create_ok). repeat constructor; unfold short; simpl; lia.
Qed.

Lemma update_driver_name_correct_witness :
  ∃ mgr', neu_subscribe_manager_update_driver_name example_mgr "modbus" "plc" = Some mgr' ∧
    mgr_ok mgr' ∧ key <$> mgr' = [("opc", "g1"); ("plc", "g1"); ("plc", "g2")]%string.
Proof.
  destruct (update_driver_name_correct example_mgr "modbus" "plc") as (mgr' & Hu & Hok & _).
  - exact example_mgr_ok.
  - unfold short. simpl. lia.
  - discriminate.
  - vm_compute. intros H. repeat (inversion H as [|? ? ? H']; clear H; subst; rename H' into H).
  - exists mgr'. split; [exact Hu|]. split; [exact Hok|].
    vm_compute in Hu. injection Hu as <-. reflexivity.
Defined.

(** Renaming a driver to its own name never ends when two or more of its
    groups are subscribed: the walk meets the re-added elements again and
    renames them again, whatever number of steps it is given. *)
Theorem update_driver_name_diverges mgr d fuel :
  short d → (2 <= length (List.filter (of_driver d) mgr))%nat →
  rename_driver_loop fuel d d [] mgr = None.
Proof.
  intros Hs Hlen. apply rename_loop_diverges; [|done]. unfold NEU_NODE_NAME_LEN.
  by apply cstr_trunc_short.
Qed.

Lemma update_driver_name_diverges_witness :
  rename_driver_loop 1000 "modbus" "modbus" [] example_mgr = None ∧
  neu_subscribe_manager_update_driver_name example_mgr "modbus" "modbus" = None.
Proof.
  split; [|vm_compute; reflexivity]. apply (update_driver_name_diverges example_mgr "modbus" 1000).
  - unfold short. simpl. lia.
  - vm_compute. lia.
Defined.

(** The number of groups counted for an application is the number of
    subscriptions it has, and the unfiltered query lists exactly as many. *)
Theorem group_count_correct mgr app :
  mgr_ok mgr →
  neu_subscribe_manager_group_count mgr app = Z.of_nat (size (filter (λ t, t.2 = app) (abs mgr))) ∧
  Z.of_nat (length (neu_subscribe_manager_get mgr app None None)) =
    neu_subscribe_manager_group_count mgr app.
Proof. intros Hok. split; [by apply group_count_size|apply get_length]. Qed.

Lemma group_count_correct_witness :
  neu_subscribe_manager_group_count example_mgr "mqtt" = 2 ∧
  Z.of_nat (length (neu_subscribe_manager_get example_mgr "mqtt" None None)) =
    neu_subscribe_manager_group_count example_mgr "mqtt".
Proof.
  split; [vm_compute; reflexivity|]. apply (group_count_correct example_mgr "mqtt" example_mgr_ok).
Defined.
