(* ===== verification/NodeManager.v ===== *)
(** * The node manager

    src/core/node_manager.c: the table of running nodes.  A node refers to its
    adapter by pointer; what the manager reads of an adapter is the record
    [neu_adapter_t] and the memory the pointers lead to is the argument
    [adapters].  The addresses [calloc] returns and the address of the storage
    of the array [monitors] are arguments too, since [neu_node_manager_del]
    computes with them.  Allocation failures are left out. *)

From Stdlib Require Import Ascii.
From S2P Require Import Prelude UtHash NeuTypes TagSort.

(** ** State *)

(** [char sun_path\[1\]] of a node's address decides whether it is initialised,
    so an address is the second character of its path and an identity. *)
Record sockaddr_un := { sun_path_1 : Z; sun_id : Z }.
Definition sockaddr_zero : sockaddr_un := {| sun_path_1 := 0; sun_id := 0 |}.

Record node_entity_t := {
  node_ptr : Z;
  name : string;
  adapter : Z;
  is_static : bool;
  display : bool;
  single : bool;
  is_monitor : bool;
  addr : sockaddr_un;
  node_tags : option string;
}.

Record neu_node_manager_t := { nodes : list node_entity_t; monitors : list Z }.

(** The part of [struct neu_adapter] and of its module, plugin and metrics that
    the manager reads. *)
Record neu_adapter_t := {
  adapter_name : string;
  module_name : string;
  module_type : Z;
  adapter_state : Z;
  link_state : Z;
  log_level : Z;
  last_rtt_ms : option Z;
  group_names : list string;
}.

Definition NEU_NA_TYPE_DRIVER : Z := 1.
Definition NEU_NA_TYPE_APP : Z := 2.

(** ** Operations that change the table *)

Definition neu_node_manager_create : neu_node_manager_t := {| nodes := []; monitors := [] |}.

Definition set_nodes (ns : list node_entity_t) (mgr : neu_node_manager_t) : neu_node_manager_t :=
  {| nodes := ns; monitors := monitors mgr |}.

Definition with_name (s : string) (n : node_entity_t) : node_entity_t :=
  {| node_ptr := node_ptr n; name := s; adapter := adapter n; is_static := is_static n;
     display := display n; single := single n; is_monitor := is_monitor n; addr := addr n;
     node_tags := node_tags n |}.
Definition with_addr (a : sockaddr_un) (n : node_entity_t) : node_entity_t :=
  {| node_ptr := node_ptr n; name := name n; adapter := adapter n; is_static := is_static n;
     display := display n; single := single n; is_monitor := is_monitor n; addr := a;
     node_tags := node_tags n |}.
Definition with_tags (t : option string) (n : node_entity_t) : node_entity_t :=
  {| node_ptr := node_ptr n; name := name n; adapter := adapter n; is_static := is_static n;
     display := display n; single := single n; is_monitor := is_monitor n; addr := addr n;
     node_tags := t |}.

Definition neu_node_manager_update_tags (mgr : neu_node_manager_t) (nm tags : string)
    : Z * neu_node_manager_t :=
  match hash_find name nm (nodes mgr) with
  | None => (NEU_ERR_NODE_NOT_EXIST, mgr)
  | Some _ => (0, set_nodes (hash_update name nm (with_tags (Some tags)) (nodes mgr)) mgr)
  end.

Section operations.
Context (adapters : Z → neu_adapter_t).

Definition neu_node_manager_add (mgr : neu_node_manager_t) (ptr ad : Z) (tags : option string)
    : Z * neu_node_manager_t :=
  let node := {| node_ptr := ptr; name := adapter_name (adapters ad); adapter := ad;
                 is_static := false; display := true; single := false;
                 is_monitor := bool_decide (module_name (adapters ad) = "Monitor"%string);
                 addr := sockaddr_zero; node_tags := tags |} in
  (0, {| nodes := hash_add node (nodes mgr);
         monitors := if is_monitor node then monitors mgr ++ [ptr] else monitors mgr |}).

Definition neu_node_manager_add_static (mgr : neu_node_manager_t) (ptr ad : Z)
    : Z * neu_node_manager_t :=
  (0, set_nodes (hash_add
         {| node_ptr := ptr; name := adapter_name (adapters ad); adapter := ad;
            is_static := true; display := true; single := false; is_monitor := false;
            addr := sockaddr_zero; node_tags := None |} (nodes mgr)) mgr).

Definition neu_node_manager_add_single (mgr : neu_node_manager_t) (ptr ad : Z) (disp : bool)
    : Z * neu_node_manager_t :=
  (0, set_nodes (hash_add
         {| node_ptr := ptr; name := adapter_name (adapters ad); adapter := ad;
            is_static := false; display := disp; single := true; is_monitor := false;
            addr := sockaddr_zero; node_tags := None |} (nodes mgr)) mgr).

Definition neu_node_manager_update_name (mgr : neu_node_manager_t) (node_name new_node_name : string)
    : Z * neu_node_manager_t :=
  match hash_find name node_name (nodes mgr) with
  | None => (NEU_ERR_NODE_NOT_EXIST, mgr)
  | Some node =>
      (0, set_nodes (hash_add (with_name new_node_name node)
                       (hash_del name node_name (nodes mgr))) mgr)
  end.

Definition neu_node_manager_update (mgr : neu_node_manager_t) (nm : string) (a : sockaddr_un)
    : Z * neu_node_manager_t :=
  match hash_find name nm (nodes mgr) with
  | None => (-1, mgr)
  | Some _ => (0, set_nodes (hash_update name nm (with_addr a) (nodes mgr)) mgr)
  end.

(** [utarray_erase (a, pos, 1)]: the elements behind [pos] move down if there
    are any, and the count goes down in any case. *)
Definition utarray_erase {A} (pos : Z) (l : list A) : list A :=
  if Z.of_nat (length l) >? pos + 1
  then take (Z.to_nat pos) l ++ drop (S (Z.to_nat pos)) l
  else take (length l - 1) l.

(** [utarray_eltidx (a, e)] as the code uses it: the distance of the node (not
    of the array element that points to it) to the array's storage at [d], as
    [size_t], in elements of eight bytes. *)
Definition monitor_idx (d ptr : Z) : Z := u64 (ptr - d) / 8.

Definition neu_node_manager_del (d : Z) (mgr : neu_node_manager_t) (nm : string) : neu_node_manager_t :=
  match hash_find name nm (nodes mgr) with
  | None => mgr
  | Some node =>
      {| nodes := hash_del name nm (nodes mgr);
         monitors := if is_monitor node
                     then utarray_erase (monitor_idx d (node_ptr node)) (monitors mgr)
                     else monitors mgr |}
  end.

(** ** Queries *)

Definition neu_node_manager_size (mgr : neu_node_manager_t) : Z := u16 (Z.of_nat (length (nodes mgr))).

Definition neu_node_manager_exist_uninit (mgr : neu_node_manager_t) : bool :=
  existsb (λ el, sun_path_1 (addr el) =? 0) (nodes mgr).

Record neu_resp_node_info_t := {
  info_delay : Z;
  info_node : string;
  info_plugin : string;
  info_tags : string;
}.

Definition NEU_NODE_NAME_LEN : nat := 128.
Definition NEU_PLUGIN_NAME_LEN : nat := 32.
Definition NEU_NODE_TAGS_LEN : nat := 256.

(** [snprintf (buf, sizeof (buf), "%s", s)] *)
Definition snprintf_s (size : nat) (s : string) : string := cstr_trunc (size - 1) s.

Definition node_info (el : node_entity_t) : neu_resp_node_info_t :=
  {| info_delay := 0;
     info_node := snprintf_s NEU_NODE_NAME_LEN (adapter_name (adapters (adapter el)));
     info_plugin := snprintf_s NEU_PLUGIN_NAME_LEN (module_name (adapters (adapter el)));
     info_tags := "" |}.

(** The two conditions every listing starts with. *)
Definition listed (type : Z) (el : node_entity_t) : bool :=
  negb (is_static el) && display el
  && negb (Z.land (module_type (adapters (adapter el))) type =? 0).

Definition neu_node_manager_get (mgr : neu_node_manager_t) (type : Z) : list neu_resp_node_info_t :=
  node_info <$> List.filter (listed type) (nodes mgr).

Definition neu_node_manager_get_all (mgr : neu_node_manager_t) : list neu_resp_node_info_t :=
  node_info <$> nodes mgr.

Definition neu_node_manager_get_adapter (mgr : neu_node_manager_t) (type : Z) : list Z :=
  adapter <$> List.filter (listed type) (nodes mgr).

Definition neu_node_manager_find (mgr : neu_node_manager_t) (nm : string) : option Z :=
  adapter <$> hash_find name nm (nodes mgr).

Definition neu_node_manager_is_single (mgr : neu_node_manager_t) (nm : string) : bool :=
  match hash_find name nm (nodes mgr) with Some node => single node | None => false end.

Definition neu_node_manager_is_driver (mgr : neu_node_manager_t) (nm : string) : bool :=
  match hash_find name nm (nodes mgr) with
  | Some node => NEU_NA_TYPE_DRIVER =? module_type (adapters (adapter node))
  | None => false
  end.

Definition neu_node_manager_is_exist (mgr : neu_node_manager_t) (nm : string) : bool :=
  match hash_find name nm (nodes mgr) with Some _ => true | None => false end.

Definition neu_node_manager_get_addrs (mgr : neu_node_manager_t) (type : Z) : list sockaddr_un :=
  addr <$> List.filter (λ el, negb (is_static el)
                              && negb (Z.land (module_type (adapters (adapter el))) type =? 0))
             (nodes mgr).

Definition neu_node_manager_get_addrs_all (mgr : neu_node_manager_t) : list sockaddr_un :=
  addr <$> nodes mgr.

Definition neu_node_manager_get_addr (mgr : neu_node_manager_t) (nm : string) : sockaddr_un :=
  match hash_find name nm (nodes mgr) with Some node => addr node | None => sockaddr_zero end.

Definition neu_node_manager_is_monitor (mgr : neu_node_manager_t) (nm : string) : bool :=
  match hash_find name nm (nodes mgr) with Some node => is_monitor node | None => false end.

(** [sub_group_count] is filled in by the caller and left out. *)
Record neu_nodes_state_t := {
  st_node : string;
  st_running : Z;
  st_link : Z;
  st_log_level : Z;
  st_rtt : Z;
  st_is_driver : bool;
}.

Definition node_state (el : node_entity_t) : neu_nodes_state_t :=
  let ad := adapters (adapter el) in
  {| st_node := snprintf_s NEU_NODE_NAME_LEN (adapter_name ad);
     st_running := adapter_state ad; st_link := link_state ad; st_log_level := log_level ad;
     st_rtt := u16 (default 0 (last_rtt_ms ad));
     st_is_driver := module_type ad =? NEU_NA_TYPE_DRIVER |}.

Definition neu_node_manager_get_state (mgr : neu_node_manager_t) : list neu_nodes_state_t :=
  node_state <$> List.filter (λ el, negb (is_static el) && display el) (nodes mgr).

(** ** The filtered listing *)

(** The tokens [strtok_r (s, ",")] yields: the longest stretches without a comma.
    [cur] is the token being read. *)
Fixpoint strtok_loop (cur s : string) : list string :=
  match s with
  | EmptyString => if bool_decide (cur = EmptyString) then [] else [cur]
  | String c s' =>
      if decide (c = ","%char)
      then if bool_decide (cur = EmptyString) then strtok_loop EmptyString s'
           else cur :: strtok_loop EmptyString s'
      else strtok_loop (cur +:+ String c EmptyString) s'
  end.
Definition strtok (s : string) : list string := strtok_loop EmptyString s.

Definition find_tag_in_tags (tags tag : string) : bool :=
  if (String.length tags =? 0)%nat then false
  else existsb (λ token, bool_decide (token = tag)) (strtok tags).

(** [neu_adapter_get_groups] with [neu_adapter_driver_get_group] of
    src/adapter/driver/driver.c, of whose result only the names are kept. *)
Definition neu_adapter_get_groups (ad : neu_adapter_t) (flt : string) : option (list string) :=
  if negb (module_type ad =? NEU_NA_TYPE_DRIVER) then None
  else Some (List.filter (λ g, (String.length flt =? 0)%nat || strstr g flt) (group_names ad)).

(** The parameters of the query; [q_state], [state] and [q_link], [link] are
    options, [n_plugins] is the length of [plugins]. *)
Record node_query := {
  q_type : Z;
  q_plugins : list string;
  q_node : string;
  q_sort_delay : bool;
  q_state : option Z;
  q_link : option Z;
  q_group_name : string;
}.

Definition match_plugins (q : node_query) (ad : neu_adapter_t) : bool :=
  match q_plugins q with
  | [] => true
  | ps => existsb (λ p, bool_decide (module_name ad = p)) ps
  end.

(** The [node] parameter: part of the node's name, or a list of up to ten tags
    the node must carry. *)
Definition match_node (q : node_query) (ad : neu_adapter_t) (tags : option string) : bool :=
  if (String.length (q_node q) =? 0)%nat then true else
  let name_find := strstr (adapter_name ad) (q_node q) in
  match tags with
  | None => name_find
  | Some t =>
      if negb name_find && (String.length t =? 0)%nat then false else
      let tag_found := forallb (λ token, find_tag_in_tags t (snprintf_s NEU_NODE_TAGS_LEN token))
                         (take 10 (strtok (cstr_trunc (NEU_NODE_NAME_LEN - 1) (q_node q)))) in
      tag_found || name_find
  end.

Definition match_group (q : node_query) (ad : neu_adapter_t) : bool :=
  if (String.length (q_group_name q) =? 0)%nat then true
  else strstr (adapter_name ad) (q_group_name q)
       || match neu_adapter_get_groups ad (q_group_name q) with
          | None | Some [] => false
          | Some _ => true
          end.

Definition opt_eqb (o : option Z) (z : Z) : bool :=
  match o with None => true | Some w => z =? w end.

Definition node_selected (q : node_query) (el : node_entity_t) : bool :=
  let ad := adapters (adapter el) in
  listed (q_type q) el && match_plugins q ad && match_node q ad (node_tags el)
  && opt_eqb (q_state q) (adapter_state ad) && opt_eqb (q_link q) (link_state ad)
  && match_group q ad.

Definition filter_info (q : node_query) (el : node_entity_t) : neu_resp_node_info_t :=
  let ad := adapters (adapter el) in
  {| info_delay := if q_sort_delay q then default 0 (last_rtt_ms ad) else 0;
     info_node := snprintf_s NEU_NODE_NAME_LEN (adapter_name ad);
     info_plugin := snprintf_s NEU_PLUGIN_NAME_LEN (module_name ad);
     info_tags := snprintf_s NEU_NODE_TAGS_LEN (default EmptyString (node_tags el)) |}.

Definition neu_resp_node_info_sort (a b : neu_resp_node_info_t) : Z :=
  if info_delay a <? info_delay b then -1
  else if info_delay a >? info_delay b then 1 else 0.

(** [qsort] of the C library orders the array by the comparison; which of two
    equal elements comes first is not specified, so it is an argument. *)
Context (qsort : (neu_resp_node_info_t → neu_resp_node_info_t → Z) →
                 list neu_resp_node_info_t → list neu_resp_node_info_t).

Definition neu_node_manager_filter (mgr : neu_node_manager_t) (q : node_query)
    : list neu_resp_node_info_t :=
  let array := filter_info q <$> List.filter (node_selected q) (nodes mgr) in
  if q_sort_delay q then qsort neu_resp_node_info_sort array else array.
End operations.

(** ** The table refines a map from names to nodes *)

(** The representation invariant: unique names, and one entry in [monitors] per
    monitor node. *)
Record nodes_ok (mgr : neu_node_manager_t) : Prop := {
  nok_names : table_ok name (nodes mgr);
  nok_monitors : length (monitors mgr) = length (List.filter is_monitor (nodes mgr));
}.

Definition node_map (mgr : neu_node_manager_t) : gmap string node_entity_t := to_map name (nodes mgr).

Inductive node_op :=
  | OpAdd (ptr ad : Z) (tags : option string)
  | OpAddStatic (ptr ad : Z)
  | OpAddSingle (ptr ad : Z) (disp : bool)
  | OpUpdateName (node_name new_node_name : string)
  | OpUpdate (nm : string) (a : sockaddr_un)
  | OpUpdateTags (nm tags : string)
  | OpDel (d : Z) (nm : string).

Section refinement.
Context (adapters : Z → neu_adapter_t).

Definition run_node (op : node_op) (mgr : neu_node_manager_t) : Z * neu_node_manager_t :=
  match op with
  | OpAdd ptr ad tags => neu_node_manager_add adapters mgr ptr ad tags
  | OpAddStatic ptr ad => neu_node_manager_add_static adapters mgr ptr ad
  | OpAddSingle ptr ad disp => neu_node_manager_add_single adapters mgr ptr ad disp
  | OpUpdateName n new => neu_node_manager_update_name mgr n new
  | OpUpdate n a => neu_node_manager_update mgr n a
  | OpUpdateTags n t => neu_node_manager_update_tags mgr n t
  | OpDel d n => (0, neu_node_manager_del d mgr n)
  end.

(** A node as it is created. *)
Definition new_node (ptr ad : Z) (stat disp sing : bool) (tags : option string) : node_entity_t :=
  {| node_ptr := ptr; name := adapter_name (adapters ad); adapter := ad; is_static := stat;
     display := disp; single := sing;
     is_monitor := negb stat && negb sing && bool_decide (module_name (adapters ad) = "Monitor"%string);
     addr := sockaddr_zero; node_tags := tags |}.

Definition spec_node (op : node_op) (m : gmap string node_entity_t) : Z * gmap string node_entity_t :=
  match op with
  | OpAdd ptr ad tags => (0, <[adapter_name (adapters ad) := new_node ptr ad false true false tags]> m)
  | OpAddStatic ptr ad => (0, <[adapter_name (adapters ad) := new_node ptr ad true true false None]> m)
  | OpAddSingle ptr ad disp =>
      (0, <[adapter_name (adapters ad) := new_node ptr ad false disp true None]> m)
  | OpUpdateName n new =>
      match m !! n with
      | None => (NEU_ERR_NODE_NOT_EXIST, m)
      | Some node => (0, <[new := with_name new node]> (delete n m))
      end
  | OpUpdate n a => (if decide (is_Some (m !! n)) then 0 else -1, alter (with_addr a) n m)
  | OpUpdateTags n t =>
      (if decide (is_Some (m !! n)) then 0 else NEU_ERR_NODE_NOT_EXIST, alter (with_tags (Some t)) n m)
  | OpDel _ n => (0, delete n m)
  end.

(** What the callers establish: they add and rename to names not in use. *)
Definition op_fresh (op : node_op) (mgr : neu_node_manager_t) : Prop :=
  match op with
  | OpAdd _ ad _ | OpAddStatic _ ad | OpAddSingle _ ad _ =>
      hash_find name (adapter_name (adapters ad)) (nodes mgr) = None
  | OpUpdateName n new => new = n ∨ hash_find name new (nodes mgr) = None
  | _ => True
  end.

Lemma node_map_lookup mgr k : node_map mgr !! k = hash_find name k (nodes mgr).
Proof. apply to_map_lookup. Qed.

Lemma filter_hash_update f k (ns : list node_entity_t) :
  (∀ n, is_monitor (f n) = is_monitor n) →
  length (List.filter is_monitor (hash_update name k f ns)) = length (List.filter is_monitor ns).
Proof.
  intros Hf. induction ns as [|n ns IH]; simpl; [done|]. destruct (decide (name n = k)); simpl.
  - rewrite Hf. by destruct (is_monitor n).
  - destruct (is_monitor n); simpl; lia.
Qed.

Lemma filter_hash_del k ns node :
  hash_find name k ns = Some node →
  length (List.filter is_monitor ns) =
    (length (List.filter is_monitor (hash_del name k ns)) + if is_monitor node then 1 else 0)%nat.
Proof.
  induction ns as [|n ns IH]; simpl; [done|]. destruct (decide (name n = k)).
  - intros [= ->]. destruct (is_monitor node); simpl; lia.
  - intros Hf. specialize (IH Hf). simpl. destruct (is_monitor n); simpl; lia.
Qed.

Lemma filter_snoc ns node :
  length (List.filter is_monitor (hash_add node ns)) =
    (length (List.filter is_monitor ns) + if is_monitor node then 1 else 0)%nat.
Proof.
  unfold hash_add. rewrite List.filter_app, length_app. simpl. by destruct (is_monitor node).
Qed.

Lemma length_utarray_erase {A} pos (l : list A) :
  0 <= pos → length (utarray_erase pos l) = (length l - 1)%nat.
Proof.
  intros Hp. unfold utarray_erase. destruct (Z.gtb_spec (Z.of_nat (length l)) (pos + 1)).
  - rewrite length_app, length_take, length_drop. lia.
  - rewrite length_take. lia.
Qed.

Lemma nodes_ok_add mgr node ms :
  nodes_ok mgr → hash_find name (name node) (nodes mgr) = None →
  length ms = (length (monitors mgr) + if is_monitor node then 1 else 0)%nat →
  nodes_ok {| nodes := hash_add node (nodes mgr); monitors := ms |} ∧
  to_map name (hash_add node (nodes mgr)) = <[name node := node]> (node_map mgr).
Proof.
  intros [Ht Hm] Hf Hms. split; [|by apply to_map_add]. split; simpl; [by apply table_ok_add|].
  by rewrite filter_snoc, <-Hm.
Qed.

Lemma run_node_add mgr node ms :
  nodes_ok mgr → hash_find name (name node) (nodes mgr) = None →
  length ms = (length (monitors mgr) + if is_monitor node then 1 else 0)%nat →
  let r := (0, {| nodes := hash_add node (nodes mgr); monitors := ms |}) in
  nodes_ok r.2 ∧ (r.1, node_map r.2) = (0, <[name node := node]> (node_map mgr)).
Proof.
  intros Hok Hf Hms. destruct (nodes_ok_add mgr node ms Hok Hf Hms) as [Hok' Hm]. split; [done|].
  simpl. unfold node_map at 1. simpl. by rewrite Hm.
Qed.

Lemma run_node_update mgr k f err :
  nodes_ok mgr → (∀ n, name (f n) = name n) → (∀ n, is_monitor (f n) = is_monitor n) →
  let r := match hash_find name k (nodes mgr) with
           | None => (err, mgr)
           | Some _ => (0, set_nodes (hash_update name k f (nodes mgr)) mgr)
           end in
  nodes_ok r.2 ∧
  (r.1, node_map r.2) = (if decide (is_Some (node_map mgr !! k)) then 0 else err, alter f k (node_map mgr)).
Proof.
  intros [Ht Hm] Hn Hmon. rewrite node_map_lookup.
  destruct (hash_find name k (nodes mgr)) as [node|] eqn:Hf; simpl.
  - split.
    + split; simpl; [unfold table_ok; by rewrite hash_update_keys|]. by rewrite filter_hash_update.
    + f_equal. unfold node_map. simpl. by apply to_map_update.
  - split; [done|]. f_equal. apply map_eq. intros k'.
    rewrite lookup_alter, !node_map_lookup. destruct (decide (k = k')) as [<-|]; [by rewrite Hf|done].
Qed.

Lemma run_node_refines op mgr :
  nodes_ok mgr → op_fresh op mgr →
  nodes_ok (run_node op mgr).2 ∧
  ((run_node op mgr).1, node_map (run_node op mgr).2) = spec_node op (node_map mgr).
Proof.
  intros Hok Hfresh. pose proof Hok as [Ht Hm].
  destruct op as [ptr ad tags|ptr ad|ptr ad disp|n new|n a|n t|d n]; simpl in Hfresh.
  - apply (run_node_add mgr (new_node ptr ad false true false tags)); [done|done|].
    simpl. case_bool_decide; rewrite ?length_app; simpl; lia.
  - apply (run_node_add mgr (new_node ptr ad true true false None)); [done|done|simpl; lia].
  - apply (run_node_add mgr (new_node ptr ad false disp true None)); [done|done|simpl; lia].
  - simpl. unfold neu_node_manager_update_name. rewrite node_map_lookup.
    destruct (hash_find name n (nodes mgr)) as [node|] eqn:Hf; [|done].
    assert (Hf' : hash_find name new (hash_del name n (nodes mgr)) = None).
    { rewrite hash_find_del by done. case_decide; [done|]. by destruct Hfresh. }
    simpl. split.
    + split; simpl; [by apply table_ok_add; [apply table_ok_del|]|].
      rewrite filter_snoc, Hm, (filter_hash_del _ _ _ Hf). done.
    + unfold node_map. simpl. rewrite (to_map_add name (with_name new node)) by done.
      by rewrite to_map_del.
  - by apply (run_node_update mgr n (with_addr a)).
  - by apply (run_node_update mgr n (with_tags (Some t))).
  - simpl. unfold neu_node_manager_del. destruct (hash_find name n (nodes mgr)) as [node|] eqn:Hf.
    + split; [split; simpl; [by apply table_ok_del|]|unfold node_map; simpl; by rewrite to_map_del].
      rewrite (filter_hash_del _ _ _ Hf) in Hm. destruct (is_monitor node); [|lia].
      rewrite length_utarray_erase; [lia|]. unfold monitor_idx, u64. apply Z.div_pos; [|lia].
      apply Z.mod_pos_bound. lia.
    + split; [done|]. f_equal. symmetry. apply delete_id. by rewrite node_map_lookup.
Qed.
End refinement.

(** ** Tags of a node *)

Fixpoint no_comma (s : string) : Prop :=
  match s with
  | EmptyString => True
  | String c s' => c ≠ ","%char ∧ no_comma s'
  end.

Lemma string_app_assoc (a b c : string) : (a +:+ b) +:+ c = a +:+ (b +:+ c).
Proof.
  induction a as [|x a IH]; [done|].
  change (String x ((a +:+ b) +:+ c) = String x (a +:+ (b +:+ c))). by rewrite IH.
Qed.

Lemma string_app_nil (a : string) : a +:+ EmptyString = a.
Proof.
  induction a as [|x a IH]; [done|]. change (String x (a +:+ EmptyString) = String x a). by rewrite IH.
Qed.

Lemma strtok_loop_app p : ∀ cur rest,
  no_comma p → strtok_loop cur (p +:+ rest) = strtok_loop (cur +:+ p) rest.
Proof.
  induction p as [|c p IH]; intros cur rest Hp; [by rewrite string_app_nil|].
  destruct Hp as [Hc Hp]. change (String c p +:+ rest) with (String c (p +:+ rest)).
  cbn [strtok_loop]. rewrite decide_False by done. rewrite IH by done.
  by rewrite string_app_assoc.
Qed.

Lemma filter_nonempty_cons p l :
  filter (λ p, p ≠ EmptyString) (p :: l) =
    if bool_decide (p = EmptyString) then filter (λ p, p ≠ EmptyString) l
    else p :: filter (λ p, p ≠ EmptyString) l.
Proof. case_bool_decide; [rewrite filter_cons_False|rewrite filter_cons_True]; naive_solver. Qed.

(** [strtok] takes a comma-separated list apart and skips empty entries. *)
Lemma strtok_concat pieces :
  Forall no_comma pieces →
  strtok (String.concat "," pieces) = filter (λ p, p ≠ EmptyString) pieces.
Proof.
  unfold strtok. induction pieces as [|p [|p' pieces] IH]; intros Hp; [done| |].
  - apply Forall_cons in Hp as [Hp _]. cbn [String.concat].
    rewrite <-(string_app_nil p) at 1. rewrite strtok_loop_app by done.
    by rewrite filter_nonempty_cons.
  - apply Forall_cons in Hp as [Hp Hps].
    change (String.concat "," (p :: p' :: pieces)) with
      (p +:+ String "," (String.concat "," (p' :: pieces))).
    rewrite strtok_loop_app by done. cbn [strtok_loop]. rewrite decide_True by done.
    rewrite (IH Hps). by rewrite (filter_nonempty_cons p).
Qed.

Lemma find_tag_joined_spec pieces tag :
  Forall no_comma pieces →
  find_tag_in_tags (String.concat "," pieces) tag = true ↔ tag ≠ EmptyString ∧ tag ∈ pieces.
Proof.
  intros Hp. unfold find_tag_in_tags. rewrite (strtok_concat _ Hp). split.
  - destruct (_ =? 0)%nat; [done|]. intros (t & Hin & ->%bool_decide_eq_true)%existsb_exists.
    apply list_elem_of_In, list_elem_of_filter in Hin. done.
  - intros [Hne Hin]. destruct (Nat.eqb_spec (String.length (String.concat "," pieces)) 0) as [H0|H0].
    + exfalso. assert (Hs : strtok (String.concat "," pieces) = []).
      { by destruct (String.concat "," pieces). }
      rewrite (strtok_concat _ Hp) in Hs.
      assert (Hf : tag ∈ filter (λ p, p ≠ EmptyString) pieces) by by apply list_elem_of_filter.
      rewrite Hs in Hf. by apply not_elem_of_nil in Hf.
    + apply existsb_exists. exists tag. split; [|by apply bool_decide_eq_true].
      by apply list_elem_of_In, list_elem_of_filter.
Qed.

(** ** The filtered listing *)

Section filtered.
Context (adapters : Z → neu_adapter_t).

(** The conditions of a query, in words. *)
Record node_matches (q : node_query) (el : node_entity_t) : Prop := {
  nm_listed : is_static el = false ∧ display el = true ∧
    Z.land (module_type (adapters (adapter el))) (q_type q) ≠ 0;
  nm_plugin : q_plugins q = [] ∨ module_name (adapters (adapter el)) ∈ q_plugins q;
  nm_node : q_node q = EmptyString ∨ strstr (adapter_name (adapters (adapter el))) (q_node q) = true ∨
    ∃ t, node_tags el = Some t ∧ t ≠ EmptyString ∧
      Forall (λ token, find_tag_in_tags t (snprintf_s NEU_NODE_TAGS_LEN token) = true)
        (take 10 (strtok (cstr_trunc (NEU_NODE_NAME_LEN - 1) (q_node q))));
  nm_state : q_state q = None ∨ q_state q = Some (adapter_state (adapters (adapter el)));
  nm_link : q_link q = None ∨ q_link q = Some (link_state (adapters (adapter el)));
  nm_group : q_group_name q = EmptyString ∨
    strstr (adapter_name (adapters (adapter el))) (q_group_name q) = true ∨
    (module_type (adapters (adapter el)) = NEU_NA_TYPE_DRIVER ∧
     ∃ g, g ∈ group_names (adapters (adapter el)) ∧ strstr g (q_group_name q) = true);
}.

Lemma length_zero_iff s : (String.length s =? 0)%nat = true ↔ s = EmptyString.
Proof. by destruct s. Qed.

Lemma match_plugins_spec q ad :
  match_plugins q ad = true ↔ q_plugins q = [] ∨ module_name ad ∈ q_plugins q.
Proof.
  unfold match_plugins. destruct (q_plugins q) as [|p ps]; [naive_solver|].
  rewrite existsb_exists. setoid_rewrite bool_decide_eq_true. setoid_rewrite <-list_elem_of_In.
  naive_solver.
Qed.

Lemma forallb_Forall_true {A} (f : A → bool) l : forallb f l = true ↔ Forall (λ x, f x = true) l.
Proof. rewrite forallb_forall, Forall_forall. by setoid_rewrite <-list_elem_of_In. Qed.

Lemma match_node_spec q ad tags :
  match_node q ad tags = true ↔
    q_node q = EmptyString ∨ strstr (adapter_name ad) (q_node q) = true ∨
    ∃ t, tags = Some t ∧ t ≠ EmptyString ∧
      Forall (λ token, find_tag_in_tags t (snprintf_s NEU_NODE_TAGS_LEN token) = true)
        (take 10 (strtok (cstr_trunc (NEU_NODE_NAME_LEN - 1) (q_node q)))).
Proof.
  unfold match_node. destruct (String.length (q_node q) =? 0)%nat eqn:He.
  { apply length_zero_iff in He. naive_solver. }
  assert (Hne : q_node q ≠ EmptyString) by (intros Hq; rewrite Hq in He; done).
  destruct tags as [t|]; [|naive_solver].
  destruct (strstr (adapter_name ad) (q_node q)); simpl.
  { rewrite orb_true_r. naive_solver. }
  destruct (String.length t =? 0)%nat eqn:Ht.
  { apply length_zero_iff in Ht. naive_solver. }
  assert (Htne : t ≠ EmptyString) by (intros Hq; rewrite Hq in Ht; done).
  rewrite orb_false_r, forallb_Forall_true. naive_solver.
Qed.

Lemma match_group_spec q ad :
  match_group q ad = true ↔
    q_group_name q = EmptyString ∨ strstr (adapter_name ad) (q_group_name q) = true ∨
    (module_type ad = NEU_NA_TYPE_DRIVER ∧
     ∃ g, g ∈ group_names ad ∧ strstr g (q_group_name q) = true).
Proof.
  unfold match_group. destruct (String.length (q_group_name q) =? 0)%nat eqn:He.
  { apply length_zero_iff in He. naive_solver. }
  assert (Hne : q_group_name q ≠ EmptyString) by (intros Hq; rewrite Hq in He; done).
  destruct (strstr (adapter_name ad) (q_group_name q)); simpl; [naive_solver|].
  unfold neu_adapter_get_groups. rewrite He. cbn [orb].
  destruct (Z.eqb_spec (module_type ad) NEU_NA_TYPE_DRIVER) as [Hd|Hd]; cbn [negb]; [|naive_solver].
  destruct (List.filter (λ g, strstr g (q_group_name q)) (group_names ad)) as [|g gs] eqn:Hf.
  - split; [done|]. intros [?|[?|(_ & g & Hin & Hs)]]; [done|done|].
    assert (Hg : In g (List.filter (λ g, strstr g (q_group_name q)) (group_names ad)))
      by (apply filter_In; split; [by apply list_elem_of_In|done]).
    by rewrite Hf in Hg.
  - split; [|done]. intros _. right. right. split; [done|]. exists g.
    assert (Hg : In g (List.filter (λ g, strstr g (q_group_name q)) (group_names ad)))
      by (rewrite Hf; by left).
    apply filter_In in Hg as [Hin Hs]. by rewrite list_elem_of_In.
Qed.

Lemma opt_eqb_spec o z : opt_eqb o z = true ↔ o = None ∨ o = Some z.
Proof. destruct o as [w|]; simpl; [rewrite Z.eqb_eq|]; naive_solver. Qed.

Lemma node_selected_spec q el : node_selected adapters q el = true ↔ node_matches q el.
Proof.
  unfold node_selected, listed. rewrite !andb_true_iff, match_plugins_spec, match_node_spec,
    match_group_spec, !opt_eqb_spec, !negb_true_iff, Z.eqb_neq. split.
  - intros [[[[[[[? ?] ?] ?] ?] ?] ?] ?]. by split.
  - intros [[? [? ?]] ? ? ? ? ?]. split_and!; done.
Qed.
End filtered.

#[export] Instance node_info_sort_total : TotalCmp neu_resp_node_info_sort.
Proof.
  unfold neu_resp_node_info_sort.
  split; intros; destruct (Z.ltb_spec (info_delay x) (info_delay y));
    destruct (Z.gtb_spec (info_delay x) (info_delay y)); try lia;
    repeat (match goal with
            | |- context [?a <? ?b] => destruct (Z.ltb_spec a b)
            | |- context [?a >? ?b] => destruct (Z.gtb_spec a b)
            | H : context [?a <? ?b] |- _ => destruct (Z.ltb_spec a b)
            | H : context [?a >? ?b] |- _ => destruct (Z.gtb_spec a b)
            end; try lia).
Qed.

Lemma node_info_sort_le a b : neu_resp_node_info_sort a b <= 0 ↔ info_delay a <= info_delay b.
Proof.
  unfold neu_resp_node_info_sort. destruct (Z.ltb_spec (info_delay a) (info_delay b)); [lia|].
  destruct (Z.gtb_spec (info_delay a) (info_delay b)); lia.
Qed.

(** What the C standard says of [qsort]: it permutes the array and, for a
    comparison that is a total preorder, leaves it in ascending order. *)
Record qsort_spec (qsort : (neu_resp_node_info_t → neu_resp_node_info_t → Z) →
    list neu_resp_node_info_t → list neu_resp_node_info_t) : Prop := {
  qsort_perm cmp l : qsort cmp l ≡ₚ l;
  qsort_sorted cmp l : TotalCmp cmp → StronglySorted (λ a b, cmp a b <= 0) (qsort cmp l);
}.

Lemma node_filter_spec adapters qsort mgr q :
  qsort_spec qsort →
  let r := neu_node_manager_filter adapters qsort mgr q in
  r ≡ₚ filter_info adapters q <$> List.filter (node_selected adapters q) (nodes mgr) ∧
  (q_sort_delay q = true → StronglySorted (λ a b, info_delay a <= info_delay b) r).
Proof.
  intros [Hp Hs]. unfold neu_node_manager_filter. cbv zeta.
  destruct (q_sort_delay q); [|by split]. split; [apply Hp|]. intros _.
  pose proof (Hs neu_resp_node_info_sort (filter_info adapters q <$>
    List.filter (node_selected adapters q) (nodes mgr)) _) as Hss.
  clear -Hss. induction Hss as [|a l Hl IH Ha]; constructor; [done|].
  eapply Forall_impl; [exact Ha|]. intros b. apply node_info_sort_le.
Qed.

(** ** Main theorems *)

(** C34: the node table implements a map from names to nodes. When callers add and
    rename to unused names, every operation keeps the names unique and as many
    monitor entries as there are monitor nodes (their number only:
    [del_monitor_drops_last] shows that deleting a monitor may drop the entry of
    another), answers like the operation on the map (missing nodes included) and
    leaves the table that represents the resulting map. *)
Theorem node_manager_refines adapters op mgr :
  nodes_ok mgr → op_fresh adapters op mgr →
  nodes_ok (run_node adapters op mgr).2 ∧
  ((run_node adapters op mgr).1, node_map (run_node adapters op mgr).2) =
    spec_node adapters op (node_map mgr).
Proof. apply run_node_refines. Qed.

Definition example_adapters (ad : Z) : neu_adapter_t :=
  if ad =? 1 then {| adapter_name := "plc"; module_name := "Modbus TCP"; module_type := 1;
                     adapter_state := 3; link_state := 1; log_level := 0; last_rtt_ms := Some 20;
                     group_names := ["g1"%string] |}
  else if ad =? 2 then {| adapter_name := "monitor"; module_name := "Monitor"; module_type := 2;
                     adapter_state := 3; link_state := 1; log_level := 0; last_rtt_ms := None;
                     group_names := [] |}
  else {| adapter_name := "monitor2"; module_name := "Monitor"; module_type := 2;
          adapter_state := 3; link_state := 1; log_level := 0; last_rtt_ms := Some 5;
          group_names := [] |}.

Definition example_nodes : neu_node_manager_t :=
  let m := (neu_node_manager_add example_adapters neu_node_manager_create 4096 1 (Some "a,b"%string)).2 in
  let m := (neu_node_manager_add example_adapters m 8192 2 None).2 in
  (neu_node_manager_add example_adapters m 12288 3 None).2.

Lemma example_nodes_ok : nodes_ok example_nodes.
Proof. split; [|reflexivity]. by apply (bool_decide_unpack _). Qed.

Lemma node_manager_refines_witness :
  nodes_ok (run_node example_adapters (OpUpdateName "plc" "plc2") example_nodes).2 ∧
  neu_node_manager_is_exist (run_node example_adapters (OpUpdateName "plc" "plc2") example_nodes).2 "plc2"
    = true.
Proof.
  split; [|reflexivity].
  apply (node_manager_refines example_adapters (OpUpdateName "plc" "plc2") example_nodes example_nodes_ok).
  right. reflexivity.
Defined.

(** The filtered listing returns exactly the nodes that meet every
    condition of the query (listed kind, plugin, name part or tags, running
    state, link state, group), each once, and in ascending order of delay when
    the query asks for that. *)
Theorem node_filter_correct adapters qsort mgr q :
  qsort_spec qsort →
  let r := neu_node_manager_filter adapters qsort mgr q in
  ∃ sel, sel `sublist_of` nodes mgr ∧
    (∀ el, el ∈ nodes mgr → el ∈ sel ↔ node_matches adapters q el) ∧
    r ≡ₚ filter_info adapters q <$> sel ∧
    (q_sort_delay q = true → StronglySorted (λ a b, info_delay a <= info_delay b) r).
Proof.
  intros Hq r. destruct (node_filter_spec adapters qsort mgr q Hq) as [Hp Hs].
  exists (List.filter (node_selected adapters q) (nodes mgr)). split_and!; [| |done|done].
  - clear. induction (nodes mgr) as [|el l IH]; simpl; [done|].
    destruct (node_selected _ _ _); [by apply sublist_skip|by apply sublist_cons].
  - intros el Hel. rewrite <-node_selected_spec, !list_elem_of_In, filter_In, <-list_elem_of_In. naive_solver.
Qed.

(** A [qsort] that meets the specification. *)
Definition example_qsort (cmp : neu_resp_node_info_t → neu_resp_node_info_t → Z)
    (l : list neu_resp_node_info_t) : list neu_resp_node_info_t :=
  merge_sort (H := λ a b, decide (cmp a b <= 0)) (λ a b, cmp a b <= 0) l.

Lemma example_qsort_spec : qsort_spec example_qsort.
Proof.
  split; intros cmp l; [apply merge_sort_Permutation|]. intros [Hflip Htrans].
  apply StronglySorted_merge_sort.
  - intros x y z. apply Htrans.
  - intros x y. destruct (decide (cmp x y <= 0)); [by left|]. right. apply Hflip. lia.
Qed.

Definition example_query : node_query :=
  {| q_type := 3; q_plugins := []; q_node := "a"; q_sort_delay := true; q_state := Some 3;
     q_link := None; q_group_name := "g" |}.

Lemma node_filter_correct_witness :
  neu_node_manager_filter example_adapters example_qsort example_nodes example_query =
    [{| info_delay := 20; info_node := "plc"; info_plugin := "Modbus TCP"; info_tags := "a,b" |}] ∧
  ∃ sel, sel `sublist_of` nodes example_nodes ∧
    (∀ el, el ∈ nodes example_nodes → el ∈ sel ↔ node_matches example_adapters example_query el) ∧
    neu_node_manager_filter example_adapters example_qsort example_nodes example_query
      ≡ₚ filter_info example_adapters example_query <$> sel ∧
    (q_sort_delay example_query = true →
     StronglySorted (λ a b, info_delay a <= info_delay b)
       (neu_node_manager_filter example_adapters example_qsort example_nodes example_query)).
Proof.
  split; [vm_compute; reflexivity|].
  apply (node_filter_correct example_adapters example_qsort example_nodes example_query example_qsort_spec).
Defined.

(** A list of tags joined with commas is searched entry by entry: a tag is
    found exactly when it is one of the entries and not empty. *)
Theorem find_tag_joined pieces tag :
  Forall no_comma pieces →
  find_tag_in_tags (String.concat "," pieces) tag = true ↔ tag ≠ EmptyString ∧ tag ∈ pieces.
Proof. apply find_tag_joined_spec. Qed.

Lemma find_tag_joined_witness :
  find_tag_in_tags "line1,,press" "press" = true ∧ find_tag_in_tags "line1,,press" "line" = false.
Proof.
  split; [|reflexivity].
  apply (find_tag_joined ["line1"; ""; "press"]%string "press"); [|split; [done|set_solver]].
  repeat constructor; discriminate.
Defined.

(** Deleting a monitor node drops the last entry of [monitors] whatever
    node is deleted: the index is computed from the node's own address instead
    of the array element's, and for a node outside the array's storage lies
    beyond its end.  The entry of the deleted node, which is freed, stays when
    it is not the last one. *)
Theorem del_monitor_drops_last d mgr nm node l p :
  hash_find name nm (nodes mgr) = Some node → is_monitor node = true →
  monitors mgr = l ++ [p] → Z.of_nat (length (monitors mgr)) <= monitor_idx d (node_ptr node) →
  monitors (neu_node_manager_del d mgr nm) = l.
Proof.
  intros Hf Hm Hl Hidx. unfold neu_node_manager_del. rewrite Hf, Hm. simpl. unfold utarray_erase.
  destruct (Z.gtb_spec (Z.of_nat (length (monitors mgr))) (monitor_idx d (node_ptr node) + 1)); [lia|].
  rewrite Hl, length_app. simpl. rewrite Nat.add_sub. apply take_app_length.
Qed.

Lemma del_monitor_drops_last_witness :
  monitors example_nodes = [8192; 12288] ∧
  monitors (neu_node_manager_del 65536 example_nodes "monitor") = [8192] ∧
  nodes (neu_node_manager_del 65536 example_nodes "monitor") !! 1%nat = nodes example_nodes !! 2%nat.
Proof.
  split; [reflexivity|]. split; [|reflexivity].
  eapply (del_monitor_drops_last 65536 example_nodes "monitor" _ [8192] 12288);
    [reflexivity|reflexivity|reflexivity|vm_compute; discriminate].
Defined.
