(* ===== verification/CHeap.v ===== *)
(** * The C heap

    Components that pass buffers between modules by pointer (the driver cache)
    are modelled over a heap of blocks.  An address is a [Z], [NULL] is 0, a
    block is the list of its bytes, and pointers are never moved inside a block.
    Addresses are handed out in increasing order and never reused, so that an
    access through a dangling pointer is always visible: it is [None], like an
    access outside a block and a [free] of an address that is not a live block.
    The state of the JSON library, which the heap does not describe, is carried
    along as a value of any type [J].

    Computations are in the monad [M]; [runs] is total correctness: the
    computation returns and its result satisfies the postcondition. *)

From S2P Require Import Prelude.

Record mem (J : Type) := Mem {
  hp_next : Z;
  hp_blocks : gmap Z (list Z);
  hp_json : J;
}.
Arguments Mem {_} _ _ _.
Arguments hp_next {_} _.
Arguments hp_blocks {_} _.
Arguments hp_json {_} _.

Definition M (J A : Type) : Type := mem J → option (A * mem J).

#[export] Instance M_ret {J} : MRet (M J) := λ A a h, Some (a, h).
#[export] Instance M_bind {J} : MBind (M J) := λ A B k m h,
  match m h with Some (a, h') => k a h' | None => None end.

Section Heap.
Context {J : Type}.
Implicit Types (h : mem J) (p : Z) (b : list Z).

Definition set_blocks (bs : gmap Z (list Z)) h : mem J := Mem (hp_next h) bs (hp_json h).

(** [calloc]: a block of [n] zero bytes at an address not used before. *)
Definition calloc (n : nat) : M J Z := λ h,
  Some (hp_next h,
        Mem (hp_next h + 1) (<[hp_next h := replicate n 0]> (hp_blocks h)) (hp_json h)).

Definition free (p : Z) : M J () := λ h,
  if decide (p = 0) then Some ((), h)
  else match hp_blocks h !! p with
       | Some _ => Some ((), set_blocks (delete p (hp_blocks h)) h)
       | None => None
       end.

(** [n] bytes at [p + off], as [memcpy] and [memcmp] read them; reading no
    bytes does not touch the memory. *)
Definition load_bytes (p : Z) (off n : nat) h : option (list Z) :=
  if decide (n = O) then Some []
  else b ← hp_blocks h !! p;
       if decide (off + n <= length b)%nat then Some (mem_read off n b) else None.

Definition load (p : Z) (off n : nat) : M J (list Z) := λ h,
  match load_bytes p off n h with Some bs => Some (bs, h) | None => None end.

Definition store (p : Z) (off : nat) (src : list Z) : M J () := λ h,
  if decide (src = []) then Some ((), h)
  else match hp_blocks h !! p with
       | Some b => if decide (off + length src <= length b)%nat
                   then Some ((), set_blocks (<[p := mem_write off src b]> (hp_blocks h)) h)
                   else None
       | None => None
       end.

Definition memcpy (dst src : Z) (n : nat) : M J () := bs ← load src 0 n; store dst 0 bs.

(** The bytes of a C string in front of its terminator. *)
Fixpoint c_string (b : list Z) : option (list Z) :=
  match b with
  | [] => None
  | c :: b' => if decide (c = 0) then Some [] else cons c <$> c_string b'
  end.

Definition load_str (p : Z) h : option (list Z) := b ← hp_blocks h !! p; c_string b.

Definition strdup (p : Z) : M J Z := λ h,
  match load_str p h with
  | Some s => (q ← calloc (S (length s)); store q 0 s;; mret q) h
  | None => None
  end.

(** A step that touches no memory; [None] is undefined behaviour or a failed
    assertion. *)
Definition lift {A} (o : option A) : M J A := λ h,
  match o with Some a => Some (a, h) | None => None end.

(** An operation of the JSON library. *)
Definition json_op {A} (f : J → A * J) : M J A := λ h,
  let (a, j) := f (hp_json h) in Some (a, Mem (hp_next h) (hp_blocks h) j).

(** ** Well-formed heaps and frames *)

(** Every live address has been handed out, and addresses fit a pointer. *)
Definition heap_ok h : Prop :=
  0 < hp_next h <= 2 ^ 64 ∧ ∀ p b, hp_blocks h !! p = Some b → 0 < p < hp_next h.

(** From [h] to [h'] only the blocks of [X] and new ones differ. *)
Definition frame (X : list Z) h h' : Prop :=
  hp_next h <= hp_next h' ∧
  ∀ p, p < hp_next h → p ∉ X → hp_blocks h' !! p = hp_blocks h !! p.

Lemma frame_refl X h : frame X h h.
Proof. split; [lia|done]. Qed.

Lemma frame_trans X Y h1 h2 h3 : frame X h1 h2 → frame Y h2 h3 → frame (X ++ Y) h1 h3.
Proof.
  intros [Hn1 H1] [Hn2 H2]. split; [lia|]. intros p Hp [HX HY]%not_elem_of_app.
  rewrite H2 by (done || lia). by apply H1.
Qed.

Lemma frame_weaken X Y h h' : (∀ p, p ∈ X → p ∈ Y) → frame X h h' → frame Y h h'.
Proof. intros HXY [Hn Hf]. split; [done|]. intros p Hp HY. apply Hf; [done|]. intros ?. by apply HY, HXY. Qed.

Lemma frame_new X Y h h1 h' :
  (∀ p, p ∈ Y → p ∈ X ∨ hp_next h <= p) → frame X h h1 → frame Y h1 h' → frame X h h'.
Proof.
  intros HY [Hn1 H1] [Hn2 H2]. split; [lia|]. intros p Hp HX.
  rewrite H2; [by apply H1|lia|]. intros [?|?]%HY; [done|lia].
Qed.

(** ** Total correctness *)
Definition runs {A} (m : M J A) h (Q : A → mem J → Prop) : Prop :=
  ∃ a h', m h = Some (a, h') ∧ Q a h'.

Lemma runs_ret {A} (a : A) h (Q : A → mem J → Prop) : Q a h → runs (mret a) h Q.
Proof. intros. by exists a, h. Qed.

Lemma runs_bind {A B} (m : M J A) (k : A → M J B) h Q :
  runs m h (λ a h', runs (k a) h' Q) → runs (m ≫= k) h Q.
Proof.
  intros (a & h' & Hm & b & h'' & Hk & HQ). exists b, h''. split; [|done].
  unfold mbind, M_bind. by rewrite Hm.
Qed.

Lemma runs_mono {A} (m : M J A) h (Q R : A → mem J → Prop) :
  runs m h Q → (∀ a h', Q a h' → R a h') → runs m h R.
Proof. intros (a & h' & Hm & HQ) HR. exists a, h'. auto. Qed.

Lemma runs_lift {A} (o : option A) a h (Q : A → mem J → Prop) : o = Some a → Q a h → runs (lift o) h Q.
Proof. intros -> ?. by exists a, h. Qed.

Lemma runs_calloc n h Q :
  Q (hp_next h) (Mem (hp_next h + 1) (<[hp_next h := replicate n 0]> (hp_blocks h)) (hp_json h)) →
  runs (calloc n) h Q.
Proof. intros. by eexists _, _. Qed.

Lemma runs_load p off n h bs (Q : list Z → mem J → Prop) :
  load_bytes p off n h = Some bs → Q bs h → runs (load p off n) h Q.
Proof. intros Hl ?. exists bs, h. split; [|done]. unfold load. by rewrite Hl. Qed.

Lemma runs_json {A} (f : J → A * J) h (Q : A → mem J → Prop) :
  Q (f (hp_json h)).1 (Mem (hp_next h) (hp_blocks h) (f (hp_json h)).2) → runs (json_op f) h Q.
Proof. intros HQ. exists (f (hp_json h)).1, (Mem (hp_next h) (hp_blocks h) (f (hp_json h)).2).
  split; [|done]. unfold json_op. by destruct (f (hp_json h)). Qed.

(** [free] of a live block or of [NULL]. *)
Lemma runs_free p h (Q : () → mem J → Prop) :
  p = 0 ∨ is_Some (hp_blocks h !! p) →
  Q () (if decide (p = 0) then h else set_blocks (delete p (hp_blocks h)) h) → runs (free p) h Q.
Proof.
  intros Hp HQ. unfold runs, free. destruct (decide (p = 0)).
  - by eexists _, _.
  - destruct Hp as [?|[b Hb]]; [done|]. rewrite Hb. by eexists _, _.
Qed.

Lemma runs_store p off src h b (Q : () → mem J → Prop) :
  src ≠ [] → hp_blocks h !! p = Some b → (off + length src <= length b)%nat →
  Q () (set_blocks (<[p := mem_write off src b]> (hp_blocks h)) h) → runs (store p off src) h Q.
Proof.
  intros Hs Hb Hl HQ. unfold runs, store. rewrite decide_False by done. rewrite Hb.
  rewrite decide_True by done. by eexists _, _.
Qed.

(** ** The allocator keeps the heap well-formed *)
Lemma heap_ok_calloc n h :
  heap_ok h → hp_next h < 2 ^ 64 →
  heap_ok (Mem (hp_next h + 1) (<[hp_next h := replicate n 0]> (hp_blocks h)) (hp_json h)).
Proof.
  intros [Hn Hb] ?. split; simpl; [lia|]. intros p b.
  destruct (decide (p = hp_next h)) as [->|?]; [lia|].
  rewrite lookup_insert_ne by done. intros ?%Hb. lia.
Qed.

Lemma heap_ok_delete p h : heap_ok h → heap_ok (set_blocks (delete p (hp_blocks h)) h).
Proof.
  intros [Hn Hb]. split; [done|]. simpl. intros q b.
  intros [? ?]%lookup_delete_Some. by eapply Hb.
Qed.

Lemma heap_ok_write p c h :
  heap_ok h → is_Some (hp_blocks h !! p) → heap_ok (set_blocks (<[p := c]> (hp_blocks h)) h).
Proof.
  intros [Hn Hb] [b Hp]. split; [done|]. simpl. intros q d.
  destruct (decide (q = p)) as [->|?]; [intros _; by eapply Hb|].
  rewrite lookup_insert_ne by done. apply Hb.
Qed.

Lemma heap_ok_fresh h : heap_ok h → hp_blocks h !! hp_next h = None.
Proof. intros [Hn Hb]. apply eq_None_not_Some. intros [b ?%Hb]. lia. Qed.

Lemma heap_ok_live h p : heap_ok h → is_Some (hp_blocks h !! p) → 0 < p < hp_next h.
Proof. intros [Hn Hb] [b ?]. by eapply Hb. Qed.

Lemma frame_delete p h : frame [p] h (set_blocks (delete p (hp_blocks h)) h).
Proof.
  split; [done|]. simpl. intros q Hq Hne. apply lookup_delete_ne. set_solver.
Qed.

Lemma frame_write p c h : frame [p] h (set_blocks (<[p := c]> (hp_blocks h)) h).
Proof.
  split; [done|]. simpl. intros q Hq Hne. apply lookup_insert_ne. set_solver.
Qed.

Lemma frame_calloc n h :
  frame [] h (Mem (hp_next h + 1) (<[hp_next h := replicate n 0]> (hp_blocks h)) (hp_json h)).
Proof. split; simpl; [lia|]. intros q Hq _. apply lookup_insert_ne. lia. Qed.

(** Reads of a block outside the frame are unaffected. *)
Lemma load_bytes_block p off n h h' :
  hp_blocks h' !! p = hp_blocks h !! p → load_bytes p off n h' = load_bytes p off n h.
Proof. intros E. unfold load_bytes. by rewrite E. Qed.

Lemma load_str_block p h h' :
  hp_blocks h' !! p = hp_blocks h !! p → load_str p h' = load_str p h.
Proof. intros E. unfold load_str. by rewrite E. Qed.

Lemma load_bytes_length p off n h bs : load_bytes p off n h = Some bs → length bs = n.
Proof.
  unfold load_bytes. destruct (decide (n = O)) as [->|Hn]; [by intros [= <-]|].
  intros (b & _ & Hb)%bind_Some. destruct (decide (off + n <= length b)%nat); [|done].
  injection Hb as <-. by apply length_mem_read.
Qed.

(** A fresh copy of [n] bytes: the pattern [calloc] and [memcpy]. *)
Definition copy_block (src : Z) (size n : nat) : M J Z :=
  p ← calloc size; memcpy p src n;; mret p.

Lemma runs_copy_block src n h bs Q :
  heap_ok h → load_bytes src 0 n h = Some bs →
  Q (hp_next h) (Mem (hp_next h + 1) (<[hp_next h := bs]> (hp_blocks h)) (hp_json h)) →
  runs (copy_block src n n) h Q.
Proof.
  intros Hok Hl HQ. pose proof (load_bytes_length _ _ _ _ _ Hl) as Hlen.
  apply runs_bind, runs_calloc, runs_bind, runs_bind.
  assert (Hsrc : load_bytes src 0 n (Mem (hp_next h + 1)
      (<[hp_next h := replicate n 0]> (hp_blocks h)) (hp_json h)) = Some bs).
  { destruct (decide (n = O)) as [->|Hn]; [done|]. rewrite <-Hl. apply load_bytes_block. simpl.
    apply lookup_insert_ne. intros <-. unfold load_bytes in Hl.
    rewrite decide_False, heap_ok_fresh in Hl by done. done. }
  eapply runs_load; [exact Hsrc|].
  destruct (decide (bs = [])) as [->|Hbs].
  { simpl in Hlen. subst n. exists (), (Mem (hp_next h + 1)
      (<[hp_next h := replicate 0 0]> (hp_blocks h)) (hp_json h)). split; [done|].
    by apply runs_ret. }
  eapply runs_store; [done|apply lookup_insert_eq|rewrite length_replicate; lia|].
  apply runs_ret. simpl. unfold set_blocks. simpl. rewrite insert_insert_eq.
  replace (mem_write 0 bs (replicate n 0)) with bs; [done|].
  unfold mem_write. rewrite take_0, drop_ge by (rewrite length_replicate; lia).
  by rewrite app_nil_r.
Qed.

(** The heap after a copy: one more block with the given bytes. *)
Definition add_block bs h : mem J :=
  Mem (hp_next h + 1) (<[hp_next h := bs]> (hp_blocks h)) (hp_json h).

Lemma heap_ok_add_block bs h : heap_ok h → hp_next h < 2 ^ 64 → heap_ok (add_block bs h).
Proof.
  intros [Hn Hb] ?. split; simpl; [lia|]. intros p b.
  destruct (decide (p = hp_next h)) as [->|?]; [lia|].
  rewrite lookup_insert_ne by done. intros ?%Hb. lia.
Qed.

Lemma frame_add_block bs h : frame [] h (add_block bs h).
Proof. split; simpl; [lia|]. intros q Hq _. apply lookup_insert_ne. lia. Qed.

Lemma load_add_block bs h : load_bytes (hp_next h) 0 (length bs) (add_block bs h) = Some bs.
Proof.
  unfold load_bytes. simpl. rewrite lookup_insert_eq. cbn.
  destruct (decide (length bs = O)) as [E|E]; [by apply length_zero_iff_nil in E as ->|].
  rewrite decide_True by lia. unfold mem_read. by rewrite drop_0, take_ge by lia.
Qed.

Lemma c_string_snoc b s : c_string b = Some s → c_string (s ++ [0]) = Some s.
Proof.
  revert s. induction b as [|c b IH]; intros s; [done|]. cbn [c_string].
  destruct (decide (c = 0)) as [->|Hc]; [by intros [= <-]|].
  intros (s' & Hs & ->)%fmap_Some. cbn [app c_string]. rewrite decide_False by done.
  by rewrite (IH s').
Qed.

(** [strdup] adds a block with the string and its terminator. *)
Lemma runs_strdup p h s Q :
  load_str p h = Some s → Q (hp_next h) (add_block (s ++ [0]) h) → runs (strdup p) h Q.
Proof.
  intros Hs HQ. unfold runs, strdup. rewrite Hs.
  cut (runs (q ← calloc (S (length s)); store q 0 s;; mret q) h Q); [done|].
  apply runs_bind, runs_calloc, runs_bind. destruct (decide (s = [])) as [->|Hne].
  { eexists (), _. split; [done|]. by apply runs_ret. }
  eapply runs_store; [done|apply lookup_insert_eq|rewrite length_replicate; lia|].
  apply runs_ret. unfold set_blocks. simpl. rewrite insert_insert_eq.
  replace (mem_write 0 s (0 :: replicate (length s) 0)) with (s ++ [0]); [done|].
  unfold mem_write. rewrite take_0. cbn [app]. f_equal.
  change (0 :: replicate (length s) 0) with (replicate (S (length s)) 0).
  rewrite drop_replicate. by replace (S (length s) - (0 + length s))%nat with 1%nat by lia.
Qed.
End Heap.

#[export] Hint Resolve heap_ok_calloc heap_ok_delete heap_ok_write frame_refl frame_delete
  frame_write frame_calloc : neuron.
