(* ===== verification/CFloat.v ===== *)
(** * Floating point

    [float] and [double] as the IEEE 754 values of the Standard Library's
    [SpecFloat], with their bit patterns, the conversions between them and the
    integers, and the roundings of the C library.  Operations round to nearest
    even, in the type of their operands.  A NaN has one bit pattern, the default
    quiet one. *)

From Stdlib Require Import SpecFloat.
From S2P Require Import Prelude.

(** ** Bit patterns

    The value of a bit pattern with [mw] bits of mantissa and [ew] bits of
    exponent, and back. *)
Definition sf_emin (mw ew : Z) : Z := emin (mw + 1) (2 ^ (ew - 1)).

Definition sf_of_bits (mw ew : Z) (x : Z) : spec_float :=
  let m := x mod 2 ^ mw in
  let e := (x / 2 ^ mw) mod 2 ^ ew in
  let s := Z.odd (x / 2 ^ (mw + ew)) in
  if e =? 0 then match m with Z.pos p => S754_finite s p (sf_emin mw ew) | _ => S754_zero s end
  else if e =? 2 ^ ew - 1 then (if m =? 0 then S754_infinity s else S754_nan)
  else match m + 2 ^ mw with
       | Z.pos p => S754_finite s p (e - 1 + sf_emin mw ew)
       | _ => S754_nan
       end.

Definition sf_sign (mw ew : Z) (s : bool) : Z := if s then 2 ^ (mw + ew) else 0.

Definition bits_of_sf (mw ew : Z) (x : spec_float) : Z :=
  match x with
  | S754_zero s => sf_sign mw ew s
  | S754_infinity s => sf_sign mw ew s + (2 ^ ew - 1) * 2 ^ mw
  | S754_nan => (2 ^ ew - 1) * 2 ^ mw + 2 ^ (mw - 1)
  | S754_finite s m e =>
      sf_sign mw ew s +
      (if Z.pos m <? 2 ^ mw then Z.pos m
       else (e - sf_emin mw ew + 1) * 2 ^ mw + (Z.pos m - 2 ^ mw))
  end.

(** A bit pattern that is not a NaN is the bit pattern of its value. *)
Lemma bits_of_sf_of_bits mw ew x :
  0 < mw → 0 < ew → 0 <= x < 2 ^ (mw + ew + 1) → sf_of_bits mw ew x ≠ S754_nan →
  bits_of_sf mw ew (sf_of_bits mw ew x) = x.
Proof.
  intros Hmw Hew Hx. unfold sf_of_bits.
  assert (HM : 0 < 2 ^ mw) by (apply Z.pow_pos_nonneg; lia).
  assert (HE : 2 <= 2 ^ ew) by (change 2 with (2 ^ 1) at 1; apply Z.pow_le_mono_r; lia).
  assert (HME : 2 ^ (mw + ew) = 2 ^ mw * 2 ^ ew) by (apply Z.pow_add_r; lia).
  assert (HS : 2 ^ (mw + ew + 1) = 2 * 2 ^ (mw + ew)).
  { rewrite Z.add_1_r, Z.pow_succ_r by lia. done. }
  rewrite HME in HS |- *. set (M := 2 ^ mw) in *. set (E := 2 ^ ew) in *.
  set (m := x mod M). set (q := x / M). set (e := q mod E).
  assert (Hm : 0 <= m < M) by (apply Z.mod_pos_bound; lia).
  assert (He : 0 <= e < E) by (apply Z.mod_pos_bound; lia).
  assert (Hxq : x = M * q + m) by (apply Z.div_mod; lia).
  assert (Hqe : q = E * (q / E) + e) by (apply Z.div_mod; lia).
  assert (Hd : x / (M * E) = q / E) by (unfold q; rewrite Z.div_div; lia).
  rewrite Hd. assert (Hs : 0 <= q / E < 2).
  { rewrite <-Hd. split; [apply Z.div_pos; nia|apply Z.div_lt_upper_bound; nia]. }
  assert (Hsign : sf_sign mw ew (Z.odd (q / E)) = M * E * (q / E)).
  { unfold sf_sign. rewrite HME. fold M E.
    assert (q / E = 0 ∨ q / E = 1) as [-> | ->] by lia; simpl; lia. }
  assert (Hx' : x = sf_sign mw ew (Z.odd (q / E)) + (e * M + m)) by (rewrite Hsign; nia).
  destruct (Z.eqb_spec e 0) as [E0|E0].
  { destruct m as [|p|p] eqn:Em; intros _; simpl; fold M; [lia| |lia].
    rewrite (proj2 (Z.ltb_lt _ _)) by lia. lia. }
  destruct (Z.eqb_spec e (E - 1)) as [E1|E1].
  { destruct (Z.eqb_spec m 0); [|done]. intros _. simpl. fold M E. lia. }
  destruct (m + M) as [|p|p] eqn:Em; [lia| |lia]. intros _. simpl. fold M.
  rewrite (proj2 (Z.ltb_ge _ _)) by lia. lia.
Qed.

(** ** Doubles and floats *)

Definition d64_of_bits : Z → spec_float := sf_of_bits 52 11.
Definition f32_of_bits : Z → spec_float := sf_of_bits 23 8.
Definition d64_bits : spec_float → Z := bits_of_sf 52 11.
Definition f32_bits : spec_float → Z := bits_of_sf 23 8.

Definition d64_add : spec_float → spec_float → spec_float := SFadd 53 1024.
Definition d64_sub : spec_float → spec_float → spec_float := SFsub 53 1024.
Definition d64_mul : spec_float → spec_float → spec_float := SFmul 53 1024.
Definition d64_div : spec_float → spec_float → spec_float := SFdiv 53 1024.

(** [(double) n] *)
Definition d64_of_Z (n : Z) : spec_float := binary_normalize 53 1024 n 0 false.

(** The conversion of a [float] to [double]: the same number, with the mantissa
    of a [double]; and [(float) d], which rounds. *)
Definition float_to_double (x : spec_float) : spec_float :=
  match x with S754_finite s m e => binary_round 53 1024 s m e | _ => x end.
Definition double_to_float (x : spec_float) : spec_float :=
  match x with S754_finite s m e => binary_round 24 128 s m e | _ => x end.

(** [fabs (a - b)] for [float] and [double] operands; the subtraction is in the
    type of the operands. *)
Definition f32_distance (a b : spec_float) : spec_float :=
  SFabs (float_to_double (SFsub 24 128 a b)).
Definition d64_distance (a b : spec_float) : spec_float := SFabs (d64_sub a b).

Definition sf_is_nan (x : spec_float) : bool := match x with S754_nan => true | _ => false end.

(** ** Rounding to integers *)

(** The greatest integer below a finite number, the least above, and the nearest
    one with ties away from zero. *)
Definition sf_signed (s : bool) (m : positive) : Z := if s then Z.neg m else Z.pos m.

Definition sf_floor_Z (s : bool) (m : positive) (e : Z) : Z :=
  if 0 <=? e then sf_signed s m * 2 ^ e else sf_signed s m / 2 ^ (- e).
Definition sf_ceil_Z (s : bool) (m : positive) (e : Z) : Z := - sf_floor_Z (negb s) m e.

Definition sf_round_Z (x : spec_float) : option Z :=
  match x with
  | S754_zero _ => Some 0
  | S754_finite s m e =>
      let n := if 0 <=? e then Z.pos m * 2 ^ e
               else (Z.pos m + 2 ^ (- e - 1)) / 2 ^ (- e) in
      Some (if s then - n else n)
  | _ => None
  end.

(** [(int64_t) x]: towards zero. *)
Definition sf_trunc_Z (x : spec_float) : option Z :=
  match x with
  | S754_zero _ => Some 0
  | S754_finite s m e =>
      let n := if 0 <=? e then Z.pos m * 2 ^ e else Z.pos m / 2 ^ (- e) in
      Some (if s then - n else n)
  | _ => None
  end.

(** [floor] and [ceil] of a [double]; the integers are exact. *)
Definition d64_floor (x : spec_float) : spec_float :=
  match x with S754_finite s m e => d64_of_Z (sf_floor_Z s m e) | _ => x end.
Definition d64_ceil (x : spec_float) : spec_float :=
  match x with S754_finite s m e => d64_of_Z (sf_ceil_Z s m e) | _ => x end.

(** [round] of a [double]. *)
Definition d64_round (x : spec_float) : spec_float :=
  match x with
  | S754_finite s m e => default x (d64_of_Z <$> sf_round_Z x)
  | _ => x
  end.

(** The nearest integer is within one half. *)
Lemma sf_round_near s m e n :
  sf_round_Z (S754_finite s m e) = Some n → e < 0 →
  2 * Z.abs (n * 2 ^ (- e) - sf_signed s m) <= 2 ^ (- e).
Proof.
  intros [= <-] He. rewrite (proj2 (Z.leb_gt _ _)) by lia.
  assert (HP : 2 ^ (- e) = 2 * 2 ^ (- e - 1)).
  { rewrite <-Z.pow_succ_r by lia. f_equal. lia. }
  assert (0 < 2 ^ (- e - 1)) by (apply Z.pow_pos_nonneg; lia).
  set (h := 2 ^ (- e - 1)) in *. rewrite HP.
  pose proof (Z.div_mod (Z.pos m + h) (2 * h) ltac:(lia)) as Hdm.
  pose proof (Z.mod_pos_bound (Z.pos m + h) (2 * h) ltac:(lia)).
  set (q := (Z.pos m + h) / (2 * h)) in *.
  destruct s; unfold sf_signed; [change (Z.neg m) with (- Z.pos m)|]; lia.
Qed.
