(* ===== verification/DriverCache.v ===== *)
(** * The driver cache

    src/adapter/driver/cache.c: the last value of every tag of a driver, with the
    flag that tells the reporting timer whether the tag has changed, and the
    trace context of every group.  Values of array, pointer and JSON type are
    passed by pointer; ownership of an array moves into the cache on update, a
    pointer value is copied on update, and every read hands out a fresh copy.
    The memory is the heap of [CHeap.v].  The JSON library is the class [Jansson].
    [sub_filter_err] is the command line switch of that name.

    [value_old.type] is written and never read, so the old value is kept as its
    union, its precision and its attributes.  A meta array is a list, empty for
    [NULL]; its length is [n_meta].  The lock around every operation makes it
    atomic, so an operation is one function.  The theorems are in
    [DriverCacheOk.v]. *)

From Stdlib Require Import SpecFloat.
From S2P Require Import Prelude UtHash NeuTypes CHeap CFloat.

(** ** Values *)

Record neu_tag_sample_attrs_t := {
  at_timestamp : Z;
  at_quality : Z;
  has_timestamp : bool;
  has_quality : bool;
}.
Definition attrs_zero : neu_tag_sample_attrs_t :=
  {| at_timestamp := 0; at_quality := 0; has_timestamp := false; has_quality := false |}.

Record neu_dvalue_t := {
  dv_type : neu_type_e;
  dv_value : neu_value_u;
  dv_precision : Z;
  dv_attrs : neu_tag_sample_attrs_t;
}.

Record neu_tag_meta_t := { meta_name : string; meta_value : neu_dvalue_t }.

(** Members of the union beyond the scalars: the arrays are a pointer and a
    32-bit length, [ptr] is a type, a 16-bit length and a pointer, [bytes] is 256
    bytes and an 8-bit length, [json] is a pointer. *)
Definition arr_ptr (v : neu_value_u) : Z := le_load (mem_read 0 8 v).
Definition arr_length (v : neu_value_u) : Z := le_load (mem_read 8 4 v).
Definition ptr_type (v : neu_value_u) : Z := le_load (mem_read 0 4 v).
Definition ptr_length (v : neu_value_u) : Z := le_load (mem_read 4 2 v).
Definition ptr_ptr (v : neu_value_u) : Z := le_load (mem_read 8 8 v).
Definition bytes_length (v : neu_value_u) : Z := le_load (mem_read 256 1 v).
Definition json_ptr (v : neu_value_u) : Z := le_load (mem_read 0 8 v).

Definition set_arr_ptr (p : Z) (v : neu_value_u) : neu_value_u := mem_write 0 (le_store 8 p) v.
Definition set_arr_length (n : Z) (v : neu_value_u) : neu_value_u := mem_write 8 (le_store 4 n) v.
Definition set_ptr_type (t : Z) (v : neu_value_u) : neu_value_u := mem_write 0 (le_store 4 t) v.
Definition set_ptr_length (n : Z) (v : neu_value_u) : neu_value_u := mem_write 4 (le_store 2 n) v.
Definition set_ptr_ptr (p : Z) (v : neu_value_u) : neu_value_u := mem_write 8 (le_store 8 p) v.
Definition set_bytes_length (n : Z) (v : neu_value_u) : neu_value_u := mem_write 256 (le_store 1 n) v.
Definition set_json_ptr (p : Z) (v : neu_value_u) : neu_value_u := mem_write 0 (le_store 8 p) v.

(** [NEU_TYPE_ARRAY_CHAR < type && type < NEU_TYPE_ARRAY_STRING] *)
Definition is_num_array (t : neu_type_e) : bool :=
  (type_code NEU_TYPE_ARRAY_CHAR <? type_code t) && (type_code t <? type_code NEU_TYPE_ARRAY_STRING).

(** The size of an element of an array type. *)
Definition array_elem_size (t : neu_type_e) : nat :=
  match t with
  | NEU_TYPE_ARRAY_INT16 | NEU_TYPE_ARRAY_UINT16 => 2
  | NEU_TYPE_ARRAY_INT32 | NEU_TYPE_ARRAY_UINT32 | NEU_TYPE_ARRAY_FLOAT => 4
  | NEU_TYPE_ARRAY_INT64 | NEU_TYPE_ARRAY_UINT64 | NEU_TYPE_ARRAY_DOUBLE
  | NEU_TYPE_ARRAY_STRING => 8
  | _ => 1
  end.

Definition neu_dvalue_is_array (dv : neu_dvalue_t) : bool :=
  type_code NEU_TYPE_ARRAY_CHAR <=? type_code (dv_type dv).

Definition f32_of (v : neu_value_u) : spec_float := sf_of_bits 23 8 (val_u32 v).
Definition d64_of (v : neu_value_u) : spec_float := sf_of_bits 52 11 (val_u64 v).

(** ** The cache *)

Definition NEU_GROUP_NAME_LEN : nat := 128.
Definition NEU_TAG_NAME_LEN : nat := 128.

Definition tkey_t : Type := string * string.
Definition to_key (group tag : string) : tkey_t :=
  (cstr_trunc (NEU_GROUP_NAME_LEN - 1) group, cstr_trunc (NEU_TAG_NAME_LEN - 1) tag).

Record elem := {
  timestamp : Z;
  changed : bool;
  value : neu_dvalue_t;
  old_value : neu_value_u;
  old_precision : Z;
  old_attrs : neu_tag_sample_attrs_t;
  metas : list neu_tag_meta_t;
  key : tkey_t;
}.

Record group_trace_t := { trace_key : string; trace_ctx : Z }.

Record neu_driver_cache_t := { trace_table : list group_trace_t; table : list elem }.

Record neu_driver_cache_value_t := { cv_value : neu_dvalue_t; cv_timestamp : Z }.

Definition set_table (t : list elem) (c : neu_driver_cache_t) : neu_driver_cache_t :=
  {| trace_table := trace_table c; table := t |}.

Definition neu_driver_cache_new : neu_driver_cache_t := {| trace_table := []; table := [] |}.

(** The JSON library: equality, dropping a reference and deep copy of the value
    behind a handle. *)
Class Jansson (J : Type) := {
  json_equal : J → Z → Z → bool;
  json_decref : Z → J → J;
  json_deep_copy : Z → J → Z * J;
}.

(** ** The trace table *)

Definition neu_driver_cache_update_trace (c : neu_driver_cache_t) (group : string) (ctx : Z)
    : neu_driver_cache_t :=
  let k := cstr_trunc (NEU_GROUP_NAME_LEN - 1) group in
  let t := match hash_find trace_key k (trace_table c) with
           | None => hash_add {| trace_key := k; trace_ctx := ctx |} (trace_table c)
           | Some _ => trace_table c
           end in
  {| trace_table := hash_update trace_key k
       (λ e, {| trace_key := trace_key e; trace_ctx := ctx |}) t;
     table := table c |}.

Definition neu_driver_cache_get_trace (c : neu_driver_cache_t) (group : string) : Z :=
  match hash_find trace_key (cstr_trunc (NEU_GROUP_NAME_LEN - 1) group) (trace_table c) with
  | Some e => trace_ctx e
  | None => 0
  end.

(** ** Adding and renaming *)

Definition elem_init (k : tkey_t) : elem :=
  {| timestamp := 0; changed := false;
     value := {| dv_type := NEU_TYPE_ERROR; dv_value := value_zero; dv_precision := 0;
                 dv_attrs := attrs_zero |};
     old_value := value_zero; old_precision := 0; old_attrs := attrs_zero;
     metas := []; key := k |}.

(** The zero block [calloc] returns has no value type; [neu_driver_cache_add]
    assigns the value at once. *)
Definition elem_reset (v : neu_dvalue_t) (e : elem) : elem :=
  {| timestamp := 0; changed := false; value := v; old_value := old_value e;
     old_precision := old_precision e; old_attrs := attrs_zero; metas := metas e; key := key e |}.

Definition neu_driver_cache_add (c : neu_driver_cache_t) (group tag : string) (v : neu_dvalue_t)
    : neu_driver_cache_t :=
  let k := to_key group tag in
  let t := match hash_find key k (table c) with
           | None => hash_add (elem_init k) (table c)
           | Some _ => table c
           end in
  set_table (hash_update key k (elem_reset v) t) c.

Definition with_key (k : tkey_t) (e : elem) : elem :=
  {| timestamp := timestamp e; changed := changed e; value := value e; old_value := old_value e;
     old_precision := old_precision e; old_attrs := old_attrs e; metas := metas e; key := k |}.

Definition neu_driver_cache_rename (c : neu_driver_cache_t) (group old_tag new_tag : string)
    : neu_driver_cache_t :=
  let k := to_key group old_tag in
  match hash_find key k (table c) with
  | None => c
  | Some e => set_table (hash_add (with_key (to_key group new_tag) e)
                           (hash_del key k (table c))) c
  end.

Section Cache.
Context {J : Type} `{Jansson J}.

(** [pow (0.1, precision)] of the C library, whose last digits depend on the
    implementation. *)
Context (pow01 : Z → spec_float).
Context (sub_filter_err : bool).

(** ** Releasing memory *)

(** [for (i = 0; i < length; i++) free (strs\[i\])], with the slot set to [NULL]
    where the loop does so. *)
Fixpoint free_strings (clear : bool) (strs : Z) (i n : nat) : M J () :=
  match n with
  | O => mret ()
  | S n' =>
      bs ← load strs (8 * i) 8;
      free (le_load bs);;
      (if clear then store strs (8 * i) (le_store 8 0) else mret ());;
      free_strings clear strs (S i) n'
  end.

Definition json_release (p : Z) : M J () :=
  if decide (p = 0) then mret () else json_op (λ j, ((), json_decref p j)).

Definition neu_free_dvalue (dv : neu_dvalue_t) : M J neu_dvalue_t :=
  let v := dv_value dv in
  let with_null := {| dv_type := dv_type dv; dv_value := set_arr_ptr 0 v;
                      dv_precision := dv_precision dv; dv_attrs := dv_attrs dv |} in
  if is_num_array (dv_type dv) then
    if decide (arr_ptr v = 0) then mret dv
    else free (arr_ptr v);; mret with_null
  else if decide (dv_type dv = NEU_TYPE_ARRAY_STRING) then
    if decide (arr_ptr v = 0) then mret dv
    else free_strings false (arr_ptr v) 0 (Z.to_nat (arr_length v));;
         free (arr_ptr v);; mret with_null
  else if decide (dv_type dv = NEU_TYPE_CUSTOM) then json_release (json_ptr v);; mret dv
  else mret dv.

Fixpoint free_metas (ms : list neu_tag_meta_t) : M J () :=
  match ms with
  | [] => mret ()
  | m :: ms' => neu_free_dvalue (meta_value m);; free_metas ms'
  end.

(** The chain of type tests that releases what a cached value owns: in
    [neu_driver_cache_del], in [neu_driver_cache_destroy], and when an error
    replaces the value. *)
Definition release_value (ev : neu_dvalue_t) : M J () :=
  let v := dv_value ev in
  match dv_type ev with
  | NEU_TYPE_PTR => free (ptr_ptr v)
  | NEU_TYPE_CUSTOM => json_release (json_ptr v)
  | NEU_TYPE_ARRAY_STRING =>
      free_strings true (arr_ptr v) 0 (Z.to_nat (arr_length v));; free (arr_ptr v)
  | t => if is_num_array t then free (arr_ptr v) else mret ()
  end.

(** What happens to an element that has left the table. *)
Definition free_elem (e : elem) : M J () := release_value (value e);; free_metas (metas e).

Definition neu_driver_cache_del (c : neu_driver_cache_t) (group tag : string)
    : M J neu_driver_cache_t :=
  let k := to_key group tag in
  match hash_find key k (table c) with
  | None => mret c
  | Some e => free_elem e;; mret (set_table (hash_del key k (table c)) c)
  end.

Fixpoint free_table (t : list elem) : M J () :=
  match t with
  | [] => mret ()
  | e :: t' => free_elem e;; free_table t'
  end.

Definition neu_driver_cache_destroy (c : neu_driver_cache_t) : M J () := free_table (table c).

(** ** Updating *)

(** [memcmp (p, q, n) != 0] *)
Definition memcmp_ne (p q : Z) (n : nat) : M J bool :=
  a ← load p 0 n; b ← load q 0 n; mret (bool_decide (a ≠ b)).

(** Lengths first, then the elements. *)
Definition array_ne (size : nat) (old new : neu_value_u) : M J bool :=
  if decide (arr_length old ≠ arr_length new) then mret true
  else memcmp_ne (arr_ptr old) (arr_ptr new) (Z.to_nat (arr_length new) * size).

Definition float_ne (distance : spec_float → spec_float → spec_float) (precision : Z)
    (old new : spec_float) : bool :=
  if decide (precision = 0) then negb (SFeqb old new)
  else SFltb (pow01 precision) (distance old new).

(** The [switch] that compares the value to store with an earlier one; it occurs
    twice, for the cached value and, when errors are filtered, for the value
    before the error. *)
Definition value_ne (on_error : bool) (old : neu_value_u) (precision : Z) (new : neu_dvalue_t)
    : M J bool :=
  let v := dv_value new in
  match dv_type new with
  | NEU_TYPE_INT8 | NEU_TYPE_UINT8 | NEU_TYPE_INT16 | NEU_TYPE_UINT16 | NEU_TYPE_INT32
  | NEU_TYPE_UINT32 | NEU_TYPE_INT64 | NEU_TYPE_UINT64 | NEU_TYPE_BIT | NEU_TYPE_BOOL
  | NEU_TYPE_STRING | NEU_TYPE_TIME | NEU_TYPE_DATA_AND_TIME | NEU_TYPE_WORD
  | NEU_TYPE_DWORD | NEU_TYPE_LWORD | NEU_TYPE_ARRAY_CHAR => mret (bool_decide (old ≠ v))
  | NEU_TYPE_BYTES =>
      if decide (bytes_length old ≠ bytes_length v) then mret true
      else let n := Z.to_nat (bytes_length v) in
           mret (bool_decide (mem_read 0 n old ≠ mem_read 0 n v))
  | NEU_TYPE_ARRAY_BOOL | NEU_TYPE_ARRAY_INT8 | NEU_TYPE_ARRAY_UINT8 => array_ne 1 old v
  | NEU_TYPE_ARRAY_INT16 | NEU_TYPE_ARRAY_UINT16 => array_ne 2 old v
  | NEU_TYPE_ARRAY_INT32 | NEU_TYPE_ARRAY_UINT32 | NEU_TYPE_ARRAY_FLOAT => array_ne 4 old v
  | NEU_TYPE_ARRAY_INT64 | NEU_TYPE_ARRAY_UINT64 | NEU_TYPE_ARRAY_DOUBLE
  | NEU_TYPE_ARRAY_STRING => array_ne 8 old v
  | NEU_TYPE_CUSTOM => json_op (λ j, (negb (json_equal j (json_ptr old) (json_ptr v)), j))
  | NEU_TYPE_PTR =>
      if decide (ptr_length old ≠ ptr_length v) then mret true
      else memcmp_ne (ptr_ptr old) (ptr_ptr v) (Z.to_nat (ptr_length v))
  | NEU_TYPE_FLOAT => mret (float_ne f32_distance precision (f32_of old) (f32_of v))
  | NEU_TYPE_DOUBLE => mret (float_ne d64_distance precision (d64_of old) (d64_of v))
  | NEU_TYPE_ERROR => mret on_error
  end.

Definition recovered_ne (e : elem) (v : neu_dvalue_t) : M J bool :=
  value_ne false (old_value e) (old_precision e) v.
Definition cached_ne (e : elem) (v : neu_dvalue_t) : M J bool :=
  value_ne true (dv_value (value e)) (dv_precision (value e)) v.

(** The quality of the previous sample against the quality of the new one. *)
Definition quality_ne (e : elem) (v : neu_dvalue_t) : bool :=
  let previous := if sub_filter_err && bool_decide (dv_type (value e) = NEU_TYPE_ERROR)
                  then old_attrs e else dv_attrs (value e) in
  negb (eqb (has_quality previous) (has_quality (dv_attrs v))) ||
  (has_quality (dv_attrs v) && negb (at_quality previous =? at_quality (dv_attrs v))).

(** The new content of [elem->value.value]. *)
Definition store_value (ev : neu_dvalue_t) (nv : neu_dvalue_t) : M J neu_value_u :=
  let v := dv_value nv in
  match dv_type nv with
  | NEU_TYPE_PTR =>
      let w := set_ptr_type (ptr_type v) (set_ptr_length (ptr_length v) (dv_value ev)) in
      free (ptr_ptr w);;
      p ← copy_block (ptr_ptr v) (Z.to_nat (ptr_length v)) (Z.to_nat (ptr_length v));
      mret (set_ptr_ptr p w)
  | NEU_TYPE_CUSTOM =>
      (if decide (dv_type ev = NEU_TYPE_CUSTOM) then json_release (json_ptr (dv_value ev))
       else mret ());;
      mret (set_json_ptr (json_ptr v) (dv_value ev))
  | NEU_TYPE_ARRAY_STRING =>
      (if decide (dv_type ev = NEU_TYPE_ARRAY_STRING)
       then free_strings true (arr_ptr (dv_value ev)) 0 (Z.to_nat (arr_length (dv_value ev)));;
            free (arr_ptr (dv_value ev))
       else mret ());;
      mret (set_arr_ptr (arr_ptr v) (set_arr_length (arr_length v) (dv_value ev)))
  | NEU_TYPE_ERROR => release_value ev;; mret v
  | t =>
      if is_num_array t then
        (if is_num_array (dv_type ev) then free (arr_ptr (dv_value ev)) else mret ());;
        mret (set_arr_ptr (arr_ptr v) (set_arr_length (arr_length v) (dv_value ev)))
      else mret v
  end.

(** The metas to keep and the caller's array afterwards: a meta of array type is
    released and an empty entry takes its place. *)
Fixpoint store_metas (ms : list neu_tag_meta_t) : M J (list neu_tag_meta_t * list neu_tag_meta_t) :=
  match ms with
  | [] => mret ([], [])
  | m :: ms' =>
      '(kept, caller) ←
         (if neu_dvalue_is_array (meta_value m)
          then dv ← neu_free_dvalue (meta_value m);
               mret ({| meta_name := EmptyString;
                        meta_value := {| dv_type := NEU_TYPE_INT8; dv_value := value_zero;
                                         dv_precision := 0; dv_attrs := attrs_zero |} |},
                     {| meta_name := meta_name m; meta_value := dv |})
          else mret (m, m));
      '(kepts, callers) ← store_metas ms';
      mret (kept :: kepts, caller :: callers)
  end.

Definition normalize_attrs (a : neu_tag_sample_attrs_t) : neu_tag_sample_attrs_t :=
  {| at_timestamp := if has_timestamp a then at_timestamp a else 0;
     at_quality := if has_quality a then at_quality a else 0;
     has_timestamp := has_timestamp a; has_quality := has_quality a |}.

(** Whether the sample is a change against the cached one; [None] is the jump
    to [error_not_report]. *)
Definition detect_change (e : elem) (v : neu_dvalue_t) : M J (option bool) :=
  if sub_filter_err && bool_decide (dv_type v = NEU_TYPE_ERROR) then mret None
  else
    let same := bool_decide (dv_type (value e) = dv_type v) in
    let was_error := bool_decide (dv_type (value e) = NEU_TYPE_ERROR) in
    ne ← (if (negb sub_filter_err && negb same) ||
             (sub_filter_err && negb same && negb was_error) then mret true
          else if sub_filter_err && negb same && was_error then recovered_ne e v
          else cached_ne e v);
    mret (Some (ne || quality_ne e v)).

Definition elem_update (e : elem) (ts : Z) (v : neu_dvalue_t) (ms : list neu_tag_meta_t)
    (change : bool) : M J (bool * elem * list neu_tag_meta_t) :=
  tag_changed ← detect_change e v;
  w ← store_value (value e) v;
  '(kept, caller) ← store_metas ms;
  let keep_old := match tag_changed with
                  | Some _ => sub_filter_err && bool_decide (dv_type v ≠ NEU_TYPE_ERROR)
                  | None => false
                  end in
  let tag_changed := default false tag_changed in
  mret (tag_changed,
        {| timestamp := ts;
           changed := changed e || tag_changed || change;
           value := {| dv_type := dv_type v; dv_value := w;
                       dv_precision := dv_precision (value e); dv_attrs := dv_attrs v |};
           old_value := if keep_old then dv_value v else old_value e;
           old_precision := if keep_old then dv_precision v else old_precision e;
           old_attrs := if keep_old then dv_attrs v else old_attrs e;
           metas := if decide (ms = []) then metas e else kept;
           key := key e |},
        caller).

Definition neu_driver_cache_update_change (c : neu_driver_cache_t) (group tag : string) (ts : Z)
    (v : neu_dvalue_t) (ms : list neu_tag_meta_t) (change : bool)
    : M J (bool * neu_driver_cache_t * list neu_tag_meta_t) :=
  let k := to_key group tag in
  let v := {| dv_type := dv_type v; dv_value := dv_value v; dv_precision := dv_precision v;
              dv_attrs := normalize_attrs (dv_attrs v) |} in
  match hash_find key k (table c) with
  | None => mret (false, c, ms)
  | Some e =>
      '(tag_changed, e', caller) ← elem_update e ts v ms change;
      mret (tag_changed, set_table (hash_update key k (λ _, e') (table c)) c, caller)
  end.

Definition neu_driver_cache_update (c : neu_driver_cache_t) (group tag : string) (ts : Z)
    (v : neu_dvalue_t) (ms : list neu_tag_meta_t) : M J (neu_driver_cache_t * list neu_tag_meta_t) :=
  '(_, c', caller) ← neu_driver_cache_update_change c group tag ts v ms false;
  mret (c', caller).

(** ** Reading *)

(** [strs\[i\] = strdup (src\[i\])] for [n] strings from index [i] on. *)
Fixpoint dup_strings (dst src : Z) (i n : nat) : M J () :=
  match n with
  | O => mret ()
  | S n' =>
      bs ← load src (8 * i) 8;
      q ← strdup (le_load bs);
      store dst (8 * i) (le_store 8 q);;
      dup_strings dst src (S i) n'
  end.

(** The [switch] that copies the cached value out; [dst] is the union the caller
    provides. *)
Definition copy_value (ev : neu_dvalue_t) (dst : neu_value_u) : M J neu_value_u :=
  let v := dv_value ev in
  match dv_type ev with
  | NEU_TYPE_INT8 | NEU_TYPE_UINT8 | NEU_TYPE_BIT => mret (set_u8 (val_u8 v) dst)
  | NEU_TYPE_INT16 | NEU_TYPE_UINT16 | NEU_TYPE_WORD => mret (set_u16 (val_u16 v) dst)
  | NEU_TYPE_INT32 | NEU_TYPE_UINT32 | NEU_TYPE_DWORD | NEU_TYPE_FLOAT | NEU_TYPE_ERROR =>
      mret (set_u32 (val_u32 v) dst)
  | NEU_TYPE_INT64 | NEU_TYPE_UINT64 | NEU_TYPE_DOUBLE | NEU_TYPE_LWORD =>
      mret (set_u64 (val_u64 v) dst)
  | NEU_TYPE_BOOL => mret (set_u8 (val_u8 v) dst)
  | NEU_TYPE_STRING | NEU_TYPE_TIME | NEU_TYPE_DATA_AND_TIME | NEU_TYPE_ARRAY_CHAR =>
      mret (mem_write 0 (mem_read 0 NEU_VALUE_SIZE v) dst)
  | NEU_TYPE_BYTES =>
      mret (mem_write 0 (mem_read 0 (Z.to_nat (bytes_length v)) v)
              (set_bytes_length (bytes_length v) dst))
  | NEU_TYPE_ARRAY_STRING =>
      p ← calloc (Z.to_nat (arr_length v) * 8);
      dup_strings p (arr_ptr v) 0 (Z.to_nat (arr_length v));;
      mret (set_arr_ptr p (set_arr_length (arr_length v) dst))
  | NEU_TYPE_PTR =>
      p ← copy_block (ptr_ptr v) (Z.to_nat (ptr_length v)) (Z.to_nat (ptr_length v));
      mret (set_ptr_ptr p (set_ptr_type (ptr_type v) (set_ptr_length (ptr_length v) dst)))
  | NEU_TYPE_CUSTOM =>
      p ← json_op (json_deep_copy (json_ptr v));
      mret (set_json_ptr p dst)
  | t =>
      let n := (Z.to_nat (arr_length v) * array_elem_size t)%nat in
      p ← copy_block (arr_ptr v) n n;
      mret (set_arr_ptr p (set_arr_length (arr_length v) dst))
  end.

Definition read_elem (e : elem) (dst : neu_driver_cache_value_t) : M J neu_driver_cache_value_t :=
  w ← copy_value (value e) (dv_value (cv_value dst));
  mret {| cv_timestamp := timestamp e;
          cv_value := {| dv_type := dv_type (value e); dv_value := w;
                         dv_precision := dv_precision (value e); dv_attrs := dv_attrs (value e) |} |}.

(** The result is [None] when the function returns -1. *)
Definition neu_driver_cache_meta_get (c : neu_driver_cache_t) (group tag : string)
    (dst : neu_driver_cache_value_t)
    : M J (option (neu_driver_cache_value_t * list neu_tag_meta_t)) :=
  match hash_find key (to_key group tag) (table c) with
  | None => mret None
  | Some e => cv ← read_elem e dst; mret (Some (cv, metas e))
  end.

Definition with_changed (b : bool) (e : elem) : elem :=
  {| timestamp := timestamp e; changed := b; value := value e; old_value := old_value e;
     old_precision := old_precision e; old_attrs := old_attrs e; metas := metas e; key := key e |}.

Definition neu_driver_cache_meta_get_changed (c : neu_driver_cache_t) (group tag : string)
    (dst : neu_driver_cache_value_t)
    : M J (option (neu_driver_cache_value_t * list neu_tag_meta_t) * neu_driver_cache_t) :=
  let k := to_key group tag in
  match hash_find key k (table c) with
  | None => mret (None, c)
  | Some e =>
      if changed e then
        cv ← read_elem e dst;
        let e' := if decide (dv_type (value e) ≠ NEU_TYPE_ERROR)
                  then with_changed false e else e in
        mret (Some (cv, metas e), set_table (hash_update key k (λ _, e') (table c)) c)
      else mret (None, c)
  end.
End Cache.
