(* ===== verification/CacheValue.v ===== *)
(** * Values in memory

    The memory a cached value owns and the content it stands for, and what
    releasing, storing and copying a value (the functions of [DriverCache.v])
    do to the heap.  [DriverCacheOk.v] builds the invariant of the cache on
    these lemmas. *)

From Stdlib Require Import SpecFloat.
From S2P Require Import Prelude UtHash NeuTypes CHeap DriverCache.

(** ** Reading a union that has been written *)

Definition union_ok (v : neu_value_u) : Prop := length v = 264%nat ∧ bytes_ok v.

Lemma union_ok_write off src v :
  union_ok v → bytes_ok src → (off + length src <= 264)%nat → union_ok (mem_write off src v).
Proof.
  intros [Hl Hb] Hs Ho. split; [|by apply mem_write_ok].
  rewrite length_mem_write; lia.
Qed.

Lemma union_ok_store off n z v :
  union_ok v → (off + n <= 264)%nat → union_ok (mem_write off (le_store n z) v).
Proof.
  intros. apply union_ok_write; [done|apply le_store_ok|by rewrite length_le_store].
Qed.

(** A read that does not meet a write. *)
Lemma mem_read_write_after off src b off' n :
  (off + length src <= off')%nat → (off + length src <= length b)%nat →
  mem_read off' n (mem_write off src b) = mem_read off' n b.
Proof.
  intros H1 H2. unfold mem_read, mem_write.
  rewrite drop_app_ge, drop_app_ge by (rewrite length_take; lia).
  rewrite length_take_le, drop_drop by lia. do 2 f_equal. lia.
Qed.

Lemma mem_read_write_before off src b off' n :
  (off' + n <= off)%nat → (off <= length b)%nat →
  mem_read off' n (mem_write off src b) = mem_read off' n b.
Proof.
  intros H1 H2. unfold mem_read, mem_write.
  rewrite drop_app_le by (rewrite length_take; lia).
  rewrite take_app_le by (rewrite length_drop, length_take; lia).
  rewrite !take_drop_commute, take_take. do 2 f_equal. lia.
Qed.

Lemma mem_read_store off n z v :
  (off + n <= length v)%nat → le_load (mem_read off n (mem_write off (le_store n z) v))
    = z mod 256 ^ Z.of_nat n.
Proof.
  intros. rewrite <-(length_le_store n z) at 1.
  rewrite mem_read_write by by rewrite length_le_store. apply le_load_store.
Qed.

Lemma read_range off n v :
  union_ok v → (off + n <= 264)%nat → 0 <= le_load (mem_read off n v) < 256 ^ Z.of_nat n.
Proof.
  intros [Hl Hb] Ho. pose proof (le_load_range _ (mem_read_ok off n v Hb)) as Hr.
  by rewrite length_mem_read in Hr by lia.
Qed.

(** Lengths of nested writes, and reads of nested writes. *)
Ltac ulen :=
  rewrite ?length_le_store;
  first [lia | rewrite length_mem_write; [ulen|ulen]].

Ltac union :=
  repeat match goal with
  | |- context [mem_read ?o ?n (mem_write ?o' (le_store ?m ?z) ?v)] =>
      first
        [ constr_eq o o'; constr_eq n m; rewrite (mem_read_store o n z v) by ulen
        | rewrite (mem_read_write_after o' (le_store m z) v o n) by ulen
        | rewrite (mem_read_write_before o' (le_store m z) v o n) by ulen ]
  end.

(** The fields of an array written by [set_arr_ptr] and [set_arr_length]. *)
Lemma arr_fields p n v :
  union_ok v → 0 <= p < 2 ^ 64 → 0 <= n < 2 ^ 32 →
  arr_ptr (set_arr_ptr p (set_arr_length n v)) = p ∧
  arr_length (set_arr_ptr p (set_arr_length n v)) = n ∧
  union_ok (set_arr_ptr p (set_arr_length n v)).
Proof.
  intros Hv Hp Hn. unfold arr_ptr, arr_length, set_arr_ptr, set_arr_length.
  assert (length v = 264%nat) by apply Hv. split_and!.
  - union. apply Z.mod_small. lia.
  - union. apply Z.mod_small. lia.
  - apply union_ok_store; [apply union_ok_store; [done|lia]|lia].
Qed.

Lemma ptr_fields p t n v :
  union_ok v → 0 <= p < 2 ^ 64 → 0 <= t < 2 ^ 32 → 0 <= n < 2 ^ 16 →
  let w := set_ptr_ptr p (set_ptr_type t (set_ptr_length n v)) in
  ptr_ptr w = p ∧ ptr_type w = t ∧ ptr_length w = n ∧ union_ok w.
Proof.
  intros Hv Hp Ht Hn w. subst w. assert (length v = 264%nat) by apply Hv.
  unfold ptr_ptr, ptr_type, ptr_length, set_ptr_ptr, set_ptr_type, set_ptr_length.
  split_and!; [union; apply Z.mod_small; lia..|].
  repeat (apply union_ok_store; [|lia]). done.
Qed.

(** The pointer of the old value is still in place when the type and the length
    have been written. *)
Lemma ptr_ptr_keep t n v :
  union_ok v → ptr_ptr (set_ptr_type t (set_ptr_length n v)) = ptr_ptr v.
Proof.
  intros Hv. assert (length v = 264%nat) by apply Hv.
  unfold ptr_ptr, set_ptr_type, set_ptr_length. by union.
Qed.

Lemma union_ok_ptr_fields t n v :
  union_ok v → union_ok (set_ptr_type t (set_ptr_length n v)).
Proof. intros. by repeat (apply union_ok_store; [|lia]). Qed.

#[local] Hint Resolve union_ok_store union_ok_ptr_fields : neuron.

(** ** Ownership and content *)

(** The bytes a value of fixed size occupies in the union. *)
Definition plain_size (t : neu_type_e) : nat :=
  match t with
  | NEU_TYPE_INT8 | NEU_TYPE_UINT8 | NEU_TYPE_BIT | NEU_TYPE_BOOL => 1
  | NEU_TYPE_INT16 | NEU_TYPE_UINT16 | NEU_TYPE_WORD => 2
  | NEU_TYPE_INT32 | NEU_TYPE_UINT32 | NEU_TYPE_DWORD | NEU_TYPE_FLOAT | NEU_TYPE_ERROR => 4
  | NEU_TYPE_INT64 | NEU_TYPE_UINT64 | NEU_TYPE_DOUBLE | NEU_TYPE_LWORD => 8
  | _ => 256
  end.

(** Values that are stored by pointer. *)
Definition by_pointer (t : neu_type_e) : bool :=
  is_num_array t || bool_decide (t ∈ [NEU_TYPE_ARRAY_STRING; NEU_TYPE_PTR; NEU_TYPE_CUSTOM]).

Inductive content :=
  | CBytes (b : list Z)
  | CArray (b : list Z)
  | CStrings (ss : list (list Z))
  | CPtr (t : Z) (b : list Z)
  | CJson (handle : Z).

#[export] Instance content_eq_dec : EqDecision content.
Proof. solve_decision. Defined.

Section Ownership.
Context {J : Type}.
Implicit Types (h : mem J) (v : neu_value_u) (t : neu_type_e).

(** The [n] pointers of an array of strings from index [i] on. *)
Fixpoint load_ptrs (p : Z) (i n : nat) h : option (list Z) :=
  match n with
  | O => Some []
  | S n' =>
      bs ← load_bytes p (8 * i) 8 h;
      qs ← load_ptrs p (S i) n' h;
      Some (le_load bs :: qs)
  end.

Definition array_size t v : nat := Z.to_nat (arr_length v) * array_elem_size t.

Definition content_of h t v : option content :=
  if is_num_array t then CArray <$> load_bytes (arr_ptr v) 0 (array_size t v) h
  else match t with
       | NEU_TYPE_ARRAY_STRING =>
           qs ← load_ptrs (arr_ptr v) 0 (Z.to_nat (arr_length v)) h;
           CStrings <$> mapM (λ q, load_str q h) qs
       | NEU_TYPE_PTR =>
           CPtr (ptr_type v) <$> load_bytes (ptr_ptr v) 0 (Z.to_nat (ptr_length v)) h
       | NEU_TYPE_CUSTOM => Some (CJson (json_ptr v))
       | NEU_TYPE_BYTES => Some (CBytes (mem_read 0 (Z.to_nat (bytes_length v)) v))
       | _ => Some (CBytes (mem_read 0 (plain_size t) v))
       end.

Definition nonnull (p : Z) : list Z := if decide (p = 0) then [] else [p].

(** The blocks a value owns. *)
Definition owned h t v : list Z :=
  if is_num_array t then nonnull (arr_ptr v)
  else match t with
       | NEU_TYPE_ARRAY_STRING =>
           nonnull (arr_ptr v) ++
           default [] (load_ptrs (arr_ptr v) 0 (Z.to_nat (arr_length v)) h)
       | NEU_TYPE_PTR => nonnull (ptr_ptr v)
       | _ => []
       end.

(** A value is well-formed when what it points to is there, it owns no block
    twice, and the error code of an error fills its union. *)
Record value_ok h t v : Prop := {
  value_union : union_ok v;
  value_content : is_Some (content_of h t v);
  value_live : Forall (λ p, is_Some (hp_blocks h !! p)) (owned h t v);
  value_nodup : NoDup (owned h t v);
  value_error : t = NEU_TYPE_ERROR → ptr_ptr v = 0;
}.

Lemma load_ptrs_block p i n h h' :
  hp_blocks h' !! p = hp_blocks h !! p → load_ptrs p i n h' = load_ptrs p i n h.
Proof.
  intros E. revert i. induction n as [|n IH]; intros i; [done|]. cbn [load_ptrs].
  by rewrite IH, (load_bytes_block _ _ _ _ _ E).
Qed.

Lemma heap_ok_null h : heap_ok h → hp_blocks h !! 0 = None.
Proof. intros Hok. apply eq_None_not_Some. intros ?%heap_ok_live; [lia|done]. Qed.

Lemma elem_of_nonnull p q : p ∈ nonnull q ↔ p = q ∧ q ≠ 0.
Proof. unfold nonnull. case_decide; set_solver. Qed.

(** Two heaps that agree on the blocks a value owns agree on the value. *)
Section Agree.
Context (h h' : mem J) (t : neu_type_e) (v : neu_value_u).
Context (Hok : heap_ok h) (Hok' : heap_ok h').
Context (Hagree : ∀ p, p ∈ owned h t v → hp_blocks h' !! p = hp_blocks h !! p).

Lemma agree_nonnull p :
  (p ≠ 0 → p ∈ owned h t v) → hp_blocks h' !! p = hp_blocks h !! p.
Proof.
  intros Hp. destruct (decide (p = 0)) as [->|?]; [by rewrite !heap_ok_null|].
  by apply Hagree, Hp.
Qed.

Lemma owned_agree : owned h' t v = owned h t v.
Proof.
  pose proof agree_nonnull as Hnn. unfold owned. destruct (is_num_array t) eqn:Hn; [done|].
  destruct t; try done. rewrite (load_ptrs_block _ _ _ h h'); [done|].
  apply Hnn. intros Hne. unfold owned. rewrite Hn.
  apply elem_of_app. left. by apply elem_of_nonnull.
Qed.

Lemma content_agree : content_of h' t v = content_of h t v.
Proof.
  pose proof agree_nonnull as Hnn. pose proof Hagree as Ha. unfold content_of. destruct (is_num_array t) eqn:Hn.
  - rewrite (load_bytes_block _ _ _ h h'); [done|]. apply Hnn. intros Hne.
    unfold owned. rewrite Hn. by apply elem_of_nonnull.
  - destruct t; try done.
    + rewrite (load_bytes_block _ _ _ h h'); [done|]. apply Hnn. intros Hne.
      unfold owned. rewrite Hn. by apply elem_of_nonnull.
    + assert (Hp : hp_blocks h' !! arr_ptr v = hp_blocks h !! arr_ptr v).
      { apply Hnn. intros Hne. unfold owned. rewrite Hn.
        apply elem_of_app. left. by apply elem_of_nonnull. }
      rewrite (load_ptrs_block _ _ _ h h') by done.
      destruct (load_ptrs (arr_ptr v) 0 (Z.to_nat (arr_length v)) h) as [qs|] eqn:Hl; [|done].
      cbn. f_equal.
      assert (Hqs : ∀ q, q ∈ qs → load_str q h' = load_str q h).
      { intros q Hq. apply load_str_block, Ha. unfold owned. rewrite Hn, Hl.
        apply elem_of_app. by right. }
      clear Hl. induction qs as [|q qs IH]; [done|]. cbn. rewrite Hqs by set_solver.
      rewrite IH; [done|]. intros. apply Hqs. set_solver.
Qed.

Lemma value_ok_agree : value_ok h t v → value_ok h' t v.
Proof.
  intros [Hu Hc Hl Hn He]. split; rewrite ?owned_agree, ?content_agree; [done..| |done|done].
  rewrite Forall_forall in Hl |- *. intros p Hp. rewrite Hagree by done. by apply Hl.
Qed.
End Agree.

(** The frame version: an operation that only touches [X] keeps the values that
    own nothing in [X]. *)
Lemma frame_agree X h h' t v :
  heap_ok h → frame X h h' → value_ok h t v → (∀ p, p ∈ owned h t v → p ∉ X) →
  ∀ p, p ∈ owned h t v → hp_blocks h' !! p = hp_blocks h !! p.
Proof.
  intros Hok [Hn Hf] Hv HX p Hp. apply Hf; [|by apply HX].
  apply (heap_ok_live h); [done|]. pose proof (value_live _ _ _ Hv) as Hl.
  rewrite Forall_forall in Hl. by apply Hl.
Qed.
End Ownership.

(** ** Releasing *)

Section Release.
Context {J : Type} `{Jansson J}.
Implicit Types (h : mem J).

(** Exactly the blocks of [X] are gone. *)
Definition released (X : list Z) h h' : Prop :=
  hp_next h' = hp_next h ∧
  ∀ p, hp_blocks h' !! p = if decide (p ∈ X) then None else hp_blocks h !! p.

Lemma released_nil h h' :
  hp_next h' = hp_next h → hp_blocks h' = hp_blocks h → released [] h h'.
Proof.
  intros Hn Hb. split; [done|]. intros p. rewrite decide_False by set_solver. by rewrite Hb.
Qed.

Lemma released_frame X h h' : released X h h' → frame X h h'.
Proof. intros [Hn Hb]. split; [lia|]. intros p _ Hp. by rewrite Hb, decide_False. Qed.

Lemma released_ok X h h' : released X h h' → heap_ok h → heap_ok h'.
Proof.
  intros [Hn Hb] [Hr Hl]. split; [by rewrite Hn|]. intros p b. rewrite Hb, Hn.
  destruct (decide (p ∈ X)); [done|]. apply Hl.
Qed.

Lemma released_trans X Y h1 h2 h3 :
  released X h1 h2 → released Y h2 h3 → released (X ++ Y) h1 h3.
Proof.
  intros [Hn1 H1] [Hn2 H2]. split; [lia|]. intros p. rewrite H2, H1.
  destruct (decide (p ∈ X)), (decide (p ∈ Y)), (decide (p ∈ X ++ Y)) as [Ha|Ha];
    rewrite elem_of_app in Ha; naive_solver.
Qed.

Lemma released_perm X Y h h' : (∀ p, p ∈ X ↔ p ∈ Y) → released X h h' → released Y h h'.
Proof.
  intros HXY [Hn Hb]. split; [done|]. intros p. rewrite Hb.
  destruct (decide (p ∈ X)), (decide (p ∈ Y)); naive_solver.
Qed.

Lemma runs_free_released p h (Q : () → mem J → Prop) :
  Forall (λ q, is_Some (hp_blocks h !! q)) (nonnull p) →
  (∀ h', released (nonnull p) h h' → Q () h') → runs (free p) h Q.
Proof.
  unfold nonnull. destruct (decide (p = 0)) as [->|Hp]; intros Hl HQ; apply runs_free.
  - by left.
  - rewrite decide_True by done. by apply HQ, released_nil.
  - right. by rewrite Forall_singleton in Hl.
  - rewrite decide_False by done. apply HQ. split; [done|]. intros q. simpl. destruct (decide (q ∈ [p])) as [Hq|Hq].
    + apply list_elem_of_singleton in Hq as ->. apply lookup_delete_eq.
    + apply lookup_delete_ne. set_solver.
Qed.

Lemma runs_json_release p h (Q : () → mem J → Prop) :
  (∀ h', released [] h h' → Q () h') → runs (json_release p) h Q.
Proof.
  intros HQ. unfold json_release. destruct (decide (p = 0)).
  - apply runs_ret, HQ. by apply released_nil.
  - apply runs_json, HQ. by apply released_nil.
Qed.

Lemma load_ptrs_length p i n h qs : load_ptrs p i n h = Some qs → length qs = n.
Proof.
  revert i qs. induction n as [|n IH]; intros i qs; [by intros [= <-]|]. cbn [load_ptrs].
  intros (bs & _ & (qs' & Hq & [= <-])%bind_Some)%bind_Some. simpl. by rewrite (IH _ _ Hq).
Qed.

(** Writing in front of the slots that remain does not change them. *)
Lemma load_ptrs_write p i n h j src b :
  hp_blocks h !! p = Some b → (8 * j + length src <= 8 * i)%nat →
  (8 * j + length src <= length b)%nat →
  load_ptrs p i n (set_blocks (<[p := mem_write (8 * j) src b]> (hp_blocks h)) h) =
  load_ptrs p i n h.
Proof.
  intros Hb H1 H2. revert i H1. induction n as [|n IH]; intros i H1; [done|].
  cbn [load_ptrs]. rewrite IH by lia. f_equal.
  unfold load_bytes. simpl. rewrite lookup_insert_eq, Hb. cbn.
  rewrite length_mem_write by done. rewrite mem_read_write_after by lia. done.
Qed.

(** The loop over the strings releases them and leaves the array itself. *)
Lemma runs_free_strings clear p n : ∀ i h qs (Q : () → mem J → Prop),
  heap_ok h → load_ptrs p i n h = Some qs → NoDup qs → p ∉ qs →
  Forall (λ q, is_Some (hp_blocks h !! q)) qs →
  (∀ h', hp_next h' = hp_next h →
     (∀ q, q ≠ p → hp_blocks h' !! q = if decide (q ∈ qs) then None else hp_blocks h !! q) →
     (is_Some (hp_blocks h !! p) → is_Some (hp_blocks h' !! p)) →
     (hp_blocks h !! p = None → hp_blocks h' !! p = None) → Q () h') →
  runs (free_strings clear p i n) h Q.
Proof.
  induction n as [|n IH]; intros i h qs Q Hok Hl Hnd Hp Hlive HQ; cbn [free_strings].
  { injection Hl as <-. apply runs_ret, HQ; [done| |done|done].
    intros q Hq. by rewrite decide_False by set_solver. }
  apply bind_Some in Hl as (bs & Hbs & (qs' & Hqs & [= <-])%bind_Some).
  set (q := le_load bs) in *. apply NoDup_cons in Hnd as [Hq Hnd].
  apply Forall_cons in Hlive as [[c Hc] Hlive].
  assert (Hb : ∃ b, hp_blocks h !! p = Some b ∧ (8 * i + 8 <= length b)%nat).
  { unfold load_bytes in Hbs. rewrite decide_False in Hbs by done.
    apply bind_Some in Hbs as (b & ? & Hbs). exists b. split; [done|].
    by destruct (decide (8 * i + 8 <= length b)%nat). }
  destruct Hb as (b & Hb & Hlen).
  apply runs_bind. eapply runs_load; [exact Hbs|]. apply runs_bind. fold q.
  assert (Hq0 : q ≠ 0) by (intros ->; by rewrite heap_ok_null in Hc).
  apply runs_free_released.
  { unfold nonnull. rewrite decide_False by done. apply Forall_singleton. eauto. }
  intros h1 Hr. assert (Hok1 : heap_ok h1) by by eapply released_ok.
  destruct Hr as [Hn1 Hr]. unfold nonnull in Hr. rewrite decide_False in Hr by done.
  assert (Hp1 : hp_blocks h1 !! p = Some b) by (rewrite Hr, decide_False; set_solver).
  set (h2 := if clear
             then set_blocks (<[p := mem_write (8 * i) (le_store 8 0) b]> (hp_blocks h1)) h1
             else h1).
  assert (Hl2 : load_ptrs p (S i) n h2 = Some qs').
  { rewrite <-Hqs. trans (load_ptrs p (S i) n h1).
    - subst h2. destruct clear; [|done]. apply load_ptrs_write; [done| |];
        rewrite length_le_store; lia.
    - apply load_ptrs_block. by rewrite Hp1, Hb. }
  assert (Hb2 : ∀ x, x ≠ p → hp_blocks h2 !! x = hp_blocks h1 !! x).
  { intros x Hx. subst h2. destruct clear; [|done]. simpl. by apply lookup_insert_ne. }
  assert (Hp2 : is_Some (hp_blocks h2 !! p)).
  { subst h2. destruct clear; simpl; [rewrite lookup_insert_eq|rewrite Hp1]; eauto. }
  assert (Hok2 : heap_ok h2).
  { subst h2. destruct clear; [|done]. apply heap_ok_write; eauto. }
  assert (Hn2 : hp_next h2 = hp_next h) by (subst h2; by destruct clear).
  apply runs_bind. assert (Hrun : runs (if clear then store p (8 * i) (le_store 8 0) else mret ())
      h1 (λ _ h', h' = h2)).
  { subst h2. destruct clear; [|by apply runs_ret].
    eapply runs_store; [done|exact Hp1|rewrite length_le_store; lia|done]. }
  eapply runs_mono; [exact Hrun|]. intros _ ? ->. eapply (IH _ _ qs'); [done..|set_solver| |].
  { apply Forall_forall. intros x Hx. rewrite Forall_forall in Hlive.
    rewrite Hb2, Hr, decide_False; [by apply Hlive|set_solver|set_solver]. }
  intros h' Hn' Hblk Hs Hnone. apply HQ; [lia| |intros _; by apply Hs|].
  - intros x Hx. rewrite Hblk by done. rewrite Hb2, Hr by done.
    destruct (decide (x ∈ qs')), (decide (x ∈ [q])), (decide (x ∈ q :: qs')); set_solver.
  - congruence.
Qed.

(** [free_strings] followed by [free] of the array: everything the value owns. *)
Lemma runs_free_string_array clear v h (Q : () → mem J → Prop) :
  heap_ok h → value_ok h NEU_TYPE_ARRAY_STRING v →
  (∀ h', released (owned h NEU_TYPE_ARRAY_STRING v) h h' → Q () h') →
  runs (free_strings clear (arr_ptr v) 0 (Z.to_nat (arr_length v));; free (arr_ptr v)) h Q.
Proof.
  intros Hok [_ Hc Hl Hnd _] HQ. cbn in Hc, Hl, Hnd, HQ.
  destruct (load_ptrs (arr_ptr v) 0 (Z.to_nat (arr_length v)) h) as [qs|] eqn:Hq;
    [|by destruct Hc]. cbn [default] in *. unfold id in *.
  apply NoDup_app in Hnd as (Hnd1 & Hdis & Hnd2). apply Forall_app in Hl as [Hl1 Hl2].
  apply runs_bind. apply (runs_free_strings _ _ _ _ _ qs); [done..| |done|].
  { intros Hin. rewrite Forall_forall in Hl2. pose proof (Hl2 _ Hin) as Hlive.
    apply (Hdis (arr_ptr v)); [|done]. apply elem_of_nonnull. split; [done|].
    intros E. rewrite E, heap_ok_null in Hlive by done. by destruct Hlive. }
  intros h1 Hn1 Hb1 Hs1 Hz1. apply runs_free_released.
  { apply Forall_forall. intros p Hp. apply elem_of_nonnull in Hp as [-> Hp].
    apply Hs1. unfold nonnull in Hl1. rewrite decide_False in Hl1 by done.
    by rewrite Forall_singleton in Hl1. }
  intros h' [Hn' Hb']. apply HQ. split; [lia|]. intros p. rewrite Hb'.
  unfold nonnull in *. destruct (decide (arr_ptr v = 0)) as [E|E].
  - rewrite (decide_False (P := p ∈ [])) by set_solver. cbn [app].
    destruct (decide (p = arr_ptr v)) as [->|Hp]; [|by apply Hb1].
    rewrite E in Hz1 |- *. rewrite Hz1, (heap_ok_null h Hok); [by destruct (decide _)|].
    by apply heap_ok_null.
  - destruct (decide (p ∈ [arr_ptr v])) as [Hp|Hp].
    + by rewrite decide_True by set_solver.
    + rewrite Hb1 by set_solver.
      destruct (decide (p ∈ qs)), (decide (p ∈ [arr_ptr v] ++ qs)); set_solver.
Qed.
End Release.

(** ** Storing a value *)

Section Store.
Context {J : Type} `{Jansson J}.
Implicit Types (h : mem J) (ev nv : neu_dvalue_t).

Definition dv_owned h dv : list Z := owned h (dv_type dv) (dv_value dv).
Definition dv_ok h dv : Prop := value_ok h (dv_type dv) (dv_value dv).

Lemma runs_release_value ev h (Q : () → mem J → Prop) :
  heap_ok h → dv_ok h ev →
  (∀ h', released (dv_owned h ev) h h' → Q () h') → runs (release_value ev) h Q.
Proof.
  unfold dv_ok, dv_owned, release_value. intros Hok Hv HQ.
  pose proof (value_live _ _ _ Hv) as Hl. unfold owned in Hl, HQ.
  destruct (dv_type ev); simpl in Hl, HQ |- *;
    try (apply runs_ret, HQ; by apply released_nil);
    try (by apply runs_free_released); try (by apply runs_json_release).
  by apply runs_free_string_array.
Qed.

(** What storing [nv] over [ev] promises of the memory and the stored union. *)
Record stored h ev nv (w : neu_value_u) h' : Prop := {
  stored_heap : heap_ok h';
  stored_frame : frame (dv_owned h ev) h h';
  stored_ok : value_ok h' (dv_type nv) w;
  stored_content : content_of h' (dv_type nv) w = content_of h (dv_type nv) (dv_value nv);
  stored_owned : ∀ p, p ∈ owned h' (dv_type nv) w → p ∈ dv_owned h nv ∨ hp_next h <= p;
  stored_next : hp_next h' <= hp_next h + 1;
}.

(** Storing by taking over the caller's pointers, after a release. *)
Lemma stored_released X h ev nv w h' :
  heap_ok h → dv_ok h nv → (∀ p, p ∈ dv_owned h nv → p ∉ dv_owned h ev) →
  (∀ p, p ∈ X → p ∈ dv_owned h ev) → released X h h' → union_ok w →
  (∀ g : mem J, content_of g (dv_type nv) w = content_of g (dv_type nv) (dv_value nv)) →
  (∀ g : mem J, owned g (dv_type nv) w = owned g (dv_type nv) (dv_value nv)) →
  (dv_type nv = NEU_TYPE_ERROR → ptr_ptr w = 0) →
  stored h ev nv w h'.
Proof.
  intros Hok Hv Hdis HX Hrel Hw Hc Ho He.
  pose proof (released_ok _ _ _ Hrel Hok) as Hok'. pose proof (released_frame _ _ _ Hrel) as Hf.
  pose proof (frame_agree _ _ _ _ _ Hok Hf Hv
    (λ p Hp Hx, Hdis p Hp (HX p Hx))) as Hag.
  pose proof (value_ok_agree _ _ _ _ Hok Hok' Hag Hv) as [_ Hc' Hl' Hn' _]. split.
  - done.
  - by eapply frame_weaken.
  - split; rewrite ?Hc, ?Ho; done.
  - rewrite Hc. by apply content_agree.
  - intros p. rewrite Ho, (owned_agree h h' _ _ Hok Hok' Hag). by left.
  - destruct Hrel as [-> _]. lia.
Qed.

(** Storing an array: content and ownership only depend on the two fields. *)
Lemma array_fields_content t v w (g : mem J) :
  is_num_array t = true ∨ t = NEU_TYPE_ARRAY_STRING →
  arr_ptr w = arr_ptr v → arr_length w = arr_length v →
  content_of g t w = content_of g t v ∧ owned g t w = owned g t v.
Proof.
  intros Ht Hp Hl. unfold content_of, owned, array_size. rewrite Hp, Hl.
  destruct (is_num_array t); [done|]. destruct Ht as [?| ->]; done.
Qed.

Lemma arr_ptr_range v : union_ok v → 0 <= arr_ptr v < 2 ^ 64.
Proof. intros Hv. apply (read_range 0 8 v Hv). lia. Qed.
Lemma arr_length_range v : union_ok v → 0 <= arr_length v < 2 ^ 32.
Proof. intros Hv. apply (read_range 8 4 v Hv). lia. Qed.
Lemma ptr_ptr_range v : union_ok v → 0 <= ptr_ptr v < 2 ^ 64.
Proof. intros Hv. apply (read_range 8 8 v Hv). lia. Qed.
Lemma ptr_type_range v : union_ok v → 0 <= ptr_type v < 2 ^ 32.
Proof. intros Hv. apply (read_range 0 4 v Hv). lia. Qed.
Lemma ptr_length_range v : union_ok v → 0 <= ptr_length v < 2 ^ 16.
Proof. intros Hv. apply (read_range 4 2 v Hv). lia. Qed.

#[local] Hint Resolve arr_ptr_range arr_length_range ptr_ptr_range ptr_type_range
  ptr_length_range : neuron.

Section Cases.
Context (h : mem J) (ev nv : neu_dvalue_t).
Context (Hok : heap_ok h) (Hev : dv_ok h ev) (Hnv : dv_ok h nv).
Context (Hdis : ∀ p, p ∈ dv_owned h nv → p ∉ dv_owned h ev).

Let w_array := set_arr_ptr (arr_ptr (dv_value nv))
                 (set_arr_length (arr_length (dv_value nv)) (dv_value ev)).

Lemma stored_array X h' :
  is_num_array (dv_type nv) = true ∨ dv_type nv = NEU_TYPE_ARRAY_STRING →
  (∀ p, p ∈ X → p ∈ dv_owned h ev) → released X h h' → stored h ev nv w_array h'.
Proof.
  intros Ht HX Hrel.
  pose proof (value_union _ _ _ Hev) as Hu. pose proof (value_union _ _ _ Hnv) as Hun.
  destruct (arr_fields (arr_ptr (dv_value nv)) (arr_length (dv_value nv)) (dv_value ev))
    as (Hp & Hl & Hw); [auto with neuron..|].
  eapply stored_released; [done..| | |].
  - intros g. by apply array_fields_content.
  - intros g. by apply array_fields_content.
  - intros E. rewrite E in Ht. by destruct Ht.
Qed.

(** A value that owns nothing replaces the union; what the old value owned is
    left alone. *)
Lemma stored_plain : dv_type nv ≠ NEU_TYPE_ERROR → stored h ev nv (dv_value nv) h.
Proof.
  intros. eapply (stored_released []); try done; [set_solver|].
  apply Hnv.
Qed.

Lemma stored_error h' :
  dv_type nv = NEU_TYPE_ERROR → released (dv_owned h ev) h h' →
  stored h ev nv (dv_value nv) h'.
Proof. intros. eapply stored_released; try done; apply Hnv. Qed.

(** A JSON handle is kept in the first eight bytes. *)
Lemma stored_json h' :
  dv_type nv = NEU_TYPE_CUSTOM → released [] h h' →
  stored h ev nv (set_json_ptr (json_ptr (dv_value nv)) (dv_value ev)) h'.
Proof.
  intros Ht Hrel. pose proof (value_union _ _ _ Hev) as Hu.
  pose proof (value_union _ _ _ Hnv) as Hun.
  eapply (stored_released []); try done; [set_solver| | | |by rewrite Ht].
  - apply union_ok_store; [done|lia].
  - intros g. rewrite Ht. cbn. do 2 f_equal. unfold json_ptr at 1, set_json_ptr.
    destruct Hu as [Hl _]. union. apply Z.mod_small. by apply arr_ptr_range.
  - by rewrite Ht.
Qed.

(** A pointer value is copied into a block of its own. *)
Lemma runs_store_ptr :
  dv_type nv = NEU_TYPE_PTR → dv_type ev = NEU_TYPE_PTR ∨ dv_type ev = NEU_TYPE_ERROR →
  hp_next h < 2 ^ 64 → runs (store_value ev nv) h (λ w h', stored h ev nv w h').
Proof.
  intros Ht Hte Hroom. pose proof (value_union _ _ _ Hev) as Hu.
  pose proof (value_union _ _ _ Hnv) as Hun. pose proof (value_live _ _ _ Hev) as Hlive.
  pose proof (value_error _ _ _ Hev) as Herr. destruct (value_content _ _ _ Hnv) as [c Hc].
  unfold store_value. rewrite Ht in Hc |- *. cbn in Hc. apply fmap_Some in Hc as (bs & Hbs & ->).
  set (v := dv_value nv) in *. rewrite ptr_ptr_keep by done.
  assert (Ho : dv_owned h ev = nonnull (ptr_ptr (dv_value ev))).
  { unfold dv_owned, owned. destruct Hte as [-> | E]; [done|]. rewrite E. cbn.
    by rewrite Herr. }
  apply runs_bind, runs_free_released; [by rewrite <-Ho|]. rewrite <-Ho. intros h1 Hrel.
  pose proof (released_ok _ _ _ Hrel Hok) as Hok1. pose proof (released_frame _ _ _ Hrel) as Hf1.
  pose proof (frame_agree _ _ _ _ _ Hok Hf1 Hnv Hdis) as Hag.
  assert (Hbs1 : load_bytes (ptr_ptr v) 0 (Z.to_nat (ptr_length v)) h1 = Some bs).
  { rewrite <-Hbs. apply load_bytes_block. destruct (decide (ptr_ptr v = 0)) as [->|?].
    - by rewrite !heap_ok_null.
    - apply Hag. rewrite Ht. by apply elem_of_nonnull. }
  pose proof (load_bytes_length _ _ _ _ _ Hbs) as Hlen. destruct Hrel as [Hn1 _].
  assert (Hp0 : 0 < hp_next h1) by apply Hok1.
  apply runs_bind. eapply runs_copy_block; [done..|]. apply runs_ret.
  fold (add_block bs h1).
  destruct (ptr_fields (hp_next h1) (ptr_type v) (ptr_length v) (dv_value ev))
    as (Hw1 & Hw2 & Hw3 & Hw); [done|lia|auto with neuron..|]. split.
  - apply heap_ok_add_block; [done|lia].
  - eapply frame_new; [|exact Hf1|apply frame_add_block]. set_solver.
  - rewrite Ht. unfold owned. split; cbn; [done| | | |done]; rewrite ?Hw1, ?Hw2, ?Hw3, <-?Hlen.
    + rewrite load_add_block. eauto.
    + unfold nonnull. rewrite decide_False by lia. apply Forall_singleton. simpl.
      rewrite lookup_insert_eq. eauto.
    + unfold nonnull. rewrite decide_False by lia. apply NoDup_singleton.
  - rewrite Ht. cbn. fold v. rewrite Hw1, Hw2, Hw3, Hbs, <-Hlen, load_add_block. done.
  - intros p. rewrite Ht. cbn. rewrite Hw1. intros [-> _]%elem_of_nonnull. right. lia.
  - simpl. lia.
Qed.

(** Every other type takes the caller's value over. *)
Lemma runs_store_value :
  (dv_type nv = NEU_TYPE_PTR → dv_type ev = NEU_TYPE_PTR ∨ dv_type ev = NEU_TYPE_ERROR) →
  hp_next h < 2 ^ 64 → runs (store_value ev nv) h (λ w h', stored h ev nv w h').
Proof.
  intros Hptr Hroom. destruct (decide (dv_type nv = NEU_TYPE_PTR)) as [Ht|Ht].
  { by apply runs_store_ptr; auto. }
  destruct (is_num_array (dv_type nv)) eqn:Hnum.
  { assert (store_value ev nv =
      ((if is_num_array (dv_type ev) then free (arr_ptr (dv_value ev)) else mret ());;
       mret w_array)) as -> by (unfold store_value; by destruct (dv_type nv)).
    apply runs_bind. destruct (is_num_array (dv_type ev)) eqn:Hne.
    - assert (Ho : dv_owned h ev = nonnull (arr_ptr (dv_value ev)))
        by (unfold dv_owned, owned; by rewrite Hne).
      apply runs_free_released; [rewrite <-Ho; apply Hev|]. rewrite <-Ho. intros h' Hrel.
      apply runs_ret. eapply stored_array; [by left|done..].
    - apply runs_ret, runs_ret. eapply (stored_array []); [by left|set_solver|].
      by apply released_nil. }
  unfold store_value. destruct (dv_type nv) eqn:E; try done;
    try (apply runs_ret, stored_plain; by rewrite E).
  - apply runs_bind, runs_release_value; [done..|]. intros h' Hrel. apply runs_ret.
    by apply stored_error.
  - apply runs_bind. destruct (decide (dv_type ev = NEU_TYPE_ARRAY_STRING)) as [Hs|Hs].
    + apply runs_free_string_array; [done|by rewrite <-Hs|]. intros h' Hrel. apply runs_ret.
      eapply stored_array; [by right| |exact Hrel]. unfold dv_owned. by rewrite Hs.
    + apply runs_ret, runs_ret. eapply (stored_array []); [by right|set_solver|].
      by apply released_nil.
  - apply runs_bind. destruct (decide (dv_type ev = NEU_TYPE_CUSTOM)).
    + apply runs_json_release. intros h' Hrel. apply runs_ret. by apply stored_json.
    + apply runs_ret, runs_ret. apply stored_json; [done|by apply released_nil].
Qed.
End Cases.
End Store.

(** ** Copying a value out *)

Section Copy.
Context {J : Type} `{Jansson J}.
Implicit Types (h : mem J).

(** The duplicates of the strings of [src] in the slots of [dst]. *)
Record dup_post h dst (b : list Z) (i n : nat) (ss : list (list Z)) h' : Prop := {
  dup_heap : heap_ok h';
  dup_frame : frame [dst] h h';
  dup_next : hp_next h <= hp_next h' <= hp_next h + Z.of_nat n;
  dup_block : ∃ b', hp_blocks h' !! dst = Some b' ∧ length b' = length b ∧
                    mem_read 0 (8 * i) b' = mem_read 0 (8 * i) b;
  dup_ptrs : ∃ qs, load_ptrs dst i n h' = Some qs ∧ mapM (λ q, load_str q h') qs = Some ss ∧
                   NoDup qs ∧ Forall (λ q, hp_next h <= q ∧ is_Some (hp_blocks h' !! q)) qs;
}.

Lemma mem_read_prefix o n m b b' :
  mem_read 0 m b' = mem_read 0 m b → (o + n <= m)%nat → mem_read o n b' = mem_read o n b.
Proof.
  unfold mem_read. rewrite !drop_0. intros E Hle.
  rewrite !take_drop_commute. f_equal.
  assert (Ht : ∀ l : list Z, take (o + n) l = take (o + n) (take m l)).
  { intros l. rewrite take_take. f_equal. lia. }
  by rewrite (Ht b'), (Ht b), E.
Qed.

(** One round: the duplicate [q] of the string [s] in slot [i]. *)
Section Round.
Context (dst : Z) (i : nat) (h : mem J) (s b : list Z).
Context (Hok : heap_ok h) (Hb : hp_blocks h !! dst = Some b).
Context (Hlen : (8 * i + 8 <= length b)%nat) (Hroom : hp_next h < 2 ^ 64).

Definition round_block : list Z := mem_write (8 * i) (le_store 8 (hp_next h)) b.
Definition round_heap : mem J :=
  let h1 := add_block (s ++ [0]) h in set_blocks (<[dst := round_block]> (hp_blocks h1)) h1.

Lemma round_dst : 0 < dst < hp_next h.
Proof using Hok Hb. clear Hlen Hroom. apply heap_ok_live; [done|]. eauto. Qed.

Lemma round_block_length : length round_block = length b.
Proof using Hlen. clear Hok Hb Hroom. apply length_mem_write. rewrite length_le_store. lia. Qed.

Lemma round_lookup_dst : hp_blocks round_heap !! dst = Some round_block.
Proof using Type. apply lookup_insert_eq. Qed.

Lemma round_lookup_q : hp_blocks round_heap !! hp_next h = Some (s ++ [0]).
Proof using Hok Hb. clear Hlen Hroom.
  pose proof round_dst. simpl. rewrite lookup_insert_ne by lia. apply lookup_insert_eq.
Qed.

Lemma round_ok : heap_ok round_heap.
Proof using Hok Hb Hroom. clear Hlen.
  apply heap_ok_write; [by apply heap_ok_add_block|]. pose proof round_dst.
  simpl. rewrite lookup_insert_ne by lia. eauto.
Qed.

Lemma round_frame : frame [dst] h round_heap.
Proof using Type. clear Hok Hb Hlen Hroom.
  eapply frame_new; [|eapply frame_weaken; [|apply frame_add_block]|apply frame_write];
    set_solver.
Qed.

Lemma round_runs (Q : () → mem J → Prop) q :
  load_str q h = Some s → Q () round_heap →
  runs (p ← strdup q; store dst (8 * i) (le_store 8 p)) h Q.
Proof.
  intros Hs HQ. pose proof round_dst. apply runs_bind. eapply runs_strdup; [exact Hs|].
  eapply (runs_store _ _ _ _ b); [done| |rewrite length_le_store; lia|done].
  simpl. by rewrite lookup_insert_ne by lia.
Qed.

(** Strings of the source that are not the destination survive the round. *)
Lemma round_strings qs ss :
  dst ∉ qs → Forall2 (λ q s, load_str q h = Some s) qs ss →
  Forall2 (λ q s, load_str q round_heap = Some s) qs ss.
Proof using Hok. clear Hb Hlen Hroom.
  intros Hd HF. induction HF as [|q s' qs ss Hq HF IH]; constructor; [|apply IH; set_solver].
  rewrite <-Hq. apply load_str_block, round_frame; [|set_solver].
  apply (heap_ok_live h _ Hok). apply bind_Some in Hq as (? & ? & _). eauto.
Qed.
End Round.

(** The round in front of the duplicates of the remaining strings. *)
Lemma dup_post_step dst i n h s ss b h' :
  heap_ok h → hp_blocks h !! dst = Some b → (8 * (i + S n) <= length b)%nat →
  hp_next h < 2 ^ 64 → c_string (s ++ [0]) = Some s →
  dup_post (round_heap dst i h s b) dst (round_block i h b) (S i) n ss h' →
  dup_post h dst b i (S n) (s :: ss) h'.
Proof.
  intros Hok Hb Hlen Hroom Hs
    [Hok' Hf' Hn' (b' & Hb' & Hl' & Hpre) (qs' & Hq' & Hs' & Hnd & Hall)].
  simpl in Hn'. rewrite round_block_length in Hl' by lia.
  pose proof (round_dst dst h b Hok Hb) as Hd. assert (0 < hp_next h) by apply Hok.
  assert (Hqq : hp_blocks h' !! hp_next h = Some (s ++ [0])).
  { rewrite (proj2 Hf'); [by apply round_lookup_q|simpl; lia|].
    intros ?%list_elem_of_singleton. lia. }
  split.
  - done.
  - eapply frame_new; [|by apply round_frame|exact Hf']. set_solver.
  - lia.
  - exists b'. split_and!; [done..|]. trans (mem_read 0 (8 * i) (round_block i h b)).
    + eapply mem_read_prefix; [exact Hpre|lia].
    + apply mem_read_write_before; lia.
  - exists (hp_next h :: qs'). cbn [load_ptrs]. rewrite Hq'.
    assert (load_bytes dst (8 * i) 8 h' = Some (le_store 8 (hp_next h))) as ->.
    { unfold load_bytes. rewrite decide_False by done. rewrite Hb'. cbn.
      rewrite decide_True by lia. f_equal. trans (mem_read (8 * i) 8 (round_block i h b)).
      - eapply mem_read_prefix; [exact Hpre|lia].
      - pose proof (mem_read_write (8 * i) (le_store 8 (hp_next h)) b) as Hrw.
        rewrite length_le_store in Hrw. apply Hrw. lia. }
    cbn. rewrite le_load_store, Z.mod_small by (split; [lia|]; simpl; lia).
    split_and!; [done| | |].
    + assert (load_str (hp_next h) h' = Some s) as -> by (unfold load_str; by rewrite Hqq).
      cbn. by rewrite Hs'.
    + apply NoDup_cons. split; [|done]. intros Hin. rewrite Forall_forall in Hall.
      apply Hall in Hin as [Hin _]. simpl in Hin. lia.
    + constructor; [split; [lia|eauto]|]. eapply Forall_impl; [exact Hall|].
      simpl. intros x [? ?]. split; [lia|done].
Qed.

Lemma runs_dup_strings dst src n : ∀ i h qs ss b,
  heap_ok h → load_ptrs src i n h = Some qs → Forall2 (λ q s, load_str q h = Some s) qs ss →
  hp_blocks h !! dst = Some b → (8 * (i + n) <= length b)%nat → dst ≠ src → dst ∉ qs →
  hp_next h + Z.of_nat n <= 2 ^ 64 →
  runs (dup_strings dst src i n) h (λ _ h', dup_post h dst b i n ss h').
Proof.
  induction n as [|n IH]; intros i h qs ss b Hok Hqs Hss Hb Hlen Hne Hnin Hroom;
    cbn [dup_strings].
  { injection Hqs as <-. inversion Hss; subst. apply runs_ret.
    split; [done|apply frame_refl|lia|eauto|].
    exists []. split_and!; [done..|by apply NoDup_nil|done]. }
  cbn [load_ptrs] in Hqs. apply bind_Some in Hqs as (bs & Hbs & (qs' & Hqs & [= <-])%bind_Some).
  inversion Hss as [|q s ? ss' Hs Hss']; subst. apply not_elem_of_cons in Hnin as [Hd Hnin].
  apply runs_bind. eapply runs_load; [exact Hbs|].
  assert (Hrun : runs (p ← strdup (le_load bs); store dst (8 * i) (le_store 8 p)) h
    (λ _ h1, h1 = round_heap dst i h s b)) by (eapply round_runs; [done|done|lia|done..]).
  destruct Hrun as ([] & h1 & Hm & ->).
  assert (Hsrc : is_Some (hp_blocks h !! src)).
  { unfold load_bytes in Hbs. apply bind_Some in Hbs as (? & ? & _). eauto. }
  apply (runs_mono _ _
    (λ _ h', dup_post (round_heap dst i h s b) dst (round_block i h b) (S i) n ss' h')).
  2: { intros [] h' Hpost. eapply dup_post_step; [done..|lia| |exact Hpost].
       apply bind_Some in Hs as (? & _ & Hs). by eapply c_string_snoc. }
  assert (Heq : ∀ k : M J (), (q ← strdup (le_load bs); store dst (8 * i) (le_store 8 q);; k) h =
    k (round_heap dst i h s b)).
  { intros k. unfold mbind, M_bind in Hm |- *.
    destruct (strdup (le_load bs) h) as [[q h1]|]; [|done]. by rewrite Hm. }
  unfold runs. rewrite Heq. apply (IH (S i) _ qs').
  - apply round_ok; [done..|lia].
  - rewrite <-Hqs. apply load_ptrs_block, round_frame; [|set_solver].
    by apply (heap_ok_live h _ Hok).
  - by apply round_strings.
  - apply round_lookup_dst.
  - rewrite round_block_length by lia. lia.
  - done.
  - done.
  - simpl. lia.
Qed.

(** What a copy promises: the same content in memory of its own. *)
Record copied h ev (w : neu_value_u) h' : Prop := {
  copied_heap : heap_ok h';
  copied_frame : frame [] h h';
  copied_union : union_ok w;
  copied_content : dv_type ev ≠ NEU_TYPE_CUSTOM →
    content_of h' (dv_type ev) w = content_of h (dv_type ev) (dv_value ev);
  copied_owned : Forall (λ p, hp_next h <= p ∧ is_Some (hp_blocks h' !! p))
                   (owned h' (dv_type ev) w);
  copied_nodup : NoDup (owned h' (dv_type ev) w);
}.

(** Room for the copy of a value. *)
Definition copy_room h ev : Prop := hp_next h + Z.of_nat (length (dv_owned h ev)) + 1 <= 2 ^ 64.

(** The scalars: copying the member of the right size copies the content. *)
Lemma copied_plain h ev dst n :
  heap_ok h → union_ok (dv_value ev) → union_ok dst → (n <= 256)%nat →
  (∀ (g : mem J) v, content_of g (dv_type ev) v = Some (CBytes (mem_read 0 n v))) →
  (∀ (g : mem J) v, owned g (dv_type ev) v = []) →
  copied h ev (mem_write 0 (mem_read 0 n (dv_value ev)) dst) h.
Proof.
  intros Hok [Hl Hb] Hd Hn Hc Ho. assert (Hr : length (mem_read 0 n (dv_value ev)) = n)
    by (apply length_mem_read; lia).
  split; rewrite ?Ho; [done|apply frame_refl| | |done|by apply NoDup_nil].
  - apply union_ok_write; [done|by apply mem_read_ok|rewrite Hr; lia].
  - intros _. rewrite !Hc. do 2 f_equal.
    pose proof (mem_read_write 0 (mem_read 0 n (dv_value ev)) dst) as Hrw.
    rewrite Hr in Hrw. apply Hrw. destruct Hd as [-> _]. lia.
Qed.

Lemma store_load_read n v : union_ok v → (n <= 256)%nat →
  le_store n (le_load (mem_read 0 n v)) = mem_read 0 n v.
Proof.
  intros [Hl Hb] Hn. apply le_store_load; [by apply mem_read_ok|].
  rewrite length_mem_read; lia.
Qed.

Lemma copied_bytes h ev dst :
  heap_ok h → union_ok (dv_value ev) → union_ok dst → dv_type ev = NEU_TYPE_BYTES →
  copied h ev (mem_write 0 (mem_read 0 (Z.to_nat (bytes_length (dv_value ev))) (dv_value ev))
                 (set_bytes_length (bytes_length (dv_value ev)) dst)) h.
Proof.
  intros Hok Hv Hd Ht. set (n := bytes_length (dv_value ev)).
  assert (Hn : 0 <= n < 256) by (apply (read_range 256 1); [done|lia]).
  destruct Hv as [Hl Hb]. assert (Hld : length dst = 264%nat) by apply Hd.
  assert (Hr : length (mem_read 0 (Z.to_nat n) (dv_value ev)) = Z.to_nat n)
    by (apply length_mem_read; lia).
  split; rewrite ?Ht; [done|apply frame_refl| | |done|by apply NoDup_nil].
  - apply union_ok_write; [|by apply mem_read_ok|rewrite Hr; lia].
    apply union_ok_store; [done|lia].
  - intros _. cbn. assert (Hlw : length (set_bytes_length n dst) = 264%nat).
    { unfold set_bytes_length. rewrite length_mem_write; rewrite ?length_le_store; lia. }
    assert (Hb' : bytes_length (mem_write 0 (mem_read 0 (Z.to_nat n) (dv_value ev))
        (set_bytes_length n dst)) = n).
    { unfold bytes_length at 1. rewrite mem_read_write_after by (rewrite Hr; lia).
      unfold set_bytes_length. union. apply Z.mod_small. lia. }
    rewrite Hb'. do 2 f_equal.
    pose proof (mem_read_write 0 (mem_read 0 (Z.to_nat n) (dv_value ev))
      (set_bytes_length n dst)) as Hrw. rewrite Hr in Hrw. apply Hrw. lia.
Qed.

Section Cases.
Context (h : mem J) (ev : neu_dvalue_t) (dst : neu_value_u).
Context (Hok : heap_ok h) (Hev : dv_ok h ev) (Hdst : union_ok dst) (Hroom : copy_room h ev).

Let w_array p := set_arr_ptr p (set_arr_length (arr_length (dv_value ev)) dst).

Lemma runs_copy_array :
  is_num_array (dv_type ev) = true →
  let n := array_size (dv_type ev) (dv_value ev) in
  runs (p ← copy_block (arr_ptr (dv_value ev)) n n; mret (w_array p)) h
    (λ w h', copied h ev w h').
Proof.
  intros Ht n. destruct Hev as [Hu [c Hc] _ _ _]. unfold content_of in Hc. rewrite Ht in Hc.
  apply fmap_Some in Hc as (bs & Hbs & ->). pose proof (load_bytes_length _ _ _ _ _ Hbs) as Hl.
  unfold copy_room in Hroom. assert (0 < hp_next h) by apply Hok.
  apply runs_bind. eapply runs_copy_block; [done..|]. apply runs_ret. fold (add_block bs h).
  destruct (arr_fields (hp_next h) (arr_length (dv_value ev)) dst) as (Hp & Hn & Hw);
    [done|lia|by apply arr_length_range|]. fold (w_array (hp_next h)) in *.
  assert (Ho : owned (add_block bs h) (dv_type ev) (w_array (hp_next h)) = [hp_next h]).
  { unfold owned, nonnull. by rewrite Ht, Hp, decide_False by lia. }
  split; rewrite ?Ho.
  - apply heap_ok_add_block; [done|lia].
  - apply frame_add_block.
  - done.
  - intros _. unfold content_of. rewrite Ht, Hp. unfold array_size at 1. rewrite Hn.
    fold (array_size (dv_type ev) (dv_value ev)). rewrite Hbs, <-Hl, load_add_block. done.
  - apply Forall_singleton. split; [lia|]. simpl. rewrite lookup_insert_eq. eauto.
  - apply NoDup_singleton.
Qed.

Lemma runs_copy_ptr :
  dv_type ev = NEU_TYPE_PTR → runs (copy_value ev dst) h (λ w h', copied h ev w h').
Proof.
  intros Ht. destruct Hev as [Hu [c Hc] _ _ _]. unfold copy_value. rewrite Ht in Hc |- *.
  cbn in Hc. apply fmap_Some in Hc as (bs & Hbs & ->).
  pose proof (load_bytes_length _ _ _ _ _ Hbs) as Hl.
  unfold copy_room in Hroom. assert (0 < hp_next h) by apply Hok.
  apply runs_bind. eapply runs_copy_block; [done..|]. apply runs_ret. fold (add_block bs h).
  destruct (ptr_fields (hp_next h) (ptr_type (dv_value ev)) (ptr_length (dv_value ev)) dst)
    as (Hp & Hpt & Hn & Hw); [done|lia|by apply ptr_type_range|by apply ptr_length_range|].
  set (w := set_ptr_ptr _ _) in *.
  assert (Ho : owned (add_block bs h) (dv_type ev) w = [hp_next h]).
  { rewrite Ht. cbn. unfold nonnull. by rewrite Hp, decide_False by lia. }
  split; rewrite ?Ho.
  - apply heap_ok_add_block; [done|lia].
  - apply frame_add_block.
  - done.
  - intros _. rewrite Ht. cbn. rewrite Hp, Hpt, Hn, Hbs, <-Hl, load_add_block. done.
  - apply Forall_singleton. split; [lia|]. simpl. rewrite lookup_insert_eq. eauto.
  - apply NoDup_singleton.
Qed.

(** The array around the duplicates. *)
Lemma copied_strings ss qs b h' :
  dv_type ev = NEU_TYPE_ARRAY_STRING → hp_next h < 2 ^ 64 →
  load_ptrs (arr_ptr (dv_value ev)) 0 (Z.to_nat (arr_length (dv_value ev))) h = Some qs →
  mapM (λ q, load_str q h) qs = Some ss →
  dup_post (add_block b h) (hp_next h) b 0 (Z.to_nat (arr_length (dv_value ev))) ss h' →
  copied h ev (w_array (hp_next h)) h'.
Proof.
  intros Ht Hr Hqs Hss [Hok' Hf' _ (b' & Hb' & _) (qs' & Hq' & Hs' & Hnd & Hall)].
  assert (0 < hp_next h) by apply Hok. pose proof (value_union _ _ _ Hev) as Hu.
  destruct (arr_fields (hp_next h) (arr_length (dv_value ev)) dst) as (Hp & Hn & Hw);
    [done|lia|by apply arr_length_range|]. fold (w_array (hp_next h)) in *.
  assert (Ho : owned h' (dv_type ev) (w_array (hp_next h)) = hp_next h :: qs').
  { rewrite Ht. cbn. rewrite Hp, Hn, Hq'. unfold nonnull. by rewrite decide_False by lia. }
  simpl in Hall. split; rewrite ?Ho.
  - done.
  - eapply frame_new; [|apply frame_add_block|exact Hf'].
    intros p ->%list_elem_of_singleton. right. lia.
  - done.
  - intros _. rewrite Ht. cbn. rewrite Hp, Hn, Hq', Hqs. cbn. by rewrite Hs', Hss.
  - constructor; [split; [lia|eauto]|]. eapply Forall_impl; [exact Hall|].
    simpl. intros x [? ?]. split; [lia|done].
  - apply NoDup_cons. split; [|done]. intros Hin. rewrite Forall_forall in Hall.
    apply Hall in Hin as [Hin _]. lia.
Qed.

Lemma runs_copy_strings :
  dv_type ev = NEU_TYPE_ARRAY_STRING → runs (copy_value ev dst) h (λ w h', copied h ev w h').
Proof.
  intros Ht. destruct Hev as [Hu [c Hc] Hlive Hnd _]. unfold copy_value.
  unfold copy_room, dv_owned in Hroom. rewrite Ht in Hc, Hlive, Hnd, Hroom |- *. cbn in Hc, Hlive.
  apply bind_Some in Hc as (qs & Hqs & (ss & Hss & ->)%fmap_Some).
  cbn in Hroom. rewrite Hqs in Hroom, Hlive. cbn [default] in Hroom, Hlive. unfold id in *.
  pose proof (load_ptrs_length _ _ _ _ _ Hqs) as Hlen. rewrite length_app in Hroom.
  assert (0 < hp_next h) by apply Hok. set (n := Z.to_nat (arr_length (dv_value ev))) in *.
  assert (Hfresh : ∀ p, is_Some (hp_blocks h !! p) → p < hp_next h)
    by (intros p Hp; by apply (heap_ok_live h)).
  apply Forall_app in Hlive as [Hl1 Hl2]. rewrite Forall_forall in Hl1, Hl2.
  apply runs_bind, runs_calloc, runs_bind. fold (add_block (replicate (n * 8) 0) h).
  eapply runs_mono; [apply (runs_dup_strings _ _ _ _ _ qs ss (replicate (n * 8) 0))|].
  - apply heap_ok_add_block; [done|lia].
  - rewrite <-Hqs. apply load_ptrs_block. simpl. apply lookup_insert_ne. intros E.
    destruct (decide (arr_ptr (dv_value ev) = 0)); [lia|].
    pose proof (Hfresh _ (Hl1 (arr_ptr (dv_value ev)) ltac:(by apply elem_of_nonnull))). lia.
  - apply mapM_Some in Hss. eapply Forall2_impl; [exact Hss|]. intros q s Hs. rewrite <-Hs.
    apply load_str_block. simpl. apply lookup_insert_ne. intros <-.
    apply bind_Some in Hs as (? & Hs & _). rewrite heap_ok_fresh in Hs by done. done.
  - apply lookup_insert_eq.
  - rewrite length_replicate. lia.
  - intros E. destruct (decide (arr_ptr (dv_value ev) = 0)); [lia|].
    pose proof (Hfresh _ (Hl1 (arr_ptr (dv_value ev)) ltac:(by apply elem_of_nonnull))). lia.
  - intros Hin. pose proof (Hfresh _ (Hl2 _ Hin)). lia.
  - simpl. lia.
  - intros [] h' Hpost. apply runs_ret. eapply (copied_strings ss qs); [done|lia|done..].
Qed.

Lemma runs_copy_value : runs (copy_value ev dst) h (λ w h', copied h ev w h').
Proof.
  destruct (is_num_array (dv_type ev)) eqn:Hnum.
  { assert (copy_value ev dst =
      (p ← copy_block (arr_ptr (dv_value ev)) (array_size (dv_type ev) (dv_value ev))
             (array_size (dv_type ev) (dv_value ev)); mret (w_array p))) as ->
      by (unfold copy_value, array_size; by destruct (dv_type ev)).
    by apply runs_copy_array. }
  pose proof (value_union _ _ _ Hev) as Hu. pose proof (value_live _ _ _ Hev).
  destruct (dv_type ev) eqn:E; try done; try (by apply runs_copy_ptr);
    try (by apply runs_copy_strings); unfold copy_value; rewrite E;
    try (apply runs_ret; unfold set_u8, set_u16, set_u32, set_u64, val_u8, val_u16, val_u32,
           val_u64, NEU_VALUE_SIZE; rewrite ?store_load_read by (done || lia);
         apply copied_plain; [done..|lia|by rewrite E|by rewrite E]).
  - apply runs_ret. by apply copied_bytes.
  - apply runs_bind, runs_json, runs_ret. split; rewrite ?E; try done.
    + apply union_ok_store; [done|lia].
    + by apply NoDup_nil.
Qed.
End Cases.
End Copy.
