(* ===== verification/DriverCacheOk.v ===== *)
(** * Correctness of the driver cache

    The invariant of the cache over the heap, its view as a finite map from tags
    to samples, and the theorems about the operations of [DriverCache.v]: every
    operation is safe and implements its operation on the map. *)

From Stdlib Require Import SpecFloat.
From S2P Require Import Prelude UtHash NeuTypes CHeap CFloat DriverCache CacheValue.

(** ** The abstract cache *)

Record sample := {
  s_timestamp : Z;
  s_changed : bool;
  s_type : neu_type_e;
  s_content : option content;
  s_precision : Z;
  s_attrs : neu_tag_sample_attrs_t;
  s_metas : list neu_tag_meta_t;
}.

Section Invariant.
Context {J : Type} `{Jansson J}.
Implicit Types (h : mem J) (c : neu_driver_cache_t) (e : elem).

Definition dv_content h (dv : neu_dvalue_t) : option content :=
  content_of h (dv_type dv) (dv_value dv).

Definition view_elem h e : sample :=
  {| s_timestamp := timestamp e; s_changed := changed e; s_type := dv_type (value e);
     s_content := dv_content h (value e); s_precision := dv_precision (value e);
     s_attrs := dv_attrs (value e); s_metas := metas e |}.

Definition view h c : gmap tkey_t sample := view_elem h <$> to_map key (table c).

(** Metas that carry no memory of their own. *)
Definition plain_meta (m : neu_tag_meta_t) : Prop := by_pointer (dv_type (meta_value m)) = false.

Definition elem_side e : Prop := Forall plain_meta (metas e) ∧ union_ok (old_value e).

(** The elements of the table own what they point to, each its own blocks. *)
Record cache_ok h c : Prop := {
  cache_heap : heap_ok h;
  cache_keys : table_ok key (table c);
  cache_values : ∀ e, e ∈ table c → dv_ok h (value e);
  cache_side : ∀ e, e ∈ table c → elem_side e;
  cache_disjoint : ∀ e e', e ∈ table c → e' ∈ table c → key e ≠ key e' →
    ∀ p, p ∈ dv_owned h (value e) → p ∉ dv_owned h (value e');
}.

Lemma view_lookup h c k : view h c !! k = view_elem h <$> hash_find key k (table c).
Proof. unfold view. by rewrite lookup_fmap, to_map_lookup. Qed.

(** A value is unaffected by work on blocks it does not own. *)
Lemma frame_value X h h' dv :
  heap_ok h → heap_ok h' → frame X h h' → dv_ok h dv → (∀ p, p ∈ dv_owned h dv → p ∉ X) →
  dv_ok h' dv ∧ dv_content h' dv = dv_content h dv ∧ dv_owned h' dv = dv_owned h dv.
Proof.
  intros Hok Hok' Hf Hv HX. pose proof (frame_agree _ _ _ _ _ Hok Hf Hv HX) as Hag.
  split_and!.
  - by apply (value_ok_agree h h').
  - by apply (content_agree h h').
  - by apply (owned_agree h h').
Qed.

Lemma frame_elem X h h' e :
  heap_ok h → heap_ok h' → frame X h h' → dv_ok h (value e) →
  (∀ p, p ∈ dv_owned h (value e) → p ∉ X) → view_elem h' e = view_elem h e.
Proof.
  intros Hok Hok' Hf Hv HX. destruct (frame_value X h h' (value e)) as (_ & Hc & _); [done..|].
  unfold view_elem. by rewrite Hc.
Qed.

(** Work outside the cache leaves the cache as it is. *)
Lemma cache_frame X h h' c :
  cache_ok h c → heap_ok h' → frame X h h' →
  (∀ e p, e ∈ table c → p ∈ dv_owned h (value e) → p ∉ X) →
  cache_ok h' c ∧ view h' c = view h c.
Proof.
  intros [Hok Hk Hv Hm Hd] Hok' Hf HX.
  assert (Hfr : ∀ e, e ∈ table c → dv_ok h' (value e) ∧
      dv_content h' (value e) = dv_content h (value e) ∧
      dv_owned h' (value e) = dv_owned h (value e)).
  { intros e He. eapply frame_value; [done..|by apply Hv|by intros; eapply HX]. }
  split.
  - split; [done|done|by intros e He; apply Hfr|done|].
    intros e e' He He' Hne p. destruct (Hfr e He) as (_ & _ & ->).
    destruct (Hfr e' He') as (_ & _ & ->). by apply Hd.
  - apply map_eq. intros k. rewrite !view_lookup.
    destruct (hash_find key k (table c)) as [e|] eqn:E; [|done].
    apply hash_find_Some in E as [He _]. simpl. f_equal.
    eapply frame_elem; [done..|by apply Hv|by intros; eapply HX].
Qed.

(** Replacing the element of a key. *)
Lemma cache_replace h h' c e e' :
  cache_ok h c → e ∈ table c → key e' = key e → heap_ok h' →
  frame (dv_owned h (value e)) h h' → dv_ok h' (value e') → elem_side e' →
  (∀ x p, x ∈ table c → key x ≠ key e → p ∈ dv_owned h' (value e') →
     p ∉ dv_owned h (value x)) →
  let c' := set_table (hash_update key (key e) (λ _, e') (table c)) c in
  cache_ok h' c' ∧ view h' c' = <[key e := view_elem h' e']> (view h c).
Proof.
  intros [Hok Hk Hv Hm Hd] He Hkey Hok' Hf Hv' Hm' Hdis c'.
  assert (Hin : ∀ x, x ∈ table c' → x = e' ∨ (x ∈ table c ∧ key x ≠ key e))
    by (intros; by apply elem_of_hash_replace).
  assert (Hfr : ∀ x, x ∈ table c → key x ≠ key e → dv_ok h' (value x) ∧
      dv_content h' (value x) = dv_content h (value x) ∧
      dv_owned h' (value x) = dv_owned h (value x)).
  { intros x Hx Hne. eapply frame_value; [done..|by apply Hv|].
    intros p Hp. by apply (Hd x e). }
  split.
  - split; [done| | | |].
    + unfold table_ok, c'. simpl. by rewrite hash_replace_keys.
    + intros x [-> | [Hx Hne]]%Hin; [done|]. by apply Hfr.
    + intros x [-> | [Hx Hne]]%Hin; [done|]. by apply Hm.
    + intros x y [-> | [Hx Hnx]]%Hin [-> | [Hy Hny]]%Hin Hne p; [done| | |].
      * destruct (Hfr y Hy Hny) as (_ & _ & ->). by apply Hdis.
      * destruct (Hfr x Hx Hnx) as (_ & _ & ->). intros Hp Hp'. by eapply Hdis.
      * destruct (Hfr x Hx Hnx) as (_ & _ & ->). destruct (Hfr y Hy Hny) as (_ & _ & ->).
        by apply Hd.
  - apply map_eq. intros k. rewrite view_lookup. unfold c'. simpl.
    rewrite hash_find_replace by done. destruct (decide (k = key e)) as [->|Hne].
    + by rewrite lookup_insert_eq, (hash_find_elem key _ e).
    + rewrite lookup_insert_ne, view_lookup by done.
      destruct (hash_find key k (table c)) as [x|] eqn:E; [|done].
      apply hash_find_Some in E as [Hx <-]. simpl. f_equal.
      eapply frame_elem; [done..|by apply Hv|]. intros p Hp. by apply (Hd x e).
Qed.
End Invariant.

(** ** Detecting changes *)

Section Detect.
Context {J : Type} `{Jansson J}.
Context (pow01 : Z → spec_float) (sub_filter_err : bool).
Implicit Types (h : mem J) (c : neu_driver_cache_t) (e : elem).

(** The outcome of comparing two values of the same type: by content for the
    arrays of numbers and byte strings, by the bytes alone for pointers, by the
    stored pointers for arrays of strings. *)
Definition ptr_data h (v : neu_value_u) : option (list Z) :=
  load_bytes (ptr_ptr v) 0 (Z.to_nat (ptr_length v)) h.
Definition slots h (v : neu_value_u) : option (list Z) :=
  load_bytes (arr_ptr v) 0 (Z.to_nat (arr_length v) * 8) h.

Definition values_differ h (on_error : bool) (t : neu_type_e) (old : neu_value_u) (precision : Z)
    (v : neu_value_u) : bool :=
  match t with
  | NEU_TYPE_BYTES => bool_decide (content_of h t old ≠ content_of h t v)
  | NEU_TYPE_PTR => bool_decide (ptr_data h old ≠ ptr_data h v)
  | NEU_TYPE_ARRAY_STRING => bool_decide (slots h old ≠ slots h v)
  | NEU_TYPE_CUSTOM => negb (json_equal (hp_json h) (json_ptr old) (json_ptr v))
  | NEU_TYPE_FLOAT => float_ne pow01 f32_distance precision (f32_of old) (f32_of v)
  | NEU_TYPE_DOUBLE => float_ne pow01 d64_distance precision (d64_of old) (d64_of v)
  | NEU_TYPE_ERROR => on_error
  | _ => if is_num_array t then bool_decide (content_of h t old ≠ content_of h t v)
         else bool_decide (old ≠ v)
  end.

Lemma mem_eta h : Mem (hp_next h) (hp_blocks h) (hp_json h) = h.
Proof. by destruct h. Qed.

Lemma runs_memcmp p q n h a b (Q : bool → mem J → Prop) :
  load_bytes p 0 n h = Some a → load_bytes q 0 n h = Some b →
  Q (bool_decide (a ≠ b)) h → runs (memcmp_ne p q n) h Q.
Proof.
  intros Ha Hb HQ. apply runs_bind. eapply runs_load; [exact Ha|].
  apply runs_bind. eapply runs_load; [exact Hb|]. by apply runs_ret.
Qed.

(** Lengths, then bytes: equal exactly when the bytes at the pointers are. *)
Lemma runs_array_ne size old v h a b (Q : bool → mem J → Prop) :
  size ≠ O → union_ok old → union_ok v →
  load_bytes (arr_ptr old) 0 (Z.to_nat (arr_length old) * size) h = Some a →
  load_bytes (arr_ptr v) 0 (Z.to_nat (arr_length v) * size) h = Some b →
  Q (bool_decide (a ≠ b)) h → runs (array_ne size old v) h Q.
Proof.
  intros Hs Hu Hu' Ha Hb HQ. unfold array_ne.
  destruct (decide (arr_length old ≠ arr_length v)) as [Hne|Heq].
  - apply runs_ret. rewrite bool_decide_true in HQ; [done|].
    intros ->. apply load_bytes_length in Ha, Hb. rewrite Ha in Hb.
    pose proof (arr_length_range _ Hu). pose proof (arr_length_range _ Hu').
    apply Nat.mul_cancel_r in Hb; [|done]. lia.
  - apply dec_stable in Heq. rewrite Heq in Ha. by eapply runs_memcmp.
Qed.

Lemma runs_num_array_ne t size old v h (Q : bool → mem J → Prop) :
  is_num_array t = true → array_elem_size t = size →
  value_ok h t old → value_ok h t v →
  Q (bool_decide (content_of h t old ≠ content_of h t v)) h → runs (array_ne size old v) h Q.
Proof.
  intros Ht Hs [Hu [c Hc] _ _ _] [Hu' [c' Hc'] _ _ _] HQ. rewrite Hc, Hc' in HQ.
  unfold content_of, array_size in Hc, Hc'. rewrite Ht, Hs in Hc, Hc'.
  apply fmap_Some in Hc as (a & Ha & ->). apply fmap_Some in Hc' as (b & Hb & ->).
  apply (runs_array_ne size old v h a b); [by destruct t; simpl in Hs; subst|done..|].
  erewrite bool_decide_ext; [exact HQ|]. split; congruence.
Qed.

Lemma load_ptrs_slots p n : ∀ i h qs,
  load_ptrs p i n h = Some qs → is_Some (load_bytes p (8 * i) (n * 8) h).
Proof.
  induction n as [|n IH]; intros i h qs; [by eexists|]. cbn [load_ptrs].
  intros (bs & Hbs & (qs' & Hq & _)%bind_Some)%bind_Some. apply IH in Hq as [b' Hb'].
  unfold load_bytes in *. rewrite decide_False in Hbs by done.
  apply bind_Some in Hbs as (b & Hb & Hbs). rewrite Hb in Hb' |- *.
  rewrite decide_False by lia. cbn in Hb' |- *.
  destruct (decide (8 * i + 8 <= length b)%nat); [|done].
  rewrite decide_True; [eauto|]. destruct (decide (n * 8 = 0)%nat); [lia|].
  case_decide; [lia|done].
Qed.

Lemma runs_value_ne on_error t old precision v h (Q : bool → mem J → Prop) :
  dv_type v = t → (by_pointer t = true → value_ok h t old ∧ value_ok h t (dv_value v)) →
  union_ok old → union_ok (dv_value v) →
  Q (values_differ h on_error t old precision (dv_value v)) h →
  runs (value_ne pow01 on_error old precision v) h Q.
Proof.
  intros Ht Hptr Hu Hu' HQ. unfold value_ne. rewrite Ht.
  destruct (is_num_array t) eqn:Hnum.
  { destruct (Hptr ltac:(unfold by_pointer; by rewrite Hnum)) as [Ho Hv].
    destruct t; try done; by eapply runs_num_array_ne. }
  destruct t; try done; try (by apply runs_ret).
  - cbn in HQ. set (n := bytes_length (dv_value v)) in *.
    assert (Hr : ∀ w, union_ok w → length (mem_read 0 (Z.to_nat (bytes_length w)) w) =
        Z.to_nat (bytes_length w) ∧ 0 <= bytes_length w).
    { intros w Hw. pose proof (read_range 256 1 w Hw ltac:(lia)) as Hb.
      fold (bytes_length w) in Hb. destruct Hw as [Hw _].
      rewrite length_mem_read; [lia|]. simpl in Hb. lia. }
    destruct (decide (bytes_length old ≠ n)) as [Hne|Heq]; apply runs_ret.
    + rewrite bool_decide_true in HQ; [done|]. intros [= E].
      apply (f_equal length) in E. destruct (Hr _ Hu), (Hr _ Hu'). unfold n in *. lia.
    + apply dec_stable in Heq. rewrite Heq in HQ. erewrite bool_decide_ext; [exact HQ|].
      split; congruence.
  - destruct (Hptr eq_refl) as [[_ [c Hc] _ _ _] [_ [c' Hc'] _ _ _]]. cbn in Hc, Hc', HQ.
    unfold ptr_data in HQ.
    apply fmap_Some in Hc as (a & Ha & _). apply fmap_Some in Hc' as (b & Hb & _).
    rewrite Ha, Hb in HQ. destruct (decide _) as [Hne|Heq].
    + apply runs_ret. rewrite bool_decide_true in HQ; [done|]. intros [= ->].
      apply load_bytes_length in Ha, Hb. rewrite Ha in Hb.
      pose proof (ptr_length_range _ Hu). pose proof (ptr_length_range _ Hu'). lia.
    + apply dec_stable in Heq. rewrite Heq in Ha. apply (runs_memcmp _ _ _ h a b); [done..|].
      erewrite bool_decide_ext; [exact HQ|]. split; congruence.
  - destruct (Hptr eq_refl) as [[_ [c Hc] _ _ _] [_ [c' Hc'] _ _ _]]. cbn in Hc, Hc', HQ.
    apply bind_Some in Hc as (? & Hq & _). apply bind_Some in Hc' as (? & Hq' & _).
    apply load_ptrs_slots in Hq as [a Ha]. apply load_ptrs_slots in Hq' as [b Hb].
    change (8 * 0)%nat with O in Ha, Hb. unfold slots in HQ. rewrite Ha, Hb in HQ.
    apply (runs_array_ne _ _ _ h a b); [done..|]. erewrite bool_decide_ext; [exact HQ|]. split; congruence.
  - apply runs_json. by rewrite mem_eta.
Qed.

Definition change_spec h e (v : neu_dvalue_t) : option bool :=
  if sub_filter_err && bool_decide (dv_type v = NEU_TYPE_ERROR) then None
  else
    let same := bool_decide (dv_type (value e) = dv_type v) in
    let was_error := bool_decide (dv_type (value e) = NEU_TYPE_ERROR) in
    Some ((if same then values_differ h true (dv_type v) (dv_value (value e))
                          (dv_precision (value e)) (dv_value v)
           else if sub_filter_err && was_error
           then values_differ h false (dv_type v) (old_value e) (old_precision e) (dv_value v)
           else true) || quality_ne sub_filter_err e v).

Lemma runs_detect_change e v h (Q : option bool → mem J → Prop) :
  dv_ok h (value e) → dv_ok h v → union_ok (old_value e) →
  sub_filter_err = false ∨ by_pointer (dv_type v) = false →
  Q (change_spec h e v) h → runs (detect_change pow01 sub_filter_err e v) h Q.
Proof.
  intros He Hv Hold Hfil HQ. unfold detect_change, change_spec in *.
  destruct (sub_filter_err && bool_decide (dv_type v = NEU_TYPE_ERROR)); [by apply runs_ret|].
  apply runs_bind. destruct (bool_decide (dv_type (value e) = dv_type v)) eqn:Es.
  - apply bool_decide_eq_true in Es. rewrite !andb_false_r. cbn.
    apply (runs_value_ne _ (dv_type v)); [done|intros _|apply He|apply Hv|].
    { unfold dv_ok in He. by rewrite Es in He. }
    by apply runs_ret.
  - rewrite !andb_true_r. destruct sub_filter_err; cbn in *; [|by apply runs_ret, runs_ret].
    destruct (bool_decide (dv_type (value e) = NEU_TYPE_ERROR)); cbn in *;
      [|by apply runs_ret, runs_ret].
    apply (runs_value_ne _ (dv_type v)); [done| |done|apply Hv|by apply runs_ret].
    destruct Hfil as [?|Hf]; [done|]. by rewrite Hf.
Qed.

(** ** Metas *)

Definition keep_meta (m : neu_tag_meta_t) : neu_tag_meta_t :=
  if neu_dvalue_is_array (meta_value m)
  then {| meta_name := EmptyString;
          meta_value := {| dv_type := NEU_TYPE_INT8; dv_value := value_zero;
                           dv_precision := 0; dv_attrs := attrs_zero |} |}
  else m.

Lemma keep_meta_plain m : plain_meta m → plain_meta (keep_meta m).
Proof. intros. unfold keep_meta. by destruct (neu_dvalue_is_array (meta_value m)). Qed.

Lemma runs_free_plain dv h (Q : neu_dvalue_t → mem J → Prop) :
  by_pointer (dv_type dv) = false → Q dv h → runs (neu_free_dvalue dv) h Q.
Proof.
  intros Hp HQ. unfold neu_free_dvalue, by_pointer in *.
  destruct (is_num_array (dv_type dv)); [done|].
  destruct (decide (dv_type dv = NEU_TYPE_ARRAY_STRING)) as [E|]; [by rewrite E in Hp|].
  destruct (decide (dv_type dv = NEU_TYPE_CUSTOM)) as [E|]; [by rewrite E in Hp|].
  by apply runs_ret.
Qed.

Lemma runs_store_metas ms h (Q : list neu_tag_meta_t * list neu_tag_meta_t → mem J → Prop) :
  Forall plain_meta ms → Q (keep_meta <$> ms, ms) h → runs (store_metas ms) h Q.
Proof.
  intros Hms. revert Q. induction Hms as [|m ms Hm Hms IH]; intros Q HQ; cbn [store_metas].
  { by apply runs_ret. }
  apply runs_bind. set (R := λ (r : neu_tag_meta_t * neu_tag_meta_t) h',
    r = (keep_meta m, m) ∧ h' = h).
  apply (runs_mono _ _ R).
  - unfold R, keep_meta. destruct (neu_dvalue_is_array (meta_value m)) eqn:E.
    + apply runs_bind, runs_free_plain; [done|]. apply runs_ret. by destruct m.
    + by apply runs_ret.
  - intros r h' [-> ->]. apply runs_bind, IH. by apply runs_ret.
Qed.

Lemma runs_free_metas ms h (Q : () → mem J → Prop) :
  Forall plain_meta ms → Q () h → runs (free_metas ms) h Q.
Proof.
  intros Hms. induction Hms as [|m ms Hm Hms IH]; intros HQ; cbn [free_metas].
  { by apply runs_ret. }
  apply runs_bind, runs_free_plain; [done|]. by apply IH.
Qed.

(** ** Updating *)

Definition normalize (v : neu_dvalue_t) : neu_dvalue_t :=
  {| dv_type := dv_type v; dv_value := dv_value v; dv_precision := dv_precision v;
     dv_attrs := normalize_attrs (dv_attrs v) |}.

(** The sample a tag has after an update. *)
Definition updated_sample h (s : sample) (tag_changed : bool) (ts : Z) (v : neu_dvalue_t)
    (ms : list neu_tag_meta_t) (change : bool) : sample :=
  {| s_timestamp := ts; s_changed := s_changed s || tag_changed || change;
     s_type := dv_type v; s_content := dv_content h v; s_precision := s_precision s;
     s_attrs := normalize_attrs (dv_attrs v);
     s_metas := if decide (ms = []) then s_metas s else keep_meta <$> ms |}.

(** What a caller of the update has to respect: the value is well-formed, its
    memory is not the cache's, a pointer value does not replace a value of
    another type (an error apart), metas carry no memory, and there is room for
    one block. *)
Record update_pre h c (k : tkey_t) (v : neu_dvalue_t) (ms : list neu_tag_meta_t) : Prop := {
  upd_value : dv_ok h v;
  upd_own : ∀ e p, e ∈ table c → p ∈ dv_owned h v → p ∉ dv_owned h (value e);
  upd_ptr : dv_type v = NEU_TYPE_PTR → ∀ s, view h c !! k = Some s →
            s_type s = NEU_TYPE_PTR ∨ s_type s = NEU_TYPE_ERROR;
  upd_metas : Forall plain_meta ms;
  upd_room : hp_next h < 2 ^ 64;
  upd_filter : sub_filter_err = false ∨ by_pointer (dv_type v) = false;
}.

Lemma runs_elem_update h c e k ts v ms change :
  cache_ok h c → e ∈ table c → key e = k → update_pre h c k v ms →
  runs (elem_update pow01 sub_filter_err e ts v ms change) h (λ '(tc, e', caller) h',
    tc = default false (change_spec h e v) ∧ caller = ms ∧ key e' = key e ∧ elem_side e' ∧
    stored h (value e) v (dv_value (value e')) h' ∧ dv_type (value e') = dv_type v ∧
    view_elem h' e' = {| s_timestamp := ts; s_changed := changed e || tc || change;
       s_type := dv_type v; s_content := dv_content h v;
       s_precision := dv_precision (value e); s_attrs := dv_attrs v;
       s_metas := if decide (ms = []) then metas e else keep_meta <$> ms |}).
Proof.
  intros [Hok Hk Hv Hm Hd] He Hke [Hnv Hown Hptr Hms Hroom Hfil].
  destruct (Hm e He) as [Hem Hold]. unfold elem_update.
  apply runs_bind, runs_detect_change; [by apply Hv|done..|].
  apply runs_bind. eapply runs_mono; [apply (runs_store_value h (value e) v); [done|by apply Hv|done| |  |done]|].
  { intros p Hp. by apply Hown. }
  { intros Ht. apply (Hptr Ht (view_elem h e)). rewrite view_lookup, <-Hke.
    by rewrite (hash_find_elem key). }
  intros w h1 Hst. apply runs_bind, runs_store_metas; [done|]. apply runs_ret. cbn.
  split_and!; try done.
  - split; cbn.
    + destruct (decide (ms = [])); [done|]. apply Forall_fmap. eapply Forall_impl; [exact Hms|].
      apply keep_meta_plain.
    + destruct (match change_spec h e v with Some _ => _ | None => _ end); [apply Hnv|done].
  - unfold view_elem, dv_content. cbn. f_equal. apply (stored_content _ _ _ _ _ Hst).
Qed.

Lemma runs_update_change h c group tag s ts v ms change :
  let k := to_key group tag in
  cache_ok h c → view h c !! k = Some s → update_pre h c k v ms →
  runs (neu_driver_cache_update_change pow01 sub_filter_err c group tag ts v ms change) h
    (λ '(tc, c', caller) h', cache_ok h' c' ∧ caller = ms ∧
       (∃ e, hash_find key k (table c) = Some e ∧
          tc = default false (change_spec h e (normalize v))) ∧
       view h' c' = <[k := updated_sample h s tc ts v ms change]> (view h c)).
Proof.
  intros k Hc Hs Hpre. unfold neu_driver_cache_update_change. fold k (normalize v).
  rewrite view_lookup in Hs. apply fmap_Some in Hs as (e & Hfind & ->). rewrite Hfind.
  apply hash_find_Some in Hfind as Hin. destruct Hin as [He Hke].
  assert (Hpre' : update_pre h c k (normalize v) ms) by (destruct Hpre; by split).
  apply runs_bind. eapply runs_mono; [by apply (runs_elem_update h c e k)|].
  intros [[tc e'] caller] h' (Htc & -> & Hkey & Hside & Hst & Hty & Hview). apply runs_ret.
  destruct (cache_replace h h' c e e') as [Hc' Hv']; [done..| | | |done| |].
  - apply Hst.
  - apply Hst.
  - unfold dv_ok. rewrite Hty. apply Hst.
  - intros x p Hx Hne Hp. unfold dv_owned in Hp. rewrite Hty in Hp.
    apply (stored_owned _ _ _ _ _ Hst) in Hp as [Hp|Hp]; [by apply (upd_own _ _ _ _ _ Hpre)|].
    intros Hpx. pose proof (value_live _ _ _ (cache_values _ _ Hc x Hx)) as Hl.
    rewrite Forall_forall in Hl. apply Hl in Hpx.
    apply heap_ok_live in Hpx; [lia|apply Hc].
  - rewrite Hke in Hc', Hv'. split_and!; [done|done|by exists e|].
    rewrite Hv'. f_equal. rewrite Hview. done.
Qed.
End Detect.

(** ** Reading, removing, adding, renaming *)

Section Operations.
Context {J : Type} `{Jansson J}.
Implicit Types (h : mem J) (c : neu_driver_cache_t) (e : elem).

(** What a reader gets for the sample [s]: its fields, and the content in memory
    that is neither the cache's nor anybody else's. *)
Record delivered h h' (s : sample) (cv : neu_driver_cache_value_t) (ms : list neu_tag_meta_t)
    : Prop := {
  dlv_timestamp : cv_timestamp cv = s_timestamp s;
  dlv_type : dv_type (cv_value cv) = s_type s;
  dlv_content : s_type s ≠ NEU_TYPE_CUSTOM → dv_content h' (cv_value cv) = s_content s;
  dlv_precision : dv_precision (cv_value cv) = s_precision s;
  dlv_attrs : dv_attrs (cv_value cv) = s_attrs s;
  dlv_metas : ms = s_metas s;
  dlv_fresh : Forall (λ p, hp_next h <= p ∧ is_Some (hp_blocks h' !! p))
                (dv_owned h' (cv_value cv));
  dlv_nodup : NoDup (dv_owned h' (cv_value cv));
  dlv_union : union_ok (dv_value (cv_value cv));
}.

(** Room for a copy of every cached value. *)
Definition read_room h c : Prop := ∀ e, e ∈ table c → copy_room h (value e).

Lemma runs_read_elem h c e dst (Q : neu_driver_cache_value_t → mem J → Prop) :
  cache_ok h c → e ∈ table c → union_ok (dv_value (cv_value dst)) → read_room h c →
  (∀ cv h', delivered h h' (view_elem h e) cv (metas e) → cache_ok h' c → frame [] h h' →
     view h' c = view h c → Q cv h') →
  runs (read_elem e dst) h Q.
Proof.
  intros Hc He Hd Hroom HQ. apply runs_bind.
  eapply runs_mono; [apply (runs_copy_value h (value e) (dv_value (cv_value dst)))|].
  - apply Hc.
  - by apply Hc.
  - done.
  - by apply Hroom.
  - intros w h' [Hok' Hf Hu Hcon Ho Hnd]. apply runs_ret.
    destruct (cache_frame [] h h' c) as [Hc' Hv']; [done..|intros; apply not_elem_of_nil|].
    apply HQ; [|done..]. by split.
Qed.

Lemma cache_remove h h' c e :
  cache_ok h c → e ∈ table c → heap_ok h' → frame (dv_owned h (value e)) h h' →
  let c' := set_table (hash_del key (key e) (table c)) c in
  cache_ok h' c' ∧ view h' c' = delete (key e) (view h c).
Proof.
  intros Hc He Hok' Hf c'. pose proof Hc as [Hok Hk Hv Hm Hd].
  assert (Hin : ∀ x, x ∈ table c' → x ∈ table c ∧ key x ≠ key e)
    by (intros x Hx; by apply elem_of_hash_del in Hx).
  assert (Hc1 : cache_ok h c').
  { split; [done|by apply table_ok_del| | |].
    - intros x [Hx _]%Hin. by apply Hv.
    - intros x [Hx _]%Hin. by apply Hm.
    - intros x y [Hx _]%Hin [Hy _]%Hin. by apply Hd. }
  destruct (cache_frame _ h h' c' Hc1 Hok' Hf) as [Hc2 Hv2].
  { intros x p [Hx Hne]%Hin Hp. by apply (Hd x e). }
  split; [done|]. rewrite Hv2. unfold view, c'. simpl. rewrite to_map_del by done.
  by rewrite fmap_delete.
Qed.

Lemma runs_cache_del h c group tag (Q : neu_driver_cache_t → mem J → Prop) :
  let k := to_key group tag in
  cache_ok h c →
  (∀ c' h', cache_ok h' c' → view h' c' = delete k (view h c) →
     (∀ e, hash_find key k (table c) = Some e → released (dv_owned h (value e)) h h') →
     Q c' h') →
  runs (neu_driver_cache_del c group tag) h Q.
Proof.
  intros k Hc HQ. unfold neu_driver_cache_del. fold k.
  destruct (hash_find key k (table c)) as [e|] eqn:E.
  - apply hash_find_Some in E as [He Hke]. apply runs_bind, runs_bind.
    apply runs_release_value; [apply Hc|by apply Hc|]. intros h' Hrel.
    apply runs_free_metas; [by apply (cache_side h c Hc e)|]. apply runs_ret.
    destruct (cache_remove h h' c e) as [Hc' Hv']; [done..| | |].
    + eapply released_ok; [done|apply Hc].
    + by apply released_frame.
    + rewrite Hke in Hc', Hv'. apply HQ; [done..|]. by intros ? [= <-].
  - apply runs_ret, HQ; [done| |done]. rewrite delete_id; [done|].
    by rewrite view_lookup, E.
Qed.

Definition new_sample h (v : neu_dvalue_t) (ms : list neu_tag_meta_t) : sample :=
  {| s_timestamp := 0; s_changed := false; s_type := dv_type v; s_content := dv_content h v;
     s_precision := dv_precision v; s_attrs := dv_attrs v; s_metas := ms |}.

Lemma value_zero_ok : union_ok value_zero.
Proof. split; [done|]. by apply bytes_ok_replicate. Qed.

Lemma elem_of_add_reset k v t x :
  table_ok key t →
  x ∈ hash_update key k (elem_reset v)
        (match hash_find key k t with None => hash_add (elem_init k) t | Some _ => t end) →
  (∃ e, x = elem_reset v e ∧ key e = k ∧ (hash_find key k t = Some e ∨ e = elem_init k)) ∨
  (x ∈ t ∧ key x ≠ k).
Proof.
  intros Ht Hx.
  assert (Ht' : table_ok key
    (match hash_find key k t with None => hash_add (elem_init k) t | Some _ => t end)).
  { destruct (hash_find key k t) eqn:E; [done|]. by apply table_ok_add. }
  rewrite hash_update_fmap in Hx by done. apply list_elem_of_fmap in Hx as (y & -> & Hy).
  destruct (decide (key y = k)) as [Hk|Hk].
  - left. exists y. split_and!; [done..|]. destruct (hash_find key k t) as [e|] eqn:E.
    + left. rewrite <-E, <-Hk. by apply hash_find_elem.
    + apply elem_of_app in Hy as [Hy|Hy]; [|right; by apply list_elem_of_singleton].
      apply hash_find_None in E. destruct E. rewrite <-Hk. by apply list_elem_of_fmap_2.
  - right. split; [|done]. destruct (hash_find key k t) as [e|] eqn:E; [done|].
    apply elem_of_app in Hy as [Hy|Hy]; [done|]. apply list_elem_of_singleton in Hy.
    by subst.
Qed.

(** Adding a tag with a value that owns nothing: the sample is reset, the metas
    of an earlier tag of the same name stay. *)
Lemma cache_add h c group tag v :
  let k := to_key group tag in
  cache_ok h c → dv_ok h v → dv_owned h v = [] →
  cache_ok h (neu_driver_cache_add c group tag v) ∧
  view h (neu_driver_cache_add c group tag v) =
    <[k := new_sample h v (default [] (s_metas <$> view h c !! k))]> (view h c).
Proof.
  intros k Hc Hv Hno. pose proof Hc as [Hok Hk Hvs Hm Hd].
  unfold neu_driver_cache_add. fold k. set (t := match hash_find key k (table c) with
    None => hash_add (elem_init k) (table c) | Some _ => table c end).
  assert (Ht : table_ok key t).
  { subst t. destruct (hash_find key k (table c)) eqn:E; [done|]. by apply table_ok_add. }
  assert (Hin : ∀ x, x ∈ hash_update key k (elem_reset v) t → _)
    by (intros x; apply (elem_of_add_reset k v (table c) x Hk)).
  assert (Hown : ∀ x p, x ∈ hash_update key k (elem_reset v) t → p ∈ dv_owned h (value x) →
    x ∈ table c ∧ key x ≠ k).
  { intros x p Hx Hp. apply Hin in Hx as [(e & -> & _)|Hx]; [|done]. simpl in Hp.
    rewrite Hno in Hp. by apply not_elem_of_nil in Hp. }
  split.
  - split; [done| | | |].
    + unfold table_ok. simpl. by rewrite hash_update_keys.
    + intros x [(e & -> & _)|[Hx _]]%Hin; [done|]. by apply Hvs.
    + intros x [(e & -> & _ & [E | ->])|[Hx _]]%Hin.
      * apply hash_find_Some in E as [He _]. by destruct (Hm e He).
      * split; [done|apply value_zero_ok].
      * by apply Hm.
    + intros x y Hx Hy Hne p Hpx Hpy. destruct (Hown x p Hx Hpx), (Hown y p Hy Hpy).
      by eapply (Hd x y).
  - apply map_eq. intros k'. rewrite view_lookup. simpl. rewrite hash_find_update by done.
    rewrite lookup_insert. destruct (decide (k' = k)) as [->|Hne].
    + rewrite decide_True, view_lookup by done. subst t.
      destruct (hash_find key k (table c)) as [e|] eqn:E; simpl; [by rewrite E|].
      rewrite hash_find_add, E. by rewrite decide_True.
    + rewrite decide_False, view_lookup by done. subst t. f_equal.
      destruct (hash_find key k (table c)) as [e|] eqn:E; [done|].
      rewrite hash_find_add. destruct (hash_find key k' (table c)); [done|].
      by rewrite decide_False.
Qed.

(** Renaming moves the sample to a name that is free. *)
Lemma cache_rename h c group old_tag new_tag :
  let k := to_key group old_tag in
  let k' := to_key group new_tag in
  cache_ok h c → view h c !! k' = None →
  cache_ok h (neu_driver_cache_rename c group old_tag new_tag) ∧
  view h (neu_driver_cache_rename c group old_tag new_tag) =
    match view h c !! k with
    | Some s => <[k' := s]> (delete k (view h c))
    | None => view h c
    end.
Proof.
  intros k k' Hc Hfree. unfold neu_driver_cache_rename. fold k k'. rewrite view_lookup in Hfree.
  apply fmap_None in Hfree. rewrite view_lookup.
  destruct (hash_find key k (table c)) as [e|] eqn:E; [|done].
  apply hash_find_Some in E as [He Hke].
  pose proof Hc as [Hok Hk Hv Hm Hd]. assert (Hdel : hash_find key k' (hash_del key k (table c)) = None).
  { rewrite hash_find_del, Hfree by done. by destruct (decide _). }
  assert (Hin : ∀ x, x ∈ hash_add (with_key k' e) (hash_del key k (table c)) →
      x = with_key k' e ∨ (x ∈ table c ∧ key x ≠ k)).
  { intros x [Hx|Hx]%elem_of_app; [right; by apply elem_of_hash_del in Hx|left].
    by apply list_elem_of_singleton. }
  split.
  - split; [done| | | |]; simpl.
    + by apply table_ok_add; [apply table_ok_del|].
    + intros x [-> | [Hx _]]%Hin; [|by apply Hv]. apply (Hv e He).
    + intros x [-> | [Hx _]]%Hin; [|by apply Hm]. apply (Hm e He).
    + intros x y [-> | [Hx Hnx]]%Hin [-> | [Hy Hny]]%Hin Hne p; simpl; [done| | |].
      * apply (Hd e y); [done..|congruence].
      * apply (Hd x e); [done..|congruence].
      * apply Hd; [done..|]. done.
  - unfold view. simpl. rewrite to_map_add by done. rewrite to_map_del by done.
    by rewrite fmap_insert, fmap_delete.
Qed.
End Operations.

(** ** The theorems *)

Section Theorems.
Context {J : Type} `{Jansson J}.
Context (pow01 : Z → spec_float).
Implicit Types (h : mem J) (c : neu_driver_cache_t) (e : elem).

Definition quality_differs (a b : neu_tag_sample_attrs_t) : bool :=
  negb (eqb (has_quality a) (has_quality b)) ||
  (has_quality b && negb (at_quality a =? at_quality b)).

Lemma update_absent filt h c group tag ts v ms change :
  view h c !! to_key group tag = None →
  neu_driver_cache_update_change pow01 filt c group tag ts v ms change h
    = Some (false, c, ms, h).
Proof.
  rewrite view_lookup. intros Hn%fmap_None. unfold neu_driver_cache_update_change.
  by rewrite Hn.
Qed.

(** C4: updating a tag, within [update_pre], is safe and implements the update of a
    map. For a well-formed value whose memory is not the cache's, which is an opaque
    pointer only where the tag holds a pointer or an error, and with errors not
    filtered if the value is behind a pointer ([filter_err_use_after_free] shows
    why), the update returns (it never reads or frees memory that is not there), the
    cache keeps owning the current values it points to, the tag's sample becomes the
    new one with the content of the value, the change flag is raised by a detected
    or requested change, the precision of the tag stays, and no other tag is
    affected; an unknown tag is ignored. *)
Theorem cache_update_refines sub_filter_err h c group tag ts v ms change :
  let k := to_key group tag in
  cache_ok h c → update_pre sub_filter_err h c k v ms →
  runs (neu_driver_cache_update_change pow01 sub_filter_err c group tag ts v ms change) h
    (λ '(tag_changed, c', caller) h', cache_ok h' c' ∧ caller = ms ∧
       view h' c' = match view h c !! k with
                    | Some s => <[k := updated_sample h s tag_changed ts v ms change]> (view h c)
                    | None => view h c
                    end).
Proof.
  intros k Hc Hpre. destruct (view h c !! k) as [s|] eqn:Hs.
  - eapply runs_mono; [by apply runs_update_change|].
    intros [[tc c'] caller] h' (Hc' & -> & _ & Hv). done.
  - eexists _, h. split; [by apply update_absent|]. done.
Qed.

(** C30: what counts as a change when errors are reported.  A new type and every
    error are changes.  For arrays of numbers and byte strings the update reports
    a change exactly when the content or the quality differs from the cached
    sample; for the other values kept in place, floating point apart, a different
    content is never missed. *)
Theorem cache_change_exact h c group tag s ts v ms change :
  let k := to_key group tag in
  cache_ok h c → update_pre false h c k v ms → view h c !! k = Some s →
  runs (neu_driver_cache_update_change pow01 false c group tag ts v ms change) h
    (λ '(tag_changed, _, _) _,
       (s_type s ≠ dv_type v → tag_changed = true) ∧
       (dv_type v = NEU_TYPE_ERROR → tag_changed = true) ∧
       (s_type s = dv_type v →
        is_num_array (dv_type v) = true ∨ dv_type v = NEU_TYPE_BYTES →
        tag_changed = bool_decide (s_content s ≠ dv_content h v) ||
                      quality_differs (s_attrs s) (normalize_attrs (dv_attrs v))) ∧
       (s_type s = dv_type v → by_pointer (dv_type v) = false →
        dv_type v ≠ NEU_TYPE_FLOAT → dv_type v ≠ NEU_TYPE_DOUBLE →
        s_content s ≠ dv_content h v → tag_changed = true)).
Proof.
  intros k Hc Hpre Hs. eapply runs_mono; [by apply runs_update_change|].
  intros [[tc c'] caller] h' (_ & _ & (e & He & ->) & _).
  fold k in He. rewrite view_lookup, He in Hs. injection Hs as <-. simpl.
  unfold change_spec, quality_ne. cbn. fold (quality_differs (dv_attrs (value e))
    (normalize_attrs (dv_attrs v))). split_and!.
  - intros Hne. by rewrite bool_decide_false.
  - intros Ht. rewrite Ht. by destruct (bool_decide _).
  - intros Hs Ht. rewrite bool_decide_true by done. unfold dv_content. rewrite Hs. f_equal.
    destruct Ht as [Ht|Ht]; [|by rewrite Ht]. unfold values_differ. rewrite Ht.
    by destruct (dv_type v).
  - intros Hs Hp Hf Hd Hne. rewrite bool_decide_true by done. apply orb_true_iff. left.
    unfold dv_content in Hne. rewrite Hs in Hne. unfold values_differ.
    destruct (dv_type v); try done;
      apply bool_decide_true; intros E; apply Hne; by rewrite ?E.
Qed.

Lemma runs_meta_get h c group tag dst :
  cache_ok h c → union_ok (dv_value (cv_value dst)) → read_room h c →
  runs (neu_driver_cache_meta_get c group tag dst) h (λ r h',
    cache_ok h' c ∧ view h' c = view h c ∧ frame [] h h' ∧
    match view h c !! to_key group tag, r with
    | Some s, Some (cv, ms) => delivered h h' s cv ms
    | None, None => True
    | _, _ => False
    end).
Proof.
  intros Hc Hd Hroom. unfold neu_driver_cache_meta_get. rewrite view_lookup.
  destruct (hash_find key (to_key group tag) (table c)) as [e|] eqn:E; simpl.
  - apply hash_find_Some in E as [He _]. apply runs_bind.
    eapply runs_read_elem; [done..|]. intros cv h' Hdl Hc' Hf Hv. by apply runs_ret.
  - apply runs_ret. split_and!; [done..|apply frame_refl|done].
Qed.

(** Reading a tag delivers its sample.  The reader gets the sample that the
    last update stored (JSON values apart, which the JSON library copies), in
    memory of its own: every block it receives is new, so that it can be freed or
    written without touching the cache, which is unchanged. *)
Theorem cache_get_delivers h c group tag dst :
  cache_ok h c → union_ok (dv_value (cv_value dst)) → read_room h c →
  runs (neu_driver_cache_meta_get c group tag dst) h (λ r h',
    cache_ok h' c ∧ view h' c = view h c ∧ frame [] h h' ∧
    match view h c !! to_key group tag, r with
    | Some s, Some (cv, ms) => delivered h h' s cv ms
    | None, None => True
    | _, _ => False
    end).
Proof. apply runs_meta_get. Qed.

Lemma runs_get_changed h c group tag dst :
  let k := to_key group tag in
  cache_ok h c → union_ok (dv_value (cv_value dst)) → read_room h c →
  runs (neu_driver_cache_meta_get_changed c group tag dst) h (λ '(r, c') h',
    cache_ok h' c' ∧ frame [] h h' ∧
    (∀ x, x ∈ table c' → ∃ y, y ∈ table c ∧ value y = value x) ∧
    match view h c !! k, r with
    | Some s, Some (cv, ms) => s_changed s = true ∧ delivered h h' s cv ms ∧
        (s_type s = NEU_TYPE_ERROR → view h' c' = view h c) ∧
        (s_type s ≠ NEU_TYPE_ERROR →
           s_changed <$> view h' c' !! k = Some false ∧
           neu_driver_cache_meta_get_changed c' group tag dst h' = Some (None, c', h'))
    | Some s, None => s_changed s = false ∧ c' = c ∧ h' = h
    | None, None => c' = c ∧ h' = h
    | None, Some _ => False
    end).
Proof.
  intros k Hc Hd Hroom. unfold neu_driver_cache_meta_get_changed at 1. fold k.
  rewrite view_lookup. destruct (hash_find key k (table c)) as [e|] eqn:E; simpl.
  2: { apply runs_ret. split_and!; [done|apply frame_refl|eauto|done|done]. }
  destruct (changed e) eqn:Hch.
  2: { apply runs_ret. split_and!; [done|apply frame_refl|eauto|done..]. }
  apply hash_find_Some in E as Hin. destruct Hin as [He Hke]. apply runs_bind.
  eapply runs_read_elem; [done..|]. intros cv h' Hdl Hc' Hf Hv. apply runs_ret.
  set (e' := if decide (dv_type (value e) ≠ NEU_TYPE_ERROR) then with_changed false e else e).
  assert (Hval : value e' = value e ∧ key e' = key e ∧ elem_side e').
  { subst e'. pose proof (cache_side _ _ Hc e He). by destruct (decide _). }
  destruct Hval as (Hval & Hkey & Hside).
  destruct (cache_replace h' h' c e e') as [Hc2 Hv2]; [done..| |apply frame_refl| |done| |].
  { apply Hc'. }
  { rewrite Hval. by apply Hc'. }
  { intros x p Hx Hne Hp. rewrite Hval in Hp. apply (cache_disjoint _ _ Hc' e x); done. }
  rewrite Hke in Hc2, Hv2. split_and!; [done..| |done|done| |].
  - intros x Hx. simpl in Hx. apply elem_of_hash_replace in Hx as [->|[Hx _]]; [|by exists x|apply Hc].
    exists e. split; [done|congruence].
  - intros Ht. rewrite Hv2, <-Hv. apply insert_id. rewrite view_lookup, E. simpl. f_equal.
    subst e'. by rewrite decide_False by (intros ?; done).
  - intros Ht. rewrite Hv2, lookup_insert_eq. subst e'. rewrite decide_True by done.
    split; [done|]. unfold neu_driver_cache_meta_get_changed. fold k. simpl.
    rewrite hash_find_replace by done. by rewrite decide_True, E by done.
Qed.

(** A change is reported once.  Reading the changed tags returns a sample
    exactly when the change flag of the tag is raised, delivers it, and lowers the
    flag, so that the next read returns nothing until another change; errors keep
    their flag and are returned every time. *)
Theorem cache_get_changed_once h c group tag dst :
  let k := to_key group tag in
  cache_ok h c → union_ok (dv_value (cv_value dst)) → read_room h c →
  runs (neu_driver_cache_meta_get_changed c group tag dst) h (λ '(r, c') h',
    cache_ok h' c' ∧ frame [] h h' ∧
    match view h c !! k, r with
    | Some s, Some (cv, ms) => s_changed s = true ∧ delivered h h' s cv ms ∧
        (s_type s = NEU_TYPE_ERROR → view h' c' = view h c) ∧
        (s_type s ≠ NEU_TYPE_ERROR →
           s_changed <$> view h' c' !! k = Some false ∧
           neu_driver_cache_meta_get_changed c' group tag dst h' = Some (None, c', h'))
    | Some s, None => s_changed s = false ∧ c' = c ∧ h' = h
    | None, None => c' = c ∧ h' = h
    | None, Some _ => False
    end).
Proof.
  intros k Hc Hd Hroom. eapply runs_mono; [by apply runs_get_changed|].
  intros [r c'] h' (Hc' & Hf & _ & Hm). done.
Qed.

(** The first pointer of an array of strings is the first eight bytes of its
    slots. *)
Lemma slots_head h t v q :
  value_ok h t v → t = NEU_TYPE_ARRAY_STRING → 0 < arr_length v →
  (∀ bb, slots h v = Some bb → q = le_load (take 8 bb)) → q ∈ owned h t v.
Proof.
  intros [Hu [ct Hc] _ _ _] -> Hn Hq. cbn in Hc |- *.
  apply bind_Some in Hc as (qs & Hqs & _). rewrite Hqs. cbn [default]. unfold id.
  apply elem_of_app. right. destruct (Z.to_nat (arr_length v)) as [|n] eqn:En; [lia|].
  destruct (load_ptrs_slots _ _ _ _ _ Hqs) as [bb Hbb]. change (8 * 0)%nat with O in Hbb.
  rewrite (Hq bb) by (unfold slots; by rewrite En). cbn [load_ptrs] in Hqs.
  apply bind_Some in Hqs as (bs & Hbs & (qs' & _ & [= <-])%bind_Some).
  change (8 * 0)%nat with O in Hbs. unfold load_bytes in Hbs, Hbb.
  rewrite decide_False in Hbs by lia. rewrite decide_False in Hbb by lia.
  apply bind_Some in Hbs as (b & Hb & Hbs). rewrite Hb in Hbb. cbn [mbind option_bind] in Hbb.
  destruct (decide (0 + 8 <= length b)%nat); [|done]. injection Hbs as <-.
  case_decide; [|done]. injection Hbb as <-. unfold mem_read. rewrite take_take.
  replace (8 `min` (S n * 8))%nat with 8%nat by lia. left.
Qed.

(** Arrays of strings are always reported.  The comparison is of the
    [char *] values, and the new array has strings of its own, so an update with
    a non-empty array of strings is a change even when every string is equal. *)
Theorem string_array_always_changed h c group tag s ts v ms change :
  let k := to_key group tag in
  cache_ok h c → update_pre false h c k v ms → view h c !! k = Some s →
  s_type s = NEU_TYPE_ARRAY_STRING → dv_type v = NEU_TYPE_ARRAY_STRING →
  0 < arr_length (dv_value v) →
  runs (neu_driver_cache_update_change pow01 false c group tag ts v ms change) h
    (λ '(tag_changed, _, _) _, tag_changed = true).
Proof.
  intros k Hc Hpre Hs Hst Hvt Hn. eapply runs_mono; [by apply runs_update_change|].
  intros [[tc c'] caller] h' (_ & _ & (e & He & ->) & _). fold k in He.
  rewrite view_lookup, He in Hs. injection Hs as <-. simpl in Hst.
  apply hash_find_Some in He as [He _]. unfold change_spec. cbn. rewrite Hvt, Hst. cbn.
  apply orb_true_iff. left. apply bool_decide_true. intros Heq.
  pose proof (cache_values _ _ Hc e He) as Hev. pose proof (upd_value _ _ _ _ _ _ Hpre) as Hnv.
  unfold dv_ok in Hev, Hnv. rewrite Hst in Hev. rewrite Hvt in Hnv.
  assert (Hlen : arr_length (dv_value (value e)) = arr_length (dv_value v)).
  { destruct (value_content _ _ _ Hev) as [ct Hct], (value_content _ _ _ Hnv) as [ct' Hct'].
    cbn in Hct, Hct'. apply bind_Some in Hct as (qs & Hqs & _).
    apply bind_Some in Hct' as (qs' & Hqs' & _). apply load_ptrs_slots in Hqs as [b Hb].
    apply load_ptrs_slots in Hqs' as [b' Hb']. unfold slots in Heq.
    change (8 * 0)%nat with O in Hb, Hb'. rewrite Hb, Hb' in Heq. injection Heq as <-.
    apply load_bytes_length in Hb, Hb'.
    pose proof (arr_length_range _ (value_union _ _ _ Hev)).
    pose proof (arr_length_range _ (value_union _ _ _ Hnv)). lia. }
  set (q := le_load (take 8 (default [] (slots h (dv_value v))))).
  apply (upd_own _ _ _ _ _ _ Hpre e q He).
  - unfold dv_owned. rewrite Hvt. apply (slots_head h _ _ q Hnv eq_refl Hn).
    intros bb Hbb. unfold q. by rewrite Hbb.
  - unfold dv_owned. rewrite Hst. apply (slots_head h _ _ q Hev eq_refl); [lia|].
    intros bb Hbb. unfold q. by rewrite <-Heq, Hbb.
Qed.
End Theorems.

(** ** Histories of the cache *)

Section Histories.
Context {J : Type} `{Jansson J}.
Context (pow01 : Z → spec_float) (sub_filter_err : bool).
Implicit Types (h : mem J) (c : neu_driver_cache_t) (e : elem).

(** One event: an operation of the driver within its preconditions, or work of
    other code on memory that is not the cache's. *)
Inductive cache_step : mem J * neu_driver_cache_t → mem J * neu_driver_cache_t → Prop :=
  | step_update h c group tag ts v ms change tc c' caller h' :
      update_pre sub_filter_err h c (to_key group tag) v ms →
      neu_driver_cache_update_change pow01 sub_filter_err c group tag ts v ms change h
        = Some (tc, c', caller, h') →
      cache_step (h, c) (h', c')
  | step_get h c group tag dst r h' :
      union_ok (dv_value (cv_value dst)) → read_room h c →
      neu_driver_cache_meta_get c group tag dst h = Some (r, h') →
      cache_step (h, c) (h', c)
  | step_get_changed h c group tag dst r c' h' :
      union_ok (dv_value (cv_value dst)) → read_room h c →
      neu_driver_cache_meta_get_changed c group tag dst h = Some (r, c', h') →
      cache_step (h, c) (h', c')
  | step_del h c group tag c' h' :
      neu_driver_cache_del c group tag h = Some (c', h') → cache_step (h, c) (h', c')
  | step_add h c group tag v :
      dv_ok h v → dv_owned h v = [] →
      cache_step (h, c) (h, neu_driver_cache_add c group tag v)
  | step_rename h c group old_tag new_tag :
      view h c !! to_key group new_tag = None →
      cache_step (h, c) (h, neu_driver_cache_rename c group old_tag new_tag)
  | step_trace h c group ctx :
      cache_step (h, c) (h, neu_driver_cache_update_trace c group ctx)
  | step_environment h c h' X :
      heap_ok h' → frame X h h' →
      (∀ e p, e ∈ table c → p ∈ dv_owned h (value e) → p ∉ X) →
      cache_step (h, c) (h', c).

Lemma runs_eq {A} (m : M J A) h Q a h' : runs m h Q → m h = Some (a, h') → Q a h'.
Proof. intros (b & h1 & Hm & HQ) E. rewrite Hm in E. by injection E as -> ->. Qed.

Lemma cache_step_ok x y : cache_step x y → cache_ok x.1 x.2 → cache_ok y.1 y.2.
Proof.
  destruct 1 as [h c group tag ts v ms change tc c' caller h' Hpre E
    |h c group tag dst r h' Hu Hr E|h c group tag dst r c' h' Hu Hr E|h c group tag c' h' E
    |h c group tag v Hv Ho|h c group old_tag new_tag Hn|h c group ctx|h c h' X Hok Hf HX];
    simpl; intros Hc.
  - destruct (view h c !! to_key group tag) as [s|] eqn:Hs.
    + by apply (runs_eq _ _ _ _ _ (runs_update_change _ _ _ _ _ _ _ ts _ _ change Hc Hs Hpre)) in E
        as [? _].
    + rewrite update_absent in E by done. by injection E as <- <- <- <-.
  - by apply (runs_eq _ _ _ _ _ (runs_meta_get _ _ group tag _ Hc Hu Hr)) in E as [? _].
  - by apply (runs_eq _ _ _ _ _ (runs_get_changed _ _ group tag _ Hc Hu Hr)) in E as [? _].
  - eapply (runs_eq _ _ (λ c' h', cache_ok h' c')) in E; [done|].
    by apply runs_cache_del.
  - by apply cache_add.
  - by apply cache_rename.
  - destruct Hc. by split.
  - by eapply cache_frame.
Qed.

(** Everything the cache owns. *)
Definition cache_owned h c : list Z := concat ((λ e, dv_owned h (value e)) <$> table c).

Lemma runs_free_table t : ∀ h c,
  cache_ok h c → table c = t →
  runs (free_table t) h (λ _ h', released (cache_owned h c) h h').
Proof.
  induction t as [|e t IH]; intros h c Hc Ht; cbn [free_table]; unfold cache_owned; rewrite Ht.
  { apply runs_ret. by apply released_nil. }
  assert (He : e ∈ table c) by (rewrite Ht; left).
  apply runs_bind, runs_bind, runs_release_value; [apply Hc|by apply Hc|]. intros h1 Hrel.
  apply runs_free_metas; [by apply (cache_side h c Hc e)|].
  pose proof (released_ok _ _ _ Hrel (cache_heap _ _ Hc)) as Hok1.
  pose proof (released_frame _ _ _ Hrel) as Hf.
  destruct (cache_remove h h1 c e Hc He Hok1 Hf) as [Hc1 _].
  assert (Ht1 : table (set_table (hash_del key (key e) (table c)) c) = t).
  { simpl. rewrite Ht. simpl. by rewrite decide_True. }
  eapply runs_mono; [apply (IH h1 _ Hc1 Ht1)|]. intros u h' Hrel2.
  assert (Heq : cache_owned h1 (set_table (hash_del key (key e) (table c)) c) =
      concat ((λ e, dv_owned h (value e)) <$> t)).
  { unfold cache_owned. rewrite Ht1. f_equal. apply list_fmap_ext. intros i x Hx.
    assert (Hxt : x ∈ t) by by eapply list_elem_of_lookup_2.
    assert (Hne : key x ≠ key e).
    { pose proof (cache_keys _ _ Hc) as Hk. rewrite Ht in Hk. unfold table_ok in Hk.
      cbn in Hk. apply NoDup_cons in Hk as [Hk _]. intros E. apply Hk. rewrite <-E.
      by apply list_elem_of_fmap_2. }
    assert (Hxc : x ∈ table c) by (rewrite Ht; by right).
    apply (frame_value (dv_owned h (value e)) h h1 (value x));
      [apply Hc|done|done|by apply Hc|].
    intros p Hp. by apply (cache_disjoint _ _ Hc x e). }
  rewrite Heq in Hrel2. exact (released_trans _ _ _ _ _ Hrel Hrel2).
Qed.

Lemma cache_new_ok h : heap_ok h → cache_ok h neu_driver_cache_new.
Proof.
  intros Hok. split; simpl; [done|apply NoDup_nil_2| | |].
  - by intros e ?%not_elem_of_nil.
  - by intros e ?%not_elem_of_nil.
  - by intros e e' ?%not_elem_of_nil.
Qed.

(** C5: the cache is memory safe in every history of operations within their
    preconditions. Starting from the empty cache, after any sequence of updates that
    keep to [update_pre] (no error filter for values behind pointers, a PTR replaces
    only a PTR or an error), reads, removals, additions of values without memory,
    renames to unused keys and work of other code on its own memory, the cache owns
    exactly what its current values point to (the previous value [old_value] is not
    owned), removing a tag returns and frees exactly the memory of its value (no
    double free, no use of freed memory), and destroying the cache frees exactly
    everything it owns. *)
Theorem cache_histories_safe h0 h c :
  heap_ok h0 → rtc cache_step (h0, neu_driver_cache_new) (h, c) →
  cache_ok h c ∧
  (∀ group tag, runs (neu_driver_cache_del c group tag) h (λ c' h',
     view h' c' = delete (to_key group tag) (view h c) ∧
     ∀ e, hash_find key (to_key group tag) (table c) = Some e →
       released (dv_owned h (value e)) h h')) ∧
  runs (neu_driver_cache_destroy c) h (λ _ h', released (cache_owned h c) h h').
Proof.
  intros Hok Hsteps. assert (Hc : cache_ok h c).
  { change (cache_ok (h, c).1 (h, c).2). revert Hsteps. generalize (h, c). intros y Hsteps.
    refine (rtc_ind_r (λ y, cache_ok y.1 y.2) _ _ _ y Hsteps); [by apply cache_new_ok|].
    intros x z _ Hstep Hx. by eapply cache_step_ok. }
  split_and!; [done| |by apply runs_free_table].
  intros group tag. apply runs_cache_del; [done|]. done.
Qed.
End Histories.

(** ** Filtering errors *)

Section Filter.
Context {J : Type} `{Jansson J}.
Context (pow01 : Z → spec_float).
Implicit Types (h : mem J) (c : neu_driver_cache_t) (e : elem).

#[local] Abbreviation update := (neu_driver_cache_update_change pow01 true).

Lemma value_ne_plain on_error old precision v h :
  by_pointer (dv_type v) = false →
  ∃ b, value_ne pow01 on_error old precision v h = Some (b, h) ∧
       (old = dv_value v → dv_type v ≠ NEU_TYPE_FLOAT → dv_type v ≠ NEU_TYPE_DOUBLE →
        dv_type v ≠ NEU_TYPE_ERROR → b = false).
Proof.
  unfold value_ne. destruct (dv_type v); intros Hp; try done;
    try (eexists; split; [reflexivity|]; intros; try done; by apply bool_decide_false; intros []).
  destruct (decide _); (eexists; split; [reflexivity|]); intros ->; [done|].
  intros _ _ _. by apply bool_decide_false; intros [].
Qed.

Lemma store_value_plain ev nv h :
  by_pointer (dv_type ev) = false → by_pointer (dv_type nv) = false →
  store_value ev nv h = Some (dv_value nv, h).
Proof.
  intros He Hn. unfold store_value, release_value.
  destruct (dv_type nv); try done. by destruct (dv_type ev).
Qed.

Lemma quality_same a : quality_differs a a = false.
Proof. unfold quality_differs. rewrite eqb_reflx, Z.eqb_refl. by destruct (has_quality a). Qed.

(** The element after an update with a plain value, when errors are filtered. *)
Definition filtered e ts (v : neu_dvalue_t) (tc : bool) : elem :=
  let keep := bool_decide (dv_type v ≠ NEU_TYPE_ERROR) in
  {| timestamp := ts; changed := changed e || tc;
     value := {| dv_type := dv_type v; dv_value := dv_value v;
                 dv_precision := dv_precision (value e); dv_attrs := dv_attrs v |};
     old_value := if keep then dv_value v else old_value e;
     old_precision := if keep then dv_precision v else old_precision e;
     old_attrs := if keep then dv_attrs v else old_attrs e;
     metas := metas e; key := key e |}.

Lemma elem_update_plain e ts v h :
  by_pointer (dv_type (value e)) = false → by_pointer (dv_type v) = false →
  ∃ tc, elem_update pow01 true e ts v [] false h = Some (tc, filtered e ts v tc, [], h) ∧
    (dv_type v = NEU_TYPE_ERROR → tc = false) ∧
    (dv_type (value e) = NEU_TYPE_ERROR → old_value e = dv_value v → old_attrs e = dv_attrs v →
     dv_type v ≠ NEU_TYPE_FLOAT → dv_type v ≠ NEU_TYPE_DOUBLE → dv_type v ≠ NEU_TYPE_ERROR →
     tc = false).
Proof.
  intros He Hv. unfold elem_update, detect_change. cbn [andb].
  destruct (value_ne_plain false (old_value e) (old_precision e) v h Hv) as (b & Hb & Hbf).
  destruct (value_ne_plain true (dv_value (value e)) (dv_precision (value e)) v h Hv)
    as (b' & Hb' & _).
  unfold recovered_ne, cached_ne, mbind, M_bind. unfold filtered.
  destruct (decide (dv_type v = NEU_TYPE_ERROR)) as [Hve|Hve].
  { rewrite (bool_decide_true (dv_type v = NEU_TYPE_ERROR)) by done. simpl.
    rewrite store_value_plain by done. exists false.
    rewrite (bool_decide_false (dv_type v ≠ _)) by naive_solver. simpl.
    rewrite !orb_false_r. done. }
  rewrite (bool_decide_false (dv_type v = NEU_TYPE_ERROR)) by done. cbn [negb orb andb].
  rewrite (bool_decide_true (dv_type v ≠ _)) by done.
  set (r := (if negb (bool_decide (dv_type (value e) = dv_type v)) &&
    negb (bool_decide (dv_type (value e) = NEU_TYPE_ERROR)) then mret true else _)).
  assert (Hr : ∃ x, r h = Some (x, h) ∧ (dv_type (value e) = NEU_TYPE_ERROR → x = b)).
  { subst r. destruct (bool_decide (dv_type (value e) = dv_type v)) eqn:E1; cbn.
    - rewrite Hb'. exists b'. split; [done|]. apply bool_decide_eq_true in E1. congruence.
    - destruct (decide (dv_type (value e) = NEU_TYPE_ERROR)) as [E2|E2].
      + rewrite bool_decide_true by done. cbn. rewrite Hb. eauto.
      + rewrite bool_decide_false by done. cbn. by exists true. }
  destruct Hr as (x & -> & Hx). cbn. rewrite store_value_plain by done. cbn.
  eexists. split; [by rewrite orb_false_r|]. split; [done|].
  intros E Hov Hoa Hf Hd _. rewrite Hx, Hbf by done. cbn.
  unfold quality_ne. rewrite bool_decide_true by done. cbn.
  rewrite Hoa. apply quality_same.
Qed.

Lemma update_plain c group tag e ts v h :
  hash_find key (to_key group tag) (table c) = Some e →
  by_pointer (dv_type (value e)) = false → by_pointer (dv_type v) = false →
  ∃ tc, update c group tag ts v [] false h =
      Some (tc, set_table (hash_update key (to_key group tag)
              (λ _, filtered e ts (normalize v) tc) (table c)) c, [], h) ∧
    (dv_type v = NEU_TYPE_ERROR → tc = false) ∧
    (dv_type (value e) = NEU_TYPE_ERROR → old_value e = dv_value v →
     old_attrs e = normalize_attrs (dv_attrs v) →
     dv_type v ≠ NEU_TYPE_FLOAT → dv_type v ≠ NEU_TYPE_DOUBLE → dv_type v ≠ NEU_TYPE_ERROR →
     tc = false).
Proof.
  intros Hf He Hv. destruct (elem_update_plain e ts (normalize v) h He Hv) as (tc & E & H1 & H2).
  exists tc. split; [|done]. unfold neu_driver_cache_update_change. fold (normalize v).
  rewrite Hf. unfold mbind, M_bind. by rewrite E.
Qed.

Lemma find_replaced c k e e' :
  hash_find key k (table c) = Some e → key e' = k →
  hash_find key k (table (set_table (hash_update key k (λ _, e') (table c)) c)) = Some e'.
Proof. intros Hf Hk. simpl. rewrite hash_find_replace by done. by rewrite decide_True, Hf. Qed.

(** With error filtering, a read error that passes leaves no trace.  When a
    tag of a plain, not floating point type has the value [v], an error arrives
    and then [v] again, neither the error nor the recovery is reported as a
    change, and the sample is as it was before the error except for its
    timestamp. *)
Theorem filter_err_transparent h c group tag e ts1 ts2 ts3 v err :
  let k := to_key group tag in
  hash_find key k (table c) = Some e → by_pointer (dv_type (value e)) = false →
  by_pointer (dv_type v) = false → dv_type v ≠ NEU_TYPE_FLOAT → dv_type v ≠ NEU_TYPE_DOUBLE →
  dv_type v ≠ NEU_TYPE_ERROR → dv_type err = NEU_TYPE_ERROR →
  ∃ tc c1 c2 c3,
    update c group tag ts1 v [] false h = Some (tc, c1, [], h) ∧
    update c1 group tag ts2 err [] false h = Some (false, c2, [], h) ∧
    update c2 group tag ts3 v [] false h = Some (false, c3, [], h) ∧
    view h c3 !! k = (λ s, {| s_timestamp := ts3; s_changed := s_changed s; s_type := s_type s;
        s_content := s_content s; s_precision := s_precision s; s_attrs := s_attrs s;
        s_metas := s_metas s |}) <$> view h c1 !! k.
Proof.
  intros k. subst k. intros Hf He Hv Hfl Hdb Hve Herr. apply hash_find_Some in Hf as Hk. destruct Hk as [_ Hk].
  assert (Hpe : by_pointer (dv_type err) = false) by by rewrite Herr.
  destruct (update_plain c group tag e ts1 v h Hf He Hv) as (tc & E1 & _).
  set (e1 := filtered e ts1 (normalize v) tc) in *. set (c1 := set_table _ c) in E1.
  assert (Hf1 : hash_find key (to_key group tag) (table c1) = Some e1)
    by by eapply find_replaced.
  destruct (update_plain c1 group tag e1 ts2 err h Hf1 Hv Hpe) as (tc2 & E2 & Ht2 & _).
  rewrite (Ht2 Herr) in E2. set (e2 := filtered e1 ts2 (normalize err) false) in *.
  set (c2 := set_table _ c1) in E2.
  assert (Hf2 : hash_find key (to_key group tag) (table c2) = Some e2)
    by by eapply find_replaced.
  destruct (update_plain c2 group tag e2 ts3 v h Hf2 Hpe Hv) as (tc3 & E3 & _ & Ht3).
  assert (Hold : old_value e2 = dv_value v ∧ old_attrs e2 = normalize_attrs (dv_attrs v)).
  { subst e2 e1. simpl. rewrite Herr. rewrite !(bool_decide_true (dv_type v ≠ _)) by done.
    by rewrite !(bool_decide_false (NEU_TYPE_ERROR ≠ _)) by naive_solver. }
  rewrite Ht3 in E3; [|done|by apply Hold..|done|done|done].
  eexists _, c1, c2, _. split_and!; [done..|]. rewrite !view_lookup, Hf1.
  rewrite (find_replaced c2 _ e2) by done. simpl. f_equal. unfold view_elem. simpl.
  by rewrite !orb_false_r.
Qed.

(** With error filtering, an array that comes back after an error is
    compared with freed memory.  The cache keeps the pointer of the last array as
    the old value; an error frees that array; the next array of the same length is
    compared with it. *)
Theorem filter_err_use_after_free h c group tag e ts1 ts2 err v :
  cache_ok h c → hash_find key (to_key group tag) (table c) = Some e →
  is_num_array (dv_type (value e)) = true → dv_type err = NEU_TYPE_ERROR →
  arr_ptr (old_value e) = arr_ptr (dv_value (value e)) → arr_ptr (dv_value (value e)) ≠ 0 →
  dv_type v = dv_type (value e) → arr_length (dv_value v) = arr_length (old_value e) →
  0 < arr_length (dv_value v) →
  ('(_, c1, _) ← update c group tag ts1 err [] false;
   update c1 group tag ts2 v [] false) h = None.
Proof.
  intros Hc Hf Hnum Herr Hptr Hnz Hty Hlen Hn. apply hash_find_Some in Hf as Hin.
  destruct Hin as [He Hk]. pose proof (value_live _ _ _ (cache_values _ _ Hc e He)) as Hlive.
  unfold owned in Hlive. rewrite Hnum in Hlive. unfold nonnull in Hlive.
  rewrite decide_False, Forall_singleton in Hlive by done. destruct Hlive as [b Hb].
  set (h1 := set_blocks (delete (arr_ptr (dv_value (value e))) (hp_blocks h)) h).
  assert (Hst : store_value (value e) (normalize err) h = Some (dv_value err, h1)).
  { unfold store_value, release_value. simpl. rewrite Herr. unfold mbind, M_bind.
    destruct (dv_type (value e)); try done; simpl; unfold free;
      rewrite decide_False by done; by rewrite Hb. }
  unfold mbind at 1, M_bind. unfold neu_driver_cache_update_change at 1. rewrite Hf.
  unfold elem_update, detect_change. fold (normalize err). simpl (dv_type (normalize err)).
  rewrite (bool_decide_true (dv_type err = _)) by done. cbn [andb].
  unfold mbind, M_bind, mret, M_ret. rewrite Hst. cbn [store_metas mret M_ret].
  unfold neu_driver_cache_update_change. simpl (table _).
  rewrite hash_find_replace by done. rewrite decide_True, Hf by done. simpl.
  unfold elem_update, detect_change. simpl.
  assert (Hne : dv_type v ≠ NEU_TYPE_ERROR) by (rewrite Hty; intros E; by rewrite E in Hnum).
  rewrite (bool_decide_false (dv_type v = _)) by done. rewrite Herr.
  rewrite (bool_decide_false (NEU_TYPE_ERROR = dv_type v)) by congruence.
  rewrite (bool_decide_true (NEU_TYPE_ERROR = _)) by done. cbn [andb orb negb].
  unfold recovered_ne, value_ne. simpl.
  rewrite <-Hty in Hnum. assert (Hcmp : ∀ size, size ≠ O →
    array_ne size (old_value e) (dv_value v) h1 = None).
  { intros size Hsz. unfold array_ne. rewrite decide_False by (intros E; apply E; congruence).
    unfold memcmp_ne, mbind, M_bind, load, load_bytes. rewrite decide_False by nia.
    rewrite Hptr. subst h1. simpl. by rewrite lookup_delete_eq. }
  unfold mbind, M_bind. destruct (dv_type v); try done; by rewrite Hcmp.
Qed.
End Filter.

(** ** Concrete runs *)

#[local] Instance no_json : Jansson () :=
  {| json_equal _ p q := p =? q; json_decref _ j := j; json_deep_copy p j := (p, j) |}.

(** [pow (0.1, p)] is not used by the values below. *)
Definition example_pow (_ : Z) : spec_float := S754_zero false.

(** Two arrays of two bytes and two arrays of the same string. *)
Definition example_heap : mem () :=
  Mem 10 (list_to_map [(1, [7; 8]); (2, [7; 9]); (3, le_store 8 4); (4, [65; 0]);
                       (5, le_store 8 6); (6, [65; 0])]) ().

Definition example_array (p n : Z) : neu_value_u := set_arr_ptr p (set_arr_length n value_zero).
Definition example_dv (t : neu_type_e) (v : neu_value_u) : neu_dvalue_t :=
  {| dv_type := t; dv_value := v; dv_precision := 0; dv_attrs := attrs_zero |}.
Definition example_elem (dv : neu_dvalue_t) : elem :=
  {| timestamp := 5; changed := true; value := dv; old_value := dv_value dv; old_precision := 0;
     old_attrs := attrs_zero; metas := []; key := to_key "group" "tag" |}.
Definition example_cache (dv : neu_dvalue_t) : neu_driver_cache_t :=
  {| trace_table := []; table := [example_elem dv] |}.
Definition example_dst : neu_driver_cache_value_t :=
  {| cv_value := example_dv NEU_TYPE_INT8 value_zero; cv_timestamp := 0 |}.

Lemma example_heap_ok : heap_ok example_heap.
Proof.
  split; [simpl; lia|].
  cut (map_Forall (λ p (_ : list Z), 0 < p < 10) (hp_blocks example_heap)); [done|].
  apply (bool_decide_unpack _). by vm_compute.
Qed.

Lemma example_array_union p n : union_ok (example_array p n).
Proof. repeat (apply union_ok_store; [|lia]). apply value_zero_ok. Qed.

Ltac example_value :=
  split; [apply example_array_union || apply value_zero_ok
         | eexists; vm_compute; reflexivity
         | vm_compute; repeat constructor; eexists; reflexivity
         | apply (bool_decide_unpack _); by vm_compute
         | try done ].

Lemma example_bytes_ok p :
  p = 1 ∨ p = 2 → dv_ok example_heap (example_dv NEU_TYPE_ARRAY_INT8 (example_array p 2)).
Proof. intros [-> | ->]; example_value. Qed.

Lemma example_strings_ok p :
  p = 3 ∨ p = 5 → dv_ok example_heap (example_dv NEU_TYPE_ARRAY_STRING (example_array p 1)).
Proof. intros [-> | ->]; example_value. Qed.

Lemma example_error_ok : dv_ok example_heap (example_dv NEU_TYPE_ERROR value_zero).
Proof. by example_value. Qed.

Lemma example_cache_ok dv : dv_ok example_heap dv → cache_ok example_heap (example_cache dv).
Proof.
  intros Hdv. split; simpl.
  - apply example_heap_ok.
  - apply NoDup_singleton.
  - by intros e ->%list_elem_of_singleton.
  - intros e ->%list_elem_of_singleton. split; [done|apply Hdv].
  - by intros e e' ->%list_elem_of_singleton ->%list_elem_of_singleton.
Qed.

Lemma example_update_pre t p q n :
  dv_ok example_heap (example_dv t (example_array q n)) → t ≠ NEU_TYPE_PTR →
  (∀ x, x ∈ dv_owned example_heap (example_dv t (example_array q n)) →
        x ∉ dv_owned example_heap (example_dv t (example_array p n))) →
  update_pre false example_heap (example_cache (example_dv t (example_array p n)))
    (to_key "group" "tag") (example_dv t (example_array q n)) [].
Proof.
  intros Hv Ht Ho. split; [done| | |done|simpl; lia|by left].
  - intros e x ->%list_elem_of_singleton. apply Ho.
  - by intros ?.
Qed.

(** A new tag, which has no value, gets its first array. *)
Lemma example_first_pre :
  update_pre false example_heap
    (neu_driver_cache_add neu_driver_cache_new "group" "tag" (example_dv NEU_TYPE_ERROR value_zero))
    (to_key "group" "tag") (example_dv NEU_TYPE_ARRAY_INT8 (example_array 1 2)) [].
Proof.
  split; [apply example_bytes_ok; by left| |done|done|simpl; lia|by left].
  intros e x ->%list_elem_of_singleton _. apply not_elem_of_nil.
Qed.

Lemma example_read_room p :
  read_room example_heap (example_cache (example_dv NEU_TYPE_ARRAY_INT8 (example_array p 2))).
Proof.
  intros e ->%list_elem_of_singleton. unfold copy_room, dv_owned, owned. simpl.
  unfold nonnull. destruct (decide _); simpl; lia.
Qed.

Lemma cache_update_refines_witness :
  runs (neu_driver_cache_update_change example_pow false
      (example_cache (example_dv NEU_TYPE_ARRAY_INT8 (example_array 1 2)))
      "group" "tag" 6 (example_dv NEU_TYPE_ARRAY_INT8 (example_array 2 2)) [] false) example_heap
    (λ '(tag_changed, c', _) h', cache_ok h' c' ∧
       s_content <$> view h' c' !! to_key "group" "tag" = Some (Some (CArray [7; 9]))).
Proof.
  eapply runs_mono.
  - apply (cache_update_refines example_pow false example_heap).
    + apply example_cache_ok, example_bytes_ok. by left.
    + apply example_update_pre; [apply example_bytes_ok; by right|done|].
      intros x ->%list_elem_of_singleton. apply (bool_decide_unpack _). by vm_compute.
  - intros [[tc c'] caller] h' (Hc & _ & Hv). split; [done|]. rewrite Hv.
    rewrite view_lookup. simpl. rewrite lookup_insert_eq. reflexivity.
Defined.

Lemma cache_change_exact_witness :
  runs (neu_driver_cache_update_change example_pow false
      (example_cache (example_dv NEU_TYPE_ARRAY_INT8 (example_array 1 2)))
      "group" "tag" 6 (example_dv NEU_TYPE_ARRAY_INT8 (example_array 2 2)) [] false) example_heap
    (λ '(tag_changed, _, _) _, tag_changed = true).
Proof.
  eapply runs_mono.
  - apply (cache_change_exact example_pow example_heap _ _ _
      (view_elem example_heap (example_elem (example_dv NEU_TYPE_ARRAY_INT8 (example_array 1 2))))).
    + apply example_cache_ok, example_bytes_ok. by left.
    + apply example_update_pre; [apply example_bytes_ok; by right|done|].
      intros x ->%list_elem_of_singleton. apply (bool_decide_unpack _). by vm_compute.
    + by rewrite view_lookup.
  - intros [[tc c'] caller] h' (_ & _ & He & _). rewrite He; [|done|by left]. by vm_compute.
Defined.

Lemma cache_get_delivers_witness :
  runs (neu_driver_cache_meta_get
      (example_cache (example_dv NEU_TYPE_ARRAY_INT8 (example_array 1 2))) "group" "tag"
      example_dst) example_heap
    (λ r h', ∃ cv ms, r = Some (cv, ms) ∧ dv_content h' (cv_value cv) = Some (CArray [7; 8])).
Proof.
  eapply runs_mono.
  - apply (cache_get_delivers example_heap).
    + apply example_cache_ok, example_bytes_ok. by left.
    + apply value_zero_ok.
    + apply example_read_room.
  - intros r h' (_ & _ & _ & Hr). rewrite view_lookup in Hr. simpl in Hr.
    destruct r as [[cv ms]|]; [|done]. exists cv, ms. split; [done|].
    rewrite (dlv_content _ _ _ _ _ Hr) by done. by vm_compute.
Defined.

Lemma cache_get_changed_once_witness :
  runs (neu_driver_cache_meta_get_changed
      (example_cache (example_dv NEU_TYPE_ARRAY_INT8 (example_array 1 2))) "group" "tag"
      example_dst) example_heap
    (λ '(r, c') h', is_Some r ∧
       neu_driver_cache_meta_get_changed c' "group" "tag" example_dst h' = Some (None, c', h')).
Proof.
  eapply runs_mono.
  - apply (cache_get_changed_once example_heap).
    + apply example_cache_ok, example_bytes_ok. by left.
    + apply value_zero_ok.
    + apply example_read_room.
  - intros [r c'] h' (_ & _ & Hr). rewrite view_lookup in Hr. simpl in Hr.
    destruct r as [[cv ms]|]; [|by destruct Hr]. destruct Hr as (_ & _ & _ & Hr).
    split; [eauto|]. by apply Hr.
Defined.

Lemma string_array_always_changed_witness :
  runs (neu_driver_cache_update_change example_pow false
      (example_cache (example_dv NEU_TYPE_ARRAY_STRING (example_array 3 1)))
      "group" "tag" 6 (example_dv NEU_TYPE_ARRAY_STRING (example_array 5 1)) [] false) example_heap
    (λ '(tag_changed, _, _) _, tag_changed = true) ∧
  dv_content example_heap (example_dv NEU_TYPE_ARRAY_STRING (example_array 3 1)) =
  dv_content example_heap (example_dv NEU_TYPE_ARRAY_STRING (example_array 5 1)).
Proof.
  split; [|by vm_compute].
  apply (string_array_always_changed example_pow example_heap _ _ _
    (view_elem example_heap (example_elem (example_dv NEU_TYPE_ARRAY_STRING (example_array 3 1))))).
  - apply example_cache_ok, example_strings_ok. by left.
  - apply example_update_pre; [apply example_strings_ok; by right|done|].
    assert (dv_owned example_heap (example_dv NEU_TYPE_ARRAY_STRING (example_array 5 1)) = [5; 6])
      as -> by by vm_compute.
    assert (dv_owned example_heap (example_dv NEU_TYPE_ARRAY_STRING (example_array 3 1)) = [3; 4])
      as -> by by vm_compute. set_solver.
  - by rewrite view_lookup.
  - done.
  - done.
  - by vm_compute.
Defined.

(** A tag is added, gets a first array, then a second one for which the first is
    released, and is renamed; destroying the cache releases the second array. *)
Lemma cache_histories_safe_witness :
  ∃ h c, rtc (cache_step example_pow false) (example_heap, neu_driver_cache_new) (h, c) ∧
    cache_ok h c ∧ s_content <$> view h c !! to_key "group" "other" = Some (Some (CArray [7; 9])) ∧
    hp_blocks example_heap !! 1 = Some [7; 8] ∧ hp_blocks h !! 1 = None ∧ cache_owned h c = [2] ∧
    runs (neu_driver_cache_destroy c) h (λ _ h', released [2] h h').
Proof.
  eexists _, _. match goal with |- ?r ∧ _ => assert (Hr : r) end.
  { eapply rtc_l.
    { apply (step_add _ _ _ _ "group" "tag" (example_dv NEU_TYPE_ERROR value_zero));
        [apply example_error_ok|done]. }
    eapply rtc_l.
    { eapply (step_update _ _ _ _ "group" "tag" 6 (example_dv NEU_TYPE_ARRAY_INT8 (example_array 1 2)) [] false);
        [|vm_compute; reflexivity].
      apply example_first_pre. }
    eapply rtc_l.
    { eapply (step_update _ _ _ _ "group" "tag" 7 (example_dv NEU_TYPE_ARRAY_INT8 (example_array 2 2)) [] false);
        [|vm_compute; reflexivity].
      split; [by example_value| |done|done|simpl; lia|by left].
      intros e x ->%list_elem_of_singleton ->%list_elem_of_singleton.
      apply (bool_decide_unpack _). by vm_compute. }
    eapply rtc_l; [apply (step_rename _ _ _ _ "group" "tag" "other"); by vm_compute|apply rtc_refl]. }
  split; [exact Hr|].
  destruct (cache_histories_safe example_pow false example_heap _ _ example_heap_ok Hr) as (Hc & _ & Hd).
  split; [exact Hc|]. split; [by vm_compute|]. split; [by vm_compute|]. split; [by vm_compute|].
  split; [by vm_compute|]. exact Hd.
Defined.

Lemma filter_err_transparent_witness :
  ∃ c1 c2 c3,
    neu_driver_cache_update_change example_pow true
      (example_cache (example_dv NEU_TYPE_ERROR value_zero)) "group" "tag" 1
      (example_dv NEU_TYPE_INT8 (set_u8 3 value_zero)) [] false example_heap
      = Some (true, c1, [], example_heap) ∧
    neu_driver_cache_update_change example_pow true c1 "group" "tag" 2
      (example_dv NEU_TYPE_ERROR value_zero) [] false example_heap
      = Some (false, c2, [], example_heap) ∧
    neu_driver_cache_update_change example_pow true c2 "group" "tag" 3
      (example_dv NEU_TYPE_INT8 (set_u8 3 value_zero)) [] false example_heap
      = Some (false, c3, [], example_heap).
Proof.
  destruct (filter_err_transparent example_pow example_heap
    (example_cache (example_dv NEU_TYPE_ERROR value_zero)) "group" "tag"
    (example_elem (example_dv NEU_TYPE_ERROR value_zero)) 1 2 3
    (example_dv NEU_TYPE_INT8 (set_u8 3 value_zero)) (example_dv NEU_TYPE_ERROR value_zero))
    as (tc & c1 & c2 & c3 & H1 & H2 & H3 & _); [done..|].
  exists c1, c2, c3. split_and!; [|done|done]. rewrite H1.
  vm_compute in H1. by injection H1 as <- _.
Defined.

Lemma filter_err_use_after_free_witness :
  ('(_, c1, _) ← neu_driver_cache_update_change example_pow true
       (example_cache (example_dv NEU_TYPE_ARRAY_INT8 (example_array 1 2))) "group" "tag" 6
       (example_dv NEU_TYPE_ERROR value_zero) [] false;
   neu_driver_cache_update_change example_pow true c1 "group" "tag" 7
     (example_dv NEU_TYPE_ARRAY_INT8 (example_array 2 2)) [] false) example_heap = None.
Proof.
  apply (filter_err_use_after_free example_pow example_heap _ _ _
    (example_elem (example_dv NEU_TYPE_ARRAY_INT8 (example_array 1 2)))).
  - apply example_cache_ok, example_bytes_ok. by left.
  - done.
  - done.
  - done.
  - done.
  - by vm_compute.
  - done.
  - done.
  - by vm_compute.
Defined.
