(* ===== verification/Driver.v ===== *)
(** * The driver node

    src/adapter/driver/driver.c: a driver keeps its groups in a table, the values
    of their tags in the cache, the number of its tags, and for every group the
    writes that wait for the write timer, the subscribed applications and a
    snapshot of the tags for the plugin ([grp]).  Groups are those of [Group.v],
    the cache is the one of [DriverCache.v]; operations that touch the cache are
    in the heap monad.

    The plugin is the record [plugin_ops] of the functions the driver calls on it;
    its own state is not the driver's.  [global_timestamp] and the group clock are
    arguments.  Metrics, log output, tracing, persistence and the file transfer
    requests are left out; of the event loops the model keeps which timers of
    a group are armed. *)

From Stdlib Require Import SpecFloat.
From S2P Require Import Prelude UtHash NeuTypes CHeap CFloat DriverCache Tag Group.

(** ** Constants *)

Definition NEU_ERR_GROUP_EXIST : Z := 2104.
Definition NEU_ERR_GROUP_NOT_EXIST : Z := 2106.
Definition NEU_ERR_TAG_NAME_TOO_LONG : Z := 2206.
Definition NEU_ERR_TAG_ADDRESS_TOO_LONG : Z := 2207.
Definition NEU_ERR_TAG_DESCRIPTION_TOO_LONG : Z := 2208.
Definition NEU_ERR_TAG_PRECISION_INVALID : Z := 2209.
Definition NEU_ERR_TAG_BIAS_INVALID : Z := 2212.
Definition NEU_ERR_PLUGIN_TAG_NOT_READY : Z := 3011.

Definition NEU_TAG_ADDRESS_LEN : nat := 128.
Definition NEU_TAG_DESCRIPTION_LEN : nat := 256.
Definition NEU_TAG_FLOAG_PRECISION_MAX : Z := 17.
Definition NEU_GROUP_INTERVAL_LIMIT : Z := 30.

(** ** State *)

(** [neu_plugin_tag_value_t]; a type that was never set is [None]. *)
Record neu_plugin_tag_value_t := {
  tv_tag : neu_datatag_t;
  tv_value : neu_value_u;
  tv_type : option neu_type_e;
}.

(** [to_be_write_tag_t]: a write of one tag, or of several. *)
Inductive to_be_write_tag_t :=
  | wt_single (req : Z) (tag : neu_datatag_t) (v : neu_value_u)
  | wt_multi (req : Z) (tvs : list neu_plugin_tag_value_t).

Record sub_app_t := { sub_app : string; sub_port : Z }.

(** The timers of a group in the event loops: whether the group has the handles
    [read], [report] and [write] of the timers it has started last, and how many
    earlier sets of timers run whose handles it has lost, so that nothing stops
    them any more. *)
Record timers_t := { t_handles : bool; t_lost : nat }.

Definition timers_none : timers_t := {| t_handles := false; t_lost := 0 |}.
Definition timers_armed (t : timers_t) : nat := t_lost t + Nat.b2n (t_handles t).

(** The members of [group_t]: its own name and time stamp, the group, the
    waiting writes, the armed timers, the applications, and of [grp] the name,
    the interval and the tags. *)
Record group_t := {
  g_name : string;
  g_timestamp : Z;
  g_group : neu_group_t;
  g_wt_tags : list to_be_write_tag_t;
  g_timers : timers_t;
  g_apps : list sub_app_t;
  grp_name : string;
  grp_interval : Z;
  grp_tags : list neu_datatag_t;
}.

Record neu_adapter_driver_t := {
  d_running : bool;
  d_cache : neu_driver_cache_t;
  d_tag_cnt : Z;
  d_groups : list group_t;
}.

(** The functions of [neu_plugin_intf_funs_t] the driver calls on its plugin; an
    optional one may be [NULL]; of [write_tags] only whether it is there matters
    before the write timer.  [validate_tag] may fill in fields of the tag. *)
Record plugin_ops := {
  validate_tag : neu_datatag_t → Z * neu_datatag_t;
  add_tags : option (string → list neu_datatag_t → Z);
  load_tags : option (string → list neu_datatag_t → Z);
  del_tags : option (Z → Z);
  has_write_tags : bool;
}.

Definition with_groups (gs : list group_t) (d : neu_adapter_driver_t) : neu_adapter_driver_t :=
  {| d_running := d_running d; d_cache := d_cache d; d_tag_cnt := d_tag_cnt d; d_groups := gs |}.
Definition with_cache (c : neu_driver_cache_t) (d : neu_adapter_driver_t) : neu_adapter_driver_t :=
  {| d_running := d_running d; d_cache := c; d_tag_cnt := d_tag_cnt d; d_groups := d_groups d |}.
Definition with_tag_cnt (n : Z) (d : neu_adapter_driver_t) : neu_adapter_driver_t :=
  {| d_running := d_running d; d_cache := d_cache d; d_tag_cnt := n; d_groups := d_groups d |}.

Definition with_group (gr : neu_group_t) (g : group_t) : group_t :=
  {| g_name := g_name g; g_timestamp := g_timestamp g; g_group := gr; g_wt_tags := g_wt_tags g;
     g_timers := g_timers g; g_apps := g_apps g; grp_name := grp_name g;
     grp_interval := grp_interval g; grp_tags := grp_tags g |}.
Definition with_timers (t : timers_t) (g : group_t) : group_t :=
  {| g_name := g_name g; g_timestamp := g_timestamp g; g_group := g_group g;
     g_wt_tags := g_wt_tags g; g_timers := t; g_apps := g_apps g; grp_name := grp_name g;
     grp_interval := grp_interval g; grp_tags := grp_tags g |}.
Definition with_wt_tags (ws : list to_be_write_tag_t) (g : group_t) : group_t :=
  {| g_name := g_name g; g_timestamp := g_timestamp g; g_group := g_group g; g_wt_tags := ws;
     g_timers := g_timers g; g_apps := g_apps g; grp_name := grp_name g;
     grp_interval := grp_interval g; grp_tags := grp_tags g |}.
Definition with_apps (a : list sub_app_t) (g : group_t) : group_t :=
  {| g_name := g_name g; g_timestamp := g_timestamp g; g_group := g_group g;
     g_wt_tags := g_wt_tags g; g_timers := g_timers g; g_apps := a; grp_name := grp_name g;
     grp_interval := grp_interval g; grp_tags := grp_tags g |}.

(** A tag whose option has been parsed from its address. *)
Definition with_tag_option (o : addr_option) (t : neu_datatag_t) : neu_datatag_t :=
  {| tag_name := tag_name t; tag_address := tag_address t; tag_attribute := tag_attribute t;
     tag_type := tag_type t; tag_precision := tag_precision t; tag_decimal := tag_decimal t;
     tag_bias := tag_bias t; tag_description := tag_description t; tag_unit := tag_unit t;
     tag_option := o; tag_meta := tag_meta t; tag_format := tag_format t;
     tag_n_format := tag_n_format t |}.
Definition parse_option (t : neu_datatag_t) : neu_datatag_t :=
  with_tag_option (neu_datatag_parse_addr_option t (tag_option t)).2 t.

Definition neu_adapter_driver_create : neu_adapter_driver_t :=
  {| d_running := false; d_cache := neu_driver_cache_new; d_tag_cnt := 0; d_groups := [] |}.

(** ** Timers *)

(** Starting stores the handles of new timers over the old ones; stopping deletes
    the timers it has handles of. *)
Definition start_group_timer (g : group_t) : group_t :=
  with_timers {| t_handles := true; t_lost := timers_armed (g_timers g) |} g.
Definition stop_group_timer (g : group_t) : group_t :=
  with_timers {| t_handles := false; t_lost := t_lost (g_timers g) |} g.

Definition neu_adapter_driver_start_group_timer (d : neu_adapter_driver_t) : neu_adapter_driver_t :=
  with_groups (start_group_timer <$> d_groups d) d.
Definition neu_adapter_driver_stop_group_timer (d : neu_adapter_driver_t) : neu_adapter_driver_t :=
  with_groups (stop_group_timer <$> d_groups d) d.

(** ** Groups *)

Definition find_group (d : neu_adapter_driver_t) (name : string) : option group_t :=
  hash_find g_name name (d_groups d).

Definition neu_adapter_driver_add_group (d : neu_adapter_driver_t) (name : string) (interval : Z)
    : Z * neu_adapter_driver_t :=
  match find_group d name with
  | Some _ => (NEU_ERR_GROUP_EXIST, d)
  | None =>
      let gr := neu_group_new name interval in
      let g := {| g_name := name; g_timestamp := 0; g_group := gr; g_wt_tags := [];
                  g_timers := timers_none; g_apps := []; grp_name := name; grp_interval := interval;
                  grp_tags := neu_group_get_tag gr |} in
      let g := if d_running d then start_group_timer g else g in
      (NEU_ERR_SUCCESS, with_groups (hash_add g (d_groups d)) d)
  end.

(** The body of [neu_adapter_driver_update_group] after the checks. *)
Definition update_group_body (now : Z) (d : neu_adapter_driver_t) (name : string)
    (new_name : option string) (interval : Z) (find : group_t) : Z * neu_adapter_driver_t :=
  let find := if d_running d then stop_group_timer find else find in
  let interval := if interval <? NEU_GROUP_INTERVAL_LIMIT
                  then neu_group_get_interval (g_group find) else interval in
  let finish find :=
    let find := {| g_name := g_name find; g_timestamp := now;
                   g_group := neu_group_set_interval (g_group find) interval;
                   g_wt_tags := g_wt_tags find; g_timers := g_timers find;
                   g_apps := g_apps find; grp_name := grp_name find;
                   grp_interval := interval; grp_tags := grp_tags find |} in
    if d_running d then start_group_timer find else find in
  match new_name with
  | Some n =>
      if decide (name = n) then
        (0, with_groups (hash_update g_name name (λ _, finish find) (d_groups d)) d)
      else
        let '(ret, gr) := neu_group_set_name (g_group find) (Some n) in
        if ret =? 0 then
          let find := {| g_name := n; g_timestamp := g_timestamp find; g_group := gr;
                         g_wt_tags := g_wt_tags find; g_timers := g_timers find;
                         g_apps := g_apps find; grp_name := n;
                         grp_interval := grp_interval find; grp_tags := grp_tags find |} in
          (0, with_groups (hash_add (finish find) (hash_del g_name name (d_groups d))) d)
        else
          (NEU_ERR_EINTERNAL,
           with_groups (hash_update g_name name (λ _, finish find) (d_groups d)) d)
  | None => (0, with_groups (hash_update g_name name (λ _, finish find) (d_groups d)) d)
  end.

Definition neu_adapter_driver_update_group (now : Z) (d : neu_adapter_driver_t) (name : string)
    (new_name : option string) (interval : Z) : Z * neu_adapter_driver_t :=
  match find_group d name with
  | None => (NEU_ERR_GROUP_NOT_EXIST, d)
  | Some find =>
      match new_name with
      | Some n =>
          if decide (n = EmptyString) then (NEU_ERR_EINTERNAL, d)
          else if negb (bool_decide (name = n)) && bool_decide (is_Some (find_group d n))
          then (NEU_ERR_GROUP_EXIST, d)
          else update_group_body now d name new_name interval find
      | None =>
          if neu_group_get_interval (g_group find) =? interval then (0, d)
          else update_group_body now d name new_name interval find
      end
  end.

Definition neu_adapter_driver_group_count (d : neu_adapter_driver_t) : Z :=
  u16 (Z.of_nat (length (d_groups d))).

(** The groups of a request that do not exist yet, counted with repetition. *)
Definition neu_adapter_driver_new_group_count (d : neu_adapter_driver_t) (groups : list string) : Z :=
  fold_left (λ n g, if find_group d g is Some _ then n else u16 (n + 1)) groups 0.

Definition neu_adapter_driver_group_exist (d : neu_adapter_driver_t) (name : string) : Z :=
  if find_group d name is Some _ then NEU_ERR_SUCCESS else NEU_ERR_GROUP_NOT_EXIST.

(** [strncpy] into the 128 characters of the name, which drops the terminator of a
    longer name. *)
Record neu_resp_group_info_t := { gi_name : string; gi_tag_count : Z; gi_interval : Z }.

Definition neu_adapter_driver_get_group (d : neu_adapter_driver_t) (filter : string)
    : list neu_resp_group_info_t :=
  (λ el, {| gi_name := cstr_trunc NEU_GROUP_NAME_LEN (g_name el);
            gi_tag_count := neu_group_tag_size (g_group el);
            gi_interval := neu_group_get_interval (g_group el) |}) <$>
  List.filter (λ el, bool_decide (String.length filter = O) || strstr (g_name el) filter)
    (d_groups d).

Section Operations.
Context (plugin : plugin_ops).
Context {J : Type} `{Jansson J}.

(** *** Tags *)

Definition neu_adapter_driver_try_add_tag (group : string) (tags : list neu_datatag_t) : Z :=
  match add_tags plugin with Some f => f group tags | None => 0 end.
Definition neu_adapter_driver_load_tag (group : string) (tags : list neu_datatag_t) : Z :=
  match load_tags plugin with Some f => f group tags | None => 0 end.
Definition neu_adapter_driver_try_del_tag (n_tag : Z) : Z :=
  match del_tags plugin with Some f => f n_tag | None => 0 end.

Definition bias_type_ok (t : neu_type_e) : bool :=
  match t with
  | NEU_TYPE_INT8 | NEU_TYPE_UINT8 | NEU_TYPE_INT16 | NEU_TYPE_UINT16 | NEU_TYPE_INT32
  | NEU_TYPE_UINT32 | NEU_TYPE_INT64 | NEU_TYPE_UINT64 | NEU_TYPE_FLOAT | NEU_TYPE_DOUBLE => true
  | _ => false
  end.

(** [x != 0] of a [double] given by its bits. *)
Definition d64_nonzero (bits : Z) : bool :=
  negb (SFeqb (d64_of_bits bits) (S754_zero false)).

(** [strlen (tag->description)], which needs a description: a [NULL] one, which
    the C code must not be given here, counts as empty. *)
Definition description_length (t : neu_datatag_t) : nat :=
  String.length (default EmptyString (tag_description t)).

Definition neu_adapter_driver_validate_tag (tag : neu_datatag_t) : Z * neu_datatag_t :=
  if decide (NEU_TAG_NAME_LEN <= String.length (tag_name tag))%nat
  then (NEU_ERR_TAG_NAME_TOO_LONG, tag)
  else if decide (NEU_TAG_ADDRESS_LEN <= String.length (tag_address tag))%nat
  then (NEU_ERR_TAG_ADDRESS_TOO_LONG, tag)
  else if decide (NEU_TAG_DESCRIPTION_LEN <= description_length tag)%nat
  then (NEU_ERR_TAG_DESCRIPTION_TOO_LONG, tag)
  else if NEU_TAG_FLOAG_PRECISION_MAX <? tag_precision tag
  then (NEU_ERR_TAG_PRECISION_INVALID, tag)
  else if d64_nonzero (tag_bias tag) && negb (bias_type_ok (tag_type tag))
  then (NEU_ERR_TAG_BIAS_INVALID, tag)
  else
    let '(ret, tag) := validate_tag plugin tag in
    if ret =? NEU_ERR_SUCCESS then (NEU_ERR_SUCCESS, parse_option tag) else (ret, tag).

Definition neu_adapter_driver_check_tag (d : neu_adapter_driver_t) (group : string)
    (tag : neu_datatag_t) : Z :=
  match find_group d group with
  | None => NEU_ERR_SUCCESS
  | Some find =>
      if neu_group_check_name (g_group find) (tag_name tag) =? NEU_ERR_SUCCESS
      then NEU_ERR_SUCCESS else NEU_ERR_TAG_NAME_CONFLICT
  end.

(** [clock] is the time the group stamps its change with. *)
Definition neu_adapter_driver_add_tag (clock : Z) (d : neu_adapter_driver_t) (group : string)
    (tag : neu_datatag_t) (interval : Z) : option (Z * neu_adapter_driver_t) :=
  let tag := (validate_tag plugin (parse_option tag)).2 in
  let d := if find_group d group is Some _ then d else (neu_adapter_driver_add_group d group interval).2 in
  match find_group d group with
  | None => None
  | Some find =>
      let '(ret, gr) := neu_group_add_tag clock (g_group find) tag in
      let d := with_groups (hash_update g_name group (with_group gr) (d_groups d)) d in
      Some (ret, if ret =? NEU_ERR_SUCCESS then with_tag_cnt (u64 (d_tag_cnt d + 1)) d else d)
  end.

Definition neu_adapter_driver_del_tag (clock : Z) (d : neu_adapter_driver_t) (group tag : string)
    : Z * neu_adapter_driver_t :=
  match find_group d group with
  | None => (NEU_ERR_GROUP_NOT_EXIST, d)
  | Some find =>
      let '(ret, gr) := neu_group_del_tag clock (g_group find) tag in
      let d := with_groups (hash_update g_name group (with_group gr) (d_groups d)) d in
      (ret, if ret =? NEU_ERR_SUCCESS then with_tag_cnt (u64 (d_tag_cnt d - 1)) d else d)
  end.

Definition neu_adapter_driver_update_tag (clock : Z) (d : neu_adapter_driver_t) (group : string)
    (tag : neu_datatag_t) : Z * neu_adapter_driver_t :=
  if decide (NEU_TAG_NAME_LEN <= String.length (tag_name tag))%nat
  then (NEU_ERR_TAG_NAME_TOO_LONG, d)
  else if decide (NEU_TAG_ADDRESS_LEN < String.length (tag_address tag))%nat
  then (NEU_ERR_TAG_ADDRESS_TOO_LONG, d)
  else if decide (NEU_TAG_DESCRIPTION_LEN < description_length tag)%nat
  then (NEU_ERR_TAG_DESCRIPTION_TOO_LONG, d)
  else if NEU_TAG_FLOAG_PRECISION_MAX <? tag_precision tag
  then (NEU_ERR_TAG_PRECISION_INVALID, d)
  else
    let '(ret, tag) := validate_tag plugin tag in
    if negb (ret =? NEU_ERR_SUCCESS) then (ret, d)
    else
      match find_group d group with
      | None => (NEU_ERR_GROUP_NOT_EXIST, d)
      | Some find =>
          let '(ret, gr) := neu_group_update_tag clock (g_group find) (parse_option tag) in
          (ret, with_groups (hash_update g_name group (with_group gr) (d_groups d)) d)
      end.

Definition neu_adapter_driver_rename_tag (clock : Z) (d : neu_adapter_driver_t)
    (group old_name new_name : string) : Z * neu_adapter_driver_t :=
  if decide (NEU_TAG_NAME_LEN <= String.length new_name)%nat
  then (NEU_ERR_TAG_NAME_TOO_LONG, d)
  else
    match find_group d group with
    | None => (NEU_ERR_GROUP_NOT_EXIST, d)
    | Some find =>
        let '(ret, gr) := neu_group_rename_tag clock (g_group find) old_name new_name in
        let d := with_groups (hash_update g_name group (with_group gr) (d_groups d)) d in
        (ret, if ret =? NEU_ERR_SUCCESS
              then with_cache (neu_driver_cache_rename (d_cache d) group old_name new_name) d
              else d)
    end.

Definition neu_adapter_driver_get_tag (d : neu_adapter_driver_t) (group : string)
    : Z * list neu_datatag_t :=
  match find_group d group with
  | Some find => (NEU_ERR_SUCCESS, neu_group_get_tag (g_group find))
  | None => (NEU_ERR_GROUP_NOT_EXIST, [])
  end.

Definition neu_adapter_driver_query_tag (d : neu_adapter_driver_t) (group name : string)
    : Z * list neu_datatag_t :=
  match find_group d group with
  | Some find =>
      (NEU_ERR_SUCCESS,
       if decide (0 < String.length name)%nat then neu_group_query_tag (g_group find) name
       else neu_group_get_tag (g_group find))
  | None => (NEU_ERR_GROUP_NOT_EXIST, [])
  end.

(** Tags with a scale factor are shown as [double]. *)
Definition shown_as_double (t : neu_datatag_t) : neu_datatag_t :=
  if d64_nonzero (tag_decimal t) then
    match tag_type t with
    | NEU_TYPE_UINT8 | NEU_TYPE_INT8 | NEU_TYPE_INT16 | NEU_TYPE_UINT16 | NEU_TYPE_INT32
    | NEU_TYPE_UINT32 | NEU_TYPE_INT64 | NEU_TYPE_UINT64 | NEU_TYPE_FLOAT =>
        {| tag_name := tag_name t; tag_address := tag_address t; tag_attribute := tag_attribute t;
           tag_type := NEU_TYPE_DOUBLE; tag_precision := tag_precision t;
           tag_decimal := tag_decimal t; tag_bias := tag_bias t;
           tag_description := tag_description t; tag_unit := tag_unit t;
           tag_option := tag_option t; tag_meta := tag_meta t; tag_format := tag_format t;
           tag_n_format := tag_n_format t |}
    | _ => t
    end
  else t.

Definition neu_adapter_driver_get_value_tag (d : neu_adapter_driver_t) (group : string)
    : list neu_datatag_t :=
  let '(ret, tags) := neu_adapter_driver_get_tag d group in
  if ret =? NEU_ERR_SUCCESS then shown_as_double <$> tags else [].

Definition neu_adapter_driver_get_read_tag (d : neu_adapter_driver_t) (group : string)
    : option (list neu_datatag_t) :=
  find ← find_group d group; Some (neu_group_get_read_tag (g_group find)).

Definition neu_adapter_driver_get_ptag (d : neu_adapter_driver_t) (group tag : string)
    : option (list neu_datatag_t) :=
  find ← find_group d group;
  t ← neu_group_find_tag (g_group find) tag;
  Some [t].

(** *** Deleting a group *)

(** [neu_driver_cache_del] for every tag of the snapshot. *)
Fixpoint cache_del_tags (c : neu_driver_cache_t) (group : string) (tags : list neu_datatag_t)
    : M J neu_driver_cache_t :=
  match tags with
  | [] => mret c
  | t :: tags' => c ← neu_driver_cache_del c group (tag_name t); cache_del_tags c group tags'
  end.

Definition neu_adapter_driver_del_group (d : neu_adapter_driver_t) (name : string)
    : M J (Z * neu_adapter_driver_t) :=
  match find_group d name with
  | None => mret (NEU_ERR_GROUP_NOT_EXIST, d)
  | Some find =>
      c ← cache_del_tags (d_cache d) name (grp_tags find);
      mret (NEU_ERR_SUCCESS,
            {| d_running := d_running d; d_cache := c;
               d_tag_cnt := u64 (d_tag_cnt d - neu_group_tag_size (g_group find));
               d_groups := hash_del g_name name (d_groups d) |})
  end.

(** *** The read timer: [group_change] brings the cache in line with the tags *)

(** The value of a tag that has not been read. *)
Definition not_ready (t : neu_datatag_t) : neu_dvalue_t :=
  {| dv_type := NEU_TYPE_ERROR; dv_value := set_u32 NEU_ERR_PLUGIN_TAG_NOT_READY value_zero;
     dv_precision := tag_precision t; dv_attrs := attrs_zero |}.

Definition cache_add_tags (c : neu_driver_cache_t) (group : string) (tags : list neu_datatag_t)
    : neu_driver_cache_t :=
  fold_left (λ c t, neu_driver_cache_add c group (tag_name t) (not_ready t)) tags c.

Definition group_change (d : neu_adapter_driver_t) (g : group_t) (ts : Z)
    (tags : list neu_datatag_t) : M J (group_t * neu_driver_cache_t) :=
  c ← cache_del_tags (d_cache d) (g_name g) (grp_tags g);
  mret ({| g_name := g_name g; g_timestamp := ts; g_group := g_group g;
           g_wt_tags := g_wt_tags g; g_timers := g_timers g; g_apps := g_apps g;
           grp_name := g_name g; grp_interval := neu_group_get_interval (g_group g);
           grp_tags := tags |},
        cache_add_tags c (g_name g) tags).

(** The driver after the timer and whether the plugin is polled ([group_timer]
    with the tags of the snapshot). *)
Definition read_callback (d : neu_adapter_driver_t) (name : string)
    : M J (neu_adapter_driver_t * option (list neu_datatag_t)) :=
  match find_group d name with
  | None => mret (d, None)
  | Some g =>
      if negb (d_running d) then mret (d, None)
      else
        '(d, g) ←
          (match (if neu_group_is_change (g_group g) (g_timestamp g)
                  then neu_group_change_test (g_group g) (g_timestamp g) else None) with
           | Some (ts, tags, _) =>
               '(g', c) ← group_change d g ts tags;
               mret (with_cache c (with_groups (hash_update g_name name (λ _, g') (d_groups d)) d), g')
           | None => mret (d, g)
           end);
        mret (d, if decide (grp_tags g = []) then None else Some (grp_tags g))
  end.
End Operations.

(** *** Writes *)

Definition store_write_tag (w : to_be_write_tag_t) (g : group_t) : group_t :=
  with_wt_tags (g_wt_tags g ++ [w]) g.

(** The write timer: the requests handed to the plugin ([write_tag] and
    [write_tags]), in order. *)
Definition write_callback (d : neu_adapter_driver_t) (name : string)
    : neu_adapter_driver_t * list to_be_write_tag_t :=
  match find_group d name with
  | Some g =>
      if d_running d
      then (with_groups (hash_update g_name name (with_wt_tags []) (d_groups d)) d, g_wt_tags g)
      else (d, [])
  | None => (d, [])
  end.

(** *** Subscriptions *)

(** The flag is whether a report goes to the application at once. *)
Definition neu_adapter_driver_subscribe (d : neu_adapter_driver_t) (group app : string) (port : Z)
    : neu_adapter_driver_t * bool :=
  match find_group d group with
  | None => (d, false)
  | Some g =>
      if bool_decide (app ∈ sub_app <$> g_apps g) then (d, false)
      else
        let a := {| sub_app := cstr_trunc 127 app; sub_port := port |} in
        (with_groups (hash_update g_name group (with_apps (g_apps g ++ [a])) (d_groups d)) d, true)
  end.

(** The first application of that name leaves the array. *)
Definition neu_adapter_driver_unsubscribe (d : neu_adapter_driver_t) (group app : string)
    : neu_adapter_driver_t :=
  match find_group d group with
  | None => d
  | Some g =>
      with_groups (hash_update g_name group (with_apps (hash_del sub_app app (g_apps g)))
                     (d_groups d)) d
  end.
