(* ===== verification/DriverOk.v ===== *)
(** * Correctness of the driver node

    The invariant of the table of groups and of the tag counter over every
    history of the driver, and the work of the read timer on the cache. *)

From Stdlib Require Import SpecFloat.
From stdpp Require Import pretty.
From S2P Require Import Prelude UtHash NeuTypes CHeap CFloat DriverCache CacheValue DriverCacheOk Tag Group Driver.

(** ** The number of tags *)

Definition group_size (g : group_t) : Z := Z.of_nat (length (tags (g_group g))).
Definition total_tags (gs : list group_t) : Z := foldr (λ g n, group_size g + n) 0 gs.

Lemma total_add g gs : total_tags (hash_add g gs) = total_tags gs + group_size g.
Proof. unfold hash_add. induction gs as [|x gs IH]; simpl in *; lia. Qed.

Lemma total_del name g gs :
  hash_find g_name name gs = Some g →
  total_tags (hash_del g_name name gs) = total_tags gs - group_size g.
Proof.
  induction gs as [|x gs IH]; simpl; [done|]. destruct (decide (g_name x = name)).
  - intros [= <-]. lia.
  - intros Hf. simpl. rewrite IH by done. lia.
Qed.

Lemma total_update name f g gs :
  hash_find g_name name gs = Some g →
  total_tags (hash_update g_name name f gs) = total_tags gs - group_size g + group_size (f g).
Proof.
  induction gs as [|x gs IH]; simpl; [done|]. destruct (decide (g_name x = name)).
  - intros [= <-]. simpl. lia.
  - intros Hf. simpl. rewrite IH by done. lia.
Qed.

Lemma total_update_same name f gs :
  (∀ g, group_size (f g) = group_size g) →
  total_tags (hash_update g_name name f gs) = total_tags gs.
Proof.
  intros Hf. induction gs as [|x gs IH]; simpl; [done|].
  destruct (decide (g_name x = name)); simpl; rewrite ?Hf, ?IH; lia.
Qed.

(** What the operations of a group do to its size and its name. *)
Definition op_delta (op : group_op) (ret : Z) : Z :=
  match op with
  | OpAdd _ => if ret =? NEU_ERR_SUCCESS then 1 else 0
  | OpDel _ => if ret =? NEU_ERR_SUCCESS then -1 else 0
  | _ => 0
  end.

Lemma run_op_size clock op gr :
  let r := run_op clock op gr in
  Z.of_nat (length (tags r.2)) = Z.of_nat (length (tags gr)) + op_delta op r.1.
Proof.
  destruct op as [t|t|o n|n]; simpl.
  - unfold neu_group_add_tag. destruct (hash_find _ _ _); simpl; [lia|].
    unfold hash_add. rewrite length_app. simpl. lia.
  - unfold neu_group_update_tag. destruct (hash_find _ _ _); simpl; [|lia].
    assert (Hl : ∀ f ts, length (hash_update el_name (tag_name t) f ts) = length ts).
    { intros f ts. induction ts as [|x ts IH]; simpl; [done|].
      destruct (decide (el_name x = tag_name t)); simpl; congruence. }
    rewrite Hl. lia.
  - unfold neu_group_rename_tag. destruct (hash_find el_name o (tags gr)) eqn:Ho; simpl; [|lia].
    destruct (decide (o = n)); simpl; [lia|]. destruct (hash_find el_name n (tags gr)); simpl; [lia|].
    rewrite (Permutation_length (hash_add_inorder_perm tag_order_cmp _ _)). simpl.
    rewrite (length_hash_del el_name o (tags gr)) by (rewrite Ho; eauto). lia.
  - unfold neu_group_del_tag. destruct (hash_find el_name n (tags gr)) eqn:Ho; simpl; [|lia].
    pose proof (length_hash_del el_name n (tags gr) ltac:(rewrite Ho; eauto)). lia.
Qed.

Lemma run_op_name clock op gr : group_name (run_op clock op gr).2 = group_name gr.
Proof.
  destruct op; simpl; unfold neu_group_add_tag, neu_group_update_tag, neu_group_rename_tag,
    neu_group_del_tag; repeat case_match; done.
Qed.

(** ** The invariant *)

Record driver_ok (d : neu_adapter_driver_t) : Prop := {
  drv_groups : table_ok g_name (d_groups d);
  drv_names : Forall (λ g, group_name (g_group g) = g_name g) (d_groups d);
  drv_count : d_tag_cnt d = u64 (total_tags (d_groups d));
}.

Lemma u64_add_l x y : u64 (u64 x + y) = u64 (x + y).
Proof. unfold u64. apply Zplus_mod_idemp_l. Qed.

Lemma find_group_Some d name g :
  find_group d name = Some g → g ∈ d_groups d ∧ g_name g = name.
Proof. apply hash_find_Some. Qed.

(** Replacing the group of a name by one of the same name. *)
Lemma driver_ok_update d name g f :
  driver_ok d → find_group d name = Some g →
  (∀ x, g_name (f x) = g_name x) → group_name (g_group (f g)) = g_name g →
  table_ok g_name (hash_update g_name name f (d_groups d)) ∧
  Forall (λ g, group_name (g_group g) = g_name g) (hash_update g_name name f (d_groups d)).
Proof.
  intros [Ht Hn _] Hf Hk Hg. split.
  - unfold table_ok. by rewrite hash_update_keys.
  - rewrite hash_update_fmap by done. apply Forall_fmap, Forall_forall. intros x Hx. simpl.
    destruct (decide (g_name x = name)) as [E|E].
    + assert (x = g) as ->; [|by rewrite Hk].
      apply find_group_Some in Hf as [Hg' E']. apply (table_ok_inj g_name (d_groups d)); [done..|congruence].
    + rewrite Forall_forall in Hn. by apply Hn.
Qed.

Lemma driver_ok_replace d name g g' :
  driver_ok d → find_group d name = Some g → g_name g' = name →
  group_name (g_group g') = name →
  table_ok g_name (hash_update g_name name (λ _, g') (d_groups d)) ∧
  Forall (λ g, group_name (g_group g) = g_name g)
    (hash_update g_name name (λ _, g') (d_groups d)).
Proof.
  intros [Ht Hn _] Hf Hk Hg. split.
  - unfold table_ok. by rewrite hash_replace_keys.
  - apply Forall_forall. intros x Hx. apply elem_of_hash_replace in Hx as [-> | [Hx _]]; [congruence| |done].
    rewrite Forall_forall in Hn. by apply Hn.
Qed.

(** An operation on the tags of one group, with its effect on the counter. *)
Lemma driver_ok_group_op clock d name g op cnt :
  driver_ok d → find_group d name = Some g →
  let r := run_op clock op (g_group g) in
  cnt = u64 (d_tag_cnt d + op_delta op r.1) →
  driver_ok (with_tag_cnt cnt
    (with_groups (hash_update g_name name (with_group r.2) (d_groups d)) d)).
Proof.
  intros Hd Hf r ->. destruct (driver_ok_update d name g (with_group r.2)) as [Ht Hn]; [done..| |].
  { simpl. unfold r. rewrite run_op_name. apply find_group_Some in Hf as [Hin _].
    pose proof (drv_names d Hd) as Hn. rewrite Forall_forall in Hn. by apply Hn. }
  split; simpl; [done|done|]. rewrite (total_update _ _ g) by done.
  unfold group_size. simpl. unfold r. rewrite run_op_size. rewrite (drv_count d Hd), u64_add_l.
  f_equal. lia.
Qed.

Lemma u64_total d : driver_ok d → u64 (d_tag_cnt d + 0) = d_tag_cnt d.
Proof. intros Hd. rewrite (drv_count d Hd), u64_add_l. f_equal. lia. Qed.

Lemma driver_ok_cnt d : driver_ok d → driver_ok (with_tag_cnt (d_tag_cnt d) d).
Proof. intros Hd. by destruct d. Qed.

Lemma add_group_ok d name itv :
  driver_ok d → driver_ok (neu_adapter_driver_add_group d name itv).2.
Proof.
  intros [Ht Hn Hc]. unfold neu_adapter_driver_add_group, find_group.
  destruct (hash_find g_name name (d_groups d)) eqn:E; [done|]. simpl.
  set (g := if d_running d then _ else _).
  assert (Hg : g_name g = name ∧ group_name (g_group g) = name ∧ group_size g = 0)
    by (subst g; by destruct (d_running d)). destruct Hg as (Hg1 & Hg2 & Hg3).
  split; simpl.
  - apply table_ok_add; [done|]. by rewrite Hg1.
  - apply Forall_app. split; [done|]. apply Forall_singleton. congruence.
  - rewrite total_add, Hg3, Z.add_0_r. done.
Qed.

(** Overwriting a group with one of the same name and size. *)
Lemma driver_ok_same d name g g' :
  driver_ok d → find_group d name = Some g → g_name g' = name →
  group_name (g_group g') = name → group_size g' = group_size g →
  driver_ok (with_groups (hash_update g_name name (λ _, g') (d_groups d)) d).
Proof.
  intros Hd Hf H1 H2 H3. destruct (driver_ok_replace d name g g') as [Ht Hn]; [done..|].
  split; simpl; [done|done|]. rewrite (total_update _ _ g) by done. rewrite (drv_count d Hd).
  f_equal. lia.
Qed.

(** Moving a group to a free name. *)
Lemma driver_ok_move d name g s g' :
  driver_ok d → find_group d name = Some g → find_group d s = None → g_name g' = s →
  group_name (g_group g') = s → group_size g' = group_size g →
  driver_ok (with_groups (hash_add g' (hash_del g_name name (d_groups d))) d).
Proof.
  intros [Ht Hn Hc] Hf Hfree G1 G2 G3. split; simpl.
  - apply table_ok_add; [by apply table_ok_del|]. rewrite G1, hash_find_del by done.
    unfold find_group in Hfree. rewrite Hfree. by destruct (decide _).
  - apply Forall_app. split; [|apply Forall_singleton; congruence].
    eapply Forall_sublist; [apply hash_del_sublist|done].
  - rewrite total_add, (total_del _ g), G3 by done. rewrite Hc. f_equal. lia.
Qed.

Lemma update_body_ok now d name n itv g :
  driver_ok d → find_group d name = Some g → group_name (g_group g) = name →
  (∀ s, n = Some s → s = name ∨ find_group d s = None) →
  driver_ok (update_group_body now d name n itv g).2.
Proof.
  intros Hd Hf Hgn Hnew. unfold update_group_body.
  destruct (find_group_Some d name g Hf) as [_ Hname].
  set (g0 := if d_running d then stop_group_timer g else g).
  assert (H0 : g_name g0 = name ∧ g_group g0 = g_group g)
    by (subst g0; by destruct (d_running d)). destruct H0 as [H0n H0g]. clearbody g0.
  destruct n as [s|]; [destruct (decide (name = s)) as [<-|Hne]|]; simpl.
  - apply (driver_ok_same d name g); [done|done|..]; destruct (d_running d); simpl;
      unfold group_size; simpl; by rewrite ?H0g.
  - destruct (Hnew s eq_refl) as [?|Hfree]; [done|].
    apply (driver_ok_move d name g s); [done|done|done|..]; destruct (d_running d); simpl;
      unfold group_size; simpl; by rewrite ?H0g.
  - apply (driver_ok_same d name g); [done|done|..]; destruct (d_running d); simpl;
      unfold group_size; simpl; by rewrite ?H0g.
Qed.

Lemma update_group_ok now d name new_name itv :
  driver_ok d → driver_ok (neu_adapter_driver_update_group now d name new_name itv).2.
Proof.
  intros Hd. unfold neu_adapter_driver_update_group.
  destruct (find_group d name) as [g|] eqn:Hf; [|done].
  destruct (find_group_Some d name g Hf) as [Hin Hname].
  assert (Hgn : group_name (g_group g) = name).
  { pose proof (drv_names d Hd) as Hn. rewrite Forall_forall in Hn. rewrite <-Hname. by apply Hn. }
  destruct new_name as [s|].
  - destruct (decide (s = EmptyString)); [done|].
    destruct (bool_decide (name = s)) eqn:Es; cbn [negb andb].
    + apply bool_decide_eq_true in Es. apply update_body_ok; [done..|]. intros ? [= <-]. by left.
    + destruct (bool_decide (is_Some (find_group d s))) eqn:Ef; [done|].
      apply update_body_ok; [done..|]. intros ? [= <-]. right.
      apply bool_decide_eq_false in Ef. by apply eq_None_not_Some.
  - destruct (_ =? itv); [done|]. by apply update_body_ok.
Qed.

(** Changes of a group that touch neither its name nor its tags. *)
Lemma driver_ok_side d name f :
  driver_ok d → (∀ g, g_name (f g) = g_name g) → (∀ g, g_group (f g) = g_group g) →
  driver_ok (with_groups (hash_update g_name name f (d_groups d)) d).
Proof.
  intros [Ht Hn Hc] H1 H2. split; simpl.
  - unfold table_ok. by rewrite hash_update_keys.
  - rewrite hash_update_fmap by done. apply Forall_fmap. eapply Forall_impl; [exact Hn|].
    intros g Hg. simpl. destruct (decide _); [by rewrite H1, H2|done].
  - rewrite total_update_same; [done|]. intros g. unfold group_size. by rewrite H2.
Qed.

Lemma driver_ok_fmap d f :
  driver_ok d → (∀ g, g_name (f g) = g_name g) → (∀ g, g_group (f g) = g_group g) →
  driver_ok (with_groups (f <$> d_groups d) d).
Proof.
  intros [Ht Hn Hc] H1 H2. split; simpl.
  - unfold table_ok. rewrite <-list_fmap_compose. erewrite list_fmap_ext; [exact Ht|].
    intros i g _. apply H1.
  - apply Forall_fmap. eapply Forall_impl; [exact Hn|]. intros g Hg. simpl. by rewrite H1, H2.
  - rewrite Hc. f_equal. clear -H2. induction (d_groups d) as [|g gs IH]; simpl; [done|].
    unfold group_size in *. by rewrite H2, IH.
Qed.

(** ** Histories *)

Section Histories.
Context (plugin : plugin_ops).
Context {J : Type} `{Jansson J}.
Implicit Types (h : mem J) (d : neu_adapter_driver_t).

(** The events of a driver.  A group that is deleted has fewer tags than its
    16-bit size can count. *)
Inductive driver_step : neu_adapter_driver_t → neu_adapter_driver_t → Prop :=
  | dstep_add_group d name itv : driver_step d (neu_adapter_driver_add_group d name itv).2
  | dstep_update_group now d name new_name itv :
      driver_step d (neu_adapter_driver_update_group now d name new_name itv).2
  | dstep_del_group d name h r d' h' :
      (∀ g, find_group d name = Some g → group_size g < 65536) →
      neu_adapter_driver_del_group d name h = Some (r, d', h') → driver_step d d'
  | dstep_add_tag clock d group tag itv r d' :
      neu_adapter_driver_add_tag plugin clock d group tag itv = Some (r, d') → driver_step d d'
  | dstep_del_tag clock d group tag : driver_step d (neu_adapter_driver_del_tag clock d group tag).2
  | dstep_update_tag clock d group tag :
      driver_step d (neu_adapter_driver_update_tag plugin clock d group tag).2
  | dstep_rename_tag clock d group old_name new_name :
      driver_step d (neu_adapter_driver_rename_tag clock d group old_name new_name).2
  | dstep_read d name h d' polled h' :
      read_callback d name h = Some (d', polled, h') → driver_step d d'
  | dstep_write d name : driver_step d (write_callback d name).1
  | dstep_subscribe d group app port :
      driver_step d (neu_adapter_driver_subscribe d group app port).1
  | dstep_unsubscribe d group app :
      driver_step d (neu_adapter_driver_unsubscribe d group app)
  | dstep_start d : driver_step d (neu_adapter_driver_start_group_timer d)
  | dstep_stop d : driver_step d (neu_adapter_driver_stop_group_timer d)
  | dstep_state d b : driver_step d {| d_running := b; d_cache := d_cache d;
                                       d_tag_cnt := d_tag_cnt d; d_groups := d_groups d |}.

Lemma group_op_case clock d group g op ret gr :
  driver_ok d → find_group d group = Some g → run_op clock op (g_group g) = (ret, gr) →
  op_delta op ret = 0 →
  driver_ok (with_groups (hash_update g_name group (with_group gr) (d_groups d)) d).
Proof.
  intros Hd Hf Hr H0.
  pose proof (driver_ok_group_op clock d group g op (d_tag_cnt d) Hd Hf) as Hop.
  rewrite Hr in Hop. simpl in Hop. rewrite H0, u64_total in Hop by done.
  specialize (Hop eq_refl). by destruct d.
Qed.

(** [neu_adapter_driver_add_tag] creates the group when it is missing, so its
    assertion holds. *)
Lemma add_tag_spec clock d group tag itv :
  driver_ok d → ∃ r d', neu_adapter_driver_add_tag plugin clock d group tag itv = Some (r, d') ∧
    driver_ok d' ∧ is_Some (find_group d' group).
Proof.
  intros Hd. unfold neu_adapter_driver_add_tag.
  set (d1 := if find_group d group is Some _ then d else _).
  assert (Hd1 : driver_ok d1 ∧ is_Some (find_group d1 group)).
  { subst d1. destruct (find_group d group) eqn:E; [by rewrite E|].
    split; [by apply add_group_ok|]. unfold neu_adapter_driver_add_group. rewrite E.
    unfold find_group in *. simpl. rewrite hash_find_add, E.
    rewrite decide_True by (by destruct (d_running d)). eauto. }
  destruct Hd1 as [Hd1 [g Hg]]. rewrite Hg.
  destruct (neu_group_add_tag clock (g_group g) _) as [ret gr] eqn:E.
  eexists _, _. split; [done|]. split.
  - set (tag' := (validate_tag plugin (parse_option tag)).2) in *.
    pose proof (driver_ok_group_op clock d1 group g (OpAdd tag')) as Hop. simpl in Hop.
    rewrite E in Hop. simpl in Hop. destruct (ret =? NEU_ERR_SUCCESS) eqn:Er.
    + by apply Hop.
    + apply (group_op_case clock d1 group g (OpAdd tag') ret); [done..|]. simpl. by rewrite Er.
  - apply find_group_Some in Hg as Hg2. destruct Hg2 as [_ Hn].
    assert (is_Some (find_group
      (with_groups (hash_update g_name group (with_group gr) (d_groups d1)) d1) group)).
    { unfold find_group in *. simpl. rewrite hash_find_update, decide_True, Hg by done. eauto. }
    by destruct (ret =? NEU_ERR_SUCCESS).
Qed.

Lemma u16_id_size g : group_size g < 65536 → neu_group_tag_size (g_group g) = group_size g.
Proof. intros Hl. unfold neu_group_tag_size. apply u16_id. unfold group_size in *. lia. Qed.

Lemma del_group_ok d name h r d' h' :
  driver_ok d → (∀ g, find_group d name = Some g → group_size g < 65536) →
  neu_adapter_driver_del_group d name h = Some (r, d', h') → driver_ok d'.
Proof.
  intros [Ht Hn Hc] Hsz. unfold neu_adapter_driver_del_group.
  destruct (find_group d name) as [g|] eqn:Hf; [|by intros [= <- <- <-]].
  unfold mbind, M_bind. destruct (cache_del_tags _ _ _ h) as [[c h1]|]; [|done].
  intros [= <- <- <-]. split; simpl.
  - by apply table_ok_del.
  - eapply Forall_sublist; [apply hash_del_sublist|done].
  - rewrite (total_del _ g), u16_id_size by (done || by apply Hsz).
    rewrite Hc. unfold u64. rewrite Zminus_mod_idemp_l. done.
Qed.

Lemma read_callback_ok d name h d' polled h' :
  driver_ok d → read_callback d name h = Some (d', polled, h') → driver_ok d'.
Proof.
  intros Hd. unfold read_callback. destruct (find_group d name) as [g|] eqn:Hf;
    [|by intros [= <- <- <-]].
  destruct (d_running d); [|by intros [= <- <- <-]]. cbn [negb]. unfold mbind, M_bind.
  destruct (if neu_group_is_change (g_group g) (g_timestamp g) then _ else None)
    as [[[ts tgs] itv]|]; [|by intros [= <- <- <-]].
  unfold group_change, mbind, M_bind. destruct (cache_del_tags _ _ _ h) as [[c h1]|]; [|done].
  intros [= <- <- <-]. destruct (find_group_Some d name g Hf) as [Hin Hname].
  pose proof (drv_names d Hd) as Hn. rewrite Forall_forall in Hn.
  match goal with |- driver_ok (with_cache _ (with_groups (hash_update _ _ (λ _, ?g') _) _)) =>
    destruct (driver_ok_same d name g g') as [H1 H2 H3] end; try done.
  simpl. rewrite <-Hname. by apply Hn.
Qed.

Lemma driver_step_ok d d' : driver_step d d' → driver_ok d → driver_ok d'.
Proof.
  destruct 1 as [d name itv|now d name nn itv|d name h r d' h' Hs E|clock d group tag itv r d' E
    |clock d group tag|clock d group tag|clock d group o n|d name h d' polled h' E|d name
    |d group app port|d group app|d|d|d b]; intros Hd.
  - by apply add_group_ok.
  - by apply update_group_ok.
  - by eapply del_group_ok.
  - destruct (add_tag_spec clock d group tag itv Hd) as (? & ? & E' & ? & _).
    rewrite E in E'. by injection E' as <- <-.
  - unfold neu_adapter_driver_del_tag. destruct (find_group d group) as [g|] eqn:Hf; [|done].
    destruct (neu_group_del_tag clock (g_group g) tag) as [ret gr] eqn:E. simpl.
    pose proof (driver_ok_group_op clock d group g (OpDel tag)) as Hop. simpl in Hop.
    rewrite E in Hop. simpl in Hop. destruct (ret =? NEU_ERR_SUCCESS) eqn:Er.
    + by apply Hop.
    + apply (group_op_case clock d group g (OpDel tag) ret); [done..|]. simpl. by rewrite Er.
  - unfold neu_adapter_driver_update_tag. repeat (destruct (decide _); [done|]).
    destruct (_ <? _); [done|]. destruct (validate_tag plugin tag) as [ret tag'].
    destruct (negb _); [done|]. destruct (find_group d group) as [g|] eqn:Hf; [|done].
    destruct (neu_group_update_tag clock (g_group g) (parse_option tag')) as [ret' gr] eqn:E.
    by apply (group_op_case clock d group g (OpUpdate (parse_option tag')) ret').
  - unfold neu_adapter_driver_rename_tag. destruct (decide _); [done|].
    destruct (find_group d group) as [g|] eqn:Hf; [|done].
    destruct (neu_group_rename_tag clock (g_group g) o n) as [ret gr] eqn:E. simpl.
    pose proof (group_op_case clock d group g (OpRename o n) ret gr Hd Hf E eq_refl) as Hok.
    destruct (ret =? NEU_ERR_SUCCESS); [|done]. destruct Hok. by split.
  - by eapply read_callback_ok.
  - unfold write_callback. destruct (find_group d name); [|done].
    destruct (d_running d); [|done]. by apply driver_ok_side.
  - unfold neu_adapter_driver_subscribe. destruct (find_group d group); [|done].
    destruct (bool_decide _); [done|]. by apply driver_ok_side.
  - unfold neu_adapter_driver_unsubscribe. destruct (find_group d group); [|done].
    by apply driver_ok_side.
  - by apply driver_ok_fmap.
  - by apply driver_ok_fmap.
  - destruct Hd. by split.
Qed.

(** C29: the table of groups and the tag counter agree in every history in which no
    group of 65536 or more tags is deleted ([del_group_count_wraps] is that case).
    From a new driver, after any such sequence of its operations and timers: group
    names are unique and match the groups, the counter is the number of tags in all
    groups (modulo the width of the counter), and adding a tag returns and leaves
    its group in the table, so the assertion in it never fails. *)
Theorem driver_histories_ok d :
  rtc driver_step neu_adapter_driver_create d →
  driver_ok d ∧
  ∀ clock group tag itv, ∃ r d',
    neu_adapter_driver_add_tag plugin clock d group tag itv = Some (r, d') ∧
    is_Some (find_group d' group).
Proof.
  intros Hsteps. assert (Hd : driver_ok d).
  { refine (rtc_ind_r driver_ok _ _ _ d Hsteps).
    - split; simpl; [apply NoDup_nil_2|done|done].
    - intros x y _ Hstep Hx. by eapply driver_step_ok. }
  split; [done|]. intros clock group tag itv.
  destruct (add_tag_spec clock d group tag itv Hd) as (r & d' & E & _ & Hs). eauto.
Qed.
End Histories.

(** Deleting a group with 65536 tags loses count.  The size of the group
    is a [uint16_t], so nothing is subtracted: the counter still has the tags that
    are gone. *)
Theorem del_group_count_wraps {J} `{Jansson J} (d : neu_adapter_driver_t) name g (h : mem J) r d' h' :
  driver_ok d → find_group d name = Some g → group_size g = 65536 →
  neu_adapter_driver_del_group d name h = Some (r, d', h') →
  d_tag_cnt d' = d_tag_cnt d ∧ total_tags (d_groups d') = total_tags (d_groups d) - 65536.
Proof.
  intros Hd Hf Hsz. unfold neu_adapter_driver_del_group. rewrite Hf. unfold mbind, M_bind.
  destruct (cache_del_tags _ _ _ h) as [[c h1]|]; [|done]. intros [= <- <- <-]. simpl. split.
  - unfold neu_group_tag_size. unfold group_size in Hsz. rewrite Hsz. change (u16 65536) with 0.
    rewrite Z.sub_0_r, <-(Z.add_0_r (d_tag_cnt d)). rewrite u64_total by done. lia.
  - by rewrite (total_del _ g), Hsz.
Qed.

(** ** The read timer and the cache *)

Section Timer.
Context {J : Type} `{Jansson J}.
Implicit Types (h : mem J) (c : neu_driver_cache_t) (d : neu_adapter_driver_t).

Definition tag_key (group : string) (t : neu_datatag_t) : tkey_t := to_key group (tag_name t).

(** The sample of a tag that waits for its first read. *)
Definition waiting (t : neu_datatag_t) (s : sample) : Prop :=
  s_timestamp s = 0 ∧ s_changed s = false ∧ s_type s = NEU_TYPE_ERROR ∧
  s_content s = Some (CBytes (mem_read 0 4 (dv_value (not_ready t)))) ∧
  s_precision s = tag_precision t.

Lemma not_ready_ok h t : heap_ok h → dv_ok h (not_ready t) ∧ dv_owned h (not_ready t) = [].
Proof.
  intros Hok. split; [|done]. split; simpl; try done.
  - split; [done|]. apply (bool_decide_unpack _). by vm_compute.
  - apply NoDup_nil_2.
Qed.

Lemma runs_cache_del_tags group ts : ∀ h c (Q : neu_driver_cache_t → mem J → Prop),
  cache_ok h c →
  (∀ c' h', cache_ok h' c' →
     (∀ k, k ∈ tag_key group <$> ts → view h' c' !! k = None) →
     (∀ k, k ∉ tag_key group <$> ts → view h' c' !! k = view h c !! k) → Q c' h') →
  runs (cache_del_tags c group ts) h Q.
Proof.
  induction ts as [|t ts IH]; intros h c Q Hc HQ; cbn [cache_del_tags].
  { apply runs_ret, HQ; [done| |done]. by intros k ?%not_elem_of_nil. }
  apply runs_bind, runs_cache_del; [done|]. intros c1 h1 Hc1 Hv1 _. apply IH; [done|].
  intros c' h' Hc' Hin Hout. apply HQ; [done| |].
  - intros k Hk. destruct (decide (k ∈ tag_key group <$> ts)) as [Hk'|Hk']; [by apply Hin|].
    rewrite Hout, Hv1 by done. apply elem_of_cons in Hk as [->|?]; [|done].
    apply lookup_delete_eq.
  - intros k [Hne Hk]%not_elem_of_cons. rewrite Hout, Hv1 by done. by apply lookup_delete_ne.
Qed.

Lemma cache_add_tags_spec group ts : ∀ h c,
  cache_ok h c → NoDup (tag_key group <$> ts) →
  let c' := cache_add_tags c group ts in
  cache_ok h c' ∧
  (∀ t, t ∈ ts → ∃ s, view h c' !! tag_key group t = Some s ∧ waiting t s) ∧
  (∀ k, k ∉ tag_key group <$> ts → view h c' !! k = view h c !! k).
Proof.
  induction ts as [|t ts IH]; intros h c Hc Hnd; simpl.
  { split_and!; [done| |done]. by intros t ?%not_elem_of_nil. }
  simpl in Hnd. apply NoDup_cons in Hnd as [Hn Hnd].
  destruct (not_ready_ok h t (cache_heap h c Hc)) as [Hok Hown].
  destruct (cache_add h c group (tag_name t) (not_ready t) Hc Hok Hown) as [Hc1 Hv1].
  destruct (IH h _ Hc1 Hnd) as (Hc' & Hin & Hout). split_and!; [done| |].
  - intros t' [->|Ht']%elem_of_cons; [|by apply Hin]. eexists. split.
    + unfold cache_add_tags in Hout. rewrite Hout, Hv1 by done. apply lookup_insert_eq.
    + done.
  - intros k [Hne Hk]%not_elem_of_cons. unfold cache_add_tags in Hout. rewrite Hout, Hv1 by done.
    by apply lookup_insert_ne.
Qed.
(** What the read timer leaves behind when the group has changed. *)
Record synced (g : group_t) (ts : list neu_datatag_t) (m m' : gmap tkey_t sample) : Prop := {
  sync_present : ∀ t, t ∈ ts → ∃ s, m' !! tag_key (g_name g) t = Some s ∧ waiting t s;
  sync_gone : ∀ k, k ∉ tag_key (g_name g) <$> ts → k ∈ tag_key (g_name g) <$> grp_tags g →
    m' !! k = None;
  sync_other : ∀ k, k ∉ tag_key (g_name g) <$> ts → k ∉ tag_key (g_name g) <$> grp_tags g →
    m' !! k = m !! k;
}.

Lemma runs_group_change h d g ts tgs (Q : group_t * neu_driver_cache_t → mem J → Prop) :
  cache_ok h (d_cache d) → NoDup (tag_key (g_name g) <$> tgs) →
  (∀ g' c' h', cache_ok h' c' → synced g tgs (view h (d_cache d)) (view h' c') →
     g_timestamp g' = ts → g_group g' = g_group g → g_name g' = g_name g → grp_tags g' = tgs →
     Q (g', c') h') →
  runs (group_change d g ts tgs) h Q.
Proof.
  intros Hc Hnd HQ. unfold group_change. apply runs_bind, runs_cache_del_tags; [done|].
  intros c1 h1 Hc1 Hin Hout. apply runs_ret.
  destruct (cache_add_tags_spec (g_name g) tgs h1 c1 Hc1 Hnd) as (Hc' & Hnew & Hold).
  apply HQ; [done| |done..]. split; [done| |].
  - intros k Hk Hk'. by rewrite Hold, Hin.
  - intros k Hk Hk'. by rewrite Hold, Hout.
Qed.

(** The timer of a group that has not changed leaves everything as it is. *)
Lemma read_callback_idle d name g h :
  find_group d name = Some g → d_running d = true →
  neu_group_is_change (g_group g) (g_timestamp g) = false →
  read_callback d name h =
    Some ((d, if decide (grp_tags g = []) then None else Some (grp_tags g)), h).
Proof.
  intros Hf Hr Hch. unfold read_callback. rewrite Hf, Hr, Hch. done.
Qed.

(** The timer of a group that has changed. *)
Lemma runs_read_callback h d name g (Q : neu_adapter_driver_t * option (list neu_datatag_t) → mem J → Prop) :
  let tgs := neu_group_get_tag (g_group g) in
  cache_ok h (d_cache d) → find_group d name = Some g → d_running d = true →
  neu_group_is_change (g_group g) (g_timestamp g) = true → NoDup (tag_key name <$> tgs) →
  (∀ d' g' h', cache_ok h' (d_cache d') → synced g tgs (view h (d_cache d)) (view h' (d_cache d')) →
     find_group d' name = Some g' → d_running d' = true → grp_tags g' = tgs →
     neu_group_is_change (g_group g') (g_timestamp g') = false →
     g_name g' = name → g_group g' = g_group g →
     Q (d', if decide (tgs = []) then None else Some tgs) h') →
  runs (read_callback d name) h Q.
Proof.
  intros tgs Hc Hf Hr Hch Hnd HQ. destruct (find_group_Some d name g Hf) as [_ Hn].
  unfold read_callback. rewrite Hf, Hr, Hch. cbn [negb].
  unfold neu_group_change_test. unfold neu_group_is_change in Hch. rewrite Hch.
  apply runs_bind, runs_bind, runs_group_change; [done|by rewrite Hn|].
  intros g' c' h' Hc' Hs Ht Hg Hname Htags. apply runs_ret, runs_ret. rewrite Htags.
  apply (HQ _ g'); [done..| |done|done| |congruence|done].
  - unfold find_group in *. simpl. rewrite hash_find_replace by congruence. by rewrite decide_True, Hf.
  - unfold neu_group_is_change. rewrite Hg, Ht, Z.eqb_refl. done.
Qed.

(** C25: the read timer brings the cache in line with the group.  When a
    running group has changed, its timer is safe and leaves exactly one waiting
    sample per tag of the group, none for the tags that left it, every sample of the
    other groups as it was, and polls the plugin with the tags of the group; the next
    timer polls the same tags and touches nothing. *)
Theorem timer_syncs_cache h d name g :
  let tgs := neu_group_get_tag (g_group g) in
  let polled := if decide (tgs = []) then None else Some tgs in
  cache_ok h (d_cache d) → find_group d name = Some g → d_running d = true →
  neu_group_is_change (g_group g) (g_timestamp g) = true → NoDup (tag_key name <$> tgs) →
  runs (read_callback d name) h (λ r h',
    cache_ok h' (d_cache r.1) ∧ r.2 = polled ∧
    synced g tgs (view h (d_cache d)) (view h' (d_cache r.1)) ∧
    read_callback r.1 name h' = Some (r.1, polled, h')).
Proof.
  intros tgs polled Hc Hf Hr Hch Hnd. apply (runs_read_callback h d name g); [done..|].
  intros d' g' h' Hc' Hs Hf' Hr' Ht Hch' _ _. simpl. split_and!; [done..|].
  rewrite (read_callback_idle d' name g') by done. by rewrite Ht.
Qed.

(** Renaming a group moves it to the new name and leaves the cache alone. *)
Lemma rename_group_spec now d name n itv g :
  driver_ok d → find_group d name = Some g → n ≠ name → n ≠ EmptyString → find_group d n = None →
  ∃ d' g', neu_adapter_driver_update_group now d name (Some n) itv = (0, d') ∧
    d_cache d' = d_cache d ∧ find_group d' name = None ∧ find_group d' n = Some g' ∧
    d_running d' = d_running d ∧ g_name g' = n ∧ grp_tags g' = grp_tags g ∧
    neu_group_get_tag (g_group g') = neu_group_get_tag (g_group g) ∧
    g_timestamp g' = now ∧ Group.timestamp (g_group g') = Group.timestamp (g_group g).
Proof.
  intros [Ht _ _] Hf Hne Hn Hfree. unfold neu_adapter_driver_update_group. rewrite Hf.
  rewrite decide_False by done. rewrite Hfree. rewrite bool_decide_eq_false_2 by done.
  rewrite (bool_decide_eq_false_2 (is_Some None)) by (by apply eq_None_not_Some).
  cbn [negb andb]. unfold update_group_body. rewrite decide_False by done. simpl.
  assert (Hd : ∀ k, hash_find g_name k (hash_del g_name name (d_groups d)) =
    if decide (k = name) then None else find_group d k)
    by (intros k; by rewrite hash_find_del).
  destruct (d_running d) eqn:Er; simpl; (eexists _, _; split; [done|]; split; [done|];
    unfold find_group in *; simpl; rewrite !hash_find_add, !Hd, Hfree; simpl;
    rewrite (decide_True _ _ (eq_refl name)), (decide_False (P := n = name)) by done;
    rewrite (decide_True _ _ (eq_refl n)); split; [done|];
    destruct (decide (n = name)); done).
Qed.

(** The samples of a renamed group stay behind.  After a rename and the
    next timer of the group no group has the old name, but every sample kept under
    it is still in the cache: nothing deletes it any more. *)
Theorem renamed_group_keeps_samples now h d name n itv g :
  driver_ok d → cache_ok h (d_cache d) → find_group d name = Some g → d_running d = true →
  n ≠ EmptyString → find_group d n = None →
  cstr_trunc 127 n ≠ cstr_trunc 127 name → Group.timestamp (g_group g) ≠ now →
  NoDup (tag_key n <$> neu_group_get_tag (g_group g)) →
  ∃ d1, neu_adapter_driver_update_group now d name (Some n) itv = (0, d1) ∧
    find_group d1 name = None ∧
    runs (read_callback d1 n) h (λ r h',
      ∀ tag, view h' (d_cache r.1) !! to_key name tag = view h (d_cache d) !! to_key name tag).
Proof.
  intros Hd Hc Hf Hr Hn Hfree Hne Hts Hnd.
  destruct (rename_group_spec now d name n itv g) as
    (d1 & g1 & E & Hcd & Hf1 & Hf2 & Hr1 & Hname & Hold & Htags & Hnow & Hgts); [done..| |done|done|].
  { by intros ->. }
  exists d1. split_and!; [done..|].
  apply (runs_read_callback h d1 n g1); rewrite ?Hcd, ?Hr1, ?Htags; [done..| |done|].
  { unfold neu_group_is_change. rewrite Hgts, Hnow. by apply negb_true_iff, Z.eqb_neq. }
  intros d' g' h' _ Hs _ _ _ _ _ _ tag. simpl.
  assert (Hk : ∀ ts : list neu_datatag_t, to_key name tag ∉ tag_key (g_name g1) <$> ts).
  { intros ts (t & E' & _)%list_elem_of_fmap. rewrite Hname in E'. injection E' as E' _.
    by apply Hne. }
  apply (sync_other _ _ _ _ Hs); apply Hk.
Qed.
End Timer.

(** ** Witnesses *)

Definition example_tag (n : string) : neu_datatag_t :=
  {| tag_name := n; tag_address := "1!400001"; tag_attribute := 1; tag_type := NEU_TYPE_INT16;
     tag_precision := 0; tag_decimal := 0; tag_bias := 0; tag_description := Some EmptyString;
     tag_unit := Some EmptyString; tag_option := addr_option_zero; tag_meta := []; tag_format := [];
     tag_n_format := 0 |}.
Definition example_plugin : plugin_ops :=
  {| validate_tag := λ t, (0, t); add_tags := None; load_tags := None; del_tags := None;
     has_write_tags := true |}.
#[local] Instance example_json : Jansson () :=
  {| json_equal := λ _ a b, a =? b; json_decref := λ _ j, j; json_deep_copy := λ p j, (p, j) |}.

Definition default_group (name : string) : group_t :=
  {| g_name := name; g_timestamp := 0; g_group := neu_group_new name 1000; g_wt_tags := [];
     g_timers := {| t_handles := true; t_lost := 0 |}; g_apps := []; grp_name := name; grp_interval := 1000; grp_tags := [] |}.

(** A running driver with a group of two tags that the read timer has not seen. *)
Definition example_driver : neu_adapter_driver_t :=
  let d := {| d_running := true; d_cache := neu_driver_cache_new; d_tag_cnt := 0;
              d_groups := [] |} in
  let add d t := match neu_adapter_driver_add_tag example_plugin 7 d "g" (example_tag t) 1000 with
                 | Some (_, d') => d' | None => d end in
  add (add d "a") "b".

Lemma driver_histories_ok_witness :
  driver_ok example_driver ∧
  ∀ clock group tag itv, ∃ r d',
    neu_adapter_driver_add_tag example_plugin clock example_driver group tag itv = Some (r, d') ∧
    is_Some (find_group d' group).
Proof.
  apply (driver_histories_ok (J := ()) example_plugin example_driver).
  eapply rtc_l; [apply (dstep_state _ _ true)|].
  eapply rtc_l; [eapply (dstep_add_tag _ 7 _ "g" (example_tag "a") 1000); reflexivity|].
  eapply rtc_l; [eapply (dstep_add_tag _ 7 _ "g" (example_tag "b") 1000); reflexivity|].
  apply rtc_refl.
Defined.

Lemma timer_syncs_cache_witness :
  runs (read_callback example_driver "g") example_heap (λ r h',
    cache_ok h' (d_cache r.1) ∧
    r.2 = Some [parse_option (example_tag "a"); parse_option (example_tag "b")] ∧
    read_callback r.1 "g" h' =
      Some (r.1, Some [parse_option (example_tag "a"); parse_option (example_tag "b")], h')).
Proof.
  eapply runs_mono.
  - apply (timer_syncs_cache example_heap example_driver "g"
             (default (default_group "g") (find_group example_driver "g"))).
    + apply cache_new_ok, example_heap_ok.
    + reflexivity.
    + reflexivity.
    + reflexivity.
    + apply (bool_decide_unpack _). by vm_compute.
  - intros r h' (H1 & H2 & _ & H4). rewrite decide_False in H2, H4 by done.
    split_and!; [done|exact H2|exact H4].
Defined.

Lemma example_driver_ok : driver_ok example_driver.
Proof.
  split; [apply (bool_decide_unpack _); by vm_compute| |by vm_compute].
  apply (bool_decide_unpack _). by vm_compute.
Qed.

Lemma renamed_group_keeps_samples_witness :
  ∃ d1, neu_adapter_driver_update_group 9 example_driver "g" (Some "n"%string) 1000 = (0, d1) ∧
    find_group d1 "g" = None ∧
    runs (read_callback d1 "n") example_heap (λ r h',
      ∀ tag, view h' (d_cache r.1) !! to_key "g" tag =
             view example_heap (d_cache example_driver) !! to_key "g" tag).
Proof.
  apply (renamed_group_keeps_samples 9 example_heap example_driver "g" "n" 1000
           (default (default_group "g") (find_group example_driver "g"))).
  - apply example_driver_ok.
  - apply cache_new_ok, example_heap_ok.
  - reflexivity.
  - reflexivity.
  - done.
  - reflexivity.
  - done.
  - done.
  - apply (bool_decide_unpack _). by vm_compute.
Defined.

(** A driver with a group of [n] tags. *)
Definition example_full_group (n : nat) : group_t :=
  with_group {| group_name := "g"; interval := 1000; timestamp := 1; next_tag_order := Z.of_nat n;
    tags := (λ i, {| el_name := pretty i; el_tag := example_tag (pretty i);
                     el_order := Z.of_nat i |}) <$> seq 0 n |} (default_group "g").
Definition example_full_driver (n : nat) : neu_adapter_driver_t :=
  {| d_running := true; d_cache := neu_driver_cache_new; d_tag_cnt := u64 (Z.of_nat n);
     d_groups := [example_full_group n] |}.

Lemma example_full_size n : group_size (example_full_group n) = Z.of_nat n.
Proof. unfold group_size. simpl. by rewrite length_fmap, length_seq. Qed.

Lemma example_full_ok n : driver_ok (example_full_driver n).
Proof.
  split; simpl; [apply NoDup_singleton|by constructor|]. by rewrite example_full_size, Z.add_0_r.
Qed.

Lemma example_full_del n : ∃ d',
  neu_adapter_driver_del_group (J := ()) (example_full_driver n) "g" example_heap =
    Some (NEU_ERR_SUCCESS, d', example_heap).
Proof. by eexists. Qed.

Lemma del_group_count_wraps_witness :
  ∃ d', neu_adapter_driver_del_group (J := ()) (example_full_driver (Z.to_nat 65536)) "g"
          example_heap = Some (NEU_ERR_SUCCESS, d', example_heap) ∧
        d_tag_cnt d' = 65536 ∧ total_tags (d_groups d') = 0.
Proof.
  destruct (example_full_del (Z.to_nat 65536)) as [d' E].
  exists d'. split; [exact E|].
  assert (Hsz : group_size (example_full_group (Z.to_nat 65536)) = 65536)
    by (rewrite example_full_size; apply Z2Nat.id; lia).
  destruct (del_group_count_wraps (example_full_driver (Z.to_nat 65536)) "g"
    (example_full_group (Z.to_nat 65536)) example_heap NEU_ERR_SUCCESS d' example_heap
    (example_full_ok _) eq_refl Hsz E) as [H1 H2].
  split.
  - rewrite H1. unfold example_full_driver, d_tag_cnt. by rewrite Z2Nat.id.
  - rewrite H2. unfold example_full_driver, d_groups, total_tags, foldr. by rewrite Hsz.
Defined.
