(* ===== verification/DriverWrite.v ===== *)
(** * Write requests of the driver

    src/adapter/driver/driver.c: a request to write one tag, several tags of a
    group, or tags of several groups.  Every value is checked against the type of
    its tag ([is_value_in_range]), scaled ([cal_decimal]), brought into the type and
    byte order of the tag ([fix_value]) and queued for the write timer; a request
    that fails is answered at once.

    Values arrive as the JSON layer makes them: [INT64], [DOUBLE], [BOOL], [STRING],
    [ARRAY_INT64], ... .  Arrays are in the heap.  A conversion of a [double] that
    does not fit the integer type is undefined behaviour and gives [None], as does a
    failed assertion.  [(int64_t) FLT_MAX] and [(int64_t) -FLT_MAX] are such
    conversions too, in a comparison the compiler folds: they are the two numbers
    [flt_lo] and [flt_hi], about which nothing is assumed.

    The result of a request is the code it returns, the driver afterwards and the
    codes it has been answered with. *)

From Stdlib Require Import SpecFloat.
From S2P Require Import Prelude UtHash NeuTypes CHeap CFloat DriverCache Tag Group Driver.

Definition NEU_ERR_TAG_DECIMAL_INVALID : Z := 2211.
Definition NEU_ERR_PLUGIN_TAG_NOT_ALLOW_WRITE : Z := 3004.
Definition NEU_ERR_PLUGIN_TAG_TYPE_MISMATCH : Z := 3007.
Definition NEU_ERR_PLUGIN_NOT_RUNNING : Z := 3010.
Definition NEU_ERR_PLUGIN_NOT_SUPPORT_WRITE_TAGS : Z := 3017.
Definition NEU_ERR_PLUGIN_TAG_VALUE_OUT_OF_RANGE : Z := 3020.

(** [1e-9] *)
Definition EPSILON : spec_float := d64_of_bits 0x3e112e0be826d695.

(** [neu_resp_tag_value_t] *)
Record neu_resp_tag_value_t := { rtv_tag : string; rtv_value : neu_dvalue_t }.

Definition with_value (v : neu_value_u) (dv : neu_dvalue_t) : neu_dvalue_t :=
  {| dv_type := dv_type dv; dv_value := v; dv_precision := dv_precision dv;
     dv_attrs := dv_attrs dv |}.
Definition with_type (t : neu_type_e) (dv : neu_dvalue_t) : neu_dvalue_t :=
  {| dv_type := t; dv_value := dv_value dv; dv_precision := dv_precision dv;
     dv_attrs := dv_attrs dv |}.

Definition set_d64 (x : spec_float) (v : neu_value_u) : neu_value_u := set_u64 (d64_bits x) v.
Definition set_f32 (x : spec_float) (v : neu_value_u) : neu_value_u := set_u32 (f32_bits x) v.

(** ** Checks *)

Definition almost_equal (a b epsilon : spec_float) : bool := SFltb (d64_distance a b) epsilon.

Definition is_whole (result : spec_float) : bool :=
  almost_equal (d64_ceil result) result EPSILON || almost_equal (d64_floor result) result EPSILON.

Definition is_num_write (t : neu_type_e) : bool :=
  bool_decide (t = NEU_TYPE_INT64) || bool_decide (t = NEU_TYPE_DOUBLE).

Definition check_value_decimal (write_type : neu_type_e) (result : spec_float)
    (value_min value_max : Z) : Z :=
  if negb (is_num_write write_type) then NEU_ERR_PLUGIN_TAG_TYPE_MISMATCH
  else if SFltb result (d64_of_Z value_min) || SFltb (d64_of_Z value_max) result
  then NEU_ERR_PLUGIN_TAG_VALUE_OUT_OF_RANGE
  else if is_whole result then NEU_ERR_SUCCESS
  else NEU_ERR_PLUGIN_TAG_TYPE_MISMATCH.

Definition check_value (write_type : neu_type_e) (value value_min value_max : Z) : Z :=
  if negb (bool_decide (write_type = NEU_TYPE_INT64)) then NEU_ERR_PLUGIN_TAG_TYPE_MISMATCH
  else if (value_min <=? value) && (value <=? value_max) then NEU_ERR_SUCCESS
  else NEU_ERR_PLUGIN_TAG_VALUE_OUT_OF_RANGE.

Definition check_type (write_type : neu_type_e) (allowed : list neu_type_e) : Z :=
  if bool_decide (write_type ∈ allowed) then NEU_ERR_SUCCESS
  else NEU_ERR_PLUGIN_TAG_TYPE_MISMATCH.

Section Write.
Context (flt_lo flt_hi : Z).

Definition is_value_in_range (tag_type : neu_type_e) (value : Z) (value_d : spec_float)
    (write_type : neu_type_e) (decimal : spec_float) : Z :=
  if negb (SFeqb decimal (S754_zero false)) then
    let result := if decide (write_type = NEU_TYPE_INT64)
                  then d64_div (d64_of_Z value) decimal else d64_div value_d decimal in
    match tag_type with
    | NEU_TYPE_INT8 => check_value_decimal write_type result (-128) 127
    | NEU_TYPE_UINT8 => check_value_decimal write_type result 0 255
    | NEU_TYPE_INT16 => check_value_decimal write_type result (-32768) 32767
    | NEU_TYPE_UINT16 => check_value_decimal write_type result 0 65535
    | NEU_TYPE_INT32 => check_value_decimal write_type result (-2147483648) 2147483647
    | NEU_TYPE_UINT32 => check_value_decimal write_type result 0 4294967295
    | NEU_TYPE_INT64 | NEU_TYPE_UINT64 =>
        if negb (is_num_write write_type) then NEU_ERR_PLUGIN_TAG_TYPE_MISMATCH
        else if is_whole result then NEU_ERR_SUCCESS
        else NEU_ERR_PLUGIN_TAG_TYPE_MISMATCH
    | NEU_TYPE_FLOAT =>
        if negb (is_num_write write_type) then NEU_ERR_PLUGIN_TAG_TYPE_MISMATCH
        else if SFltb result (d64_of_Z flt_lo) || SFltb (d64_of_Z flt_hi) result
        then NEU_ERR_PLUGIN_TAG_VALUE_OUT_OF_RANGE
        else NEU_ERR_SUCCESS
    | NEU_TYPE_DOUBLE =>
        if negb (is_num_write write_type) then NEU_ERR_PLUGIN_TAG_TYPE_MISMATCH
        else NEU_ERR_SUCCESS
    | NEU_TYPE_STRING | NEU_TYPE_BOOL | NEU_TYPE_BIT => NEU_ERR_TAG_DECIMAL_INVALID
    | _ => NEU_ERR_SUCCESS
    end
  else
    match tag_type with
    | NEU_TYPE_BOOL => check_type write_type [NEU_TYPE_BOOL]
    | NEU_TYPE_BIT =>
        if negb (bool_decide (write_type = NEU_TYPE_INT64)) then NEU_ERR_PLUGIN_TAG_TYPE_MISMATCH
        else if negb (value =? 1) && negb (value =? 0) then NEU_ERR_PLUGIN_TAG_VALUE_OUT_OF_RANGE
        else NEU_ERR_SUCCESS
    | NEU_TYPE_INT8 => check_value write_type value (-128) 127
    | NEU_TYPE_UINT8 => check_value write_type value 0 255
    | NEU_TYPE_INT16 => check_value write_type value (-32768) 32767
    | NEU_TYPE_UINT16 => check_value write_type value 0 65535
    | NEU_TYPE_INT32 => check_value write_type value (-2147483648) 2147483647
    | NEU_TYPE_UINT32 => check_value write_type value 0 4294967295
    | NEU_TYPE_INT64 | NEU_TYPE_UINT64 => check_type write_type [NEU_TYPE_INT64]
    | NEU_TYPE_FLOAT =>
        if negb (is_num_write write_type) then NEU_ERR_PLUGIN_TAG_TYPE_MISMATCH
        else if (value <? flt_lo) || (flt_hi <? value) then NEU_ERR_PLUGIN_TAG_VALUE_OUT_OF_RANGE
        else NEU_ERR_SUCCESS
    | NEU_TYPE_DOUBLE =>
        if negb (is_num_write write_type) then NEU_ERR_PLUGIN_TAG_TYPE_MISMATCH
        else NEU_ERR_SUCCESS
    | NEU_TYPE_STRING => check_type write_type [NEU_TYPE_STRING]
    | NEU_TYPE_CUSTOM => check_type write_type [NEU_TYPE_CUSTOM]
    | NEU_TYPE_ARRAY_UINT8 | NEU_TYPE_ARRAY_INT8 | NEU_TYPE_ARRAY_UINT16 | NEU_TYPE_ARRAY_INT16
    | NEU_TYPE_ARRAY_UINT32 | NEU_TYPE_ARRAY_INT32 | NEU_TYPE_ARRAY_UINT64
    | NEU_TYPE_ARRAY_INT64 => check_type write_type [NEU_TYPE_ARRAY_INT64]
    | NEU_TYPE_ARRAY_FLOAT | NEU_TYPE_ARRAY_DOUBLE =>
        check_type write_type [NEU_TYPE_ARRAY_DOUBLE; NEU_TYPE_ARRAY_INT64]
    | NEU_TYPE_ARRAY_STRING => check_type write_type [NEU_TYPE_ARRAY_STRING]
    | _ => NEU_ERR_SUCCESS
    end.

(** ** Scaling *)

(** [(T) round (x)] for an integer type [T] that holds [lo] to [hi]. *)
Definition round_to (lo hi : Z) (x : spec_float) : option Z :=
  n ← sf_trunc_Z (d64_round x);
  if decide (lo <= n <= hi) then Some n else None.

(** The quotient of a signed and of an unsigned value with the scale factor. *)
Definition quotient_s (value_type : neu_type_e) (v : neu_value_u) (decimal : spec_float)
    : spec_float :=
  if decide (value_type = NEU_TYPE_DOUBLE) then d64_div (d64_of v) decimal
  else d64_div (d64_of_Z (s64 (val_u64 v))) decimal.
Definition quotient_u (value_type : neu_type_e) (v : neu_value_u) (decimal : spec_float)
    : spec_float :=
  if decide (value_type = NEU_TYPE_DOUBLE) then d64_div (d64_of v) decimal
  else d64_div (d64_of_Z (val_u64 v)) decimal.

Definition cal_decimal (tag_type value_type : neu_type_e) (v : neu_value_u)
    (decimal : spec_float) : option neu_value_u :=
  let qs := quotient_s value_type v decimal in
  let qu := quotient_u value_type v decimal in
  match tag_type with
  | NEU_TYPE_INT8 => n ← round_to (-128) 127 qs; Some (set_u8 n v)
  | NEU_TYPE_INT16 => n ← round_to (-32768) 32767 qs; Some (set_u16 n v)
  | NEU_TYPE_INT32 => n ← round_to (-2147483648) 2147483647 qs; Some (set_u32 n v)
  | NEU_TYPE_INT64 =>
      n ← round_to (-9223372036854775808) 9223372036854775807 qs; Some (set_u64 n v)
  | NEU_TYPE_UINT8 => n ← round_to 0 255 qu; Some (set_u8 n v)
  | NEU_TYPE_UINT16 | NEU_TYPE_WORD => n ← round_to 0 65535 qu; Some (set_u16 n v)
  | NEU_TYPE_UINT32 | NEU_TYPE_LWORD => n ← round_to 0 4294967295 qu; Some (set_u32 n v)
  | NEU_TYPE_UINT64 | NEU_TYPE_DWORD =>
      n ← round_to 0 18446744073709551615 qu; Some (set_u64 n v)
  | NEU_TYPE_FLOAT | NEU_TYPE_DOUBLE =>
      match value_type with
      | NEU_TYPE_INT64 | NEU_TYPE_DOUBLE => Some (set_d64 (d64_div (d64_of v) decimal) v)
      | NEU_TYPE_FLOAT =>
          Some (set_f32 (double_to_float (d64_div (float_to_double (f32_of v)) decimal)) v)
      | _ => Some v
      end
  | _ => Some v
  end.

(** ** Type and byte order *)

(** The byte orders of 32-bit values. *)
Definition order_32 (endian : Z) (v : neu_value_u) : neu_value_u :=
  if endian =? NEU_DATATAG_ENDIAN_LB32 then neu_ntohs_p 2 (neu_ntohs_p 0 v)
  else if endian =? NEU_DATATAG_ENDIAN_BB32 then set_u32 (htonl (val_u32 v)) v
  else if endian =? NEU_DATATAG_ENDIAN_BL32
  then neu_ntohs_p 2 (neu_ntohs_p 0 (set_u32 (htonl (val_u32 v)) v))
  else v.

(** The byte orders of 64-bit values. *)
Definition order_64 (endian : Z) (v : neu_value_u) : neu_value_u :=
  if (endian =? NEU_DATATAG_ENDIAN_B64) || (endian =? NEU_DATATAG_ENDIAN_BB64)
  then set_u64 (neu_ntohll (val_u64 v)) v
  else if endian =? NEU_DATATAG_ENDIAN_LB64 then set_u64 (neu_htonlb (val_u64 v)) v
  else if endian =? NEU_DATATAG_ENDIAN_BL64 then set_u64 (neu_htonbl (val_u64 v)) v
  else if endian =? NEU_DATATAG_ENDIAN_WS64 then set_u64 (neu_htonws (val_u64 v)) v
  else if endian =? NEU_DATATAG_ENDIAN_WR64 then set_u64 (neu_htonwr (val_u64 v)) v
  else v.

Context {J : Type} `{Jansson J}.

(** The loop that converts [n] elements of eight bytes from index [i] on. *)
Fixpoint convert_loop (src dst : Z) (size : nat) (conv : list Z → list Z) (i n : nat) : M J () :=
  match n with
  | O => mret ()
  | S n' =>
      bs ← load src (8 * i) 8;
      store dst (size * i) (conv bs);;
      convert_loop src dst size conv (S i) n'
  end.

(** A new array with the converted elements takes the place of the given one. *)
Definition convert_array (size : nat) (conv : list Z → list Z) (v : neu_value_u)
    : M J neu_value_u :=
  let n := Z.to_nat (arr_length v) in
  dst ← calloc (n * size);
  convert_loop (arr_ptr v) dst size conv 0 n;;
  free (arr_ptr v);;
  mret (set_arr_ptr dst v).

(** [(float) i64], [(double) i64] and [(float) f64] of the eight bytes. *)
Definition float_of_i64 (bs : list Z) : list Z :=
  le_store 4 (f32_bits (binary_normalize 24 128 (s64 (le_load bs)) 0 false)).
Definition double_of_i64 (bs : list Z) : list Z :=
  le_store 8 (d64_bits (d64_of_Z (s64 (le_load bs)))).
Definition float_of_f64 (bs : list Z) : list Z :=
  le_store 4 (f32_bits (double_to_float (d64_of_bits (le_load bs)))).

(** The low bytes of the elements from index [i] on. *)
Fixpoint load_bytes_of_i64s (src : Z) (i n : nat) : M J (list Z) :=
  match n with
  | O => mret []
  | S n' => bs ← load src (8 * i) 8; l ← load_bytes_of_i64s src (S i) n'; mret (take 1 bs ++ l)
  end.

(** [case NEU_TYPE_BYTES]: at most 256 bytes are kept, their number in an
    8-bit field. *)
Definition fix_bytes (v : neu_value_u) : M J neu_value_u :=
  let n := Nat.min (Z.to_nat (arr_length v)) NEU_VALUE_SIZE in
  bs ← load_bytes_of_i64s (arr_ptr v) 0 n;
  free (arr_ptr v);;
  mret (DriverCache.set_bytes_length (Z.of_nat n)
          (mem_write 0 (bs ++ replicate (NEU_VALUE_SIZE - n) 0) v)).

Definition fix_value (tag : neu_datatag_t) (value_type : neu_type_e) (value : neu_dvalue_t)
    : M J neu_dvalue_t :=
  let v := dv_value value in
  let from_i64s size conv :=
    if decide (dv_type value = NEU_TYPE_ARRAY_INT64)
    then v ← convert_array size conv v; mret (with_value v value)
    else mret value in
  match tag_type tag with
  | NEU_TYPE_BOOL | NEU_TYPE_STRING | NEU_TYPE_TIME | NEU_TYPE_DATA_AND_TIME
  | NEU_TYPE_ARRAY_INT64 | NEU_TYPE_ARRAY_CHAR | NEU_TYPE_ARRAY_BOOL | NEU_TYPE_ARRAY_STRING
  | NEU_TYPE_CUSTOM => mret value
  | NEU_TYPE_BIT => mret (with_type NEU_TYPE_BIT (with_value (set_u8 (val_u64 v) v) value))
  | NEU_TYPE_UINT8 | NEU_TYPE_INT8 =>
      mret (with_type NEU_TYPE_UINT8 (with_value (set_u8 (val_u64 v) v) value))
  | NEU_TYPE_INT16 | NEU_TYPE_UINT16 | NEU_TYPE_WORD =>
      let v := set_u16 (val_u64 v) v in
      let v := if opt_endian (tag_option tag) =? NEU_DATATAG_ENDIAN_B16
               then set_u16 (htons (val_u16 v)) v else v in
      mret (with_type NEU_TYPE_UINT16 (with_value v value))
  | NEU_TYPE_UINT32 | NEU_TYPE_INT32 | NEU_TYPE_DWORD =>
      let v := set_u32 (val_u64 v) v in
      mret (with_type NEU_TYPE_UINT32 (with_value (order_32 (opt_endian (tag_option tag)) v) value))
  | NEU_TYPE_FLOAT =>
      let value := if decide (value_type = NEU_TYPE_FLOAT) then value
                   else with_type NEU_TYPE_FLOAT
                          (with_value (set_f32 (double_to_float (d64_of v)) v) value) in
      mret (with_value (order_32 (opt_endian (tag_option tag)) (dv_value value)) value)
  | NEU_TYPE_DOUBLE | NEU_TYPE_UINT64 | NEU_TYPE_INT64 | NEU_TYPE_LWORD =>
      mret (with_value (order_64 (opt_endian (tag_option tag)) v) value)
  | NEU_TYPE_BYTES =>
      if decide (dv_type value = NEU_TYPE_ARRAY_INT64)
      then v ← fix_bytes v; mret (with_value v value)
      else mret value
  | NEU_TYPE_ARRAY_INT8 | NEU_TYPE_ARRAY_UINT8 => from_i64s 1%nat (take 1)
  | NEU_TYPE_ARRAY_INT16 | NEU_TYPE_ARRAY_UINT16 => from_i64s 2%nat (take 2)
  | NEU_TYPE_ARRAY_INT32 | NEU_TYPE_ARRAY_UINT32 => from_i64s 4%nat (take 4)
  | NEU_TYPE_ARRAY_UINT64 => from_i64s 8%nat (take 8)
  | NEU_TYPE_ARRAY_FLOAT =>
      value ← from_i64s 4%nat float_of_i64;
      if decide (dv_type value = NEU_TYPE_ARRAY_DOUBLE)
      then v ← convert_array 4 float_of_f64 (dv_value value); mret (with_value v value)
      else mret value
  | NEU_TYPE_ARRAY_DOUBLE => from_i64s 8%nat double_of_i64
  | _ => lift None
  end.

(** ** Requests *)

(** What the three requests do with a value that passed the check. *)
Definition convert_write (tag : neu_datatag_t) (value : neu_dvalue_t) : M J neu_dvalue_t :=
  let value :=
    if bool_decide (tag_type tag = NEU_TYPE_FLOAT) || bool_decide (tag_type tag = NEU_TYPE_DOUBLE)
    then if decide (dv_type value = NEU_TYPE_INT64)
         then with_value (set_d64 (d64_of_Z (s64 (val_u64 (dv_value value)))) (dv_value value)) value
         else value
    else value in
  v ← (if d64_nonzero (tag_decimal tag)
       then lift (cal_decimal (tag_type tag) (dv_type value) (dv_value value)
                    (d64_of_bits (tag_decimal tag)))
       else mret (dv_value value));
  fix_value tag (dv_type value) (with_value v value).

Definition check_write (tag : neu_datatag_t) (value : neu_dvalue_t) : Z :=
  is_value_in_range (tag_type tag) (s64 (val_u64 (dv_value value))) (d64_of (dv_value value))
    (dv_type value) (d64_of_bits (tag_decimal tag)).

Definition writable (t : neu_datatag_t) : bool :=
  attribute_test (tag_attribute t) NEU_ATTRIBUTE_WRITE.

Definition outcome : Type := Z * neu_adapter_driver_t * list Z.
Definition refuse (d : neu_adapter_driver_t) (code : Z) : outcome := (code, d, [code]).

Definition queue (d : neu_adapter_driver_t) (group : string) (w : to_be_write_tag_t)
    : neu_adapter_driver_t :=
  with_groups (hash_update g_name group (store_write_tag w) (d_groups d)) d.

Definition neu_adapter_driver_write_tag (d : neu_adapter_driver_t) (req : Z)
    (group tag : string) (value : neu_dvalue_t) : M J outcome :=
  if negb (d_running d) then mret (refuse d NEU_ERR_PLUGIN_NOT_RUNNING)
  else
    match find_group d group with
    | None => mret (refuse d NEU_ERR_GROUP_NOT_EXIST)
    | Some g =>
        match neu_group_find_tag (g_group g) tag with
        | None => mret (refuse d NEU_ERR_TAG_NOT_EXIST)
        | Some t =>
            if negb (writable t) then mret (refuse d NEU_ERR_PLUGIN_TAG_NOT_ALLOW_WRITE)
            else
              let value_check := check_write t value in
              if negb (value_check =? NEU_ERR_SUCCESS) then mret (refuse d value_check)
              else
                value ← convert_write t value;
                mret (NEU_ERR_SUCCESS,
                      queue d group (wt_single req (neu_tag_dup t) (dv_value value)), [])
        end
    end.

(** The loop over the tags of a request: the error so far and the accepted
    values.  [keep_type] is whether the type of the value is passed on. *)
Fixpoint check_tags (keep_type : bool) (g : group_t) (tvs : list neu_resp_tag_value_t)
    (value_err : Z) (acc : list neu_plugin_tag_value_t)
    : M J (Z * list neu_plugin_tag_value_t) :=
  match tvs with
  | [] => mret (value_err, acc)
  | tv :: tvs' =>
      match neu_group_find_tag (g_group g) (rtv_tag tv) with
      | None => check_tags keep_type g tvs' NEU_ERR_TAG_NOT_EXIST acc
      | Some t =>
          let value_check := check_write t (rtv_value tv) in
          if writable t && (value_check =? NEU_ERR_SUCCESS) then
            value ← convert_write t (rtv_value tv);
            check_tags keep_type g tvs' value_err
              (acc ++ [{| tv_tag := neu_tag_dup t; tv_value := dv_value value;
                          tv_type := if keep_type then Some (dv_type value) else None |}])
          else check_tags keep_type g tvs' value_check acc
      end
  end.

(** The values of a refused request are released by the type they came with. *)
Fixpoint free_accepted (tvs : list neu_plugin_tag_value_t) : M J () :=
  match tvs with
  | [] => mret ()
  | tv :: tvs' =>
      (match tv_type tv with
       | Some t => neu_free_dvalue {| dv_type := t; dv_value := tv_value tv; dv_precision := 0;
                                      dv_attrs := attrs_zero |};; mret ()
       | None => mret ()
       end);;
      free_accepted tvs'
  end.

Definition neu_adapter_driver_write_tags (plugin : plugin_ops) (d : neu_adapter_driver_t)
    (req : Z) (group : string) (tvs : list neu_resp_tag_value_t) : M J outcome :=
  if negb (d_running d) then mret (refuse d NEU_ERR_PLUGIN_NOT_RUNNING)
  else if negb (has_write_tags plugin)
  then mret (refuse d NEU_ERR_PLUGIN_NOT_SUPPORT_WRITE_TAGS)
  else
    match find_group d group with
    | None => mret (refuse d NEU_ERR_GROUP_NOT_EXIST)
    | Some g =>
        '(value_err, tags) ← check_tags true g tvs NEU_ERR_SUCCESS [];
        if negb (value_err =? NEU_ERR_SUCCESS)
        then free_accepted tags;; mret (refuse d value_err)
        else if decide (length tags ≠ length tvs)
        then free_accepted tags;; mret (refuse d NEU_ERR_TAG_NOT_EXIST)
        else mret (NEU_ERR_SUCCESS, queue d group (wt_multi req tags), [])
    end.

(** The groups of a request in turn. *)
Fixpoint check_groups (d : neu_adapter_driver_t)
    (groups : list (string * list neu_resp_tag_value_t)) (value_err : Z)
    (acc : list neu_plugin_tag_value_t) : M J (Z * list neu_plugin_tag_value_t) :=
  match groups with
  | [] => mret (value_err, acc)
  | (group, tvs) :: groups' =>
      match find_group d group with
      | None => lift None
      | Some g =>
          '(value_err, acc) ← check_tags false g tvs value_err acc;
          check_groups d groups' value_err acc
      end
  end.

(** A request without groups stores its tags in the group [NULL]. *)
Definition neu_adapter_driver_write_gtags (plugin : plugin_ops) (d : neu_adapter_driver_t)
    (req : Z) (groups : list (string * list neu_resp_tag_value_t)) : M J outcome :=
  if negb (d_running d) then mret (refuse d NEU_ERR_PLUGIN_NOT_RUNNING)
  else if negb (has_write_tags plugin)
  then mret (refuse d NEU_ERR_PLUGIN_NOT_SUPPORT_WRITE_TAGS)
  else if negb (forallb (λ g, bool_decide (is_Some (find_group d g.1))) groups)
  then mret (refuse d NEU_ERR_GROUP_NOT_EXIST)
  else
    '(value_err, tags) ← check_groups d groups NEU_ERR_SUCCESS [];
    if negb (value_err =? NEU_ERR_SUCCESS) then mret (refuse d value_err)
    else if negb (Z.of_nat (length tags) =?
                  u32 (foldr (λ g n, Z.of_nat (length g.2) + n) 0 groups))
    then mret (refuse d NEU_ERR_TAG_NOT_EXIST)
    else match groups with
         | [] => lift None
         | (first, _) :: _ => mret (NEU_ERR_SUCCESS, queue d first (wt_multi req tags), [])
         end.
End Write.
