(* ===== verification/DriverRead.v ===== *)
(** * Reads and reports of the driver

    src/adapter/driver/driver.c: the values of the cache on their way to a client.
    [read_report_group], [read_group] and [read_group_paginate] take the samples of
    the given tags out of the cache, bring them into host byte order, replace expired
    ones by an error, scale them, and round doubles for display.  The three loops
    share their second half, [read_value].  The callbacks of the plugin ([update],
    [update_with_meta], [update_with_trace], [update_im], [update_im_f_m]) store
    samples and report changes at once.

    Time stamps are unbounded integers, the product of the group interval with
    [NEU_DRIVER_TAG_CACHE_EXPIRE_TIME] is 32 bits wide.  A conversion of a [double]
    that does not fit an [int64_t] is undefined behaviour and gives [None].  A
    message to the applications is the list of its values; sending and releasing it,
    metrics and tracing are left out. *)

From Stdlib Require Import SpecFloat Ascii.
From S2P Require Import Prelude UtHash NeuTypes CStd CHeap CFloat DriverCache Tag Group Driver DriverWrite.

Definition NEU_ERR_PLUGIN_TAG_VALUE_EXPIRED : Z := 3008.
Definition NEU_ERR_PLUGIN_NOT_SUPPORT_READ_SYNC : Z := 3018.
Definition NEU_DRIVER_TAG_CACHE_EXPIRE_TIME : Z := 60.

(** [neu_tag_cache_type_e] *)
Inductive neu_tag_cache_type_e :=
  | NEU_TAG_CACHE_TYPE_INTERVAL
  | NEU_TAG_CACHE_TYPE_NEVER.

(** [neu_resp_tag_value_meta_t]; a [datatag] that was never set is [None]. *)
Record neu_resp_tag_value_meta_t := {
  rm_tag : string;
  rm_value : neu_dvalue_t;
  rm_metas : list neu_tag_meta_t;
  rm_datatag : option neu_datatag_t;
}.

(** A zeroed value; its type is set before it is looked at. *)
Definition dvalue_zero : neu_dvalue_t :=
  {| dv_type := NEU_TYPE_ERROR; dv_value := value_zero; dv_precision := 0; dv_attrs := attrs_zero |}.
Definition cache_value_zero : neu_driver_cache_value_t :=
  {| cv_value := dvalue_zero; cv_timestamp := 0 |}.

Definition error_value (code : Z) (attrs : neu_tag_sample_attrs_t) : neu_dvalue_t :=
  {| dv_type := NEU_TYPE_ERROR; dv_value := set_u32 code value_zero; dv_precision := 0;
     dv_attrs := attrs |}.

(** The name of a tag in a response ([snprintf] into 128 characters). *)
Definition resp_name (t : neu_datatag_t) : string := cstr_trunc (NEU_TAG_NAME_LEN - 1) (tag_name t).

(** ** Rounding for display *)

Definition pow10 (n : Z) : spec_float := d64_of_Z (10 ^ n).

(** [(int64_t) x] *)
Definition i64_of_d64 (x : spec_float) : option Z :=
  n ← sf_trunc_Z x;
  if decide (-9223372036854775808 <= n <= 9223372036854775807) then Some n else None.

(** ["%05" PRId64] into six bytes *)
Fixpoint zeros (n : nat) (s : string) : string :=
  match n with O => s | S n' => String "0" (zeros n' s) end.
Definition print_05 (n : Z) : string :=
  let s := print_dec n in cstr_trunc 5 (zeros (5 - String.length s) s).

(** The loop that looks for ["00"] or ["99"]: the flag and the index. *)
Fixpoint find_run (str : string) (fuel : nat) (i : Z) : Z * Z :=
  match fuel with
  | O => (0, i)
  | S f =>
      match str with
      | String a (String b _ as rest) =>
          if bool_decide (a = "0"%char) && bool_decide (b = "0"%char) then (1, i)
          else if bool_decide (a = "9"%char) && bool_decide (b = "9"%char) then (2, i)
          else find_run rest f (i + 1)
      | _ => (0, i)
      end
  end.

Definition format_tag_value (x : spec_float) : option spec_float :=
  let negative := SFltb x (S754_zero false) in
  let x := if negative then d64_mul x (d64_of_Z (-1)) else x in
  integer_part ← i64_of_d64 x;
  let decimal_part :=
    d64_round (d64_mul (d64_sub x (d64_of_Z integer_part)) (pow10 5)) in
  digits ← i64_of_d64 decimal_part;
  let '(flag, i) := find_run (print_05 digits) 4 0 in
  let x :=
    if negb (flag =? 0) && negb (i =? 0) then
      let decimal_part := d64_round (d64_div decimal_part (pow10 (5 - i))) in
      d64_add (d64_of_Z integer_part) (d64_div decimal_part (pow10 i))
    else d64_add (d64_of_Z integer_part) (d64_div decimal_part (pow10 5)) in
  Some (d64_mul x (d64_of_Z (if negative then -1 else 1))).

(** ** From the cached bytes to the value of the tag *)

(** The [switch] on the byte order. *)
Definition read_order (tag : neu_datatag_t) (v : neu_value_u) : neu_value_u :=
  let endian := opt_endian (tag_option tag) in
  match tag_type tag with
  | NEU_TYPE_UINT16 | NEU_TYPE_INT16 =>
      if endian =? NEU_DATATAG_ENDIAN_B16 then set_u16 (htons (val_u16 v)) v else v
  | NEU_TYPE_FLOAT | NEU_TYPE_UINT32 | NEU_TYPE_INT32 => order_32 endian v
  | NEU_TYPE_DOUBLE | NEU_TYPE_INT64 | NEU_TYPE_UINT64 => order_64 endian v
  | _ => v
  end.

(** The number a value of the tag's type stands for, as a [double]. *)
Definition number_of (t : neu_type_e) (v : neu_value_u) : option spec_float :=
  match t with
  | NEU_TYPE_INT8 => Some (d64_of_Z (s8 (val_u8 v)))
  | NEU_TYPE_UINT8 => Some (d64_of_Z (val_u8 v))
  | NEU_TYPE_INT16 => Some (d64_of_Z (s16 (val_u16 v)))
  | NEU_TYPE_UINT16 => Some (d64_of_Z (val_u16 v))
  | NEU_TYPE_INT32 => Some (d64_of_Z (s32 (val_u32 v)))
  | NEU_TYPE_UINT32 => Some (d64_of_Z (val_u32 v))
  | NEU_TYPE_INT64 => Some (d64_of_Z (s64 (val_u64 v)))
  | NEU_TYPE_UINT64 => Some (d64_of_Z (val_u64 v))
  | NEU_TYPE_FLOAT => Some (float_to_double (f32_of v))
  | NEU_TYPE_DOUBLE => Some (d64_of v)
  | _ => None
  end.

Definition scale_value (tag : neu_datatag_t) (value : neu_dvalue_t) : neu_dvalue_t :=
  if d64_nonzero (tag_decimal tag) || d64_nonzero (tag_bias tag) then
    let decimal := if d64_nonzero (tag_decimal tag) then d64_of_bits (tag_decimal tag)
                   else d64_of_Z 1 in
    match number_of (tag_type tag) (dv_value value) with
    | Some x =>
        with_type NEU_TYPE_DOUBLE
          (with_value (set_d64 (d64_add (d64_mul x decimal) (d64_of_bits (tag_bias tag)))
                         (dv_value value)) value)
    | None => with_type (tag_type tag) value
    end
  else value.

Definition display_value (tag : neu_datatag_t) (value : neu_dvalue_t) : option neu_dvalue_t :=
  if (tag_precision tag =? 0) && negb (d64_nonzero (tag_bias tag))
     && bool_decide (tag_type tag = NEU_TYPE_DOUBLE)
  then x ← format_tag_value (d64_of (dv_value value));
       Some (with_value (set_d64 x (dv_value value)) value)
  else Some value.

(** The value that goes into the response: of a pointer value only the pointer. *)
Definition hand_over (value : neu_dvalue_t) : neu_dvalue_t :=
  match dv_type value with
  | NEU_TYPE_PTR =>
      let v := dv_value value in
      {| dv_type := NEU_TYPE_PTR;
         dv_value := set_ptr_ptr (ptr_ptr v) (set_ptr_type (ptr_type v)
                       (set_ptr_length (ptr_length v) value_zero));
         dv_precision := 0; dv_attrs := dv_attrs value |}
  | _ => value
  end.

Section Read.
Context (pow01 : Z → spec_float) (sub_filter_err : bool).
Context {J : Type} `{Jansson J}.

(** The second half of the three loops; [report] is the variant in
    [read_report_group], where a timeout of 0 never expires. *)
Definition read_value (report : bool) (timestamp timeout : Z) (cache_type : neu_tag_cache_type_e)
    (tag : neu_datatag_t) (cv : neu_driver_cache_value_t) : M J neu_dvalue_t :=
  let value := with_value (read_order tag (dv_value (cv_value cv))) (cv_value cv) in
  let expires := match cache_type with NEU_TAG_CACHE_TYPE_NEVER => false | _ => true end in
  if expires && (timeout <? timestamp - cv_timestamp cv) && (negb report || (0 <? timeout)) then
    (match dv_type value with
     | NEU_TYPE_PTR => free (ptr_ptr (dv_value value))
     | _ => neu_free_dvalue value;; mret ()
     end);;
    mret (error_value NEU_ERR_PLUGIN_TAG_VALUE_EXPIRED (dv_attrs value))
  else lift (display_value tag (scale_value tag (hand_over value))).

(** One tag of [read_group]. *)
Definition read_tag (timestamp timeout : Z) (cache_type : neu_tag_cache_type_e)
    (c : neu_driver_cache_t) (group : string) (tag : neu_datatag_t)
    : M J neu_resp_tag_value_meta_t :=
  r ← neu_driver_cache_meta_get c group (tag_name tag) cache_value_zero;
  match r with
  | None => mret {| rm_tag := resp_name tag;
                    rm_value := error_value NEU_ERR_PLUGIN_TAG_NOT_READY attrs_zero;
                    rm_metas := []; rm_datatag := Some tag |}
  | Some (cv, metas) =>
      value ← (if decide (dv_type (cv_value cv) = NEU_TYPE_ERROR) then mret (cv_value cv)
               else read_value false timestamp timeout cache_type tag cv);
      mret {| rm_tag := resp_name tag; rm_value := value; rm_metas := metas;
              rm_datatag := Some tag |}
  end.

Fixpoint read_group (timestamp timeout : Z) (cache_type : neu_tag_cache_type_e)
    (c : neu_driver_cache_t) (group : string) (tags : list neu_datatag_t)
    : M J (list neu_resp_tag_value_meta_t) :=
  match tags with
  | [] => mret []
  | tag :: tags' =>
      x ← read_tag timestamp timeout cache_type c group tag;
      l ← read_group timestamp timeout cache_type c group tags';
      mret (x :: l)
  end.

(** The copy of the tag in a page: all fields but the display format. *)
Definition page_datatag (t : neu_datatag_t) : neu_datatag_t :=
  {| tag_name := tag_name t; tag_address := tag_address t; tag_attribute := tag_attribute t;
     tag_type := tag_type t; tag_precision := tag_precision t; tag_decimal := tag_decimal t;
     tag_bias := tag_bias t; tag_description := tag_description t; tag_unit := tag_unit t;
     tag_option := tag_option t; tag_meta := tag_meta t; tag_format := replicate 16 0;
     tag_n_format := 0 |}.
Definition with_page_datatag (x : neu_resp_tag_value_meta_t) : neu_resp_tag_value_meta_t :=
  {| rm_tag := rm_tag x; rm_value := rm_value x; rm_metas := rm_metas x;
     rm_datatag := page_datatag <$> rm_datatag x |}.

(** A tag that can only be written is listed with an empty string. *)
Fixpoint read_group_paginate (timestamp timeout : Z) (cache_type : neu_tag_cache_type_e)
    (c : neu_driver_cache_t) (group : string) (tags : list neu_datatag_t)
    : M J (list neu_resp_tag_value_meta_t) :=
  match tags with
  | [] => mret []
  | tag :: tags' =>
      x ← (if decide (tag_attribute tag = NEU_ATTRIBUTE_WRITE)
           then mret {| rm_tag := resp_name tag;
                        rm_value := with_type NEU_TYPE_STRING dvalue_zero;
                        rm_metas := []; rm_datatag := Some tag |}
           else read_tag timestamp timeout cache_type c group tag);
      l ← read_group_paginate timestamp timeout cache_type c group tags';
      mret (with_page_datatag x :: l)
  end.

(** The test on [NaN] of [read_report_group], on the bytes of the cache. *)
Definition is_nan_value (tag : neu_datatag_t) (v : neu_value_u) : bool :=
  match tag_type tag with
  | NEU_TYPE_FLOAT => sf_is_nan (f32_of v)
  | NEU_TYPE_DOUBLE => sf_is_nan (d64_of v)
  | _ => false
  end.

(** One tag of [read_report_group], [None] for a tag that is not reported. *)
Definition report_tag (timestamp timeout : Z) (cache_type : neu_tag_cache_type_e)
    (c : neu_driver_cache_t) (group : string) (tag : neu_datatag_t)
    : M J (option neu_resp_tag_value_meta_t * neu_driver_cache_t) :=
  let subscribed := attribute_test (tag_attribute tag) NEU_ATTRIBUTE_SUBSCRIBE in
  '(r, c) ←
    (if subscribed
     then neu_driver_cache_meta_get_changed c group (tag_name tag) cache_value_zero
     else r ← neu_driver_cache_meta_get c group (tag_name tag) cache_value_zero; mret (r, c));
  match r with
  | None =>
      mret (if subscribed then None
            else Some {| rm_tag := resp_name tag;
                         rm_value := error_value NEU_ERR_PLUGIN_TAG_NOT_READY attrs_zero;
                         rm_metas := []; rm_datatag := None |}, c)
  | Some (cv, metas) =>
      value ←
        (if decide (dv_type (cv_value cv) = NEU_TYPE_ERROR) then mret (cv_value cv)
         else if is_nan_value tag (dv_value (cv_value cv))
         then mret (error_value NEU_ERR_PLUGIN_TAG_VALUE_EXPIRED (dv_attrs (cv_value cv)))
         else read_value true timestamp timeout cache_type tag cv);
      mret (Some {| rm_tag := resp_name tag; rm_value := value; rm_metas := metas;
                    rm_datatag := Some tag |}, c)
  end.

Fixpoint read_report_group (timestamp timeout : Z) (cache_type : neu_tag_cache_type_e)
    (c : neu_driver_cache_t) (group : string) (tags : list neu_datatag_t)
    : M J (list neu_resp_tag_value_meta_t * neu_driver_cache_t) :=
  match tags with
  | [] => mret ([], c)
  | tag :: tags' =>
      '(x, c) ← report_tag timestamp timeout cache_type c group tag;
      '(l, c) ← read_report_group timestamp timeout cache_type c group tags';
      mret (match x with Some x => x :: l | None => l end, c)
  end.

(** ** Timers and requests *)

Definition expire_time (g : group_t) : Z :=
  u32 (neu_group_get_interval (g_group g) * NEU_DRIVER_TAG_CACHE_EXPIRE_TIME).

(** A message to the subscribed applications: their ports and the values. *)
Definition message : Type := list Z * list neu_resp_tag_value_meta_t.

(** Values are sent when there are any and somebody is subscribed. *)
Definition send_to_apps (g : group_t) (values : list neu_resp_tag_value_meta_t) : option message :=
  if decide (values = []) then None
  else if decide (g_apps g = []) then None
  else Some (sub_port <$> g_apps g, values).

Definition report_callback (now : Z) (cache_type : neu_tag_cache_type_e)
    (d : neu_adapter_driver_t) (name : string) : M J (neu_adapter_driver_t * option message) :=
  match find_group d name with
  | Some g =>
      if negb (d_running d) then mret (d, None)
      else
        '(values, c) ← read_report_group now (expire_time g) cache_type (d_cache d) (g_name g)
                         (neu_group_get_read_tag (g_group g));
        mret (with_cache c d, send_to_apps g values)
  | None => mret (d, None)
  end.

(** [report_to_app]: the current values of a group for a new subscriber. *)
Definition report_to_app (now : Z) (cache_type : neu_tag_cache_type_e)
    (d : neu_adapter_driver_t) (g : group_t) (dst : Z) : M J (option message) :=
  match neu_adapter_driver_get_read_tag d (g_name g) with
  | None => mret None
  | Some tags =>
      values ← read_group now (expire_time g) cache_type (d_cache d) (g_name g) tags;
      mret (if decide (values = []) then None else Some ([dst], values))
  end.

(** The plugin's [group_sync], which may update the cache. *)
Context (group_sync : option (list neu_datatag_t → neu_driver_cache_t → M J neu_driver_cache_t)).

Definition error_values (code : Z) (tags : list neu_datatag_t)
    : list neu_resp_tag_value_meta_t :=
  (λ tag, {| rm_tag := resp_name tag; rm_value := error_value code attrs_zero; rm_metas := [];
             rm_datatag := None |}) <$> tags.

(** The timers of a group are armed again after a synchronous read. *)
Definition restart_timers (d : neu_adapter_driver_t) (name : string) : neu_adapter_driver_t :=
  with_groups (hash_update g_name name (λ g, start_group_timer (stop_group_timer g)) (d_groups d)) d.

Definition neu_adapter_driver_read_group (now : Z) (cache_type : neu_tag_cache_type_e)
    (d : neu_adapter_driver_t) (group : string) (q : query) (sync : bool)
    : M J (neu_adapter_driver_t * (Z + list neu_resp_tag_value_meta_t)) :=
  match find_group d group with
  | None => mret (d, inl NEU_ERR_GROUP_NOT_EXIST)
  | Some g =>
      let tags := neu_group_query_read_tag (g_group g) q in
      if negb (d_running d) then mret (d, inr (error_values NEU_ERR_PLUGIN_NOT_RUNNING tags))
      else if sync then
        match group_sync with
        | None => mret (d, inr (error_values NEU_ERR_PLUGIN_NOT_SUPPORT_READ_SYNC tags))
        | Some f =>
            c ← f (grp_tags g) (d_cache d);
            l ← read_group now (expire_time g) cache_type c group tags;
            mret (restart_timers (with_cache c d) group, inr l)
        end
      else
        l ← read_group now (expire_time g) cache_type (d_cache d) group tags;
        mret (d, inr l)
  end.

(** The answer also carries the number of tags that match. *)
Definition neu_adapter_driver_read_group_paginate (now : Z) (cache_type : neu_tag_cache_type_e)
    (d : neu_adapter_driver_t) (group : string) (name desc : option string)
    (current_page page_size : Z) (is_error sync : bool)
    : M J (neu_adapter_driver_t * (Z + list neu_resp_tag_value_meta_t * Z)) :=
  match find_group d group with
  | None => mret (d, inl NEU_ERR_GROUP_NOT_EXIST)
  | Some g =>
      let '(tags, total) :=
        if negb is_error && (0 <? current_page) && (0 <? page_size)
        then neu_group_query_read_tag_paginate (g_group g) name desc current_page page_size
        else let tags := neu_group_query_read_tag (g_group g)
                           {| q_name := name; q_desc := desc; q_tagnames := [] |} in
             (tags, Z.of_nat (length tags)) in
      let with_datatags code :=
        (λ tag, {| rm_tag := resp_name tag; rm_value := error_value code attrs_zero;
                   rm_metas := []; rm_datatag := Some (page_datatag tag) |}) <$> tags in
      if negb (d_running d) then mret (d, inr (with_datatags NEU_ERR_PLUGIN_NOT_RUNNING, total))
      else if sync then
        match group_sync with
        | None => mret (d, inr (with_datatags NEU_ERR_PLUGIN_NOT_SUPPORT_READ_SYNC, total))
        | Some f =>
            c ← f (grp_tags g) (d_cache d);
            l ← read_group_paginate now (expire_time g) cache_type c group tags;
            mret (restart_timers (with_cache c d) group, inr (l, total))
        end
      else
        l ← read_group_paginate now (expire_time g) cache_type (d_cache d) group tags;
        mret (d, inr (l, total))
  end.

(** ** Callbacks of the plugin *)

(** The loop over the readable tags of a group in error. *)
Fixpoint update_all (now : Z) (c : neu_driver_cache_t) (group : string)
    (tags : list neu_datatag_t) (value : neu_dvalue_t) : M J neu_driver_cache_t :=
  match tags with
  | [] => mret c
  | t :: tags' =>
      '(c, _) ← neu_driver_cache_update pow01 sub_filter_err c group (tag_name t) now value [];
      update_all now c group tags' value
  end.

(** A [tag] of [NULL] reports an error of the whole group. *)
Definition update_with_meta (now : Z) (d : neu_adapter_driver_t) (group : string)
    (tag : option string) (value : neu_dvalue_t) (metas : list neu_tag_meta_t)
    : M J neu_adapter_driver_t :=
  match tag with
  | None =>
      if decide (dv_type value = NEU_TYPE_ERROR) then
        match find_group d group with
        | Some g =>
            c ← update_all now (d_cache d) group (neu_group_get_read_tag (g_group g)) value;
            mret (with_cache c d)
        | None => mret d
        end
      else lift None
  | Some tag =>
      '(c, _) ← neu_driver_cache_update pow01 sub_filter_err (d_cache d) group tag now value metas;
      mret (with_cache c d)
  end.

Definition update (now : Z) (d : neu_adapter_driver_t) (group : string) (tag : option string)
    (value : neu_dvalue_t) : M J neu_adapter_driver_t := update_with_meta now d group tag value [].

Definition update_with_trace (now : Z) (d : neu_adapter_driver_t) (group : string)
    (tag : option string) (value : neu_dvalue_t) (metas : list neu_tag_meta_t) (trace_ctx : Z)
    : M J neu_adapter_driver_t :=
  d ← update_with_meta now d group tag value metas;
  mret (if trace_ctx =? 0 then d
        else with_cache (neu_driver_cache_update_trace (d_cache d) group trace_ctx) d).

(** The common body of [update_im] ([force]) and [update_im_f_m]. *)
Definition update_immediately (force : bool) (now : Z) (cache_type : neu_tag_cache_type_e)
    (d : neu_adapter_driver_t) (group : string) (tag : option string) (value : neu_dvalue_t)
    (metas : list neu_tag_meta_t) : M J (neu_adapter_driver_t * option message) :=
  match tag, find_group d group with
  | Some tag, Some g =>
      '(changed, c, _) ←
        neu_driver_cache_update_change pow01 sub_filter_err (d_cache d) group tag now value metas force;
      let d := with_cache c d in
      if bool_decide (dv_type value = NEU_TYPE_ERROR) || (negb force && negb changed)
      then mret (d, None)
      else
        match neu_adapter_driver_get_ptag d group tag with
        | None => mret (d, None)
        | Some tags =>
            '(values, c) ← read_report_group now 0 cache_type (d_cache d) group tags;
            mret (with_cache c d, send_to_apps g values)
        end
  | _, _ => mret (d, None)
  end.

Definition update_im := update_immediately true.
Definition update_im_f_m := update_immediately false.
End Read.
