(* ===== verification/DriverWriteOk.v ===== *)
(** * Correctness of write requests

    What the driver does with a value between the request and the plugin: integers
    arrive exactly and in the byte order of the tag, arrays are converted element by
    element, a request is queued whole or refused with one answer, and queued writes
    reach the plugin once and in order. *)

From Stdlib Require Import SpecFloat.
From S2P Require Import Prelude UtHash NeuTypes Modbus ModbusPoint ModbusPlan ModbusValue CHeap CFloat DriverCache CacheValue DriverCacheOk Tag Group Driver DriverWrite DriverRead DriverOk.

(** ** Integers in the byte order of their tag *)

Definition int_width (t : neu_type_e) : option nat :=
  match t with
  | NEU_TYPE_INT8 | NEU_TYPE_UINT8 => Some 1
  | NEU_TYPE_INT16 | NEU_TYPE_UINT16 => Some 2
  | NEU_TYPE_INT32 | NEU_TYPE_UINT32 => Some 4
  | NEU_TYPE_INT64 | NEU_TYPE_UINT64 => Some 8
  | _ => None
  end%nat.

(** The number that the bytes of an integer type stand for. *)
Definition int_of (t : neu_type_e) (v : neu_value_u) : option Z :=
  match t with
  | NEU_TYPE_INT8 => Some (s8 (val_u8 v))
  | NEU_TYPE_UINT8 => Some (val_u8 v)
  | NEU_TYPE_INT16 => Some (s16 (val_u16 v))
  | NEU_TYPE_UINT16 => Some (val_u16 v)
  | NEU_TYPE_INT32 => Some (s32 (val_u32 v))
  | NEU_TYPE_UINT32 => Some (val_u32 v)
  | NEU_TYPE_INT64 => Some (s64 (val_u64 v))
  | NEU_TYPE_UINT64 => Some (val_u64 v)
  | _ => None
  end.

(** The byte order of a tag as a permutation of the bytes of its value. *)
Definition tag_perm (tag : neu_datatag_t) : list nat :=
  let en := opt_endian (tag_option tag) in
  match int_width (tag_type tag) with
  | Some 2%nat => if en =? NEU_DATATAG_ENDIAN_B16 then [1; 0]%nat else [0; 1]%nat
  | Some 4%nat => if en =? NEU_DATATAG_ENDIAN_LB32 then [1; 0; 3; 2]%nat
              else if en =? NEU_DATATAG_ENDIAN_BB32 then [3; 2; 1; 0]%nat
              else if en =? NEU_DATATAG_ENDIAN_BL32 then [2; 3; 0; 1]%nat else [0; 1; 2; 3]%nat
  | Some 8%nat => if (en =? NEU_DATATAG_ENDIAN_B64) || (en =? NEU_DATATAG_ENDIAN_BB64)
              then [7; 6; 5; 4; 3; 2; 1; 0]%nat
              else if en =? NEU_DATATAG_ENDIAN_LB64 then [1; 0; 3; 2; 5; 4; 7; 6]%nat
              else if en =? NEU_DATATAG_ENDIAN_BL64 then [6; 7; 4; 5; 2; 3; 0; 1]%nat
              else if en =? NEU_DATATAG_ENDIAN_WS64 then [2; 3; 0; 1; 6; 7; 4; 5]%nat
              else if en =? NEU_DATATAG_ENDIAN_WR64 then [4; 5; 6; 7; 0; 1; 2; 3]%nat
              else [0; 1; 2; 3; 4; 5; 6; 7]%nat
  | _ => [0]%nat
  end.

Definition permuted (tag : neu_datatag_t) (l : list Z) : list Z :=
  (λ i, nth i l 0) <$> tag_perm tag.

Lemma order_32_perm en a b c d rest :
  is_u8 a → is_u8 b → is_u8 c → is_u8 d →
  order_32 en (a :: b :: c :: d :: rest) =
    (if en =? NEU_DATATAG_ENDIAN_LB32 then [b; a; d; c]
     else if en =? NEU_DATATAG_ENDIAN_BB32 then [d; c; b; a]
     else if en =? NEU_DATATAG_ENDIAN_BL32 then [c; d; a; b] else [a; b; c; d]) ++ rest.
Proof.
  intros. unfold order_32. repeat destruct (en =? _); cbn [app].
  - by rewrite ntohs_p_0, ntohs_p_2.
  - by rewrite set_u32_swap.
  - by rewrite set_u32_swap, ntohs_p_0, ntohs_p_2.
  - done.
Qed.

Lemma order_64_perm en l rest :
  bytes_ok l → length l = 8%nat →
  order_64 en (l ++ rest) =
    ((λ i, nth i l 0) <$>
     (if (en =? NEU_DATATAG_ENDIAN_B64) || (en =? NEU_DATATAG_ENDIAN_BB64)
      then [7; 6; 5; 4; 3; 2; 1; 0]%nat
      else if en =? NEU_DATATAG_ENDIAN_LB64 then [1; 0; 3; 2; 5; 4; 7; 6]%nat
      else if en =? NEU_DATATAG_ENDIAN_BL64 then [6; 7; 4; 5; 2; 3; 0; 1]%nat
      else if en =? NEU_DATATAG_ENDIAN_WS64 then [2; 3; 0; 1; 6; 7; 4; 5]%nat
      else if en =? NEU_DATATAG_ENDIAN_WR64 then [4; 5; 6; 7; 0; 1; 2; 3]%nat
      else [0; 1; 2; 3; 4; 5; 6; 7]%nat)) ++ rest.
Proof.
  intros Hl Hlen. unfold order_64. repeat destruct (_ || _); repeat destruct (en =? _);
    try by apply set_u64_permute.
  do 8 (destruct l as [|? l]; [done|]). by destruct l.
Qed.

(** The byte order of reads and of writes is that permutation. *)
Lemma read_order_perm tag w l rest :
  int_width (tag_type tag) = Some w → bytes_ok l → length l = w →
  read_order tag (l ++ rest) = permuted tag l ++ rest.
Proof.
  intros Hw Hl Hlen. unfold read_order, permuted, tag_perm.
  assert (H16 : length l = 2%nat → ∀ en,
    (if en =? NEU_DATATAG_ENDIAN_B16 then set_u16 (htons (val_u16 (l ++ rest))) (l ++ rest)
     else l ++ rest) =
    ((λ i, nth i l 0) <$> (if en =? NEU_DATATAG_ENDIAN_B16 then [1; 0]%nat else [0; 1]%nat)) ++ rest).
  { intros H2 en. destruct l as [|a [|b [|]]]; try done. unfold bytes_ok in Hl.
    rewrite !Forall_cons in Hl. destruct Hl as (? & ? & _). destruct (en =? _); [|done].
    by apply set_u16_swap. }
  assert (H32 : length l = 4%nat → ∀ en, order_32 en (l ++ rest) =
    ((λ i, nth i l 0) <$>
     (if en =? NEU_DATATAG_ENDIAN_LB32 then [1; 0; 3; 2]%nat
      else if en =? NEU_DATATAG_ENDIAN_BB32 then [3; 2; 1; 0]%nat
      else if en =? NEU_DATATAG_ENDIAN_BL32 then [2; 3; 0; 1]%nat else [0; 1; 2; 3]%nat)) ++ rest).
  { intros H4 en. destruct l as [|a [|b [|c [|d [|]]]]]; try done. unfold bytes_ok in Hl.
    rewrite !Forall_cons in Hl. destruct Hl as (? & ? & ? & ? & _). cbn [app].
    rewrite order_32_perm by done. by repeat destruct (en =? _). }
  destruct (tag_type tag); try done; injection Hw as Hw; subst w;
    cbn [int_width]; try (by apply order_64_perm); try (by apply H32); try (by apply H16);
    by destruct l as [|a [|]].
Qed.

(** Every byte order is its own inverse. *)
Lemma permuted_involutive tag w l :
  int_width (tag_type tag) = Some w → length l = w → permuted tag (permuted tag l) = l.
Proof.
  intros Hw Hlen. unfold permuted, tag_perm.
  destruct (tag_type tag); try done; injection Hw as Hw; subst w; cbn [int_width];
    do 9 (try (destruct l as [|? l]; try done)); repeat destruct (_ =? _); done.
Qed.

(** Storing the low bytes of the 64-bit member back changes nothing. *)
Lemma le_store_load_take n l : bytes_ok l → (n <= length l)%nat → le_store n (le_load l) = take n l.
Proof.
  revert l. induction n as [|n IH]; intros l Hl Hn; [done|]. destruct l as [|b l]; [simpl in Hn; lia|].
  unfold bytes_ok in Hl. rewrite Forall_cons in Hl. destruct Hl as [Hb Hl].
  unfold le_load, le_store. fold le_load le_store. cbn [take]. simpl in Hn. f_equal.
  - rewrite Z.mul_comm, Z.mod_add by lia. by apply Z.mod_small.
  - rewrite <-IH by (done || lia). f_equal. rewrite Z.mul_comm, Z.div_add by lia.
    rewrite Z.div_small by lia. lia.
Qed.

Lemma store_low n v : union_ok v → (n <= 8)%nat → mem_write 0 (le_store n (val_u64 v)) v = v.
Proof.
  intros [Hlen Hok] Hn. unfold val_u64, mem_read. rewrite drop_0.
  rewrite le_store_load_take by (by apply Forall_take || (rewrite length_take; lia)).
  rewrite take_take, Nat.min_l by lia. unfold mem_write. rewrite length_take, take_0.
  replace (0 + n `min` length v)%nat with n by lia. apply take_drop.
Qed.

(** The members of the union are the low bits of the 64-bit one. *)
Lemma load_low n v :
  union_ok v → (n <= 8)%nat → le_load (mem_read 0 n v) = val_u64 v mod 256 ^ Z.of_nat n.
Proof.
  intros [Hlen Hok] Hn. unfold val_u64, mem_read. rewrite !drop_0.
  rewrite <-(le_load_store n (le_load (take 8 v))).
  rewrite le_store_load_take by (by apply Forall_take || (rewrite length_take; lia)).
  by rewrite take_take, Nat.min_l by lia.
Qed.

Lemma int_of_prefix t w v r :
  int_width t = Some w → take w r = take w v → int_of t r = int_of t v.
Proof.
  intros Hw Ht. unfold int_of, val_u8, val_u16, val_u32, val_u64, mem_read. rewrite !drop_0.
  destruct t; try done; injection Hw as <-; by rewrite Ht.
Qed.

(** What a request for the integer [n] leaves in a tag of type [t]. *)
Definition written_int (t : neu_type_e) (n : Z) : Z :=
  match t with NEU_TYPE_UINT64 => u64 n | _ => n end.

Section Integers.
Context (flt_lo flt_hi : Z) {J : Type} `{Jansson J}.
Implicit Types (h : mem J).

(** An unscaled integer leaves the driver as its low bytes in the order of the
    tag. *)
Lemma convert_write_int tag value w h :
  int_width (tag_type tag) = Some w → d64_nonzero (tag_decimal tag) = false →
  union_ok (dv_value value) →
  ∃ value', convert_write tag value h = Some (value', h) ∧
    dv_value value' = permuted tag (take w (dv_value value)) ++ drop w (dv_value value).
Proof.
  intros Hw Hd Hu. unfold convert_write. rewrite Hd.
  assert (Hnf : bool_decide (tag_type tag = NEU_TYPE_FLOAT) ||
                bool_decide (tag_type tag = NEU_TYPE_DOUBLE) = false).
  { destruct (tag_type tag); done. }
  rewrite Hnf. set (v := dv_value value) in *.
  assert (Hv : with_value v value = value) by (by destruct value).
  unfold mbind, M_bind, mret, M_ret. rewrite Hv. fold v.
  assert (Hsplit : ∀ n, n = w → read_order tag v = permuted tag (take w v) ++ drop w v).
  { intros _ _. rewrite <-(take_drop w v) at 1. destruct Hu as [Hlen Hok].
    apply (read_order_perm tag w); [done|by apply Forall_take|]. rewrite length_take.
    destruct (tag_type tag); try done; injection Hw as <-; lia. }
  specialize (Hsplit w eq_refl). rewrite <-Hsplit. unfold fix_value, read_order. fold v.
  unfold set_u8, set_u16, set_u32.
  destruct (tag_type tag); try done; (eexists; split; [reflexivity|]; simpl;
    rewrite ?store_low by (done || lia)); try done.
Qed.

(** A value that passes the check is not truncated by the type of the tag. *)
Lemma check_write_int tag value w :
  int_width (tag_type tag) = Some w → d64_nonzero (tag_decimal tag) = false →
  union_ok (dv_value value) → check_write flt_lo flt_hi tag value = NEU_ERR_SUCCESS →
  int_of (tag_type tag) (dv_value value) =
    Some (written_int (tag_type tag) (s64 (val_u64 (dv_value value)))).
Proof.
  intros Hw Hd Hu. unfold check_write, is_value_in_range.
  unfold d64_nonzero in Hd. rewrite Hd.
  assert (Hu64 : is_u64 (val_u64 (dv_value value))).
  { change (val_u64 (dv_value value)) with (le_load (mem_read 0 8 (dv_value value))).
    rewrite load_low by (done || lia). apply Z.mod_pos_bound. lia. }
  unfold int_of, val_u8, val_u16, val_u32. rewrite !load_low by (done || lia).
  change (256 ^ Z.of_nat 1) with 256. change (256 ^ Z.of_nat 2) with 65536.
  change (256 ^ Z.of_nat 4) with 4294967296.
  set (x := val_u64 (dv_value value)) in *. clearbody x. unfold check_value.
  destruct (tag_type tag); try done; unfold written_int;
    try (destruct (bool_decide _); [|done]; cbn [negb];
         destruct (_ && _) eqn:Hr; [|done]; apply andb_true_iff in Hr as [H1 H2];
         apply Z.leb_le in H1, H2); intros _; f_equal; unfold s8, s16, s32, s64, u64 in *;
    Z.to_euclidean_division_equations; lia.
Qed.

(** The bytes the driver hands to the plugin, read back by a client, are the
    integer of the request. *)
Lemma written_int_read tag value w h :
  int_width (tag_type tag) = Some w → d64_nonzero (tag_decimal tag) = false →
  union_ok (dv_value value) → check_write flt_lo flt_hi tag value = NEU_ERR_SUCCESS →
  ∃ value', convert_write tag value h = Some (value', h) ∧
    ∀ r, union_ok r → take w r = take w (dv_value value') →
      int_of (tag_type tag) (read_order tag r) =
        Some (written_int (tag_type tag) (s64 (val_u64 (dv_value value)))).
Proof.
  intros Hw Hd Hu Hck. destruct (convert_write_int tag value w h Hw Hd Hu) as (value' & E & Hv').
  exists value'. split; [done|]. intros r [Hlen Hok] Hr.
  rewrite <-(check_write_int tag value w Hw Hd Hu Hck). apply (int_of_prefix _ w); [done|].
  assert (Hw8 : (w <= 8)%nat) by (destruct (tag_type tag); try done; injection Hw as <-; lia).
  assert (Hp : ∀ l, length l = w → length (permuted tag l) = w).
  { intros l _. unfold permuted, tag_perm. rewrite length_fmap.
    destruct (tag_type tag); try done; injection Hw as <-; cbn [int_width];
      by repeat destruct (_ =? _). }
  assert (Hlt : length (take w (dv_value value)) = w)
    by (rewrite length_take; destruct Hu as [-> _]; lia).
  rewrite <-(take_drop w r). rewrite (read_order_perm tag w);
    [|done|by apply Forall_take|rewrite length_take; lia].
  rewrite Hr, Hv'.
  rewrite (take_app_length' (permuted tag (take w (dv_value value))) (drop w (dv_value value)))
    by (by rewrite Hp).
  rewrite take_app_length' by (symmetry; by apply Hp, Hp).
  by rewrite (permuted_involutive tag w) by done.
Qed.
End Integers.

(** ** A write and a read back through the modbus plugin *)

Section ReadBack.
Context (flt_lo flt_hi : Z) {J : Type} `{Jansson J}.
Implicit Types (h : mem J).

(** A tag without scale factor, bias and display rounding is handed to the client
    in host byte order, unless it has expired. *)
Lemma read_value_plain report timestamp timeout cache_type tag cv w h :
  int_width (tag_type tag) = Some w → d64_nonzero (tag_decimal tag) = false →
  d64_nonzero (tag_bias tag) = false → dv_type (cv_value cv) = tag_type tag →
  timestamp - cv_timestamp cv <= timeout →
  read_value report timestamp timeout cache_type tag cv h =
    Some (with_value (read_order tag (dv_value (cv_value cv))) (cv_value cv), h).
Proof.
  intros Hw Hd Hb Ht Hexp. unfold read_value. rewrite (proj2 (Z.ltb_ge _ _)) by done.
  rewrite andb_false_r. cbn [andb]. unfold lift, scale_value, display_value.
  assert (Hh : ∀ v, dv_type v = tag_type tag → hand_over v = v).
  { intros v Hv. unfold hand_over. rewrite Hv. by destruct (tag_type tag). }
  rewrite Hh by done. rewrite Hd, Hb. simpl.
  assert (bool_decide (tag_type tag = NEU_TYPE_DOUBLE) = false) as ->
    by (by destruct (tag_type tag)).
  by rewrite andb_false_r.
Qed.

(** C22: an integer that is written through the driver and the modbus plugin
    reads back as itself.  For every 16-, 32- and 64-bit integer tag without scale
    factor and bias, every byte order of the tag and of the plugin: a value that
    passes the range check is converted, encoded into registers, decoded from them
    and delivered to a client with the number of the request (for an unsigned 64-bit
    tag, modulo its width, since the request carries a signed number). *)
Theorem written_integer_reads_back tag value e e64 p h :
  is_numeric (tag_type tag) = true → is_Some (int_width (tag_type tag)) →
  d64_nonzero (tag_decimal tag) = false → d64_nonzero (tag_bias tag) = false →
  union_ok (dv_value value) → check_write flt_lo flt_hi tag value = NEU_ERR_SUCCESS →
  point_type p = Some (tag_type tag) →
  ∃ value' n w r,
    convert_write tag value h = Some (value', h) ∧
    cal_n_byte (point_type p) (dv_value value') (option_ p) e (opt_value_default (option_ p))
      e64 (opt_value_default (option_ p)) = Some (n, w) ∧
    convert_read e e64 p (wire_value n w) = Some r ∧
    ∀ cv timestamp timeout cache_type h2,
      dv_type (cv_value cv) = tag_type tag → union_ok (dv_value (cv_value cv)) →
      take (Z.to_nat n) (dv_value (cv_value cv)) = take (Z.to_nat n) r →
      timestamp - cv_timestamp cv <= timeout →
      ∃ x, read_value false timestamp timeout cache_type tag cv h2 = Some (x, h2) ∧
        int_of (tag_type tag) (dv_value x) =
          Some (written_int (tag_type tag) (s64 (val_u64 (dv_value value)))).
Proof.
  intros Hnum [k Hk] Hd Hb Hu Hck Hp.
  destruct (written_int_read flt_lo flt_hi tag value k h Hk Hd Hu Hck) as (value' & E & Hread).
  assert (Hu' : union_ok (dv_value value')).
  { destruct (convert_write_int tag value k h Hk Hd Hu) as (v2 & E2 & Hv2).
    rewrite E in E2. injection E2 as <-. rewrite Hv2. clear -Hu Hk. destruct Hu as [Hlen Hok].
    unfold permuted, tag_perm, union_ok. rewrite length_app, length_drop, length_fmap. split.
    - destruct (tag_type tag); try done; injection Hk as <-; cbn [int_width];
        repeat destruct (_ =? _); simpl length; lia.
    - apply Forall_app. split; [|by apply Forall_drop]. apply Forall_fmap, Forall_true. intros i.
      unfold compose. destruct (decide (i < length (take k (dv_value value)))%nat).
      + assert (Hok' : bytes_ok (take k (dv_value value))) by (by apply Forall_take).
        unfold bytes_ok in Hok'. rewrite Forall_nth in Hok'. by apply Hok'.
      + rewrite nth_overflow by lia. lia. }
  destruct Hu' as [Hlen' Hok'].
  destruct (codec_preserves e e64 p (tag_type tag) (dv_value value') Hp Hnum Hok' Hlen')
    as (n & w & r & Hcal & Hreg & Hconv & Htake).
  exists value', n, w, r. split_and!; [done..|].
  intros cv timestamp timeout cache_type h2 Ht Hcv Hsame Hexp.
  eexists. split; [by eapply read_value_plain|]. simpl. apply Hread; [done|].
  assert (Hn : Z.to_nat n = k).
  { rewrite Hp in Hcal. clear -Hk Hcal Hnum.
    destruct (tag_type tag); try done; injection Hk as <-; by injection Hcal as <- _. }
  rewrite <-Hn, Hsame. done.
Qed.
End ReadBack.

(** ** Requests are queued whole or refused *)

Section Requests.
Context (flt_lo flt_hi : Z) {J : Type} `{Jansson J}.
Implicit Types (h : mem J).

Abbreviation check := (check_write flt_lo flt_hi).

(** A value that is not in the heap, for a tag without scale factor of a type
    that can be written. *)
Definition plain_write (t : neu_datatag_t) (value : neu_dvalue_t) : Prop :=
  (tag_type t ∉ [NEU_TYPE_PTR; NEU_TYPE_ERROR]) ∧ d64_nonzero (tag_decimal t) = false ∧
  by_pointer (dv_type value) = false.

Lemma convert_write_plain t value h :
  plain_write t value →
  ∃ value', convert_write t value h = Some (value', h) ∧ by_pointer (dv_type value') = false.
Proof.
  intros (Ht & Hd & Hp). unfold convert_write. rewrite Hd.
  set (value1 := if _ || _ then _ else value).
  assert (Hp1 : by_pointer (dv_type value1) = false).
  { subst value1. destruct (_ || _); [|done]. by destruct (decide _). }
  clearbody value1. clear Hp value. unfold mbind, M_bind, mret, M_ret, fix_value. simpl.
  assert (H1 : dv_type value1 ≠ NEU_TYPE_ARRAY_INT64) by (by intros E; rewrite E in Hp1).
  assert (H2 : dv_type value1 ≠ NEU_TYPE_ARRAY_DOUBLE) by (by intros E; rewrite E in Hp1).
  destruct (tag_type t) eqn:Et; try (rewrite (decide_False (P := _ = NEU_TYPE_ARRAY_INT64)) by done);
    try (eexists; split; [reflexivity|done]).
  all: try (destruct Ht; rewrite !elem_of_cons; tauto).
  all: try (eexists; split; [reflexivity|]; simpl; by destruct (decide _)).
  unfold mbind, M_bind, mret, M_ret. simpl. rewrite decide_False by done. by eexists.
Qed.

(** Refused with one answer and without effect, or queued without an answer. *)
Definition refused d (o : outcome) : Prop :=
  o.1.1 ≠ NEU_ERR_SUCCESS ∧ o.1.2 = d ∧ o.2 = [o.1.1].
Definition queued d group (w : to_be_write_tag_t) (o : outcome) : Prop :=
  o = (NEU_ERR_SUCCESS, queue d group w, []).

(** The tag of a group a request may write with the given value. *)
Definition acceptable (g : group_t) (name : string) (value : neu_dvalue_t) : Prop :=
  ∃ t, neu_group_find_tag (g_group g) name = Some t ∧ writable t = true ∧
       check t value = NEU_ERR_SUCCESS.

(** A single write is answered once.  A request for a value that is not
    in the heap returns; it is queued once, with the value in the form of its tag
    and without an answer, exactly when the driver is running and the tag exists,
    can be written and accepts the value, and otherwise is answered once with an
    error and changes nothing. *)
Theorem write_tag_once d req group tag value h :
  (∀ g t, find_group d group = Some g → neu_group_find_tag (g_group g) tag = Some t →
     plain_write t value) →
  ∃ o, neu_adapter_driver_write_tag flt_lo flt_hi d req group tag value h = Some (o, h) ∧
    ((∃ g t value', d_running d = true ∧ find_group d group = Some g ∧
        neu_group_find_tag (g_group g) tag = Some t ∧ writable t = true ∧
        check t value = NEU_ERR_SUCCESS ∧ convert_write t value h = Some (value', h) ∧
        queued d group (wt_single req (neu_tag_dup t) (dv_value value')) o)
     ∨ (refused d o ∧
        ¬ (d_running d = true ∧
           ∃ g, find_group d group = Some g ∧ acceptable g tag value))).
Proof.
  intros Hplain. unfold neu_adapter_driver_write_tag, acceptable.
  destruct (d_running d); cbn [negb]; [|eexists; split; [reflexivity|]; right; split; [done|];
    by intros [? _]].
  destruct (find_group d group) as [g|] eqn:Hg;
    [|eexists; split; [reflexivity|]; right; split; [done|]; by intros (_ & ? & ? & _)].
  destruct (neu_group_find_tag (g_group g) tag) as [t|] eqn:Ht.
  2: { eexists; split; [reflexivity|]; right; split; [done|].
       intros (_ & g' & Hg' & t' & Ht' & _). congruence. }
  destruct (writable t) eqn:Hw; cbn [negb].
  2: { eexists; split; [reflexivity|]; right; split; [done|].
       intros (_ & g' & Hg' & t' & Ht' & ? & _). congruence. }
  destruct (check t value =? NEU_ERR_SUCCESS) eqn:Hc; cbn [negb].
  - apply Z.eqb_eq in Hc. destruct (convert_write_plain t value h) as (value' & E & _).
    { by apply (Hplain g). }
    eexists. split; [unfold mbind, M_bind; rewrite E; reflexivity|]. left.
    exists g, t, value'. done.
  - apply Z.eqb_neq in Hc. eexists; split; [reflexivity|]; right; split; [done|].
    intros (_ & g' & Hg' & t' & Ht' & ? & ?). congruence.
Qed.

(** What the loop over the tags makes of an accepted entry. *)
Definition accepted (g : group_t) h (tv : neu_resp_tag_value_t) (x : neu_plugin_tag_value_t)
    : Prop :=
  ∃ t value', neu_group_find_tag (g_group g) (rtv_tag tv) = Some t ∧ writable t = true ∧
    check t (rtv_value tv) = NEU_ERR_SUCCESS ∧
    convert_write t (rtv_value tv) h = Some (value', h) ∧
    x = {| tv_tag := neu_tag_dup t; tv_value := dv_value value'; tv_type := Some (dv_type value') |}.

Definition plain_entry (x : neu_plugin_tag_value_t) : Prop :=
  ∀ t, tv_type x = Some t → by_pointer t = false.

Lemma check_tags_spec g h tvs :
  (∀ tv t, tv ∈ tvs → neu_group_find_tag (g_group g) (rtv_tag tv) = Some t →
     plain_write t (rtv_value tv)) →
  ∀ err acc, ∃ err' l,
    check_tags flt_lo flt_hi true g tvs err acc h = Some ((err', acc ++ l), h) ∧
    Forall plain_entry l ∧ (length l <= length tvs)%nat ∧
    (length l = length tvs → err' = err ∧ Forall2 (accepted g h) tvs l) ∧
    (Forall (λ tv, acceptable g (rtv_tag tv) (rtv_value tv)) tvs → length l = length tvs).
Proof.
  induction tvs as [|tv tvs IH]; intros Hplain err acc; cbn [check_tags].
  { exists err, []. rewrite app_nil_r. split_and!; done. }
  assert (IH' := IH (λ tv' t Hin, Hplain tv' t (list_elem_of_further _ _ _ Hin))). clear IH.
  assert (Hskip : ∀ e, ¬ acceptable g (rtv_tag tv) (rtv_value tv) → ∃ err' l,
    check_tags flt_lo flt_hi true g tvs e acc h = Some ((err', acc ++ l), h) ∧
    Forall plain_entry l ∧ (length l <= length (tv :: tvs))%nat ∧
    (length l = length (tv :: tvs) → err' = err ∧ Forall2 (accepted g h) (tv :: tvs) l) ∧
    (Forall (λ tv, acceptable g (rtv_tag tv) (rtv_value tv)) (tv :: tvs) →
       length l = length (tv :: tvs))).
  { intros e Hno. destruct (IH' e acc) as (err' & l & E & Hp & Hle & _). exists err', l.
    split_and!; [done..|simpl; lia|simpl; lia|]. by intros [? _]%Forall_cons. }
  destruct (neu_group_find_tag (g_group g) (rtv_tag tv)) as [t|] eqn:Ht.
  2: { apply Hskip. intros (t' & Ht' & _). congruence. }
  destruct (writable t) eqn:Hw; cbn [andb]; [|apply Hskip; intros (t' & Ht' & ? & _); congruence].
  destruct (check t (rtv_value tv) =? NEU_ERR_SUCCESS) eqn:Hc;
    [apply Z.eqb_eq in Hc|apply Z.eqb_neq in Hc; apply Hskip; intros (t' & Ht' & _ & ?); congruence].
  destruct (convert_write_plain t (rtv_value tv) h) as (v' & E & Hv').
  { apply (Hplain tv); [by left|done]. }
  unfold mbind, M_bind. rewrite E. cbn [app].
  set (x := {| tv_tag := _; tv_value := _; tv_type := _ |}).
  destruct (IH' err (acc ++ [x])) as (err' & l & E' & Hp & Hle & Hall & Hacc).
  exists err', (x :: l). rewrite <-app_assoc in E'. split_and!; [done| |simpl; lia| |].
  - constructor; [|done]. by intros ? [= <-].
  - simpl. intros Hl. destruct Hall as [-> Hall]; [lia|]. split; [done|].
    constructor; [|done]. by exists t, v'.
  - intros [_ Hrest]%Forall_cons. simpl. by rewrite Hacc.
Qed.

Lemma free_accepted_plain l h : Forall plain_entry l → free_accepted l h = Some ((), h).
Proof.
  induction 1 as [|x l Hx Hl IH]; [done|]. cbn [free_accepted]. unfold mbind at 1, M_bind at 1.
  destruct (tv_type x) as [t|] eqn:Et; [|done].
  destruct (runs_free_plain (J := J) {| dv_type := t; dv_value := tv_value x; dv_precision := 0;
    dv_attrs := attrs_zero |} h (λ _ h', h' = h)) as (r & h' & E & ->); [by apply Hx|done|].
  unfold mbind, M_bind. by rewrite E.
Qed.

(** C27: a request for several tags is queued whole or refused, for values that are
    no arrays, pointers or JSON and tags without a scale factor ([plain_write];
    refusing an array of bytes frees a wild pointer, [refused_bytes_wild_free]). It
    returns; when the driver runs, the plugin supports it and every tag exists, can
    be written and accepts its value, all values are queued as one write, in the
    order of the request, each in the form of its tag; in every other case nothing
    is queued and the request is answered once with an error. *)
Theorem write_tags_atomic plugin d req group tvs h :
  (∀ g tv t, find_group d group = Some g → tv ∈ tvs →
     neu_group_find_tag (g_group g) (rtv_tag tv) = Some t → plain_write t (rtv_value tv)) →
  ∃ o, neu_adapter_driver_write_tags flt_lo flt_hi plugin d req group tvs h = Some (o, h) ∧
    ((∃ g l, d_running d = true ∧ has_write_tags plugin = true ∧ find_group d group = Some g ∧
        Forall2 (accepted g h) tvs l ∧ queued d group (wt_multi req l) o)
     ∨ (refused d o ∧
        ¬ (d_running d = true ∧ has_write_tags plugin = true ∧
           ∃ g, find_group d group = Some g ∧
                Forall (λ tv, acceptable g (rtv_tag tv) (rtv_value tv)) tvs))).
Proof.
  intros Hplain. unfold neu_adapter_driver_write_tags.
  destruct (d_running d); cbn [negb]; [|eexists; split; [reflexivity|]; right; split; [done|];
    by intros [? _]].
  destruct (has_write_tags plugin); cbn [negb]; [|eexists; split; [reflexivity|]; right;
    split; [done|]; by intros (_ & ? & _)].
  destruct (find_group d group) as [g|] eqn:Hg;
    [|eexists; split; [reflexivity|]; right; split; [done|]; by intros (_ & _ & ? & ? & _)].
  destruct (check_tags_spec g h tvs (λ tv t, Hplain g tv t eq_refl) NEU_ERR_SUCCESS [])
    as (err & l & E & Hp & Hle & Hall & Hacc).
  unfold mbind, M_bind. rewrite E. cbn [app].
  assert (Hno : length l ≠ length tvs → ¬ (true = true ∧ true = true ∧ ∃ g0, Some g = Some g0 ∧
    Forall (λ tv, acceptable g0 (rtv_tag tv) (rtv_value tv)) tvs)).
  { intros Hne (_ & _ & g' & [= <-] & Hf). by apply Hne, Hacc. }
  destruct (err =? NEU_ERR_SUCCESS) eqn:He; cbn [negb].
  - apply Z.eqb_eq in He. destruct (decide (length l ≠ length tvs)) as [Hne|Heq].
    + rewrite free_accepted_plain by done. eexists; split; [reflexivity|]; right.
      by split; [|apply Hno].
    + apply dec_stable in Heq. destruct (Hall Heq) as [_ Hf]. eexists; split; [reflexivity|].
      left. by exists g, l.
  - apply Z.eqb_neq in He. rewrite free_accepted_plain by done.
    eexists; split; [reflexivity|]; right. split; [done|]. apply Hno. intros Heq.
    by destruct (Hall Heq).
Qed.
End Requests.

(** ** Arrays *)

Section Arrays.
Context (flt_lo flt_hi : Z) {J : Type} `{Jansson J}.
Implicit Types (h : mem J).

(** The elements of a block of 64-bit integers, from index [i] on. *)
Definition elements (b : list Z) (i n : nat) : list (list Z) :=
  (λ j, mem_read (8 * j) 8 b) <$> seq i n.

(** The loop appends the converted elements behind those already stored. *)
Lemma runs_convert_loop src dst size conv b : (∀ l, length l = 8%nat → length (conv l) = size) →
  (0 < size)%nat → src ≠ dst → ∀ n i pre h (Q : () → mem J → Prop),
  hp_blocks h !! src = Some b → (8 * (i + n) <= length b)%nat → length pre = (size * i)%nat →
  hp_blocks h !! dst = Some (pre ++ replicate (size * n) 0) →
  Q () (set_blocks (<[dst := pre ++ concat (conv <$> elements b i n)]> (hp_blocks h)) h) →
  runs (convert_loop src dst size conv i n) h Q.
Proof.
  intros Hconv Hsize Hne. induction n as [|n IH]; intros i pre h Q Hs Hb Hpre Hd HQ;
    cbn [convert_loop].
  - apply runs_ret. cbn in HQ. rewrite app_nil_r, Nat.mul_0_r, app_nil_r in *.
    rewrite insert_id in HQ by done. by destruct h.
  - assert (Hel : length (mem_read (8 * i) 8 b) = 8%nat) by (apply length_mem_read; lia).
    apply runs_bind. eapply (runs_load _ _ _ _ (mem_read (8 * i) 8 b)).
    { unfold load_bytes. rewrite decide_False by lia. rewrite Hs. simpl.
      by rewrite decide_True by lia. }
    apply runs_bind. pose proof (Hconv _ Hel) as Hc. eapply runs_store; [|done| |].
    { intros E. rewrite E in Hc. simpl in Hc. lia. }
    { rewrite length_app, length_replicate, Hc. nia. }
    set (h1 := set_blocks _ h). apply (IH (S i) (pre ++ conv (mem_read (8 * i) 8 b))).
    + subst h1. simpl. by rewrite lookup_insert_ne.
    + lia.
    + rewrite length_app, Hc, Hpre. lia.
    + subst h1. unfold set_blocks. cbn [hp_blocks]. rewrite lookup_insert_eq. f_equal. unfold mem_write.
      rewrite <-Hpre, take_app_length, <-app_assoc. do 2 f_equal.
      rewrite drop_app_ge by lia. rewrite drop_replicate, Hc, Nat.mul_succ_r. f_equal. lia.
    + subst h1. unfold set_blocks in *. simpl. rewrite insert_insert_eq, <-app_assoc. exact HQ.
Qed.

(** The element size of a tag that is an array of integers narrower than, or as
    wide as, those of the request. *)
Definition int_array_size (t : neu_type_e) : option nat :=
  match t with
  | NEU_TYPE_ARRAY_INT8 | NEU_TYPE_ARRAY_UINT8 => Some 1
  | NEU_TYPE_ARRAY_INT16 | NEU_TYPE_ARRAY_UINT16 => Some 2
  | NEU_TYPE_ARRAY_INT32 | NEU_TYPE_ARRAY_UINT32 => Some 4
  | NEU_TYPE_ARRAY_UINT64 => Some 8
  | _ => None
  end%nat.

Lemma runs_convert_array size conv v b h (Q : neu_value_u → mem J → Prop) :
  heap_ok h → hp_blocks h !! arr_ptr v = Some b →
  length b = (8 * Z.to_nat (arr_length v))%nat →
  (∀ l, length l = 8%nat → length (conv l) = size) → (0 < size)%nat →
  Q (set_arr_ptr (hp_next h) v)
    (Mem (hp_next h + 1)
       (delete (arr_ptr v)
          (<[hp_next h := concat (conv <$> elements b 0 (Z.to_nat (arr_length v)))]> (hp_blocks h)))
       (hp_json h)) →
  runs (convert_array size conv v) h Q.
Proof.
  intros [_ Hok] Hp Hlen Hconv Hsize HQ. unfold convert_array.
  set (n := Z.to_nat (arr_length v)) in *. pose proof (Hok _ _ Hp) as Hlt.
  apply runs_bind, runs_calloc, runs_bind.
  eapply (runs_convert_loop _ _ _ _ b Hconv Hsize) with (pre := []); simpl.
  - lia.
  - by rewrite lookup_insert_ne by lia.
  - lia.
  - lia.
  - rewrite lookup_insert_eq. do 2 f_equal. lia.
  - apply runs_bind, runs_free; [right; simpl|].
    + rewrite insert_insert_eq, lookup_insert_ne by lia. eauto.
    + rewrite decide_False by lia. apply runs_ret. unfold set_blocks. simpl.
      by rewrite insert_insert_eq.
Qed.

(** Arrays of integers are cut to the width of the tag.  A request that
    writes an array of 64-bit integers to a tag of a narrower array type is accepted
    whatever the elements are; the driver releases the array of the request and hands
    the plugin a new one with the low bytes of every element, in order: numbers out
    of range are wrapped, not refused. *)
Theorem array_write_wraps t value b size h :
  int_array_size (tag_type t) = Some size → d64_nonzero (tag_decimal t) = false →
  dv_type value = NEU_TYPE_ARRAY_INT64 → union_ok (dv_value value) →
  heap_ok h → hp_next h < 2 ^ 64 → hp_blocks h !! arr_ptr (dv_value value) = Some b →
  length b = (8 * Z.to_nat (arr_length (dv_value value)))%nat →
  check_write flt_lo flt_hi t value = NEU_ERR_SUCCESS ∧
  runs (convert_write t value) h (λ value' h',
    arr_ptr (dv_value value') = hp_next h ∧
    arr_length (dv_value value') = arr_length (dv_value value) ∧
    hp_blocks h' !! hp_next h =
      Some (concat (take size <$> elements b 0 (Z.to_nat (arr_length (dv_value value))))) ∧
    hp_blocks h' !! arr_ptr (dv_value value) = None ∧
    ∀ q, q ≠ hp_next h → q ≠ arr_ptr (dv_value value) → hp_blocks h' !! q = hp_blocks h !! q).
Proof.
  intros Hsize Hd Ht Hu Hok Hn Hb Hlen. split.
  { unfold check_write, is_value_in_range, d64_nonzero in *. rewrite Hd, Ht.
    by destruct (tag_type t). }
  unfold convert_write. rewrite Hd.
  assert (bool_decide (tag_type t = NEU_TYPE_FLOAT) ||
          bool_decide (tag_type t = NEU_TYPE_DOUBLE) = false) as -> by (by destruct (tag_type t)).
  assert (Hv : with_value (dv_value value) value = value) by (by destruct value).
  apply runs_bind, runs_ret. rewrite Hv.
  assert (Hs : (0 < size <= 8)%nat) by (destruct (tag_type t); try done; injection Hsize as <-; lia).
  assert (Hfix : fix_value t (dv_type value) value =
    v ← convert_array (J := J) size (take size) (dv_value value); mret (with_value v value)).
  { unfold fix_value. destruct (tag_type t); try done; injection Hsize as <-; cbv zeta;
      by rewrite (decide_True (P := dv_type value = NEU_TYPE_ARRAY_INT64)) by done. }
  rewrite Hfix. destruct (proj2 Hok _ _ Hb) as [Hp0 Hp1].
  apply runs_bind, (runs_convert_array _ _ _ b); [done..|intros l Hl; rewrite length_take; lia|lia|].
  apply runs_ret. simpl.
  assert (Hlen' : length (le_store 8 (hp_next h)) = 8%nat) by apply length_le_store.
  split_and!.
  - unfold arr_ptr, set_arr_ptr. rewrite mem_read_store by (destruct Hu; lia).
    apply Z.mod_small. change (256 ^ Z.of_nat 8) with (2 ^ 64). destruct Hok. lia.
  - unfold arr_length, set_arr_ptr. rewrite mem_read_write_after; [done|lia|destruct Hu; lia].
  - rewrite lookup_delete_ne by lia. by rewrite lookup_insert_eq.
  - by rewrite lookup_delete_eq.
  - intros q Hq1 Hq2. by rewrite lookup_delete_ne, lookup_insert_ne.
Qed.
End Arrays.

(** ** Bytes *)

Section Bytes.
Context (flt_lo flt_hi : Z) {J : Type} `{Jansson J}.
Implicit Types (h : mem J).

Lemma runs_load_i64s src b : ∀ n i h (Q : list Z → mem J → Prop),
  hp_blocks h !! src = Some b → (8 * (i + n) <= length b)%nat →
  Q (concat (take 1 <$> elements b i n)) h → runs (load_bytes_of_i64s src i n) h Q.
Proof.
  induction n as [|n IH]; intros i h Q Hs Hb HQ; cbn [load_bytes_of_i64s]; [by apply runs_ret|].
  apply runs_bind. eapply (runs_load _ _ _ _ (mem_read (8 * i) 8 b)).
  { unfold load_bytes. rewrite decide_False by lia. rewrite Hs. simpl.
    by rewrite decide_True by lia. }
  apply runs_bind, IH; [done|lia|]. by apply runs_ret.
Qed.

Lemma length_elements_bytes b i n :
  (8 * (i + n) <= length b)%nat → length (concat (take 1 <$> elements b i n)) = n.
Proof.
  revert i. induction n as [|n IH]; intros i Hb; [done|]. unfold elements in *.
  cbn [seq fmap list_fmap concat]. rewrite length_app, length_take, length_mem_read by lia.
  rewrite (IH (S i)) by lia. done.
Qed.

(** A request for a [BYTES] tag: the low byte of up to 256 elements moves into
    the union, the array is released; the type stays that of an array. *)
Lemma runs_convert_bytes t value b h (Q : neu_dvalue_t → mem J → Prop) :
  let v := dv_value value in
  let n := Nat.min (Z.to_nat (arr_length v)) 256 in
  tag_type t = NEU_TYPE_BYTES → d64_nonzero (tag_decimal t) = false →
  dv_type value = NEU_TYPE_ARRAY_INT64 → heap_ok h → hp_blocks h !! arr_ptr v = Some b →
  length b = (8 * Z.to_nat (arr_length v))%nat →
  Q (with_value (DriverCache.set_bytes_length (Z.of_nat n)
       (mem_write 0 (concat (take 1 <$> elements b 0 n) ++ replicate (256 - n) 0) v)) value)
    (set_blocks (delete (arr_ptr v) (hp_blocks h)) h) →
  runs (convert_write t value) h Q.
Proof.
  intros v n Ht Hd Hty Hok Hb Hlen HQ. unfold convert_write. rewrite Hd, Ht. simpl.
  apply runs_bind, runs_ret. replace (with_value (dv_value value) value) with value
    by (by destruct value).
  unfold fix_value. rewrite Ht, decide_True by done. fold v. unfold fix_bytes.
  destruct (proj2 Hok _ _ Hb) as [Hp _].
  apply runs_bind, runs_bind, (runs_load_i64s _ b); [done|unfold NEU_VALUE_SIZE; lia|].
  apply runs_bind, runs_free; [right; eauto|]. rewrite decide_False by lia.
  by apply runs_ret, runs_ret.
Qed.

(** A full [BYTES] value has no length.  Writing 256 or more elements to
    a [BYTES] tag fills the 256 bytes of the value, but the 8-bit length becomes 0,
    so that the plugin sees an empty value. *)
Theorem full_bytes_have_length_0 t value b h :
  tag_type t = NEU_TYPE_BYTES → d64_nonzero (tag_decimal t) = false →
  dv_type value = NEU_TYPE_ARRAY_INT64 → union_ok (dv_value value) → heap_ok h →
  hp_blocks h !! arr_ptr (dv_value value) = Some b →
  length b = (8 * Z.to_nat (arr_length (dv_value value)))%nat →
  256 <= arr_length (dv_value value) →
  check_write flt_lo flt_hi t value = NEU_ERR_SUCCESS ∧
  runs (convert_write t value) h (λ value' _,
    bytes_length (dv_value value') = 0 ∧
    mem_read 0 256 (dv_value value') = concat (take 1 <$> elements b 0 256)).
Proof.
  intros Ht Hd Hty Hu Hok Hb Hlen Hn. split.
  { unfold check_write, is_value_in_range, d64_nonzero in *. by rewrite Hd, Ht. }
  eapply runs_convert_bytes; [done..|]. rewrite Nat.min_r by lia.
  cbn [dv_value with_value]. rewrite Nat.sub_diag. cbn [replicate]. rewrite app_nil_r.
  assert (Hbs : length (concat (take 1 <$> elements b 0 256)) = 256%nat)
    by (apply length_elements_bytes; lia).
  revert Hbs. generalize (concat (take 1 <$> elements b 0 256)). intros bs Hbs.
  destruct Hu as [Hul _].
  assert (Hmw : length (mem_write 0 bs (dv_value value)) = 264%nat)
    by (rewrite length_mem_write; lia).
  split.
  - unfold bytes_length, DriverCache.set_bytes_length. by rewrite mem_read_store by lia.
  - unfold DriverCache.set_bytes_length. rewrite mem_read_write_before by lia.
    rewrite <-Hbs. apply mem_read_write. lia.
Qed.

(** Refusing a request after a [BYTES] value was accepted releases an
    address made of its data.  When a [BYTES] tag is followed by a tag that does not
    exist, the request is refused, and the accepted value, whose type still says
    array, is released through the first eight of its bytes: unless they happen to
    be the address of a live block, the driver frees memory it never allocated. *)
Theorem refused_bytes_wild_free plugin d req group g t name1 name2 value value2 b h :
  let v := dv_value value in
  d_running d = true → has_write_tags plugin = true → find_group d group = Some g →
  neu_group_find_tag (g_group g) name1 = Some t → neu_group_find_tag (g_group g) name2 = None →
  writable t = true → tag_type t = NEU_TYPE_BYTES → d64_nonzero (tag_decimal t) = false →
  dv_type value = NEU_TYPE_ARRAY_INT64 → union_ok v → heap_ok h →
  hp_blocks h !! arr_ptr v = Some b → length b = (8 * Z.to_nat (arr_length v))%nat →
  8 <= arr_length v <= 256 →
  let a := le_load (concat (take 1 <$> elements b 0 8)) in
  a ≠ 0 → hp_blocks h !! a = None →
  neu_adapter_driver_write_tags flt_lo flt_hi plugin d req group
    [{| rtv_tag := name1; rtv_value := value |}; {| rtv_tag := name2; rtv_value := value2 |}] h = None.
Proof.
  intros v Hr Hs Hg H1 H2 Hw Ht Hd Hty Hu Hok Hb Hlen Hn a Ha Hfree.
  unfold neu_adapter_driver_write_tags. rewrite Hr, Hs, Hg. cbn [negb check_tags rtv_tag rtv_value].
  rewrite H1, H2, Hw.
  assert (Hck : check_write flt_lo flt_hi t value = NEU_ERR_SUCCESS).
  { unfold check_write, is_value_in_range, d64_nonzero in *. by rewrite Hd, Ht. }
  rewrite Hck, Z.eqb_refl. cbn [andb].
  destruct (runs_convert_bytes t value b h (λ value' h',
    dv_type value' = NEU_TYPE_ARRAY_INT64 ∧ arr_ptr (dv_value value') = a ∧
    hp_blocks h' = delete (arr_ptr v) (hp_blocks h))) as (value' & h' & E & Ety & Eptr & Eb);
    [done..| |].
  { split_and!; [done| |done]. fold v. cbn [dv_value with_value]. rewrite Nat.min_l by lia.
    set (n := Z.to_nat (arr_length v)). set (bs := concat (take 1 <$> elements b 0 n)).
    assert (Hbs : length bs = n) by (apply length_elements_bytes; lia).
    destruct Hu as [Hul _]. unfold arr_ptr, DriverCache.set_bytes_length.
    rewrite mem_read_write_before; [|lia|].
    2: { rewrite length_mem_write by (rewrite length_app, length_replicate; lia). lia. }
    unfold a. f_equal. unfold mem_read, mem_write. rewrite take_0, drop_0. cbn [app].
    rewrite <-app_assoc, take_app_le by lia. subst bs.
    replace n with (8 + (n - 8))%nat by lia. unfold elements.
    rewrite seq_app, !fmap_app, concat_app. simpl (0 + 8)%nat.
    rewrite take_app_le by (pose proof (length_elements_bytes b 0 8) as Hl; unfold elements in Hl;
      rewrite Hl; lia).
    apply take_ge. pose proof (length_elements_bytes b 0 8) as Hl. unfold elements in Hl.
    rewrite Hl; lia. }
  unfold mbind, M_bind. rewrite E. cbn. unfold mbind, M_bind. rewrite Ety. cbn.
  unfold neu_free_dvalue. cbn. unfold mbind, M_bind. rewrite Eptr.
  rewrite (decide_False (P := a = 0)) by done. unfold free. rewrite decide_False by done.
  assert (Hnone : hp_blocks h' !! a = None) by (rewrite Eb; apply lookup_delete_None; by right).
  by rewrite Hnone.
Qed.
End Bytes.

(** ** Scaling *)

(** Scaling a 64-bit word rewrites only half of it.  [cal_decimal] treats
    [LWORD] like a 32-bit type: the upper four bytes of the value a request carries
    stay as they are, so that the value handed to the plugin is the scaled one only
    when they happen to be zero. *)
Theorem lword_scaling_keeps_high_bytes value_type v decimal v' :
  union_ok v → cal_decimal NEU_TYPE_LWORD value_type v decimal = Some v' →
  mem_read 4 4 v' = mem_read 4 4 v.
Proof.
  intros [Hl _]. cbn [cal_decimal]. intros (n & _ & [= <-])%bind_Some. unfold set_u32.
  rewrite mem_read_write_after; rewrite ?length_le_store; lia || done.
Qed.

(** ** The queue of writes *)

(** What happens to the queue of a group: a request is stored, or the write timer
    fires. *)
Inductive write_event := EvStore (w : to_be_write_tag_t) | EvTimer.

Definition stored (evs : list write_event) : list to_be_write_tag_t :=
  flat_map (λ ev, match ev with EvStore w => [w] | EvTimer => [] end) evs.

(** The driver after the events and what the plugin has been given. *)
Fixpoint run_writes (d : neu_adapter_driver_t) (group : string) (evs : list write_event)
    : neu_adapter_driver_t * list to_be_write_tag_t :=
  match evs with
  | [] => (d, [])
  | EvStore w :: evs' => run_writes (queue d group w) group evs'
  | EvTimer :: evs' =>
      let '(d1, out) := write_callback d group in
      let '(d2, out') := run_writes d1 group evs' in
      (d2, out ++ out')
  end.

Lemma find_group_update d group f g :
  (∀ x, g_name (f x) = g_name x) → find_group d group = Some g →
  find_group (with_groups (hash_update g_name group f (d_groups d)) d) group = Some (f g).
Proof.
  intros Hf Hg. unfold find_group in *. simpl. rewrite hash_find_update by done.
  by rewrite decide_True, Hg.
Qed.

(** C28: every queued write reaches the plugin, once and in order.  In a running
    driver, whatever the interleaving of requests and timers, the writes handed to
    the plugin followed by those that wait are the writes stored, in the order they
    were stored; after the next timer none waits. *)
Theorem queued_writes_delivered d group g evs :
  d_running d = true → find_group d group = Some g →
  let '(d', out) := run_writes d group evs in
  ∃ g', find_group d' group = Some g' ∧
    out ++ g_wt_tags g' = g_wt_tags g ++ stored evs ∧
    (run_writes d group (evs ++ [EvTimer])).2 = g_wt_tags g ++ stored evs.
Proof.
  revert d g. induction evs as [|[w|] evs IH]; intros d g Hr Hg; cbn [run_writes app].
  - exists g. split_and!; [done|by rewrite app_nil_r|]. unfold write_callback.
    rewrite Hg, Hr. simpl. by rewrite !app_nil_r.
  - assert (Hg1 := find_group_update d group (store_write_tag w) g (λ _, eq_refl) Hg).
    assert (IH' := IH (queue d group w) (store_write_tag w g) Hr Hg1).
    destruct (run_writes (queue d group w) group evs) as [d' out].
    destruct IH' as (g' & Hg' & Ho & Ht). exists g'. simpl in *.
    rewrite <-app_assoc in Ho, Ht. by split_and!.
  - unfold write_callback. rewrite Hg, Hr.
    assert (Hg1 := find_group_update d group (with_wt_tags []) g (λ _, eq_refl) Hg).
    set (d1 := with_groups _ d) in *. assert (IH' := IH d1 (with_wt_tags [] g) Hr Hg1).
    destruct (run_writes d1 group evs) as [d' out].
    destruct IH' as (g' & Hg' & Ho & Ht). exists g'. simpl in *. split_and!; [done| |].
    + by rewrite <-app_assoc, Ho.
    + destruct (run_writes d1 group (evs ++ [EvTimer])) as [d2 out2]. simpl in *. by rewrite Ht.
Qed.

(** ** Witnesses *)

#[local] Instance no_json : Jansson () :=
  {| json_equal _ p q := p =? q; json_decref _ j := j; json_deep_copy p j := (p, j) |}.

(** A readable and writable tag. *)
Definition example_rw_tag (n : string) (ty : neu_type_e) (address : string) (decimal : Z)
    : neu_datatag_t :=
  {| tag_name := n; tag_address := address; tag_attribute := 3; tag_type := ty;
     tag_precision := 0; tag_decimal := decimal; tag_bias := 0; tag_description := Some EmptyString;
     tag_unit := Some EmptyString; tag_option := addr_option_zero; tag_meta := [];
     tag_format := []; tag_n_format := 0 |}.
Definition example_i32 : neu_datatag_t :=
  parse_option (example_rw_tag "a" NEU_TYPE_INT32 "1!400001#BB" 0).
Definition example_group_of (ts : list neu_datatag_t) : group_t :=
  with_group {| group_name := "g"; interval := 1000; timestamp := 1; next_tag_order := 9;
    tags := (λ t, {| el_name := tag_name t; el_tag := t; el_order := 0 |}) <$> ts |}
    (default_group "g").
Definition example_writer (ts : list neu_datatag_t) : neu_adapter_driver_t :=
  {| d_running := true; d_cache := neu_driver_cache_new; d_tag_cnt := Z.of_nat (length ts);
     d_groups := [example_group_of ts] |}.

Lemma example_u64_ok z : union_ok (set_u64 z value_zero).
Proof. apply union_ok_store; [apply value_zero_ok|lia]. Qed.

(** [-2] written to a big-endian 32-bit tag. *)
Lemma written_integer_reads_back_witness :
  let value := example_dv NEU_TYPE_INT64 (set_u64 (-2) value_zero) in
  let p := example_point MODBUS_AREA_HOLD_REGISTER NEU_TYPE_INT32 0 2 in
  ∃ value' n w r,
    convert_write example_i32 value example_heap = Some (value', example_heap) ∧
    cal_n_byte (point_type p) (dv_value value') (option_ p) MODBUS_CDAB
      (opt_value_default (option_ p)) MODBUS_LL (opt_value_default (option_ p)) = Some (n, w) ∧
    convert_read MODBUS_CDAB MODBUS_LL p (wire_value n w) = Some r ∧
    ∀ cv, dv_type (cv_value cv) = NEU_TYPE_INT32 → union_ok (dv_value (cv_value cv)) →
      take (Z.to_nat n) (dv_value (cv_value cv)) = take (Z.to_nat n) r → cv_timestamp cv = 100 →
      ∃ x, read_value false 160 60000 NEU_TAG_CACHE_TYPE_INTERVAL example_i32 cv example_heap =
             Some (x, example_heap) ∧ int_of NEU_TYPE_INT32 (dv_value x) = Some (-2).
Proof.
  intros value p.
  destruct (written_integer_reads_back 0 0 example_i32 value MODBUS_CDAB MODBUS_LL p example_heap)
    as (value' & n & w & r & H1 & H2 & H3 & H4).
  - reflexivity.
  - by eexists.
  - reflexivity.
  - reflexivity.
  - apply example_u64_ok.
  - vm_compute. reflexivity.
  - reflexivity.
  - exists value', n, w, r. split_and!; [exact H1|exact H2|exact H3|].
    intros cv Ht Hu Htake Hts.
    destruct (H4 cv 160 60000 NEU_TAG_CACHE_TYPE_INTERVAL example_heap) as (x & Hx & Hi);
      [exact Ht|exact Hu|exact Htake|rewrite Hts; lia|].
    exists x. split; [exact Hx|]. etransitivity; [exact Hi|]. by vm_compute.
Defined.

Lemma write_tag_once_witness :
  ∃ o, neu_adapter_driver_write_tag 0 0 (example_writer [example_i32]) 5 "g" "a"
         (example_dv NEU_TYPE_INT64 (set_u64 7 value_zero)) example_heap = Some (o, example_heap) ∧
       o.1.1 = NEU_ERR_SUCCESS ∧ o.2 = [].
Proof.
  destruct (write_tag_once 0 0 (example_writer [example_i32]) 5 "g" "a"
              (example_dv NEU_TYPE_INT64 (set_u64 7 value_zero)) example_heap)
    as (o & E & [(g & t & v' & _ & _ & _ & _ & _ & _ & Hq)|[_ Hno]]).
  - intros g t [= <-] [= <-]. split_and!; [|reflexivity|reflexivity].
    apply (bool_decide_unpack _). by vm_compute.
  - exists o. split; [exact E|]. rewrite Hq. done.
  - destruct Hno. split; [reflexivity|]. eexists. split; [reflexivity|].
    eexists. split_and!; [reflexivity|reflexivity|by vm_compute].
Defined.

Lemma write_tags_atomic_witness :
  ∃ o, neu_adapter_driver_write_tags 0 0 example_plugin (example_writer [example_i32]) 5 "g"
         [{| rtv_tag := "a"; rtv_value := example_dv NEU_TYPE_INT64 (set_u64 7 value_zero) |};
          {| rtv_tag := "b"; rtv_value := example_dv NEU_TYPE_INT64 (set_u64 8 value_zero) |}]
         example_heap = Some (o, example_heap) ∧
       refused (example_writer [example_i32]) o.
Proof.
  destruct (write_tags_atomic 0 0 example_plugin (example_writer [example_i32]) 5 "g"
    [{| rtv_tag := "a"; rtv_value := example_dv NEU_TYPE_INT64 (set_u64 7 value_zero) |};
     {| rtv_tag := "b"; rtv_value := example_dv NEU_TYPE_INT64 (set_u64 8 value_zero) |}]
    example_heap) as (o & E & [(g & l & _ & _ & Hg & Hf & _)|[Hr _]]).
  - intros g tv t [= <-] [->|[->|[]%not_elem_of_nil]%elem_of_cons]%elem_of_cons; [|done].
    intros [= <-]. split_and!; [|reflexivity|reflexivity].
    apply (bool_decide_unpack _). by vm_compute.
  - injection Hg as <-. inversion_clear Hf as [|? ? ? ? _ Hf'].
    inversion_clear Hf' as [|? ? ? ? (t & v & Ht & _)]. done.
  - exists o. split; [exact E|exact Hr].
Defined.

Definition example_i64s (n : nat) : list Z := concat (replicate n (le_store 8 300)).
Definition example_i64_heap (n : nat) : mem () := Mem 2 {[1 := example_i64s n]} ().

Lemma example_i64_heap_ok n : heap_ok (example_i64_heap n).
Proof. split; [simpl; lia|]. intros p b. simpl. intros [<- _]%lookup_singleton_Some. lia. Qed.

Lemma example_i64s_length n : length (example_i64s n) = (8 * n)%nat.
Proof.
  unfold example_i64s. induction n as [|n IH]; [done|]. cbn [replicate concat].
  rewrite length_app, IH, length_le_store. lia.
Qed.

Lemma array_write_wraps_witness :
  let t := example_rw_tag "a" NEU_TYPE_ARRAY_UINT8 "x" 0 in
  let value := example_dv NEU_TYPE_ARRAY_INT64 (example_array 1 2) in
  check_write 0 0 t value = NEU_ERR_SUCCESS ∧
  runs (convert_write t value) (example_i64_heap 2) (λ value' h',
    hp_blocks h' !! arr_ptr (dv_value value') = Some [44; 44]).
Proof.
  intros t value.
  destruct (array_write_wraps 0 0 t value (example_i64s 2) 1 (example_i64_heap 2)) as [H1 H2].
  - reflexivity.
  - reflexivity.
  - reflexivity.
  - apply example_array_union.
  - apply example_i64_heap_ok.
  - simpl. lia.
  - reflexivity.
  - reflexivity.
  - split; [exact H1|]. eapply runs_mono; [exact H2|]. intros value' h' (Hp & _ & Hb & _).
    rewrite Hp, Hb. vm_compute. reflexivity.
Defined.

Lemma full_bytes_have_length_0_witness :
  let t := example_rw_tag "a" NEU_TYPE_BYTES "x" 0 in
  let value := example_dv NEU_TYPE_ARRAY_INT64 (example_array 1 256) in
  check_write 0 0 t value = NEU_ERR_SUCCESS ∧
  runs (convert_write t value) (example_i64_heap 256) (λ value' _,
    bytes_length (dv_value value') = 0 ∧
    mem_read 0 256 (dv_value value') = concat (take 1 <$> elements (example_i64s 256) 0 256)).
Proof.
  intros t value. apply (full_bytes_have_length_0 0 0 t value (example_i64s 256)).
  - reflexivity.
  - reflexivity.
  - reflexivity.
  - apply example_array_union.
  - apply example_i64_heap_ok.
  - reflexivity.
  - rewrite example_i64s_length. vm_compute. reflexivity.
  - vm_compute. discriminate.
Defined.

Lemma refused_bytes_wild_free_witness :
  let t := example_rw_tag "a" NEU_TYPE_BYTES "x" 0 in
  neu_adapter_driver_write_tags 0 0 example_plugin (example_writer [t]) 5 "g"
    [{| rtv_tag := "a"; rtv_value := example_dv NEU_TYPE_ARRAY_INT64 (example_array 1 8) |};
     {| rtv_tag := "b"; rtv_value := example_dv NEU_TYPE_BOOL value_zero |}]
    (example_i64_heap 8) = None.
Proof.
  intros t. apply (refused_bytes_wild_free 0 0 example_plugin (example_writer [t]) 5 "g"
    (example_group_of [t]) (neu_tag_dup t) "a" "b" _ _ (example_i64s 8)).
  1-9: reflexivity.
  - apply example_array_union.
  - apply example_i64_heap_ok.
  - reflexivity.
  - rewrite example_i64s_length. vm_compute. reflexivity.
  - vm_compute. split; discriminate.
  - vm_compute. discriminate.
  - vm_compute. reflexivity.
Defined.

(** A scale factor of one half and the request [1.5]: the word is not 3. *)
Lemma lword_scaling_keeps_high_bytes_witness :
  let v := set_u64 0x3ff8000000000000 value_zero in
  ∃ v', cal_decimal NEU_TYPE_LWORD NEU_TYPE_DOUBLE v (d64_of_bits 0x3fe0000000000000) = Some v' ∧
    val_u64 v' = 0x3ff8000000000003 ∧ mem_read 4 4 v' = mem_read 4 4 v.
Proof.
  intros v. eexists. split; [vm_compute; reflexivity|]. split; [vm_compute; reflexivity|].
  apply (lword_scaling_keeps_high_bytes NEU_TYPE_DOUBLE v (d64_of_bits 0x3fe0000000000000)).
  - apply example_u64_ok.
  - vm_compute. reflexivity.
Defined.

Lemma queued_writes_delivered_witness :
  let w n := wt_single n example_i32 value_zero in
  (run_writes (example_writer [example_i32]) "g"
     ([EvStore (w 1); EvTimer; EvStore (w 2); EvStore (w 3)] ++ [EvTimer])).2 = [w 1; w 2; w 3].
Proof.
  intros w. pose proof (queued_writes_delivered (example_writer [example_i32]) "g"
    (example_group_of [example_i32]) [EvStore (w 1); EvTimer; EvStore (w 2); EvStore (w 3)]
    eq_refl eq_refl) as Hq.
  destruct (run_writes _ _ _) as [d' out] in Hq. destruct Hq as (g' & _ & _ & Hall). exact Hall.
Defined.
