(* ===== verification/DriverReadOk.v ===== *)
(** * Correctness of reads and reports

    What a client gets for a tag: the sample of the cache in host byte order, in
    memory of its own, or an error when the tag has not been read or its value has
    expired; changes are reported once; a value that is updated with [update_im]
    reaches the subscribers at once. *)

From Stdlib Require Import SpecFloat.
From S2P Require Import Prelude UtHash NeuTypes CHeap CFloat DriverCache CacheValue DriverCacheOk Tag Group Driver DriverWrite DriverRead DriverOk.

(** ** Releasing a value *)

Section Release.
Context {J : Type} `{Jansson J}.
Implicit Types (h : mem J).

(** What the reader does with an expired value. *)
Definition discard (value : neu_dvalue_t) : M J () :=
  match dv_type value with
  | NEU_TYPE_PTR => free (ptr_ptr (dv_value value))
  | _ => neu_free_dvalue value;; mret ()
  end.

Lemma null_strings h v :
  heap_ok h → value_ok h NEU_TYPE_ARRAY_STRING v → arr_ptr v = 0 →
  nonnull (arr_ptr v) ++ default [] (load_ptrs (arr_ptr v) 0 (Z.to_nat (arr_length v)) h) = [].
Proof.
  intros Hok [_ [c Hc] _ _ _] E. cbn in Hc. rewrite E in *. unfold nonnull.
  rewrite decide_True by done. destruct (Z.to_nat (arr_length v)) as [|n]; [done|].
  exfalso. cbn in Hc. unfold load_bytes in Hc. by rewrite heap_ok_null in Hc.
Qed.

Lemma runs_discard dv h (Q : () → mem J → Prop) :
  heap_ok h → dv_ok h dv →
  (∀ h', released (dv_owned h dv) h h' → Q () h') → runs (discard dv) h Q.
Proof.
  unfold dv_ok, dv_owned. intros Hok Hv HQ.
  destruct (decide (by_pointer (dv_type dv) = false)) as [Hp|Hp].
  { unfold discard. assert (dv_type dv ≠ NEU_TYPE_PTR) by (by intros E; rewrite E in Hp).
    assert (Hrun : runs (neu_free_dvalue dv;; mret ()) h Q).
    { apply runs_bind, runs_free_plain; [done|]. apply runs_ret, HQ.
      unfold owned. destruct (dv_type dv); try done; by apply released_nil. }
    by destruct (dv_type dv). }
  pose proof (value_live _ _ _ Hv) as Hl. unfold discard, neu_free_dvalue, owned in *.
  destruct (is_num_array (dv_type dv)) eqn:Hn.
  - assert (Hrun : runs ((if decide (arr_ptr (dv_value dv) = 0) then mret dv
      else free (arr_ptr (dv_value dv));;
           mret {| dv_type := dv_type dv; dv_value := set_arr_ptr 0 (dv_value dv);
                   dv_precision := dv_precision dv; dv_attrs := dv_attrs dv |});; mret ()) h Q).
    { apply runs_bind. destruct (decide (arr_ptr (dv_value dv) = 0)) as [E|E].
      - apply runs_ret, runs_ret, HQ. unfold nonnull. rewrite decide_True by done.
        by apply released_nil.
      - apply runs_bind, runs_free_released; [done|]. intros h' Hr. by apply runs_ret, runs_ret, HQ. }
    by destruct (dv_type dv).
  - destruct (dv_type dv) eqn:Et; try done.
    + by apply runs_free_released.
    + unfold by_pointer in Hp. cbn. rewrite decide_True by done. apply runs_bind.
      destruct (decide (arr_ptr (dv_value dv) = 0)) as [E|E].
      * apply runs_ret, runs_ret, HQ. cbn. rewrite null_strings by done. by apply released_nil.
      * pose proof (runs_free_string_array false (dv_value dv) h Q Hok Hv HQ) as (r & h' & Er & Hr).
        unfold mbind, M_bind in Er. unfold runs, mbind, M_bind.
        destruct (free_strings _ _ _ _ h) as [[[] h1]|]; [|done]. rewrite Er.
        eexists _, h'. split; [reflexivity|]. apply runs_ret. by destruct r.
    + simpl. apply runs_bind, runs_bind, runs_json_release. intros h' Hr. by apply runs_ret, runs_ret, HQ.
Qed.
End Release.

(** ** Reading a tag *)

Section ReadTag.
Context {J : Type} `{Jansson J}.
Implicit Types (h : mem J) (c : neu_driver_cache_t).

(** The types whose values have a byte order. *)
Definition has_order (t : neu_type_e) : bool :=
  match t with
  | NEU_TYPE_UINT16 | NEU_TYPE_INT16 | NEU_TYPE_FLOAT | NEU_TYPE_UINT32 | NEU_TYPE_INT32
  | NEU_TYPE_DOUBLE | NEU_TYPE_INT64 | NEU_TYPE_UINT64 => true
  | _ => false
  end.

(** The sample of a tag fits the tag: values in the heap belong to tags without a
    byte order. *)
Definition fits (tag : neu_datatag_t) (s : sample) : Prop :=
  by_pointer (s_type s) = true → has_order (tag_type tag) = false.

(** Tags whose value is rounded for display. *)
Definition displayed (tag : neu_datatag_t) : bool :=
  (tag_precision tag =? 0) && negb (d64_nonzero (tag_bias tag))
  && bool_decide (tag_type tag = NEU_TYPE_DOUBLE).

Definition expired (report : bool) (cache_type : neu_tag_cache_type_e) (timestamp timeout : Z)
    (s : sample) : bool :=
  match cache_type with NEU_TAG_CACHE_TYPE_NEVER => false | _ => true end
  && (timeout <? timestamp - s_timestamp s) && (negb report || (0 <? timeout)).

Lemma read_order_id tag v : has_order (tag_type tag) = false → read_order tag v = v.
Proof. unfold read_order. by destruct (tag_type tag). Qed.

(** A copy handed out by the cache is well-formed. *)
Lemma delivered_ok h h' c k s cv ms :
  cache_ok h c → view h c !! k = Some s → delivered h h' s cv ms → s_type s ≠ NEU_TYPE_ERROR →
  dv_ok h' (cv_value cv).
Proof.
  intros Hc Hs [Hts Ht Hcon _ _ _ Hfresh Hnd Hu] Hne. rewrite view_lookup in Hs.
  apply fmap_Some in Hs as (e & He & ->). apply hash_find_Some in He as [He _].
  pose proof (cache_values h c Hc e He) as Hv. simpl in *. split.
  - done.
  - destruct (decide (dv_type (value e) = NEU_TYPE_CUSTOM)) as [E|E].
    + rewrite Ht, E. by eexists.
    + specialize (Hcon E). unfold dv_content in Hcon. rewrite Hcon. apply Hv.
  - eapply Forall_impl; [exact Hfresh|]. by intros p [_ ?].
  - done.
  - rewrite Ht. done.
Qed.

Lemma hand_over_attrs v : dv_attrs (hand_over v) = dv_attrs v.
Proof. unfold hand_over. by destruct (dv_type v). Qed.

Lemma scale_value_attrs tag v : dv_attrs (scale_value tag v) = dv_attrs v.
Proof.
  unfold scale_value. destruct (_ || _); [|done]. by destruct (number_of _ _).
Qed.

(** The value of a sample as the client sees it. *)
Definition client_value (tag : neu_datatag_t) (dv : neu_dvalue_t) : neu_dvalue_t :=
  scale_value tag (hand_over (with_value (read_order tag (dv_value dv)) dv)).

Lemma client_value_attrs tag dv : dv_attrs (client_value tag dv) = dv_attrs dv.
Proof. unfold client_value. by rewrite scale_value_attrs, hand_over_attrs. Qed.

Lemma runs_read_value report timestamp timeout cache_type tag c k s cv ms h h1
    (Q : neu_dvalue_t → mem J → Prop) :
  cache_ok h c → view h c !! k = Some s → heap_ok h1 → delivered h h1 s cv ms →
  s_type s ≠ NEU_TYPE_ERROR → fits tag s → displayed tag = false →
  (expired report cache_type timestamp timeout s = false →
     Q (client_value tag (cv_value cv)) h1) →
  (expired report cache_type timestamp timeout s = true → ∀ h2,
     released (dv_owned h1 (cv_value cv)) h1 h2 →
     Q (error_value NEU_ERR_PLUGIN_TAG_VALUE_EXPIRED (s_attrs s)) h2) →
  runs (read_value report timestamp timeout cache_type tag cv) h1 Q.
Proof.
  intros Hc Hs Hc1 Hdl Hne Hfit Hdisp Hlive Hexp. unfold read_value.
  rewrite (dlv_timestamp _ _ _ _ _ Hdl). unfold expired in Hlive, Hexp.
  destruct (_ && _ && _) eqn:E.
  - specialize (Hexp eq_refl). set (value := with_value _ _).
    assert (Hd : runs (discard value) h1 (λ _ h2, released (dv_owned h1 (cv_value cv)) h1 h2)).
    { destruct (decide (by_pointer (s_type s) = true)) as [Hp|Hp].
      - assert (value = cv_value cv) as ->.
        { subst value. rewrite read_order_id by auto. by destruct (cv_value cv). }
        apply runs_discard; [done|exact (delivered_ok h h1 c k s cv ms Hc Hs Hdl Hne)|done].
      - apply not_true_iff_false in Hp. assert (Hv : by_pointer (dv_type value) = false)
          by (subst value; simpl; by rewrite (dlv_type _ _ _ _ _ Hdl)).
        assert (Hown : dv_owned h1 (cv_value cv) = []).
        { unfold dv_owned, owned. rewrite (dlv_type _ _ _ _ _ Hdl). by destruct (s_type s). }
        rewrite Hown. assert (dv_type value ≠ NEU_TYPE_PTR) by (by intros E'; rewrite E' in Hv).
        assert (Hrun : runs (neu_free_dvalue value;; mret ()) h1 (λ _ h2, released [] h1 h2)).
        { apply runs_bind, runs_free_plain; [done|]. apply runs_ret. by apply released_nil. }
        unfold discard. by destruct (dv_type value). }
    apply runs_bind. eapply runs_mono; [exact Hd|]. intros [] h2 Hr. apply runs_ret.
    subst value. simpl. rewrite (dlv_attrs _ _ _ _ _ Hdl). by apply Hexp.
  - specialize (Hlive eq_refl). eapply runs_lift; [|exact Hlive].
    unfold display_value. unfold displayed in Hdisp. by rewrite Hdisp.
Qed.

Lemma cache_value_zero_ok : union_ok (dv_value (cv_value cache_value_zero)).
Proof. apply value_zero_ok. Qed.

(** The cache [c1] holds values of [c] and no others. *)
Definition values_of (c c1 : neu_driver_cache_t) : Prop :=
  ∀ x, x ∈ table c1 → ∃ y, y ∈ table c ∧ value y = value x.

(** Discarding a copy leaves the cache alone. *)
Lemma cache_discard h h1 h2 c c1 s cv ms :
  cache_ok h1 c1 → values_of c c1 → frame [] h h1 → cache_ok h c → delivered h h1 s cv ms →
  released (dv_owned h1 (cv_value cv)) h1 h2 → cache_ok h2 c1 ∧ view h2 c1 = view h1 c1.
Proof.
  intros Hc1 Hvals Hf Hc Hdl Hr.
  apply (cache_frame (dv_owned h1 (cv_value cv)) h1 h2 c1); [done| | |].
  - eapply released_ok; [exact Hr|apply Hc1].
  - by apply released_frame.
  - intros x p Hx Hp Hin. destruct (Hvals x Hx) as (e & He & Hval). rewrite <-Hval in Hp.
    pose proof (dlv_fresh _ _ _ _ _ Hdl) as Hfresh. rewrite Forall_forall in Hfresh.
    destruct (Hfresh p Hin) as [Hge _].
    destruct (frame_value [] h h1 (value e)) as (_ & _ & Hown);
      [apply Hc|apply Hc1|done|by apply Hc|intros; apply not_elem_of_nil|].
    rewrite Hown in Hp. pose proof (value_live _ _ _ (cache_values _ _ Hc e He)) as Hl.
    rewrite Forall_forall in Hl. apply Hl in Hp. apply heap_ok_live in Hp; [lia|apply Hc].
Qed.

(** What the client is told about the sample [s]. *)
Definition reading (report : bool) (cache_type : neu_tag_cache_type_e) (timestamp timeout : Z)
    (tag : neu_datatag_t) h h' (s : sample) (value : neu_dvalue_t) : Prop :=
  dv_attrs value = s_attrs s ∧
  ∃ cv h1, delivered h h1 s cv (s_metas s) ∧
    if decide (s_type s = NEU_TYPE_ERROR) then value = cv_value cv ∧ h' = h1
    else if expired report cache_type timestamp timeout s
    then value = error_value NEU_ERR_PLUGIN_TAG_VALUE_EXPIRED (s_attrs s) ∧
         released (dv_owned h1 (cv_value cv)) h1 h'
    else value = client_value tag (cv_value cv) ∧ h' = h1.

Lemma runs_reading report timestamp timeout cache_type tag c c1 k s cv h h1
    (Q : neu_dvalue_t → mem J → Prop) :
  cache_ok h c → view h c !! k = Some s → cache_ok h1 c1 → values_of c c1 → frame [] h h1 →
  delivered h h1 s cv (s_metas s) → fits tag s → displayed tag = false →
  (∀ value h', cache_ok h' c1 → view h' c1 = view h1 c1 →
     reading report cache_type timestamp timeout tag h h' s value → Q value h') →
  runs (if decide (dv_type (cv_value cv) = NEU_TYPE_ERROR) then mret (cv_value cv)
        else read_value report timestamp timeout cache_type tag cv) h1 Q.
Proof.
  intros Hc Hs Hc1 Hvals Hf Hdl Hfit Hdisp HQ. rewrite (dlv_type _ _ _ _ _ Hdl).
  destruct (decide (s_type s = NEU_TYPE_ERROR)) as [E|E].
  - apply runs_ret, HQ; [done..|]. split; [apply Hdl|]. exists cv, h1.
    by rewrite decide_True by done.
  - eapply runs_read_value; [exact Hc|exact Hs|apply Hc1|done..| |].
    + intros Hx. apply HQ; [done..|]. split; [rewrite client_value_attrs; apply Hdl|].
      exists cv, h1. rewrite decide_False, Hx by done. done.
    + intros Hx h2 Hr.
      destruct (cache_discard h h1 h2 c c1 s cv (s_metas s)) as [Hc2 Hv2]; [done..|].
      apply HQ; [done|congruence|]. split; [done|]. exists cv, h1.
      rewrite decide_False, Hx by done. done.
Qed.

(** C21: reading a tag whose value is not rounded for display: every tag but those
    of type DOUBLE with precision 0 and no bias ([displayed]), whose value is
    rounded ([display_rounds_0995]), and samples behind pointers only in tags
    without a byte order. A read is safe, leaves the cache as it is, answers with
    the name of the tag, and reports [TAG_NOT_READY] when the cache has no sample;
    otherwise the metas and attributes of the sample and, in memory of its own, its
    error, its value in host byte order and scaled, or, exactly when it is older
    than the timeout and the cache is not kept for ever, the error
    [TAG_VALUE_EXPIRED], in which case the copy is released. *)
Theorem read_tag_correct h c group tag timestamp timeout cache_type :
  cache_ok h c → read_room h c →
  (∀ s, view h c !! tag_key group tag = Some s → fits tag s) → displayed tag = false →
  runs (read_tag timestamp timeout cache_type c group tag) h (λ x h',
    cache_ok h' c ∧ view h' c = view h c ∧ rm_tag x = resp_name tag ∧ rm_datatag x = Some tag ∧
    match view h c !! tag_key group tag with
    | None => rm_value x = error_value NEU_ERR_PLUGIN_TAG_NOT_READY attrs_zero
    | Some s => rm_metas x = s_metas s ∧
                reading false cache_type timestamp timeout tag h h' s (rm_value x)
    end).
Proof.
  intros Hc Hroom Hfit Hdisp. unfold read_tag. apply runs_bind.
  eapply runs_mono; [apply (runs_meta_get h c group (tag_name tag) cache_value_zero);
    [done|apply cache_value_zero_ok|done]|].
  intros r h1 (Hc1 & Hv1 & Hf & Hr). fold (tag_key group tag) in Hr.
  destruct (view h c !! tag_key group tag) as [s|] eqn:Hs; destruct r as [[cv ms]|]; try done.
  - pose proof (dlv_metas _ _ _ _ _ Hr) as ->. apply runs_bind.
    eapply (runs_reading _ _ _ _ _ c c); [exact Hc|exact Hs|done|intros x ?; by exists x|done|done
      |by apply Hfit|done|].
    intros value h' Hc' Hv' Hrd. apply runs_ret. split_and!; [done|congruence|done..].
  - by apply runs_ret.
Qed.

(** Reporting a subscribed tag whose change flag is down does nothing. *)
Lemma report_tag_quiet h c group tag timestamp timeout cache_type :
  attribute_test (tag_attribute tag) NEU_ATTRIBUTE_SUBSCRIBE = true →
  neu_driver_cache_meta_get_changed c group (tag_name tag) cache_value_zero h = Some (None, c, h) →
  report_tag timestamp timeout cache_type c group tag h = Some (None, c, h).
Proof. intros Hsub E. unfold report_tag, mbind, M_bind. rewrite Hsub, E. done. Qed.

Lemma runs_report_tag h c group tag timestamp timeout cache_type :
  attribute_test (tag_attribute tag) NEU_ATTRIBUTE_SUBSCRIBE = true →
  (tag_type tag ∉ [NEU_TYPE_FLOAT; NEU_TYPE_DOUBLE]) →
  cache_ok h c → read_room h c →
  (∀ s, view h c !! tag_key group tag = Some s → fits tag s) →
  runs (report_tag timestamp timeout cache_type c group tag) h (λ '(x, c') h',
    cache_ok h' c' ∧
    match view h c !! tag_key group tag with
    | None => x = None ∧ c' = c
    | Some s =>
        if s_changed s then
          ∃ y, x = Some y ∧ rm_tag y = resp_name tag ∧ rm_metas y = s_metas s ∧
            reading true cache_type timestamp timeout tag h h' s (rm_value y) ∧
            (s_type s ≠ NEU_TYPE_ERROR → ∀ timestamp' timeout',
               runs (report_tag timestamp' timeout' cache_type c' group tag) h'
                 (λ r h'', r = (None, c') ∧ h'' = h'))
        else x = None ∧ c' = c
    end).
Proof.
  intros Hsub Hty Hc Hroom Hfit. unfold report_tag at 1. rewrite Hsub. apply runs_bind.
  eapply runs_mono; [apply (runs_get_changed h c group (tag_name tag) cache_value_zero);
    [done|apply cache_value_zero_ok|done]|].
  intros [r c'] h1 (Hc1 & Hf & Hvals & Hr). fold (tag_key group tag) in Hr.
  destruct (view h c !! tag_key group tag) as [s|] eqn:Hs; destruct r as [[cv ms]|]; try done.
  - destruct Hr as (Hch & Hdl & _ & Hquiet). rewrite Hch.
    pose proof (dlv_metas _ _ _ _ _ Hdl) as ->.
    assert (Hnan : is_nan_value tag (dv_value (cv_value cv)) = false).
    { unfold is_nan_value. destruct (tag_type tag); try done; destruct Hty; rewrite !elem_of_cons; tauto. }
    assert (Hdisp : displayed tag = false).
    { unfold displayed. rewrite bool_decide_eq_false_2, andb_false_r; [done|].
      intros E. apply Hty. rewrite E, !elem_of_cons. tauto. }
    rewrite Hnan. apply runs_bind.
    eapply (runs_reading _ _ _ _ _ c c'); [exact Hc|exact Hs|done..|by apply Hfit|done|].
    intros value h' Hc' Hv' Hrd. apply runs_ret. split; [done|]. eexists.
    split_and!; [done..|]. intros Hne ts' to'. destruct (Hquiet Hne) as [Hflag _].
    eexists (None, c'), h'. split; [|done]. apply report_tag_quiet; [done|].
    unfold neu_driver_cache_meta_get_changed. rewrite <-Hv', view_lookup in Hflag.
    fold (tag_key group tag). unfold tag_key in *.
    destruct (hash_find key (to_key group (tag_name tag)) (table c')) as [e|]; [|done].
    simpl in Hflag. injection Hflag as Hflag. by rewrite Hflag.
  - destruct Hr as (Hch & -> & ->). rewrite Hch. by apply runs_ret.
  - destruct Hr as [-> ->]. by apply runs_ret.
Qed.

(** C26: a change of a subscribed tag is reported once, for tags of every type but
    FLOAT and DOUBLE, whose report tests for NaN before it restores the byte order
    ([nan_test_before_byte_order]), and samples behind pointers only in tags without
    a byte order. The report of a subscribed tag is safe; it says nothing unless the
    change flag of the sample is up, and then carries what a read would; once a
    value that is no error has been reported, the tag stays silent, whenever the
    next report comes, until another change. *)
Theorem report_tag_once h c group tag timestamp timeout cache_type :
  attribute_test (tag_attribute tag) NEU_ATTRIBUTE_SUBSCRIBE = true →
  (tag_type tag ∉ [NEU_TYPE_FLOAT; NEU_TYPE_DOUBLE]) →
  cache_ok h c → read_room h c →
  (∀ s, view h c !! tag_key group tag = Some s → fits tag s) →
  runs (report_tag timestamp timeout cache_type c group tag) h (λ '(x, c') h',
    cache_ok h' c' ∧
    match view h c !! tag_key group tag with
    | None => x = None ∧ c' = c
    | Some s =>
        if s_changed s then
          ∃ y, x = Some y ∧ rm_tag y = resp_name tag ∧ rm_metas y = s_metas s ∧
            reading true cache_type timestamp timeout tag h h' s (rm_value y) ∧
            (s_type s ≠ NEU_TYPE_ERROR → ∀ timestamp' timeout',
               runs (report_tag timestamp' timeout' cache_type c' group tag) h'
                 (λ r h'', r = (None, c') ∧ h'' = h'))
        else x = None ∧ c' = c
    end).
Proof. apply runs_report_tag. Qed.
End ReadTag.

(** ** Reports at once *)

Section Immediate.
Context (pow01 : Z → spec_float) (sub_filter_err : bool).
Context {J : Type} `{Jansson J}.
Implicit Types (h : mem J) (c : neu_driver_cache_t) (d : neu_adapter_driver_t).

(** A value stored with [update_im] reaches the subscribers at once.  For
    a subscribed tag of a group with subscribed applications, and a value that is not
    an error, the cache takes the value and one message with this one value, the
    content it was given with the time of the update, goes to the ports of all the
    applications, whether or not the value differs from the last one. *)
Theorem update_im_reports now cache_type d group tag g t value metas s0 h :
  let k := to_key group tag in
  find_group d group = Some g → g_apps g ≠ [] →
  neu_group_find_tag (g_group g) tag = Some t → tag_name t = tag →
  attribute_test (tag_attribute t) NEU_ATTRIBUTE_SUBSCRIBE = true →
  (tag_type t ∉ [NEU_TYPE_FLOAT; NEU_TYPE_DOUBLE]) →
  dv_type value ≠ NEU_TYPE_ERROR → (by_pointer (dv_type value) = true → has_order (tag_type t) = false) →
  cache_ok h (d_cache d) → view h (d_cache d) !! k = Some s0 →
  update_pre sub_filter_err h (d_cache d) k value metas →
  (∀ r h1, neu_driver_cache_update_change pow01 sub_filter_err (d_cache d) group tag now value
             metas true h = Some (r, h1) → read_room h1 r.1.2) →
  runs (update_im pow01 sub_filter_err now cache_type d group (Some tag) value metas) h
    (λ '(d', msg) h', cache_ok h' (d_cache d') ∧
       ∃ y s cv h1, msg = Some (sub_port <$> g_apps g, [y]) ∧ rm_tag y = resp_name t ∧
         s_timestamp s = now ∧ s_content s = dv_content h value ∧ s_type s = dv_type value ∧
         delivered h1 h' s cv (rm_metas y) ∧ rm_value y = client_value t (cv_value cv)).
Proof.
  intros k Hg Happs Ht Htn Hsub Hty Hne Hord Hc Hs0 Hpre Hroom.
  unfold update_im, update_immediately. rewrite Hg. apply runs_bind.
  destruct (runs_update_change pow01 sub_filter_err h (d_cache d) group tag s0 now value metas true
    Hc Hs0 Hpre) as ([[tc c1] caller] & h1 & E & Hc1 & _ & _ & Hv1). fold k in Hv1.
  specialize (Hroom _ _ E). simpl in Hroom. exists (tc, c1, caller), h1. split; [done|].
  rewrite bool_decide_eq_false_2 by done. cbn [orb andb negb].
  unfold neu_adapter_driver_get_ptag. change (find_group (with_cache c1 d) group) with (find_group d group).
  rewrite Hg. cbn [mbind option_bind]. rewrite Ht. cbn [mbind option_bind d_cache with_cache].
  apply runs_bind. cbn [read_report_group]. apply runs_bind. subst tag.
  set (s := updated_sample h s0 tc now value metas true) in *.
  assert (Hs : view h1 c1 !! tag_key group t = Some s) by (rewrite Hv1; apply lookup_insert_eq).
  eapply runs_mono; [apply (runs_report_tag h1 c1 group t now 0 cache_type Hsub Hty Hc1 Hroom)|].
  { intros s' Hs'. rewrite Hs in Hs'. injection Hs' as <-. done. }
  intros [x c2] h2 [Hc2 Hx]. rewrite Hs in Hx.
  assert (Hch : s_changed s = true) by (subst s; simpl; by rewrite orb_true_r).
  rewrite Hch in Hx. destruct Hx as (y & -> & Hname & Hmetas & Hread & _).
  apply runs_bind, runs_ret, runs_ret. cbn [with_cache d_cache]. apply runs_ret.
  split; [done|]. destruct Hread as [_ (cv & h3 & Hdl & Hread)].
  rewrite decide_False in Hread by done.
  assert (Hexp : expired true cache_type now 0 s = false).
  { unfold expired. cbn [negb orb]. by rewrite andb_false_r. }
  rewrite Hexp in Hread. destruct Hread as [Hval ->].
  exists y, s, cv, h1. unfold send_to_apps. rewrite !decide_False by done.
  split_and!; try done. by rewrite Hmetas.
Qed.
End Immediate.

(** ** Values that are not reported as they are *)

Section Distorted.
Context {J : Type} `{Jansson J}.
Implicit Types (h : mem J) (c : neu_driver_cache_t).

(** The test on NaN looks at the bytes before their order is fixed.  A
    [FLOAT] tag whose cached bytes, taken in host order, are a NaN is reported as
    expired, whatever the byte order of the tag makes of them and however fresh they
    are. *)
Theorem nan_test_before_byte_order h c group tag e timestamp timeout cache_type :
  attribute_test (tag_attribute tag) NEU_ATTRIBUTE_SUBSCRIBE = false →
  tag_type tag = NEU_TYPE_FLOAT → hash_find key (tag_key group tag) (table c) = Some e →
  dv_type (value e) = NEU_TYPE_FLOAT → union_ok (dv_value (value e)) →
  sf_is_nan (f32_of (dv_value (value e))) = true →
  ∃ y, report_tag timestamp timeout cache_type c group tag h = Some (Some y, c, h) ∧
       rm_value y = error_value NEU_ERR_PLUGIN_TAG_VALUE_EXPIRED (dv_attrs (value e)).
Proof.
  intros Hsub Hty Hf Het Hu Hnan. unfold report_tag, mbind, M_bind. rewrite Hsub.
  unfold neu_driver_cache_meta_get. fold (tag_key group tag). rewrite Hf.
  unfold read_elem, copy_value. rewrite Het. unfold mbind, M_bind, mret, M_ret.
  cbn [cv_value dv_type dv_value]. rewrite decide_False by done.
  assert (Hnan' : is_nan_value tag (set_u32 (val_u32 (dv_value (value e)))
    (dv_value (cv_value cache_value_zero))) = true).
  { unfold is_nan_value. rewrite Hty. rewrite <-Hnan. unfold f32_of. do 2 f_equal.
    unfold val_u32, set_u32. rewrite mem_read_store by (simpl; lia).
    apply Z.mod_small, read_range; [done|lia]. }
  rewrite Hnan'. eexists. split; [reflexivity|]. done.
Qed.
End Distorted.

(** Rounding for display changes the third digit.  A [double] tag without
    precision that holds 0.0995 is reported as 0.1: the rounding takes the two digits
    9 behind the point for noise. *)
Theorem display_rounds_0995 :
  format_tag_value (d64_of_bits 0x3fb978d4fdf3b646) = Some (d64_of_bits 0x3fb999999999999a).
Proof. by vm_compute. Qed.

(** ** Witnesses *)

#[local] Instance no_json : Jansson () :=
  {| json_equal _ p q := p =? q; json_decref _ j := j; json_deep_copy p j := (p, j) |}.

(** A tag ["tag"] that can be read and subscribed to. *)
Definition example_sub_tag (ty : neu_type_e) (attribute : Z) (address : string) : neu_datatag_t :=
  parse_option
  {| tag_name := "tag"; tag_address := address; tag_attribute := attribute; tag_type := ty;
     tag_precision := 0; tag_decimal := 0; tag_bias := 0; tag_description := Some EmptyString;
     tag_unit := Some EmptyString; tag_option := addr_option_zero; tag_meta := [];
     tag_format := []; tag_n_format := 0 |}.
Definition example_i16 : neu_dvalue_t := example_dv NEU_TYPE_INT16 (set_u16 7 value_zero).

Lemma example_i16_ok : dv_ok example_heap example_i16.
Proof.
  split; [apply union_ok_store; [apply value_zero_ok|lia]|by eexists|constructor|constructor|done].
Qed.

Lemma example_i16_room : read_room example_heap (example_cache example_i16).
Proof. intros e ->%list_elem_of_singleton. by vm_compute. Qed.

Lemma example_i16_fits tag s :
  view example_heap (example_cache example_i16) !! tag_key "group" tag = Some s →
  tag_name tag = "tag"%string → fits tag s.
Proof.
  rewrite view_lookup. unfold tag_key. intros Hs E. rewrite E in Hs. by injection Hs as <-.
Qed.

(** A sample of time 5 read at time 100 with a timeout of 60: it has expired. *)
Lemma read_tag_correct_witness :
  let tag := example_sub_tag NEU_TYPE_INT16 1 "1!400001" in
  runs (read_tag 100 60 NEU_TAG_CACHE_TYPE_INTERVAL (example_cache example_i16) "group" tag)
    example_heap (λ x _, rm_value x = error_value NEU_ERR_PLUGIN_TAG_VALUE_EXPIRED attrs_zero).
Proof.
  intros tag. eapply runs_mono; [apply (read_tag_correct example_heap (example_cache example_i16)
    "group" tag 100 60 NEU_TAG_CACHE_TYPE_INTERVAL)|].
  - apply example_cache_ok, example_i16_ok.
  - apply example_i16_room.
  - intros s Hs. by apply example_i16_fits.
  - reflexivity.
  - intros x h' (_ & _ & _ & _ & Hx). rewrite view_lookup in Hx.
    destruct Hx as (_ & _ & cv & h1 & _ & Hx). simpl in Hx. apply Hx.
Defined.

Lemma report_tag_once_witness :
  let tag := example_sub_tag NEU_TYPE_INT16 5 "1!400001" in
  runs (report_tag 10 60 NEU_TAG_CACHE_TYPE_INTERVAL (example_cache example_i16) "group" tag)
    example_heap (λ '(x, c') h', is_Some x ∧
      runs (report_tag 11 60 NEU_TAG_CACHE_TYPE_INTERVAL c' "group" tag) h'
        (λ r h'', r = (None, c') ∧ h'' = h')).
Proof.
  intros tag. eapply runs_mono; [apply (report_tag_once example_heap (example_cache example_i16)
    "group" tag 10 60 NEU_TAG_CACHE_TYPE_INTERVAL)|].
  - reflexivity.
  - apply (bool_decide_unpack _). by vm_compute.
  - apply example_cache_ok, example_i16_ok.
  - apply example_i16_room.
  - intros s Hs. by apply example_i16_fits.
  - intros [x c'] h' [_ Hx]. rewrite view_lookup in Hx.
    destruct Hx as (y & -> & _ & _ & _ & Hquiet). split; [eauto|]. by apply Hquiet.
Defined.

Definition example_reporter : neu_adapter_driver_t :=
  let t := example_sub_tag NEU_TYPE_INT16 5 "1!400001" in
  {| d_running := true; d_cache := example_cache example_i16; d_tag_cnt := 1;
     d_groups := [with_apps [{| sub_app := "app"; sub_port := 9 |}]
       (with_group {| group_name := "group"; interval := 1000; timestamp := 1; next_tag_order := 1;
          tags := [{| el_name := "tag"; el_tag := t; el_order := 0 |}] |} (default_group "group"))] |}.

Lemma update_im_reports_witness :
  runs (update_im example_pow false 50 NEU_TAG_CACHE_TYPE_INTERVAL example_reporter "group"
          (Some "tag"%string) example_i16 []) example_heap
    (λ '(d', msg) h', ∃ y, msg = Some ([9], [y]) ∧ rm_tag y = "tag"%string).
Proof.
  eapply runs_mono; [eapply (update_im_reports example_pow false 50 NEU_TAG_CACHE_TYPE_INTERVAL
    example_reporter "group" "tag" _ _ example_i16 [] (view_elem example_heap (example_elem example_i16)))|].
  - reflexivity.
  - done.
  - reflexivity.
  - reflexivity.
  - reflexivity.
  - apply (bool_decide_unpack _). by vm_compute.
  - done.
  - done.
  - apply example_cache_ok, example_i16_ok.
  - by rewrite view_lookup.
  - split; [apply example_i16_ok| |done|constructor|simpl; lia|by left].
    intros e p He Hp. by apply not_elem_of_nil in Hp.
  - intros r h1 E e He. vm_compute in E. injection E as <- <-. simpl in He.
    apply list_elem_of_singleton in He as ->. by vm_compute.
  - intros [d' msg] h' (_ & y & s & cv & h1 & -> & Hy & _). by exists y.
Defined.

(** The number 10.03137... in big-endian order, on which the test fires. *)
Lemma nan_test_before_byte_order_witness :
  let tag := example_sub_tag NEU_TYPE_FLOAT 1 "1!400001#BB" in
  let dv := example_dv NEU_TYPE_FLOAT (set_u32 0x7f802041 value_zero) in
  val_u32 (read_order tag (dv_value dv)) = 0x4120807f ∧
  ∃ y, report_tag 6 60 NEU_TAG_CACHE_TYPE_INTERVAL (example_cache dv) "group" tag example_heap =
         Some (Some y, example_cache dv, example_heap) ∧
       rm_value y = error_value NEU_ERR_PLUGIN_TAG_VALUE_EXPIRED attrs_zero.
Proof.
  intros tag dv. split; [vm_compute; reflexivity|].
  apply (nan_test_before_byte_order example_heap (example_cache dv) "group" tag (example_elem dv)).
  - reflexivity.
  - reflexivity.
  - reflexivity.
  - reflexivity.
  - apply union_ok_store; [apply value_zero_ok|lia].
  - vm_compute. reflexivity.
Defined.
