(* ===== verification/Persist.v ===== *)
(** * The database of nodes, groups, tags and subscriptions

    src/persist/sqlite.c over the schema of persistence/*.sql: every function is a
    statement, or a transaction, on five tables.  A table is the list of its rows
    in the order of their [rowid].  The constraints of the schema are those of its
    last version: lengths, ranges, [UNIQUE], and foreign keys with [ON UPDATE
    CASCADE ON DELETE CASCADE], which [PRAGMA foreign_keys=ON] turns on.

    SQLite itself is the class [Sqlite]: the length of a text in characters, the
    number that the text of [%lf] is read back as (the statement is refused when
    the text is not a number), and the order of a [SELECT] without [ORDER BY].
    Errors of the file system are left out: a statement fails only when a
    constraint does. *)

From Stdlib Require Import SpecFloat.
From S2P Require Import Prelude UtHash NeuTypes CFloat Tag Group.

(** ** Tables *)

Record node_row := {
  nr_name : string; nr_type : Z; nr_state : Z; nr_plugin_name : string; nr_tags : option string;
}.
Record setting_row := { st_node : string; st_setting : string }.
Record group_row := {
  gr_driver : string; gr_name : string; gr_interval : Z; gr_context : option string;
}.
Record tag_row := {
  tr_driver : string; tr_group : string; tr_name : string; tr_address : string;
  tr_attribute : Z; tr_precision : Z; tr_type : neu_type_e; tr_decimal : Z; tr_bias : Z;
  tr_description : option string; tr_value : option string; tr_format : string;
  tr_unit : option string;
}.
Record sub_row := {
  sr_app : string; sr_driver : string; sr_group : string; sr_params : option string;
  sr_static_tags : option string;
}.

Record database := {
  db_nodes : list node_row;
  db_settings : list setting_row;
  db_groups : list group_row;
  db_tags : list tag_row;
  db_subs : list sub_row;
}.

Definition group_row_key (r : group_row) : string * string := (gr_driver r, gr_name r).
Definition tag_parent (r : tag_row) : string * string := (tr_driver r, tr_group r).
Definition tag_row_key (r : tag_row) : string * string * string := (tr_driver r, tr_group r, tr_name r).
Definition sub_parent (r : sub_row) : string * string := (sr_driver r, sr_group r).
Definition sub_key (r : sub_row) : string * string * string := (sr_app r, sr_driver r, sr_group r).

Class Sqlite := {
  sql_length : string → Z;
  sql_lf : Z → option Z;
  sql_order : list group_row → list group_row;
}.
Class SqliteOk `(Sqlite) : Prop := {
  sql_length_bytes s : 0 <= sql_length s <= Z.of_nat (String.length s);
  sql_order_perm l : sql_order l ≡ₚ l;
}.

Section Persister.
Context `{SQL : Sqlite}.

(** ** Constraints *)

Definition text_fits (n : Z) (s : string) : bool := sql_length s <=? n.
Definition null_text_fits (n : Z) (s : option string) : bool :=
  match s with Some s => text_fits n s | None => true end.
Definition between (a b x : Z) : bool := (a <=? x) && (x <=? b).

Definition node_check (r : node_row) : bool :=
  text_fits 128 (nr_name r) && between 1 2 (nr_type r) && between 1 4 (nr_state r) &&
  text_fits 32 (nr_plugin_name r).
Definition group_check (r : group_row) : bool :=
  text_fits 128 (gr_name r) && (10 <=? gr_interval r) && null_text_fits 512 (gr_context r).

(** Every [neu_type_e] meets the constraint on [type]. *)
Definition tag_check (r : tag_row) : bool :=
  text_fits 128 (tr_name r) && text_fits 128 (tr_address r) && between 0 15 (tr_attribute r) &&
  between 0 17 (tr_precision r) && null_text_fits 512 (tr_description r) &&
  null_text_fits 128 (tr_unit r).

(** [execute_sql] with the outcome of the statement. *)
Definition execute_sql (db : database) (o : option database) : Z * database :=
  match o with Some db' => (0, db') | None => (NEU_ERR_EINTERNAL, db) end.

(** ** Nodes and settings *)

Definition neu_sqlite_persister_store_node (db : database) (r : node_row) : Z * database :=
  execute_sql db
    (if node_check r && bool_decide (nr_name r ∉ nr_name <$> db_nodes db)
     then Some {| db_nodes := db_nodes db ++ [r]; db_settings := db_settings db;
                  db_groups := db_groups db; db_tags := db_tags db; db_subs := db_subs db |}
     else None).

Definition neu_sqlite_persister_load_nodes (db : database) : list node_row := db_nodes db.

Definition neu_sqlite_persister_delete_node (db : database) (node : string) : Z * database :=
  (0, {| db_nodes := filter (λ r, nr_name r ≠ node) (db_nodes db);
         db_settings := filter (λ r, st_node r ≠ node) (db_settings db);
         db_groups := filter (λ r, gr_driver r ≠ node) (db_groups db);
         db_tags := filter (λ r, tr_driver r ≠ node) (db_tags db);
         db_subs := filter (λ r, sr_app r ≠ node ∧ sr_driver r ≠ node) (db_subs db) |}).

(** The cascade of a new node name. *)
Definition rename_to (old new s : string) : string := if decide (s = old) then new else s.

Definition rename_node_rows (old new : string) (db : database) : database :=
  let f := rename_to old new in
  {| db_nodes := (λ r, {| nr_name := f (nr_name r); nr_type := nr_type r; nr_state := nr_state r;
                          nr_plugin_name := nr_plugin_name r; nr_tags := nr_tags r |})
                   <$> db_nodes db;
     db_settings := (λ r, {| st_node := f (st_node r); st_setting := st_setting r |})
                      <$> db_settings db;
     db_groups := (λ r, {| gr_driver := f (gr_driver r); gr_name := gr_name r;
                           gr_interval := gr_interval r; gr_context := gr_context r |})
                    <$> db_groups db;
     db_tags := (λ r, {| tr_driver := f (tr_driver r); tr_group := tr_group r; tr_name := tr_name r;
                         tr_address := tr_address r; tr_attribute := tr_attribute r;
                         tr_precision := tr_precision r; tr_type := tr_type r;
                         tr_decimal := tr_decimal r; tr_bias := tr_bias r;
                         tr_description := tr_description r; tr_value := tr_value r;
                         tr_format := tr_format r; tr_unit := tr_unit r |}) <$> db_tags db;
     db_subs := (λ r, {| sr_app := f (sr_app r); sr_driver := f (sr_driver r);
                         sr_group := sr_group r; sr_params := sr_params r;
                         sr_static_tags := sr_static_tags r |}) <$> db_subs db |}.

Definition neu_sqlite_persister_update_node (db : database) (node new_name : string)
    : Z * database :=
  execute_sql db
    (if decide (node ∉ nr_name <$> db_nodes db) then Some db
     else if text_fits 128 new_name &&
             (bool_decide (node = new_name) ||
              bool_decide (new_name ∉ nr_name <$> db_nodes db))
     then Some (rename_node_rows node new_name db) else None).

(** [UPDATE nodes SET ...] of columns nothing refers to. *)
Definition update_node_rows (node : string) (f : node_row → node_row) (db : database) : database :=
  {| db_nodes := (λ r, if decide (nr_name r = node) then f r else r) <$> db_nodes db;
     db_settings := db_settings db; db_groups := db_groups db; db_tags := db_tags db;
     db_subs := db_subs db |}.

Definition neu_sqlite_persister_update_node_tags (db : database) (node : string)
    (tags : option string) : Z * database :=
  (0, update_node_rows node (λ r, {| nr_name := nr_name r; nr_type := nr_type r;
        nr_state := nr_state r; nr_plugin_name := nr_plugin_name r; nr_tags := tags |}) db).

Definition neu_sqlite_persister_update_node_state (db : database) (node : string) (state : Z)
    : Z * database :=
  execute_sql db
    (if decide (node ∉ nr_name <$> db_nodes db) then Some db
     else if between 1 4 state
     then Some (update_node_rows node (λ r, {| nr_name := nr_name r; nr_type := nr_type r;
                  nr_state := state; nr_plugin_name := nr_plugin_name r; nr_tags := nr_tags r |}) db)
     else None).

Definition with_settings (l : list setting_row) (db : database) : database :=
  {| db_nodes := db_nodes db; db_settings := l; db_groups := db_groups db;
     db_tags := db_tags db; db_subs := db_subs db |}.

(** [INSERT OR REPLACE] *)
Definition neu_sqlite_persister_store_node_setting (db : database) (node setting : string)
    : Z * database :=
  execute_sql db
    (if decide (node ∈ nr_name <$> db_nodes db)
     then Some (with_settings (filter (λ r, st_node r ≠ node) (db_settings db) ++
                  [{| st_node := node; st_setting := setting |}]) db)
     else None).

Definition neu_sqlite_persister_load_node_setting (db : database) (node : string) : option string :=
  st_setting <$> hash_find st_node node (db_settings db).

Definition neu_sqlite_persister_delete_node_setting (db : database) (node : string)
    : Z * database :=
  (0, with_settings (filter (λ r, st_node r ≠ node) (db_settings db)) db).

(** ** Groups *)

Definition neu_sqlite_persister_store_group (db : database) (driver name : string) (interval : Z)
    (context : option string) : Z * database :=
  let r := {| gr_driver := driver; gr_name := name; gr_interval := u32 interval;
              gr_context := context |} in
  execute_sql db
    (if group_check r && bool_decide (driver ∈ nr_name <$> db_nodes db) &&
        bool_decide (group_row_key r ∉ group_row_key <$> db_groups db)
     then Some {| db_nodes := db_nodes db; db_settings := db_settings db;
                  db_groups := db_groups db ++ [r]; db_tags := db_tags db; db_subs := db_subs db |}
     else None).

(** The row of a group with a new name or interval, and the cascade. *)
Definition update_group_rows (driver name : string) (f : group_row → group_row) (new_name : string)
    (db : database) : database :=
  {| db_nodes := db_nodes db; db_settings := db_settings db;
     db_groups := (λ r, if decide (group_row_key r = (driver, name)) then f r else r) <$> db_groups db;
     db_tags := (λ r, if decide (tag_parent r = (driver, name)) then
                   {| tr_driver := tr_driver r; tr_group := new_name; tr_name := tr_name r;
                      tr_address := tr_address r; tr_attribute := tr_attribute r;
                      tr_precision := tr_precision r; tr_type := tr_type r;
                      tr_decimal := tr_decimal r; tr_bias := tr_bias r;
                      tr_description := tr_description r; tr_value := tr_value r;
                      tr_format := tr_format r; tr_unit := tr_unit r |} else r) <$> db_tags db;
     db_subs := (λ r, if decide (sub_parent r = (driver, name)) then
                   {| sr_app := sr_app r; sr_driver := sr_driver r; sr_group := new_name;
                      sr_params := sr_params r; sr_static_tags := sr_static_tags r |} else r)
                  <$> db_subs db |}.

Definition update_group (driver name new_name : string) (interval : option Z) (db : database)
    : option database :=
  match hash_find group_row_key (driver, name) (db_groups db) with
  | None => Some db
  | Some r =>
      let f r := {| gr_driver := gr_driver r; gr_name := new_name;
                    gr_interval := default (gr_interval r) interval;
                    gr_context := gr_context r |} in
      if group_check (f r) &&
         (bool_decide (name = new_name) ||
          bool_decide ((driver, new_name) ∉ group_row_key <$> db_groups db))
      then Some (update_group_rows driver name f new_name db) else None
  end.

(** [interval=%i] prints the 32-bit interval as a signed number; with nothing to
    update the function returns -1. *)
Definition neu_sqlite_persister_update_group (db : database) (driver name new_name : string)
    (interval : Z) : Z * database :=
  let update_name := negb (bool_decide (name = new_name)) in
  let update_interval := 30 <=? interval in
  if update_name && update_interval
  then execute_sql db (update_group driver name new_name (Some (s32 interval)) db)
  else if update_name then execute_sql db (update_group driver name new_name None db)
  else if update_interval
  then execute_sql db (update_group driver name name (Some (s32 interval)) db)
  else (-1, db).

(** The rows of a driver; [sqlite3_column_int] is the low 32 bits. *)
Definition neu_sqlite_persister_load_groups (db : database) (driver : string) : list group_row :=
  sql_order (filter (λ r, gr_driver r = driver) (db_groups db)).

Definition neu_sqlite_persister_delete_group (db : database) (driver name : string)
    : Z * database :=
  (0, {| db_nodes := db_nodes db; db_settings := db_settings db;
         db_groups := filter (λ r, group_row_key r ≠ (driver, name)) (db_groups db);
         db_tags := filter (λ r, tag_parent r ≠ (driver, name)) (db_tags db);
         db_subs := filter (λ r, sub_parent r ≠ (driver, name)) (db_subs db) |}).

(** ** Tags *)

Definition with_tags (l : list tag_row) (db : database) : database :=
  {| db_nodes := db_nodes db; db_settings := db_settings db; db_groups := db_groups db;
     db_tags := l; db_subs := db_subs db |}.

Definition format_column (t : neu_datatag_t) : string :=
  if 0 <? tag_n_format t then neu_tag_format_str t else EmptyString.

Definition row_of_tag (driver group : string) (t : neu_datatag_t) (decimal bias : Z)
    (value : option string) : tag_row :=
  {| tr_driver := driver; tr_group := group; tr_name := tag_name t; tr_address := tag_address t;
     tr_attribute := tag_attribute t; tr_precision := tag_precision t; tr_type := tag_type t;
     tr_decimal := decimal; tr_bias := bias; tr_description := tag_description t;
     tr_value := value; tr_format := format_column t; tr_unit := tag_unit t |}.

Definition insert_tag (r : tag_row) (db : database) : option database :=
  if tag_check r && bool_decide (tag_parent r ∈ group_row_key <$> db_groups db) &&
     bool_decide (tag_row_key r ∉ tag_row_key <$> db_tags db)
  then Some (with_tags (db_tags db ++ [r]) db) else None.

(** The scale factor and the bias go through the text of the statement. *)
Definition neu_sqlite_persister_store_tag (db : database) (driver group : string)
    (t : neu_datatag_t) : Z * database :=
  execute_sql db
    (decimal ← sql_lf (tag_decimal t);
     bias ← sql_lf (tag_bias t);
     insert_tag (row_of_tag driver group t decimal bias (Some EmptyString)) db).

(** [sqlite3_bind_double]: a NaN is stored as [NULL], which the columns do not
    accept. *)
Definition bind_double (bits : Z) : option Z :=
  if sf_is_nan (d64_of_bits bits) then None else Some bits.

Fixpoint put_tags (driver group : string) (ts : list neu_datatag_t) (db : database)
    : option database :=
  match ts with
  | [] => Some db
  | t :: ts' =>
      decimal ← bind_double (tag_decimal t);
      bias ← bind_double (tag_bias t);
      db ← insert_tag (row_of_tag driver group t decimal bias None) db;
      put_tags driver group ts' db
  end.

(** The transaction is rolled back when a row is refused. *)
Definition neu_sqlite_persister_store_tags (db : database) (driver group : string)
    (ts : list neu_datatag_t) : Z * database :=
  execute_sql db (put_tags driver group ts db).

(** One row of [collect_tag_info]. *)
Definition tag_of_row (r : tag_row) : neu_datatag_t :=
  let '(n, fs) := neu_format_from_str (Some (tr_format r)) in
  {| tag_name := tr_name r; tag_address := tr_address r; tag_attribute := tr_attribute r;
     tag_type := tr_type r; tag_precision := u8 (tr_precision r); tag_decimal := tr_decimal r;
     tag_bias := tr_bias r; tag_description := tr_description r; tag_unit := tr_unit r;
     tag_option := addr_option_zero; tag_meta := replicate 20 0;
     tag_format := fs ++ replicate (NEU_TAG_FORMAT_LENGTH - length fs) 0; tag_n_format := u8 n |}.

Definition neu_sqlite_persister_load_tags (db : database) (driver group : string)
    : list neu_datatag_t :=
  tag_of_row <$> filter (λ r, tag_parent r = (driver, group)) (db_tags db).

(** [UPDATE tags SET ...] of the row of a tag. *)
Definition update_tag_rows (driver group name : string) (f : tag_row → tag_row) (db : database)
    : database :=
  with_tags ((λ r, if decide (tag_row_key r = (driver, group, name)) then f r else r) <$> db_tags db) db.

(** The format is not among the columns. *)
Definition neu_sqlite_persister_update_tag (db : database) (driver group : string)
    (t : neu_datatag_t) : Z * database :=
  execute_sql db
    (decimal ← sql_lf (tag_decimal t);
     bias ← sql_lf (tag_bias t);
     if decide ((driver, group, tag_name t) ∉ tag_row_key <$> db_tags db) then Some db
     else if tag_check (row_of_tag driver group t decimal bias (Some EmptyString))
     then Some (update_tag_rows driver group (tag_name t)
                  (λ r, {| tr_driver := tr_driver r; tr_group := tr_group r; tr_name := tr_name r;
                           tr_address := tag_address t; tr_attribute := tag_attribute t;
                           tr_precision := tag_precision t; tr_type := tag_type t;
                           tr_decimal := decimal; tr_bias := bias;
                           tr_description := tag_description t; tr_value := Some EmptyString;
                           tr_format := tr_format r; tr_unit := tag_unit t |}) db)
     else None).

Definition neu_sqlite_persister_update_tag_value (db : database) (driver group name : string)
    : Z * database :=
  (0, update_tag_rows driver group name
        (λ r, {| tr_driver := tr_driver r; tr_group := tr_group r; tr_name := tr_name r;
                 tr_address := tr_address r; tr_attribute := tr_attribute r;
                 tr_precision := tr_precision r; tr_type := tr_type r;
                 tr_decimal := tr_decimal r; tr_bias := tr_bias r;
                 tr_description := tr_description r; tr_value := Some EmptyString;
                 tr_format := tr_format r; tr_unit := tr_unit r |}) db).

Definition neu_sqlite_persister_delete_tag (db : database) (driver group name : string)
    : Z * database :=
  (0, with_tags (filter (λ r, tag_row_key r ≠ (driver, group, name)) (db_tags db)) db).

Definition rename_tag_row (name : string) (r : tag_row) : tag_row :=
  {| tr_driver := tr_driver r; tr_group := tr_group r; tr_name := name;
     tr_address := tr_address r; tr_attribute := tr_attribute r; tr_precision := tr_precision r;
     tr_type := tr_type r; tr_decimal := tr_decimal r; tr_bias := tr_bias r;
     tr_description := tr_description r; tr_value := tr_value r; tr_format := tr_format r;
     tr_unit := tr_unit r |}.

Definition neu_sqlite_persister_rename_tag (db : database) (driver group old_name new_name : string)
    : Z * database :=
  execute_sql db
    (if decide ((driver, group, old_name) ∉ tag_row_key <$> db_tags db) then Some db
     else if text_fits 128 new_name &&
             (bool_decide (old_name = new_name) ||
              bool_decide ((driver, group, new_name) ∉ tag_row_key <$> db_tags db))
     then Some (update_tag_rows driver group old_name (rename_tag_row new_name) db)
     else None).

(** ** Subscriptions *)

Definition with_subs (l : list sub_row) (db : database) : database :=
  {| db_nodes := db_nodes db; db_settings := db_settings db; db_groups := db_groups db;
     db_tags := db_tags db; db_subs := l |}.

Definition neu_sqlite_persister_store_subscription (db : database) (r : sub_row) : Z * database :=
  execute_sql db
    (if bool_decide (sr_app r ≠ sr_driver r) && bool_decide (sr_app r ∈ nr_name <$> db_nodes db) &&
        bool_decide (sub_parent r ∈ group_row_key <$> db_groups db) &&
        bool_decide (sub_key r ∉ sub_key <$> db_subs db)
     then Some (with_subs (db_subs db ++ [r]) db) else None).

Definition neu_sqlite_persister_update_subscription (db : database) (n : sub_row) : Z * database :=
  (0, with_subs ((λ r, if decide (sub_key r = sub_key n) then
                         {| sr_app := sr_app r; sr_driver := sr_driver r; sr_group := sr_group r;
                            sr_params := sr_params n; sr_static_tags := sr_static_tags n |}
                       else r) <$> db_subs db) db).

Definition neu_sqlite_persister_load_subscriptions (db : database) (app : string) : list sub_row :=
  filter (λ r, sr_app r = app) (db_subs db).

Definition neu_sqlite_persister_delete_subscription (db : database) (app driver group : string)
    : Z * database :=
  (0, with_subs (filter (λ r, sub_key r ≠ (app, driver, group)) (db_subs db)) db).
End Persister.

(** ** Integrity

    Keys are unique, every reference has its target and every row meets the
    constraints on its columns. *)

Record db_ok `{Sqlite} (db : database) : Prop := {
  dok_nodes : table_ok nr_name (db_nodes db);
  dok_settings : table_ok st_node (db_settings db);
  dok_groups : table_ok group_row_key (db_groups db);
  dok_tags : table_ok tag_row_key (db_tags db);
  dok_subs : table_ok sub_key (db_subs db);
  dok_setting_node : ∀ r, r ∈ db_settings db → st_node r ∈ nr_name <$> db_nodes db;
  dok_group_node : ∀ r, r ∈ db_groups db → gr_driver r ∈ nr_name <$> db_nodes db;
  dok_tag_group : ∀ r, r ∈ db_tags db → tag_parent r ∈ group_row_key <$> db_groups db;
  dok_sub_node : ∀ r, r ∈ db_subs db → sr_app r ∈ nr_name <$> db_nodes db;
  dok_sub_group : ∀ r, r ∈ db_subs db → sub_parent r ∈ group_row_key <$> db_groups db;
  dok_sub_apps : ∀ r, r ∈ db_subs db → sr_app r ≠ sr_driver r;
  dok_node_check : ∀ r, r ∈ db_nodes db → node_check r = true;
  dok_group_check : ∀ r, r ∈ db_groups db → group_check r = true;
  dok_tag_check : ∀ r, r ∈ db_tags db → tag_check r = true;
}.

Section Tables.
Context {K A : Type} `{EqDecision K} (key : A → K).

Lemma table_ok_snoc r l : table_ok key l → key r ∉ key <$> l → table_ok key (l ++ [r]).
Proof. intros Hl Hr. apply (table_ok_add key r l Hl). by apply hash_find_None. Qed.

Lemma table_ok_filter (P : A → Prop) `{∀ x, Decision (P x)} l :
  table_ok key l → table_ok key (filter P l).
Proof. apply table_ok_sublist. apply sublist_filter. Qed.

Lemma table_ok_map (f : A → A) l :
  table_ok key l → (∀ x y, x ∈ l → y ∈ l → key (f x) = key (f y) → key x = key y) →
  table_ok key (f <$> l).
Proof.
  unfold table_ok. intros Hl Hf. induction l as [|x l IH]; csimpl; [constructor|].
  apply NoDup_cons in Hl as [Hx Hl]. apply NoDup_cons. split.
  - rewrite <-list_fmap_compose, list_elem_of_fmap. intros (y & Hy & Hin). apply Hx.
    rewrite (Hf x y) by (set_solver || done). by apply list_elem_of_fmap_2.
  - apply IH; [done|]. intros y z Hy Hz. apply Hf; set_solver.
Qed.

Lemma table_ok_map_same (f : A → A) l :
  table_ok key l → (∀ x, key (f x) = key x) → table_ok key (f <$> l).
Proof. intros Hl Hf. apply table_ok_map; [done|]. intros x y _ _. by rewrite !Hf. Qed.

Lemma key_elem x (l : list A) : x ∈ l → key x ∈ key <$> l.
Proof. apply list_elem_of_fmap_2. Qed.
End Tables.

Lemma rename_to_inj old new (names : list string) x y :
  (old = new ∨ (new ∉ names)) → x ∈ names → y ∈ names →
  rename_to old new x = rename_to old new y → x = y.
Proof. unfold rename_to. intros [<-|Hn] Hx Hy; repeat case_decide; congruence. Qed.

Lemma elem_rename old new x (names : list string) : x ∈ names → rename_to old new x ∈ rename_to old new <$> names.
Proof. apply list_elem_of_fmap_2. Qed.

Lemma elem_key_ext {K A} (key key' : A → K) (f : A → A) (l : list A) :
  (∀ x, key (f x) = key' x) → key <$> (f <$> l) = key' <$> l.
Proof. intros Hf. rewrite <-list_fmap_compose. apply list_fmap_ext. intros i x _. apply Hf. Qed.

(** The key of a row that is kept by a filter is kept. *)
Lemma key_filter {K A} (key : A → K) (P : A → Prop) `{∀ x, Decision (P x)} k (l : list A) :
  (∀ x, x ∈ l → key x = k → P x) → k ∈ key <$> l → k ∈ key <$> filter P l.
Proof.
  intros HP (x & -> & Hx)%list_elem_of_fmap. apply key_elem, list_elem_of_filter. auto.
Qed.

Section Integrity.
Context `{SQL : Sqlite}.

Lemma db_ok_with_tags l db :
  db_ok db → table_ok tag_row_key l →
  (∀ r, r ∈ l → tag_parent r ∈ group_row_key <$> db_groups db ∧ tag_check r = true) →
  db_ok (with_tags l db).
Proof. intros [] Hl Hr. split; try done; intros r Hin; by destruct (Hr r Hin). Qed.

Lemma tag_row_ok r db :
  db_ok db → r ∈ db_tags db → tag_parent r ∈ group_row_key <$> db_groups db ∧ tag_check r = true.
Proof. intros [] Hr. auto. Qed.

Lemma db_ok_with_subs l db :
  db_ok db → table_ok sub_key l →
  (∀ r, r ∈ l → sr_app r ∈ nr_name <$> db_nodes db ∧ sr_app r ≠ sr_driver r ∧
                sub_parent r ∈ group_row_key <$> db_groups db) → db_ok (with_subs l db).
Proof. intros [] Hl Hr. split; try done; intros r Hin; by destruct (Hr r Hin) as (?&?&?). Qed.

Lemma sub_row_ok r db :
  db_ok db → r ∈ db_subs db → sr_app r ∈ nr_name <$> db_nodes db ∧ sr_app r ≠ sr_driver r ∧
    sub_parent r ∈ group_row_key <$> db_groups db.
Proof. intros [] Hr. auto. Qed.

Lemma db_ok_with_settings l db :
  db_ok db → table_ok st_node l →
  (∀ r, r ∈ l → st_node r ∈ nr_name <$> db_nodes db) → db_ok (with_settings l db).
Proof. intros [] Hl Hr. by split. Qed.

Lemma db_ok_update_node_rows node f db :
  db_ok db → (∀ r, nr_name (f r) = nr_name r) →
  (∀ r, node_check r = true → node_check (f r) = true) → db_ok (update_node_rows node f db).
Proof.
  intros [] Hf Hck. set (g := λ r, if decide (nr_name r = node) then f r else r).
  assert (Hg : ∀ r, nr_name (g r) = nr_name r) by (intros r; unfold g; case_decide; auto).
  assert (Hn : nr_name <$> (g <$> db_nodes db) = nr_name <$> db_nodes db) by (by apply elem_key_ext).
  split; simpl; fold g; rewrite ?Hn; try done; [by apply table_ok_map_same|].
  intros r (x & -> & Hx)%list_elem_of_fmap. unfold g. case_decide; auto.
Qed.

Lemma db_ok_update_tag_rows driver group name f db :
  db_ok db → (∀ r, tag_parent (f r) = tag_parent r) →
  (∀ r, r ∈ db_tags db → tag_row_key r = (driver, group, name) → tag_check (f r) = true) →
  (∀ r r', r ∈ db_tags db → r' ∈ db_tags db → tag_row_key r = (driver, group, name) →
     tag_row_key r' ≠ (driver, group, name) → tag_row_key (f r) ≠ tag_row_key r') →
  db_ok (update_tag_rows driver group name f db).
Proof.
  intros Hdb Hp Hck Hk. apply db_ok_with_tags; [done| |].
  - apply table_ok_map; [apply Hdb|]. intros x y Hx Hy.
    destruct (decide (tag_row_key x = _)) as [Ex|Ex], (decide (tag_row_key y = _)) as [Ey|Ey];
      try congruence.
    + intros E. by destruct (Hk x y Hx Hy Ex Ey).
    + intros E. by destruct (Hk y x Hy Hx Ey Ex).
  - intros r (x & -> & Hx)%list_elem_of_fmap. destruct (tag_row_ok x db Hdb Hx).
    case_decide; rewrite ?Hp; auto.
Qed.

Lemma db_ok_update_tag_columns driver group name f db :
  db_ok db → (∀ r, tag_row_key (f r) = tag_row_key r) →
  (∀ r, r ∈ db_tags db → tag_row_key r = (driver, group, name) → tag_check (f r) = true) →
  db_ok (update_tag_rows driver group name f db).
Proof.
  intros Hdb Hf Hck. apply db_ok_update_tag_rows; [done| |done|].
  - intros r. specialize (Hf r). unfold tag_row_key, tag_parent in *. congruence.
  - intros r r' _ _ Hr Hr'. rewrite Hf. congruence.
Qed.

Lemma insert_tag_ok r db db' : insert_tag r db = Some db' → db_ok db → db_ok db'.
Proof.
  unfold insert_tag. intros E Hdb. destruct (_ && _) eqn:Hc; simplify_eq.
  apply andb_prop in Hc as [[Hck Hp%bool_decide_eq_true_1]%andb_prop Hk%bool_decide_eq_true_1].
  apply db_ok_with_tags; [done| |].
  - apply table_ok_snoc; [apply Hdb|done].
  - intros x [Hx| ->%list_elem_of_singleton]%elem_of_app; [by apply tag_row_ok|done].
Qed.

Lemma put_tags_ok driver group ts db db' :
  put_tags driver group ts db = Some db' → db_ok db → db_ok db'.
Proof.
  revert db. induction ts as [|t ts IH]; simpl; intros db; [by intros [= <-]|].
  destruct (bind_double (tag_decimal t)) as [dec|]; simpl; [|done].
  destruct (bind_double (tag_bias t)) as [bias|]; simpl; [|done].
  destruct (insert_tag _ db) as [db1|] eqn:E; simpl; [|done]. intros Hp Hdb.
  eapply IH; [done|]. by eapply insert_tag_ok.
Qed.

Lemma db_ok_delete_node node db : db_ok db → db_ok (neu_sqlite_persister_delete_node db node).2.
Proof.
  intros []. split; simpl; try (by apply table_ok_filter);
    intros r Hr; apply list_elem_of_filter in Hr as [Hn Hr].
  - apply key_filter; [naive_solver|auto].
  - apply key_filter; [naive_solver|auto].
  - apply key_filter; [|auto]. intros x _ Hx. injection Hx as Hx1 _. congruence.
  - apply key_filter; [naive_solver|auto].
  - apply key_filter; [|auto]. intros x _ Hx. injection Hx as Hx1 _. destruct Hn. congruence.
  - auto.
  - auto.
  - auto.
  - auto.
Qed.

Lemma db_ok_delete_group driver name db :
  db_ok db → db_ok (neu_sqlite_persister_delete_group db driver name).2.
Proof.
  intros []. split; simpl; try done; try (by apply table_ok_filter);
    intros r Hr; apply list_elem_of_filter in Hr as [Hn Hr]; auto.
  - apply key_filter; [congruence|auto].
  - apply key_filter; [congruence|auto].
Qed.

Lemma db_ok_rename_node old new db :
  db_ok db → old = new ∨ (new ∉ nr_name <$> db_nodes db) → text_fits 128 new = true →
  db_ok (rename_node_rows old new db).
Proof.
  intros [] Hnew Hfit. set (f := rename_to old new). set (names := nr_name <$> db_nodes db) in *.
  assert (Hinj : ∀ x y, x ∈ names → y ∈ names → f x = f y → x = y).
  { intros x y Hx Hy. by apply (rename_to_inj old new names). }
  assert (Hdrv : ∀ p, p ∈ group_row_key <$> db_groups db → p.1 ∈ names).
  { intros p (r & -> & Hr)%list_elem_of_fmap. by apply dok_group_node0. }
  assert (Htag : ∀ r, r ∈ db_tags db → tr_driver r ∈ names).
  { intros r Hr. apply (Hdrv (tag_parent r)). auto. }
  assert (Hsub : ∀ r, r ∈ db_subs db → sr_driver r ∈ names).
  { intros r Hr. apply (Hdrv (sub_parent r)). auto. }
  assert (Hn : ∀ x, x ∈ names → f x ∈ nr_name <$> db_nodes (rename_node_rows old new db)).
  { intros x (r & -> & Hr)%list_elem_of_fmap. simpl. rewrite <-list_fmap_compose.
    apply list_elem_of_fmap. by exists r. }
  assert (Hg : ∀ p, p ∈ group_row_key <$> db_groups db →
                 (f p.1, p.2) ∈ group_row_key <$> db_groups (rename_node_rows old new db)).
  { intros p (r & -> & Hr)%list_elem_of_fmap. simpl. rewrite <-list_fmap_compose.
    apply list_elem_of_fmap. by exists r. }
  split.
  - apply table_ok_map; [done|]. intros x y Hx Hy. apply Hinj; by apply key_elem.
  - apply table_ok_map; [done|]. intros x y Hx Hy. by apply Hinj; apply dok_setting_node0.
  - apply table_ok_map; [done|]. unfold group_row_key. simpl. intros x y Hx Hy [= H1 ->].
    by rewrite (Hinj (gr_driver x) (gr_driver y)) by auto.
  - apply table_ok_map; [done|]. intros x y Hx Hy. unfold tag_row_key. simpl. intros [= H1 -> ->].
    by rewrite (Hinj (tr_driver x) (tr_driver y)) by auto.
  - apply table_ok_map; [done|]. unfold sub_key. simpl. intros x y Hx Hy [= H1 H2 ->].
    rewrite (Hinj (sr_app x) (sr_app y)) by auto.
    by rewrite (Hinj (sr_driver x) (sr_driver y)) by auto.
  - intros r (x & -> & Hx)%list_elem_of_fmap. apply Hn. auto.
  - intros r (x & -> & Hx)%list_elem_of_fmap. apply Hn. auto.
  - intros r (x & -> & Hx)%list_elem_of_fmap. apply (Hg (tag_parent x)). auto.
  - intros r (x & -> & Hx)%list_elem_of_fmap. apply Hn. auto.
  - intros r (x & -> & Hx)%list_elem_of_fmap. apply (Hg (sub_parent x)). auto.
  - intros r (x & -> & Hx)%list_elem_of_fmap Heq. simpl in Heq.
    apply (dok_sub_apps0 x Hx). apply Hinj; auto.
  - intros r (x & -> & Hx)%list_elem_of_fmap. apply dok_node_check0 in Hx.
    unfold node_check in *. simpl. unfold rename_to. case_decide; [|done].
    rewrite !andb_true_iff in *. intuition.
  - intros r (x & -> & Hx)%list_elem_of_fmap. by apply (dok_group_check0 x).
  - intros r (x & -> & Hx)%list_elem_of_fmap. by apply (dok_tag_check0 x).
Qed.

Lemma db_ok_update_group_rows driver name f new_name db :
  db_ok db → name = new_name ∨ ((driver, new_name) ∉ group_row_key <$> db_groups db) →
  (∀ r, group_row_key (f r) = (gr_driver r, new_name)) →
  (∀ r, r ∈ db_groups db → group_row_key r = (driver, name) → group_check (f r) = true) →
  db_ok (update_group_rows driver name f new_name db).
Proof.
  intros [] Hnew Hf Hck. set (keys := group_row_key <$> db_groups db) in *.
  set (re := λ p : string * string, if decide (p = (driver, name)) then (p.1, new_name) else p).
  assert (Hinj : ∀ p q, p ∈ keys → q ∈ keys → re p = re q → p = q).
  { intros p q Hp Hq. unfold re. repeat case_decide; subst; simpl; try done;
      destruct Hnew as [<-|Hnew]; congruence. }
  assert (Hk : ∀ r, group_row_key (if decide (group_row_key r = (driver, name)) then f r else r)
                    = re (group_row_key r)).
  { intros r. unfold re. case_decide; [by rewrite Hf|done]. }
  assert (Hg : ∀ p, p ∈ keys →
                 re p ∈ group_row_key <$> db_groups (update_group_rows driver name f new_name db)).
  { intros p (r & -> & Hr)%list_elem_of_fmap. simpl. rewrite <-list_fmap_compose.
    apply list_elem_of_fmap. exists r. split; [|done]. simpl. by rewrite Hk. }
  split; try done.
  - apply table_ok_map; [done|]. intros x y Hx Hy. rewrite !Hk. apply Hinj; by apply key_elem.
  - apply table_ok_map; [done|]. intros x y Hx Hy Heq.
    assert (tag_parent x = tag_parent y).
    { apply Hinj; [auto..|]. unfold re. unfold tag_row_key, tag_parent in *.
      repeat case_decide; simpl in *; congruence. }
    unfold tag_row_key, tag_parent in *. repeat case_decide; simpl in *; congruence.
  - apply table_ok_map; [done|]. intros x y Hx Hy Heq.
    assert (sub_parent x = sub_parent y).
    { apply Hinj; [auto..|]. unfold re. unfold sub_key, sub_parent in *.
      repeat case_decide; simpl in *; congruence. }
    unfold sub_key, sub_parent in *. repeat case_decide; simpl in *; congruence.
  - intros r (x & -> & Hx)%list_elem_of_fmap. case_decide; [|auto].
    specialize (Hf x). unfold group_row_key in Hf. injection Hf as -> _. auto.
  - intros r (x & -> & Hx)%list_elem_of_fmap.
    replace (tag_parent _) with (re (tag_parent x)); [auto|].
    unfold re. by case_decide.
  - intros r (x & -> & Hx)%list_elem_of_fmap. case_decide; simpl; auto.
  - intros r (x & -> & Hx)%list_elem_of_fmap.
    replace (sub_parent _) with (re (sub_parent x)); [auto|].
    unfold re. by case_decide.
  - intros r (x & -> & Hx)%list_elem_of_fmap. case_decide; simpl; auto.
  - intros r (x & -> & Hx)%list_elem_of_fmap. case_decide; auto.
  - intros r (x & -> & Hx)%list_elem_of_fmap. case_decide; by apply (dok_tag_check0 x).
Qed.

Lemma update_group_statement_ok driver name new_name itv db db' :
  update_group driver name new_name itv db = Some db' → db_ok db → db_ok db'.
Proof.
  unfold update_group. destruct (hash_find _ _ _) as [r|] eqn:Hf; [|by intros [= <-]].
  destruct (_ && _) eqn:Hc; intros [= <-] Hdb.
  apply andb_prop in Hc as [Hck Hc].
  assert (Hrow : ∀ x, x ∈ db_groups db → group_row_key x = (driver, name) → x = r).
  { intros x Hx Hk. apply hash_find_Some in Hf as [Hr Hk'].
    apply (table_ok_inj group_row_key (db_groups db)); [apply Hdb|done..|congruence]. }
  apply db_ok_update_group_rows; [done| |done|].
  - apply orb_prop in Hc as [Hc|Hc]; apply bool_decide_eq_true_1 in Hc; auto.
  - intros x Hx Hk. by rewrite (Hrow x Hx Hk).
Qed.
End Integrity.

(** ** The operations that change the five tables

    The statements of sqlite.c on users, certificates, policies and properties of
    nodes are not among them. *)

Inductive persister_op :=
  | PStoreNode (r : node_row) | PDeleteNode (node : string) | PUpdateNode (node new_name : string)
  | PUpdateNodeTags (node : string) (tags : option string)
  | PUpdateNodeState (node : string) (state : Z)
  | PStoreSetting (node setting : string) | PDeleteSetting (node : string)
  | PStoreGroup (driver name : string) (interval : Z) (context : option string)
  | PUpdateGroup (driver name new_name : string) (interval : Z)
  | PDeleteGroup (driver name : string)
  | PStoreTag (driver group : string) (t : neu_datatag_t)
  | PStoreTags (driver group : string) (ts : list neu_datatag_t)
  | PUpdateTag (driver group : string) (t : neu_datatag_t)
  | PUpdateTagValue (driver group name : string) | PDeleteTag (driver group name : string)
  | PRenameTag (driver group old_name new_name : string)
  | PStoreSub (r : sub_row) | PUpdateSub (r : sub_row) | PDeleteSub (app driver group : string).

Section Run.
Context `{SQL : Sqlite}.

Definition run_persister (op : persister_op) (db : database) : Z * database :=
  match op with
  | PStoreNode r => neu_sqlite_persister_store_node db r
  | PDeleteNode node => neu_sqlite_persister_delete_node db node
  | PUpdateNode node new_name => neu_sqlite_persister_update_node db node new_name
  | PUpdateNodeTags node tags => neu_sqlite_persister_update_node_tags db node tags
  | PUpdateNodeState node state => neu_sqlite_persister_update_node_state db node state
  | PStoreSetting node setting => neu_sqlite_persister_store_node_setting db node setting
  | PDeleteSetting node => neu_sqlite_persister_delete_node_setting db node
  | PStoreGroup driver name interval context =>
      neu_sqlite_persister_store_group db driver name interval context
  | PUpdateGroup driver name new_name interval =>
      neu_sqlite_persister_update_group db driver name new_name interval
  | PDeleteGroup driver name => neu_sqlite_persister_delete_group db driver name
  | PStoreTag driver group t => neu_sqlite_persister_store_tag db driver group t
  | PStoreTags driver group ts => neu_sqlite_persister_store_tags db driver group ts
  | PUpdateTag driver group t => neu_sqlite_persister_update_tag db driver group t
  | PUpdateTagValue driver group name => neu_sqlite_persister_update_tag_value db driver group name
  | PDeleteTag driver group name => neu_sqlite_persister_delete_tag db driver group name
  | PRenameTag driver group o n => neu_sqlite_persister_rename_tag db driver group o n
  | PStoreSub r => neu_sqlite_persister_store_subscription db r
  | PUpdateSub r => neu_sqlite_persister_update_subscription db r
  | PDeleteSub app driver group => neu_sqlite_persister_delete_subscription db app driver group
  end.

(** What a statement has to satisfy: the tables it leaves are consistent. *)
Lemma execute_sql_ok db o :
  db_ok db → (∀ db', o = Some db' → db_ok db') →
  db_ok (execute_sql db o).2 ∧ ((execute_sql db o).1 ≠ 0 → (execute_sql db o).2 = db).
Proof. intros Hdb Ho. destruct o as [db'|]; simpl; [split; [by apply Ho|done]|done]. Qed.

Lemma node_statements_ok op db :
  match op with
  | PStoreNode _ | PDeleteNode _ | PUpdateNode _ _ | PUpdateNodeTags _ _ | PUpdateNodeState _ _
  | PStoreSetting _ _ | PDeleteSetting _ => True
  | _ => False
  end → db_ok db →
  db_ok (run_persister op db).2 ∧ ((run_persister op db).1 ≠ 0 → (run_persister op db).2 = db).
Proof.
  intros Hop Hdb. destruct op; try done; clear Hop; simpl run_persister.
  - apply execute_sql_ok; [done|]. intros db'. destruct (_ && _) eqn:Hc; intros [= <-].
    apply andb_prop in Hc as [Hck Hn%bool_decide_eq_true_1]. destruct Hdb.
    split; simpl; try done; [by apply table_ok_snoc|..];
      try (intros x Hx; rewrite fmap_app; apply elem_of_app; left; by auto).
    intros x [Hx| ->%list_elem_of_singleton]%elem_of_app; [auto|done].
  - split; [by apply db_ok_delete_node|done].
  - apply execute_sql_ok; [done|]. intros db'. case_decide; [by intros [= <-]|].
    destruct (_ && _) eqn:Hc; intros [= <-].
    apply andb_prop in Hc as [Hfit [H'|H']%orb_prop]; apply bool_decide_eq_true_1 in H';
      apply db_ok_rename_node; auto.
  - split; [by apply db_ok_update_node_rows|done].
  - apply execute_sql_ok; [done|]. intros db'. case_decide; [by intros [= <-]|].
    destruct (between 1 4 state) eqn:Hb; intros [= <-]. apply db_ok_update_node_rows; [done..|].
    intros r. unfold node_check. simpl. rewrite !andb_true_iff, Hb. intuition.
  - apply execute_sql_ok; [done|]. intros db'. case_decide; intros [= <-].
    apply db_ok_with_settings; [done| |].
    + apply table_ok_snoc; [apply table_ok_filter, Hdb|].
      intros (x & Hx & [? _]%list_elem_of_filter)%list_elem_of_fmap. by rewrite <-Hx in *.
    + intros r [[_ Hr]%list_elem_of_filter| ->%list_elem_of_singleton]%elem_of_app; [|done].
      by apply Hdb.
  - split; [|done]. apply db_ok_with_settings; [done|apply table_ok_filter, Hdb|].
    intros r [_ Hr]%list_elem_of_filter. by apply Hdb.
Qed.

Lemma tag_statements_ok op db :
  match op with
  | PStoreTag _ _ _ | PStoreTags _ _ _ | PUpdateTag _ _ _ | PUpdateTagValue _ _ _
  | PDeleteTag _ _ _ | PRenameTag _ _ _ _ => True
  | _ => False
  end → db_ok db →
  db_ok (run_persister op db).2 ∧ ((run_persister op db).1 ≠ 0 → (run_persister op db).2 = db).
Proof.
  intros Hop Hdb. destruct op; try done; clear Hop; simpl run_persister.
  - apply execute_sql_ok; [done|]. intros db'.
    destruct (sql_lf (tag_decimal t)); simpl; [|done].
    destruct (sql_lf (tag_bias t)); simpl; [|done]. intros E. by eapply insert_tag_ok.
  - apply execute_sql_ok; [done|]. intros db' E. by eapply put_tags_ok.
  - apply execute_sql_ok; [done|]. intros db'.
    destruct (sql_lf (tag_decimal t)); simpl; [|done].
    destruct (sql_lf (tag_bias t)); simpl; [|done]. case_decide; [by intros [= <-]|].
    destruct (tag_check _) eqn:Hck; intros [= <-]. apply db_ok_update_tag_columns; [done..|].
    intros r _ [= _ _ E]. unfold tag_check in *. simpl in *. by rewrite E.
  - split; [|done]. apply db_ok_update_tag_columns; [done..|].
    intros r Hr _. by apply tag_row_ok in Hr as [_ Hr].
  - split; [|done]. apply db_ok_with_tags; [done|apply table_ok_filter, Hdb|].
    intros r [_ Hr]%list_elem_of_filter. by apply tag_row_ok.
  - apply execute_sql_ok; [done|]. intros db'. case_decide; [by intros [= <-]|].
    destruct (_ && _) eqn:Hc; intros [= <-]. apply andb_prop in Hc as [Hfit Hc].
    apply db_ok_update_tag_rows; [done..| |].
    { intros r Hr _. apply tag_row_ok in Hr as [_ Hr]; [|done]. unfold tag_check in *. simpl.
      rewrite !andb_true_iff in *. intuition. }
    intros r r' Hr Hr' [= <- <- <-] Hne.
    apply orb_prop in Hc as [Hc|Hc]; apply bool_decide_eq_true_1 in Hc.
    + intros Heq. apply Hne. by rewrite <-Heq, <-Hc.
    + intros Heq. apply Hc. apply list_elem_of_fmap. by exists r'.
Qed.

Lemma other_statements_ok op db :
  match op with
  | PStoreGroup _ _ _ _ | PUpdateGroup _ _ _ _ | PDeleteGroup _ _
  | PStoreSub _ | PUpdateSub _ | PDeleteSub _ _ _ => True
  | _ => False
  end → db_ok db →
  db_ok (run_persister op db).2 ∧ ((run_persister op db).1 ≠ 0 → (run_persister op db).2 = db).
Proof.
  intros Hop Hdb. destruct op; try done; clear Hop; simpl run_persister.
  - apply execute_sql_ok; [done|]. intros db'. destruct (_ && _) eqn:Hc; intros [= <-].
    apply andb_prop in Hc as [[Hck Hn%bool_decide_eq_true_1]%andb_prop Hk%bool_decide_eq_true_1].
    destruct Hdb. split; simpl; try done; [by apply table_ok_snoc|..];
      try (intros x Hx; rewrite fmap_app; apply elem_of_app; left; by auto);
      intros r [Hr| ->%list_elem_of_singleton]%elem_of_app; auto.
  - unfold neu_sqlite_persister_update_group.
    destruct (_ && _); [|destruct (negb _); [|destruct (30 <=? _); [|done]]];
      (apply execute_sql_ok; [done|]; intros db' E; by eapply update_group_statement_ok).
  - split; [by apply db_ok_delete_group|done].
  - apply execute_sql_ok; [done|]. intros db'. destruct (_ && _) eqn:Hc; intros [= <-].
    rewrite !andb_true_iff, !bool_decide_eq_true in Hc. destruct Hc as [[[]]].
    apply db_ok_with_subs; [done| |].
    + apply table_ok_snoc; [apply Hdb|done].
    + intros x [Hx| ->%list_elem_of_singleton]%elem_of_app; [|done]. by apply sub_row_ok.
  - split; [|done]. apply db_ok_with_subs; [done| |].
    + apply table_ok_map_same; [apply Hdb|]. intros x. by case_decide.
    + intros x (y & -> & Hy)%list_elem_of_fmap. case_decide; by apply (sub_row_ok y).
  - split; [|done]. apply db_ok_with_subs; [done|apply table_ok_filter, Hdb|].
    intros x [_ Hx]%list_elem_of_filter. by apply sub_row_ok.
Qed.

Lemma run_persister_ok op db :
  db_ok db →
  db_ok (run_persister op db).2 ∧ ((run_persister op db).1 ≠ 0 → (run_persister op db).2 = db).
Proof.
  intros Hdb. destruct op; first [by apply node_statements_ok | by apply tag_statements_ok
    | by apply other_statements_ok].
Qed.

End Run.

(** ** An example *)

#[local] Instance example_sql : Sqlite :=
  {| sql_length := λ s, Z.of_nat (String.length s); sql_lf := Some; sql_order := λ l, l |}.

#[local] Instance example_sql_ok : SqliteOk example_sql.
Proof. split; [simpl; lia|done]. Qed.

Definition example_db : database :=
  {| db_nodes := [{| nr_name := "plc"; nr_type := 1; nr_state := 3; nr_plugin_name := "Modbus TCP";
                     nr_tags := None |};
                  {| nr_name := "mqtt"; nr_type := 2; nr_state := 3; nr_plugin_name := "MQTT";
                     nr_tags := None |}];
     db_settings := [];
     db_groups := [{| gr_driver := "plc"; gr_name := "fast"; gr_interval := 100;
                      gr_context := None |}];
     db_tags := [];
     db_subs := [{| sr_app := "mqtt"; sr_driver := "plc"; sr_group := "fast"; sr_params := None;
                    sr_static_tags := None |}] |}.

Lemma example_db_ok : db_ok example_db.
Proof.
  split; try (apply (bool_decide_unpack _); by vm_compute);
    intros r Hr; simpl in Hr; repeat (apply elem_of_cons in Hr as [->|Hr]);
    try (by inversion Hr); try done; apply (bool_decide_unpack _); by vm_compute.
Qed.

(** Renaming a node cascades to its groups and subscriptions. *)
Example rename_node_cascades :
  let '(ret, db) := run_persister (PUpdateNode "plc" "line1") example_db in
  ret = 0 ∧ db_ok db ∧ sub_parent <$> db_subs db = [("line1", "fast")].
Proof.
  pose proof (run_persister_ok (PUpdateNode "plc" "line1") example_db example_db_ok) as [Hok _].
  split; [by vm_compute|]. split; [exact Hok|by vm_compute].
Qed.
