(* ===== verification/Adapter.v ===== *)
(** * The adapter of a node

    src/adapter/adapter.c and src/adapter/storage.c: the life cycle of a node and
    the requests that configure a driver node.  An adapter owns the state machine
    [INIT], [READY], [RUNNING], [STOPPED], the setting of the node, the timer that
    reconnects, and, for a driver, the driver of [Driver.v].  Every request that
    changes the configuration changes the database of [Persist.v] with it; an
    operation takes and returns both.

    The functions of the plugin for the life cycle are the record [plugin_intf]
    over any type of plugin state, those for tags the record [plugin_ops] of
    [Driver.v].  Sockets, messages, metrics, log files and the events for monitor
    nodes are left out; a request is the function that handles it, and its result
    the code or the response that is sent back. *)

From S2P Require Import Prelude UtHash NeuTypes CHeap DriverCache Tag Group Driver Persist.

Definition NEU_ERR_NODE_SETTING_INVALID : Z := 2004.
Definition NEU_ERR_NODE_SETTING_NOT_FOUND : Z := 2005.
Definition NEU_ERR_NODE_NOT_READY : Z := 2006.
Definition NEU_ERR_NODE_IS_RUNNING : Z := 2007.
Definition NEU_ERR_NODE_NOT_RUNNING : Z := 2008.
Definition NEU_ERR_NODE_IS_STOPED : Z := 2009.
Definition NEU_ERR_GROUP_NOT_ALLOW : Z := 2103.
Definition NEU_ERR_GROUP_PARAMETER_INVALID : Z := 2105.
Definition NEU_ERR_GROUP_MAX_GROUPS : Z := 2108.

Definition NEU_GROUP_MAX_PER_NODE : Z := 512.
Definition NEU_DEFAULT_GROUP_INTERVAL : Z := 100.

Inductive neu_node_running_state_e :=
  | NEU_NODE_RUNNING_STATE_INIT | NEU_NODE_RUNNING_STATE_READY
  | NEU_NODE_RUNNING_STATE_RUNNING | NEU_NODE_RUNNING_STATE_STOPPED.

#[export] Instance running_state_eq_dec : EqDecision neu_node_running_state_e.
Proof. solve_decision. Defined.

(** The numbers of the states, which the database keeps. *)
Definition state_code (s : neu_node_running_state_e) : Z :=
  match s with
  | NEU_NODE_RUNNING_STATE_INIT => 1 | NEU_NODE_RUNNING_STATE_READY => 2
  | NEU_NODE_RUNNING_STATE_RUNNING => 3 | NEU_NODE_RUNNING_STATE_STOPPED => 4
  end.

Inductive neu_node_type_e := NEU_NA_TYPE_DRIVER | NEU_NA_TYPE_APP.

Record plugin_intf (P : Type) := {
  intf_init : P → Z * P;
  intf_start : P → Z * P;
  intf_stop : P → Z * P;
  intf_setting : string → P → Z * P;
}.
Arguments intf_init {P}.
Arguments intf_start {P}.
Arguments intf_stop {P}.
Arguments intf_setting {P}.

(** [a_driver] is the part of [neu_adapter_driver_t] behind the adapter; its
    [d_running] says whether the state of the adapter is [RUNNING]. *)
Record neu_adapter_t (P : Type) := {
  a_name : string;
  a_type : neu_node_type_e;
  a_state : neu_node_running_state_e;
  a_setting : option string;
  a_timer_connect : timers_t;
  a_driver : neu_adapter_driver_t;
  a_plugin : P;
}.
Arguments a_name {P}.
Arguments a_type {P}.
Arguments a_state {P}.
Arguments a_setting {P}.
Arguments a_timer_connect {P}.
Arguments a_driver {P}.
Arguments a_plugin {P}.

Definition is_driver {P} (a : neu_adapter_t P) : bool :=
  match a_type a with NEU_NA_TYPE_DRIVER => true | NEU_NA_TYPE_APP => false end.

Definition with_state {P} (s : neu_node_running_state_e) (a : neu_adapter_t P) : neu_adapter_t P :=
  let d := a_driver a in
  {| a_name := a_name a; a_type := a_type a; a_state := s; a_setting := a_setting a;
     a_timer_connect := a_timer_connect a;
     a_driver := {| d_running := bool_decide (s = NEU_NODE_RUNNING_STATE_RUNNING);
                    d_cache := d_cache d; d_tag_cnt := d_tag_cnt d; d_groups := d_groups d |};
     a_plugin := a_plugin a |}.
Definition with_setting {P} (s : option string) (a : neu_adapter_t P) : neu_adapter_t P :=
  {| a_name := a_name a; a_type := a_type a; a_state := a_state a; a_setting := s;
     a_timer_connect := a_timer_connect a; a_driver := a_driver a; a_plugin := a_plugin a |}.
Definition with_driver {P} (d : neu_adapter_driver_t) (a : neu_adapter_t P) : neu_adapter_t P :=
  {| a_name := a_name a; a_type := a_type a; a_state := a_state a; a_setting := a_setting a;
     a_timer_connect := a_timer_connect a; a_driver := d; a_plugin := a_plugin a |}.
Definition with_connect {P} (t : timers_t) (a : neu_adapter_t P) : neu_adapter_t P :=
  {| a_name := a_name a; a_type := a_type a; a_state := a_state a; a_setting := a_setting a;
     a_timer_connect := t; a_driver := a_driver a; a_plugin := a_plugin a |}.
Definition with_plugin {P} (p : P) (a : neu_adapter_t P) : neu_adapter_t P :=
  {| a_name := a_name a; a_type := a_type a; a_state := a_state a; a_setting := a_setting a;
     a_timer_connect := a_timer_connect a; a_driver := a_driver a; a_plugin := p |}.
Definition with_a_name {P} (s : string) (a : neu_adapter_t P) : neu_adapter_t P :=
  {| a_name := s; a_type := a_type a; a_state := a_state a; a_setting := a_setting a;
     a_timer_connect := a_timer_connect a; a_driver := a_driver a; a_plugin := a_plugin a |}.

Section Adapter.
Context {P : Type} (intf : plugin_intf P) (plugin : plugin_ops).
Context `{SQL : Sqlite}.

(** ** Storage: storage.c *)

Definition adapter_storage_state (node : string) (s : neu_node_running_state_e) (db : database)
    : database :=
  (neu_sqlite_persister_update_node_state db node (state_code s)).2.
Definition adapter_storage_setting (node setting : string) (db : database) : database :=
  (neu_sqlite_persister_store_node_setting db node setting).2.
Definition adapter_storage_add_group (node group : string) (interval : Z) (context : option string)
    (db : database) : database :=
  (neu_sqlite_persister_store_group db node group interval context).2.
Definition adapter_storage_update_group (node group new_name : string) (interval : Z)
    (db : database) : database :=
  (neu_sqlite_persister_update_group db node group new_name interval).2.
Definition adapter_storage_del_group (node group : string) (db : database) : database :=
  (neu_sqlite_persister_delete_group db node group).2.
Definition adapter_storage_add_tag (node group : string) (t : neu_datatag_t) (db : database)
    : database :=
  (neu_sqlite_persister_store_tag db node group t).2.

Definition adapter_storage_add_tags (node group : string) (ts : list neu_datatag_t) (db : database)
    : database :=
  match ts with
  | [] => db
  | [t] => adapter_storage_add_tag node group t db
  | _ => (neu_sqlite_persister_store_tags db node group ts).2
  end.

Definition adapter_storage_update_tag (node group : string) (t : neu_datatag_t) (db : database)
    : database :=
  (neu_sqlite_persister_update_tag db node group t).2.
Definition adapter_storage_del_tag (node group name : string) (db : database) : database :=
  (neu_sqlite_persister_delete_tag db node group name).2.
Definition adapter_storage_rename_tag (node group old_name new_name : string) (db : database)
    : Z * database :=
  neu_sqlite_persister_rename_tag db node group old_name new_name.
Definition adapter_load_setting (node : string) (db : database) : option string :=
  neu_sqlite_persister_load_node_setting db node.

(** [neu_adapter_driver_add_tag] with the group it stores when it creates it; the
    interval is a [uint16_t]. *)
Definition driver_add_tag (clock : Z) (a : neu_adapter_t P) (db : database) (group : string)
    (t : neu_datatag_t) (interval : Z) : option (Z * neu_adapter_t P * database) :=
  let db := if find_group (a_driver a) group is Some _ then db
            else adapter_storage_add_group (a_name a) group (u16 interval) None db in
  '(ret, d) ← neu_adapter_driver_add_tag plugin clock (a_driver a) group t (u16 interval);
  Some (ret, with_driver d a, db).

(** The loops that add tags without looking at the result. *)
Fixpoint add_tags_loop (clock : Z) (a : neu_adapter_t P) (db : database) (group : string)
    (interval : Z) (ts : list neu_datatag_t) : option (neu_adapter_t P * database) :=
  match ts with
  | [] => Some (a, db)
  | t :: ts' =>
      '(_, a, db) ← driver_add_tag clock a db group t interval;
      add_tags_loop clock a db group interval ts'
  end.

(** The groups of [adapter_load_group_and_tag]. *)
Fixpoint load_groups_loop (clock : Z) (a : neu_adapter_t P) (db : database) (rows : list group_row)
    : option (neu_adapter_t P * database) :=
  match rows with
  | [] => Some (a, db)
  | r :: rows' =>
      let a := with_driver (neu_adapter_driver_add_group (a_driver a) (gr_name r)
                              (u32 (gr_interval r))).2 a in
      '(a, db) ← add_tags_loop clock a db (gr_name r) (-1)
                   (neu_sqlite_persister_load_tags db (a_name a) (gr_name r));
      load_groups_loop clock a db rows'
  end.

Definition adapter_load_group_and_tag (clock : Z) (a : neu_adapter_t P) (db : database)
    : option (neu_adapter_t P * database) :=
  load_groups_loop clock a db (neu_sqlite_persister_load_groups db (a_name a)).

(** ** Life cycle *)

(** Creating a node; [None] is a failed assertion, [Some (None, db)] a plugin that
    cannot be initialised. *)
Definition neu_adapter_create (clock : Z) (name : string) (type : neu_node_type_e) (p : P)
    (db : database) : option (option (neu_adapter_t P) * database) :=
  let '(init_rv, p) := intf_init intf p in
  let a := {| a_name := name; a_type := type; a_state := NEU_NODE_RUNNING_STATE_INIT;
              a_setting := None; a_timer_connect := timers_none;
              a_driver := neu_adapter_driver_create; a_plugin := p |} in
  let a := match adapter_load_setting name db with
           | None => a
           | Some s =>
               let '(rv, p) := intf_setting intf s (a_plugin a) in
               let a := with_plugin p a in
               if rv =? 0 then with_state NEU_NODE_RUNNING_STATE_READY (with_setting (Some s) a)
               else a
           end in
  '(a, db) ← (if is_driver a then adapter_load_group_and_tag clock a db else Some (a, db));
  let db := adapter_storage_state (a_name a) (a_state a) db in
  Some (if init_rv =? 0 then Some a else None, db).

Definition start_timer (t : timers_t) : timers_t :=
  {| t_handles := true; t_lost := timers_armed t |}.
Definition stop_timer (t : timers_t) : timers_t :=
  {| t_handles := false; t_lost := t_lost t |}.

Definition neu_adapter_start (a : neu_adapter_t P) (db : database)
    : Z * neu_adapter_t P * database :=
  match a_state a with
  | NEU_NODE_RUNNING_STATE_INIT => (NEU_ERR_NODE_NOT_READY, a, db)
  | NEU_NODE_RUNNING_STATE_RUNNING => (NEU_ERR_NODE_IS_RUNNING, a, db)
  | NEU_NODE_RUNNING_STATE_READY | NEU_NODE_RUNNING_STATE_STOPPED =>
      let '(error, p) := intf_start intf (a_plugin a) in
      let a := with_plugin p a in
      if error =? NEU_ERR_SUCCESS then
        let a := with_state NEU_NODE_RUNNING_STATE_RUNNING a in
        let db := adapter_storage_state (a_name a) (a_state a) db in
        let a := if is_driver a then
                   with_connect (start_timer (a_timer_connect a))
                     (with_driver (neu_adapter_driver_start_group_timer (a_driver a)) a)
                 else a in
        (error, a, db)
      else (error, a, db)
  end.

(** The timer is deleted only when there is one. *)
Definition neu_adapter_stop (a : neu_adapter_t P) (db : database)
    : Z * neu_adapter_t P * database :=
  match a_state a with
  | NEU_NODE_RUNNING_STATE_INIT | NEU_NODE_RUNNING_STATE_READY => (NEU_ERR_NODE_NOT_RUNNING, a, db)
  | NEU_NODE_RUNNING_STATE_STOPPED => (NEU_ERR_NODE_IS_STOPED, a, db)
  | NEU_NODE_RUNNING_STATE_RUNNING =>
      let '(error, p) := intf_stop intf (a_plugin a) in
      let a := with_plugin p a in
      if error =? NEU_ERR_SUCCESS then
        let a := with_state NEU_NODE_RUNNING_STATE_STOPPED a in
        let db := adapter_storage_state (a_name a) (a_state a) db in
        let a := if is_driver a
                 then with_driver (neu_adapter_driver_stop_group_timer (a_driver a)) a else a in
        (error, with_connect (stop_timer (a_timer_connect a)) a, db)
      else (error, a, db)
  end.

Definition neu_adapter_set_setting (a : neu_adapter_t P) (setting : string) (db : database)
    : Z * neu_adapter_t P * database :=
  let '(rv, p) := intf_setting intf setting (a_plugin a) in
  let a := with_plugin p a in
  if rv =? 0 then
    let a := with_setting (Some setting) a in
    if decide (a_state a = NEU_NODE_RUNNING_STATE_INIT) then
      let '(_, a, db) := neu_adapter_start (with_state NEU_NODE_RUNNING_STATE_READY a) db in
      (rv, a, db)
    else (rv, a, db)
  else (NEU_ERR_NODE_SETTING_INVALID, a, db).

Definition neu_adapter_get_setting (a : neu_adapter_t P) : Z * option string :=
  match a_setting a with
  | Some s => (NEU_ERR_SUCCESS, Some s)
  | None => (NEU_ERR_NODE_SETTING_NOT_FOUND, None)
  end.

(** The group timers are stopped and started in every state. *)
Definition neu_adapter_rename (a : neu_adapter_t P) (new_name : string) : Z * neu_adapter_t P :=
  let a := if is_driver a
           then with_driver (neu_adapter_driver_stop_group_timer (a_driver a)) a else a in
  let a := with_a_name new_name a in
  (0, if is_driver a
      then with_driver (neu_adapter_driver_start_group_timer (a_driver a)) a else a).

(** ** Requests: [adapter_loop] *)

Definition handle_node_setting (a : neu_adapter_t P) (setting : string) (db : database)
    : Z * neu_adapter_t P * database :=
  let '(error, a, db) := neu_adapter_set_setting a setting db in
  (error, a, if error =? NEU_ERR_SUCCESS then adapter_storage_setting (a_name a) setting db else db).

Inductive neu_adapter_ctl_e := NEU_ADAPTER_CTL_START | NEU_ADAPTER_CTL_STOP.

Definition handle_node_ctl (a : neu_adapter_t P) (ctl : neu_adapter_ctl_e) (db : database)
    : Z * neu_adapter_t P * database :=
  match ctl with
  | NEU_ADAPTER_CTL_START => neu_adapter_start a db
  | NEU_ADAPTER_CTL_STOP => neu_adapter_stop a db
  end.

(** *** Groups *)

Definition handle_add_group (a : neu_adapter_t P) (group : string) (interval : Z) (db : database)
    : Z * neu_adapter_t P * database :=
  if interval <? NEU_GROUP_INTERVAL_LIMIT then (NEU_ERR_GROUP_PARAMETER_INVALID, a, db)
  else if is_driver a then
    let '(error, d) := neu_adapter_driver_add_group (a_driver a) group interval in
    (error, with_driver d a,
     if error =? NEU_ERR_SUCCESS then adapter_storage_add_group (a_name a) group interval None db
     else db)
  else (NEU_ERR_GROUP_NOT_ALLOW, a, db).

(** The new name is always there: it is an array of the message. *)
Definition handle_update_group (now : Z) (a : neu_adapter_t P) (group new_name : string)
    (interval : Z) (db : database) : Z * neu_adapter_t P * database :=
  if is_driver a then
    let '(error, d) :=
      neu_adapter_driver_update_group now (a_driver a) group (Some new_name) interval in
    (error, with_driver d a,
     if error =? NEU_ERR_SUCCESS
     then adapter_storage_update_group (a_name a) group new_name interval db else db)
  else (NEU_ERR_GROUP_NOT_ALLOW, a, db).

(** An application hands the request on to its plugin, which answers it. *)
Definition handle_del_group {J} `{Jansson J} (a : neu_adapter_t P) (driver group : string)
    (db : database) : M J (option Z * neu_adapter_t P * database) :=
  if is_driver a then
    '(error, d) ← neu_adapter_driver_del_group (a_driver a) group;
    mret (Some error, with_driver d a,
          if error =? NEU_ERR_SUCCESS then adapter_storage_del_group driver group db else db)
  else mret (None, a, db).

(** *** Tags *)

(** The loop ends at the first tag that cannot be deleted. *)
Fixpoint del_tags_loop (clock : Z) (a : neu_adapter_t P) (driver group : string)
    (names : list string) (db : database) : Z * neu_adapter_t P * database :=
  match names with
  | [] => (0, a, db)
  | n :: names' =>
      let '(ret, d) := neu_adapter_driver_del_tag clock (a_driver a) group n in
      let a := with_driver d a in
      if ret =? 0
      then del_tags_loop clock a driver group names' (adapter_storage_del_tag driver group n db)
      else (ret, a, db)
  end.

Definition handle_del_tag (clock : Z) (a : neu_adapter_t P) (driver group : string)
    (names : list string) (db : database) : option Z * neu_adapter_t P * database :=
  if is_driver a then
    let '(error, a, db) := del_tags_loop clock a driver group names db in (Some error, a, db)
  else (None, a, db).

(** The response to a request that adds or updates tags, with the result of
    single tags by their index. *)
Record neu_resp_add_tag_t := {
  resp_index : Z;
  resp_error : Z;
  resp_results : list (Z * Z);
}.

Definition resp_zero : neu_resp_add_tag_t :=
  {| resp_index := 0; resp_error := 0; resp_results := [] |}.
Definition resp_fail (error : Z) : neu_resp_add_tag_t :=
  {| resp_index := 0; resp_error := error; resp_results := [] |}.

Definition neu_resp_add_tag_result (resp : neu_resp_add_tag_t) (index error : Z)
    : neu_resp_add_tag_t :=
  {| resp_index := u16 index; resp_error := error;
     resp_results := resp_results resp ++ [(u16 index, error)] |}.

(** The nested loops: of the results with the same index the first one stays. *)
Fixpoint dedup_loop (n : nat) (l : list (Z * Z)) : list (Z * Z) :=
  match n, l with
  | S n', x :: l' => x :: dedup_loop n' (filter (λ y, y.1 ≠ x.1) l')
  | _, _ => l
  end.
Definition dedup_add_tag_results_by_index (resp : neu_resp_add_tag_t) : neu_resp_add_tag_t :=
  {| resp_index := resp_index resp; resp_error := resp_error resp;
     resp_results := dedup_loop (length (resp_results resp)) (resp_results resp) |}.

Definition resp_refused (resp : neu_resp_add_tag_t) : bool :=
  negb (resp_error resp =? 0) || negb (bool_decide (resp_results resp = [])) ||
  negb (resp_index resp =? 0).

(** The checks of [NEU_REQ_ADD_TAG] on the tags from index [length done] on;
    validation may fill in fields of the tag. *)
Fixpoint check_new_tags (d : neu_adapter_driver_t) (group : string)
    (done ts : list neu_datatag_t) (resp : neu_resp_add_tag_t)
    : neu_resp_add_tag_t * list neu_datatag_t :=
  match ts with
  | [] => (resp, done)
  | t :: ts' =>
      let i := Z.of_nat (length done) in
      let resp := fold_left (λ r k, if decide (tag_name t = tag_name k)
                                    then neu_resp_add_tag_result r i NEU_ERR_TAG_NAME_CONFLICT
                                    else r) done resp in
      let '(ret, t) := neu_adapter_driver_validate_tag plugin t in
      let resp := if negb (ret =? 0) then neu_resp_add_tag_result resp i ret else resp in
      let ret := neu_adapter_driver_check_tag d group t in
      let resp := if negb (ret =? 0) then neu_resp_add_tag_result resp i ret else resp in
      check_new_tags d group (done ++ [t]) ts' resp
  end.

(** A tag of the request after [neu_adapter_driver_add_tag] has had it. *)
Definition tag_as_added (t : neu_datatag_t) : neu_datatag_t :=
  (validate_tag plugin (parse_option t)).2.

Definition handle_add_tag (clock : Z) (a : neu_adapter_t P) (driver group : string)
    (ts : list neu_datatag_t) (db : database)
    : option (neu_resp_add_tag_t * neu_adapter_t P * database) :=
  let '(resp, ts) :=
    if is_driver a then check_new_tags (a_driver a) group [] ts resp_zero
    else (neu_resp_add_tag_result resp_zero 0 NEU_ERR_GROUP_NOT_ALLOW, ts) in
  if resp_refused resp then Some (dedup_add_tag_results_by_index resp, a, db)
  else
    let ret := neu_adapter_driver_try_add_tag plugin group ts in
    if negb (ret =? 0) then Some (resp_fail ret, a, db)
    else
      '(a, db) ← add_tags_loop clock a db group NEU_DEFAULT_GROUP_INTERVAL ts;
      Some (resp, a, adapter_storage_add_tags driver group (tag_as_added <$> ts) db).

(** The updates stop at the first tag that is refused; [i] counts the updated
    ones. *)
Fixpoint update_tags_loop (clock : Z) (a : neu_adapter_t P) (driver group : string)
    (i : Z) (ts : list neu_datatag_t) (db : database)
    : neu_resp_add_tag_t * neu_adapter_t P * database :=
  match ts with
  | [] => ({| resp_index := u16 i; resp_error := 0; resp_results := [] |}, a, db)
  | t :: ts' =>
      let refuse ret a :=
        ({| resp_index := u16 i; resp_error := ret; resp_results := [(u16 i, ret)] |}, a, db) in
      let '(ret, t) := neu_adapter_driver_validate_tag plugin t in
      if negb (ret =? 0) then refuse ret a
      else
        let '(ret, d) := neu_adapter_driver_update_tag plugin clock (a_driver a) group t in
        let a := with_driver d a in
        if negb (ret =? 0) then refuse ret a
        else update_tags_loop clock a driver group (i + 1) ts'
               (adapter_storage_update_tag driver group
                  (parse_option (validate_tag plugin t).2) db)
  end.

Definition handle_update_tag (clock : Z) (a : neu_adapter_t P) (driver group : string)
    (ts : list neu_datatag_t) (db : database) : neu_resp_add_tag_t * neu_adapter_t P * database :=
  if is_driver a then update_tags_loop clock a driver group 0 ts db
  else ({| resp_index := 0; resp_error := NEU_ERR_GROUP_NOT_ALLOW;
           resp_results := [(0, NEU_ERR_GROUP_NOT_ALLOW)] |}, a, db).

(** A rename that cannot be stored is taken back. *)
Definition handle_rename_tag (clock : Z) (a : neu_adapter_t P)
    (driver group old_name new_name : string) (db : database)
    : Z * neu_adapter_t P * database :=
  if is_driver a then
    let '(error, d) := neu_adapter_driver_rename_tag clock (a_driver a) group old_name new_name in
    let a := with_driver d a in
    if error =? 0 then
      let '(rv, db) := adapter_storage_rename_tag driver group old_name new_name db in
      if negb (rv =? 0) then
        let d := (neu_adapter_driver_rename_tag clock (a_driver a) group new_name old_name).2 in
        (NEU_ERR_EINTERNAL, with_driver d a, db)
      else (error, a, db)
    else (error, a, db)
  else (NEU_ERR_GROUP_NOT_ALLOW, a, db).

(** *** Tags of several groups *)

Record neu_gdatatag_t := {
  gd_group : string;
  gd_interval : Z;
  gd_tags : list neu_datatag_t;
  gd_context : option string;
}.

Definition with_gd_tags (ts : list neu_datatag_t) (g : neu_gdatatag_t) : neu_gdatatag_t :=
  {| gd_group := gd_group g; gd_interval := gd_interval g; gd_tags := ts;
     gd_context := gd_context g |}.

(** The error of the first tag that is refused, or the number of tags and the
    tags with the fields validation has filled in. *)
Fixpoint validate_tags_loop (index : Z) (done ts : list neu_datatag_t)
    : Z + Z * list neu_datatag_t :=
  match ts with
  | [] => inr (index, done)
  | t :: ts' =>
      let '(ret, t) := neu_adapter_driver_validate_tag plugin t in
      if negb (ret =? 0) then inl ret else validate_tags_loop (u16 (index + 1)) (done ++ [t]) ts'
  end.

Fixpoint validate_groups_loop (index : Z) (done gs : list neu_gdatatag_t)
    : Z + Z * list neu_gdatatag_t :=
  match gs with
  | [] => inr (index, done)
  | g :: gs' =>
      match validate_tags_loop index [] (gd_tags g) with
      | inl e => inl e
      | inr (index, ts) => validate_groups_loop index (done ++ [with_gd_tags ts g]) gs'
      end
  end.

Definition neu_adapter_validate_gtags (d : neu_adapter_driver_t) (gs : list neu_gdatatag_t)
    : Z + Z * list neu_gdatatag_t :=
  if NEU_GROUP_MAX_PER_NODE <?
       neu_adapter_driver_new_group_count d (gd_group <$> gs) + neu_adapter_driver_group_count d
  then inl NEU_ERR_GROUP_MAX_GROUPS
  else validate_groups_loop 0 [] gs.

(** The plugin counts the tags in; when it refuses a group, the earlier ones are
    counted out again ([neu_adapter_driver_try_del_tag], whose result is ignored). *)
Fixpoint neu_adapter_try_add_gtags (gs : list neu_gdatatag_t) : Z :=
  match gs with
  | [] => 0
  | g :: gs' =>
      let ret := neu_adapter_driver_try_add_tag plugin (gd_group g) (gd_tags g) in
      if negb (ret =? 0) then ret else neu_adapter_try_add_gtags gs'
  end.

(** The tags of one group; the error comes with the index of the tag. *)
Fixpoint add_gtag_tags (clock : Z) (a : neu_adapter_t P) (db : database) (group : string)
    (interval : Z) (i : nat) (ts : list neu_datatag_t)
    : option (option (Z * nat) * neu_adapter_t P * database) :=
  match ts with
  | [] => Some (None, a, db)
  | t :: ts' =>
      '(ret, a, db) ← driver_add_tag clock a db group t interval;
      if negb (ret =? 0) then Some (Some (ret, i), a, db)
      else add_gtag_tags clock a db group interval (S i) ts'
  end.

(** [neu_adapter_driver_del_tag] for every name; the results are ignored. *)
Definition del_added (clock : Z) (group : string) (names : list string)
    (d : neu_adapter_driver_t) : neu_adapter_driver_t :=
  fold_left (λ d n, (neu_adapter_driver_del_tag clock d group n).2) names d.

(** The tags of the earlier groups and those of this one before the failure are
    deleted again; the groups stay. *)
Definition roll_back (clock : Z) (done : list neu_gdatatag_t) (g : neu_gdatatag_t) (i : nat)
    (d : neu_adapter_driver_t) : neu_adapter_driver_t :=
  let d := fold_left (λ d g, del_added clock (gd_group g) (tag_name <$> gd_tags g) d) done d in
  del_added clock (gd_group g) (tag_name <$> take i (gd_tags g)) d.

Fixpoint add_gtags_loop (clock : Z) (a : neu_adapter_t P) (db : database)
    (done gs : list neu_gdatatag_t) : option (Z * neu_adapter_t P * database) :=
  match gs with
  | [] => Some (0, a, db)
  | g :: gs' =>
      let a := with_driver (neu_adapter_driver_add_group (a_driver a) (gd_group g)
                              (u32 (gd_interval g))).2 a in
      let db := adapter_storage_add_group (a_name a) (gd_group g) (gd_interval g)
                  (gd_context g) db in
      '(r, a, db) ← add_gtag_tags clock a db (gd_group g) (gd_interval g) 0 (gd_tags g);
      match r with
      | Some (ret, i) => Some (ret, with_driver (roll_back clock done g i (a_driver a)) a, db)
      | None => add_gtags_loop clock a db (done ++ [g]) gs'
      end
  end.

Definition neu_adapter_add_gtags (clock : Z) (a : neu_adapter_t P) (db : database)
    (gs : list neu_gdatatag_t) : option (Z * neu_adapter_t P * database) :=
  add_gtags_loop clock a db [] gs.

(** The tags are stored when all of them have been added. *)
Definition store_gtags (driver : string) (gs : list neu_gdatatag_t) (db : database) : database :=
  fold_left (λ db g, adapter_storage_add_tags driver (gd_group g) (tag_as_added <$> gd_tags g) db)
    gs db.

Definition handle_add_gtag (clock : Z) (a : neu_adapter_t P) (driver : string)
    (gs : list neu_gdatatag_t) (db : database)
    : option (neu_resp_add_tag_t * neu_adapter_t P * database) :=
  if negb (is_driver a) then Some (resp_fail NEU_ERR_GROUP_NOT_ALLOW, a, db)
  else
    match neu_adapter_validate_gtags (a_driver a) gs with
    | inl e => Some (resp_fail e, a, db)
    | inr (index, gs) =>
        let ret := neu_adapter_try_add_gtags gs in
        if negb (ret =? 0) then Some (resp_fail ret, a, db)
        else
          '(ret, a, db) ← neu_adapter_add_gtags clock a db gs;
          if negb (ret =? 0) then Some (resp_fail ret, a, db)
          else Some ({| resp_index := index; resp_error := 0; resp_results := [] |}, a,
                     store_gtags driver gs db)
    end.
End Adapter.
