(* ===== verification/AdapterConfig.v ===== *)
(** * The configuration of a driver node, in memory and in the database

    What a group and a tag are, apart from how they are kept: the interval of a
    group and the columns of a tag.  [mem_interval] and [mem_tag] read them from
    the driver, [db_interval] and [db_tag] from the tables.  The lemmas give the
    effect of every operation of [Driver.v] and of every statement of [Persist.v]
    on these views; [AdapterOk.v] puts them together. *)

From Stdlib Require Import SpecFloat.
From S2P Require Import Prelude UtHash NeuTypes CHeap CFloat DriverCache Tag Group Driver Persist.

(** ** Views *)

(** What is stored of a tag besides its name; a missing text is an empty one. *)
Record tag_cols := {
  c_address : string; c_attribute : Z; c_precision : Z; c_type : neu_type_e;
  c_decimal : Z; c_bias : Z; c_description : string; c_unit : string; c_format : string;
}.

Definition cols_of_tag (t : neu_datatag_t) : tag_cols :=
  {| c_address := tag_address t; c_attribute := tag_attribute t; c_precision := tag_precision t;
     c_type := tag_type t; c_decimal := tag_decimal t; c_bias := tag_bias t;
     c_description := default EmptyString (tag_description t);
     c_unit := default EmptyString (tag_unit t); c_format := format_column t |}.

Definition cols_of_row (r : tag_row) : tag_cols :=
  {| c_address := tr_address r; c_attribute := tr_attribute r; c_precision := tr_precision r;
     c_type := tr_type r; c_decimal := tr_decimal r; c_bias := tr_bias r;
     c_description := default EmptyString (tr_description r);
     c_unit := default EmptyString (tr_unit r); c_format := tr_format r |}.

Definition mem_interval (d : neu_adapter_driver_t) (group : string) : option Z :=
  (λ g, interval (g_group g)) <$> find_group d group.
Definition mem_tag (d : neu_adapter_driver_t) (group name : string) : option tag_cols :=
  g ← find_group d group; cols_of_tag <$> group_map (g_group g) !! name.

Definition db_interval (driver : string) (db : database) (group : string) : option Z :=
  gr_interval <$> hash_find group_row_key (driver, group) (db_groups db).
Definition db_tag (driver : string) (db : database) (group name : string) : option tag_cols :=
  cols_of_row <$> hash_find tag_row_key (driver, group, name) (db_tags db).

Lemma cols_dup t : cols_of_tag (neu_tag_dup t) = cols_of_tag t.
Proof. unfold cols_of_tag. simpl. by destruct (tag_description t), (tag_unit t). Qed.
Lemma cols_copy t : cols_of_tag (tag_array_copy t) = cols_of_tag t.
Proof. unfold cols_of_tag. simpl. by destruct (tag_description t), (tag_unit t). Qed.
Lemma cols_rename n t : cols_of_tag (rename_datatag n t) = cols_of_tag t.
Proof. done. Qed.
Lemma cols_parse t : cols_of_tag (parse_option t) = cols_of_tag t.
Proof. done. Qed.

(** A tag without what is derived from its other fields. *)
Definition bare (t : neu_datatag_t) : neu_datatag_t :=
  {| tag_name := tag_name t; tag_address := tag_address t; tag_attribute := tag_attribute t;
     tag_type := tag_type t; tag_precision := tag_precision t; tag_decimal := tag_decimal t;
     tag_bias := tag_bias t; tag_description := tag_description t; tag_unit := tag_unit t;
     tag_option := addr_option_zero; tag_meta := []; tag_format := tag_format t;
     tag_n_format := tag_n_format t |}.

Lemma bare_cols t t' :
  bare t = bare t' → cols_of_tag t = cols_of_tag t' ∧ tag_name t = tag_name t'.
Proof.
  intros E. change (cols_of_tag t) with (cols_of_tag (bare t)).
  change (tag_name t) with (tag_name (bare t)). by rewrite E.
Qed.

(** ** The driver *)

Definition tables_ok (d : neu_adapter_driver_t) : Prop :=
  table_ok g_name (d_groups d) ∧ Forall (λ g, names_ok (g_group g)) (d_groups d).

Lemma find_group_names d group g : tables_ok d → find_group d group = Some g → names_ok (g_group g).
Proof.
  intros [_ Hn] Hf. rewrite Forall_forall in Hn. apply Hn. by apply hash_find_Some in Hf as [? _].
Qed.

Lemma mem_tag_group d group name :
  is_Some (mem_tag d group name) → is_Some (mem_interval d group).
Proof. unfold mem_tag, mem_interval. destruct (find_group d group); [eauto|by intros []]. Qed.

(** The timers, the applications and the rest of a group do not matter. *)
Lemma config_ext d d' :
  (∀ x, g_group <$> find_group d' x = g_group <$> find_group d x) →
  (∀ x, mem_interval d' x = mem_interval d x) ∧ (∀ x n, mem_tag d' x n = mem_tag d x n).
Proof.
  intros H. unfold mem_interval, mem_tag.
  split; intros x; [|intros n]; specialize (H x);
    destruct (find_group d' x), (find_group d x); simpl in *; congruence.
Qed.

Lemma add_group_config d group itv :
  tables_ok d →
  let '(ret, d') := neu_adapter_driver_add_group d group itv in
  tables_ok d' ∧ ret = (if mem_interval d group is Some _ then NEU_ERR_GROUP_EXIST
                        else NEU_ERR_SUCCESS) ∧
  (∀ x, mem_interval d' x =
     if decide (x = group) then Some (default itv (mem_interval d group)) else mem_interval d x) ∧
  (∀ x n, mem_tag d' x n = mem_tag d x n).
Proof.
  intros [Ht Hn]. unfold neu_adapter_driver_add_group, mem_interval, mem_tag.
  destruct (find_group d group) as [g|] eqn:Hf; simpl.
  { split_and!; [done|done| |done]. intros x. case_decide; [subst; by rewrite Hf|done]. }
  set (g := if d_running d then _ else _).
  assert (Hg : g_name g = group ∧ g_group g = neu_group_new group itv)
    by (unfold g; by destruct (d_running d)).
  clearbody g. destruct Hg as [Hg1 Hg2].
  assert (Hfind : ∀ x, find_group (with_groups (hash_add g (d_groups d)) d) x =
                       if decide (x = group) then Some g else find_group d x).
  { intros x. unfold find_group in *. simpl. rewrite hash_find_add, Hg1.
    destruct (decide (x = group)) as [->|Hx]; [by rewrite Hf, decide_True|].
    destruct (hash_find g_name x _); [done|]. by rewrite decide_False. }
  split_and!; [|done|..].
  - split; simpl.
    + apply table_ok_add; [done|]. by rewrite Hg1.
    + apply Forall_snoc. split; [done|]. rewrite Hg2. split; simpl; constructor.
  - intros x. rewrite Hfind. case_decide; [simpl; by rewrite Hg2|done].
  - intros x n. rewrite Hfind. case_decide as Hx; [|done]. simpl. by rewrite Hx, Hf, Hg2.
Qed.

Lemma run_op_interval clock op g : interval (run_op clock op g).2 = interval g.
Proof.
  destruct op; simpl; unfold neu_group_add_tag, neu_group_update_tag, neu_group_rename_tag,
    neu_group_del_tag; repeat case_match; done.
Qed.

(** An operation on the tags of one group; [d'] may differ in the counter and the
    cache. *)
Lemma group_op_config clock d d' group g op :
  tables_ok d → find_group d group = Some g →
  d_groups d' = hash_update g_name group (with_group (run_op clock op (g_group g)).2) (d_groups d) →
  tables_ok d' ∧ (∀ x, mem_interval d' x = mem_interval d x) ∧
  (∀ x n, mem_tag d' x n = if decide (x = group)
                           then cols_of_tag <$> (spec_op op (group_map (g_group g))).2 !! n
                           else mem_tag d x n).
Proof.
  intros Hd Hf Hg. pose proof (find_group_names d group g Hd Hf) as [Ht Hn].
  destruct (run_op_refines clock op (g_group g) Ht) as [_ Hmap].
  assert (Hfind : ∀ x, find_group d' x =
    if decide (x = group) then Some (with_group (run_op clock op (g_group g)).2 g)
    else find_group d x).
  { intros x. unfold find_group in *. rewrite Hg, hash_find_update by done.
    case_decide; [subst; by rewrite Hf|done]. }
  split_and!.
  - destruct Hd as [Hd1 Hd2]. split; rewrite Hg.
    + unfold table_ok. by rewrite hash_update_keys.
    + rewrite hash_update_fmap by done. apply Forall_fmap, Forall_forall. intros x Hx. simpl.
      case_decide as E; [|by rewrite Forall_forall in Hd2; apply Hd2].
      simpl. by apply run_op_names.
  - intros x. unfold mem_interval. rewrite Hfind. case_decide as E; [|done].
    rewrite E, Hf. simpl. by rewrite run_op_interval.
  - intros x n. unfold mem_tag. rewrite Hfind. case_decide as E; [|done]. simpl. by rewrite Hmap.
Qed.

(** Nothing happens to the configuration when the code is an error. *)
Definition same_config (d d' : neu_adapter_driver_t) : Prop :=
  tables_ok d' ∧ (∀ x, mem_interval d' x = mem_interval d x) ∧
  (∀ x n, mem_tag d' x n = mem_tag d x n).

Lemma same_config_refl d : tables_ok d → same_config d d.
Proof. done. Qed.

Lemma same_config_trans d1 d2 d3 : same_config d1 d2 → same_config d2 d3 → same_config d1 d3.
Proof.
  intros (?&H1&H2) (?&H3&H4). split_and!; [done|..].
  - intros x. by rewrite H3.
  - intros x n. by rewrite H4.
Qed.

Section Tags.
Context (plugin : plugin_ops).

(** Validation by the plugin fills in at most the option and the meta data, which
    are derived from the rest of the tag. *)
Definition plugin_keeps : Prop := ∀ t, bare (validate_tag plugin t).2 = bare t.

Context (Hplugin : plugin_keeps).

Lemma plugin_cols t :
  cols_of_tag (validate_tag plugin t).2 = cols_of_tag t ∧
  tag_name (validate_tag plugin t).2 = tag_name t.
Proof. by apply bare_cols. Qed.

Lemma add_tag_config clock d group t itv :
  tables_ok d →
  ∃ ret d', neu_adapter_driver_add_tag plugin clock d group t itv = Some (ret, d') ∧
    tables_ok d' ∧
    ret = (if mem_tag d group (tag_name t) is Some _ then NEU_ERR_TAG_NAME_CONFLICT
           else NEU_ERR_SUCCESS) ∧
    (∀ x, mem_interval d' x = if decide (x = group) then Some (default itv (mem_interval d group))
                              else mem_interval d x) ∧
    (∀ x n, mem_tag d' x n =
       if decide (x = group ∧ n = tag_name t)
       then Some (default (cols_of_tag t) (mem_tag d x n)) else mem_tag d x n).
Proof.
  intros Hd. unfold neu_adapter_driver_add_tag.
  set (d1 := if find_group d group is Some _ then d else _).
  assert (H1 : tables_ok d1 ∧
    (∀ x, mem_interval d1 x = if decide (x = group) then Some (default itv (mem_interval d group))
                              else mem_interval d x) ∧ (∀ x n, mem_tag d1 x n = mem_tag d x n)).
  { subst d1. pose proof (add_group_config d group itv Hd) as Hg.
    destruct (find_group d group) as [g|] eqn:Hf.
    - split_and!; [done| |done]. intros x. case_decide as E; [|done]. rewrite E.
      unfold mem_interval. by rewrite Hf.
    - destruct (neu_adapter_driver_add_group d group itv) as [r d']. naive_solver. }
  destruct H1 as (Hd1 & Hi1 & Ht1).
  assert (Hf : is_Some (find_group d1 group)).
  { specialize (Hi1 group). rewrite decide_True in Hi1 by done. unfold mem_interval in Hi1.
    destruct (find_group d1 group); [eauto|done]. }
  destruct Hf as [g Hf]. rewrite Hf.
  destruct (neu_group_add_tag clock (g_group g) _) as [ret gr] eqn:E.
  set (t' := (validate_tag plugin (parse_option t)).2) in *.
  assert (Ht' : cols_of_tag t' = cols_of_tag t ∧ tag_name t' = tag_name t).
  { destruct (plugin_cols (parse_option t)) as [Hc Hn]. split; [apply Hc|apply Hn]. }
  destruct Ht' as [Hc Hn].
  destruct (find_group_names d1 group g Hd1 Hf) as [Htab _].
  destruct (run_op_refines clock (OpAdd t') (g_group g) Htab) as [Hret _]. simpl in Hret.
  rewrite E in Hret. simpl in Hret.
  assert (Hm : mem_tag d group (tag_name t) = cols_of_tag <$> group_map (g_group g) !! tag_name t).
  { rewrite <-Ht1. unfold mem_tag. by rewrite Hf. }
  assert (Hop : ∀ d', d_groups d' = hash_update g_name group (with_group gr) (d_groups d1) →
    tables_ok d' ∧ (∀ x, mem_interval d' x = mem_interval d1 x) ∧
    (∀ x n, mem_tag d' x n = if decide (x = group ∧ n = tag_name t)
       then Some (default (cols_of_tag t) (mem_tag d x n)) else mem_tag d x n)).
  { intros d' Hd'. destruct (group_op_config clock d1 d' group g (OpAdd t')) as (?&?&Hmt);
      [done..|simpl; by rewrite E|]. split_and!; [done..|].
    intros x n. rewrite Hmt, <-Ht1. simpl. rewrite Hn. unfold mem_tag.
    destruct (decide (x = group)) as [->|Hx]; [|by rewrite decide_False by naive_solver].
    rewrite Hf. simpl.
    destruct (group_map (g_group g) !! tag_name t) as [t0|] eqn:Hlk; simpl.
    - case_decide as E2; [|done]. destruct E2 as [_ ->]. by rewrite Hlk.
    - case_decide as E2.
      + destruct E2 as [_ ->]. rewrite lookup_insert_eq, Hlk. simpl. by rewrite cols_dup, Hc.
      + rewrite lookup_insert_ne by naive_solver. done. }
  eexists _, _. split; [done|].
  destruct (Hop (if ret =? NEU_ERR_SUCCESS
    then with_tag_cnt (u64 (d_tag_cnt d1 + 1)) (with_groups (hash_update g_name group (with_group gr) (d_groups d1)) d1)
    else with_groups (hash_update g_name group (with_group gr) (d_groups d1)) d1))
    as (Ha & Hb & Hcc); [by destruct (ret =? _)|].
  split_and!; [done| |intros x; by rewrite Hb, Hi1|done].
  rewrite Hret, Hm, Hn. destruct (group_map (g_group g) !! tag_name t); reflexivity.
Qed.

Lemma del_tag_config clock d group n :
  tables_ok d →
  let '(ret, d') := neu_adapter_driver_del_tag clock d group n in
  tables_ok d' ∧
  (ret = NEU_ERR_SUCCESS ↔ is_Some (mem_tag d group n)) ∧
  (∀ x, mem_interval d' x = mem_interval d x) ∧
  (∀ x m, mem_tag d' x m = if decide (x = group ∧ m = n) then None else mem_tag d x m).
Proof.
  intros Hd. unfold neu_adapter_driver_del_tag.
  destruct (find_group d group) as [g|] eqn:Hf; cycle 1.
  { assert (Hnone : ∀ m, mem_tag d group m = None) by (intros m; unfold mem_tag; by rewrite Hf).
    split_and!; [done|split; [done|rewrite Hnone; by intros []]|done|].
    intros x m. case_decide as E; [|done]. destruct E as [-> ->]. by rewrite Hnone. }
  destruct (neu_group_del_tag clock (g_group g) n) as [ret gr] eqn:E.
  destruct (find_group_names d group g Hd Hf) as [Htab _].
  destruct (run_op_refines clock (OpDel n) (g_group g) Htab) as [Hret _]. simpl in Hret.
  rewrite E in Hret. simpl in Hret.
  assert (Hm : ∀ m, mem_tag d group m = cols_of_tag <$> group_map (g_group g) !! m).
  { intros m. unfold mem_tag. by rewrite Hf. }
  assert (Hop : ∀ d', d_groups d' = hash_update g_name group (with_group gr) (d_groups d) →
    tables_ok d' ∧ (∀ x, mem_interval d' x = mem_interval d x) ∧
    (∀ x m, mem_tag d' x m = if decide (x = group ∧ m = n) then None else mem_tag d x m)).
  { intros d' Hd'. destruct (group_op_config clock d d' group g (OpDel n)) as (?&?&Hmt);
      [done..|simpl; by rewrite E|]. split_and!; [done..|]. intros x m. rewrite Hmt. simpl.
    destruct (decide (x = group)) as [->|Hx]; [|by rewrite decide_False by naive_solver].
    rewrite Hm. destruct (group_map (g_group g) !! n) eqn:Hlk; simpl.
    - case_decide as E2; [destruct E2 as [_ ->]; by rewrite lookup_delete_eq|].
      by rewrite lookup_delete_ne by naive_solver.
    - case_decide as E2; [destruct E2 as [_ ->]; by rewrite Hlk|done]. }
  destruct (Hop (if ret =? NEU_ERR_SUCCESS
    then with_tag_cnt (u64 (d_tag_cnt d - 1)) (with_groups (hash_update g_name group (with_group gr) (d_groups d)) d)
    else with_groups (hash_update g_name group (with_group gr) (d_groups d)) d))
    as (Ha & Hb & Hc); [by destruct (ret =? _)|].
  split_and!; [done| |done|done].
  rewrite Hret, Hm. destruct (group_map (g_group g) !! n); simpl; [by eauto|].
  split; [done|by intros []].
Qed.

Lemma update_tag_config clock d group t :
  tables_ok d →
  let '(ret, d') := neu_adapter_driver_update_tag plugin clock d group t in
  tables_ok d' ∧
  (ret = NEU_ERR_SUCCESS → is_Some (mem_tag d group (tag_name t))) ∧
  (∀ x, mem_interval d' x = mem_interval d x) ∧
  (∀ x m, mem_tag d' x m = if decide (ret = NEU_ERR_SUCCESS ∧ x = group ∧ m = tag_name t)
                           then Some (cols_of_tag t) else mem_tag d x m).
Proof.
  intros Hd. unfold neu_adapter_driver_update_tag.
  assert (Hno : ∀ ret, ret ≠ NEU_ERR_SUCCESS → tables_ok d ∧
    (ret = NEU_ERR_SUCCESS → is_Some (mem_tag d group (tag_name t))) ∧
    (∀ x, mem_interval d x = mem_interval d x) ∧
    (∀ x m, mem_tag d x m = if decide (ret = NEU_ERR_SUCCESS ∧ x = group ∧ m = tag_name t)
                            then Some (cols_of_tag t) else mem_tag d x m)).
  { intros ret Hret. split_and!; [done..|]. intros x m. by rewrite decide_False by naive_solver. }
  repeat (case_decide; [by apply Hno|]). destruct (_ <? _); [by apply Hno|].
  destruct (validate_tag plugin t) as [ret0 t0] eqn:Ev.
  destruct (negb _) eqn:Hr0; [by apply Hno; destruct (Z.eqb_spec ret0 NEU_ERR_SUCCESS)|].
  destruct (plugin_cols t) as [Hc Hn]. rewrite Ev in Hc, Hn. simpl in Hc, Hn.
  destruct (find_group d group) as [g|] eqn:Hf; [|by apply Hno].
  destruct (neu_group_update_tag clock (g_group g) (parse_option t0)) as [ret gr] eqn:E.
  destruct (find_group_names d group g Hd Hf) as [Htab _].
  destruct (run_op_refines clock (OpUpdate (parse_option t0)) (g_group g) Htab) as [Hret _].
  simpl in Hret. rewrite E in Hret. simpl in Hret. rewrite Hn in Hret.
  assert (Hm : ∀ m, mem_tag d group m = cols_of_tag <$> group_map (g_group g) !! m).
  { intros m. unfold mem_tag. by rewrite Hf. }
  destruct (group_op_config clock d
    (with_groups (hash_update g_name group (with_group gr) (d_groups d)) d) group g
    (OpUpdate (parse_option t0))) as (?&?&Hmt); [done..|simpl; by rewrite E|].
  split_and!; [done| |done|].
  - rewrite Hret, Hm. destruct (group_map (g_group g) !! tag_name t); [eauto|done].
  - intros x m. rewrite Hmt. simpl. rewrite Hn, Hret.
    destruct (decide (x = group)) as [->|Hx]; [|by rewrite decide_False by naive_solver].
    rewrite Hm. destruct (group_map (g_group g) !! tag_name t) as [t1|] eqn:Hlk; simpl.
    + case_decide as E2.
      * destruct E2 as (_&_&->). rewrite lookup_insert_eq. simpl. by rewrite cols_copy, cols_parse, Hc.
      * by rewrite lookup_insert_ne by naive_solver.
    + done.
Qed.

Lemma rename_tag_config clock d group o n :
  tables_ok d →
  let '(ret, d') := neu_adapter_driver_rename_tag clock d group o n in
  tables_ok d' ∧
  (ret = NEU_ERR_SUCCESS → is_Some (mem_tag d group o) ∧ (String.length n < 128)%nat ∧
                           (o = n ∨ mem_tag d group n = None)) ∧
  (∀ x, mem_interval d' x = mem_interval d x) ∧
  (∀ x m, mem_tag d' x m =
     if decide (ret = NEU_ERR_SUCCESS ∧ x = group ∧ m = n) then mem_tag d group o
     else if decide (ret = NEU_ERR_SUCCESS ∧ x = group ∧ m = o) then None else mem_tag d x m).
Proof.
  intros Hd. unfold neu_adapter_driver_rename_tag.
  assert (Hno : ∀ ret, ret ≠ NEU_ERR_SUCCESS → tables_ok d ∧
    (ret = NEU_ERR_SUCCESS → is_Some (mem_tag d group o) ∧ (String.length n < 128)%nat ∧
                             (o = n ∨ mem_tag d group n = None)) ∧
    (∀ x, mem_interval d x = mem_interval d x) ∧
    (∀ x m, mem_tag d x m =
       if decide (ret = NEU_ERR_SUCCESS ∧ x = group ∧ m = n) then mem_tag d group o
       else if decide (ret = NEU_ERR_SUCCESS ∧ x = group ∧ m = o) then None else mem_tag d x m)).
  { intros ret Hret. split_and!; [done..|]. intros x m. by rewrite !decide_False by naive_solver. }
  case_decide as Hlen; [by apply Hno|]. unfold NEU_TAG_NAME_LEN in Hlen.
  destruct (find_group d group) as [g|] eqn:Hf; [|by apply Hno].
  destruct (neu_group_rename_tag clock (g_group g) o n) as [ret gr] eqn:E.
  destruct (find_group_names d group g Hd Hf) as [Htab _].
  destruct (run_op_refines clock (OpRename o n) (g_group g) Htab) as [Hret _].
  simpl in Hret. rewrite E in Hret. simpl in Hret.
  assert (Hm : ∀ m, mem_tag d group m = cols_of_tag <$> group_map (g_group g) !! m).
  { intros m. unfold mem_tag. by rewrite Hf. }
  set (d1 := with_groups (hash_update g_name group (with_group gr) (d_groups d)) d).
  destruct (group_op_config clock d
    (if ret =? NEU_ERR_SUCCESS
     then with_cache (neu_driver_cache_rename (d_cache d1) group o n) d1 else d1) group g
    (OpRename o n)) as (Hd' & Hi & Hmt); [done..|simpl; rewrite E; by destruct (ret =? _)|].
  split_and!; [done| |done|].
  - rewrite Hret, !Hm. destruct (group_map (g_group g) !! o) as [t|]; [|done].
    case_decide; [intros _; split_and!; [simpl; eauto|lia|by left]|].
    destruct (group_map (g_group g) !! n); [done|].
    intros _. split_and!; [simpl; eauto|lia|by right].
  - intros x m. rewrite Hmt. simpl. rewrite Hret.
    destruct (decide (x = group)) as [->|Hx]; [|by rewrite !decide_False by naive_solver].
    rewrite !Hm. destruct (group_map (g_group g) !! o) as [t|] eqn:Ho; cbn [fst snd];
      [|by rewrite !decide_False by (by intros [? _])].
    destruct (decide (o = n)) as [->|Hne]; cbn [fst snd].
    + case_decide as E2; [destruct E2 as (_&_&->); by rewrite Ho|done].
    + destruct (group_map (g_group g) !! n) eqn:Hn; cbn [fst snd];
        [by rewrite !decide_False by (by intros [? _])|].
      case_decide as E2; [destruct E2 as (_&_&->); by rewrite lookup_insert_eq|].
      rewrite lookup_insert_ne by naive_solver.
      case_decide as E3; [destruct E3 as (_&_&->); by rewrite lookup_delete_eq|].
      by rewrite lookup_delete_ne by naive_solver.
Qed.
End Tags.

(** ** Groups *)

Lemma tables_ok_del d name :
  tables_ok d → tables_ok (with_groups (hash_del g_name name (d_groups d)) d).
Proof.
  intros [Ht Hn]. split; simpl; [by apply table_ok_del|].
  by eapply Forall_sublist; [apply hash_del_sublist|].
Qed.

Lemma tables_ok_replace d name g :
  tables_ok d → g_name g = name → names_ok (g_group g) →
  tables_ok (with_groups (hash_update g_name name (λ _, g) (d_groups d)) d).
Proof.
  intros [Ht Hn] Hg Hok. split; simpl.
  - unfold table_ok. by rewrite hash_replace_keys.
  - apply Forall_forall. intros x Hx. apply elem_of_hash_replace in Hx as [->|[Hx _]]; [done| |done].
    rewrite Forall_forall in Hn. by apply Hn.
Qed.

(** The interval a group has after an update. *)
Definition updated_interval (old itv : Z) : Z :=
  if itv <? NEU_GROUP_INTERVAL_LIMIT then old else itv.

(** What an update of a group leaves: the group under its new name. *)
Lemma update_group_find now d name n itv :
  tables_ok d →
  let '(ret, d') := neu_adapter_driver_update_group now d name (Some n) itv in
  (ret ≠ NEU_ERR_SUCCESS → d' = d) ∧
  (ret = NEU_ERR_SUCCESS →
     tables_ok d' ∧ n ≠ EmptyString ∧ ∃ g g1,
     find_group d name = Some g ∧ (name = n ∨ find_group d n = None) ∧
     tags (g_group g1) = tags (g_group g) ∧
     interval (g_group g1) = updated_interval (interval (g_group g)) itv ∧
     g_apps g1 = g_apps g ∧
     (∀ x, find_group d' x =
        if decide (x = n) then Some g1 else if decide (x = name) then None else find_group d x)).
Proof.
  intros Hd. unfold neu_adapter_driver_update_group.
  destruct (find_group d name) as [g|] eqn:Hf; [|done].
  case_decide as Hn; [done|].
  destruct (negb _ && _) eqn:Hc; [done|].
  pose proof (find_group_names d name g Hd Hf) as Hok.
  unfold update_group_body.
  set (g0 := if d_running d then stop_group_timer g else g).
  assert (Hg0 : g_name g0 = g_name g ∧ g_group g0 = g_group g ∧ g_apps g0 = g_apps g)
    by (unfold g0; by destruct (d_running d)).
  destruct Hg0 as (Hg1 & Hg2 & Hg3). clearbody g0.
  apply hash_find_Some in Hf as Hf'. destruct Hf' as [_ Hgn].
  case_decide as Heq.
  - split; [done|]. intros _. subst n.
    match goal with |- context [hash_update g_name name (λ _, ?g')] => set (g1 := g') end.
    assert (H1 : g_name g1 = name ∧ tags (g_group g1) = tags (g_group g) ∧
                 interval (g_group g1) = updated_interval (interval (g_group g)) itv ∧
                 g_apps g1 = g_apps g).
    { unfold g1, updated_interval, neu_group_get_interval. rewrite Hg2.
      destruct (d_running d); simpl; rewrite ?Hg2; split_and!; congruence. }
    clearbody g1. destruct H1 as (H1 & H2 & H3 & H4). split; [|split; [done|]].
    { apply tables_ok_replace; [done..|]. destruct Hok. split; by rewrite H2. }
    exists g, g1. split_and!; try done; [by left|]. intros x. unfold find_group in *. simpl.
    rewrite hash_find_replace by done. case_decide as E; [by rewrite E, Hf|done].
  - simpl. split; [done|]. intros _.
    match goal with |- context [hash_add ?g' _] => set (g1 := g') end.
    assert (H1 : g_name g1 = n ∧ tags (g_group g1) = tags (g_group g) ∧
                 interval (g_group g1) = updated_interval (interval (g_group g)) itv ∧
                 g_apps g1 = g_apps g).
    { unfold g1, updated_interval, neu_group_get_interval.
      destruct (d_running d); simpl; rewrite ?Hg2; split_and!; congruence. }
    clearbody g1. destruct H1 as (H1 & H2 & H3 & H4).
    assert (Hnone : find_group d n = None).
    { destruct (find_group d n) eqn:E; [|done]. exfalso. revert Hc.
      rewrite bool_decide_eq_false_2, bool_decide_eq_true_2 by (done || rewrite E; eauto). done. }
    split; [|split; [done|]].
    { destruct (tables_ok_del d name Hd) as [Ht' Hn']. simpl in *. split; simpl.
      - apply table_ok_add; [done|]. rewrite H1, hash_find_del by apply Hd. by case_decide.
      - apply Forall_snoc. split; [done|]. destruct Hok. split; by rewrite H2. }
    exists g, g1. split_and!; try done; [by right|]. intros x. unfold find_group in *. simpl.
    destruct Hd as [Ht _]. rewrite hash_find_add, hash_find_del, H1 by done.
    destruct (decide (x = n)) as [->|Hxn].
    + rewrite decide_False by congruence. rewrite Hnone. by rewrite decide_True.
    + destruct (decide (x = name)) as [->|Hx]; [by rewrite decide_False|].
      destruct (hash_find g_name x _); [done|]. by rewrite decide_False.
Qed.

Lemma update_group_config now d name n itv :
  tables_ok d →
  let '(ret, d') := neu_adapter_driver_update_group now d name (Some n) itv in
  (ret ≠ NEU_ERR_SUCCESS → d' = d) ∧
  (ret = NEU_ERR_SUCCESS →
     tables_ok d' ∧ n ≠ EmptyString ∧ is_Some (mem_interval d name) ∧
     (name = n ∨ mem_interval d n = None) ∧
     (∀ x, mem_interval d' x =
        if decide (x = n) then (λ old, updated_interval old itv) <$> mem_interval d name
        else if decide (x = name) then None else mem_interval d x) ∧
     (∀ x m, mem_tag d' x m =
        if decide (x = n) then mem_tag d name m
        else if decide (x = name) then None else mem_tag d x m)).
Proof.
  intros Hd. pose proof (update_group_find now d name n itv Hd) as Hu.
  destruct (neu_adapter_driver_update_group now d name (Some n) itv) as [ret d'].
  destruct Hu as [Hfail Hok]. split; [done|]. intros E.
  destruct (Hok E) as (Ht & Hne & g & g1 & Hf & Hn & H2 & H3 & _ & Hfind).
  unfold mem_interval, mem_tag. split_and!; [done|done|by rewrite Hf; eauto| | |].
  - destruct Hn as [->|Hn]; [by left|right]. by rewrite Hn.
  - intros x. rewrite Hfind, Hf. repeat case_decide; [simpl; by rewrite H3|done..].
  - intros x m. rewrite Hfind, Hf. repeat case_decide; [|done..]. simpl.
    unfold group_map. by rewrite H2.
Qed.

(** ** Statements *)

Section Find.
Context {K A : Type} `{EqDecision K} (key : A → K).

Lemma hash_find_map (f : A → A) k k0 l :
  (∀ x, x ∈ l → key (f x) = k ↔ key x = k0) →
  hash_find key k (f <$> l) = f <$> hash_find key k0 l.
Proof.
  induction l as [|x l IH]; intros Hf; [done|]. csimpl.
  destruct (decide (key x = k0)) as [E|E].
  - rewrite decide_True; [done|]. apply Hf; [set_solver|done].
  - rewrite decide_False; [|intros Hk; apply E, Hf; [set_solver|done]].
    apply IH. intros y Hy. apply Hf. set_solver.
Qed.

Lemma hash_find_filter (P : A → Prop) `{∀ x, Decision (P x)} k l :
  (∀ x, x ∈ l → key x = k → P x) → hash_find key k (filter P l) = hash_find key k l.
Proof.
  induction l as [|x l IH]; intros HP; [done|]. rewrite filter_cons.
  assert (hash_find key k (filter P l) = hash_find key k l) as IH'.
  { apply IH. intros y Hy. apply HP. set_solver. }
  destruct (decide (P x)) as [Hx|Hx]; simpl; destruct (decide (key x = k)) as [E|E]; try done.
  exfalso. apply Hx, HP; [set_solver|done].
Qed.

Lemma hash_find_filter_out (P : A → Prop) `{∀ x, Decision (P x)} k l :
  (∀ x, x ∈ l → key x = k → ¬ P x) → hash_find key k (filter P l) = None.
Proof.
  intros HP. apply hash_find_None. intros (x & -> & [Hx Hin]%list_elem_of_filter)%list_elem_of_fmap.
  by apply (HP x).
Qed.
End Find.

Section Statements.
Context `{SQL : Sqlite} `{!SqliteOk SQL}.

Lemma text_fits_bytes n s : Z.of_nat (String.length s) <= n → text_fits n s = true.
Proof. intros Hs. unfold text_fits. pose proof (sql_length_bytes s). lia. Qed.

Definition fits_opt (n : Z) (s : option string) : Prop :=
  ∀ x, s = Some x → Z.of_nat (String.length x) <= n.

Lemma null_text_fits_bytes n s : fits_opt n s → null_text_fits n s = true.
Proof. intros Hs. destruct s as [x|]; [|done]. apply text_fits_bytes. by apply Hs. Qed.

Lemma db_interval_key driver db g :
  is_Some (db_interval driver db g) ↔ (driver, g) ∈ group_row_key <$> db_groups db.
Proof.
  unfold db_interval. rewrite fmap_is_Some. apply (hash_find_is_Some group_row_key).
Qed.

Lemma db_interval_none driver db g :
  db_interval driver db g = None ↔ (driver, g) ∉ group_row_key <$> db_groups db.
Proof. rewrite eq_None_not_Some, db_interval_key. done. Qed.

Lemma db_tag_none driver db g n :
  db_tag driver db g n = None ↔ (driver, g, n) ∉ tag_row_key <$> db_tags db.
Proof. unfold db_tag. rewrite fmap_None. apply (hash_find_None tag_row_key). Qed.

Lemma db_tag_group driver db g n :
  db_ok db → is_Some (db_tag driver db g n) → is_Some (db_interval driver db g).
Proof.
  intros Hdb. unfold db_tag. rewrite fmap_is_Some, db_interval_key. intros [r Hr].
  apply hash_find_Some in Hr as [Hr Hk]. apply (dok_tag_group db Hdb) in Hr.
  unfold tag_row_key, tag_parent in *. congruence.
Qed.

Lemma store_group_config db driver name itv context :
  driver ∈ nr_name <$> db_nodes db → (String.length name <= 128)%nat → 10 <= u32 itv →
  fits_opt 512 context →
  let db' := (neu_sqlite_persister_store_group db driver name itv context).2 in
  db_nodes db' = db_nodes db ∧
  (∀ x, db_interval driver db' x =
     if decide (x = name) then Some (default (u32 itv) (db_interval driver db name))
     else db_interval driver db x) ∧
  (∀ x n, db_tag driver db' x n = db_tag driver db x n).
Proof.
  intros Hn Hlen Hitv Hctx. unfold neu_sqlite_persister_store_group.
  set (r := {| gr_driver := driver |}).
  assert (Hck : group_check r = true).
  { unfold group_check, r. simpl. rewrite text_fits_bytes, null_text_fits_bytes by (done || lia).
    rewrite andb_true_r, andb_true_l. lia. }
  rewrite Hck, (bool_decide_eq_true_2 _ Hn), !andb_true_l.
  change (group_row_key r) with (driver, name).
  destruct (db_interval driver db name) as [i|] eqn:Hi.
  - rewrite bool_decide_eq_false_2; [|intros Hno; apply db_interval_none in Hno; congruence].
    split_and!; [done| |done]. intros x. simpl. case_decide as E; [|done]. by rewrite E.
  - rewrite bool_decide_eq_true_2 by (by apply db_interval_none).
    split_and!; [done| |done]. intros x. unfold db_interval in *. simpl.
    change (db_groups db ++ [r]) with (hash_add r (db_groups db)).
    rewrite hash_find_add. destruct (decide (x = name)) as [->|E].
    + apply fmap_None in Hi. rewrite Hi. by rewrite decide_True.
    + destruct (hash_find _ (driver, x) _); [done|]. rewrite decide_False; [done|].
      unfold group_row_key, r. simpl. congruence.
Qed.

Lemma delete_group_config db driver name :
  let db' := (neu_sqlite_persister_delete_group db driver name).2 in
  db_nodes db' = db_nodes db ∧
  (∀ x, db_interval driver db' x = if decide (x = name) then None else db_interval driver db x) ∧
  (∀ x n, db_tag driver db' x n = if decide (x = name) then None else db_tag driver db x n).
Proof.
  split_and!; [done|..].
  - intros x. unfold db_interval. simpl. case_decide as E.
    + rewrite hash_find_filter_out; [done|]. intros r _ Hk HP. apply HP. by rewrite Hk, E.
    + rewrite hash_find_filter; [done|]. intros r _ Hk. rewrite Hk. by intros [= ->].
  - intros x n. unfold db_tag. simpl. case_decide as E.
    + rewrite hash_find_filter_out; [done|]. intros r _ Hk HP. apply HP.
      unfold tag_row_key, tag_parent in *. congruence.
    + rewrite hash_find_filter; [done|]. intros r _ Hk.
      unfold tag_row_key, tag_parent in *. congruence.
Qed.

Lemma update_group_view db driver name n oi :
  db_ok db → (String.length n <= 128)%nat → (∀ i, oi = Some i → 10 <= i) →
  is_Some (db_interval driver db name) → name = n ∨ db_interval driver db n = None →
  ∃ db', update_group driver name n oi db = Some db' ∧ db_nodes db' = db_nodes db ∧
    (∀ x, db_interval driver db' x =
       if decide (x = n) then (λ old, default old oi) <$> db_interval driver db name
       else if decide (x = name) then None else db_interval driver db x) ∧
    (∀ x m, db_tag driver db' x m =
       if decide (x = n) then db_tag driver db name m
       else if decide (x = name) then None else db_tag driver db x m).
Proof.
  intros Hdb Hlen Hoi [i Hi] Hn. unfold db_interval in Hi.
  apply fmap_Some in Hi as (r & Hr & ->).
  assert (Hfree : ∀ p, p ∈ group_row_key <$> db_groups db → p ≠ (driver, name) → p ≠ (driver, n)).
  { intros p Hp Hpn ->. destruct Hn as [->|Hn]; [done|]. by apply db_interval_none in Hn. }
  unfold update_group. rewrite Hr.
  set (f := λ r : group_row, {| gr_driver := gr_driver r; gr_name := n;
    gr_interval := default (gr_interval r) oi; gr_context := gr_context r |}). cbv zeta.
  apply hash_find_Some in Hr as Hr'. destruct Hr' as [Hin Hk].
  assert (Hck : group_check (f r) = true).
  { apply (dok_group_check db Hdb) in Hin. revert Hin. unfold group_check, f. simpl.
    rewrite !andb_true_iff, !Z.leb_le. intros [[_ H1] H2].
    split_and!; [apply text_fits_bytes; lia| |done].
    destruct oi as [j|]; simpl; [by apply Hoi|done]. }
  assert (Hu : bool_decide (name = n) || bool_decide ((driver, n) ∉ group_row_key <$> db_groups db)
               = true).
  { destruct Hn as [->|Hn]; [by rewrite bool_decide_eq_true_2|].
    rewrite orb_true_iff. right. apply bool_decide_eq_true_2. by apply db_interval_none. }
  change (group_check {| gr_driver := _ |}) with (group_check (f r)). rewrite Hck, Hu. eexists. split; [done|]. split; [done|]. unfold db_interval, db_tag. simpl.
  rewrite Hr. split.
  - intros x. destruct (decide (x = n)) as [->|Hxn].
    + rewrite (hash_find_map group_row_key _ _ (driver, name)).
      * rewrite Hr. simpl. by rewrite decide_True.
      * intros y Hy. pose proof (Hfree (group_row_key y) (key_elem group_row_key y _ Hy)) as Hf.
        destruct (decide (group_row_key y = (driver, name))) as [E|E];
          [|split; intros H'; [by destruct (Hf E)|done]].
        split; [done|]. intros _. unfold f, group_row_key in *. simpl. congruence.
    + destruct (decide (x = name)) as [->|Hx].
      * replace (hash_find _ _ _) with (@None group_row); [done|]. symmetry.
        apply hash_find_None. intros (y & Hy & (z & -> & Hz)%list_elem_of_fmap)%list_elem_of_fmap.
        case_decide as E; [|done]. unfold f, group_row_key in *. simpl in *. congruence.
      * rewrite (hash_find_map group_row_key _ _ (driver, x)).
        -- destruct (hash_find _ (driver, x) _) as [y|] eqn:Hy; [|done]. simpl.
           apply hash_find_Some in Hy as [_ Hy]. rewrite decide_False; [done|congruence].
        -- intros y Hy. destruct (decide (group_row_key y = (driver, name))) as [E|E]; [|done].
           unfold f, group_row_key in *. simpl. split; congruence.
  - intros x m. destruct (decide (x = n)) as [->|Hxn].
    + rewrite (hash_find_map tag_row_key _ _ (driver, name, m)).
      * destruct (hash_find _ (driver, name, m) _) as [t|]; [|done]. csimpl.
        by destruct (decide (tag_parent t = (driver, name))).
      * intros y Hy. pose proof (Hfree (tag_parent y) (dok_tag_group db Hdb y Hy)) as Hf.
        unfold tag_row_key, tag_parent in *.
        destruct (decide ((tr_driver y, tr_group y) = (driver, name))) as [E|E]; simpl.
        -- injection E as -> ->. split; congruence.
        -- specialize (Hf E). split; congruence.
    + destruct (decide (x = name)) as [->|Hx].
      * replace (hash_find _ _ _) with (@None tag_row); [done|]. symmetry.
        apply hash_find_None. intros (y & Hy & (z & -> & Hz)%list_elem_of_fmap)%list_elem_of_fmap.
        unfold tag_row_key, tag_parent in *. case_decide as E; simpl in *; congruence.
      * rewrite (hash_find_map tag_row_key _ _ (driver, x, m)).
        -- destruct (hash_find _ (driver, x, m) _) as [t|]; [|done]. csimpl.
        by destruct (decide (tag_parent t = (driver, name))).
        -- intros y Hy. unfold tag_row_key, tag_parent in *.
           destruct (decide ((tr_driver y, tr_group y) = (driver, name))) as [E|E]; [|done].
           simpl. split; congruence.
Qed.

Lemma update_group_statement_config db driver name n itv :
  db_ok db → (String.length n <= 128)%nat → 0 <= itv < 2147483648 →
  is_Some (db_interval driver db name) → name = n ∨ db_interval driver db n = None →
  let db' := (neu_sqlite_persister_update_group db driver name n itv).2 in
  db_nodes db' = db_nodes db ∧
  (∀ x, db_interval driver db' x =
     if decide (x = n) then (λ old, updated_interval old itv) <$> db_interval driver db name
     else if decide (x = name) then None else db_interval driver db x) ∧
  (∀ x m, db_tag driver db' x m =
     if decide (x = n) then db_tag driver db name m
     else if decide (x = name) then None else db_tag driver db x m).
Proof.
  intros Hdb Hlen Hitv Hi Hn. unfold neu_sqlite_persister_update_group, updated_interval.
  change (itv <? NEU_GROUP_INTERVAL_LIMIT) with (itv <? 30).
  assert (Hs : s32 itv = itv) by zlia.
  destruct (Z.leb_spec 30 itv) as [H30|H30].
  - assert (Hlt : (itv <? 30) = false) by lia. rewrite Hlt.
    destruct (update_group_view db driver name n (Some (s32 itv))) as (db' & E & ?&?&?);
      [done..|intros j [= <-]; rewrite Hs; lia|done|done|].
    rewrite Hs in *. case_bool_decide as Hb; simpl; [subst n|]; rewrite E; done.
  - assert (Hlt : (itv <? 30) = true) by lia. rewrite Hlt, andb_false_r.
    case_bool_decide as Hb; simpl.
    + subst n. split_and!; [done|..].
      * intros x. case_decide as E; [|done]. rewrite E. by destruct (db_interval driver db name).
      * intros x m. case_decide as E; [|done]. by rewrite E.
    + destruct (update_group_view db driver name n None) as (db' & E & ?&?&?); [done..|].
      by rewrite E.
Qed.

(** The statement rewrites the rows of the group, or has nothing to do. *)
Lemma update_group_statement_rows db driver name n itv :
  db_ok db → (String.length n <= 128)%nat → 0 <= itv < 2147483648 →
  is_Some (db_interval driver db name) → name = n ∨ db_interval driver db n = None →
  let db' := (neu_sqlite_persister_update_group db driver name n itv).2 in
  name = n ∧ db' = db ∨
  ∃ f, (∀ r, gr_driver (f r) = gr_driver r ∧ gr_name (f r) = n) ∧
       db' = update_group_rows driver name f n db.
Proof.
  intros Hdb Hlen Hitv Hi Hn. assert (Hs : s32 itv = itv) by zlia.
  assert (Hrows : ∀ j, (∀ i, j = Some i → 10 <= i) → ∃ f,
    (∀ r, gr_driver (f r) = gr_driver r ∧ gr_name (f r) = n) ∧
    update_group driver name n j db = Some (update_group_rows driver name f n db)).
  { intros j Hj. destruct (update_group_view db driver name n j) as (db' & E & _); [done..|].
    revert E. unfold update_group. unfold db_interval in Hi.
    destruct (hash_find group_row_key (driver, name) (db_groups db)); [|by destruct Hi].
    destruct (_ && _); [|done]. intros _. eexists. by split; [|reflexivity]. }
  unfold neu_sqlite_persister_update_group.
  destruct (Z.leb_spec 30 itv) as [H30|H30].
  - destruct (Hrows (Some (s32 itv))) as (f & Hf & E); [intros i [= <-]; lia|].
    right. exists f. case_bool_decide as Hb; simpl; [subst n|]; by rewrite E.
  - rewrite andb_false_r. case_bool_decide as Hb; simpl; [by left|].
    destruct (Hrows None) as (f & Hf & E); [done|]. right. exists f. by rewrite E.
Qed.

(** *** Tags *)

(** What a request has to respect for its tags to fit the columns, beyond what the
    driver checks: the scale factor and the bias survive the text of a statement. *)
Record storable (t : neu_datatag_t) : Prop := {
  sto_attribute : 0 <= tag_attribute t <= 15;
  sto_precision : 0 <= tag_precision t;
  sto_unit : fits_opt 128 (tag_unit t);
  sto_n_format : 0 <= tag_n_format t <= 16;
  sto_format : length (tag_format t) = 16%nat ∧ bytes_ok (tag_format t);
  sto_decimal : sql_lf (tag_decimal t) = Some (tag_decimal t);
  sto_bias : sql_lf (tag_bias t) = Some (tag_bias t);
  sto_decimal_nan : sf_is_nan (d64_of_bits (tag_decimal t)) = false;
  sto_bias_nan : sf_is_nan (d64_of_bits (tag_bias t)) = false;
}.

(** What [neu_adapter_driver_validate_tag] checks. *)
Record checked (t : neu_datatag_t) : Prop := {
  chk_name : (String.length (tag_name t) < 128)%nat;
  chk_address : (String.length (tag_address t) < 128)%nat;
  chk_description : (String.length (default EmptyString (tag_description t)) < 256)%nat;
  chk_precision : tag_precision t <= 17;
}.

(** A row that is read back as it was written. *)
Definition faithful (r : tag_row) : Prop := cols_of_tag (tag_of_row r) = cols_of_row r.
Definition rows_faithful (db : database) : Prop := ∀ r, r ∈ db_tags db → faithful r.

Lemma format_column_roundtrip t :
  0 <= tag_n_format t <= 16 → length (tag_format t) = 16%nat → bytes_ok (tag_format t) →
  let '(n, fs) := neu_format_from_str (Some (format_column t)) in
  let t' := {| tag_name := tag_name t; tag_address := tag_address t;
               tag_attribute := tag_attribute t; tag_type := tag_type t;
               tag_precision := tag_precision t; tag_decimal := tag_decimal t;
               tag_bias := tag_bias t; tag_description := tag_description t;
               tag_unit := tag_unit t; tag_option := tag_option t; tag_meta := tag_meta t;
               tag_format := fs ++ replicate (NEU_TAG_FORMAT_LENGTH - length fs) 0;
               tag_n_format := u8 n |} in
  format_column t' = format_column t.
Proof.
  intros Hn Hl Hb. unfold format_column. destruct (Z.ltb_spec 0 (tag_n_format t)) as [H0|H0]; [|done].
  set (fs := take (Z.to_nat (tag_n_format t)) (tag_format t)).
  assert (Hfs : length fs = Z.to_nat (tag_n_format t)) by (unfold fs; rewrite length_take; lia).
  rewrite format_roundtrip; fold fs; cycle 1.
  - by apply Forall_take.
  - unfold NEU_TAG_FORMAT_LENGTH. lia.
  - cbn [tag_n_format tag_format]. rewrite Hfs, Z2Nat.id, u8_id by lia.
    destruct (Z.ltb_spec 0 (tag_n_format t)); [|lia].
    unfold neu_tag_format_str. cbn [tag_n_format tag_format].
    rewrite take_app_length' by done. done.
Qed.

Lemma row_faithful driver group t dec bias v :
  storable t → checked t → faithful (row_of_tag driver group t dec bias v).
Proof.
  intros Hs Hc. destruct (sto_format t Hs) as [Hl Hb].
  pose proof (format_column_roundtrip t (sto_n_format t Hs) Hl Hb) as Hf.
  unfold faithful, tag_of_row.
  change (tr_format (row_of_tag driver group t dec bias v)) with (format_column t).
  destruct (neu_format_from_str (Some (format_column t))) as [n fs]. cbv zeta in Hf.
  unfold cols_of_tag, cols_of_row. simpl.
  pose proof (sto_precision t Hs). pose proof (chk_precision t Hc).
  rewrite u8_id by lia. f_equal. rewrite <-Hf. unfold format_column, neu_tag_format_str. done.
Qed.

Lemma row_check driver group t dec bias v :
  storable t → checked t → tag_check (row_of_tag driver group t dec bias v) = true.
Proof.
  intros [] []. unfold tag_check, between. simpl.
  rewrite !text_fits_bytes, !null_text_fits_bytes by
    (done || lia || (intros x Hx; rewrite Hx in *; simpl in *; lia)).
  rewrite !andb_true_iff, !Z.leb_le. lia.
Qed.

Lemma insert_tag_config db driver group t dec bias v :
  storable t → checked t → is_Some (db_interval driver db group) →
  db_tag driver db group (tag_name t) = None →
  let r := row_of_tag driver group t dec bias v in
  insert_tag r db = Some (with_tags (db_tags db ++ [r]) db) ∧
  (∀ x n, db_tag driver (with_tags (db_tags db ++ [r]) db) x n =
     if decide (x = group ∧ n = tag_name t) then Some (cols_of_row r) else db_tag driver db x n).
Proof.
  intros Hs Hc Hg Hn r. unfold insert_tag.
  assert (Hck : tag_check r = true) by (by apply row_check). rewrite Hck.
  rewrite (bool_decide_eq_true_2 (tag_parent r ∈ _)) by (by apply db_interval_key).
  rewrite bool_decide_eq_true_2 by (by apply db_tag_none in Hn). split; [done|].
  intros x n. unfold db_tag in *. simpl.
  change (db_tags db ++ [r]) with (hash_add r (db_tags db)). rewrite hash_find_add.
  apply fmap_None in Hn.
  destruct (decide (x = group ∧ n = tag_name t)) as [[-> ->]|E].
  - rewrite Hn. by rewrite decide_True.
  - destruct (hash_find _ (driver, x, n) _); [done|]. rewrite decide_False; [done|].
    unfold tag_row_key, r. simpl. naive_solver.
Qed.

Lemma storable_bare t t' : bare t = bare t' → storable t → storable t'.
Proof.
  intros E H. assert (H' : storable (bare t)) by (by destruct H). rewrite E in H'.
  by destruct H'.
Qed.

Lemma checked_bare t t' : bare t = bare t' → checked t → checked t'.
Proof.
  intros E H. assert (H' : checked (bare t)) by (by destruct H). rewrite E in H'.
  by destruct H'.
Qed.

Definition same_groups (db db' : database) : Prop :=
  db_nodes db' = db_nodes db ∧ db_groups db' = db_groups db.

Lemma same_groups_interval driver db db' x :
  same_groups db db' → db_interval driver db' x = db_interval driver db x.
Proof. intros [_ E]. unfold db_interval. by rewrite E. Qed.

(** The tags of a request, by name. *)
Definition added (ts : list neu_datatag_t) (n : string) : option tag_cols :=
  cols_of_tag <$> hash_find tag_name n ts.

Lemma put_tags_config driver group ts db :
  Forall storable ts → Forall checked ts → is_Some (db_interval driver db group) →
  NoDup (tag_name <$> ts) → (∀ t, t ∈ ts → db_tag driver db group (tag_name t) = None) →
  rows_faithful db →
  ∃ db', put_tags driver group ts db = Some db' ∧ same_groups db db' ∧ rows_faithful db' ∧
    ∀ x n, db_tag driver db' x n =
      if decide (x = group) then (if added ts n is Some c then Some c else db_tag driver db group n)
      else db_tag driver db x n.
Proof.
  revert db. induction ts as [|t ts IH]; intros db Hs Hc Hg Hnd Hnone Hf.
  { exists db. split_and!; try done. intros x n. simpl. case_decide as E; [by rewrite E|done]. }
  apply Forall_cons in Hs as [Hs Hss]. apply Forall_cons in Hc as [Hc Hcs].
  apply NoDup_cons in Hnd as [Hnt Hnd]. simpl. unfold bind_double.
  rewrite (sto_decimal_nan t Hs), (sto_bias_nan t Hs). simpl.
  set (r := row_of_tag driver group t (tag_decimal t) (tag_bias t) None).
  destruct (insert_tag_config db driver group t (tag_decimal t) (tag_bias t) None) as [Hins Htag];
    [done..|apply Hnone; set_solver|]. fold r in Hins, Htag. rewrite Hins. simpl.
  set (db1 := with_tags (db_tags db ++ [r]) db) in *.
  destruct (IH db1) as (db' & Hput & [Hn1 Hg1] & Hf' & Htags);
    [done|done|done|done|..].
  { intros t' Ht'. rewrite Htag, decide_False; [apply Hnone; set_solver|].
    intros [_ Heq]. apply Hnt. rewrite <-Heq. by apply list_elem_of_fmap_2. }
  { intros x [Hx| ->%list_elem_of_singleton]%elem_of_app; [by apply Hf|by apply row_faithful]. }
  exists db'. split_and!; [done|split; [by rewrite Hn1|by rewrite Hg1]|done|].
  intros x n. rewrite Htags. destruct (decide (x = group)) as [->|Hx].
  - unfold added. simpl. rewrite Htag. destruct (decide (tag_name t = n)) as [<-|Hn].
    + rewrite decide_True by done.
      replace (hash_find tag_name (tag_name t) ts) with (@None neu_datatag_t); [done|].
      symmetry. by apply hash_find_None.
    + rewrite decide_False by naive_solver. done.
  - rewrite Htag, decide_False by naive_solver. done.
Qed.

Lemma store_tag_config driver group t db :
  storable t → checked t → is_Some (db_interval driver db group) →
  db_tag driver db group (tag_name t) = None → rows_faithful db →
  let db' := (neu_sqlite_persister_store_tag db driver group t).2 in
  same_groups db db' ∧ rows_faithful db' ∧
  ∀ x n, db_tag driver db' x n =
    if decide (x = group ∧ n = tag_name t) then Some (cols_of_tag t) else db_tag driver db x n.
Proof.
  intros Hs Hc Hg Hn Hf. unfold neu_sqlite_persister_store_tag.
  rewrite (sto_decimal t Hs). simpl. rewrite (sto_bias t Hs). simpl.
  destruct (insert_tag_config db driver group t (tag_decimal t) (tag_bias t) (Some EmptyString))
    as [Hins Htag]; [done..|].
  rewrite Hins. simpl. split_and!; [done| |done].
  intros x [Hx| ->%list_elem_of_singleton]%elem_of_app; [by apply Hf|by apply row_faithful].
Qed.

Lemma faithful_alt r :
  faithful r ↔ u8 (tr_precision r) = tr_precision r ∧ format_column (tag_of_row r) = tr_format r.
Proof.
  unfold faithful, cols_of_tag, cols_of_row. unfold tag_of_row at 1 2 3 4 5 6 7 8.
  destruct (neu_format_from_str (Some (tr_format r))) as [n fs]. simpl.
  split; [by intros [= ? ?]|intros [-> ->]; done].
Qed.

Lemma format_column_of_row r r' :
  tr_format r = tr_format r' → format_column (tag_of_row r) = format_column (tag_of_row r').
Proof.
  intros E. unfold tag_of_row. rewrite E. by destruct (neu_format_from_str _).
Qed.

(** Statements that map the row of one tag. *)
Lemma update_tag_rows_find driver group name f db k :
  (∀ r, tag_row_key (f r) = tag_row_key r) →
  hash_find tag_row_key k (db_tags (update_tag_rows driver group name f db)) =
  (if decide (k = (driver, group, name)) then f <$> hash_find tag_row_key k (db_tags db)
   else hash_find tag_row_key k (db_tags db)).
Proof.
  intros Hf. simpl. rewrite (hash_find_map tag_row_key _ k k).
  - destruct (hash_find tag_row_key k (db_tags db)) as [r|] eqn:E; simpl; [|by case_decide].
    apply hash_find_Some in E as [_ E]. rewrite E. by case_decide.
  - intros x _. case_decide; [by rewrite Hf|done].
Qed.

(** The row keeps its format. *)
Definition with_format (s : string) (c : tag_cols) : tag_cols :=
  {| c_address := c_address c; c_attribute := c_attribute c; c_precision := c_precision c;
     c_type := c_type c; c_decimal := c_decimal c; c_bias := c_bias c;
     c_description := c_description c; c_unit := c_unit c; c_format := s |}.

Lemma update_tag_statement_config driver group t db c :
  db_ok db → storable t → checked t → db_tag driver db group (tag_name t) = Some c →
  rows_faithful db →
  let db' := (neu_sqlite_persister_update_tag db driver group t).2 in
  same_groups db db' ∧ rows_faithful db' ∧
  ∀ x n, db_tag driver db' x n =
    if decide (x = group ∧ n = tag_name t) then Some (with_format (c_format c) (cols_of_tag t))
    else db_tag driver db x n.
Proof.
  intros Hdb Hs Hc Hn Hf. unfold neu_sqlite_persister_update_tag.
  rewrite (sto_decimal t Hs). simpl. rewrite (sto_bias t Hs). simpl.
  destruct (decide ((driver, group, tag_name t) ∉ _)) as [E|E].
  { apply db_tag_none in E. congruence. }
  rewrite row_check by done. cbn [execute_sql snd].
  set (f := λ r : tag_row, {| tr_driver := tr_driver r |}).
  unfold db_tag in Hn. apply fmap_Some in Hn as (r & Hr & ->).
  split_and!; [done| |].
  - intros y (x & -> & Hx)%list_elem_of_fmap. case_decide as Ek; [|by apply Hf].
    apply faithful_alt. pose proof (Hf x Hx) as [_ Hx2]%faithful_alt. simpl.
    pose proof (sto_precision t Hs). pose proof (chk_precision t Hc).
    split; [apply u8_id; lia|]. by rewrite <-Hx2; apply format_column_of_row.
  - intros x n. unfold db_tag. rewrite update_tag_rows_find by done.
    destruct (decide (x = group ∧ n = tag_name t)) as [[-> ->]|Hne].
    + rewrite decide_True by done. rewrite Hr. done.
    + rewrite decide_False by naive_solver. done.
Qed.

Lemma delete_tag_statement_config driver group n db :
  rows_faithful db →
  let db' := (neu_sqlite_persister_delete_tag db driver group n).2 in
  same_groups db db' ∧ rows_faithful db' ∧
  ∀ x m, db_tag driver db' x m = if decide (x = group ∧ m = n) then None else db_tag driver db x m.
Proof.
  intros Hf. split_and!; [done| |].
  - intros r [_ Hr]%list_elem_of_filter. by apply Hf.
  - intros x m. unfold db_tag. simpl.
    destruct (decide (x = group ∧ m = n)) as [[-> ->]|Hne].
    + rewrite hash_find_filter_out; [done|]. by intros r _ Hk HP.
    + rewrite hash_find_filter; [done|]. intros r _ Hk. rewrite Hk. naive_solver.
Qed.

Lemma rename_tag_statement_config driver group o n db :
  (String.length n <= 128)%nat → is_Some (db_tag driver db group o) →
  o = n ∨ db_tag driver db group n = None → rows_faithful db →
  ∃ db', neu_sqlite_persister_rename_tag db driver group o n = (0, db') ∧
  same_groups db db' ∧ rows_faithful db' ∧
  ∀ x m, db_tag driver db' x m =
    if decide (x = group ∧ m = n) then db_tag driver db group o
    else if decide (x = group ∧ m = o) then None else db_tag driver db x m.
Proof.
  intros Hlen Ho Hn Hf. unfold neu_sqlite_persister_rename_tag.
  destruct (decide ((driver, group, o) ∉ _)) as [E|E].
  { apply db_tag_none in E. rewrite E in Ho. by destruct Ho. }
  rewrite text_fits_bytes by lia.
  assert (Hu : bool_decide (o = n) ||
               bool_decide ((driver, group, n) ∉ tag_row_key <$> db_tags db) = true).
  { destruct Hn as [->|Hn]; [by rewrite bool_decide_eq_true_2|].
    rewrite orb_true_iff. right. apply bool_decide_eq_true_2. by apply db_tag_none. }
  rewrite Hu. simpl. eexists. split; [done|]. split_and!; [done| |].
  - intros y (x & -> & Hx)%list_elem_of_fmap. destruct (decide (tag_row_key x = (driver, group, o))) as [Ek|Ek]; [|by apply Hf].
    apply faithful_alt. pose proof (Hf x Hx) as [Hx1 Hx2]%faithful_alt. simpl. split; [done|].
    by rewrite <-Hx2; apply format_column_of_row.
  - assert (Hfree : ∀ y, y ∈ db_tags db → tag_row_key y ≠ (driver, group, o) →
                      tag_row_key y ≠ (driver, group, n)).
    { intros y Hy Hne Heq. destruct Hn as [->|Hn]; [done|]. apply db_tag_none in Hn. apply Hn.
      rewrite <-Heq. by apply key_elem. }
    intros x m. unfold db_tag. simpl.
    destruct (decide (x = group ∧ m = n)) as [[-> ->]|Hne].
    + rewrite (hash_find_map tag_row_key _ _ (driver, group, o)).
      * destruct (hash_find tag_row_key (driver, group, o) _); [|done]. csimpl.
        by destruct (decide _).
      * intros y Hy. destruct (decide (tag_row_key y = (driver, group, o))) as [Ey|Ey].
        -- split; [done|]. intros _. unfold tag_row_key in *. simpl. congruence.
        -- split; [|done]. intros Hk. by destruct (Hfree y Hy Ey).
    + destruct (decide (x = group ∧ m = o)) as [[-> ->]|Hne'].
      * replace (hash_find _ _ _) with (@None tag_row); [done|]. symmetry.
        apply hash_find_None. intros (y & Hy & (z & -> & Hz)%list_elem_of_fmap)%list_elem_of_fmap.
        case_decide as Ez; [|done]. unfold tag_row_key in *. simpl in *. naive_solver.
      * rewrite (hash_find_map tag_row_key _ _ (driver, x, m)).
        -- destruct (hash_find tag_row_key (driver, x, m) _); [|done]. csimpl.
           by destruct (decide _).
        -- intros y Hy. destruct (decide (tag_row_key y = (driver, group, o))) as [Ey|Ey]; [|done].
           unfold tag_row_key in *. simpl. split; naive_solver.
Qed.

Lemma update_group_faithful db driver name n itv :
  rows_faithful db → rows_faithful (neu_sqlite_persister_update_group db driver name n itv).2.
Proof.
  intros Hf.
  assert (H : ∀ m oi, rows_faithful (execute_sql db (update_group driver name m oi db)).2).
  { intros m oi. unfold update_group. destruct (hash_find _ _ _); [|done]. cbv zeta.
    destruct (_ && _); [|done]. intros y (x & -> & Hx)%list_elem_of_fmap.
    destruct (decide (tag_parent x = (driver, name))); [|by apply Hf].
    apply faithful_alt. pose proof (Hf x Hx) as [Hx1 Hx2]%faithful_alt. simpl. split; [done|].
    by rewrite <-Hx2; apply format_column_of_row. }
  unfold neu_sqlite_persister_update_group. repeat case_match; done.
Qed.
End Statements.
