(* ===== verification/AdapterStored.v ===== *)
(** * The requests on groups and tags and the database

    [stored_config]: the tables hold the groups and tags that the driver has in
    memory, in rows that are read back as they were written.  Every request that
    changes groups or tags keeps it ([kept]), and a request to add tags adds all
    of them or nothing. *)

From S2P Require Import Prelude UtHash NeuTypes CHeap DriverCache Tag Group Driver Persist Adapter AdapterConfig.

(** ** Statements that touch groups and tags only *)

(** The driver whose groups and tags a statement changes, and whether it renames or
    deletes a group, which takes the subscriptions along. *)
Definition op_config (op : persister_op) : option (bool * string) :=
  match op with
  | PUpdateGroup d _ _ _ | PDeleteGroup d _ => Some (true, d)
  | PStoreGroup d _ _ _ | PStoreTag d _ _ | PStoreTags d _ _ | PUpdateTag d _ _
  | PDeleteTag d _ _ | PRenameTag d _ _ _ => Some (false, d)
  | _ => None
  end.

Section Path.
Context `{SQL : Sqlite}.

(** Statements on the configuration of [node]; [moves] allows the former kind. *)
Definition config_path (moves : bool) (node : string) : relation database :=
  rtc (λ db db', ∃ op m, op_config op = Some (m, node) ∧ implb m moves = true ∧
                         db' = (run_persister op db).2).

Lemma config_path_one op moves node db :
  op_config op = Some (moves, node) → config_path moves node db (run_persister op db).2.
Proof. intros Hop. apply rtc_once. exists op, moves. by destruct moves. Qed.

Lemma config_path_ok m node db db' : config_path m node db db' → db_ok db → db_ok db'.
Proof.
  induction 1 as [|x y z (op & m' & _ & _ & ->) _ IH]; [done|]. intros Hx. apply IH.
  by apply run_persister_ok.
Qed.

Definition same_node (db db' : database) : Prop :=
  db_nodes db' = db_nodes db ∧ db_settings db' = db_settings db.

Lemma put_tags_same_node driver group ts db db' :
  put_tags driver group ts db = Some db' → same_node db db'.
Proof.
  revert db. induction ts as [|t ts IH]; intros db; simpl; [by intros [= <-]|].
  destruct (bind_double (tag_decimal t)); simpl; [|done].
  destruct (bind_double (tag_bias t)); simpl; [|done].
  unfold insert_tag. destruct (_ && _); simpl; [|done]. apply IH.
Qed.

Lemma execute_same_node db o :
  (∀ db', o = Some db' → same_node db db') → same_node db (execute_sql db o).2.
Proof. intros Ho. destruct o; simpl; [by apply Ho|done]. Qed.

Lemma config_op_same_node op db : is_Some (op_config op) → same_node db (run_persister op db).2.
Proof.
  destruct op; simpl; intros Hop; try (by destruct Hop); clear Hop.
  - apply execute_same_node. intros db'. destruct (_ && _); by intros [= <-].
  - unfold neu_sqlite_persister_update_group, update_group.
    repeat case_match; try done; apply execute_same_node; intros db'; by intros [= <-].
  - apply execute_same_node. intros db'. unfold insert_tag.
    destruct (sql_lf (tag_decimal t)); simpl; [|done].
    destruct (sql_lf (tag_bias t)); simpl; [|done]. destruct (_ && _); by intros [= <-].
  - apply execute_same_node. intros db'. apply put_tags_same_node.
  - apply execute_same_node. intros db'.
    destruct (sql_lf (tag_decimal t)); simpl; [|done].
    destruct (sql_lf (tag_bias t)); simpl; [|done]. repeat case_match; by intros [= <-].
  - apply execute_same_node. intros db'. repeat case_match; by intros [= <-].
Qed.

Lemma config_path_same_node m node db db' : config_path m node db db' → same_node db db'.
Proof.
  induction 1 as [|x y z (op & m' & Hop & _ & ->) _ IH]; [done|].
  destruct (config_op_same_node op x ltac:(eauto)), IH. split; congruence.
Qed.
End Path.

(** ** The database holds the configuration *)

Record stored_config `{Sqlite} (node : string) (d : neu_adapter_driver_t) (db : database) : Prop := {
  sc_tables : tables_ok d;
  sc_db : db_ok db;
  sc_node : node ∈ nr_name <$> db_nodes db;
  sc_intervals : ∀ x, mem_interval d x = db_interval node db x;
  sc_tags : ∀ x n, mem_tag d x n = db_tag node db x n;
  sc_rows : rows_faithful db;
  sc_range : ∀ x i, mem_interval d x = Some i → 0 <= i < 4294967296;
}.

Section Handlers.
Context {P : Type} (intf : plugin_intf P) (plugin : plugin_ops).
Context `{SQL : Sqlite} `{!SqliteOk SQL}.
Context (Hplugin : plugin_keeps plugin).

(** What a request on groups and tags leaves. *)
Definition kept (m : bool) (a : neu_adapter_t P) (db : database) (a' : neu_adapter_t P) (db' : database)
    : Prop :=
  stored_config (a_name a) (a_driver a') db' ∧ config_path m (a_name a) db db' ∧
  ∃ d', a' = with_driver d' a.

Lemma kept_refl m a db : stored_config (a_name a) (a_driver a) db → kept m a db a db.
Proof. intros Hs. split_and!; [done|apply rtc_refl|]. exists (a_driver a). by destruct a. Qed.

Lemma kept_trans m a1 db1 a2 db2 a3 db3 :
  kept m a1 db1 a2 db2 → kept m a2 db2 a3 db3 → kept m a1 db1 a3 db3.
Proof.
  intros (_ & Hp1 & d1 & ->) (Hs & Hp2 & d2 & ->). split_and!; [done| |by exists d2].
  by etransitivity.
Qed.

Lemma u32_same itv : 0 <= itv < 4294967296 → u32 itv = itv.
Proof. zlia. Qed.

Lemma stored_by_path m node d db db' :
  stored_config node d db → config_path m node db db' →
  db_ok db' ∧ node ∈ nr_name <$> db_nodes db'.
Proof.
  intros [] Hp. split; [by eapply config_path_ok|].
  by destruct (config_path_same_node _ _ _ _ Hp) as [-> _].
Qed.

(** *** Groups *)

(** A group that is added to both sides. *)
Lemma add_group_both node d group itv context db :
  stored_config node d db → (String.length group <= 128)%nat → 10 <= itv < 4294967296 →
  fits_opt 512 context →
  stored_config node (neu_adapter_driver_add_group d group itv).2
    (neu_sqlite_persister_store_group db node group itv context).2 ∧
  config_path false node db (neu_sqlite_persister_store_group db node group itv context).2.
Proof.
  intros Hs Hlen Hitv Hctx.
  assert (Hp : config_path false node db (neu_sqlite_persister_store_group db node group itv context).2)
    by (by apply (config_path_one (PStoreGroup node group itv context))).
  split; [|done]. destruct (stored_by_path _ _ _ _ _ Hs Hp) as [Hdb Hnode]. destruct Hs.
  pose proof (add_group_config d group itv sc_tables0) as Hd.
  destruct (neu_adapter_driver_add_group d group itv) as [ret d'].
  destruct Hd as (Ht & _ & Hi & Htag).
  destruct (store_group_config db node group itv context) as (_ & Hdi & Hdt);
    [done|done|rewrite u32_same by lia; lia|done|].
  rewrite u32_same in Hdi by lia.
  split; try done; simpl.
  - intros x. by rewrite Hi, Hdi, !sc_intervals0.
  - intros x n. by rewrite Htag, Hdt.
  - unfold rows_faithful, neu_sqlite_persister_store_group, execute_sql.
    by destruct (_ && _).
  - intros x i. rewrite Hi. case_decide; [|by apply sc_range0].
    destruct (mem_interval d group) as [j|] eqn:Hj; intros [= <-]; [by eapply sc_range0|lia].
Qed.

Lemma handle_add_group_kept a group itv db e a' db' :
  stored_config (a_name a) (a_driver a) db → (String.length group <= 128)%nat →
  itv < 4294967296 →
  handle_add_group a group itv db = (e, a', db') → kept false a db a' db'.
Proof.
  intros Hs Hlen Hitv. unfold handle_add_group.
  change NEU_GROUP_INTERVAL_LIMIT with 30.
  destruct (Z.ltb_spec itv 30); [intros [= <- <- <-]; by apply kept_refl|].
  destruct (is_driver a); [|intros [= <- <- <-]; by apply kept_refl].
  pose proof (add_group_config (a_driver a) group itv (sc_tables _ _ _ Hs)) as Hd.
  destruct (add_group_both (a_name a) (a_driver a) group itv None db) as [Hs' Hp]; [done..|lia|done|].
  destruct (neu_adapter_driver_add_group (a_driver a) group itv) as [ret d'] eqn:E.
  simpl in Hs'. intros [= <- <- <-]. destruct Hd as (Ht & Hret & Hi & Htag).
  destruct (mem_interval (a_driver a) group) as [i|] eqn:Hg.
  - subst ret. simpl. assert (d' = a_driver a) as ->.
    { revert E. unfold neu_adapter_driver_add_group. unfold mem_interval in Hg.
      destruct (find_group (a_driver a) group); [|done]. by intros [= <-]. }
    split_and!; [done|apply rtc_refl|eauto].
  - subst ret. simpl. split_and!; [done|done|eauto].
Qed.

Lemma handle_update_group_kept now a group n itv db e a' db' :
  stored_config (a_name a) (a_driver a) db → (String.length n <= 128)%nat →
  0 <= itv < 2147483648 →
  handle_update_group now a group n itv db = (e, a', db') → kept true a db a' db'.
Proof.
  intros Hs Hlen Hitv. unfold handle_update_group.
  destruct (is_driver a); [|intros [= <- <- <-]; by apply kept_refl].
  pose proof (update_group_config now (a_driver a) group n itv (sc_tables _ _ _ Hs)) as Hd.
  destruct (neu_adapter_driver_update_group now (a_driver a) group (Some n) itv) as [ret d'].
  destruct Hd as [Hfail Hok]. destruct (Z.eqb_spec ret NEU_ERR_SUCCESS) as [E|E]; cycle 1.
  { intros [= <- <- <-]. rewrite (Hfail E). split_and!; [done|apply rtc_refl|eauto]. }
  intros [= <- <- <-]. destruct (Hok E) as (Ht & _ & Hg & Hn & Hi & Htag).
  unfold adapter_storage_update_group.
  set (db' := (neu_sqlite_persister_update_group db (a_name a) group n itv).2).
  assert (Hp : config_path true (a_name a) db db')
    by (by apply (config_path_one (PUpdateGroup (a_name a) group n itv))).
  split_and!; [|done|eauto]. destruct (stored_by_path _ _ _ _ _ Hs Hp) as [Hdb' Hnode'].
  destruct Hs as [? Hdb ? Hsi Hst Hrows Hrange].
  destruct (update_group_statement_config db (a_name a) group n itv) as (_ & Hdi & Hdt);
    [done..|by rewrite <-Hsi|by rewrite <-Hsi|]. fold db' in Hdi, Hdt.
  split; try done; simpl.
  - intros x. by rewrite Hi, Hdi, !Hsi.
  - intros x m. by rewrite Htag, Hdt, !Hst.
  - intros r. unfold db'. apply update_group_faithful, Hrows.
  - intros x i. rewrite Hi. case_decide.
    + unfold updated_interval. destruct (mem_interval (a_driver a) group) as [j|] eqn:Hj; [|done].
      intros [= <-]. destruct (itv <? _); [by eapply Hrange|lia].
    + case_decide; [done|]. apply Hrange.
Qed.

Lemma handle_del_group_kept {J} `{Jansson J} a group db (h : mem J) r a' db' h' :
  stored_config (a_name a) (a_driver a) db →
  handle_del_group a (a_name a) group db h = Some (r, a', db', h') → kept true a db a' db'.
Proof.
  intros Hs. unfold handle_del_group, neu_adapter_driver_del_group, mbind, M_bind, mret, M_ret.
  destruct (is_driver a); [|intros [= <- <- <- <-]; by apply kept_refl].
  destruct (find_group (a_driver a) group) as [g|] eqn:Hf; simpl; cycle 1.
  { intros [= <- <- <- <-]. split_and!; [done|apply rtc_refl|eauto]. }
  destruct (cache_del_tags _ _ _ h) as [[c h1]|]; [|done]. simpl. intros [= <- <- <- <-].
  unfold adapter_storage_del_group. set (d' := {| d_running := _ |}).
  set (db' := (neu_sqlite_persister_delete_group db (a_name a) group).2).
  assert (Hp : config_path true (a_name a) db db')
    by (by apply (config_path_one (PDeleteGroup (a_name a) group))).
  split_and!; [|done|eauto]. destruct (stored_by_path _ _ _ _ _ Hs Hp) as [Hdb' Hnode'].
  destruct Hs as [Htab Hdb ? Hsi Hst Hrows Hrange].
  destruct (delete_group_config db (a_name a) group) as (_ & Hdi & Hdt). fold db' in Hdi, Hdt.
  assert (Hfind : ∀ x, find_group d' x = if decide (x = group) then None
                                         else find_group (a_driver a) x).
  { intros x. unfold find_group, d'. simpl. rewrite hash_find_del by apply Htab. done. }
  assert (Hi : ∀ x, mem_interval d' x = if decide (x = group) then None
                                        else mem_interval (a_driver a) x).
  { intros x. unfold mem_interval. rewrite Hfind. by case_decide. }
  split; try done; simpl.
  - apply (tables_ok_del (a_driver a) group Htab).
  - intros x. by rewrite Hi, Hdi, Hsi.
  - intros x m. rewrite Hdt, <-Hst. unfold mem_tag. rewrite Hfind. by case_decide.
  - intros y [_ Hy]%list_elem_of_filter. by apply Hrows.
  - intros x i. rewrite Hi. case_decide; [done|]. apply Hrange.
Qed.

(** *** Tags: what a change of the tags on both sides leaves *)

Lemma stored_tags m node d d' db db' :
  stored_config node d db → config_path m node db db' → tables_ok d' →
  (∀ x, mem_interval d' x = mem_interval d x) → same_groups db db' → rows_faithful db' →
  (∀ x n, mem_tag d' x n = db_tag node db' x n) → stored_config node d' db'.
Proof.
  intros Hs Hp Ht Hi Hg Hf Htag. destruct (stored_by_path _ _ _ _ _ Hs Hp). destruct Hs.
  split; try done.
  - intros x. by rewrite Hi, (same_groups_interval _ _ _ _ Hg).
  - intros x i. rewrite Hi. apply sc_range0.
Qed.

Lemma del_tags_loop_kept clock a group names db e a' db' :
  stored_config (a_name a) (a_driver a) db →
  del_tags_loop clock a (a_name a) group names db = (e, a', db') → kept false a db a' db'.
Proof.
  revert a db. induction names as [|n names IH]; intros a db Hs; simpl.
  { intros [= <- <- <-]. by apply kept_refl. }
  pose proof (del_tag_config clock (a_driver a) group n (sc_tables _ _ _ Hs)) as Hd.
  destruct (neu_adapter_driver_del_tag clock (a_driver a) group n) as [ret d'].
  destruct Hd as (Ht & Hret & Hi & Htag). unfold adapter_storage_del_tag.
  destruct (Z.eqb_spec ret 0) as [E|E].
  - set (db1 := (neu_sqlite_persister_delete_tag db (a_name a) group n).2).
    assert (Hk : kept false a db (with_driver d' a) db1).
    { assert (Hp : config_path false (a_name a) db db1)
        by (by apply (config_path_one (PDeleteTag (a_name a) group n))).
      split_and!; [|done|eauto].
      destruct (delete_tag_statement_config (a_name a) group n db (sc_rows _ _ _ Hs))
        as (Hg & Hf & Hdt).
      eapply (stored_tags false); [done..|]. intros x m. simpl.
      by rewrite Htag, (sc_tags _ _ _ Hs), Hdt. }
    intros Hloop. eapply kept_trans; [exact Hk|]. apply IH; [apply Hk|exact Hloop].
  - intros [= <- <- <-]. split_and!; [|apply rtc_refl|eauto]. simpl.
    eapply (stored_tags false); [done|apply rtc_refl|done..|apply Hs|].
    intros x m. rewrite Htag, <-(sc_tags _ _ _ Hs). case_decide as Ex; [|done].
    destruct Ex as [-> ->]. destruct (mem_tag (a_driver a) group n) eqn:Em; [|done].
    destruct E. apply Hret. eauto.
Qed.

Lemma handle_rename_tag_kept clock a group o n db e a' db' :
  stored_config (a_name a) (a_driver a) db →
  handle_rename_tag clock a (a_name a) group o n db = (e, a', db') → kept false a db a' db'.
Proof.
  intros Hs. unfold handle_rename_tag.
  destruct (is_driver a); [|intros [= <- <- <-]; by apply kept_refl].
  pose proof (rename_tag_config clock (a_driver a) group o n (sc_tables _ _ _ Hs)) as Hd.
  destruct (neu_adapter_driver_rename_tag clock (a_driver a) group o n) as [ret d'].
  destruct Hd as (Ht & Hret & Hi & Htag). destruct (Z.eqb_spec ret 0) as [E|E].
  - destruct (Hret E) as (Ho & Hlen & Hn).
    destruct (rename_tag_statement_config (a_name a) group o n db)
      as (db1 & Hdb1 & Hg & Hf & Hdt); [lia| | |apply Hs|].
    { by rewrite <-(sc_tags _ _ _ Hs). }
    { by rewrite <-(sc_tags _ _ _ Hs). }
    unfold adapter_storage_rename_tag. rewrite Hdb1. simpl. intros [= <- <- <-].
    assert (Hp : config_path false (a_name a) db db1).
    { pose proof (config_path_one (PRenameTag (a_name a) group o n) false (a_name a) db eq_refl) as Hp.
      simpl in Hp. by rewrite Hdb1 in Hp. }
    split_and!; [|done|eauto]. simpl. eapply (stored_tags false); [done..|]. intros x m.
    rewrite Htag, Hdt, !(sc_tags _ _ _ Hs), E.
    destruct (decide (x = group ∧ m = n)); [by rewrite decide_True|].
    rewrite decide_False by naive_solver.
    destruct (decide (x = group ∧ m = o)); [by rewrite decide_True|].
    by rewrite decide_False by naive_solver.
  - intros [= <- <- <-]. split_and!; [|apply rtc_refl|eauto]. simpl.
    eapply (stored_tags false); [done|apply rtc_refl|done..|apply Hs|].
    intros x m. rewrite Htag, !decide_False by (by intros [? _]). apply Hs.
Qed.

Lemma validate_tag_checked t :
  let '(ret, t') := neu_adapter_driver_validate_tag plugin t in
  bare t' = bare t ∧ (ret = 0 → checked t).
Proof.
  unfold neu_adapter_driver_validate_tag, NEU_TAG_NAME_LEN, NEU_TAG_ADDRESS_LEN,
    NEU_TAG_DESCRIPTION_LEN, description_length. change NEU_TAG_FLOAG_PRECISION_MAX with 17.
  do 3 (case_decide; [done|]). destruct (Z.ltb_spec 17 (tag_precision t)); [done|].
  destruct (_ && _); [done|]. pose proof (Hplugin t) as Hb.
  destruct (validate_tag plugin t) as [ret t']. simpl in Hb.
  destruct (ret =? NEU_ERR_SUCCESS); (split; [done|]); intros _; split; lia.
Qed.

(** An update does not store the format of a tag, so a request has to leave it. *)
Definition keeps_format (d : neu_adapter_driver_t) (group : string) (t : neu_datatag_t) : Prop :=
  ∀ c, mem_tag d group (tag_name t) = Some c → c_format c = format_column t.

Lemma update_tags_loop_kept clock a group i ts db r a' db' :
  stored_config (a_name a) (a_driver a) db → Forall storable ts →
  Forall (keeps_format (a_driver a) group) ts →
  update_tags_loop plugin clock a (a_name a) group i ts db = (r, a', db') → kept false a db a' db'.
Proof.
  revert a i db. induction ts as [|t ts IH]; intros a i db Hs Hsto Hfmt; simpl.
  { intros [= <- <- <-]. by apply kept_refl. }
  apply Forall_cons in Hsto as [Ht Hts]. apply Forall_cons in Hfmt as [Hft Hfts].
  pose proof (validate_tag_checked t) as Hv.
  destruct (neu_adapter_driver_validate_tag plugin t) as [ret t1]. destruct Hv as [Hb Hck].
  destruct (Z.eqb_spec ret 0) as [->|]; simpl; [|intros [= <- <- <-]; by apply kept_refl].
  specialize (Hck eq_refl).
  pose proof (update_tag_config plugin Hplugin clock (a_driver a) group t1 (sc_tables _ _ _ Hs)) as Hd.
  destruct (neu_adapter_driver_update_tag plugin clock (a_driver a) group t1) as [ret1 d'].
  destruct Hd as (Htab & Hret & Hi & Htag).
  destruct (bare_cols t1 t Hb) as [Hc1 Hn1]. rewrite Hn1, Hc1 in *.
  destruct (Z.eqb_spec ret1 0) as [->|E]; simpl; cycle 1.
  { intros [= <- <- <-]. split_and!; [|apply rtc_refl|eauto]. simpl.
    eapply (stored_tags false); [done|apply rtc_refl|done..|apply Hs|].
    intros x m. rewrite Htag, decide_False by (by intros [? _]). apply Hs. }
  destruct (Hret eq_refl) as [c Hc]. unfold adapter_storage_update_tag.
  set (t2 := parse_option (validate_tag plugin t1).2).
  assert (Hb2 : bare t2 = bare t) by (unfold t2; etransitivity; [apply Hplugin|done]).
  clearbody t2. destruct (bare_cols t2 t Hb2) as [Hc2 Hn2].
  set (db1 := (neu_sqlite_persister_update_tag db (a_name a) group t2).2).
  assert (Hk : kept false a db (with_driver d' a) db1).
  { assert (Hp : config_path false (a_name a) db db1)
      by (by apply (config_path_one (PUpdateTag (a_name a) group t2))).
    split_and!; [|done|eauto].
    destruct (update_tag_statement_config (a_name a) group t2 db c) as (Hg & Hf & Hdt).
    - apply Hs.
    - by apply (storable_bare t).
    - by apply (checked_bare t).
    - by rewrite Hn2, <-(sc_tags _ _ _ Hs).
    - apply Hs.
    - eapply (stored_tags false); [done..|]. intros x m. simpl. unfold db1.
      rewrite Htag, Hdt, Hn2, Hc2, (sc_tags _ _ _ Hs), (Hft c Hc).
      destruct (decide (x = group ∧ m = tag_name t)); [by rewrite decide_True|].
      by rewrite decide_False by naive_solver. }
  intros Hloop. eapply kept_trans; [exact Hk|].
  eapply IH; [apply Hk|done| |exact Hloop].
  rewrite Forall_forall in Hfts |- *. intros t' Ht' c'. simpl. rewrite Htag.
  destruct (decide (tag_name t' = tag_name t)) as [En|En].
  - rewrite decide_True by done. intros [= <-]. simpl. rewrite <-(Hft c Hc).
    apply (Hfts t' Ht'). by rewrite En.
  - rewrite decide_False by naive_solver. apply Hfts, Ht'.
Qed.

Lemma handle_update_tag_kept clock a group ts db r a' db' :
  stored_config (a_name a) (a_driver a) db → Forall storable ts →
  Forall (keeps_format (a_driver a) group) ts →
  handle_update_tag plugin clock a (a_name a) group ts db = (r, a', db') → kept false a db a' db'.
Proof.
  intros Hs Hsto Hfmt. unfold handle_update_tag.
  destruct (is_driver a); [|intros [= <- <- <-]; by apply kept_refl].
  by apply update_tags_loop_kept.
Qed.

(** *** Adding tags *)

Lemma cons_eq {A} (x y : A) l k : x :: l = y :: k → x = y ∧ l = k.
Proof. by intros [= -> ->]. Qed.

Lemma added_bare l l' n : bare <$> l = bare <$> l' → added l n = added l' n.
Proof.
  revert l'. induction l as [|t l IH]; intros [|t' l']; csimpl; try done.
  intros [E El]%cons_eq. destruct (bare_cols t t' E) as [Hc Hn]. unfold added in *. simpl.
  rewrite Hn. destruct (decide (tag_name t' = n)); [simpl; by rewrite Hc|by apply IH].
Qed.

Lemma names_bare (l l' : list neu_datatag_t) : bare <$> l = bare <$> l' → tag_name <$> l = tag_name <$> l'.
Proof.
  revert l'. induction l as [|t l IH]; intros [|t' l']; csimpl; try done.
  intros [E El]%cons_eq. destruct (bare_cols t t' E) as [_ ->]. f_equal. by apply IH.
Qed.

Lemma Forall_bare (Q : neu_datatag_t → Prop) l l' :
  (∀ t t', bare t = bare t' → Q t → Q t') → bare <$> l = bare <$> l' → Forall Q l → Forall Q l'.
Proof.
  intros HQ. revert l'. induction l as [|t l IH]; intros [|t' l']; csimpl; try done.
  intros [E El]%cons_eq [H1 H2]%Forall_cons. apply Forall_cons. split; [by apply (HQ t)|by apply IH].
Qed.

Lemma as_added_bare (ts : list neu_datatag_t) : bare <$> (tag_as_added plugin <$> ts) = bare <$> ts.
Proof.
  rewrite <-list_fmap_compose. apply list_fmap_ext. intros i t _. apply (Hplugin (parse_option t)).
Qed.

Lemma check_tag_none d group t :
  neu_adapter_driver_check_tag d group t = 0 ↔ mem_tag d group (tag_name t) = None.
Proof.
  unfold neu_adapter_driver_check_tag, mem_tag, neu_group_check_name.
  destruct (find_group d group) as [g|]; [|done]. simpl. rewrite group_map_lookup.
  by destruct (hash_find el_name (tag_name t) _).
Qed.

Lemma conflict_results t i (done : list neu_datatag_t) resp :
  resp_results (fold_left (λ r k, if decide (tag_name t = tag_name k)
                                  then neu_resp_add_tag_result r i NEU_ERR_TAG_NAME_CONFLICT
                                  else r) done resp) = [] →
  resp_results resp = [] ∧ (tag_name t ∉ tag_name <$> done).
Proof.
  revert resp. induction done as [|k l IH]; intros resp; csimpl; [set_solver|].
  intros [H1 H2]%IH. destruct (decide (tag_name t = tag_name k)).
  - simpl in H1. by destruct (resp_results resp).
  - split; [done|set_solver].
Qed.

Lemma result_unless ret resp i :
  resp_results (if negb (ret =? 0) then neu_resp_add_tag_result resp i ret else resp) = [] →
  ret = 0 ∧ resp_results resp = [].
Proof.
  destruct (Z.eqb_spec ret 0); simpl; [done|]. by destruct (resp_results resp).
Qed.

(** The checks of a request: no name twice, no name that is taken. *)
Lemma check_new_tags_ok d group (pre ts : list neu_datatag_t) resp resp' all :
  check_new_tags plugin d group pre ts resp = (resp', all) →
  bare <$> all = (bare <$> pre) ++ (bare <$> ts) ∧
  (resp_results resp' = [] → resp_results resp = [] ∧ Forall checked ts ∧
     (∀ t, t ∈ ts → mem_tag d group (tag_name t) = None) ∧
     (NoDup (tag_name <$> pre) → NoDup (tag_name <$> all))).
Proof.
  revert pre resp. induction ts as [|t ts IH]; intros pre resp; cbn [check_new_tags].
  { intros [= <- <-]. split; [by rewrite app_nil_r|]. intros ?. split_and!; [done|constructor| |done].
    by intros t ?%elem_of_nil. }
  cbv zeta. pose proof (validate_tag_checked t) as Hv.
  destruct (neu_adapter_driver_validate_tag plugin t) as [ret t1]. destruct Hv as [Hb Hck].
  destruct (bare_cols t1 t Hb) as [_ Hn].
  intros Hloop. apply IH in Hloop as [Hall Hres]. split.
  { rewrite Hall, fmap_app. csimpl. by rewrite Hb, <-app_assoc. }
  intros H0. destruct (Hres H0) as (H1 & Hcks & Hnone & Hnd).
  apply result_unless in H1 as [Hfree H1]. apply result_unless in H1 as [-> H1].
  apply conflict_results in H1 as [H1 Hnew].
  apply check_tag_none in Hfree. rewrite Hn in Hfree. split_and!.
  - done.
  - constructor; [by apply Hck|done].
  - intros t' [->|Ht']%elem_of_cons; [done|by apply Hnone].
  - intros Hpre. apply Hnd. rewrite fmap_app. csimpl. rewrite Hn. apply NoDup_app.
    split_and!; [done| |apply NoDup_singleton]. set_solver.
Qed.

Lemma resp_not_refused resp : resp_refused resp = false → resp_results resp = [].
Proof.
  unfold resp_refused. rewrite !orb_false_iff. intros [[_ H] _].
  apply negb_false_iff, bool_decide_eq_true_1 in H. done.
Qed.

(** In a group that exists the database is not touched by the loop. *)
Lemma driver_add_tag_config clock (a : neu_adapter_t P) db group t itv :
  tables_ok (a_driver a) → is_Some (mem_interval (a_driver a) group) →
  ∃ d', driver_add_tag plugin clock a db group t itv =
      Some (if mem_tag (a_driver a) group (tag_name t) is Some _ then NEU_ERR_TAG_NAME_CONFLICT
            else NEU_ERR_SUCCESS, with_driver d' a, db) ∧
    tables_ok d' ∧ (∀ x, mem_interval d' x = mem_interval (a_driver a) x) ∧
    (∀ x n, mem_tag d' x n =
       if decide (x = group ∧ n = tag_name t)
       then Some (default (cols_of_tag t) (mem_tag (a_driver a) x n))
       else mem_tag (a_driver a) x n).
Proof.
  intros Ht Hg. unfold driver_add_tag.
  assert (Hf : is_Some (find_group (a_driver a) group))
    by (unfold mem_interval in Hg; by rewrite fmap_is_Some in Hg).
  destruct Hf as [g Hf]. rewrite Hf.
  destruct (add_tag_config plugin Hplugin clock (a_driver a) group t (u16 itv) Ht)
    as (ret & d' & E & Ht' & Hret & Hi & Htag).
  rewrite E. simpl. exists d'. split_and!; [by rewrite Hret|done| |done].
  intros x. rewrite Hi. case_decide as Ex; [|done]. rewrite Ex. by destruct Hg as [i ->].
Qed.

Lemma add_tags_loop_config clock (a : neu_adapter_t P) db group itv ts :
  tables_ok (a_driver a) → is_Some (mem_interval (a_driver a) group) →
  ∃ d', add_tags_loop plugin clock a db group itv ts = Some (with_driver d' a, db) ∧
    tables_ok d' ∧ (∀ x, mem_interval d' x = mem_interval (a_driver a) x) ∧
    (∀ x n, mem_tag d' x n =
       if decide (x = group)
       then (if mem_tag (a_driver a) group n is Some c then Some c else added ts n)
       else mem_tag (a_driver a) x n).
Proof.
  revert a. induction ts as [|t ts IH]; intros a Ht Hg; simpl.
  { exists (a_driver a). split_and!; [by destruct a|done|done|]. intros x n.
    case_decide as E; [|done]. rewrite E. by destruct (mem_tag (a_driver a) group n). }
  destruct (driver_add_tag_config clock a db group t itv Ht Hg) as (d1 & E & Ht1 & Hi1 & Htag1).
  rewrite E. simpl.
  destruct (IH (with_driver d1 a)) as (d' & E' & Ht' & Hi' & Htag'); [done|by rewrite Hi1|].
  simpl in *. exists d'. split_and!; [by rewrite E'|done|intros x; by rewrite Hi', Hi1|].
  intros x n. rewrite Htag'. destruct (decide (x = group)) as [->|Ex].
  - rewrite Htag1. unfold added. simpl. destruct (decide (tag_name t = n)) as [<-|En].
    + rewrite decide_True by done. by destruct (mem_tag (a_driver a) group (tag_name t)).
    + by rewrite decide_False by naive_solver.
  - rewrite Htag1. by rewrite decide_False by naive_solver.
Qed.

Lemma storage_add_tags_config node group ts db :
  Forall storable ts → Forall checked ts → is_Some (db_interval node db group) →
  NoDup (tag_name <$> ts) → (∀ t, t ∈ ts → db_tag node db group (tag_name t) = None) →
  rows_faithful db →
  let db' := adapter_storage_add_tags node group ts db in
  config_path false node db db' ∧ same_groups db db' ∧ rows_faithful db' ∧
  ∀ x n, db_tag node db' x n =
    if decide (x = group) then (if added ts n is Some c then Some c else db_tag node db group n)
    else db_tag node db x n.
Proof.
  clear Hplugin plugin.
  intros Hs Hc Hg Hnd Hnone Hf. destruct ts as [|t [|t' ts]]; cbn zeta.
  - split_and!; [apply rtc_refl|done|done|]. intros x n. simpl. case_decide as E; [by rewrite E|done].
  - split; [by apply (config_path_one (PStoreTag node group t))|].
    rewrite Forall_singleton in Hs. rewrite Forall_singleton in Hc.
    destruct (store_tag_config node group t db) as (Hg' & Hf' & Htag);
      [done|done|done|apply Hnone; set_solver|done|].
    split_and!; [done|done|]. intros x n. unfold adapter_storage_add_tags, adapter_storage_add_tag.
    rewrite Htag. unfold added. simpl. destruct (decide (x = group)) as [->|Ex];
      [|by rewrite decide_False by naive_solver].
    destruct (decide (tag_name t = n)) as [<-|En]; [by rewrite decide_True|].
    by rewrite decide_False by naive_solver.
  - split; [by apply (config_path_one (PStoreTags node group (t :: t' :: ts)))|].
    destruct (put_tags_config node group (t :: t' :: ts) db) as (db' & E & ?&?&?); [done..|].
    unfold adapter_storage_add_tags, neu_sqlite_persister_store_tags. rewrite E. done.
Qed.

(** The tags of a group on both sides, the group being there. *)
Lemma add_tags_both node d d' group ts db :
  stored_config node d db → is_Some (mem_interval d group) → Forall storable ts →
  Forall checked ts → NoDup (tag_name <$> ts) →
  (∀ t, t ∈ ts → mem_tag d group (tag_name t) = None) →
  tables_ok d' → (∀ x, mem_interval d' x = mem_interval d x) →
  (∀ x n, mem_tag d' x n =
     if decide (x = group) then (if mem_tag d group n is Some c then Some c else added ts n)
     else mem_tag d x n) →
  stored_config node d' (adapter_storage_add_tags node group ts db) ∧
  config_path false node db (adapter_storage_add_tags node group ts db).
Proof.
  intros Hs Hg Hsto Hck Hnd Hnone Ht Hi Htag.
  destruct (storage_add_tags_config node group ts db) as (Hp & Hsg & Hf & Hdt); [done|done| |done| |apply Hs|].
  { by rewrite <-(sc_intervals _ _ _ Hs). }
  { intros t Ht'. rewrite <-(sc_tags _ _ _ Hs). by apply Hnone. }
  split; [|done]. eapply (stored_tags false); [done..|]. intros x n.
  rewrite Htag, Hdt, <-!(sc_tags _ _ _ Hs). destruct (decide (x = group)) as [->|]; [|done].
  destruct (added ts n) as [c|] eqn:Ea; [|by destruct (mem_tag d group n)].
  unfold added in Ea. apply fmap_Some in Ea as (t & [Hin Hn]%hash_find_Some & ->).
  by rewrite <-Hn, Hnone.
Qed.

(** The group is there when the first tag is added, as if it had been added by a
    request of its own. *)
Lemma add_tags_loop_group clock (a : neu_adapter_t P) db group t ts itv :
  add_tags_loop plugin clock a db group itv (t :: ts) =
  if find_group (a_driver a) group is Some _
  then add_tags_loop plugin clock a db group itv (t :: ts)
  else add_tags_loop plugin clock
         (with_driver (neu_adapter_driver_add_group (a_driver a) group (u16 itv)).2 a)
         (adapter_storage_add_group (a_name a) group (u16 itv) None db) group itv (t :: ts).
Proof.
  destruct (find_group (a_driver a) group) eqn:Hf; [done|].
  cbn [add_tags_loop]. f_equal. unfold driver_add_tag. rewrite Hf. cbn [with_driver a_driver a_name].
  set (d1 := (neu_adapter_driver_add_group (a_driver a) group (u16 itv)).2).
  assert (Hf1 : ∃ g, find_group d1 group = Some g).
  { unfold d1, neu_adapter_driver_add_group. rewrite Hf. simpl. unfold find_group in *.
    simpl. rewrite hash_find_add, Hf. destruct (d_running (a_driver a)); simpl;
      rewrite decide_True by done; eauto. }
  destruct Hf1 as [g Hf1]. rewrite Hf1. f_equal. unfold neu_adapter_driver_add_tag.
  rewrite Hf. fold d1. rewrite Hf1. cbn match. by rewrite Hf1.
Qed.

Lemma add_all_stored clock a group ts db :
  stored_config (a_name a) (a_driver a) db → (String.length group <= 128)%nat →
  Forall storable ts → Forall checked ts → NoDup (tag_name <$> ts) →
  (∀ t, t ∈ ts → mem_tag (a_driver a) group (tag_name t) = None) →
  ∃ a' db', add_tags_loop plugin clock a db group NEU_DEFAULT_GROUP_INTERVAL ts = Some (a', db') ∧
    kept false a db a' (adapter_storage_add_tags (a_name a) group (tag_as_added plugin <$> ts) db') ∧
    (∀ x n, mem_tag (a_driver a') x n =
       if decide (x = group)
       then (if mem_tag (a_driver a) group n is Some c then Some c else added ts n)
       else mem_tag (a_driver a) x n).
Proof.
  intros Hs Hlen Hsto Hck Hnd Hnone.
  destruct ts as [|t ts].
  { exists a, db. split; [done|]. split; [by apply kept_refl|]. intros x n.
    case_decide as E; [|done]. rewrite E. by destruct (mem_tag (a_driver a) group n). }
  assert (H1 : ∃ a1 db1, add_tags_loop plugin clock a db group NEU_DEFAULT_GROUP_INTERVAL (t :: ts) =
      add_tags_loop plugin clock a1 db1 group NEU_DEFAULT_GROUP_INTERVAL (t :: ts) ∧
      kept false a db a1 db1 ∧ is_Some (mem_interval (a_driver a1) group) ∧
      (∀ x n, mem_tag (a_driver a1) x n = mem_tag (a_driver a) x n)).
  { rewrite add_tags_loop_group. destruct (find_group (a_driver a) group) as [g|] eqn:Hf.
    { exists a, db. split_and!; [done|by apply kept_refl| |done].
      unfold mem_interval. rewrite Hf. eauto. }
    change (u16 NEU_DEFAULT_GROUP_INTERVAL) with 100.
    destruct (add_group_both (a_name a) (a_driver a) group 100 None db) as [Hs1 Hp1];
      [done|done|lia|done|].
    pose proof (add_group_config (a_driver a) group 100 (sc_tables _ _ _ Hs)) as Hd.
    destruct (neu_adapter_driver_add_group (a_driver a) group 100) as [ret d1].
    destruct Hd as (_ & _ & Hi & Htag).
    eexists _, _. split; [done|]. split_and!.
    - split_and!; [exact Hs1|exact Hp1|eauto].
    - simpl. rewrite Hi, decide_True by done. eauto.
    - done. }
  destruct H1 as (a1 & db1 & -> & Hk1 & Hg1 & Htag1).
  pose proof Hk1 as (Hs1 & Hp1 & d1 & ->). cbn [with_driver a_driver] in Hs1, Hg1, Htag1.
  destruct (add_tags_loop_config clock (with_driver d1 a) db1 group NEU_DEFAULT_GROUP_INTERVAL
              (t :: ts)) as (d' & El & Ht' & Hi' & Htag'); [apply Hs1|done|].
  change (with_driver d' (with_driver d1 a)) with (with_driver d' a) in El. rewrite El. eexists _, _. split; [done|].
  set (ts' := t :: ts) in *. pose proof (as_added_bare ts') as Hb.
  set (ts2 := tag_as_added plugin <$> ts') in *. clearbody ts' ts2.
  destruct (add_tags_both (a_name a) d1 d' group ts2 db1) as [Hs2 Hp2]; try done.
  - by apply (Forall_bare storable ts'); [apply storable_bare| |].
  - by apply (Forall_bare checked ts'); [apply checked_bare| |].
  - by rewrite (names_bare _ _ Hb).
  - intros t' Ht2. rewrite Htag1.
    assert (Hin : tag_name t' ∈ tag_name <$> ts')
      by (rewrite <-(names_bare _ _ Hb); by apply list_elem_of_fmap_2).
    apply list_elem_of_fmap in Hin as (t2 & -> & Hin). by apply Hnone.
  - intros x n. by rewrite Htag', (added_bare ts2 ts').
  - split; [split_and!; [done|by etransitivity|by exists d']|].
    intros x n. simpl. rewrite Htag'. simpl. by rewrite !Htag1.
Qed.

Lemma dedup_refused resp :
  resp_refused (dedup_add_tag_results_by_index resp) = resp_refused resp.
Proof.
  unfold resp_refused. by destruct resp as [i e [|x l]].
Qed.

Lemma not_refused_zero resp : resp_refused resp = false → resp = resp_zero.
Proof.
  intros H. pose proof (resp_not_refused resp H) as Hr. revert H. unfold resp_refused.
  rewrite Hr, !orb_false_iff, !negb_false_iff, !Z.eqb_eq. destruct resp; simpl in *. subst.
  by intros [[-> _] ->].
Qed.

(** A request to add tags adds all of them, or nothing. *)
Lemma handle_add_tag_added clock a group ts db :
  stored_config (a_name a) (a_driver a) db → is_driver a = true →
  (String.length group <= 128)%nat → Forall storable ts →
  ∃ resp a' db', handle_add_tag plugin clock a (a_name a) group ts db = Some (resp, a', db') ∧
    kept false a db a' db' ∧
    (resp_refused resp = true ∧ a' = a ∧ db' = db ∨
     resp = resp_zero ∧ NoDup (tag_name <$> ts) ∧
     (∀ t, t ∈ ts → mem_tag (a_driver a) group (tag_name t) = None) ∧
     (∀ x n, mem_tag (a_driver a') x n =
        if decide (x = group)
        then (if mem_tag (a_driver a) group n is Some c then Some c else added ts n)
        else mem_tag (a_driver a) x n)).
Proof.
  intros Hs Hdrv Hlen Hsto. unfold handle_add_tag. rewrite Hdrv.
  destruct (check_new_tags plugin (a_driver a) group [] ts resp_zero) as [resp all] eqn:Hck.
  apply check_new_tags_ok in Hck as [Hb Hres]. simpl in Hb.
  assert (Hrefuse : ∀ r, resp_refused r = true → ∃ resp a' db',
    Some (r, a, db) = Some (resp, a', db') ∧ kept false a db a' db' ∧
    (resp_refused resp = true ∧ a' = a ∧ db' = db ∨
     resp = resp_zero ∧ NoDup (tag_name <$> ts) ∧
     (∀ t, t ∈ ts → mem_tag (a_driver a) group (tag_name t) = None) ∧
     (∀ x n, mem_tag (a_driver a') x n =
        if decide (x = group)
        then (if mem_tag (a_driver a) group n is Some c then Some c else added ts n)
        else mem_tag (a_driver a) x n))).
  { intros r Hr. exists r, a, db. split; [done|]. split; [by apply kept_refl|by left]. }
  destruct (resp_refused resp) eqn:Hr; [apply Hrefuse; by rewrite dedup_refused|].
  cbv zeta. destruct (Z.eqb_spec (neu_adapter_driver_try_add_tag plugin group all) 0) as [Et|Et];
    simpl; cycle 1.
  { apply Hrefuse. unfold resp_refused. simpl. by rewrite (proj2 (Z.eqb_neq _ _) Et). }
  destruct (Hres (resp_not_refused _ Hr)) as (_ & Hcks & Hnone & Hnd).
  specialize (Hnd (NoDup_nil_2 : NoDup (tag_name <$> []))).
  apply not_refused_zero in Hr as ->.
  assert (Hsto' : Forall storable all)
    by (apply (Forall_bare storable ts); [apply storable_bare|done|done]).
  assert (Hcks' : Forall checked all)
    by (apply (Forall_bare checked ts); [apply checked_bare|done|done]).
  assert (Hnone' : ∀ t, t ∈ all → mem_tag (a_driver a) group (tag_name t) = None).
  { intros t Ht. assert (Hin : tag_name t ∈ tag_name <$> ts)
      by (rewrite <-(names_bare all ts Hb); by apply list_elem_of_fmap_2).
    apply list_elem_of_fmap in Hin as (t' & -> & Ht'). by apply Hnone. }
  destruct (add_all_stored clock a group all db) as (a' & db1 & El & Hk & Htag); [done..|].
  rewrite El. simpl. eexists _, _, _. split; [done|]. split; [exact Hk|]. right.
  split_and!; [done|by rewrite <-(names_bare all ts Hb)|done|].
  intros x n. by rewrite Htag, (added_bare all ts n Hb).
Qed.
End Handlers.
