(* ===== verification/AdapterGtag.v ===== *)
(** * Adding tags of several groups

    The request [NEU_REQ_ADD_GTAG] creates groups and adds tags to them one by
    one.  When a tag is refused half way the tags that were added are deleted
    again; the theorem says that this restores every tag, whatever the groups of
    the request are, and that on success every tag is there, in memory and in the
    database. *)

From S2P Require Import Prelude UtHash NeuTypes CHeap DriverCache Tag Group Driver Persist Adapter AdapterConfig AdapterStored.

(** The tags of a request that go to one group, in order. *)
Definition group_tags (gs : list neu_gdatatag_t) (x : string) : list neu_datatag_t :=
  mjoin (gd_tags <$> filter (λ g, gd_group g = x) gs).

Lemma group_tags_app gs gs' x : group_tags (gs ++ gs') x = group_tags gs x ++ group_tags gs' x.
Proof. unfold group_tags. by rewrite filter_app, fmap_app, join_app. Qed.

Lemma group_tags_one g x :
  group_tags [g] x = if decide (gd_group g = x) then gd_tags g else [].
Proof. unfold group_tags. rewrite filter_cons. case_decide; simpl; by rewrite ?app_nil_r. Qed.

Lemma added_app l l' n :
  added (l ++ l') n = if added l n is Some c then Some c else added l' n.
Proof.
  unfold added. induction l as [|t l IH]; simpl; [done|].
  destruct (decide (tag_name t = n)); [done|apply IH].
Qed.

Lemma added_none l n : added l n = None ↔ n ∉ tag_name <$> l.
Proof. unfold added. rewrite fmap_None. apply (hash_find_None tag_name). Qed.

Section Gtags.
Context {P : Type} (plugin : plugin_ops).
Context `{SQL : Sqlite} `{!SqliteOk SQL}.
Context (Hplugin : plugin_keeps plugin).

(** *** The tags of one group *)

Lemma add_gtag_tags_config clock (a : neu_adapter_t P) db group itv i ts :
  tables_ok (a_driver a) → is_Some (mem_interval (a_driver a) group) →
  ∃ r d' k, add_gtag_tags plugin clock a db group itv i ts = Some (r, with_driver d' a, db) ∧
    (r = None ∧ k = length ts ∨ ∃ ret, r = Some (ret, (i + k)%nat) ∧ ret ≠ 0) ∧
    tables_ok d' ∧ (∀ x, mem_interval d' x = mem_interval (a_driver a) x) ∧
    NoDup (tag_name <$> take k ts) ∧
    (∀ t, t ∈ take k ts → mem_tag (a_driver a) group (tag_name t) = None) ∧
    (∀ x n, mem_tag d' x n =
       if decide (x = group)
       then (if mem_tag (a_driver a) group n is Some c then Some c else added (take k ts) n)
       else mem_tag (a_driver a) x n).
Proof.
  revert a i. induction ts as [|t ts IH]; intros a i Ht Hg.
  { exists None, (a_driver a), 0%nat. split_and!; [by destruct a|by left|done|done|constructor| |].
    - intros t ?%elem_of_nil. done.
    - intros x n. case_decide as E; [|done]. rewrite E. simpl. by destruct (mem_tag (a_driver a) group n). }
  cbn [add_gtag_tags].
  destruct (driver_add_tag_config plugin Hplugin clock a db group t itv Ht Hg)
    as (d1 & E & Ht1 & Hi1 & Htag1).
  rewrite E. simpl. destruct (mem_tag (a_driver a) group (tag_name t)) as [c|] eqn:Hm; simpl.
  { exists (Some (NEU_ERR_TAG_NAME_CONFLICT, i)), d1, 0%nat. simpl.
    split_and!; [done|right; exists NEU_ERR_TAG_NAME_CONFLICT; by rewrite Nat.add_0_r|done|done
      |constructor|by intros t' ?%elem_of_nil|].
    intros x n. rewrite Htag1. destruct (decide (x = group)) as [->|Ex];
      [|by rewrite decide_False by naive_solver].
    destruct (decide (group = group ∧ n = tag_name t)) as [[_ ->]|En]; [by rewrite Hm|].
    by destruct (mem_tag (a_driver a) group n). }
  destruct (IH (with_driver d1 a) (S i)) as (r & d' & k & E' & Hr & Ht' & Hi' & Hnd & Hnone & Htag');
    [done|by rewrite Hi1|]. simpl in *.
  exists r, d', (S k). rewrite E'. simpl.
  assert (Hnew : ∀ t', t' ∈ take k ts →
    tag_name t' ≠ tag_name t ∧ mem_tag (a_driver a) group (tag_name t') = None).
  { intros t' Hin. specialize (Hnone t' Hin). rewrite Htag1 in Hnone.
    destruct (decide (tag_name t' = tag_name t)) as [En|En]; [by rewrite decide_True in Hnone|].
    by rewrite decide_False in Hnone by naive_solver. }
  split_and!; [done| |done|intros x; by rewrite Hi', Hi1| | |].
  - destruct Hr as [[-> ->]|(ret & -> & Hne)]; [by left|right]. exists ret. split; [|done].
    by rewrite Nat.add_succ_r.
  - apply NoDup_cons. split; [|done]. intros (t' & En & Hin)%list_elem_of_fmap.
    by destruct (Hnew t' Hin).
  - intros t' [->|Hin]%elem_of_cons; [done|by apply Hnew].
  - intros x n. rewrite Htag'. unfold added. simpl.
    destruct (decide (x = group)) as [->|Ex]; rewrite Htag1;
      [|by rewrite decide_False by naive_solver].
    destruct (decide (tag_name t = n)) as [<-|En].
    + rewrite decide_True by done. by rewrite Hm.
    + by rewrite decide_False by naive_solver.
Qed.

(** *** Deleting them again *)

Lemma del_added_config clock group names d :
  tables_ok d →
  tables_ok (del_added clock group names d) ∧
  (∀ x, mem_interval (del_added clock group names d) x = mem_interval d x) ∧
  (∀ x n, mem_tag (del_added clock group names d) x n =
     if decide (x = group ∧ n ∈ names) then None else mem_tag d x n).
Proof.
  revert d. induction names as [|m names IH]; intros d Ht.
  { split_and!; [done|done|]. intros x n. by rewrite decide_False by (by intros [_ ?%elem_of_nil]). }
  unfold del_added. simpl. fold (del_added clock group names).
  pose proof (del_tag_config clock d group m Ht) as Hd.
  destruct (neu_adapter_driver_del_tag clock d group m) as [ret d1].
  destruct Hd as (Ht1 & _ & Hi1 & Htag1). simpl.
  destruct (IH d1 Ht1) as (Ht2 & Hi2 & Htag2).
  split_and!; [exact Ht2|intros x; by etransitivity; [apply Hi2|]|].
  intros x n. etransitivity; [apply Htag2|]. rewrite Htag1.
  destruct (decide (x = group ∧ n ∈ m :: names)) as [[-> Hin]|Hne].
  - apply elem_of_cons in Hin as [->|Hin].
    + rewrite (decide_True (P := group = group ∧ m = m)) by done. by case_decide.
    + by rewrite decide_True.
  - rewrite !decide_False by set_solver. done.
Qed.

Lemma roll_back_config clock gs d :
  tables_ok d →
  let d' := fold_left (λ d g, del_added clock (gd_group g) (tag_name <$> gd_tags g) d) gs d in
  tables_ok d' ∧ (∀ x, mem_interval d' x = mem_interval d x) ∧
  (∀ x n, mem_tag d' x n =
     if decide (n ∈ tag_name <$> group_tags gs x) then None else mem_tag d x n).
Proof.
  revert d. induction gs as [|g gs IH]; intros d Ht; simpl.
  { split_and!; [done|done|]. intros x n. done. }
  destruct (del_added_config clock (gd_group g) (tag_name <$> gd_tags g) d Ht) as (Ht1 & Hi1 & Htag1).
  destruct (IH _ Ht1) as (Ht2 & Hi2 & Htag2).
  split_and!; [done|intros x; by rewrite Hi2, Hi1|].
  intros x n. rewrite Htag2, Htag1.
  change (g :: gs) with ([g] ++ gs). rewrite group_tags_app, group_tags_one, fmap_app.
  destruct (decide (gd_group g = x)) as [<-|Ex].
  - destruct (decide (n ∈ tag_name <$> group_tags gs (gd_group g)));
      [by rewrite decide_True by set_solver|].
    destruct (decide (n ∈ tag_name <$> gd_tags g)).
    + by rewrite !decide_True by set_solver.
    + by rewrite !decide_False by set_solver.
  - simpl. destruct (decide (n ∈ tag_name <$> group_tags gs x)); [done|].
    by rewrite decide_False by naive_solver.
Qed.

(** *** The loop over the groups *)

(** What a request has to respect for its groups to fit the columns. *)
Record gd_ok (g : neu_gdatatag_t) : Prop := {
  gdo_name : (String.length (gd_group g) <= 128)%nat;
  gdo_interval : 10 <= gd_interval g < 4294967296;
  gdo_context : fits_opt 512 (gd_context g);
  gdo_tags : Forall storable (gd_tags g);
}.

(** Tags that are new to the driver [d0], each name once in its group. *)
Definition fresh (d0 : neu_adapter_driver_t) (gs : list neu_gdatatag_t) : Prop := ∀ x,
  NoDup (tag_name <$> group_tags gs x) ∧
  ∀ t, t ∈ group_tags gs x → mem_tag d0 x (tag_name t) = None.

Definition plus_tags (d0 : neu_adapter_driver_t) (gs : list neu_gdatatag_t) (x n : string)
    : option tag_cols :=
  if mem_tag d0 x n is Some c then Some c else added (group_tags gs x) n.

(** Between two groups: the database has the groups but not yet the tags; [dg]
    is the driver it would be the database of. *)
Definition midway (a0 : neu_adapter_t P) (db0 : database) (done : list neu_gdatatag_t)
    (a : neu_adapter_t P) (db : database) : Prop :=
  ∃ dg d, stored_config (a_name a0) dg db ∧ config_path false (a_name a0) db0 db ∧
    (∀ x n, mem_tag dg x n = mem_tag (a_driver a0) x n) ∧
    a = with_driver d a0 ∧ tables_ok d ∧ (∀ x, mem_interval d x = mem_interval dg x) ∧
    (∀ g, g ∈ done → is_Some (mem_interval dg (gd_group g))) ∧
    (∀ x n, mem_tag d x n = plus_tags (a_driver a0) done x n) ∧ fresh (a_driver a0) done.

Lemma midway_start a db : stored_config (a_name a) (a_driver a) db → midway a db [] a db.
Proof.
  intros Hs. exists (a_driver a), (a_driver a).
  split_and!; [done|apply rtc_refl|done|by destruct a|apply Hs|done|by intros g ?%elem_of_nil| |].
  - intros x n. unfold plus_tags. simpl. by destruct (mem_tag (a_driver a) x n).
  - intros x. simpl. split; [constructor|by intros t ?%elem_of_nil].
Qed.

Lemma fresh_snoc d0 d done g ts :
  (∀ x n, mem_tag d x n = plus_tags d0 done x n) → fresh d0 done →
  NoDup (tag_name <$> ts) → (∀ t, t ∈ ts → mem_tag d (gd_group g) (tag_name t) = None) →
  fresh d0 (done ++ [with_gd_tags ts g]) ∧
  (∀ x n, plus_tags d0 (done ++ [with_gd_tags ts g]) x n =
     if decide (x = gd_group g) then (if mem_tag d (gd_group g) n is Some c then Some c else added ts n)
     else mem_tag d x n).
Proof.
  intros Htag Hf Hnd Hnone. split.
  - intros x. destruct (Hf x) as [Hx1 Hx2]. rewrite group_tags_app, group_tags_one. simpl.
    destruct (decide (gd_group g = x)) as [<-|Ex]; [|by rewrite app_nil_r].
    assert (Hn : ∀ t, t ∈ ts → mem_tag d0 (gd_group g) (tag_name t) = None ∧
                   (tag_name t ∉ tag_name <$> group_tags done (gd_group g))).
    { intros t Ht. specialize (Hnone t Ht). rewrite Htag in Hnone. unfold plus_tags in Hnone.
      destruct (mem_tag d0 _ _); [done|]. split; [done|]. by apply added_none. }
    split.
    + rewrite fmap_app. apply NoDup_app. split_and!; [done| |done].
      intros n Hn1 (t & -> & Ht)%list_elem_of_fmap. by apply (Hn t Ht).
    + intros t [Ht|Ht]%elem_of_app; [by apply Hx2|by apply Hn].
  - intros x n. unfold plus_tags. rewrite group_tags_app, group_tags_one, added_app. simpl.
    destruct (decide (gd_group g = x)) as [<-|Ex].
    + rewrite decide_True by done. rewrite Htag. unfold plus_tags.
      destruct (mem_tag d0 (gd_group g) n); [done|]. by destruct (added (group_tags done _) n).
    + rewrite decide_False by congruence. rewrite Htag. unfold plus_tags. simpl.
      destruct (mem_tag d0 x n); [done|]. by destruct (added (group_tags done x) n).
Qed.

(** One group of the loop. *)
Lemma midway_step clock a0 db0 done a db g :
  midway a0 db0 done a db → gd_ok g →
  let a1 := with_driver (neu_adapter_driver_add_group (a_driver a) (gd_group g)
                           (u32 (gd_interval g))).2 a in
  let db1 := adapter_storage_add_group (a_name a) (gd_group g) (gd_interval g) (gd_context g) db in
  ∃ r a2 k, add_gtag_tags plugin clock a1 db1 (gd_group g) (gd_interval g) 0 (gd_tags g) =
      Some (r, a2, db1) ∧
    (r = None ∧ k = length (gd_tags g) ∨ ∃ ret, r = Some (ret, k) ∧ ret ≠ 0) ∧
    midway a0 db0 (done ++ [with_gd_tags (take k (gd_tags g)) g]) a2 db1.
Proof.
  intros (dg & d & Hs & Hp & Hdg & -> & Ht & Hi & Hin & Htag & Hf) Hok a1 db1.
  destruct Hok as [Hlen Hitv Hctx _].
  destruct (add_group_both (a_name a0) dg (gd_group g) (gd_interval g) (gd_context g) db)
    as [Hs1 Hp1]; [done..|].
  pose proof (add_group_config dg (gd_group g) (gd_interval g) (sc_tables _ _ _ Hs)) as Hg.
  destruct (neu_adapter_driver_add_group dg (gd_group g) (gd_interval g)) as [r1 dg1].
  destruct Hg as (_ & _ & Hgi & Hgt). simpl in Hs1.
  pose proof (add_group_config d (gd_group g) (gd_interval g) Ht) as Hd.
  unfold a1. rewrite u32_same by lia. simpl.
  destruct (neu_adapter_driver_add_group d (gd_group g) (gd_interval g)) as [r2 d1].
  destruct Hd as (Ht1 & _ & Hdi & Hdt). simpl.
  destruct (add_gtag_tags_config clock (with_driver d1 (with_driver d a0)) db1 (gd_group g)
    (gd_interval g) 0 (gd_tags g)) as (r & d2 & k & E & Hr & Ht2 & Hi2 & Hnd & Hnone & Htag2);
    [done|simpl; rewrite Hdi, decide_True by done; eauto|].
  exists r, (with_driver d2 a0), k. split; [exact E|]. split; [exact Hr|]. simpl in *.
  destruct (fresh_snoc (a_driver a0) d1 done g (take k (gd_tags g))) as [Hf' Hplus];
    [intros x n; by rewrite Hdt|done..|].
  exists dg1, d2. split_and!.
  - done.
  - by etransitivity.
  - intros x n. by rewrite Hgt.
  - done.
  - done.
  - intros x. by rewrite Hi2, Hdi, Hgi, !Hi.
  - intros g' [Hg'| ->%list_elem_of_singleton]%elem_of_app; rewrite Hgi.
    + case_decide; [eauto|by apply Hin].
    + simpl. rewrite decide_True by done. eauto.
  - intros x n. by rewrite Htag2, Hplus.
  - done.
Qed.

(** A failure in the middle: what was added is deleted again. *)
Lemma midway_roll_back clock a0 db0 done a db g k :
  midway a0 db0 (done ++ [with_gd_tags (take k (gd_tags g)) g]) a db →
  let a' := with_driver (roll_back clock done g k (a_driver a)) a in
  kept false a0 db0 a' db ∧ (∀ x n, mem_tag (a_driver a') x n = mem_tag (a_driver a0) x n).
Proof.
  intros (dg & d & Hs & Hp & Hdg & -> & Ht & Hi & Hin & Htag & Hf). simpl.
  pose proof (roll_back_config clock (done ++ [with_gd_tags (take k (gd_tags g)) g]) d Ht) as Hr.
  rewrite fold_left_app in Hr. simpl in Hr. fold (roll_back clock done g k d) in Hr.
  destruct Hr as (Ht' & Hi' & Htag').
  assert (Hsame : ∀ x n, mem_tag (roll_back clock done g k d) x n = mem_tag (a_driver a0) x n).
  { intros x n. rewrite Htag', Htag. destruct (Hf x) as [_ Hnone]. unfold plus_tags.
    case_decide as Hn.
    - apply list_elem_of_fmap in Hn as (t & -> & Hn). by rewrite Hnone.
    - apply added_none in Hn. rewrite Hn. by destruct (mem_tag (a_driver a0) x n). }
  split; [|done]. split_and!; [|done|eauto]. destruct Hs.
  split; try done; simpl.
  - intros x. by rewrite Hi', Hi.
  - intros x n. by rewrite Hsame, <-Hdg.
  - intros x i. rewrite Hi', Hi. apply sc_range.
Qed.

Lemma add_gtags_loop_midway clock a0 db0 done a db gs :
  midway a0 db0 done a db → Forall gd_ok gs →
  ∃ ret a' db', add_gtags_loop plugin clock a db done gs = Some (ret, a', db') ∧
    (ret = 0 ∧ midway a0 db0 (done ++ gs) a' db' ∨
     ret ≠ 0 ∧ kept false a0 db0 a' db' ∧
       (∀ x n, mem_tag (a_driver a') x n = mem_tag (a_driver a0) x n)).
Proof.
  revert done a db. induction gs as [|g gs IH]; intros done a db Hm Hok.
  { exists 0, a, db. split; [done|]. left. by rewrite app_nil_r. }
  apply Forall_cons in Hok as [Hg Hgs]. cbn [add_gtags_loop].
  destruct (midway_step clock a0 db0 done a db g Hm Hg) as (r & a2 & k & E & Hr & Hm2).
  cbv zeta in *.
  match goal with |- context [a_name (with_driver ?d a)] =>
    change (a_name (with_driver d a)) with (a_name a) end.
  rewrite E. cbn [mbind option_bind].
  destruct Hr as [[-> ->]|(ret & -> & Hne)].
  - replace (with_gd_tags (take (length (gd_tags g)) (gd_tags g)) g) with g in Hm2
      by (rewrite firstn_all; by destruct g).
    destruct (IH _ _ _ Hm2 Hgs) as (ret & a' & db' & E' & Hres). exists ret, a', db'.
    split; [exact E'|]. by rewrite <-app_assoc in Hres.
  - eexists _, _, _. split; [done|]. right. split; [done|]. by apply midway_roll_back.
Qed.

(** *** Storing the tags *)

Lemma store_gtags_config node d0 pre gs db :
  (∀ x n, db_tag node db x n = plus_tags d0 pre x n) → rows_faithful db → db_ok db →
  fresh d0 (pre ++ gs) → (∀ g, g ∈ gs → is_Some (db_interval node db (gd_group g))) →
  Forall gd_ok gs → Forall (λ g, Forall checked (gd_tags g)) gs →
  let db' := store_gtags plugin node gs db in
  config_path false node db db' ∧ same_groups db db' ∧ rows_faithful db' ∧
  (∀ x n, db_tag node db' x n = plus_tags d0 (pre ++ gs) x n).
Proof.
  revert pre db. induction gs as [|g gs IH]; intros pre db Htag Hf Hdb Hfr Hg Hok Hck.
  { rewrite app_nil_r. split_and!; [apply rtc_refl|done..]. }
  apply Forall_cons in Hok as [Hgok Hok]. apply Forall_cons in Hck as [Hgck Hck].
  pose proof (as_added_bare plugin Hplugin (gd_tags g)) as Hb.
  set (ts := tag_as_added plugin <$> gd_tags g) in *.
  destruct (Hfr (gd_group g)) as [Hnd Hnone].
  change (pre ++ g :: gs) with (pre ++ [g] ++ gs) in Hnd, Hnone.
  rewrite !group_tags_app, group_tags_one, decide_True in Hnd, Hnone by done.
  rewrite !fmap_app in Hnd. apply NoDup_app in Hnd as (Hnd1 & Hdis & (Hnd2 & _)%NoDup_app).
  destruct (storage_add_tags_config node (gd_group g) ts db) as (Hp1 & Hsg1 & Hf1 & Htag1).
  - apply (Forall_bare storable (gd_tags g)); [apply storable_bare|done|apply Hgok].
  - by apply (Forall_bare checked (gd_tags g)); [apply checked_bare|..].
  - apply Hg. set_solver.
  - by rewrite (names_bare _ _ Hb).
  - intros t Ht. assert (Hin : tag_name t ∈ tag_name <$> gd_tags g)
      by (rewrite <-(names_bare _ _ Hb); by apply list_elem_of_fmap_2).
    rewrite Htag. unfold plus_tags.
    apply list_elem_of_fmap in Hin as (t' & -> & Ht'). rewrite Hnone by set_solver.
    apply added_none. intros Hin. apply (Hdis _ Hin). apply elem_of_app. left.
    by apply list_elem_of_fmap_2.
  - done.
  - unfold store_gtags. cbn [fold_left]. fold ts. fold (store_gtags plugin node gs).
    set (db1 := adapter_storage_add_tags node (gd_group g) ts db) in *.
    destruct (IH (pre ++ [g]) db1) as (Hp2 & Hsg2 & Hf2 & Htag2); try done.
    + intros x n. rewrite Htag1, !Htag. unfold plus_tags.
      rewrite group_tags_app, group_tags_one, added_app, (added_bare ts (gd_tags g) n Hb).
      destruct (decide (x = gd_group g)) as [->|Ex].
      * rewrite decide_True by done. destruct (added (gd_tags g) n) as [c|] eqn:Ea.
        -- unfold added in Ea. apply fmap_Some in Ea as (t & [Hin Hn]%hash_find_Some & ->).
           rewrite <-Hn, Hnone by set_solver.
           assert (added (group_tags pre (gd_group g)) (tag_name t) = None) as ->; [|done].
           apply added_none. intros Hin'. apply (Hdis _ Hin'). apply elem_of_app. left.
           by apply list_elem_of_fmap_2.
        -- destruct (mem_tag d0 (gd_group g) n); [done|].
           by destruct (added (group_tags pre (gd_group g)) n).
      * rewrite decide_False by congruence. destruct (mem_tag d0 x n); [done|].
        by destruct (added (group_tags pre x) n).
    + by eapply config_path_ok.
    + by rewrite <-app_assoc.
    + intros g' Hg'. rewrite (same_groups_interval _ _ _ _ Hsg1). apply Hg. set_solver.
    + rewrite <-app_assoc in Htag2. split_and!; [by etransitivity| |done|done].
      destruct Hsg1, Hsg2. split; etransitivity; done.
Qed.

Lemma store_gtags_kept a0 db0 gs a db :
  midway a0 db0 gs a db → Forall gd_ok gs → Forall (λ g, Forall checked (gd_tags g)) gs →
  kept false a0 db0 a (store_gtags plugin (a_name a0) gs db) ∧ fresh (a_driver a0) gs ∧
  (∀ x n, mem_tag (a_driver a) x n = plus_tags (a_driver a0) gs x n).
Proof.
  intros (dg & d & Hs & Hp & Hdg & -> & Ht & Hi & Hin & Htag & Hf) Hok Hck.
  destruct (store_gtags_config (a_name a0) (a_driver a0) [] gs db) as (Hp' & Hsg & Hf' & Htag');
    try done.
  - intros x n. rewrite <-(sc_tags _ _ _ Hs), Hdg. unfold plus_tags. simpl.
    by destruct (mem_tag (a_driver a0) x n).
  - apply Hs.
  - apply Hs.
  - intros g Hg. rewrite <-(sc_intervals _ _ _ Hs). by apply Hin.
  - split; [|done]. split_and!; [|by etransitivity|eauto]. simpl.
    eapply (stored_tags false); [exact Hs|done..|]. intros x n. rewrite Htag. by rewrite Htag'.
Qed.

(** *** Validation *)

Definition same_request (g g' : neu_gdatatag_t) : Prop :=
  gd_group g' = gd_group g ∧ gd_interval g' = gd_interval g ∧ gd_context g' = gd_context g ∧
  bare <$> gd_tags g' = bare <$> gd_tags g.

Lemma validate_tags_loop_ok index (pre ts : list neu_datatag_t) index' all :
  validate_tags_loop plugin index pre ts = inr (index', all) →
  bare <$> all = (bare <$> pre) ++ (bare <$> ts) ∧ Forall checked ts.
Proof.
  revert index pre. induction ts as [|t ts IH]; intros index pre; simpl.
  { intros [= _ <-]. by rewrite app_nil_r. }
  pose proof (validate_tag_checked plugin Hplugin t) as Hv.
  destruct (neu_adapter_driver_validate_tag plugin t) as [ret t1]. destruct Hv as [Hb Hck].
  destruct (Z.eqb_spec ret 0) as [->|]; simpl; [|done]. intros [Hall Hcks]%IH. split.
  - rewrite Hall, fmap_app. csimpl. by rewrite Hb, <-app_assoc.
  - constructor; [by apply Hck|done].
Qed.

Lemma validate_groups_loop_ok index pre gs index' all :
  validate_groups_loop plugin index pre gs = inr (index', all) →
  ∃ gs', all = pre ++ gs' ∧ Forall2 same_request gs gs' ∧
    Forall (λ g, Forall checked (gd_tags g)) gs'.
Proof.
  revert index pre. induction gs as [|g gs IH]; intros index pre; simpl.
  { intros [= _ <-]. exists []. by rewrite app_nil_r. }
  destruct (validate_tags_loop plugin index [] (gd_tags g)) as [e|[index1 ts]] eqn:E; [done|].
  apply validate_tags_loop_ok in E as [Hb Hck]. simpl in Hb.
  intros (gs' & -> & Hsame & Hcks)%IH. exists (with_gd_tags ts g :: gs'). split_and!.
  - by rewrite <-app_assoc.
  - constructor; [|done]. split_and!; done.
  - constructor; [|done]. simpl.
    by apply (Forall_bare checked (gd_tags g)); [apply checked_bare|..].
Qed.

(** An error of validation is not zero. *)
Lemma validate_tags_error index (pre ts : list neu_datatag_t) e :
  validate_tags_loop plugin index pre ts = inl e → e ≠ 0.
Proof.
  revert index pre. induction ts as [|t ts IH]; intros index pre; simpl; [done|].
  destruct (neu_adapter_driver_validate_tag plugin t) as [ret t1].
  destruct (Z.eqb_spec ret 0); simpl; [apply IH|by intros [= <-]].
Qed.

Lemma validate_gtags_error d gs e : neu_adapter_validate_gtags plugin d gs = inl e → e ≠ 0.
Proof.
  unfold neu_adapter_validate_gtags. destruct (_ <? _); [by intros [= <-]|].
  generalize 0 at 1. generalize (@nil neu_gdatatag_t).
  induction gs as [|g gs IH]; intros pre index; simpl; [done|].
  destruct (validate_tags_loop plugin index [] (gd_tags g)) as [e'|[index1 ts]] eqn:E; [|apply IH].
  intros [= <-]. by eapply validate_tags_error.
Qed.

Lemma same_request_tags gs gs' x :
  Forall2 same_request gs gs' → bare <$> group_tags gs' x = bare <$> group_tags gs x.
Proof.
  induction 1 as [|g g' gs gs' (Hg & _ & _ & Hb) _ IH]; [done|].
  change (g :: gs) with ([g] ++ gs). change (g' :: gs') with ([g'] ++ gs').
  rewrite !group_tags_app, !group_tags_one, !fmap_app, IH, Hg. f_equal. by case_decide.
Qed.

Lemma same_request_ok gs gs' : Forall2 same_request gs gs' → Forall gd_ok gs → Forall gd_ok gs'.
Proof.
  induction 1 as [|g g' gs gs' (Hg & Hi & Hc & Hb) _ IH]; [done|].
  intros [Hok Hoks]%Forall_cons. constructor; [|by apply IH]. destruct Hok.
  split; rewrite ?Hg, ?Hi, ?Hc; try done.
  by apply (Forall_bare storable (gd_tags g)); [apply storable_bare|..].
Qed.

(** *** The request *)

Lemma handle_add_gtag_spec clock (a : neu_adapter_t P) gs db :
  stored_config (a_name a) (a_driver a) db → is_driver a = true → Forall gd_ok gs →
  ∃ resp a' db', handle_add_gtag plugin clock a (a_name a) gs db = Some (resp, a', db') ∧
    kept false a db a' db' ∧
    (resp_error resp ≠ 0 ∧ (∀ x n, mem_tag (a_driver a') x n = mem_tag (a_driver a) x n) ∨
     resp_error resp = 0 ∧ fresh (a_driver a) gs ∧
       (∀ x n, mem_tag (a_driver a') x n = plus_tags (a_driver a) gs x n)).
Proof.
  intros Hs Hdrv Hok. unfold handle_add_gtag. rewrite Hdrv. simpl.
  assert (Hrefuse : ∀ e, e ≠ 0 → ∃ resp a' db',
    Some (resp_fail e, a, db) = Some (resp, a', db') ∧ kept false a db a' db' ∧
    (resp_error resp ≠ 0 ∧ (∀ x n, mem_tag (a_driver a') x n = mem_tag (a_driver a) x n) ∨
     resp_error resp = 0 ∧ fresh (a_driver a) gs ∧
       (∀ x n, mem_tag (a_driver a') x n = plus_tags (a_driver a) gs x n))).
  { intros e He. eexists _, _, _. split; [done|]. split; [by apply kept_refl|by left]. }
  destruct (neu_adapter_validate_gtags plugin (a_driver a) gs) as [e|[index gs']] eqn:Hv.
  { apply Hrefuse. by eapply validate_gtags_error. }
  unfold neu_adapter_validate_gtags in Hv. destruct (_ <? _); [done|].
  apply validate_groups_loop_ok in Hv as (gs1 & -> & Hsame & Hcks). simpl.
  destruct (Z.eqb_spec (neu_adapter_try_add_gtags plugin gs1) 0) as [Et|Et]; simpl;
    [|by apply Hrefuse].
  destruct (add_gtags_loop_midway clock a db [] a db gs1) as (ret & a' & db' & E & Hres);
    [by apply midway_start|by eapply same_request_ok|].
  unfold neu_adapter_add_gtags. rewrite E. simpl.
  destruct Hres as [[-> Hm]|(Hne & Hk & Htag)]; simpl.
  - destruct (store_gtags_kept a db gs1 a' db') as (Hk & Hfr & Htag);
      [done|by eapply same_request_ok|done|].
    eexists _, _, _. split; [done|]. split; [exact Hk|]. right. split_and!; [done| |].
    + intros x. destruct (Hfr x) as [Hnd Hnone]. pose proof (same_request_tags gs gs1 x Hsame) as Hb.
      rewrite (names_bare _ _ Hb) in Hnd. split; [done|]. intros t Ht.
      assert (Hin : tag_name t ∈ tag_name <$> group_tags gs1 x)
        by (rewrite (names_bare _ _ Hb); by apply list_elem_of_fmap_2).
      apply list_elem_of_fmap in Hin as (t' & -> & Ht'). by apply Hnone.
    + intros x n. rewrite Htag. unfold plus_tags.
      by rewrite (added_bare _ _ n (same_request_tags gs gs1 x Hsame)).
  - rewrite (proj2 (Z.eqb_neq _ _) Hne). simpl. eexists _, _, _. split; [done|].
    split; [exact Hk|]. by left.
Qed.
End Gtags.
