(* ===== verification/AdapterOk.v ===== *)
(** * What the adapter keeps: life cycle and configuration

    [served] is one request to a driver node with what it does to the adapter and
    to the database.  The timers follow the state of the node through every
    sequence of requests, except that renaming a node that does not run starts
    timers which the next start loses; and the database always holds the
    configuration that is in memory, so that a node that is created from it after
    a restart has the same groups, tags and setting. *)

From S2P Require Import Prelude UtHash NeuTypes CHeap DriverCache Tag Group Driver Persist Adapter AdapterConfig AdapterStored AdapterGtag.

(** ** Requests *)

Inductive request :=
  | ReqSetting (setting : string)
  | ReqCtl (ctl : neu_adapter_ctl_e)
  | ReqRename (new_name : string)
  | ReqAddGroup (group : string) (interval : Z)
  | ReqUpdateGroup (group new_name : string) (interval : Z)
  | ReqDelGroup (group : string)
  | ReqAddTag (group : string) (ts : list neu_datatag_t)
  | ReqAddGtag (gs : list neu_gdatatag_t)
  | ReqUpdateTag (group : string) (ts : list neu_datatag_t)
  | ReqDelTag (group : string) (names : list string)
  | ReqRenameTag (group old_name new_name : string).

Section Served.
Context {P : Type} (intf : plugin_intf P) (plugin : plugin_ops).
Context `{SQL : Sqlite}.
Context {J : Type} `{Jansson J}.

(** A request that the manager has forwarded to the node it names.  The manager
    renames the node in the database when the adapter has answered. *)
Inductive served (a : neu_adapter_t P) (db : database)
    : request → neu_adapter_t P → database → Prop :=
  | served_setting s e a' db' :
      handle_node_setting intf a s db = (e, a', db') → served a db (ReqSetting s) a' db'
  | served_ctl c e a' db' :
      handle_node_ctl intf a c db = (e, a', db') → served a db (ReqCtl c) a' db'
  | served_rename n e a' :
      neu_adapter_rename a n = (e, a') →
      served a db (ReqRename n) a' (neu_sqlite_persister_update_node db (a_name a) n).2
  | served_add_group g itv e a' db' :
      handle_add_group a g itv db = (e, a', db') → served a db (ReqAddGroup g itv) a' db'
  | served_update_group now g n itv e a' db' :
      handle_update_group now a g n itv db = (e, a', db') →
      served a db (ReqUpdateGroup g n itv) a' db'
  | served_del_group g (h : mem J) r a' db' h' :
      handle_del_group a (a_name a) g db h = Some (r, a', db', h') →
      served a db (ReqDelGroup g) a' db'
  | served_add_tag clock g ts r a' db' :
      handle_add_tag plugin clock a (a_name a) g ts db = Some (r, a', db') →
      served a db (ReqAddTag g ts) a' db'
  | served_add_gtag clock gs r a' db' :
      handle_add_gtag plugin clock a (a_name a) gs db = Some (r, a', db') →
      served a db (ReqAddGtag gs) a' db'
  | served_update_tag clock g ts r a' db' :
      handle_update_tag plugin clock a (a_name a) g ts db = (r, a', db') →
      served a db (ReqUpdateTag g ts) a' db'
  | served_del_tag clock g ns r a' db' :
      handle_del_tag clock a (a_name a) g ns db = (r, a', db') →
      served a db (ReqDelTag g ns) a' db'
  | served_rename_tag clock g o n r a' db' :
      handle_rename_tag clock a (a_name a) g o n db = (r, a', db') →
      served a db (ReqRenameTag g o n) a' db'.

(** Requests on groups and tags; whether a group gets a new name or goes away. *)
Definition moves (req : request) : option bool :=
  match req with
  | ReqSetting _ | ReqCtl _ | ReqRename _ => None
  | ReqUpdateGroup _ _ _ | ReqDelGroup _ => Some true
  | _ => Some false
  end.

(** ** Requests on tags

    A relation on drivers that new tables of tags and new groups respect is
    respected by every request on tags. *)

Class TagStable (R : relation neu_adapter_driver_t) : Prop := {
  ts_preorder :: PreOrder R;
  ts_tags d d' group gr :
    d_running d' = d_running d →
    d_groups d' = hash_update g_name group (with_group gr) (d_groups d) → R d d';
  ts_add_group d group itv : R d (neu_adapter_driver_add_group d group itv).2;
}.

Section Stable.
Context (R : relation neu_adapter_driver_t) `{!TagStable R}.

Lemma del_tag_stable clock d group n : R d (neu_adapter_driver_del_tag clock d group n).2.
Proof.
  unfold neu_adapter_driver_del_tag. destruct (find_group d group) as [g|]; [|done].
  destruct (neu_group_del_tag _ _ _) as [ret gr]. simpl.
  apply (ts_tags d _ group gr); by destruct (ret =? _).
Qed.

Lemma update_tag_stable clock d group t :
  R d (neu_adapter_driver_update_tag plugin clock d group t).2.
Proof.
  unfold neu_adapter_driver_update_tag. do 3 (case_decide; [done|]).
  destruct (_ <? _); [done|]. destruct (validate_tag plugin t) as [r t'].
  destruct (negb _); [done|]. destruct (find_group d group) as [g|]; [|done].
  destruct (neu_group_update_tag _ _ _) as [ret gr]. by apply (ts_tags d _ group gr).
Qed.

Lemma rename_tag_stable clock d group o n :
  R d (neu_adapter_driver_rename_tag clock d group o n).2.
Proof.
  unfold neu_adapter_driver_rename_tag. case_decide; [done|].
  destruct (find_group d group) as [g|]; [|done].
  destruct (neu_group_rename_tag _ _ _) as [ret gr]. simpl.
  apply (ts_tags d _ group gr); by destruct (ret =? _).
Qed.

Lemma add_tag_stable clock d group t itv r d' :
  neu_adapter_driver_add_tag plugin clock d group t itv = Some (r, d') → R d d'.
Proof.
  unfold neu_adapter_driver_add_tag.
  set (d1 := if find_group d group is Some _ then d else _).
  assert (H1 : R d d1) by (unfold d1; destruct (find_group d group); [done|apply ts_add_group]).
  clearbody d1. destruct (find_group d1 group) as [g|]; [|done].
  destruct (neu_group_add_tag _ _ _) as [ret gr]. intros [= <- <-].
  etransitivity; [exact H1|]. apply (ts_tags d1 _ group gr); by destruct (ret =? _).
Qed.

Definition changed (a a' : neu_adapter_t P) : Prop :=
  ∃ d', a' = with_driver d' a ∧ R (a_driver a) d'.

#[export] Instance changed_preorder : PreOrder changed.
Proof.
  split; [intros a; exists (a_driver a); by destruct a|].
  intros a1 a2 a3 (d1 & -> & H1) (d2 & -> & H2). exists d2. split; [done|].
  by etransitivity.
Qed.

Lemma changed_driver a d' : R (a_driver a) d' → changed a (with_driver d' a).
Proof. intros H'. by exists d'. Qed.

Lemma add_group_changed a group itv :
  changed a (with_driver (neu_adapter_driver_add_group (a_driver a) group itv).2 a).
Proof. apply changed_driver, ts_add_group. Qed.

Lemma driver_add_tag_changed clock a db group t itv r a' db' :
  driver_add_tag plugin clock a db group t itv = Some (r, a', db') → changed a a'.
Proof.
  unfold driver_add_tag. destruct (neu_adapter_driver_add_tag _ _ _ _ _ _) as [[r1 d1]|] eqn:E;
    simpl; [|done]. intros [= <- <- <-]. by eapply changed_driver, add_tag_stable.
Qed.

Lemma add_tags_loop_changed clock a db group itv ts a' db' :
  add_tags_loop plugin clock a db group itv ts = Some (a', db') → changed a a'.
Proof.
  revert a db. induction ts as [|t ts IH]; intros a db; simpl; [by intros [= <- <-]|].
  destruct (driver_add_tag plugin clock a db group t itv) as [[[r1 a1] db1]|] eqn:E; simpl; [|done].
  intros E'. etransitivity; [by eapply driver_add_tag_changed|by eapply IH].
Qed.

Lemma add_gtag_tags_changed clock a db group itv i ts r a' db' :
  add_gtag_tags plugin clock a db group itv i ts = Some (r, a', db') → changed a a'.
Proof.
  revert a db i. induction ts as [|t ts IH]; intros a db i; simpl; [by intros [= _ <- <-]|].
  destruct (driver_add_tag plugin clock a db group t itv) as [[[r1 a1] db1]|] eqn:E; simpl; [|done].
  apply driver_add_tag_changed in E. destruct (negb _); [by intros [= _ <- <-]|].
  intros E'. etransitivity; [done|by eapply IH].
Qed.

Lemma roll_back_stable clock done g i d : R d (roll_back clock done g i d).
Proof.
  assert (Hd : ∀ group names d, R d (del_added clock group names d)).
  { intros group names. induction names as [|n names IH]; intros d'; [done|].
    etransitivity; [apply del_tag_stable|apply IH]. }
  unfold roll_back. etransitivity; [|apply Hd]. clear i. revert d.
  induction done as [|g' done IH]; intros d; [done|]. etransitivity; [apply Hd|apply IH].
Qed.

Lemma add_gtags_loop_changed clock a db done gs r a' db' :
  add_gtags_loop plugin clock a db done gs = Some (r, a', db') → changed a a'.
Proof.
  revert a db done. induction gs as [|g gs IH]; intros a db done; cbn [add_gtags_loop];
    [by intros [= _ <- <-]|]. cbv zeta.
  destruct (add_gtag_tags _ _ _ _ _ _ _ _) as [[[r1 a1] db1]|] eqn:E; simpl; [|done].
  apply add_gtag_tags_changed in E. intros Hres. etransitivity; [apply add_group_changed|].
  etransitivity; [exact E|]. destruct r1 as [[ret i]|].
  - injection Hres as _ <- _. apply changed_driver, roll_back_stable.
  - by eapply IH.
Qed.

Lemma del_tags_loop_changed clock a driver group names db r a' db' :
  del_tags_loop clock a driver group names db = (r, a', db') → changed a a'.
Proof.
  revert a db. induction names as [|n names IH]; intros a db; simpl; [by intros [= _ <- <-]|].
  pose proof (del_tag_stable clock (a_driver a) group n) as Ht.
  destruct (neu_adapter_driver_del_tag clock (a_driver a) group n) as [ret d'].
  apply changed_driver in Ht. destruct (ret =? 0); [|by intros [= _ <- _]].
  intros E. etransitivity; [exact Ht|by eapply IH].
Qed.

Lemma update_tags_loop_changed clock a driver group i ts db r a' db' :
  update_tags_loop plugin clock a driver group i ts db = (r, a', db') → changed a a'.
Proof.
  revert a i db. induction ts as [|t ts IH]; intros a i db; simpl; [by intros [= _ <- <-]|].
  destruct (neu_adapter_driver_validate_tag plugin t) as [ret t1].
  destruct (negb _); [by intros [= _ <- _]|].
  pose proof (update_tag_stable clock (a_driver a) group t1) as Ht.
  destruct (neu_adapter_driver_update_tag plugin clock (a_driver a) group t1) as [ret1 d'].
  apply changed_driver in Ht. destruct (negb _); [by intros [= _ <- _]|].
  intros E. etransitivity; [exact Ht|by eapply IH].
Qed.

Lemma load_groups_changed clock a db rows a' db' :
  load_groups_loop plugin clock a db rows = Some (a', db') → changed a a'.
Proof.
  revert a db. induction rows as [|r rows IH]; intros a db; cbn [load_groups_loop];
    [by intros [= <- <-]|]. cbv zeta.
  destruct (add_tags_loop _ _ _ _ _ _ _) as [[a1 db1]|] eqn:E; simpl; [|done].
  apply add_tags_loop_changed in E. intros E'. etransitivity; [apply add_group_changed|].
  etransitivity; [exact E|by eapply IH].
Qed.

(** Whatever the outcome of the request is. *)
Lemma tag_request_changed a db req a' db' :
  served a db req a' db' → moves req = Some false → changed a a'.
Proof.
  intros Hsv Hm.
  destruct Hsv as [| | |g itv e a' db' E|now g n itv e a' db' E|g h r a' db' h' E
    |clock g ts r a' db' E|clock gs r a' db' E|clock g ts r a' db' E|clock g ns r a' db' E
    |clock g o n r a' db' E]; try done; revert E.
  - unfold handle_add_group. destruct (_ <? _); [by intros [= _ <- _]|].
    destruct (is_driver a); [|by intros [= _ <- _]].
    pose proof (add_group_changed a g itv) as Hc.
    destruct (neu_adapter_driver_add_group _ _ _). by intros [= _ <- _].
  - unfold handle_add_tag. destruct (if is_driver a then _ else _) as [resp ts'].
    destruct (resp_refused resp); [by intros [= _ <- _]|]. cbv zeta.
    destruct (negb _); [by intros [= _ <- _]|].
    destruct (add_tags_loop _ _ _ _ _ _ _) as [[a1 db1]|] eqn:E; simpl; [|done].
    intros [= _ <- _]. by eapply add_tags_loop_changed.
  - unfold handle_add_gtag. destruct (negb (is_driver a)); [by intros [= _ <- _]|].
    destruct (neu_adapter_validate_gtags _ _ _) as [e|[index gs']]; [by intros [= _ <- _]|].
    cbv zeta. destruct (negb _); [by intros [= _ <- _]|]. unfold neu_adapter_add_gtags.
    destruct (add_gtags_loop _ _ _ _ _ _) as [[[r1 a1] db1]|] eqn:E; simpl; [|done].
    apply add_gtags_loop_changed in E. destruct (negb _); by intros [= _ <- _].
  - unfold handle_update_tag. destruct (is_driver a); [|by intros [= _ <- _]].
    apply update_tags_loop_changed.
  - unfold handle_del_tag. destruct (is_driver a); [|by intros [= _ <- _]].
    destruct (del_tags_loop _ _ _ _ _ _) as [[e a1] db1] eqn:E. intros [= _ <- _].
    by eapply del_tags_loop_changed.
  - unfold handle_rename_tag. destruct (is_driver a); [|by intros [= _ <- _]].
    pose proof (rename_tag_stable clock (a_driver a) g o n) as Ht.
    destruct (neu_adapter_driver_rename_tag clock (a_driver a) g o n) as [ret d'].
    destruct (ret =? 0); [|intros [= _ <- _]; by apply changed_driver].
    destruct (adapter_storage_rename_tag _ _ _ _ _) as [rv db1].
    apply changed_driver in Ht. destruct (negb _); intros [= _ <- _]; [|done].
    etransitivity; [exact Ht|]. apply changed_driver, rename_tag_stable.
Qed.

End Stable.

(** ** Timers *)

Definition running_timers (b : bool) : timers_t := {| t_handles := b; t_lost := 0 |}.

Definition timers_follow (d : neu_adapter_driver_t) : Prop :=
  Forall (λ g, g_timers g = running_timers (d_running d)) (d_groups d).

(** What a request on groups and tags does with timers. *)
Definition keeps_timers (d d' : neu_adapter_driver_t) : Prop :=
  d_running d' = d_running d ∧ (timers_follow d → timers_follow d').

Lemma Forall_hash_updated {K A} `{EqDecision K} (key : A → K) (Q : A → Prop) k f l :
  Forall Q l → (∀ x, x ∈ l → Q x → Q (f x)) → Forall Q (hash_update key k f l).
Proof.
  induction l as [|x l IH]; simpl; [done|]. intros [Hx Hl]%Forall_cons Hf.
  case_decide; constructor; try done.
  - apply Hf; [set_solver|done].
  - apply IH; [done|]. intros y Hy. apply Hf. set_solver.
Qed.

#[export] Instance keeps_timers_stable : TagStable keeps_timers.
Proof.
  split.
  - split; [by intros d|]. intros d1 d2 d3 [H1 H2] [H3 H4]. split; [congruence|auto].
  - intros d d' group gr Hr Hg. split; [done|]. unfold timers_follow. rewrite Hr, Hg.
    intros Hf. by apply Forall_hash_updated.
  - intros d group itv. unfold neu_adapter_driver_add_group.
    destruct (find_group d group); [done|]. simpl.
    split; [done|]. unfold timers_follow. simpl. intros Hf. apply Forall_snoc. split; [done|].
    by destruct (d_running d).
Qed.

Lemma update_group_timers now d group n itv :
  keeps_timers d (neu_adapter_driver_update_group now d group n itv).2.
Proof.
  unfold neu_adapter_driver_update_group. destruct (find_group d group) as [g|] eqn:Hf; [|done].
  assert (Hb : keeps_timers d (update_group_body now d group n itv g).2).
  { split; [unfold update_group_body; repeat case_match; done|].
    unfold timers_follow. intros Ht. rewrite Forall_forall in Ht.
    assert (Hg : g_timers g = running_timers (d_running d)).
    { apply Ht. by apply hash_find_Some in Hf as [? _]. }
    rewrite <-Forall_forall in Ht. unfold update_group_body.
    destruct n as [n|]; [case_decide; [|destruct (neu_group_set_name _ _) as [r gr]; destruct (r =? 0)]|];
      simpl; destruct (d_running d) eqn:Er; simpl;
      (apply Forall_hash_updated || (apply Forall_snoc; split)); try done;
      try (intros ? _ _; simpl; unfold start_group_timer, stop_group_timer; simpl; by rewrite Hg);
      try (by eapply Forall_sublist; [apply hash_del_sublist|]);
      simpl; unfold start_group_timer, stop_group_timer; simpl; by rewrite Hg. }
  destruct n as [n|]; [|by destruct (_ =? _)]. case_decide; [done|]. by destruct (_ && _).
Qed.

(** Whatever the request on groups or tags is, and whatever its outcome. *)
Lemma config_request_timers a db req a' db' :
  served a db req a' db' → moves req ≠ None → changed keeps_timers a a'.
Proof.
  intros Hsv Hm. destruct (moves req) as [[|]|] eqn:E0; [|by eapply (tag_request_changed keeps_timers)|done].
  clear Hm. destruct Hsv as [| | | |now g n itv e a' db' E|g h r a' db' h' E| | | | |]; try done; revert E.
  - unfold handle_update_group. destruct (is_driver a); [|by intros [= _ <- _]].
    pose proof (update_group_timers now (a_driver a) g (Some n) itv) as Hc.
    destruct (neu_adapter_driver_update_group _ _ _ _ _). intros [= _ <- _]. by apply changed_driver.
  - unfold handle_del_group, neu_adapter_driver_del_group, mbind, M_bind, mret, M_ret.
    destruct (is_driver a); [|by intros [= _ <- _ _]].
    destruct (find_group (a_driver a) g) as [gr|]; simpl;
      [|by intros [= _ <- _ _]; apply changed_driver].
    destruct (cache_del_tags _ _ _ h) as [[c h1]|]; [|done]. simpl. intros [= _ <- _ _].
    apply changed_driver. split; [done|]. unfold timers_follow. simpl.
    by eapply Forall_sublist, hash_del_sublist.
Qed.

(** ** Life cycle *)

(** A driver whose timers follow its state: it has the handles of one set of
    timers for every group, and of the timer that reconnects, exactly while it
    runs, and it has lost none; it leaves [INIT] with a setting only. *)
Record lifecycle (a : neu_adapter_t P) : Prop := {
  lc_type : is_driver a = true;
  lc_running : d_running (a_driver a) = bool_decide (a_state a = NEU_NODE_RUNNING_STATE_RUNNING);
  lc_groups : timers_follow (a_driver a);
  lc_connect : a_timer_connect a = running_timers (d_running (a_driver a));
  lc_setting : a_state a ≠ NEU_NODE_RUNNING_STATE_INIT → is_Some (a_setting a);
}.

Lemma lifecycle_changed a a' : changed keeps_timers a a' → lifecycle a → lifecycle a'.
Proof. intros (d' & -> & Hr & Ht) []. split; simpl; try done; rewrite ?Hr; auto. Qed.

Lemma start_lifecycle a db e a' db' :
  neu_adapter_start intf a db = (e, a', db') → lifecycle a → lifecycle a'.
Proof.
  unfold neu_adapter_start. intros E Hl. pose proof Hl as [Hty Hr Hg Hc Hs].
  assert (Hgo : ∀ p, a_state a ≠ NEU_NODE_RUNNING_STATE_RUNNING →
    a_state a ≠ NEU_NODE_RUNNING_STATE_INIT →
    lifecycle (with_connect (start_timer (a_timer_connect a))
      (with_driver (neu_adapter_driver_start_group_timer
        (a_driver (with_state NEU_NODE_RUNNING_STATE_RUNNING (with_plugin p a))))
        (with_state NEU_NODE_RUNNING_STATE_RUNNING (with_plugin p a))))).
  { intros p Hnr Hni. rewrite bool_decide_eq_false_2 in Hr by done. split; simpl; try done.
    - unfold timers_follow. simpl. apply Forall_fmap. eapply Forall_impl; [exact Hg|].
      intros g Hgt. simpl. rewrite Hgt, Hr. done.
    - by rewrite Hc, Hr.
    - intros _. auto. }
  destruct (a_state a) eqn:Es; try (injection E as _ <- _; exact Hl);
    destruct (intf_start intf (a_plugin a)) as [err p];
    (destruct (err =? NEU_ERR_SUCCESS);
      [|injection E as _ <- _; by destruct Hl; split]);
    assert (Hty' : is_driver (with_state NEU_NODE_RUNNING_STATE_RUNNING (with_plugin p a)) = true)
      by done;
    rewrite Hty' in E; injection E as _ <- _; by apply Hgo.
Qed.

Lemma stop_lifecycle a db e a' db' :
  neu_adapter_stop intf a db = (e, a', db') → lifecycle a → lifecycle a'.
Proof.
  unfold neu_adapter_stop. intros E Hl. pose proof Hl as [Hty Hr Hg Hc Hs].
  destruct (a_state a) eqn:Es; try (injection E as _ <- _; exact Hl).
  destruct (intf_stop intf (a_plugin a)) as [err p].
  destruct (err =? NEU_ERR_SUCCESS); [|injection E as _ <- _; by destruct Hl; split].
  assert (Hty' : is_driver (with_state NEU_NODE_RUNNING_STATE_STOPPED (with_plugin p a)) = true)
    by done.
  rewrite Hty' in E. injection E as _ <- _. split; simpl; try done.
  - unfold timers_follow. simpl. apply Forall_fmap. eapply Forall_impl; [exact Hg|].
    intros g Hgt. simpl. by rewrite Hgt.
  - by rewrite Hc.
  - intros _. by apply Hs.
Qed.

(** While the node runs a rename stops the timers and starts them again. *)
Lemma rename_lifecycle a n :
  a_state a = NEU_NODE_RUNNING_STATE_RUNNING → lifecycle a → lifecycle (neu_adapter_rename a n).2.
Proof.
  intros Hst [Hty Hr Hg Hc Hs]. rewrite Hst, bool_decide_eq_true_2 in Hr by done.
  unfold neu_adapter_rename. rewrite Hty. simpl.
  change (is_driver (with_a_name n _)) with (is_driver a). rewrite Hty. split; simpl; try done.
  - by rewrite Hr, Hst.
  - unfold timers_follow. simpl. rewrite <-list_fmap_compose. apply Forall_fmap.
    eapply Forall_impl; [exact Hg|]. intros g Hgt. simpl. by rewrite Hgt, Hr.
Qed.

Lemma setting_lifecycle a s db e a' db' :
  handle_node_setting intf a s db = (e, a', db') → lifecycle a → lifecycle a'.
Proof.
  unfold handle_node_setting, neu_adapter_set_setting. intros E Hl.
  destruct (intf_setting intf s (a_plugin a)) as [rv p].
  assert (H1 : lifecycle (with_setting (Some s) (with_plugin p a))).
  { destruct Hl. split; simpl; eauto. }
  destruct (rv =? 0); [|injection E as _ <- _; by destruct Hl; split].
  destruct (decide _) as [Hi|Hi]; [|by injection E as _ <- _].
  destruct (neu_adapter_start intf _ db) as [[e1 a1] db1] eqn:Es. injection E as _ <- _.
  apply (start_lifecycle _ _ _ _ _ Es). destruct H1 as [Hty Hr Hg Hc Hs]. simpl in *.
  rewrite Hi, bool_decide_eq_false_2 in Hr by done. split; simpl; try done.
  - unfold timers_follow in *. simpl in *. by rewrite Hr in Hg.
  - by rewrite Hc, Hr.
Qed.

(** A rename is left out here unless the node runs. *)
Definition rename_runs (a : neu_adapter_t P) (db : database) (req : request) : Prop :=
  if req is ReqRename _ then a_state a = NEU_NODE_RUNNING_STATE_RUNNING else True.

Lemma served_lifecycle a db req a' db' :
  served a db req a' db' → rename_runs a db req → lifecycle a → lifecycle a'.
Proof.
  intros Hsv Hren Hl. pose proof (config_request_timers _ _ _ _ _ Hsv) as Hc.
  destruct Hsv; try (by eapply lifecycle_changed, Hl; apply Hc).
  - by eapply setting_lifecycle.
  - destruct c; [by eapply start_lifecycle|by eapply stop_lifecycle].
  - simpl in Hren. pose proof (rename_lifecycle a n Hren Hl) as Hl'.
    by replace (neu_adapter_rename a n) with (e, a') in Hl'.
Qed.

Section History.
Context (ok : neu_adapter_t P → database → request → Prop).

(** A sequence of requests that meet a condition when they are served. *)
Inductive history : neu_adapter_t P → database → neu_adapter_t P → database → Prop :=
  | history_nil a db : history a db a db
  | history_cons a db req a1 db1 a2 db2 :
      ok a db req → served a db req a1 db1 → history a1 db1 a2 db2 → history a db a2 db2.
End History.

(** *** Creating a node *)

Lemma create_lifecycle clock name p db a db' :
  neu_adapter_create intf plugin clock name NEU_NA_TYPE_DRIVER p db = Some (Some a, db') →
  lifecycle a.
Proof.
  unfold neu_adapter_create. destruct (intf_init intf p) as [rv p1].
  set (a0 := {| a_name := name |}).
  assert (Hl0 : lifecycle a0) by (split; [done..| | |done]; constructor).
  set (a1 := match adapter_load_setting name db with Some _ => _ | None => _ end).
  assert (Hl1 : lifecycle a1).
  { unfold a1. destruct (adapter_load_setting name db) as [s|]; [|done].
    destruct (intf_setting intf s (a_plugin a0)) as [rv1 p2].
    destruct (rv1 =? 0); (split; [done..| | |]; simpl; try constructor; eauto; done). }
  clearbody a1. rewrite (lc_type a1 Hl1).
  destruct (adapter_load_group_and_tag plugin clock a1 db) as [[a2 db2]|] eqn:E; simpl; [|done].
  intros E'. assert (a2 = a) as <- by (destruct (rv =? 0); by simplify_eq).
  eapply lifecycle_changed; [by eapply (load_groups_changed keeps_timers)|done].
Qed.

(** C8: From its creation on, whatever requests a driver node serves and whether they
    succeed: it has exactly one set of timers per group while it runs and none
    otherwise, provided that it is renamed only while it runs. *)
Theorem timers_follow_state clock name p db0 a0 db1 a db :
  neu_adapter_create intf plugin clock name NEU_NA_TYPE_DRIVER p db0 = Some (Some a0, db1) →
  history rename_runs a0 db1 a db →
  let n := if decide (a_state a = NEU_NODE_RUNNING_STATE_RUNNING) then 1%nat else 0%nat in
  Forall (λ g, timers_armed (g_timers g) = n) (d_groups (a_driver a)) ∧
  timers_armed (a_timer_connect a) = n ∧
  (a_state a ≠ NEU_NODE_RUNNING_STATE_INIT → is_Some (a_setting a)).
Proof.
  intros Hc Hh. assert (Hl : lifecycle a).
  { apply create_lifecycle in Hc. clear -Hh Hc.
    induction Hh; [done|]. eauto using served_lifecycle. }
  destruct Hl as [_ Hr Hg Ht Hs]. split_and!; [| |done].
  - eapply Forall_impl; [exact Hg|]. intros g Hgt. simpl. rewrite Hgt, Hr. by case_decide.
  - rewrite Ht, Hr. by case_decide.
Qed.

(** Renaming a driver that does not run starts timers for its groups.  The next
    start loses their handles: every group is polled by two sets of timers, and
    stopping the node leaves one of them running. *)
Theorem rename_stopped_leaks_timers a n db e1 a1 e2 a2 db2 e3 a3 db3 :
  lifecycle a → a_state a ≠ NEU_NODE_RUNNING_STATE_RUNNING →
  neu_adapter_rename a n = (e1, a1) →
  neu_adapter_start intf a1 db = (e2, a2, db2) → e2 = NEU_ERR_SUCCESS →
  neu_adapter_stop intf a2 db2 = (e3, a3, db3) → e3 = NEU_ERR_SUCCESS →
  length (d_groups (a_driver a3)) = length (d_groups (a_driver a)) ∧
  Forall (λ g, timers_armed (g_timers g) = 2%nat) (d_groups (a_driver a2)) ∧
  a_state a3 = NEU_NODE_RUNNING_STATE_STOPPED ∧
  Forall (λ g, timers_armed (g_timers g) = 1%nat) (d_groups (a_driver a3)).
Proof.
  intros [Hty Hr Hg _ _] Hst E1 E2 -> E3 ->. rewrite bool_decide_eq_false_2 in Hr by done.
  assert (H1 : a_state a1 = a_state a ∧ is_driver a1 = true ∧
    d_groups (a_driver a1) = start_group_timer <$> (stop_group_timer <$> d_groups (a_driver a))).
  { unfold neu_adapter_rename in E1. rewrite Hty in E1.
    change (is_driver (with_a_name n _)) with (is_driver a) in E1. rewrite Hty in E1.
    by injection E1 as _ <-. }
  destruct H1 as (Hst1 & Hty1 & Hg1). rewrite <-Hst1 in Hst. clear E1.
  assert (H2 : a_state a2 = NEU_NODE_RUNNING_STATE_RUNNING ∧ is_driver a2 = true ∧
    d_groups (a_driver a2) = start_group_timer <$> d_groups (a_driver a1)).
  { unfold neu_adapter_start in E2. destruct (intf_start intf (a_plugin a1)) as [err p].
    change (is_driver (with_state NEU_NODE_RUNNING_STATE_RUNNING (with_plugin p a1)))
      with (is_driver a1) in E2. rewrite Hty1 in E2.
    destruct (a_state a1); try done; destruct (Z.eqb_spec err NEU_ERR_SUCCESS); by simplify_eq. }
  destruct H2 as (Hst2 & Hty2 & Hg2).
  assert (H3 : a_state a3 = NEU_NODE_RUNNING_STATE_STOPPED ∧
    d_groups (a_driver a3) = stop_group_timer <$> d_groups (a_driver a2)).
  { unfold neu_adapter_stop in E3. rewrite Hst2 in E3.
    destruct (intf_stop intf (a_plugin a2)) as [err p].
    change (is_driver (with_state NEU_NODE_RUNNING_STATE_STOPPED (with_plugin p a2)))
      with (is_driver a2) in E3. rewrite Hty2 in E3.
    destruct (Z.eqb_spec err NEU_ERR_SUCCESS); by simplify_eq. }
  destruct H3 as [Hst3 Hg3]. rewrite Hg3, Hg2, Hg1.
  split_and!; [by rewrite !length_fmap| |done|]; rewrite !Forall_fmap;
    (eapply Forall_impl; [exact Hg|]); intros g Hgt; simpl; rewrite Hgt; done.
Qed.
End Served.

(** ** Witnesses *)

Definition demo_tag (n : string) : neu_datatag_t :=
  {| tag_name := n; tag_address := "1!400001"; tag_attribute := 1; tag_type := NEU_TYPE_INT16;
     tag_precision := 0; tag_decimal := 0; tag_bias := 0; tag_description := Some EmptyString;
     tag_unit := Some EmptyString; tag_option := addr_option_zero; tag_meta := replicate 20 0;
     tag_format := replicate 16 0; tag_n_format := 0 |}.
Definition demo_plugin : plugin_ops :=
  {| validate_tag := λ t, (0, t); add_tags := None; load_tags := None; del_tags := None;
     has_write_tags := true |}.
Definition demo_intf : plugin_intf () :=
  {| intf_init := λ p, (0, p); intf_start := λ p, (0, p); intf_stop := λ p, (0, p);
     intf_setting := λ _ p, (0, p) |}.
#[local] Instance demo_json : Jansson () :=
  {| json_equal := λ _ a b, a =? b; json_decref := λ _ j, j; json_deep_copy := λ p j, (p, j) |}.
#[local] Existing Instance example_sql.

(** The node "plc" of [example_db] when it has been created, and after a setting,
    a tag, a group and a rename, each with the database. *)
Definition demo_none : neu_adapter_t () :=
  {| a_name := "plc"; a_type := NEU_NA_TYPE_DRIVER; a_state := NEU_NODE_RUNNING_STATE_INIT;
     a_setting := None; a_timer_connect := timers_none; a_driver := neu_adapter_driver_create;
     a_plugin := () |}.
Definition demo_0 : neu_adapter_t () * database :=
  match neu_adapter_create demo_intf demo_plugin 7 "plc" NEU_NA_TYPE_DRIVER () example_db with
  | Some (Some a, db) => (a, db) | _ => (demo_none, example_db)
  end.
Definition demo_1 : neu_adapter_t () * database :=
  let '(_, a, db) := handle_node_setting demo_intf demo_0.1 "{}" demo_0.2 in (a, db).
Definition demo_2 : neu_adapter_t () * database :=
  match handle_add_tag demo_plugin 8 demo_1.1 "plc" "fast" [demo_tag "t1"; demo_tag "t2"] demo_1.2 with
  | Some (_, a, db) => (a, db) | None => demo_1
  end.
Definition demo_3 : neu_adapter_t () * database :=
  let '(_, a, db) := handle_add_group demo_2.1 "slow" 1000 demo_2.2 in (a, db).
Definition demo_4 : neu_adapter_t () * database :=
  ((neu_adapter_rename demo_3.1 "line1").2,
   (neu_sqlite_persister_update_node demo_3.2 "plc" "line1").2).

Lemma demo_create :
  neu_adapter_create demo_intf demo_plugin 7 "plc" NEU_NA_TYPE_DRIVER () example_db =
  Some (Some demo_0.1, demo_0.2).
Proof. vm_compute. reflexivity. Qed.

Lemma demo_served_1 : served demo_intf demo_plugin demo_0.1 demo_0.2 (ReqSetting "{}") demo_1.1 demo_1.2.
Proof. apply served_setting with (e := 0). vm_compute. reflexivity. Qed.
Lemma demo_served_2 :
  served demo_intf demo_plugin demo_1.1 demo_1.2 (ReqAddTag "fast" [demo_tag "t1"; demo_tag "t2"])
    demo_2.1 demo_2.2.
Proof. apply served_add_tag with (clock := 8) (r := resp_zero). vm_compute. reflexivity. Qed.
Lemma demo_served_3 :
  served demo_intf demo_plugin demo_2.1 demo_2.2 (ReqAddGroup "slow" 1000) demo_3.1 demo_3.2.
Proof. apply served_add_group with (e := 0). vm_compute. reflexivity. Qed.
Lemma demo_served_4 :
  served demo_intf demo_plugin demo_3.1 demo_3.2 (ReqRename "line1") demo_4.1 demo_4.2.
Proof. apply served_rename with (e := 0). vm_compute. reflexivity. Qed.

(** The setting starts the node; it still runs after the rename, with one set of
    timers for each of its two groups. *)
Lemma timers_follow_state_witness :
  length (d_groups (a_driver demo_4.1)) = 2%nat ∧
  a_state demo_4.1 = NEU_NODE_RUNNING_STATE_RUNNING ∧
  Forall (λ g, timers_armed (g_timers g) = 1%nat) (d_groups (a_driver demo_4.1)).
Proof.
  split; [by vm_compute|]. assert (Hr : a_state demo_4.1 = NEU_NODE_RUNNING_STATE_RUNNING)
    by (by vm_compute). split; [exact Hr|].
  destruct (timers_follow_state demo_intf demo_plugin 7 "plc" () example_db demo_0.1 demo_0.2
    demo_4.1 demo_4.2 demo_create) as [Hg _].
  - eapply history_cons; [|exact demo_served_1|]; [done|].
    eapply history_cons; [|exact demo_served_2|]; [done|].
    eapply history_cons; [|exact demo_served_3|]; [done|].
    eapply history_cons; [|exact demo_served_4|apply history_nil]. vm_compute. reflexivity.
  - by rewrite decide_True in Hg.
Defined.

Lemma rename_stopped_leaks_timers_witness :
  ∃ a a1 a2 db2 a3 db3, lifecycle a ∧ d_groups (a_driver a) ≠ [] ∧
    neu_adapter_rename a "line1" = (0, a1) ∧
    neu_adapter_start demo_intf a1 example_db = (0, a2, db2) ∧
    neu_adapter_stop demo_intf a2 db2 = (0, a3, db3) ∧
    a_state a3 = NEU_NODE_RUNNING_STATE_STOPPED ∧
    Forall (λ g, timers_armed (g_timers g) = 1%nat) (d_groups (a_driver a3)).
Proof.
  set (a := with_state NEU_NODE_RUNNING_STATE_STOPPED (with_setting (Some "{}")
              (with_driver (neu_adapter_driver_add_group neu_adapter_driver_create "fast" 100).2
                {| a_name := "plc"; a_type := NEU_NA_TYPE_DRIVER;
                   a_state := NEU_NODE_RUNNING_STATE_INIT; a_setting := None;
                   a_timer_connect := timers_none; a_driver := neu_adapter_driver_create;
                   a_plugin := () |}))).
  assert (Hl : lifecycle a) by (split; [done..| |done|]; [repeat constructor|by eexists]).
  eexists a, _, _, _, _, _. split; [done|]. split; [done|].
  split; [vm_compute; reflexivity|]. split; [vm_compute; reflexivity|].
  split; [vm_compute; reflexivity|].
  edestruct (rename_stopped_leaks_timers demo_intf a "line1" example_db) as (_ & _ & H3 & H4);
    [done|done|vm_compute; reflexivity|vm_compute; reflexivity|done|vm_compute; reflexivity|done|].
  split; [exact H3|exact H4].
Defined.
