(* ===== verification/AdapterRestart.v ===== *)
(** * The configuration survives a restart

    [durable]: the database holds the groups, the tags and the setting of the
    node, and says that it runs exactly when it does.  Every request keeps that,
    as far as what is asked for fits the columns ([request_ok]); and creating the
    node from the database gives the configuration back. *)

From S2P Require Import Prelude UtHash NeuTypes CHeap CFloat DriverCache Tag Group Driver Persist Adapter AdapterConfig AdapterStored AdapterGtag AdapterOk.

(** ** The views do not depend on timers and state *)

Section Ext.
Context `{SQL : Sqlite}.

Lemma stored_ext node d d' db :
  stored_config node d db → tables_ok d' →
  (∀ x, g_group <$> find_group d' x = g_group <$> find_group d x) → stored_config node d' db.
Proof.
  intros [] Ht Hf. destruct (config_ext d d' Hf) as [Hi Htag]. split; try done.
  - intros x. by rewrite Hi.
  - intros x n. by rewrite Htag.
  - intros x i. rewrite Hi. apply sc_range.
Qed.

Lemma stored_same_groups node d d' db :
  d_groups d' = d_groups d → stored_config node d db → stored_config node d' db.
Proof.
  intros E Hs. apply (stored_ext node d); [done| |].
  - destruct Hs as [[] _ _ _ _ _ _]. split; by rewrite E.
  - intros x. unfold find_group. by rewrite E.
Qed.

(** Timers are started and stopped. *)
Lemma stored_timers node d f db :
  (∀ g, g_name (f g) = g_name g ∧ g_group (f g) = g_group g) →
  stored_config node d db → stored_config node (with_groups (f <$> d_groups d) d) db.
Proof.
  intros Hf Hs. apply (stored_ext node d); [done| |].
  - destruct Hs as [[Ht Hn] _ _ _ _ _ _]. split; simpl.
    + apply table_ok_map_same; [done|]. intros g. apply Hf.
    + apply Forall_fmap. eapply Forall_impl; [exact Hn|]. intros g Hg. simpl.
      by destruct (Hf g) as [_ ->].
  - intros x. unfold find_group. simpl. rewrite (hash_find_map g_name f x x).
    + destruct (hash_find g_name x _) as [g|]; [|done]. simpl. by destruct (Hf g) as [_ ->].
    + intros g _. by destruct (Hf g) as [-> _].
Qed.

(** Statements that leave groups and tags alone. *)
Lemma stored_node_statement node d db db' :
  stored_config node d db → db_ok db' → nr_name <$> db_nodes db' = nr_name <$> db_nodes db →
  db_groups db' = db_groups db → db_tags db' = db_tags db → stored_config node d db'.
Proof.
  intros [] Hdb Hn Hg Ht. split; try done.
  - by rewrite Hn.
  - intros x. unfold db_interval in *. by rewrite Hg.
  - intros x n. unfold db_tag in *. by rewrite Ht.
  - intros r. rewrite Ht. apply sc_rows.
Qed.

Lemma update_state_rows db node s :
  let db' := (neu_sqlite_persister_update_node_state db node (state_code s)).2 in
  nr_name <$> db_nodes db' = nr_name <$> db_nodes db ∧ db_settings db' = db_settings db ∧
  db_groups db' = db_groups db ∧ db_tags db' = db_tags db ∧
  (∀ r, r ∈ db_nodes db' → nr_name r = node → nr_state r = state_code s).
Proof.
  unfold neu_sqlite_persister_update_node_state.
  assert (Hb : between 1 4 (state_code s) = true) by (by destruct s). rewrite Hb.
  destruct (decide _) as [Hn|Hn]; simpl; split_and!; try done.
  - intros r Hr Hk. destruct Hn. rewrite <-Hk. by apply list_elem_of_fmap_2.
  - rewrite <-list_fmap_compose. apply list_fmap_ext. intros i r _. simpl. by case_decide.
  - intros r (r' & -> & Hr')%list_elem_of_fmap. case_decide as E; [done|]. intros E'. by destruct E.
Qed.
End Ext.

(** ** The database and the node *)

Section Durable.
Context {P : Type} (intf : plugin_intf P) (plugin : plugin_ops).
Context `{SQL : Sqlite} `{!SqliteOk SQL}.
Context {J : Type} `{Jansson J}.
Context (Hplugin : plugin_keeps plugin).

(** The database has the setting [o]. *)
Record durable_as (o : option string) (a : neu_adapter_t P) (db : database) : Prop := {
  dur_app : is_driver a = false → d_groups (a_driver a) = [];
  dur_config : stored_config (a_name a) (a_driver a) db;
  dur_setting : adapter_load_setting (a_name a) db = o;
  dur_running : ∀ r, r ∈ db_nodes db → nr_name r = a_name a →
    nr_state r = state_code NEU_NODE_RUNNING_STATE_RUNNING ↔
    a_state a = NEU_NODE_RUNNING_STATE_RUNNING;
}.

Definition durable (a : neu_adapter_t P) (db : database) : Prop := durable_as (a_setting a) a db.

(** What a request has to respect, beyond what the node checks: names and
    intervals fit the columns, numbers survive the text of a statement, an update
    leaves the format, and a new node name is free. *)
Definition request_ok (a : neu_adapter_t P) (db : database) (req : request) : Prop :=
  match req with
  | ReqAddGroup g itv => (String.length g <= 128)%nat ∧ itv < 4294967296
  | ReqUpdateGroup g n itv => (String.length n <= 128)%nat ∧ 0 <= itv < 2147483648
  | ReqAddTag g ts => (String.length g <= 128)%nat ∧ Forall storable ts
  | ReqAddGtag gs => Forall gd_ok gs
  | ReqUpdateTag g ts => Forall storable ts ∧ Forall (keeps_format (a_driver a) g) ts
  | ReqRename n => (String.length n <= 128)%nat ∧ (n = a_name a ∨ (n ∉ nr_name <$> db_nodes db))
  | _ => True
  end.

Lemma durable_kept m o a db a' db' :
  durable_as o a db → kept m a db a' db' →
  (is_driver a = false → d_groups (a_driver a') = d_groups (a_driver a)) → durable_as o a' db'.
Proof.
  intros [] (Hs & Hp & d' & ->) Happ. destruct (config_path_same_node _ _ _ _ Hp) as [Hn Hset].
  split; simpl; try done.
  - intros Hty. simpl in Happ. rewrite Happ by done. by apply dur_app0.
  - unfold adapter_load_setting, neu_sqlite_persister_load_node_setting in *. by rewrite Hset.
  - by rewrite Hn.
Qed.

(** A new state that is stored. *)
Lemma durable_state o a db s :
  durable_as o a db →
  durable_as o (with_state s a) (adapter_storage_state (a_name a) s db).
Proof.
  intros [Hty Hs Hset _]. unfold adapter_storage_state.
  destruct (update_state_rows db (a_name a) s) as (Hn & Hss & Hg & Ht & Hst).
  pose proof (run_persister_ok (PUpdateNodeState (a_name a) (state_code s)) db (sc_db _ _ _ Hs))
    as [Hdb _].
  split; simpl; try done.
  - eapply stored_node_statement; [|exact Hdb|done..]. by eapply stored_same_groups; [|exact Hs].
  - unfold adapter_load_setting, neu_sqlite_persister_load_node_setting in *. by rewrite Hss.
  - intros r Hr Hk. rewrite (Hst r Hr Hk). by destruct s.
Qed.

(** A new state that is not stored, running neither before nor after. *)
Lemma durable_quiet o a db s :
  durable_as o a db → a_state a ≠ NEU_NODE_RUNNING_STATE_RUNNING →
  s ≠ NEU_NODE_RUNNING_STATE_RUNNING → durable_as o (with_state s a) db.
Proof.
  intros [Hty Hs Hset Hr] H1 H2. split; simpl; try done.
  - by eapply stored_same_groups; [|exact Hs].
  - intros r Hin Hk. rewrite (Hr r Hin Hk). naive_solver.
Qed.

Lemma durable_plugin o a db p : durable_as o a db → durable_as o (with_plugin p a) db.
Proof. intros []. by split. Qed.
Lemma durable_connect o a db t : durable_as o a db → durable_as o (with_connect t a) db.
Proof. intros []. by split. Qed.

Lemma durable_start_timers o a db :
  durable_as o a db → durable_as o (with_driver (neu_adapter_driver_start_group_timer (a_driver a)) a) db.
Proof.
  intros []. split; try done; [|by apply stored_timers]. intros Hty. simpl. by rewrite dur_app0.
Qed.
Lemma durable_stop_timers o a db :
  durable_as o a db → durable_as o (with_driver (neu_adapter_driver_stop_group_timer (a_driver a)) a) db.
Proof.
  intros []. split; try done; [|by apply stored_timers]. intros Hty. simpl. by rewrite dur_app0.
Qed.

Lemma start_durable_as o a db e a' db' :
  neu_adapter_start intf a db = (e, a', db') → durable_as o a db → durable_as o a' db'.
Proof.
  unfold neu_adapter_start. intros E Hd.
  destruct (a_state a); try (injection E as _ <- <-; exact Hd);
    destruct (intf_start intf (a_plugin a)) as [err p];
    (destruct (err =? NEU_ERR_SUCCESS); [|injection E as _ <- <-; by apply durable_plugin]);
    change (is_driver (with_state NEU_NODE_RUNNING_STATE_RUNNING (with_plugin p a)))
      with (is_driver a) in E; destruct (is_driver a); injection E as _ <- <-;
    [apply durable_connect, durable_start_timers| |apply durable_connect, durable_start_timers|];
    apply (durable_state o (with_plugin p a)), durable_plugin, Hd.
Qed.

Lemma stop_durable_as o a db e a' db' :
  neu_adapter_stop intf a db = (e, a', db') → durable_as o a db → durable_as o a' db'.
Proof.
  unfold neu_adapter_stop. intros E Hd.
  destruct (a_state a); try (injection E as _ <- <-; exact Hd).
  destruct (intf_stop intf (a_plugin a)) as [err p].
  destruct (err =? NEU_ERR_SUCCESS); [|injection E as _ <- <-; by apply durable_plugin].
  change (is_driver (with_state NEU_NODE_RUNNING_STATE_STOPPED (with_plugin p a)))
    with (is_driver a) in E. destruct (is_driver a); injection E as _ <- <-;
    [apply durable_connect, durable_stop_timers|apply durable_connect];
    apply (durable_state o (with_plugin p a)), durable_plugin, Hd.
Qed.

(** The setting is stored when the plugin has accepted it. *)
Lemma durable_set a db o s :
  durable_as o a db → durable_as (Some s) a (adapter_storage_setting (a_name a) s db).
Proof.
  intros [Hty Hs _ Hr]. unfold adapter_storage_setting.
  pose proof (run_persister_ok (PStoreSetting (a_name a) s) db (sc_db _ _ _ Hs)) as [Hdb _].
  simpl in Hdb. revert Hdb. unfold neu_sqlite_persister_store_node_setting.
  rewrite decide_True by apply Hs. simpl. intros Hdb. split; try done.
  - by eapply stored_node_statement.
  - unfold adapter_load_setting, neu_sqlite_persister_load_node_setting. simpl.
    set (r := {| st_node := a_name a; st_setting := s |}).
    change (_ ++ [r]) with (hash_add r (filter (λ r, st_node r ≠ a_name a) (db_settings db))).
    rewrite hash_find_add, hash_find_filter_out; [|by intros x _ E HP].
    by rewrite decide_True.
Qed.

Lemma start_setting a db e a' db' :
  neu_adapter_start intf a db = (e, a', db') → a_setting a' = a_setting a ∧ a_name a' = a_name a.
Proof.
  unfold neu_adapter_start. intros E.
  destruct (a_state a); try (by injection E as _ <- _);
    destruct (intf_start intf (a_plugin a)) as [err p];
    (destruct (err =? NEU_ERR_SUCCESS); [|by injection E as _ <- _]);
    destruct (is_driver _); by injection E as _ <- _.
Qed.

Lemma stop_setting a db e a' db' :
  neu_adapter_stop intf a db = (e, a', db') → a_setting a' = a_setting a ∧ a_name a' = a_name a.
Proof.
  unfold neu_adapter_stop. intros E.
  destruct (a_state a); try (by injection E as _ <- _);
    destruct (intf_stop intf (a_plugin a)) as [err p];
    (destruct (err =? NEU_ERR_SUCCESS); [|by injection E as _ <- _]);
    destruct (is_driver _); by injection E as _ <- _.
Qed.

Lemma setting_durable a s db e a' db' :
  handle_node_setting intf a s db = (e, a', db') → durable a db → durable a' db'.
Proof.
  unfold handle_node_setting, neu_adapter_set_setting, durable. intros E Hd.
  destruct (intf_setting intf s (a_plugin a)) as [rv p].
  destruct (Z.eqb_spec rv 0) as [->|Hrv]; cycle 1.
  { injection E as _ <- <-. simpl. by apply durable_plugin. }
  set (a1 := with_setting (Some s) (with_plugin p a)) in *.
  assert (H1 : durable_as (a_setting a) a1 db) by (by destruct Hd).
  destruct (decide (a_state a1 = NEU_NODE_RUNNING_STATE_INIT)) as [Hi|Hi].
  - destruct (neu_adapter_start intf (with_state NEU_NODE_RUNNING_STATE_READY a1) db)
      as [[e1 a2] db2] eqn:Es. simpl in E. injection E as _ <- <-.
    destruct (start_setting _ _ _ _ _ Es) as [Hset _]. rewrite Hset.
    eapply durable_set, start_durable_as; [exact Es|]. apply durable_quiet; [done| |done].
    by rewrite Hi.
  - simpl in E. injection E as _ <- <-. exact (durable_set a1 db _ s H1).
Qed.

(** *** Renaming the node *)

Lemma rename_to_new old new (names : list string) x :
  (new = old ∨ (new ∉ names)) → x ∈ names → rename_to old new x = new ↔ x = old.
Proof. unfold rename_to. intros [->|Hn] Hx; case_decide; split; naive_solver. Qed.

Lemma rename_node_views db old new :
  db_ok db → (new = old ∨ (new ∉ nr_name <$> db_nodes db)) →
  let db' := rename_node_rows old new db in
  (∀ x, db_interval new db' x = db_interval old db x) ∧
  (∀ x n, db_tag new db' x n = db_tag old db x n) ∧
  adapter_load_setting new db' = adapter_load_setting old db.
Proof.
  intros Hdb Hnew db'.
  pose proof (λ x, rename_to_new old new (nr_name <$> db_nodes db) x Hnew) as Hren.
  assert (Htd : ∀ r, r ∈ db_tags db → tr_driver r ∈ nr_name <$> db_nodes db).
  { intros r Hr. apply (dok_tag_group db Hdb) in Hr.
    apply list_elem_of_fmap in Hr as (g & Hg & Hin). apply (dok_group_node db Hdb) in Hin.
    unfold tag_parent, group_row_key in Hg. injection Hg as -> _. done. }
  split_and!.
  - intros x. unfold db_interval. simpl. rewrite (hash_find_map group_row_key _ _ (old, x)).
    + by destruct (hash_find group_row_key (old, x) _).
    + intros r Hr. unfold group_row_key. simpl. pose proof (Hren _ (dok_group_node db Hdb r Hr)) as Hi.
      split; intros [= H1 H2]; rewrite H2; f_equal; by apply Hi.
  - intros x n. unfold db_tag. simpl. rewrite (hash_find_map tag_row_key _ _ (old, x, n)).
    + by destruct (hash_find tag_row_key (old, x, n) _).
    + intros r Hr. unfold tag_row_key. simpl. pose proof (Hren _ (Htd r Hr)) as Hi.
      split; intros [= H1 H2 H3]; rewrite H2, H3; repeat f_equal; by apply Hi.
  - unfold adapter_load_setting, neu_sqlite_persister_load_node_setting. simpl.
    rewrite (hash_find_map st_node _ _ old).
    + by destruct (hash_find st_node old _).
    + intros r Hr. simpl. apply Hren. by apply Hdb.
Qed.

Lemma rename_node_durable o a db n :
  durable_as o a db → request_ok a db (ReqRename n) →
  durable_as o (with_a_name n a) (neu_sqlite_persister_update_node db (a_name a) n).2.
Proof.
  intros [Hty Hs Hset Hrun] [Hlen Hn]. simpl in Hn.
  pose proof (run_persister_ok (PUpdateNode (a_name a) n) db (sc_db _ _ _ Hs)) as [Hdb' _].
  simpl in Hdb'. revert Hdb'. unfold neu_sqlite_persister_update_node.
  rewrite decide_False by (intros Hno; apply Hno, Hs).
  rewrite text_fits_bytes by lia.
  assert (Hu : bool_decide (a_name a = n) || bool_decide (n ∉ nr_name <$> db_nodes db) = true).
  { destruct Hn as [->|Hn]; [by rewrite bool_decide_eq_true_2|].
    rewrite orb_true_iff. right. by apply bool_decide_eq_true_2. }
  rewrite Hu. simpl. intros Hdb'.
  destruct (rename_node_views db (a_name a) n (sc_db _ _ _ Hs) Hn) as (Hi & Ht & Hst).
  split; simpl; [done| | |].
  - destruct Hs. split; try done.
    + simpl. apply list_elem_of_fmap in sc_node as (r & Er & Hr). apply list_elem_of_fmap.
      eexists. split; [|by apply list_elem_of_fmap_2]. simpl. unfold rename_to. by rewrite decide_True.
    + intros x. by rewrite Hi.
    + intros x m. by rewrite Ht.
    + intros y (x & -> & Hx)%list_elem_of_fmap. apply faithful_alt.
      pose proof (sc_rows x Hx) as [Hx1 Hx2]%faithful_alt. simpl. split; [done|].
      by rewrite <-Hx2; apply format_column_of_row.
  - by rewrite Hst.
  - intros r (x & -> & Hx)%list_elem_of_fmap. simpl. intros Hk. apply Hrun; [done|].
    apply (rename_to_new _ n (nr_name <$> db_nodes db)); [done| |done].
    by apply list_elem_of_fmap_2.
Qed.

Lemma rename_durable o a db n :
  durable_as o a db → request_ok a db (ReqRename n) →
  durable_as o (neu_adapter_rename a n).2 (neu_sqlite_persister_update_node db (a_name a) n).2.
Proof.
  intros Hd Hok. unfold neu_adapter_rename. change (is_driver (with_a_name n _)) with
    (is_driver (if is_driver a
       then with_driver (neu_adapter_driver_stop_group_timer (a_driver a)) a else a)).
  destruct (is_driver a) eqn:Hty; [change (is_driver (with_driver _ a)) with (is_driver a)|];
    rewrite Hty; simpl; [|by apply rename_node_durable].
  pose proof (rename_node_durable o
    (with_driver (neu_adapter_driver_stop_group_timer (a_driver a)) a) db n) as Hr.
  simpl in Hr. apply durable_start_timers, Hr; [by apply durable_stop_timers|done].
Qed.

(** *** Every request *)

Lemma served_kept a db req a' db' m :
  served intf plugin a db req a' db' → request_ok a db req →
  stored_config (a_name a) (a_driver a) db → moves req = Some m → kept m a db a' db'.
Proof.
  intros Hsv Hok Hs Hm.
  destruct Hsv as [s e a' db' E|c e a' db' E|n e a' E|g itv e a' db' E|now g n itv e a' db' E
    |g h r a' db' h' E|clock g ts r a' db' E|clock gs r a' db' E|clock g ts r a' db' E
    |clock g ns r a' db' E|clock g o n r a' db' E]; simpl in Hok, Hm; try done; injection Hm as <-.
  - eapply handle_add_group_kept; [done|apply Hok..|exact E].
  - eapply handle_update_group_kept; [done|apply Hok..|exact E].
  - by eapply handle_del_group_kept.
  - destruct (is_driver a) eqn:Hty.
    + destruct (handle_add_tag_added plugin Hplugin clock a g ts db) as (r' & a1 & db1 & E' & Hk & _);
        [done|done|apply Hok..|]. rewrite E' in E. by injection E as _ <- <-.
    + unfold handle_add_tag in E. rewrite Hty in E. simpl in E. injection E as _ <- <-.
      by apply kept_refl.
  - destruct (is_driver a) eqn:Hty.
    + destruct (handle_add_gtag_spec plugin Hplugin clock a gs db) as (r' & a1 & db1 & E' & Hk & _);
        [done..|]. rewrite E' in E. by injection E as _ <- <-.
    + unfold handle_add_gtag in E. rewrite Hty in E. injection E as _ <- <-. by apply kept_refl.
  - eapply handle_update_tag_kept; [done|exact Hplugin|exact Hs|apply Hok..|exact E].
  - unfold handle_del_tag in E. destruct (is_driver a).
    + destruct (del_tags_loop _ _ _ _ _ _) as [[e1 a1] db1] eqn:E1. injection E as _ <- <-.
      by eapply del_tags_loop_kept.
    + injection E as _ <- <-. by apply kept_refl.
  - by eapply handle_rename_tag_kept.
Qed.

(** An application has no groups. *)
Lemma served_app a db req a' db' :
  served intf plugin a db req a' db' → is_driver a = false →
  d_groups (a_driver a') = d_groups (a_driver a) ∧ is_driver a' = false.
Proof.
  intros Hsv Hty.
  assert (Hstart : ∀ a e a' db db', neu_adapter_start intf a db = (e, a', db') →
    is_driver a = false → d_groups (a_driver a') = d_groups (a_driver a) ∧ is_driver a' = false).
  { clear. intros a e a' db db' E Hty. unfold neu_adapter_start in E.
    destruct (a_state a); try (by injection E as _ <- _);
      destruct (intf_start intf (a_plugin a)) as [err p];
      (destruct (err =? NEU_ERR_SUCCESS); [|by injection E as _ <- _]);
      change (is_driver (with_state _ _)) with (is_driver a) in E; rewrite Hty in E;
      by injection E as _ <- _. }
  destruct Hsv as [s e a' db' E|c e a' db' E|n e a' E|g itv e a' db' E|now g n itv e a' db' E
    |g h r a' db' h' E|clock g ts r a' db' E|clock gs r a' db' E|clock g ts r a' db' E
    |clock g ns r a' db' E|clock g o n r a' db' E].
  - unfold handle_node_setting, neu_adapter_set_setting in E.
    destruct (intf_setting intf s (a_plugin a)) as [rv p].
    destruct (rv =? 0); [|by injection E as _ <- _]. destruct (decide _).
    + destruct (neu_adapter_start intf _ db) as [[e1 a1] db1] eqn:Es. simpl in E.
      injection E as _ <- _. by apply Hstart in Es.
    + by injection E as _ <- _.
  - destruct c; simpl in E; [by apply Hstart in E|]. unfold neu_adapter_stop in E.
    destruct (a_state a); try (by injection E as _ <- _).
    destruct (intf_stop intf (a_plugin a)) as [err p].
    destruct (err =? NEU_ERR_SUCCESS); [|by injection E as _ <- _].
    change (is_driver (with_state _ _)) with (is_driver a) in E. rewrite Hty in E.
    by injection E as _ <- _.
  - unfold neu_adapter_rename in E. rewrite Hty in E.
    change (is_driver (with_a_name n a)) with (is_driver a) in E. rewrite Hty in E.
    by injection E as _ <-.
  - unfold handle_add_group in E. rewrite Hty in E. destruct (_ <? _); by injection E as _ <- _.
  - unfold handle_update_group in E. rewrite Hty in E. by injection E as _ <- _.
  - unfold handle_del_group, mret, M_ret in E. rewrite Hty in E. by injection E as _ <- _.
  - unfold handle_add_tag in E. rewrite Hty in E. simpl in E. by injection E as _ <- _.
  - unfold handle_add_gtag in E. rewrite Hty in E. by injection E as _ <- _.
  - unfold handle_update_tag in E. rewrite Hty in E. by injection E as _ <- _.
  - unfold handle_del_tag in E. rewrite Hty in E. by injection E as _ <- _.
  - unfold handle_rename_tag in E. rewrite Hty in E. by injection E as _ <- _.
Qed.

Lemma served_durable a db req a' db' :
  served intf plugin a db req a' db' → request_ok a db req → durable a db → durable a' db'.
Proof.
  intros Hsv Hok Hd. pose proof (dur_config _ _ _ Hd) as Hs.
  destruct (moves req) as [m|] eqn:Hm.
  { pose proof (served_kept a db req a' db' m Hsv Hok Hs Hm) as Hk.
    assert (Happ : is_driver a = false → d_groups (a_driver a') = d_groups (a_driver a)).
    { intros Hty. by apply (served_app a db req a' db'). }
    pose proof Hk as (_ & _ & d' & Ha). unfold durable. rewrite Ha at 1. by eapply durable_kept. }
  destruct Hsv; try done.
  - by eapply setting_durable.
  - unfold durable. destruct c.
    + destruct (start_setting _ _ _ _ _ H0) as [-> _]. by eapply start_durable_as.
    + destruct (stop_setting _ _ _ _ _ H0) as [-> _]. by eapply stop_durable_as.
  - pose proof (rename_durable _ a db n Hd Hok) as Hr. rewrite H0 in Hr. simpl in Hr.
    unfold durable. replace (a_setting a') with (a_setting a); [done|].
    unfold neu_adapter_rename in H0. destruct (is_driver a), (is_driver _); by injection H0 as _ <-.
Qed.

(** ** Creating the node again *)

Lemma load_tags_added db driver group n :
  rows_faithful db →
  added (neu_sqlite_persister_load_tags db driver group) n = db_tag driver db group n.
Proof.
  unfold rows_faithful, added, neu_sqlite_persister_load_tags, db_tag.
  induction (db_tags db) as [|r l IH]; intros Hf; [done|]. rewrite filter_cons. csimpl.
  assert (Hl : ∀ r', r' ∈ l → faithful r') by (intros r' Hr'; apply Hf; set_solver).
  assert (Hname : tag_name (tag_of_row r) = tr_name r)
    by (unfold tag_of_row; by destruct (neu_format_from_str _)).
  destruct (decide (tag_parent r = (driver, group))) as [Hp|Hp]; csimpl; unfold tag_parent in Hp.
  - rewrite Hname. destruct (decide (tr_name r = n)) as [Hn|Hn].
    + rewrite decide_True by (unfold tag_row_key; congruence). csimpl. f_equal. apply Hf. set_solver.
    + rewrite decide_False by (unfold tag_row_key; congruence). by apply IH.
  - rewrite decide_False by (unfold tag_row_key; congruence). by apply IH.
Qed.

Lemma load_groups_table db driver :
  db_ok db → table_ok gr_name (neu_sqlite_persister_load_groups db driver).
Proof.
  intros Hdb. unfold neu_sqlite_persister_load_groups.
  eapply (table_ok_perm gr_name); [symmetry; apply sql_order_perm|].
  pose proof (table_ok_filter group_row_key (λ r, gr_driver r = driver) _ (dok_groups db Hdb)) as Ht.
  assert (Hd : ∀ r, r ∈ filter (λ r, gr_driver r = driver) (db_groups db) → gr_driver r = driver)
    by (intros r [? _]%list_elem_of_filter; done).
  unfold table_ok in *. induction (filter _ _) as [|r l IH]; csimpl in *; [constructor|].
  apply NoDup_cons in Ht as [Hr Ht]. apply NoDup_cons. split.
  - intros (r' & En & Hr')%list_elem_of_fmap. apply Hr. apply list_elem_of_fmap. exists r'.
    split; [|done]. unfold group_row_key. rewrite (Hd r), (Hd r') by set_solver. congruence.
  - apply IH; [done|]. intros r' Hr'. apply Hd. set_solver.
Qed.

Lemma load_groups_find db driver x :
  db_ok db →
  gr_interval <$> hash_find gr_name x (neu_sqlite_persister_load_groups db driver) =
  db_interval driver db x.
Proof.
  intros Hdb. pose proof (load_groups_table db driver Hdb) as Ht.
  unfold neu_sqlite_persister_load_groups, db_interval in *.
  rewrite (hash_find_perm gr_name x _ _ Ht (sql_order_perm _)). clear Ht Hdb.
  induction (db_groups db) as [|r rs IH]; [done|]. rewrite filter_cons. csimpl.
  destruct (decide (gr_driver r = driver)) as [Er|Er]; csimpl.
  - destruct (decide (gr_name r = x)) as [En|En].
    + by rewrite decide_True by (unfold group_row_key; congruence).
    + rewrite decide_False by (unfold group_row_key; congruence). apply IH.
  - rewrite decide_False by (unfold group_row_key; congruence). apply IH.
Qed.

Lemma load_groups_restore clock (a : neu_adapter_t P) db rows :
  tables_ok (a_driver a) → table_ok gr_name rows →
  (∀ r, r ∈ rows → mem_interval (a_driver a) (gr_name r) = None ∧ 0 <= gr_interval r < 4294967296) →
  ∃ d', load_groups_loop plugin clock a db rows = Some (with_driver d' a, db) ∧ tables_ok d' ∧
    (∀ x, mem_interval d' x = if hash_find gr_name x rows is Some r then Some (gr_interval r)
                              else mem_interval (a_driver a) x) ∧
    (∀ x n, mem_tag d' x n = if hash_find gr_name x rows is Some _
                             then added (neu_sqlite_persister_load_tags db (a_name a) x) n
                             else mem_tag (a_driver a) x n).
Proof.
  revert a. induction rows as [|r rows IH]; intros a Ht Hnd Hrows.
  { exists (a_driver a). split_and!; [by destruct a|done..]. }
  destruct (Hrows r) as [Hnew Hitv]; [set_solver|]. cbn [load_groups_loop]. cbv zeta.
  rewrite (u32_same (gr_interval r)) by done.
  pose proof (add_group_config (a_driver a) (gr_name r) (gr_interval r) Ht) as Hd.
  destruct (neu_adapter_driver_add_group (a_driver a) (gr_name r) (gr_interval r)) as [ret d1].
  destruct Hd as (Ht1 & _ & Hi1 & Htag1). cbn [snd].
  change (a_name (with_driver d1 a)) with (a_name a).
  set (ts := neu_sqlite_persister_load_tags db (a_name a) (gr_name r)).
  destruct (add_tags_loop_config plugin Hplugin clock (with_driver d1 a) db (gr_name r) (-1) ts)
    as (d2 & E & Ht2 & Hi2 & Htag2); [done|simpl; rewrite Hi1, decide_True by done; eauto|].
  change (with_driver d2 (with_driver d1 a)) with (with_driver d2 a) in E. rewrite E.
  cbn [mbind option_bind]. apply NoDup_cons in Hnd as [Hr Hnd].
  destruct (IH (with_driver d2 a)) as (d' & E' & Ht' & Hi' & Htag'); [done|done| |].
  { intros r' Hr'. destruct (Hrows r') as [Hnew' ?]; [set_solver|]. split; [|done]. simpl.
    rewrite Hi2. simpl. rewrite Hi1, decide_False; [done|]. intros En. apply Hr. rewrite <-En.
    by apply list_elem_of_fmap_2. }
  exists d'. split_and!; [exact E'|done|..].
  - intros x. rewrite Hi'. simpl. destruct (decide (gr_name r = x)) as [<-|En].
    + apply hash_find_None in Hr. rewrite Hr, Hi2. simpl. rewrite Hi1, decide_True, Hnew by done. done.
    + destruct (hash_find gr_name x rows); [done|]. rewrite Hi2. simpl.
      by rewrite Hi1, decide_False by congruence.
  - intros x n. rewrite Htag'. simpl. destruct (decide (gr_name r = x)) as [<-|En].
    + apply hash_find_None in Hr. rewrite Hr, Htag2, decide_True by done. simpl. rewrite Htag1.
      destruct (mem_tag (a_driver a) (gr_name r) n) eqn:Em; [|done].
      assert (Hsome : is_Some (mem_interval (a_driver a) (gr_name r)))
        by (apply (mem_tag_group _ _ n); rewrite Em; eauto).
      rewrite Hnew in Hsome. by destruct Hsome.
    + destruct (hash_find gr_name x rows); [done|]. rewrite Htag2, decide_False by congruence.
      simpl. by rewrite Htag1.
Qed.

(** A database a node can be created from. *)
Record loadable (node : string) (db : database) : Prop := {
  ld_db : db_ok db;
  ld_node : node ∈ nr_name <$> db_nodes db;
  ld_rows : rows_faithful db;
  ld_range : ∀ x i, db_interval node db x = Some i → 0 <= i < 4294967296;
}.

Lemma stored_loadable node d db : stored_config node d db → loadable node db.
Proof. intros []. split; try done. intros x i. rewrite <-sc_intervals. apply sc_range. Qed.

(** A driver reads its groups and tags; an application has none. *)
Lemma load_restores clock node db (a : neu_adapter_t P) :
  db_ok db → rows_faithful db → (∀ x i, db_interval node db x = Some i → 0 <= i < 4294967296) →
  a_name a = node → d_groups (a_driver a) = [] →
  (is_driver a = false → ∀ x, db_interval node db x = None) →
  ∃ d', (if is_driver a then adapter_load_group_and_tag plugin clock a db else Some (a, db)) =
      Some (with_driver d' a, db) ∧ tables_ok d' ∧
    (∀ x, mem_interval d' x = db_interval node db x) ∧
    (∀ x n, mem_tag d' x n = db_tag node db x n) ∧ (is_driver a = false → d_groups d' = []).
Proof.
  intros Hdb Hrows Hrange Hn1 Hg1 Happ.
  assert (Hdbtag : ∀ x n, db_interval node db x = None → db_tag node db x n = None).
  { intros x n Hx. destruct (db_tag node db x n) eqn:Ed; [|done].
    assert (Hsome : is_Some (db_interval node db x))
      by (apply (db_tag_group _ _ _ n); [done|rewrite Ed; eauto]).
    rewrite Hx in Hsome. by destruct Hsome. }
  destruct (is_driver a); cycle 1.
  { exists (a_driver a). unfold mem_interval, mem_tag, find_group. rewrite Hg1.
    split_and!; [by destruct a|by split; rewrite Hg1; constructor| | |done].
    - intros x. by rewrite (Happ eq_refl x).
    - intros x n. by rewrite Hdbtag by by apply Happ. }
  unfold adapter_load_group_and_tag. rewrite Hn1.
  pose proof (λ x, load_groups_find db node x Hdb) as Hfind.
  pose proof (load_groups_table db node Hdb) as Htab.
  destruct (load_groups_restore clock a db (neu_sqlite_persister_load_groups db node))
    as (d' & E & Ht' & Hi' & Htag'); [split; rewrite Hg1; constructor|done| |].
  { intros r Hr. unfold mem_interval, find_group. rewrite Hg1. split; [done|].
    apply (Hrange (gr_name r)). rewrite <-Hfind. by rewrite (hash_find_elem gr_name _ r). }
  exists d'. split_and!; [exact E|done| | |done].
  - intros x. rewrite Hi', <-Hfind. unfold mem_interval, find_group. rewrite Hg1.
    by destruct (hash_find gr_name x _).
  - intros x n. rewrite Htag', Hn1. unfold mem_tag, find_group. rewrite Hg1.
    destruct (hash_find gr_name x _) as [r|] eqn:Ef; [by apply load_tags_added|].
    simpl. rewrite Hdbtag; [done|]. by rewrite <-Hfind, Ef.
Qed.

(** What the node has when it has been created. *)
Lemma create_restores clock node ty db p :
  loadable node db → (ty = NEU_NA_TYPE_APP → ∀ x, db_interval node db x = None) →
  (intf_init intf p).1 = 0 →
  ∃ a' db', neu_adapter_create intf plugin clock node ty p db = Some (Some a', db') ∧
    a_name a' = node ∧ a_type a' = ty ∧ (is_driver a' = false → d_groups (a_driver a') = []) ∧
    stored_config node (a_driver a') db' ∧
    (∀ x, mem_interval (a_driver a') x = db_interval node db x) ∧
    (∀ x n, mem_tag (a_driver a') x n = db_tag node db x n) ∧
    (∀ s, adapter_load_setting node db = Some s →
       (intf_setting intf s (intf_init intf p).2).1 = 0 →
       a_setting a' = Some s ∧ a_state a' = NEU_NODE_RUNNING_STATE_READY) ∧
    (adapter_load_setting node db = None →
       a_setting a' = None ∧ a_state a' = NEU_NODE_RUNNING_STATE_INIT) ∧
    db' = adapter_storage_state node (a_state a') db.
Proof.
  intros [Hdb Hnode Hrows Hrange] Happ Hinit. unfold neu_adapter_create.
  destruct (intf_init intf p) as [rv p1]. simpl in Hinit. subst rv. cbv zeta.
  set (a0 := {| a_name := node |}).
  set (a1 := match adapter_load_setting node db with Some _ => _ | None => _ end).
  assert (H1 : a_name a1 = node ∧ a_type a1 = ty ∧ d_groups (a_driver a1) = [] ∧
    (∀ s, adapter_load_setting node db = Some s → (intf_setting intf s p1).1 = 0 →
      a_setting a1 = Some s ∧ a_state a1 = NEU_NODE_RUNNING_STATE_READY) ∧
    (adapter_load_setting node db = None →
      a_setting a1 = None ∧ a_state a1 = NEU_NODE_RUNNING_STATE_INIT)).
  { unfold a1. destruct (adapter_load_setting node db) as [s|]; [|done]. simpl.
    destruct (intf_setting intf s p1) as [rv p2] eqn:Ep.
    destruct (Z.eqb_spec rv 0); (split_and!; [done..| |done]); intros s' [= <-]; rewrite Ep; done. }
  destruct H1 as (Hn1 & Hty1 & Hg1 & Hset1 & Hnone1). clearbody a1.
  destruct (load_restores clock node db a1 Hdb Hrows Hrange Hn1 Hg1)
    as (d' & E & Ht' & Hi & Htag & Hd'); [by unfold is_driver; rewrite Hty1; destruct ty; auto|].
  rewrite E. cbn [mbind option_bind]. eexists _, _. split; [done|].
  simpl. rewrite Hn1. split_and!; try done.
  destruct (update_state_rows db node (a_state a1)) as (Hnn & _ & Hg & Ht & _).
  pose proof (run_persister_ok (PUpdateNodeState node (state_code (a_state a1))) db Hdb) as [Hdb' _].
  eapply stored_node_statement; [|exact Hdb'|done..].
  split; try done. intros x i. rewrite Hi. apply Hrange.
Qed.

Lemma durable_app o a db :
  durable_as o a db → a_type a = NEU_NA_TYPE_APP → ∀ x, db_interval (a_name a) db x = None.
Proof.
  intros [Happ Hs _ _] Hty x. rewrite <-(sc_intervals _ _ _ Hs). unfold mem_interval, find_group.
  rewrite Happ; [done|]. unfold is_driver. by rewrite Hty.
Qed.

(** A node that has just been created has its configuration in the database,
    unless its plugin has refused the setting that is stored. *)
Lemma create_durable clock node ty db p :
  loadable node db → (ty = NEU_NA_TYPE_APP → ∀ x, db_interval node db x = None) →
  (intf_init intf p).1 = 0 →
  (∀ s, adapter_load_setting node db = Some s → (intf_setting intf s (intf_init intf p).2).1 = 0) →
  ∃ a' db', neu_adapter_create intf plugin clock node ty p db = Some (Some a', db') ∧
    durable a' db' ∧ a_name a' = node ∧ a_type a' = ty.
Proof.
  intros Hl Happ Hinit Hset.
  destruct (create_restores clock node ty db p Hl Happ Hinit)
    as (a' & db' & E & Hn & Hty & Hg & Hs & _ & _ & Hsome & Hnone & Hdb').
  exists a', db'. split; [done|]. split; [|done].
  destruct (update_state_rows db node (a_state a')) as (_ & Hss & _ & _ & Hst).
  unfold durable. split; rewrite ?Hn; try done.
  - rewrite Hdb'. unfold adapter_storage_state, adapter_load_setting,
      neu_sqlite_persister_load_node_setting in *. rewrite Hss.
    destruct (st_setting <$> hash_find st_node node (db_settings db)) as [s|] eqn:Ef.
    + destruct (Hsome s eq_refl (Hset s eq_refl)) as [-> _]. done.
    + destruct (Hnone eq_refl) as [-> _]. done.
  - intros r Hr Hk. rewrite Hdb' in Hr. rewrite (Hst r Hr Hk). by destruct (a_state a').
Qed.

(** C3: The configuration of a node survives a restart. After any history of
    requests that keep to [request_ok], from a state in which the database held the
    configuration of the node, creating it again from the database gives the same
    groups with the same intervals, the same tags with the same columns, and, when
    the plugin takes it, the same setting, with which the node is ready.
    [request_ok] asks for names and intervals that fit their columns, tags that are
    [storable] (unit of at most 128 characters, attribute within the known bits,
    numbers that the text of a statement keeps) and updates that leave the display
    format of a tag as it is, since the database does not update it
    ([updated_format_not_stored]). *)
Theorem configuration_survives_restart clock a0 db0 a db p :
  durable a0 db0 → history intf plugin request_ok a0 db0 a db → (intf_init intf p).1 = 0 →
  ∃ a' db', neu_adapter_create intf plugin clock (a_name a) (a_type a) p db =
      Some (Some a', db') ∧
    (∀ x, mem_interval (a_driver a') x = mem_interval (a_driver a) x) ∧
    (∀ x n, mem_tag (a_driver a') x n = mem_tag (a_driver a) x n) ∧
    (∀ s, a_setting a = Some s → (intf_setting intf s (intf_init intf p).2).1 = 0 →
       a_setting a' = Some s ∧ a_state a' = NEU_NODE_RUNNING_STATE_READY).
Proof.
  intros Hd Hh Hinit.
  assert (Hd' : durable a db) by (clear Hinit; induction Hh; eauto using served_durable).
  pose proof (dur_config _ _ _ Hd') as Hs.
  destruct (create_restores clock (a_name a) (a_type a) db p (stored_loadable _ _ _ Hs))
    as (a' & db' & E & _ & _ & _ & _ & Hi & Ht & Hset & _); [by eapply durable_app|done|].
  exists a', db'. split_and!; [done|..].
  - intros x. by rewrite Hi, (sc_intervals _ _ _ Hs).
  - intros x n. by rewrite Ht, (sc_tags _ _ _ Hs).
  - intros s Hsome. apply Hset. by rewrite (dur_setting _ _ _ Hd').
Qed.

(** ** Requests that add tags *)

Lemma kept_durable m a db a' db' :
  durable a db → is_driver a = true → kept m a db a' db' → durable a' db'.
Proof.
  intros Hd Hty Hk. pose proof Hk as (_ & _ & d' & Ha). unfold durable.
  replace (a_setting a') with (a_setting a) by (by rewrite Ha).
  eapply durable_kept; [done..|]. by rewrite Hty.
Qed.

(** C19: For tags that fit the database ([storable], which the handler does not
    check: unit of at most 128 characters, attribute within the known bits, numbers
    that the text of a statement keeps) and a group name of at most 128 characters,
    a request to add tags to a group adds every tag of the request, in memory and in
    the database, or changes nothing and answers with an error. It adds them only if
    no name occurs twice and none is taken. *)
Theorem add_tags_all_or_nothing clock a group ts db :
  durable a db → is_driver a = true → (String.length group <= 128)%nat → Forall storable ts →
  ∃ resp a' db', handle_add_tag plugin clock a (a_name a) group ts db = Some (resp, a', db') ∧
    durable a' db' ∧
    (resp_refused resp = true ∧ a' = a ∧ db' = db ∨
     resp = resp_zero ∧ NoDup (tag_name <$> ts) ∧
     (∀ t, t ∈ ts → mem_tag (a_driver a) group (tag_name t) = None) ∧
     (∀ x n, mem_tag (a_driver a') x n =
        if decide (x = group)
        then (if mem_tag (a_driver a) group n is Some c then Some c else added ts n)
        else mem_tag (a_driver a) x n)).
Proof.
  intros Hd Hty Hlen Hsto.
  destruct (handle_add_tag_added plugin Hplugin clock a group ts db) as (resp & a' & db' & E & Hk & Hr);
    [apply Hd|done|done|done|].
  exists resp, a', db'. split; [done|]. split; [by eapply kept_durable|done].
Qed.

(** C18: A request with tags of several groups, which may name a group twice and may
    fail at any tag, for groups and tags that fit the database ([gd_ok]: group names
    of at most 128 characters, intervals of at least 10 and of 32 bits, contexts of
    at most 512 characters, units of at most 128 characters, attributes within the
    known bits, scale factors and biases that the text of a statement keeps, none of
    which the handler checks): when it answers an error every tag is as it was, in
    memory and in the database; when it succeeds all tags have been added, no name
    occurred twice in a group and none was taken. *)
Theorem add_gtags_all_or_nothing clock a gs db :
  durable a db → is_driver a = true → Forall gd_ok gs →
  ∃ resp a' db', handle_add_gtag plugin clock a (a_name a) gs db = Some (resp, a', db') ∧
    durable a' db' ∧
    (resp_error resp ≠ 0 ∧ (∀ x n, mem_tag (a_driver a') x n = mem_tag (a_driver a) x n) ∨
     resp_error resp = 0 ∧ fresh (a_driver a) gs ∧
       (∀ x n, mem_tag (a_driver a') x n = plus_tags (a_driver a) gs x n)).
Proof.
  intros Hd Hty Hok.
  destruct (handle_add_gtag_spec plugin Hplugin clock a gs db) as (resp & a' & db' & E & Hk & Hr);
    [apply Hd|done|done|].
  exists resp, a', db'. split; [done|]. split; [by eapply kept_durable|done].
Qed.

(** The statement for an update leaves the format of the tag out: the node has the
    new columns, the database has them with the old format, which comes back with
    the next restart. *)
Theorem updated_format_not_stored clock a db group t c resp a' db' :
  durable a db → is_driver a = true → storable t → mem_tag (a_driver a) group (tag_name t) = Some c →
  handle_update_tag plugin clock a (a_name a) group [t] db = (resp, a', db') →
  resp_error resp = 0 →
  mem_tag (a_driver a') group (tag_name t) = Some (cols_of_tag t) ∧
  db_tag (a_name a) db' group (tag_name t) = Some (with_format (c_format c) (cols_of_tag t)).
Proof.
  intros Hd Hty Hsto Hc E Hr. unfold handle_update_tag in E. rewrite Hty in E.
  pose proof (dur_config _ _ _ Hd) as Hs. simpl in E.
  pose proof (validate_tag_checked plugin Hplugin t) as Hv.
  destruct (neu_adapter_driver_validate_tag plugin t) as [ret t1]. destruct Hv as [Hb Hck].
  destruct (Z.eqb_spec ret 0) as [->|Hne]; simpl in E; [|by injection E as <- _ _].
  pose proof (update_tag_config plugin Hplugin clock (a_driver a) group t1 (sc_tables _ _ _ Hs)) as Hu.
  destruct (neu_adapter_driver_update_tag plugin clock (a_driver a) group t1) as [ret1 d'].
  destruct Hu as (_ & _ & _ & Htag).
  destruct (Z.eqb_spec ret1 0) as [->|Hne]; simpl in E; [|by injection E as <- _ _].
  injection E as _ <- <-. destruct (bare_cols t1 t Hb) as [Hc1 Hn1]. simpl.
  rewrite Htag, Hn1, Hc1, decide_True by done. split; [done|]. unfold adapter_storage_update_tag.
  set (t2 := parse_option (validate_tag plugin t1).2).
  assert (Hb2 : bare t2 = bare t) by (unfold t2; etransitivity; [apply Hplugin|done]).
  clearbody t2. destruct (bare_cols t2 t Hb2) as [Hc2 Hn2].
  destruct (update_tag_statement_config (a_name a) group t2 db c) as (_ & _ & Hdt).
  - apply Hs.
  - by apply (storable_bare t).
  - apply (checked_bare t); [done|]. by apply Hck.
  - by rewrite Hn2, <-(sc_tags _ _ _ Hs).
  - apply Hs.
  - by rewrite Hdt, Hn2, Hc2, decide_True.
Qed.
End Durable.

(** ** Witnesses *)

#[local] Existing Instance example_sql.
#[local] Existing Instance example_sql_ok.
#[local] Existing Instance demo_json.

Lemma demo_keeps : plugin_keeps demo_plugin.
Proof. by intros t. Qed.

Lemma demo_loadable : loadable "plc" example_db.
Proof.
  split; [apply example_db_ok|apply (bool_decide_unpack _); by vm_compute|by intros r ?%elem_of_nil|].
  intros x i. unfold db_interval. simpl. case_decide; [|done]. intros [= <-]. lia.
Qed.

Lemma demo_durable : durable demo_0.1 demo_0.2.
Proof.
  destruct (create_durable demo_intf demo_plugin demo_keeps 7 "plc" NEU_NA_TYPE_DRIVER example_db ())
    as (a & db & E & Hd & _); [apply demo_loadable|done|done|by intros s [=]|].
  rewrite demo_create in E. by injection E as <- <-.
Qed.

Lemma demo_storable n : storable (demo_tag n).
Proof.
  split; simpl; try done; try lia.
  - intros x [= <-]. simpl. lia.
  - split; [done|]. repeat constructor; lia.
Qed.

(** The tags, the group and the setting of [demo_4], the node having been renamed,
    are there when it is created again. *)
Lemma configuration_survives_restart_witness :
  ∃ a' db', neu_adapter_create demo_intf demo_plugin 9 "line1" NEU_NA_TYPE_DRIVER () demo_4.2 =
      Some (Some a', db') ∧
    mem_interval (a_driver a') "slow" = Some 1000 ∧
    mem_tag (a_driver a') "fast" "t2" = Some (cols_of_tag (demo_tag "t2")) ∧
    a_setting a' = Some "{}" ∧ a_state a' = NEU_NODE_RUNNING_STATE_READY.
Proof.
  destruct (configuration_survives_restart demo_intf demo_plugin demo_keeps 9 demo_0.1 demo_0.2
    demo_4.1 demo_4.2 () demo_durable) as (a' & db' & E & Hi & Ht & Hs).
  - eapply history_cons; [|exact demo_served_1|]; [done|].
    eapply history_cons; [|exact demo_served_2|].
    { split; [simpl; lia|]. repeat (constructor; [apply demo_storable|]). constructor. }
    eapply history_cons; [|exact demo_served_3|]; [simpl; lia|].
    eapply history_cons; [|exact demo_served_4|apply history_nil].
    split; [simpl; lia|]. right. apply (bool_decide_unpack _). by vm_compute.
  - done.
  - exists a', db'. split; [exact E|]. split; [rewrite Hi; by vm_compute|].
    split; [rewrite Ht; by vm_compute|]. apply Hs; by vm_compute.
Defined.

Lemma add_tags_all_or_nothing_witness :
  ∃ resp, handle_add_tag demo_plugin 8 demo_0.1 "plc" "fast" [demo_tag "t"; demo_tag "t"] demo_0.2 =
      Some (resp, demo_0.1, demo_0.2) ∧
    resp_results resp = [(1, NEU_ERR_TAG_NAME_CONFLICT)].
Proof.
  destruct (add_tags_all_or_nothing demo_plugin demo_keeps 8 demo_0.1 "fast"
    [demo_tag "t"; demo_tag "t"] demo_0.2 demo_durable) as (resp & a' & db' & E & _ & Hr).
  - by vm_compute.
  - simpl. lia.
  - repeat (constructor; [apply demo_storable|]). constructor.
  - destruct Hr as [(_ & Ha & Hdb)|(_ & Hnd & _)].
    + exists resp. rewrite Ha, Hdb in E. split; [exact E|]. vm_compute in E. by injection E as <-.
    + simpl in Hnd. apply NoDup_cons in Hnd as [Hnd _]. destruct Hnd. constructor.
Defined.

Definition demo_gtags : list neu_gdatatag_t :=
  [{| gd_group := "slow"; gd_interval := 1000; gd_tags := [demo_tag "t1"]; gd_context := None |};
   {| gd_group := "slow"; gd_interval := 1000; gd_tags := [demo_tag "t2"; demo_tag "t1"];
      gd_context := None |}].

(** The second group of the request is the first one again, with a tag that is
    there by then: both tags are deleted, the new group stays. *)
Lemma add_gtags_all_or_nothing_witness :
  ∃ resp a' db', handle_add_gtag demo_plugin 8 demo_0.1 "plc" demo_gtags demo_0.2 =
      Some (resp, a', db') ∧ resp_error resp = NEU_ERR_TAG_NAME_CONFLICT ∧
    mem_tag (a_driver a') "slow" "t1" = None ∧ mem_tag (a_driver a') "slow" "t2" = None ∧
    mem_interval (a_driver a') "slow" = Some 1000 ∧ db_interval "plc" db' "slow" = Some 1000.
Proof.
  destruct (add_gtags_all_or_nothing demo_plugin demo_keeps 8 demo_0.1 demo_gtags demo_0.2 demo_durable)
    as (resp & a' & db' & E & Hd & Hr); [by vm_compute| |].
  { assert (Hg : ∀ ts, Forall storable ts → gd_ok {| gd_group := "slow"; gd_interval := 1000;
                        gd_tags := ts; gd_context := None |})
      by (intros ts Hts; split; simpl; [lia|lia|by intros x [=]|done]).
    constructor; [apply Hg|constructor; [apply Hg|done]];
      repeat (constructor; [apply demo_storable|]); done. }
  assert (Hresp : resp_error resp = NEU_ERR_TAG_NAME_CONFLICT ∧
                  mem_interval (a_driver a') "slow" = Some 1000).
  { vm_compute in E. injection E as <- <- _. by vm_compute. }
  destruct Hresp as [He Hi]. exists resp, a', db'. split; [exact E|]. split; [exact He|].
  destruct Hr as [[_ Ht]|[H0 _]]; [|rewrite He in H0; by vm_compute in H0].
  split; [rewrite Ht; by vm_compute|]. split; [rewrite Ht; by vm_compute|]. split; [exact Hi|].
  rewrite <-Hi. symmetry.
  assert (Hn : a_name a' = "plc") by (vm_compute in E; by injection E as _ <- _).
  rewrite <-Hn. apply (sc_intervals _ _ _ (dur_config _ _ _ Hd)).
Defined.

(** The tag "t1" of [demo_2] gets a format. *)
Definition demo_formatted : neu_datatag_t :=
  {| tag_name := "t1"; tag_address := "1!400001"; tag_attribute := 1; tag_type := NEU_TYPE_INT16;
     tag_precision := 0; tag_decimal := 0; tag_bias := 0; tag_description := Some EmptyString;
     tag_unit := Some EmptyString; tag_option := addr_option_zero; tag_meta := replicate 20 0;
     tag_format := 2 :: replicate 15 0; tag_n_format := 1 |}.

Lemma demo_durable_2 : durable demo_2.1 demo_2.2.
Proof.
  eapply (served_durable demo_intf demo_plugin demo_keeps); [exact demo_served_2| |].
  - split; [simpl; lia|]. repeat (constructor; [apply demo_storable|]). constructor.
  - by eapply (served_durable demo_intf demo_plugin demo_keeps); [exact demo_served_1| |apply demo_durable].
Qed.

Lemma updated_format_not_stored_witness :
  ∃ resp a' db', handle_update_tag demo_plugin 9 demo_2.1 "plc" "fast" [demo_formatted] demo_2.2 =
      (resp, a', db') ∧ resp_error resp = 0 ∧
    c_format <$> mem_tag (a_driver a') "fast" "t1" = Some "2"%string ∧
    c_format <$> db_tag "plc" db' "fast" "t1" = Some EmptyString.
Proof.
  destruct (handle_update_tag demo_plugin 9 demo_2.1 "plc" "fast" [demo_formatted] demo_2.2)
    as [[resp a'] db'] eqn:E.
  assert (H0 : resp_error resp = 0).
  { change resp with (resp, a', db').1.1. rewrite <-E. by vm_compute. }
  destruct (updated_format_not_stored demo_plugin demo_keeps 9 demo_2.1 demo_2.2 "fast" demo_formatted
    (cols_of_tag (demo_tag "t1")) resp a' db') as [Hm Hdb]; [apply demo_durable_2|by vm_compute| | | |exact H0|].
  - split; simpl; try done; try lia.
    + intros x [= <-]. simpl. lia.
    + split; [done|]. repeat constructor; lia.
  - by vm_compute.
  - exact E.
  - exists resp, a', db'. split; [done|]. split; [exact H0|].
    split; [change "t1"%string with (tag_name demo_formatted); rewrite Hm; by vm_compute|].
    change "t1"%string with (tag_name demo_formatted).
    change (a_name demo_2.1) with "plc"%string in Hdb. rewrite Hdb. by vm_compute.
Defined.
