(* ===== verification/AdapterFrame.v ===== *)
(** * What a request of one node leaves alone

    Two nodes share the database.  A request that one of them serves keeps the
    rows of the other ([elsewhere]), and so its configuration; it keeps the
    subscriptions in the database, unless a group gets a new name or goes away,
    and it keeps the applications that each group of the driver reports to. *)

From S2P Require Import Prelude UtHash NeuTypes CHeap DriverCache Tag Group Driver Persist Adapter AdapterConfig AdapterStored AdapterGtag AdapterOk AdapterRestart.

(** ** Filters *)

Lemma filter_fmap_same {A} (Q : A → Prop) `{∀ x, Decision (Q x)} (f : A → A) (l : list A) :
  (∀ x, Q (f x) ↔ Q x) → (∀ x, Q x → f x = x) → filter Q (f <$> l) = filter Q l.
Proof.
  intros HQ Hf. induction l as [|x l IH]; csimpl; [done|]. rewrite !filter_cons, IH.
  destruct (decide (Q x)) as [Hx|Hx].
  - rewrite decide_True by by apply HQ. by rewrite Hf.
  - by rewrite decide_False by by rewrite HQ.
Qed.

Lemma filter_filter_same {A} (Q Q' : A → Prop) `{∀ x, Decision (Q x), ∀ x, Decision (Q' x)} (l : list A) :
  (∀ x, Q x → Q' x) → filter Q (filter Q' l) = filter Q l.
Proof.
  intros HQ. induction l as [|x l IH]; [done|]. rewrite !filter_cons.
  destruct (decide (Q' x)); [by rewrite filter_cons, IH|]. rewrite IH.
  by rewrite decide_False by eauto.
Qed.

Lemma filter_snoc_same {A} (Q : A → Prop) `{∀ x, Decision (Q x)} (l : list A) x :
  ¬ Q x → filter Q (l ++ [x]) = filter Q l.
Proof. intros Hx. rewrite filter_app, filter_cons_False by done. by rewrite app_nil_r. Qed.

(** A key is looked for among the rows that a filter keeps. *)
Lemma hash_find_filter_key {K A} `{EqDecision K} (key : A → K) (Q : A → Prop)
    `{∀ x, Decision (Q x)} k (l : list A) :
  (∀ x, key x = k → Q x) → hash_find key k (filter Q l) = hash_find key k l.
Proof.
  intros HQ. induction l as [|x l IH]; [done|]. rewrite filter_cons. cbn [hash_find].
  destruct (decide (Q x)) as [Hx|Hx]; cbn [hash_find]; rewrite IH; [done|].
  by rewrite decide_False by eauto.
Qed.

(** ** Rows of other nodes *)

Section Elsewhere.
Context (keep : string → Prop) `{!∀ x, Decision (keep x)}.

Record elsewhere (db db' : database) : Prop := {
  el_nodes : filter (λ r, keep (nr_name r)) (db_nodes db') =
             filter (λ r, keep (nr_name r)) (db_nodes db);
  el_settings : filter (λ r, keep (st_node r)) (db_settings db') =
                filter (λ r, keep (st_node r)) (db_settings db);
  el_groups : filter (λ r, keep (gr_driver r)) (db_groups db') =
              filter (λ r, keep (gr_driver r)) (db_groups db);
  el_tags : filter (λ r, keep (tr_driver r)) (db_tags db') =
            filter (λ r, keep (tr_driver r)) (db_tags db);
}.

#[export] Instance elsewhere_preorder : PreOrder elsewhere.
Proof. split; [by intros db; split|]. intros x y z [] []. split; congruence. Qed.

Lemma elsewhere_views db db' x :
  elsewhere db db' → keep x →
  (∀ g, db_interval x db' g = db_interval x db g) ∧ (∀ g n, db_tag x db' g n = db_tag x db g n) ∧
  adapter_load_setting x db' = adapter_load_setting x db ∧
  (∀ r, nr_name r = x → r ∈ db_nodes db' ↔ r ∈ db_nodes db).
Proof.
  intros [Hn Hs Hg Ht] Hx.
  unfold db_interval, db_tag, adapter_load_setting, neu_sqlite_persister_load_node_setting.
  split_and!.
  - intros g. f_equal.
    rewrite <-(hash_find_filter_key group_row_key (λ r, keep (gr_driver r)) _ (db_groups db)),
      <-(hash_find_filter_key group_row_key (λ r, keep (gr_driver r)) _ (db_groups db')), Hg;
      [done|by intros r [= -> _]|by intros r [= -> _]].
  - intros g n. f_equal.
    rewrite <-(hash_find_filter_key tag_row_key (λ r, keep (tr_driver r)) _ (db_tags db)),
      <-(hash_find_filter_key tag_row_key (λ r, keep (tr_driver r)) _ (db_tags db')), Ht;
      [done|by intros r [= -> _]|by intros r [= -> _]].
  - f_equal.
    rewrite <-(hash_find_filter_key st_node (λ r, keep (st_node r)) _ (db_settings db)),
      <-(hash_find_filter_key st_node (λ r, keep (st_node r)) _ (db_settings db')), Hs;
      [done|by intros r ->|by intros r ->].
  - intros r Hr. assert (Hk : ∀ l : list node_row, r ∈ filter (λ r, keep (nr_name r)) l ↔ r ∈ l).
    { intros l. rewrite list_elem_of_filter, Hr. tauto. }
    by rewrite <-(Hk (db_nodes db')), Hn, Hk.
Qed.
End Elsewhere.

Section Frame.
Context {P : Type} (intf : plugin_intf P) (plugin : plugin_ops).
Context `{SQL : Sqlite} `{!SqliteOk SQL}.
Context {J : Type} `{Jansson J}.
Context (Hplugin : plugin_keeps plugin).

Lemma durable_elsewhere keep `{!∀ x, Decision (keep x)} (b : neu_adapter_t P) db db' :
  durable b db → keep (a_name b) → elsewhere keep db db' → db_ok db' → rows_faithful db' →
  durable b db'.
Proof.
  intros [Happ Hs Hset Hrun] Hk Hel Hdb Hf.
  destruct (elsewhere_views keep db db' (a_name b) Hel Hk) as (Hi & Ht & Hst & Hn).
  unfold durable. split; try done; [|by rewrite Hst|].
  - destruct Hs. split; try done.
    + apply list_elem_of_fmap in sc_node as (r & Hr & Hin). rewrite Hr.
      apply list_elem_of_fmap_2, Hn; [congruence|done].
    + intros x. by rewrite Hi.
    + intros x n. by rewrite Ht.
  - intros r Hr Hrn. apply Hrun; [|done]. by apply Hn.
Qed.

(** What names and describes a node in the database. *)
Definition node_ident (r : node_row) : string * Z * string * option string :=
  (nr_name r, nr_type r, nr_plugin_name r, nr_tags r).

(** Statements about one node, its groups and its tags; unless [m], they leave
    every subscription and every group. *)
Record about (m : bool) (node : string) (db db' : database) : Prop := {
  ab_elsewhere : elsewhere (λ x, x ≠ node) db db';
  ab_idents : node_ident <$> db_nodes db' = node_ident <$> db_nodes db;
  ab_subs : m = false → db_subs db' = db_subs db;
  ab_groups : m = false → ∀ k, k ∈ group_row_key <$> db_groups db → k ∈ group_row_key <$> db_groups db';
}.

Lemma about_refl m node db : about m node db db.
Proof. by split. Qed.
Lemma about_trans m node db1 db2 db3 :
  about m node db1 db2 → about m node db2 db3 → about m node db1 db3.
Proof.
  intros [? ? H1 H3] [? ? H2 H4]. split; [by etransitivity|congruence| |].
  - intros Hm. by rewrite H2, H1.
  - intros Hm k Hk. auto.
Qed.
Lemma about_weaken m m' node db db' :
  implb m m' = true → about m node db db' → about m' node db db'.
Proof.
  intros Hm [? ? Hs Hg]. split; try done; intros ->; [apply Hs|apply Hg]; by destruct m.
Qed.

Lemma execute_about m node db o :
  (∀ db', o = Some db' → about m node db db') → about m node db (execute_sql db o).2.
Proof. intros Ho. destruct o; simpl; [by apply Ho|apply about_refl]. Qed.

Lemma insert_tag_about m r db db' :
  insert_tag r db = Some db' → about m (tr_driver r) db db'.
Proof.
  unfold insert_tag. destruct (_ && _); [|done]. intros [= <-].
  split; [|done..]. split; try done. simpl. apply filter_snoc_same. tauto.
Qed.

Lemma put_tags_about m driver group ts db db' :
  put_tags driver group ts db = Some db' → about m driver db db'.
Proof.
  revert db. induction ts as [|t ts IH]; intros db; simpl; [intros [= <-]; apply about_refl|].
  destruct (bind_double (tag_decimal t)); simpl; [|done].
  destruct (bind_double (tag_bias t)); simpl; [|done].
  destruct (insert_tag _ db) as [db1|] eqn:E; simpl; [|done]. intros E'.
  eapply about_trans; [by eapply insert_tag_about in E|by apply IH].
Qed.

Lemma update_tag_rows_about m driver group n f db :
  (∀ r, tr_driver (f r) = tr_driver r) → about m driver db (update_tag_rows driver group n f db).
Proof.
  intros Hf. split; [|done..]. split; try done. simpl. apply filter_fmap_same.
  - intros r. case_decide; [by rewrite Hf|done].
  - intros r Hr. rewrite decide_False; [done|]. by intros [= E _ _].
Qed.

Lemma update_group_about driver name n itv db db' :
  update_group driver name n itv db = Some db' → about true driver db db'.
Proof.
  unfold update_group. destruct (hash_find _ _ _); [|intros [= <-]; apply about_refl].
  destruct (_ && _); [|done]. intros [= <-]. split; [|done..]. split; try done; simpl;
    apply filter_fmap_same; intros r; case_decide as E; try done; intros Hr; by destruct Hr; injection E.
Qed.

Lemma config_op_about op m node db :
  op_config op = Some (m, node) → about m node db (run_persister op db).2.
Proof.
  destruct op; simpl; try done; intros [= <- <-].
  - apply execute_about. intros db'. destruct (_ && _); [|done]. intros [= <-].
    split; [|done|done|].
    + split; try done. simpl. apply filter_snoc_same. tauto.
    + intros _ k Hk. simpl. rewrite fmap_app. set_solver.
  - unfold neu_sqlite_persister_update_group.
    repeat case_match; try apply about_refl; apply execute_about; intros db'; apply update_group_about.
  - split; [|done..]. split; try done; simpl; apply filter_filter_same; by intros r Hr [= E _].
  - apply execute_about. intros db'.
    destruct (sql_lf (tag_decimal t)); simpl; [|done].
    destruct (sql_lf (tag_bias t)); simpl; [|done]. by intros ?%(insert_tag_about false).
  - apply execute_about. intros db'. apply put_tags_about.
  - apply execute_about. intros db'.
    destruct (sql_lf (tag_decimal t)); simpl; [|done].
    destruct (sql_lf (tag_bias t)); simpl; [|done]. case_decide; [intros [= <-]; apply about_refl|].
    destruct (tag_check _); [|done]. intros [= <-]. by apply update_tag_rows_about.
  - split; [|done..]. split; try done. simpl. apply filter_filter_same. by intros r Hr [= E _ _].
  - apply execute_about. intros db'. case_decide; [intros [= <-]; apply about_refl|].
    destruct (_ && _); [|done]. intros [= <-]. by apply update_tag_rows_about.
Qed.

Lemma config_path_about m node db db' : config_path m node db db' → about m node db db'.
Proof.
  induction 1 as [|x y z (op & m' & Hop & Hm & ->) _ IH]; [apply about_refl|].
  eapply about_trans, IH. eapply about_weaken; [exact Hm|]. by apply config_op_about.
Qed.

Lemma update_state_about m node s db :
  about m node db (neu_sqlite_persister_update_node_state db node s).2.
Proof.
  apply execute_about. intros db'. case_decide; [intros [= <-]; apply about_refl|].
  destruct (between 1 4 s); [|done]. intros [= <-]. split; [|simpl|done..].
  - split; try done. simpl. apply filter_fmap_same; intros r; by case_decide.
  - rewrite <-list_fmap_compose. apply list_fmap_ext. intros _ r _. simpl. by case_decide.
Qed.

Lemma store_setting_about m node s db :
  about m node db (neu_sqlite_persister_store_node_setting db node s).2.
Proof.
  unfold neu_sqlite_persister_store_node_setting. apply execute_about. intros db'.
  case_decide; [|done]. intros [= <-]. split; [|done..]. split; try done. simpl.
  rewrite filter_snoc_same by tauto. by apply filter_filter_same.
Qed.

(** ** Requests *)

Lemma start_about m a db e a' db' :
  neu_adapter_start intf a db = (e, a', db') → about m (a_name a) db db' ∧ a_type a' = a_type a.
Proof.
  unfold neu_adapter_start. intros E.
  destruct (a_state a); try (injection E as _ <- <-; split; [apply about_refl|done]);
    destruct (intf_start intf (a_plugin a)) as [err p];
    (destruct (err =? NEU_ERR_SUCCESS); [|injection E as _ <- <-; split; [apply about_refl|done]]);
    injection E as _ <- <-; (split; [apply update_state_about|by destruct (is_driver _)]).
Qed.

Lemma stop_about m a db e a' db' :
  neu_adapter_stop intf a db = (e, a', db') → about m (a_name a) db db' ∧ a_type a' = a_type a.
Proof.
  unfold neu_adapter_stop. intros E.
  destruct (a_state a); try (injection E as _ <- <-; split; [apply about_refl|done]).
  destruct (intf_stop intf (a_plugin a)) as [err p].
  destruct (err =? NEU_ERR_SUCCESS); [|injection E as _ <- <-; split; [apply about_refl|done]].
  injection E as _ <- <-. split; [apply update_state_about|by destruct (is_driver _)].
Qed.

Lemma set_setting_about m a s db e a' db' :
  neu_adapter_set_setting intf a s db = (e, a', db') →
  about m (a_name a) db db' ∧ a_type a' = a_type a ∧ a_name a' = a_name a.
Proof.
  unfold neu_adapter_set_setting. intros E.
  destruct (intf_setting intf s (a_plugin a)) as [rv p].
  destruct (rv =? 0); [|injection E as _ <- <-; split; [apply about_refl|done]].
  destruct (decide _); [|injection E as _ <- <-; split; [apply about_refl|done]].
  destruct (neu_adapter_start intf _ db) as [[e1 a1] db1] eqn:Es. injection E as _ <- <-.
  destruct (start_setting _ _ _ _ _ _ Es) as [_ Hn].
  destruct (start_about m _ _ _ _ _ Es) as [Ha Hty]. done.
Qed.

(** A request of a node is about that node. *)
Lemma served_about a db req a' db' :
  served intf plugin a db req a' db' → request_ok a db req →
  stored_config (a_name a) (a_driver a) db → (∀ n, req ≠ ReqRename n) →
  about (default false (moves req)) (a_name a) db db' ∧ a_name a' = a_name a ∧ a_type a' = a_type a.
Proof.
  intros Hsv Hok Hs Hren. destruct (moves req) as [m|] eqn:Hm.
  { destruct (served_kept intf plugin Hplugin a db req a' db' m Hsv Hok Hs Hm) as (_ & Hp & d' & ->).
    split; [by apply config_path_about|done]. }
  destruct Hsv as [s e a' db' E|c e a' db' E|n e a' E| | | | | | | |]; try done.
  - unfold handle_node_setting in E.
    destruct (neu_adapter_set_setting intf a s db) as [[e1 a1] db1] eqn:Es. injection E as _ <- <-.
    destruct (set_setting_about false _ _ _ _ _ _ Es) as (Ha & Hty & Hn). split; [|done].
    destruct (e1 =? NEU_ERR_SUCCESS); [|done]. rewrite Hn. eapply about_trans; [exact Ha|].
    apply store_setting_about.
  - destruct c; simpl in E.
    + destruct (start_about false _ _ _ _ _ E) as [Ha Hty].
      by destruct (start_setting _ _ _ _ _ _ E) as [_ ->].
    + destruct (stop_about false _ _ _ _ _ E) as [Ha Hty].
      by destruct (stop_setting _ _ _ _ _ _ E) as [_ ->].
  - by destruct (Hren n).
Qed.

(** ** The applications a group reports to *)

Definition group_apps (d : neu_adapter_driver_t) (x : string) : list sub_app_t :=
  if find_group d x is Some g then g_apps g else [].

Definition keeps_apps (d d' : neu_adapter_driver_t) : Prop :=
  ∀ x, group_apps d' x = group_apps d x.

#[export] Instance keeps_apps_stable : TagStable keeps_apps.
Proof.
  split.
  - split; [done|]. intros d1 d2 d3 H1 H2 x. by rewrite H2, H1.
  - intros d d' group gr _ Hg x. unfold group_apps, find_group. rewrite Hg.
    rewrite hash_find_update by done. case_decide; [|done]. by destruct (hash_find g_name x _).
  - intros d group itv x. unfold neu_adapter_driver_add_group.
    destruct (find_group d group) eqn:E; [done|]. unfold group_apps, find_group in *. simpl.
    rewrite hash_find_add. destruct (hash_find g_name x _); [done|]. case_decide; [|done].
    by destruct (d_running d).
Qed.

Lemma timers_apps f d d' :
  (∀ g, g_name (f g) = g_name g ∧ g_apps (f g) = g_apps g) →
  d_groups d' = f <$> d_groups d → keeps_apps d d'.
Proof.
  intros Hf E x. unfold group_apps, find_group. rewrite E.
  rewrite (hash_find_map g_name f x x) by (intros g _; by destruct (Hf g) as [-> _]).
  destruct (hash_find g_name x _) as [g|]; [|done]. simpl. by destruct (Hf g) as [_ ->].
Qed.

Lemma start_apps a db e a' db' :
  neu_adapter_start intf a db = (e, a', db') → keeps_apps (a_driver a) (a_driver a').
Proof.
  unfold neu_adapter_start. intros E.
  destruct (a_state a); try (by injection E as _ <- _);
    destruct (intf_start intf (a_plugin a)) as [err p];
    (destruct (err =? NEU_ERR_SUCCESS); [|by injection E as _ <- _]);
    injection E as _ <- _; (destruct (is_driver _); [|done]); by apply (timers_apps start_group_timer).
Qed.

Lemma stop_apps a db e a' db' :
  neu_adapter_stop intf a db = (e, a', db') → keeps_apps (a_driver a) (a_driver a').
Proof.
  unfold neu_adapter_stop. intros E.
  destruct (a_state a); try (by injection E as _ <- _).
  destruct (intf_stop intf (a_plugin a)) as [err p].
  destruct (err =? NEU_ERR_SUCCESS); [|by injection E as _ <- _].
  injection E as _ <- _. destruct (is_driver _); [|done]. by apply (timers_apps stop_group_timer).
Qed.

Lemma set_setting_apps a s db e a' db' :
  neu_adapter_set_setting intf a s db = (e, a', db') → keeps_apps (a_driver a) (a_driver a').
Proof.
  unfold neu_adapter_set_setting. intros E.
  destruct (intf_setting intf s (a_plugin a)) as [rv p].
  destruct (rv =? 0); [|by injection E as _ <- _]. destruct (decide _); [|by injection E as _ <- _].
  destruct (neu_adapter_start intf _ db) as [[e1 a1] db1] eqn:Es. injection E as _ <- _.
  by apply start_apps in Es.
Qed.

Lemma rename_apps (a : neu_adapter_t P) n : keeps_apps (a_driver a) (a_driver (neu_adapter_rename a n).2).
Proof.
  unfold neu_adapter_rename. destruct (is_driver a) eqn:Hty; simpl;
    change (is_driver (with_a_name n _)) with (is_driver a); rewrite Hty; [|done].
  transitivity (neu_adapter_driver_stop_group_timer (a_driver a));
    [by apply (timers_apps stop_group_timer)|by apply (timers_apps start_group_timer)].
Qed.

(** Only a group that is renamed or deleted reports to others than before. *)
Lemma served_apps a db req a' db' :
  served intf plugin a db req a' db' → moves req ≠ Some true →
  keeps_apps (a_driver a) (a_driver a').
Proof.
  intros Hsv Hm. destruct (moves req) as [[|]|] eqn:E0; [done| |].
  { destruct (tag_request_changed intf plugin keeps_apps a db req a' db' Hsv E0) as (d' & -> & Hk).
    done. }
  destruct Hsv as [s e a' db' E|c e a' db' E|n e a' E| | | | | | | |]; try done.
  - unfold handle_node_setting in E.
    destruct (neu_adapter_set_setting intf a s db) as [[e1 a1] db1] eqn:Es. injection E as _ <- _.
    by apply set_setting_apps in Es.
  - destruct c; [by apply start_apps in E|by apply stop_apps in E].
  - pose proof (rename_apps a n) as Hr. by rewrite E in Hr.
Qed.

Lemma update_group_apps now d g n itv :
  tables_ok d →
  let '(ret, d') := neu_adapter_driver_update_group now d g (Some n) itv in
  ret = NEU_ERR_SUCCESS → ∀ x, group_apps d' x =
    if decide (x = n) then group_apps d g else if decide (x = g) then [] else group_apps d x.
Proof.
  intros Hd. pose proof (update_group_find now d g n itv Hd) as Hu.
  destruct (neu_adapter_driver_update_group now d g (Some n) itv) as [ret d'].
  destruct Hu as [_ Hok]. intros E x.
  destruct (Hok E) as (_ & _ & g0 & g1 & Hf & _ & _ & _ & Ha & Hfind).
  unfold group_apps. rewrite Hfind, Hf. repeat case_decide; [by rewrite Ha|done..].
Qed.
End Frame.
