(* ===== verification/MsgQueue.v ===== *)
(** * The message queue of an application node

    src/adapter/msg_q.c and its users in src/adapter/adapter.c.  The thread of the
    event loop pushes the data messages it receives ([adapter_trans_data]), one
    consumer thread pops them and hands them to the plugin ([adapter_consumer]),
    and the thread that destroys the node sets the exit flag, joins the consumer
    and frees the queue ([neu_adapter_destroy]).

    The critical sections are functions on the queue.  [mq_step] interleaves the
    three threads at the granularity of the mutex and the condition variable: a
    push signals after it has unlocked, a wait releases the mutex and may wake up
    spuriously.  A message is any value; [w_received], [w_delivered] and [w_freed]
    record what has happened to messages.  [adapter_msg_q_free] does not take the
    mutex and the thread of the event loop is not joined before it; a push that
    runs into a queue that is freed, or a queue that is freed under a push, sets
    [w_fault].  The list is the one of utlist.h, oldest message first. *)

From S2P Require Import Prelude.

Section Queue.
Context {msg : Type}.

(** ** The queue *)

Record adapter_msg_q := {
  mq_list : list msg;
  mq_max : Z;
  mq_current : Z;
  mq_exit_flag : bool;
}.

Definition adapter_msg_q_new (size : Z) : adapter_msg_q :=
  {| mq_list := []; mq_max := size; mq_current := 0; mq_exit_flag := false |}.

(** The critical section of [adapter_msg_q_push]. *)
Definition adapter_msg_q_push (q : adapter_msg_q) (m : msg) : Z * adapter_msg_q :=
  if mq_current q <? mq_max q
  then (0, {| mq_list := mq_list q ++ [m]; mq_max := mq_max q; mq_current := u32 (mq_current q + 1);
              mq_exit_flag := mq_exit_flag q |})
  else (-1, q).

(** The condition that ends the loop around [pthread_cond_wait]. *)
Definition pop_ready (q : adapter_msg_q) : bool :=
  negb (mq_current q =? 0) || mq_exit_flag q.

(** [adapter_msg_q_pop] after the loop.  [DL_LAST] is the tail of the list. *)
Definition adapter_msg_q_pop (q : adapter_msg_q) : Z * option msg * adapter_msg_q :=
  if mq_exit_flag q then (0, None, q)
  else
    match last (mq_list q) with
    | Some m =>
        let current := u32 (mq_current q - 1) in
        (current, Some m,
         {| mq_list := take (length (mq_list q) - 1) (mq_list q); mq_max := mq_max q;
            mq_current := current; mq_exit_flag := mq_exit_flag q |})
    | None => (0, None, q)
    end.

Definition adapter_msg_q_exit (q : adapter_msg_q) : adapter_msg_q :=
  {| mq_list := mq_list q; mq_max := mq_max q; mq_current := mq_current q; mq_exit_flag := true |}.

(** ** Threads *)

Inductive producer_pc :=
  | ProdIdle
  | ProdLock (m : msg)                 (* about to lock the mutex *)
  | ProdUnlock (m : msg) (ret : Z)     (* in the critical section *)
  | ProdSignal                         (* about to signal *)
  | ProdDrop (m : msg).                (* the queue was full *)

Inductive consumer_pc :=
  | ConsLock
  | ConsCheck                          (* has the mutex, at the head of the loop *)
  | ConsWait                           (* blocked in [pthread_cond_wait] *)
  | ConsWoken                          (* woken, about to take the mutex again *)
  | ConsGot (m : option msg)
  | ConsDone.

Inductive destroyer_pc :=
  | DestIdle
  | DestLock
  | DestFlag                           (* has the mutex and has set the flag *)
  | DestUnlock                         (* has broadcast *)
  | DestJoin
  | DestFree
  | DestFreed.
#[export] Instance destroyer_pc_eq_dec : EqDecision destroyer_pc.
Proof. solve_decision. Defined.

Inductive owner := OProd | OCons | ODest.
#[export] Instance owner_eq_dec : EqDecision owner.
Proof. solve_decision. Defined.

Record world := {
  w_q : adapter_msg_q;
  w_lock : option owner;
  w_prod : producer_pc;
  w_cons : consumer_pc;
  w_dest : destroyer_pc;
  w_received : list msg;
  w_delivered : list msg;
  w_freed : list msg;
  w_fault : bool;                      (* the queue was used when it was freed *)
}.

Definition world_init (size : Z) : world :=
  {| w_q := adapter_msg_q_new size; w_lock := None; w_prod := ProdIdle; w_cons := ConsLock;
     w_dest := DestIdle; w_received := []; w_delivered := []; w_freed := [];
     w_fault := false |}.

(** Waking whoever waits: the consumer. *)
Definition wake (c : consumer_pc) : consumer_pc :=
  match c with ConsWait => ConsWoken | _ => c end.

(** The consumer with a message, or without one when the queue exits. *)
Definition adapter_consumer (running : bool) (m : option msg) (w : world) : world :=
  match m with
  | None =>
      {| w_q := w_q w; w_lock := w_lock w; w_prod := w_prod w; w_cons := ConsDone;
         w_dest := w_dest w; w_received := w_received w; w_delivered := w_delivered w;
         w_freed := w_freed w; w_fault := w_fault w |}
  | Some m =>
      {| w_q := w_q w; w_lock := w_lock w; w_prod := w_prod w; w_cons := ConsLock;
         w_dest := w_dest w; w_received := w_received w;
         w_delivered := if running then w_delivered w ++ [m] else w_delivered w;
         w_freed := w_freed w ++ [m]; w_fault := w_fault w |}
  end.

Definition adapter_msg_q_free (w : world) : world :=
  {| w_q := {| mq_list := []; mq_max := mq_max (w_q w); mq_current := mq_current (w_q w);
               mq_exit_flag := true |};
     w_lock := w_lock w; w_prod := w_prod w; w_cons := w_cons w; w_dest := DestFreed;
     w_received := w_received w; w_delivered := w_delivered w;
     w_freed := w_freed w ++ mq_list (w_q w);
     w_fault := w_fault w || bool_decide (w_lock w ≠ None) |}.

Definition set_prod (p : producer_pc) (w : world) : world :=
  {| w_q := w_q w; w_lock := w_lock w; w_prod := p; w_cons := w_cons w; w_dest := w_dest w;
     w_received := w_received w; w_delivered := w_delivered w; w_freed := w_freed w;
     w_fault := w_fault w |}.
Definition set_cons (c : consumer_pc) (w : world) : world :=
  {| w_q := w_q w; w_lock := w_lock w; w_prod := w_prod w; w_cons := c; w_dest := w_dest w;
     w_received := w_received w; w_delivered := w_delivered w; w_freed := w_freed w;
     w_fault := w_fault w |}.
Definition set_dest (d : destroyer_pc) (w : world) : world :=
  {| w_q := w_q w; w_lock := w_lock w; w_prod := w_prod w; w_cons := w_cons w; w_dest := d;
     w_received := w_received w; w_delivered := w_delivered w; w_freed := w_freed w;
     w_fault := w_fault w |}.
Definition set_lock (l : option owner) (w : world) : world :=
  {| w_q := w_q w; w_lock := l; w_prod := w_prod w; w_cons := w_cons w; w_dest := w_dest w;
     w_received := w_received w; w_delivered := w_delivered w; w_freed := w_freed w;
     w_fault := w_fault w |}.
Definition set_q (q : adapter_msg_q) (w : world) : world :=
  {| w_q := q; w_lock := w_lock w; w_prod := w_prod w; w_cons := w_cons w; w_dest := w_dest w;
     w_received := w_received w; w_delivered := w_delivered w; w_freed := w_freed w;
     w_fault := w_fault w |}.
Definition receive (m : msg) (w : world) : world :=
  {| w_q := w_q w; w_lock := w_lock w; w_prod := ProdLock m; w_cons := w_cons w;
     w_dest := w_dest w; w_received := w_received w ++ [m]; w_delivered := w_delivered w;
     w_freed := w_freed w;
     w_fault := w_fault w |}.
Definition drop (m : msg) (w : world) : world :=
  {| w_q := w_q w; w_lock := w_lock w; w_prod := ProdIdle; w_cons := w_cons w;
     w_dest := w_dest w; w_received := w_received w; w_delivered := w_delivered w;
     w_freed := w_freed w ++ [m]; w_fault := w_fault w |}.
Definition fault (w : world) : world :=
  {| w_q := w_q w; w_lock := w_lock w; w_prod := w_prod w; w_cons := w_cons w; w_dest := w_dest w;
     w_received := w_received w; w_delivered := w_delivered w; w_freed := w_freed w; w_fault := true |}.

(** A push that is under way when the queue has been freed: its next step locks or
    unlocks the mutex, signals, or reads the name of the queue for the log. *)
Definition uses_freed_queue (w : world) : Prop := w_dest w = DestFreed ∧ w_prod w ≠ ProdIdle.

(** Steps of the three threads. *)
Inductive mq_step : world → world → Prop :=
  (* adapter_trans_data *)
  | step_receive w m :
      w_prod w = ProdIdle → mq_step w (receive m w)
  | step_push w m ret q :
      w_prod w = ProdLock m → w_lock w = None → w_dest w ≠ DestFreed →
      adapter_msg_q_push (w_q w) m = (ret, q) →
      mq_step w (set_q q (set_prod (ProdUnlock m ret) (set_lock (Some OProd) w)))
  | step_push_unlock w m ret :
      w_prod w = ProdUnlock m ret → w_dest w ≠ DestFreed →
      mq_step w (set_prod (if ret =? -1 then ProdDrop m else ProdSignal) (set_lock None w))
  | step_signal w :
      w_prod w = ProdSignal → w_dest w ≠ DestFreed →
      mq_step w (set_cons (wake (w_cons w)) (set_prod ProdIdle w))
  | step_drop w m : w_prod w = ProdDrop m → w_dest w ≠ DestFreed → mq_step w (drop m w)
  | step_fault w : uses_freed_queue w → mq_step w (fault w)
  (* adapter_consumer *)
  | step_pop_lock w :
      w_cons w = ConsLock ∨ w_cons w = ConsWoken → w_lock w = None →
      mq_step w (set_cons ConsCheck (set_lock (Some OCons) w))
  | step_wait w :
      w_cons w = ConsCheck → pop_ready (w_q w) = false →
      mq_step w (set_cons ConsWait (set_lock None w))
  | step_spurious w : w_cons w = ConsWait → mq_step w (set_cons ConsWoken w)
  | step_pop w n m q :
      w_cons w = ConsCheck → pop_ready (w_q w) = true → adapter_msg_q_pop (w_q w) = (n, m, q) →
      mq_step w (set_q q (set_cons (ConsGot m) (set_lock None w)))
  | step_handle w running m :
      w_cons w = ConsGot m → mq_step w (adapter_consumer running m w)
  (* neu_adapter_destroy *)
  | step_destroy w : w_dest w = DestIdle → mq_step w (set_dest DestLock w)
  | step_exit w :
      w_dest w = DestLock → w_lock w = None →
      mq_step w (set_q (adapter_msg_q_exit (w_q w)) (set_dest DestFlag (set_lock (Some ODest) w)))
  | step_broadcast w :
      w_dest w = DestFlag → mq_step w (set_cons (wake (w_cons w)) (set_dest DestUnlock w))
  | step_exit_unlock w :
      w_dest w = DestUnlock → mq_step w (set_dest DestJoin (set_lock None w))
  | step_join w :
      w_dest w = DestJoin → w_cons w = ConsDone → mq_step w (set_dest DestFree w)
  | step_free w :
      w_dest w = DestFree → mq_step w (adapter_msg_q_free w).
End Queue.
Arguments adapter_msg_q : clear implicits.
Arguments world : clear implicits.

(** ** Invariant *)

Section Invariant.
Context {msg : Type}.
Implicit Types (w : world msg) (q : adapter_msg_q msg).

Definition reachable (size : Z) w : Prop := rtc mq_step (world_init size) w.

(** The messages a thread holds. *)
Definition prod_msgs (p : producer_pc (msg := msg)) : list msg :=
  match p with
  | ProdLock m | ProdDrop m => [m]
  | ProdUnlock m ret => if ret =? -1 then [m] else []
  | _ => []
  end.
Definition cons_msgs (c : consumer_pc (msg := msg)) : list msg :=
  match c with ConsGot (Some m) => [m] | _ => [] end.

Definition exiting (d : destroyer_pc) : bool :=
  match d with DestIdle | DestLock => false | _ => true end.

(** A signal, or the broadcast, is on its way. *)
Definition wake_pending w : Prop :=
  (∃ m, w_prod w = ProdUnlock m 0) ∨ w_prod w = ProdSignal ∨ w_dest w = DestFlag.

(** Who is between locking and unlocking. *)
Definition prod_in (p : producer_pc (msg := msg)) : bool :=
  match p with ProdUnlock _ _ => true | _ => false end.
Definition cons_in (c : consumer_pc (msg := msg)) : bool :=
  match c with ConsCheck => true | _ => false end.
Definition dest_in (d : destroyer_pc) : bool :=
  match d with DestFlag | DestUnlock => true | _ => false end.
Definition owned_by (l : option owner) (o : owner) : bool :=
  match l, o with
  | Some OProd, OProd | Some OCons, OCons | Some ODest, ODest => true
  | _, _ => false
  end.

Record mq_inv w : Prop := {
  inv_count : w_dest w ≠ DestFreed → mq_current (w_q w) = Z.of_nat (length (mq_list (w_q w)));
  inv_max : Z.of_nat (length (mq_list (w_q w))) <= mq_max (w_q w) < 4294967296;
  inv_lock : prod_in (w_prod w) = owned_by (w_lock w) OProd ∧
    cons_in (w_cons w) = owned_by (w_lock w) OCons ∧
    dest_in (w_dest w) = owned_by (w_lock w) ODest;
  inv_ret : ∀ m ret, w_prod w = ProdUnlock m ret → ret = 0 ∨ ret = -1;
  inv_exit : mq_exit_flag (w_q w) = exiting (w_dest w);
  inv_wait : w_cons w = ConsWait →
    mq_list (w_q w) = [] ∧ mq_exit_flag (w_q w) = false ∨ wake_pending w;
  inv_stop : w_cons w = ConsGot None ∨ w_cons w = ConsDone → mq_exit_flag (w_q w) = true;
  inv_join : w_dest w = DestFree ∨ w_dest w = DestFreed → w_cons w = ConsDone;
  inv_freed : w_dest w = DestFreed → mq_list (w_q w) = [];
  inv_msgs : w_received w ≡ₚ
    w_freed w ++ mq_list (w_q w) ++ prod_msgs (w_prod w) ++ cons_msgs (w_cons w);
  inv_delivered : ∃ l, w_freed w ≡ₚ w_delivered w ++ l;
  inv_fault : w_fault w = true → w_dest w = DestFreed;
}.

Lemma mq_inv_init size : 0 <= size < 4294967296 → mq_inv (world_init size).
Proof.
  intros Hs. split; simpl; try done.
  - by intros [].
  - by intros [].
  - by exists [].
Qed.

(** *** Critical sections *)

Lemma push_inv q m ret q' :
  mq_current q = Z.of_nat (length (mq_list q)) →
  Z.of_nat (length (mq_list q)) <= mq_max q < 4294967296 →
  adapter_msg_q_push q m = (ret, q') →
  mq_current q' = Z.of_nat (length (mq_list q')) ∧ mq_max q' = mq_max q ∧
  Z.of_nat (length (mq_list q')) <= mq_max q ∧ mq_exit_flag q' = mq_exit_flag q ∧
  (ret = 0 ∧ mq_list q' = mq_list q ++ [m] ∨ ret = -1 ∧ q' = q).
Proof.
  intros Hc Hm. unfold adapter_msg_q_push. destruct (Z.ltb_spec (mq_current q) (mq_max q)).
  - intros [= <- <-]. simpl. rewrite length_app. simpl.
    assert (Hu : u32 (mq_current q + 1) = mq_current q + 1) by zlia.
    rewrite Hu. split_and!; [lia|done|lia|done|by left].
  - intros [= <- <-]. split_and!; [done|done|lia|done|by right].
Qed.

Lemma last_take {A} (l : list A) m :
  last l = Some m → l = take (length l - 1) l ++ [m].
Proof.
  intros [l' ->]%last_Some. rewrite length_app. simpl. rewrite Nat.add_sub, take_app_length. done.
Qed.

Lemma pop_inv q n m q' :
  mq_current q = Z.of_nat (length (mq_list q)) →
  Z.of_nat (length (mq_list q)) <= mq_max q < 4294967296 → pop_ready q = true →
  adapter_msg_q_pop q = (n, m, q') →
  mq_current q' = Z.of_nat (length (mq_list q')) ∧ mq_max q' = mq_max q ∧
  mq_exit_flag q' = mq_exit_flag q ∧ n = (if mq_exit_flag q then 0 else mq_current q') ∧
  (mq_exit_flag q = true ∧ m = None ∧ q' = q ∨
   mq_exit_flag q = false ∧ ∃ x, m = Some x ∧ mq_list q = mq_list q' ++ [x]).
Proof.
  intros Hc Hm Hr. unfold adapter_msg_q_pop. unfold pop_ready in Hr.
  destruct (mq_exit_flag q) eqn:He; [intros [= <- <- <-]; rewrite He; split_and!; try done; by left|].
  rewrite orb_false_r in Hr. destruct (last (mq_list q)) as [x|] eqn:Hl; cycle 1.
  { apply last_None in Hl. rewrite Hl in Hc. simpl in Hc. by rewrite Hc in Hr. }
  pose proof (last_take _ _ Hl) as Ht. intros [= <- <- <-]. simpl.
  assert (Hlen : (length (mq_list q) ≠ 0)%nat) by (intros E; by destruct (mq_list q)).
  assert (Hu : u32 (mq_current q - 1) = mq_current q - 1) by zlia.
  rewrite Hu, length_take. split_and!; [lia|done|done|done|]. right. eauto.
Qed.


Lemma cons_in_wake c : cons_in (wake c) = cons_in c.
Proof. by destruct c. Qed.
Lemma cons_msgs_wake c : cons_msgs (wake c) = cons_msgs c.
Proof. by destruct c. Qed.

Ltac lock_cases w :=
  let l := fresh "l" in
  destruct (w_lock w) as [[]|] eqn:l; simpl in *; try done; try (by intuition congruence).

(** *** Steps *)

Lemma inv_receive_step w m :
  w_prod w = ProdIdle → mq_inv w →
  mq_inv (receive m w).
Proof.
  intros Hp [Hcnt Hmax Hlk Hret Hex Hw Hst Hj Hfr Hm Hd Hfa]. unfold wake_pending in Hw.
  rewrite Hp in *. split; simpl; try done.
  - intros Hc. destruct (Hw Hc) as [?|[[? [=]]|[[=]|?]]]; [by left|right]. by right; right.
  - rewrite Hm. simpl. solve_Permutation.
Qed.

Lemma inv_push_step w m ret q :
  w_prod w = ProdLock m → w_lock w = None → w_dest w ≠ DestFreed →
  adapter_msg_q_push (w_q w) m = (ret, q) → mq_inv w →
  mq_inv (set_q q (set_prod (ProdUnlock m ret) (set_lock (Some OProd) w))).
Proof.
  intros Hp Hl Hf Hq [Hcnt Hmax Hlk Hret Hex Hw Hst Hj Hfr Hm Hd Hfa]. unfold wake_pending in Hw.
  rewrite Hp in *. destruct (push_inv _ _ _ _ (Hcnt Hf) Hmax Hq) as (Hc1 & Hc2 & Hc3 & Hc4 & Hc5).
  split; simpl; try done; rewrite ?Hc2, ?Hc4; try done.
  - lia.
  - rewrite Hl in Hlk. simpl in Hlk. tauto.
  - intros m' ret' [= <- <-]. destruct Hc5 as [[? _]|[? _]]; auto.
  - intros Hc. destruct Hc5 as [[-> _]|[-> ->]].
    + right. left. by exists m.
    + destruct (Hw Hc) as [?|[[? [=]]|[[=]|?]]]; [by left|]. right. by right; right.
  - rewrite Hm. simpl. destruct Hc5 as [[-> ->]|[-> ->]]; simpl; solve_Permutation.
Qed.

Lemma inv_push_unlock_step w m ret :
  w_prod w = ProdUnlock m ret → mq_inv w →
  mq_inv (set_prod (if ret =? -1 then ProdDrop m else ProdSignal) (set_lock None w)).
Proof.
  intros Hp [Hcnt Hmax Hlk Hret Hex Hw Hst Hj Hfr Hm Hd Hfa]. unfold wake_pending in Hw.
  rewrite Hp in *. pose proof (Hret m ret eq_refl) as Hr. split; simpl; try done.
  - lock_cases w. destruct Hr as [-> | ->]; simpl; tauto.
  - intros m' ret'. by destruct Hr as [-> | ->].
  - intros Hc. destruct Hr as [-> | ->]; simpl; [right; right; by left|].
    destruct (Hw Hc) as [?|[[? [=]]|[[=]|?]]]; [by left|]. right. by right; right.
  - rewrite Hm. simpl. by destruct Hr as [-> | ->].
Qed.

Lemma inv_drop_step w m :
  w_prod w = ProdDrop m → mq_inv w →
  mq_inv (drop m w).
Proof.
  intros Hp [Hcnt Hmax Hlk Hret Hex Hw Hst Hj Hfr Hm Hd Hfa]. unfold wake_pending in Hw.
  rewrite Hp in *. split; simpl; try done.
  - intros Hc. destruct (Hw Hc) as [?|[[? [=]]|[[=]|?]]]; [by left|]. right. by right; right.
  - rewrite Hm. simpl. solve_Permutation.
  - destruct Hd as [l Hl]. exists (l ++ [m]). by rewrite Hl, app_assoc.
Qed.

Lemma inv_wait_step w :
  w_cons w = ConsCheck → pop_ready (w_q w) = false → mq_inv w →
  mq_inv (set_cons ConsWait (set_lock None w)).
Proof.
  intros Hc Hr [Hcnt Hmax Hlk Hret Hex Hw Hst Hj Hfr Hm Hd Hfa]. unfold wake_pending in Hw.
  rewrite Hc in *. unfold pop_ready in Hr. apply orb_false_iff in Hr as [Hr He].
  apply negb_false_iff, Z.eqb_eq in Hr. split; simpl; try done.
  - lock_cases w.
  - intros _. left. split; [|done]. destruct (decide (w_dest w = DestFreed)) as [E|E].
    { rewrite E in Hex. simpl in Hex. congruence. }
    specialize (Hcnt E). destruct (mq_list (w_q w)); [done|]. simpl in Hcnt. lia.
  - by intros [].
  - intros Hds. by specialize (Hj Hds).
Qed.

Lemma inv_pop_step w n m q :
  w_cons w = ConsCheck → pop_ready (w_q w) = true → adapter_msg_q_pop (w_q w) = (n, m, q) → mq_inv w →
  mq_inv (set_q q (set_cons (ConsGot m) (set_lock None w))).
Proof.
  intros Hc Hr Hq [Hcnt Hmax Hlk Hret Hex Hw Hst Hj Hfr Hm Hd Hfa]. unfold wake_pending in Hw.
  assert (Hnf : w_dest w ≠ DestFreed).
  { intros E. rewrite (Hj (or_intror E)) in Hc. done. }
  rewrite Hc in *. destruct (pop_inv _ _ _ _ (Hcnt Hnf) Hmax Hr Hq) as (Hc1 & Hc2 & Hc3 & _ & Hc4).
  assert (Hlen : (length (mq_list q) <= length (mq_list (w_q w)))%nat).
  { destruct Hc4 as [(_ & _ & ->)|(_ & x & _ & ->)]; rewrite ?length_app; lia. }
  split; simpl; try done; rewrite ?Hc2, ?Hc3; try done.
  - lia.
  - lock_cases w.
  - intros [[= ->]|[=]]. destruct Hc4 as [(? & _)|(_ & x & [=] & _)]. done.
  - intros Hds. by specialize (Hj Hds).
  - rewrite Hm. simpl. destruct Hc4 as [(_ & -> & ->)|(_ & x & -> & ->)]; simpl; solve_Permutation.
Qed.

Lemma inv_handle_step w running m :
  w_cons w = ConsGot m → mq_inv w →
  mq_inv (adapter_consumer running m w).
Proof.
  intros Hc [Hcnt Hmax Hlk Hret Hex Hw Hst Hj Hfr Hm Hd Hfa]. unfold wake_pending in Hw.
  rewrite Hc in *. destruct m as [m|]; split; simpl; try done.
  - by intros [].
  - intros Hds. by specialize (Hj Hds).
  - rewrite Hm. simpl. solve_Permutation.
  - destruct Hd as [l Hl]. destruct running.
    + exists l. rewrite Hl. solve_Permutation.
    + exists (l ++ [m]). by rewrite Hl, app_assoc.
  - intros _. apply Hst. by left.
Qed.

Lemma mq_inv_step w w' : mq_step w w' → mq_inv w → mq_inv w'.
Proof.
  destruct 1 as [w m Hp|w m ret q Hp Hl Hf Hq|w m ret Hp Hf|w Hp Hf|w m Hp Hf|w Hu
    |w Hc Hl|w Hc Hr|w Hc|w n m q Hc Hr Hq|w running m Hc
    |w Hds|w Hds Hl|w Hds|w Hds|w Hds Hc|w Hds];
    first [by apply inv_receive_step|by apply inv_push_step|by apply inv_push_unlock_step|by apply inv_drop_step
      |by apply inv_wait_step|by eapply inv_pop_step|by apply inv_handle_step
      |intros [Hcnt Hmax Hlk Hret Hex Hw Hst Hj Hfr Hm Hd Hfa]; unfold wake_pending in Hw].
  - rewrite Hp in *. split; simpl; rewrite ?cons_in_wake, ?cons_msgs_wake; try done.
    + intros Hc. by destruct (w_cons w).
    + intros Hc. apply Hst. destruct (w_cons w); naive_solver.
    + intros Hc. by rewrite (Hj Hc).
  - destruct Hu as [Hu _]. by split.
  - assert (Hnd : w_cons w ≠ ConsDone) by (by destruct Hc as [-> | ->]).
    assert (Hno : cons_msgs (w_cons w) = []) by (by destruct Hc as [-> | ->]).
    rewrite Hl, Hno in *. split; simpl; try done; [tauto|by intros []|].
    intros Hds. by destruct Hnd; apply Hj.
  - rewrite Hc in *. split; simpl; try done; [by intros []|].
    intros Hds. by specialize (Hj Hds).
  - rewrite Hds in *. split; simpl; try done; try (by intros E; specialize (Hfa E)).
    + intros _. by apply Hcnt.
    + intros Hc. destruct (Hw Hc) as [?|[?|[?|[=]]]]; [by left|right; by left|right; right; by left].
    + by intros [].
  - rewrite Hds, Hl in *. split; simpl; try done; try (by intros E; specialize (Hfa E)).
    + intros Hnf. by apply Hcnt.
    + tauto.
    + intros _. right. by right; right.
    + by intros [].
  - rewrite Hds in *. split; simpl; rewrite ?cons_in_wake, ?cons_msgs_wake; try done; try (by intros E; specialize (Hfa E)).
    + intros _. by apply Hcnt.
    + intros Hc. by destruct (w_cons w).
    + by intros [].
  - rewrite Hds in *. split; simpl; try done; try (by intros E; specialize (Hfa E)).
    + intros _. by apply Hcnt.
    + lock_cases w.
    + intros Hc. destruct (Hw Hc) as [?|[?|[?|[=]]]]; [by left|right; by left|right; right; by left].
    + by intros [].
  - rewrite Hds, Hc in *. split; simpl; rewrite ?Hc; try done; try (by intros E; specialize (Hfa E)).
    by intros _; apply Hcnt.
  - pose proof (Hj (or_introl Hds)) as Hc. rewrite Hds, Hc in *. split; simpl; rewrite ?Hc; try done; try (by intros E; specialize (Hfa E)).
    + lia.
    + rewrite Hm. simpl. solve_Permutation.
    + destruct Hd as [l Hl']. exists (l ++ mq_list (w_q w)). by rewrite Hl', app_assoc.
Qed.

Lemma reachable_inv size w : 0 <= size < 4294967296 → reachable size w → mq_inv w.
Proof.
  intros Hs. unfold reachable. generalize (mq_inv_init size Hs).
  induction 2 as [|x y z Hxy _ IH]; [done|]. apply IH. by eapply mq_inv_step.
Qed.

(** ** Waking up *)

(** The steps of the producer and of the destroyer that neither wait for the mutex
    nor depend on the consumer: the end of a push that was accepted, its signal,
    and the broadcast of an exit. A spurious wake-up is not one of them. *)
Inductive waker_step : world msg → world msg → Prop :=
  | waker_unlock w m :
      w_prod w = ProdUnlock m 0 → w_dest w ≠ DestFreed →
      waker_step w (set_prod ProdSignal (set_lock None w))
  | waker_signal w :
      w_prod w = ProdSignal → w_dest w ≠ DestFreed →
      waker_step w (set_cons (wake (w_cons w)) (set_prod ProdIdle w))
  | waker_broadcast w :
      w_dest w = DestFlag → waker_step w (set_cons (wake (w_cons w)) (set_dest DestUnlock w)).

Lemma waker_step_mq w w' : waker_step w w' → mq_step w w'.
Proof.
  destruct 1 as [w m Hp Hd|w Hp Hd|w Hd]; [|by apply step_signal|by apply step_broadcast].
  by apply (step_push_unlock w m 0).
Qed.

Lemma wake_waiting w : mq_inv w → w_cons w = ConsWait →
  mq_list (w_q w) ≠ [] ∨ mq_exit_flag (w_q w) = true →
  wake_pending w ∧ ∃ n w', (n <= 2)%nat ∧ nsteps waker_step n w w' ∧ w_cons w' = ConsWoken ∧
    w_q w' = w_q w.
Proof.
  intros Hi Hc Hne.
  assert (Hnf : w_dest w ≠ DestFreed).
  { intros E. rewrite (inv_join w Hi (or_intror E)) in Hc. done. }
  destruct (inv_wait w Hi Hc) as [[H1 H2]|Hw]; [destruct Hne; congruence|]. split; [done|].
  destruct Hw as [[m Hp]|[Hp|Hp]].
  - eexists 2%nat, _. split; [done|]. split; [|split].
    + eapply nsteps_l; [by apply (waker_unlock _ m)|]. apply nsteps_once. by apply waker_signal.
    + simpl. by rewrite Hc.
    + done.
  - eexists 1%nat, _. split; [lia|]. split; [by apply nsteps_once, waker_signal|]. simpl. by rewrite Hc.
  - eexists 1%nat, _. split; [lia|]. split; [by apply nsteps_once, waker_broadcast|]. simpl. by rewrite Hc.
Qed.

(** ** Draining *)

Definition settled w : Prop := w_dest w = DestIdle ∧ w_prod w = ProdIdle.

(** What is left to do for the consumer. *)
Definition backlog w : nat := 2 * length (mq_list (w_q w)) + length (cons_msgs (w_cons w)).

Lemma inv_not_exiting w : mq_inv w → w_dest w = DestIdle → mq_exit_flag (w_q w) = false.
Proof. intros Hi Hd. rewrite (inv_exit w Hi). by rewrite Hd. Qed.

Lemma pop_step w : mq_inv w → w_dest w = DestIdle → w_cons w = ConsCheck → mq_list (w_q w) ≠ [] →
  ∃ w', mq_step w w' ∧ w_dest w' = DestIdle ∧ w_prod w' = w_prod w ∧ w_lock w' = None ∧
    w_received w' = w_received w ∧ (backlog w' < backlog w)%nat.
Proof.
  intros Hi Hd Hc Hne.
  assert (Hnf : w_dest w ≠ DestFreed) by congruence.
  pose proof (inv_count w Hi Hnf) as Hcnt. pose proof (inv_not_exiting w Hi Hd) as He.
  assert (Hr : pop_ready (w_q w) = true).
  { unfold pop_ready. destruct (mq_list (w_q w)); [done|]. simpl in Hcnt.
    rewrite (proj2 (Z.eqb_neq (mq_current (w_q w)) 0)) by lia. done. }
  destruct (adapter_msg_q_pop (w_q w)) as [[n m] q] eqn:Hq.
  destruct (pop_inv _ _ _ _ Hcnt (inv_max w Hi) Hr Hq) as (_ & _ & _ & _ & [(E & _)|(_ & x & -> & Hl)]);
    [congruence|].
  eexists. split; [by eapply step_pop|]. simpl. split_and!; try done.
  unfold backlog. simpl. rewrite Hc, Hl, length_app. simpl. lia.
Qed.

Lemma drain_one w : mq_inv w → settled w → backlog w ≠ 0%nat →
  ∃ w', rtc mq_step w w' ∧ mq_inv w' ∧ settled w' ∧ w_received w' = w_received w ∧
    (backlog w' < backlog w)%nat.
Proof.
  intros Hi [Hd Hp] Hb. pose proof (inv_not_exiting w Hi Hd) as He.
  assert (Hfin : ∀ w1 w', mq_inv w1 → mq_step w1 w' → rtc mq_step w w1 → w_received w1 = w_received w →
    backlog w1 = backlog w → w_dest w' = DestIdle ∧ w_prod w' = ProdIdle ∧
    w_received w' = w_received w1 ∧ (backlog w' < backlog w1)%nat →
    ∃ w', rtc mq_step w w' ∧ mq_inv w' ∧ settled w' ∧ w_received w' = w_received w ∧
      (backlog w' < backlog w)%nat).
  { intros w1 w' Hi1 Hs Hr Hrec Hbl (? & ? & ? & ?). exists w'.
    split_and!; [by eapply rtc_r|by eapply mq_inv_step|done|congruence|lia]. }
  assert (Hcheck : ∀ w1, mq_inv w1 → rtc mq_step w w1 → w_dest w1 = DestIdle → w_prod w1 = ProdIdle →
    w_cons w1 = ConsCheck → mq_list (w_q w1) ≠ [] → w_received w1 = w_received w →
    backlog w1 = backlog w →
    ∃ w', rtc mq_step w w' ∧ mq_inv w' ∧ settled w' ∧ w_received w' = w_received w ∧
      (backlog w' < backlog w)%nat).
  { intros w1 Hi1 Hr Hd1 Hp1 Hc1 Hl1 Hrec Hbl.
    destruct (pop_step w1 Hi1 Hd1 Hc1 Hl1) as (w' & Hs & Hd' & Hp' & _ & Hrec' & Hlt).
    eapply Hfin; [exact Hi1|exact Hs|done..|]. split_and!; congruence || done. }
  assert (Hlist : w_cons w ≠ ConsWait → cons_msgs (w_cons w) = [] → mq_list (w_q w) ≠ []).
  { intros _ Hno Hl. apply Hb. unfold backlog. by rewrite Hno, Hl. }
  destruct (inv_lock w Hi) as (L1 & L2 & L3). rewrite Hp in L1. rewrite Hd in L3. simpl in L1, L3.
  assert (Hlock : cons_in (w_cons w) = false → w_lock w = None).
  { intros Hci. rewrite Hci in L2. by destruct (w_lock w) as [[]|]. }
  destruct (w_cons w) as [| | | |[m|]|] eqn:Hc; simpl in *.
  - assert (Hs : mq_step w (set_cons ConsCheck (set_lock (Some OCons) w)))
      by (apply step_pop_lock; auto).
    eapply Hcheck; [by eapply mq_inv_step|by apply rtc_once|done|done|done|by apply Hlist|done|].
    unfold backlog. simpl. by rewrite Hc.
  - by apply (Hcheck w); auto using rtc_refl.
  - destruct (inv_wait w Hi Hc) as [[Hl _]|[[? ?]|[?|?]]]; try congruence.
    exfalso. apply Hb. unfold backlog. by rewrite Hl, Hc.
  - assert (Hs : mq_step w (set_cons ConsCheck (set_lock (Some OCons) w)))
      by (apply step_pop_lock; auto).
    eapply Hcheck; [by eapply mq_inv_step|by apply rtc_once|done|done|done|by apply Hlist|done|].
    unfold backlog. simpl. by rewrite Hc.
  - eapply (Hfin w (adapter_consumer true (Some m) w)); [done|by apply step_handle|apply rtc_refl|done|done|].
    split_and!; try done. unfold backlog. simpl. rewrite Hc. simpl. lia.
  - rewrite (inv_stop w Hi) in He by auto. done.
  - rewrite (inv_stop w Hi) in He by auto. done.
Qed.

(** The consumer leaves the critical section. *)
Lemma release_consumer w : mq_inv w → w_dest w = DestIdle → w_lock w = Some OCons →
  ∃ w', mq_step w w' ∧ w_dest w' = DestIdle ∧ w_prod w' = w_prod w ∧ w_lock w' = None ∧
    w_received w' = w_received w.
Proof.
  intros Hi Hd Hl. destruct (inv_lock w Hi) as (_ & L2 & _). rewrite Hl in L2. simpl in L2.
  assert (Hc : w_cons w = ConsCheck) by (by destruct (w_cons w)).
  destruct (pop_ready (w_q w)) eqn:Hr.
  - destruct (adapter_msg_q_pop (w_q w)) as [[n m] q] eqn:Hq.
    eexists. split; [by eapply step_pop|done].
  - eexists. split; [by apply step_wait|done].
Qed.

(** The producer finishes the message it has. *)
Lemma settle_producer w : mq_inv w → w_dest w = DestIdle →
  ∃ w', rtc mq_step w w' ∧ mq_inv w' ∧ settled w' ∧ w_received w' = w_received w.
Proof.
  intros Hi Hd.
  (* from the critical section on *)
  assert (Hend : ∀ w1 m ret, mq_inv w1 → w_dest w1 = DestIdle → w_prod w1 = ProdUnlock m ret →
    ∃ w', rtc mq_step w1 w' ∧ mq_inv w' ∧ settled w' ∧ w_received w' = w_received w1).
  { intros w1 m ret Hi1 Hd1 Hp1. assert (Hs1 := step_push_unlock w1 m ret Hp1 ltac:(congruence)).
    pose proof (mq_inv_step _ _ Hs1 Hi1) as Hi2. set (w2 := set_prod _ _) in *.
    destruct (ret =? -1) eqn:Hr.
    - assert (Hs2 : mq_step w2 (drop m w2)) by (apply step_drop; unfold w2; simpl; rewrite ?Hr; congruence).
      eexists. split_and!; [eapply rtc_l; [exact Hs1|by apply rtc_once]|by eapply mq_inv_step|done..].
    - assert (Hs2 : mq_step w2 (set_cons (wake (w_cons w2)) (set_prod ProdIdle w2)))
        by (apply step_signal; unfold w2; simpl; rewrite ?Hr; congruence).
      eexists. split_and!; [eapply rtc_l; [exact Hs1|by apply rtc_once]|by eapply mq_inv_step|done..]. }
  (* with the mutex free *)
  assert (Hpush : ∀ w1 m, mq_inv w1 → w_dest w1 = DestIdle → w_prod w1 = ProdLock m →
    w_lock w1 = None →
    ∃ w', rtc mq_step w1 w' ∧ mq_inv w' ∧ settled w' ∧ w_received w' = w_received w1).
  { intros w1 m Hi1 Hd1 Hp1 Hl1. destruct (adapter_msg_q_push (w_q w1) m) as [ret q] eqn:Hq.
    assert (Hs : mq_step w1 (set_q q (set_prod (ProdUnlock m ret) (set_lock (Some OProd) w1))))
      by (apply step_push; congruence).
    destruct (Hend _ m ret (mq_inv_step _ _ Hs Hi1) Hd1 eq_refl) as (w' & Hr & Hi' & Hs' & Hrec).
    exists w'. split_and!; [by eapply rtc_l|done..]. }
  destruct (w_prod w) as [|m|m ret| |m] eqn:Hp.
  - exists w. split_and!; [apply rtc_refl|done|done|done].
  - destruct (w_lock w) as [o|] eqn:Hl; [|by eapply Hpush].
    destruct (inv_lock w Hi) as (L1 & _ & L3). rewrite Hp, Hl in L1. rewrite Hd, Hl in L3.
    assert (Ho : o = OCons) by (by destruct o). subst o.
    destruct (release_consumer w Hi Hd Hl) as (w1 & Hs & Hd1 & Hp1 & Hl1 & Hr1).
    rewrite Hp in Hp1.
    destruct (Hpush w1 m (mq_inv_step _ _ Hs Hi) Hd1 Hp1 Hl1) as (w' & Hr & ? & ? & ?).
    exists w'. split_and!; [by eapply rtc_l|done|done|congruence].
  - by eapply Hend.
  - assert (Hs : mq_step w (set_cons (wake (w_cons w)) (set_prod ProdIdle w)))
      by (apply step_signal; congruence).
    eexists. split_and!; [by apply rtc_once|by eapply mq_inv_step|done..].
  - assert (Hs : mq_step w (drop m w)) by (apply step_drop; congruence).
    eexists. split_and!; [by apply rtc_once|by eapply mq_inv_step|done..].
Qed.

Lemma drain_all w : mq_inv w → settled w →
  ∃ w', rtc mq_step w w' ∧ mq_inv w' ∧ settled w' ∧ w_received w' = w_received w ∧
    backlog w' = 0%nat.
Proof.
  remember (backlog w) as n eqn:Hn. revert w Hn.
  induction (lt_wf n) as [n _ IH]. intros w -> Hi Hs.
  destruct (decide (backlog w = 0%nat)) as [E|E]; [by exists w; split_and!; [apply rtc_refl|..]|].
  destruct (drain_one w Hi Hs E) as (w1 & Hr1 & Hi1 & Hs1 & Hrec1 & Hlt).
  destruct (IH _ Hlt w1 eq_refl Hi1 Hs1) as (w' & Hr & ? & ? & ? & ?).
  exists w'. split_and!; [by etransitivity|done|done|congruence|done].
Qed.

(** ** Theorems *)

(** C6: No wake-up is lost, although a push signals after it has released the mutex.
    In every reachable state in which the consumer is blocked in the wait while a
    message is in the queue or the queue exits, the signal or the broadcast that
    wakes it is on its way ([wake_pending]): one or two steps of the producer or of
    the destroyer, none of which waits for the mutex or is a spurious wake-up
    ([waker_step]), wake it and leave the queue as it is. *)
Theorem consumer_never_sleeps_on_work size w :
  0 <= size < 4294967296 → reachable size w → w_cons w = ConsWait →
  mq_list (w_q w) ≠ [] ∨ mq_exit_flag (w_q w) = true →
  wake_pending w ∧ ∃ n w', (n <= 2)%nat ∧ nsteps waker_step n w w' ∧ w_cons w' = ConsWoken ∧
    w_q w' = w_q w.
Proof. intros Hs Hr. by apply wake_waiting, (reachable_inv size). Qed.

(** The queue never holds more than it is meant to, and it counts right. *)
Theorem queue_bounded size w :
  0 <= size < 4294967296 → reachable size w → w_dest w ≠ DestFreed →
  mq_max (w_q w) = size ∧ Z.of_nat (length (mq_list (w_q w))) <= size ∧
  mq_current (w_q w) = Z.of_nat (length (mq_list (w_q w))).
Proof.
  intros Hs Hr Hf. pose proof (reachable_inv size w Hs Hr) as Hi.
  assert (Hmax : mq_max (w_q w) = size).
  { clear Hf Hi. unfold reachable in Hr. replace size with (mq_max (w_q (@world_init msg size))) by done.
    induction Hr as [|x y z Hxy _ IH]; [done|]. rewrite IH. clear IH.
    destruct Hxy as [|w m ret q _ _ _ Hq| | | | | | | |w n m q _ _ Hq|w r [m|] _| | | | | |];
      try done; simpl.
    - unfold adapter_msg_q_push in Hq. destruct (_ <? _); by injection Hq as _ <-.
    - unfold adapter_msg_q_pop in Hq. destruct (mq_exit_flag _); [|destruct (last _)];
        by injection Hq as _ _ <-. }
  split; [done|]. pose proof (inv_max w Hi). split; [lia|]. by apply Hi.
Qed.

(** C7: As long as the queue has not been freed under a push that is still using it
    ([w_fault], which [queue_freed_under_producer] reaches), in every interleaving:
    the messages received are exactly those freed, those in the queue and those
    in the hands of the producer or of the consumer, each once. So no message is
    lost and none is freed twice; what the plugin has seen has been freed, once;
    and when the queue is gone and the producer is idle everything has been freed. *)
Theorem messages_freed_once size w :
  0 <= size < 4294967296 → reachable size w → NoDup (w_received w) → w_fault w = false →
  w_received w ≡ₚ w_freed w ++ mq_list (w_q w) ++ prod_msgs (w_prod w) ++ cons_msgs (w_cons w) ∧
  NoDup (w_freed w) ∧ (∀ m, m ∈ w_freed w → m ∈ w_received w) ∧
  (∀ m, m ∈ w_delivered w → m ∈ w_freed w) ∧ NoDup (w_delivered w) ∧
  (w_dest w = DestFreed → w_prod w = ProdIdle → w_freed w ≡ₚ w_received w).
Proof.
  intros Hs Hr Hnd _. pose proof (reachable_inv size w Hs Hr) as Hi.
  pose proof (inv_msgs w Hi) as Hm. destruct (inv_delivered w Hi) as [l Hl].
  assert (Hf : NoDup (w_freed w)) by (rewrite Hm in Hnd; by apply NoDup_app in Hnd as [? _]).
  split_and!.
  - done.
  - done.
  - intros m Hin. rewrite Hm. apply elem_of_app. by left.
  - intros m Hin. rewrite Hl. apply elem_of_app. by left.
  - rewrite Hl in Hf. by apply NoDup_app in Hf as [? _].
  - intros Hd Hp. rewrite Hm, Hp, (inv_join w Hi) by auto.
    rewrite (inv_freed w Hi Hd). simpl. by rewrite app_nil_r.
Qed.

(** Nothing gets stuck: from every reachable state in which the node is not being
    destroyed the threads can finish, with every message that has been received
    freed and the queue empty. *)
Theorem queue_drains size w :
  0 <= size < 4294967296 → reachable size w → w_dest w = DestIdle →
  ∃ w', rtc mq_step w w' ∧ w_received w' = w_received w ∧ mq_list (w_q w') = [] ∧
    w_freed w' ≡ₚ w_received w.
Proof.
  intros Hs Hr Hd. pose proof (reachable_inv size w Hs Hr) as Hi.
  destruct (settle_producer w Hi Hd) as (w1 & Hr1 & Hi1 & Hs1 & Hrec1).
  destruct (drain_all w1 Hi1 Hs1) as (w2 & Hr2 & Hi2 & [Hd2 Hp2] & Hrec2 & Hb).
  unfold backlog in Hb. destruct (mq_list (w_q w2)) eqn:Hl; [|done].
  exists w2. split_and!; [by etransitivity|congruence|done|].
  rewrite <-Hrec1, <-Hrec2, (inv_msgs w2 Hi2), Hl, Hp2. simpl in *.
  destruct (cons_msgs (w_cons w2)); [|done]. simpl. by rewrite app_nil_r.
Qed.

(** A pop undoes the last push: the message that is delivered next is the newest
    one, and older messages wait until the queue has been emptied down to them. *)
Theorem pop_takes_newest q m q' :
  mq_current q = Z.of_nat (length (mq_list q)) → mq_max q < 4294967296 →
  mq_exit_flag q = false → adapter_msg_q_push q m = (0, q') →
  adapter_msg_q_pop q' = (mq_current q, Some m, q).
Proof.
  intros Hc Hmax He. unfold adapter_msg_q_push. destruct (Z.ltb_spec (mq_current q) (mq_max q)) as [Hlt|];
    [|done]. intros [= <-]. unfold adapter_msg_q_pop. simpl. rewrite He, last_snoc.
  assert (Hu : u32 (u32 (mq_current q + 1) - 1) = mq_current q) by zlia.
  rewrite Hu, length_app. simpl. rewrite Nat.add_sub, take_app_length. rewrite <-He. by destruct q.
Qed.
End Invariant.


(** The node is destroyed by another thread than the one that receives messages,
    and the queue is freed before the event loop is closed: a message that was
    received in time is pushed to a queue that no longer exists. *)
Theorem queue_freed_under_producer :
  ∃ w : world nat, reachable 1024 w ∧ w_prod w = ProdLock 1%nat ∧ w_fault w = true.
Proof.
  eexists. split.
  - unfold reachable.
    eapply rtc_l; [by apply (step_receive _ 1%nat)|].
    eapply rtc_l; [by apply step_destroy|].
    eapply rtc_l; [by apply step_exit|].
    eapply rtc_l; [by apply step_broadcast|].
    eapply rtc_l; [by apply step_exit_unlock|].
    eapply rtc_l; [apply step_pop_lock; [by left|done]|].
    eapply rtc_l; [by eapply step_pop|].
    eapply rtc_l; [by eapply (step_handle _ true)|].
    eapply rtc_l; [by apply step_join|].
    eapply rtc_l; [by apply step_free|].
    eapply rtc_l; [by apply step_fault|]. apply rtc_refl.
  - done.
Qed.

(** ** Witnesses *)

(** The consumer has gone to sleep and a message has just been pushed. *)
Definition demo_pushed : world nat :=
  {| w_q := {| mq_list := [1%nat]; mq_max := 1024; mq_current := 1; mq_exit_flag := false |};
     w_lock := Some OProd; w_prod := ProdUnlock 1%nat 0; w_cons := ConsWait; w_dest := DestIdle;
     w_received := [1%nat]; w_delivered := []; w_freed := []; w_fault := false |}.

Lemma demo_pushed_reachable : reachable 1024 demo_pushed.
Proof.
  unfold reachable.
  eapply rtc_l; [apply step_pop_lock; [by left|done]|].
  eapply rtc_l; [by apply step_wait|].
  eapply rtc_l; [by apply (step_receive _ 1%nat)|].
  eapply rtc_l; [by eapply step_push|]. apply rtc_refl.
Qed.

(** The message has been delivered and the queue has been freed. *)
Definition demo_freed : world nat :=
  {| w_q := {| mq_list := []; mq_max := 1024; mq_current := 0; mq_exit_flag := true |};
     w_lock := None; w_prod := ProdIdle; w_cons := ConsDone; w_dest := DestFreed;
     w_received := [1%nat]; w_delivered := [1%nat]; w_freed := [1%nat]; w_fault := false |}.

Lemma demo_freed_reachable : reachable 1024 demo_freed.
Proof.
  unfold reachable. etransitivity; [apply demo_pushed_reachable|].
  eapply rtc_l; [by apply step_push_unlock|].
  eapply rtc_l; [by apply step_signal|].
  eapply rtc_l; [apply step_pop_lock; [by right|done]|].
  eapply rtc_l; [by eapply step_pop|].
  eapply rtc_l; [by eapply (step_handle _ true)|].
  eapply rtc_l; [by apply step_destroy|].
  eapply rtc_l; [by apply step_exit|].
  eapply rtc_l; [by apply step_broadcast|].
  eapply rtc_l; [by apply step_exit_unlock|].
  eapply rtc_l; [apply step_pop_lock; [by left|done]|].
  eapply rtc_l; [by eapply step_pop|].
  eapply rtc_l; [by eapply (step_handle _ true)|].
  eapply rtc_l; [by apply step_join|].
  eapply rtc_l; [by apply step_free|]. apply rtc_refl.
Qed.

Lemma consumer_never_sleeps_on_work_witness :
  w_cons demo_pushed = ConsWait ∧ mq_list (w_q demo_pushed) = [1%nat] ∧
  ∃ n w', (n <= 2)%nat ∧ nsteps waker_step n demo_pushed w' ∧ w_cons w' = ConsWoken.
Proof.
  split; [done|]. split; [done|].
  destruct (consumer_never_sleeps_on_work 1024 demo_pushed) as (_ & n & w' & Hn & Hr & Hc & _);
    [lia|apply demo_pushed_reachable|done|by left|]. by exists n, w'.
Defined.

Lemma queue_bounded_witness :
  mq_current (w_q demo_pushed) = Z.of_nat (length (mq_list (w_q demo_pushed))).
Proof.
  destruct (queue_bounded 1024 demo_pushed) as (_ & _ & H);
    [lia|apply demo_pushed_reachable|done|]. exact H.
Defined.

Lemma messages_freed_once_witness : w_freed demo_freed ≡ₚ w_received demo_freed.
Proof.
  destruct (messages_freed_once 1024 demo_freed) as (_ & _ & _ & _ & _ & H);
    [lia|apply demo_freed_reachable|apply NoDup_singleton|done|]. by apply H.
Defined.

Lemma queue_drains_witness :
  ∃ w', rtc mq_step demo_pushed w' ∧ mq_list (w_q w') = [] ∧ w_freed w' ≡ₚ [1%nat].
Proof.
  destruct (queue_drains 1024 demo_pushed) as (w' & Hr & _ & Hl & Hf);
    [lia|apply demo_pushed_reachable|done|]. by exists w'.
Defined.

(** Two messages are pushed; the second one is popped first. *)
Lemma pop_takes_newest_witness :
  let q1 := (adapter_msg_q_push (adapter_msg_q_new 1024) 1%nat).2 in
  let q2 := (adapter_msg_q_push q1 2%nat).2 in
  adapter_msg_q_pop q2 = (1, Some 2%nat, q1).
Proof.
  apply (pop_takes_newest (adapter_msg_q_push (adapter_msg_q_new 1024) 1%nat).2 2%nat); by vm_compute.
Defined.
