(* ===== verification/SubscribeRows.v ===== *)
(** * The subscriptions as rows

    What the table of subscriptions of Subscribe.v means to the database: one row
    per application and group, with the parameters.  Each operation on the table
    does to its rows what the statement of Persist.v does to the rows of the
    database. *)

From S2P Require Import Prelude UtHash NeuTypes Subscribe Persist.

Definition row_of_sub (el : sub_elem_t) (sub : neu_app_subscribe_t) : sub_row :=
  {| sr_app := app_name sub; sr_driver := key_driver el; sr_group := key_group el;
     sr_params := app_params sub; sr_static_tags := app_static_tags sub |}.

Definition in_table (mgr : neu_subscribe_mgr_t) (r : sub_row) : Prop :=
  ∃ el sub, el ∈ mgr ∧ sub ∈ apps el ∧ r = row_of_sub el sub.

Lemma in_table_subscribed mgr r :
  in_table mgr r → subscribed mgr (sr_driver r) (sr_group r) (sr_app r).
Proof.
  intros (el & sub & Hel & Hsub & ->). apply elem_of_triples. exists el.
  split_and!; [done|by destruct el as [[]]|]. simpl. by apply list_elem_of_fmap_2.
Qed.

Lemma subscribed_in_table mgr d g a :
  subscribed mgr d g a → ∃ r, in_table mgr r ∧ sub_key r = (a, d, g).
Proof.
  intros (el & Hel & Hk & (sub & -> & Hsub)%list_elem_of_fmap)%elem_of_triples.
  exists (row_of_sub el sub). split; [by exists el, sub|].
  unfold sub_key, row_of_sub, key_driver, key_group. simpl. by rewrite Hk.
Qed.

(** A key has one row. *)
Lemma in_table_inj mgr r r' :
  mgr_ok mgr → in_table mgr r → in_table mgr r' → sub_key r = sub_key r' → r = r'.
Proof.
  intros [Ht Ha _] (el & sub & Hel & Hsub & ->) (el' & sub' & Hel' & Hsub' & ->) Hk.
  injection Hk as H1 H2 H3. assert (el = el') as <-.
  { apply (table_ok_inj key mgr); [done..|]. destruct el as [[]], el' as [[]].
    unfold key_driver, key_group in *. simpl in *. congruence. }
  rewrite Forall_forall in Ha. f_equal. apply (table_ok_inj app_name (apps el)); [by apply Ha|done..].
Qed.

Lemma in_table_perm m m' r : m ≡ₚ m' → in_table m r ↔ in_table m' r.
Proof. intros Hp. unfold in_table. by setoid_rewrite Hp. Qed.

(** ** Changing the applications of one group *)

(** Rows of the group [k] come from the element of that key. *)
Lemma in_table_group mgr el r :
  table_ok key mgr → hash_find key (sr_driver r, sr_group r) mgr = Some el →
  in_table mgr r ↔ ∃ sub, sub ∈ apps el ∧ r = row_of_sub el sub.
Proof.
  intros Ht [Hel Hk]%(hash_find_Some key). split.
  - intros (el' & sub & Hel' & Hsub & ->). exists sub. assert (el' = el) as ->; [|done].
    apply (table_ok_inj key mgr); [done..|]. rewrite Hk. by destruct el' as [[]].
  - intros (sub & Hsub & ->). by exists el, sub.
Qed.

Lemma in_table_update mgr k f el r :
  table_ok key mgr → hash_find key k mgr = Some el →
  in_table (hash_update key k (λ el, set_apps (f el) el) mgr) r ↔
    if decide ((sr_driver r, sr_group r) = k)
    then ∃ sub, sub ∈ f el ∧ r = row_of_sub el sub else in_table mgr r.
Proof.
  intros Ht Hf. set (mgr' := hash_update key k _ mgr).
  assert (Ht' : table_ok key mgr') by (unfold mgr', table_ok; by rewrite hash_update_keys).
  destruct (decide _) as [<-|Hk].
  - apply (in_table_group mgr' (set_apps (f el) el)); [done|]. unfold mgr'.
    rewrite hash_find_update by done. by rewrite decide_True, Hf.
  - unfold in_table, mgr'. setoid_rewrite (elem_of_hash_update key); [|done].
    assert (Hkey : ∀ el sub, r = row_of_sub el sub → key el = (sr_driver r, sr_group r))
      by (intros el' sub ->; by destruct el' as [[]]).
    split.
    + intros (el' & sub & [(el0 & Hf0 & ->)|[Hel Hne]] & Hsub & Hr); [|by exists el', sub].
      destruct Hk. apply hash_find_Some in Hf0 as [_ <-]. symmetry. by apply (Hkey el0 sub).
    + intros (el' & sub & Hel & Hsub & Hr). exists el', sub. split; [|done]. right. split; [done|].
      intros Hel'. apply Hk. rewrite <-Hel'. symmetry. by eapply Hkey.
Qed.

(** ** The operations *)

Definition sub_row_of (d g a : string) (params st : option string) : sub_row :=
  {| sr_app := a; sr_driver := d; sr_group := g; sr_params := params; sr_static_tags := st |}.

Lemma sub_rows mgr d a g params st addr :
  mgr_ok mgr → short d → short a → short g → ¬ subscribed mgr d g a →
  ∀ r, in_table (neu_subscribe_manager_sub mgr d a g params st addr).2 r ↔
    in_table mgr r ∨ r = sub_row_of d g a params st.
Proof.
  intros Hok Hd Ha Hg Hns r. pose proof (mok_table mgr Hok) as Ht. unfold neu_subscribe_manager_sub.
  rewrite make_key_short by done. unfold NEU_NODE_NAME_LEN. rewrite cstr_trunc_short by done.
  rewrite subscribed_find in Hns by done.
  destruct (hash_find key (d, g) mgr) as [el|] eqn:Hf.
  - assert (He : existsb (is_app a) (apps el) = false).
    { apply existsb_is_app_false. intros Hin. apply Hns. eauto. }
    rewrite He. simpl. rewrite (in_table_update _ _ _ el) by done.
    pose proof (hash_find_Some key _ _ _ Hf) as [Hel Hk].
    assert (Hrow : ∀ sub, row_of_sub el sub = sub_row_of d g (app_name sub) (app_params sub)
                                               (app_static_tags sub)).
    { intros sub. unfold row_of_sub, sub_row_of, key_driver, key_group. by rewrite Hk. }
    destruct (decide _) as [E|E].
    + rewrite <-E in Hf. rewrite (in_table_group mgr el) by done. setoid_rewrite elem_of_app.
      setoid_rewrite list_elem_of_singleton. setoid_rewrite Hrow. naive_solver.
    + split; [by left|]. intros [?| ->]; [done|]. by destruct E.
  - simpl. unfold in_table, hash_add. setoid_rewrite elem_of_app.
    setoid_rewrite list_elem_of_singleton. split.
    + intros (el & sub & [Hel| ->] & Hsub & ->); [left; by exists el, sub|].
      simpl in Hsub. apply list_elem_of_singleton in Hsub as ->. by right.
    + intros [(el & sub & Hel & Hsub & ->)| ->]; [exists el, sub; auto|].
      eexists _, _. split; [by right|]. simpl. rewrite list_elem_of_singleton. by split.
Qed.

Lemma elem_of_erase_app app l sub :
  NoDup (app_name <$> l) → sub ∈ erase_app app l ↔ sub ∈ l ∧ app_name sub ≠ app.
Proof.
  induction l as [|s l IH]; csimpl; [set_solver|]. rewrite NoDup_cons. intros [Hs Hl].
  unfold is_app. case_bool_decide as E.
  - rewrite elem_of_cons. split; [|naive_solver]. intros Hin. split; [by right|]. intros E'.
    apply Hs. rewrite E, <-E'. by apply list_elem_of_fmap_2.
  - rewrite !elem_of_cons, IH by done. naive_solver.
Qed.

Lemma unsub_rows mgr d a g :
  mgr_ok mgr → short d → short g →
  ∀ r, in_table (neu_subscribe_manager_unsub mgr d a g).2 r ↔
    in_table mgr r ∧ sub_key r ≠ (a, d, g).
Proof.
  intros Hok Hd Hg r. pose proof (mok_table mgr Hok) as Ht.
  assert (Hno : ¬ subscribed mgr d g a → in_table mgr r ↔ in_table mgr r ∧ sub_key r ≠ (a, d, g)).
  { intros Hns. split; [|naive_solver]. intros Hr. split; [done|]. intros [= <- <- <-].
    by apply Hns, in_table_subscribed. }
  rewrite subscribed_find in Hno by done.
  unfold neu_subscribe_manager_unsub. rewrite make_key_short by done.
  destruct (hash_find key (d, g) mgr) as [el|] eqn:Hf; [|apply Hno; naive_solver].
  destruct (existsb (is_app a) (apps el)) eqn:He; cycle 1.
  { apply existsb_is_app_false in He. apply Hno. naive_solver. }
  simpl. rewrite (in_table_update _ _ _ el) by done.
  pose proof (hash_find_Some key _ _ _ Hf) as [Hel Hk].
  assert (Hnd : NoDup (app_name <$> apps el)).
  { pose proof (mok_apps mgr Hok) as Ha. rewrite Forall_forall in Ha. by apply Ha. }
  destruct (decide _) as [E|E].
  - rewrite <-E in Hf. rewrite (in_table_group mgr el) by done.
    setoid_rewrite elem_of_erase_app; [|done]. injection E as <- <-. unfold sub_key. split.
    + intros (sub & [Hsub Hne] & ->). split; [by exists sub|]. by intros [=].
    + intros [(sub & Hsub & Hr) Hne]. exists sub. split_and!; [done| |done]. intros <-.
      apply Hne. by rewrite Hr.
  - split; [|naive_solver]. intros Hr. split; [done|]. intros [= E1 E2 E3]. apply E. congruence.
Qed.

(** What is left of a table is what is still subscribed. *)
Lemma rows_shrink mgr mgr' :
  mgr_ok mgr → (∀ r, in_table mgr' r → in_table mgr r) →
  ∀ r, in_table mgr' r ↔ in_table mgr r ∧ subscribed mgr' (sr_driver r) (sr_group r) (sr_app r).
Proof.
  intros Hok Hsub r. split; [eauto using in_table_subscribed|].
  intros [Hr (r' & Hr' & Hk)%subscribed_in_table].
  by rewrite (in_table_inj mgr r r'); eauto.
Qed.

Lemma unsub_shrinks mgr d a g r :
  in_table (neu_subscribe_manager_unsub mgr d a g).2 r → in_table mgr r.
Proof.
  unfold neu_subscribe_manager_unsub. destruct (hash_find key _ mgr); [|done].
  destruct (existsb _ _); [|done]. simpl. intros (el & sub & Hel & Hsub & ->).
  assert (Hin : el ∈ mgr ∨ ∃ el0, el0 ∈ mgr ∧ el = set_apps (erase_app a (apps el0)) el0).
  { clear Hsub. revert Hel. generalize (make_key d g) as k. intros k.
    induction mgr as [|x mgr IH]; csimpl; [by intros ?%elem_of_nil|].
    case_decide; rewrite elem_of_cons; intros [->|Hel]; set_solver. }
  destruct Hin as [Hin|(el0 & Hin & ->)]; [by exists el, sub|]. exists el0, sub. split; [done|].
  split; [|done]. simpl in Hsub. clear -Hsub. induction (apps el0) as [|s l IH]; simpl in *; [done|].
  destruct (is_app a s); [by right|]. apply elem_of_cons in Hsub as [->|Hsub]; [left|right; auto].
Qed.

Lemma unsub_all_rows mgr app :
  mgr_ok mgr →
  ∀ r, in_table (neu_subscribe_manager_unsub_all mgr app) r ↔ in_table mgr r ∧ sr_app r ≠ app.
Proof.
  intros Hok r. destruct (unsub_all_spec mgr app Hok) as [_ Hspec].
  rewrite (rows_shrink mgr _ Hok), Hspec.
  - split; [naive_solver|]. intros [Hr Hne]. eauto using in_table_subscribed.
  - clear. intros r. unfold neu_subscribe_manager_unsub_all. generalize mgr at 2. intros l. revert mgr.
    induction l as [|el l IH]; intros mgr; simpl; [done|]. intros Hr%IH.
    destruct (existsb _ _); [by eapply unsub_shrinks|done].
Qed.

Lemma remove_rows mgr driver group :
  mgr_ok mgr →
  ∀ r, in_table (neu_subscribe_manager_remove mgr driver group) r ↔
    in_table mgr r ∧ ¬ (sr_driver r = driver ∧ (group = None ∨ group = Some (sr_group r))).
Proof.
  intros Hok r. destruct (remove_spec mgr driver group Hok) as [_ Hspec].
  rewrite (rows_shrink mgr _ Hok), Hspec.
  - split; [naive_solver|]. intros [Hr Hne]. eauto using in_table_subscribed.
  - clear. intros r (el & sub & Hel & Hsub & ->). exists el, sub. split; [|done].
    rewrite list_elem_of_In in Hel |- *. by apply filter_In in Hel as [? _].
Qed.

Definition with_params (params st : option string) (r : sub_row) : sub_row :=
  {| sr_app := sr_app r; sr_driver := sr_driver r; sr_group := sr_group r;
     sr_params := params; sr_static_tags := st |}.

Lemma elem_of_update_app app f l sub :
  NoDup (app_name <$> l) →
  sub ∈ update_app app f l ↔
    ∃ s, s ∈ l ∧ sub = if decide (app_name s = app) then f s else s.
Proof.
  induction l as [|s l IH]; csimpl; [set_solver|]. rewrite NoDup_cons. intros [Hs Hl].
  unfold is_app. case_bool_decide as E.
  - assert (Hno : ∀ s', s' ∈ l → app_name s' ≠ app).
    { intros s' Hs' E'. apply Hs. rewrite E, <-E'. by apply list_elem_of_fmap_2. }
    rewrite elem_of_cons. split.
    + intros [->|Hin]; [exists s; rewrite decide_True by done; set_solver|].
      exists sub. rewrite decide_False by auto. set_solver.
    + intros (s' & [->|Hs']%elem_of_cons & ->); [rewrite decide_True by done; by left|].
      rewrite decide_False by auto. by right.
  - rewrite elem_of_cons, IH by done. split.
    + intros [->|(s' & Hs' & ->)]; [exists s; rewrite decide_False by done; set_solver|].
      exists s'. set_solver.
    + intros (s' & [->|Hs']%elem_of_cons & ->); [rewrite decide_False by done; by left|right; eauto].
Qed.

Lemma update_params_rows mgr a d g params st :
  mgr_ok mgr → short d → short g →
  ∀ r, in_table (neu_subscribe_manager_update_params mgr a d g params st).2 r ↔
    ∃ r0, in_table mgr r0 ∧
      r = if decide (sub_key r0 = (a, d, g)) then with_params params st r0 else r0.
Proof.
  intros Hok Hd Hg r. pose proof (mok_table mgr Hok) as Ht.
  assert (Hid : ¬ subscribed mgr d g a → in_table mgr r ↔ ∃ r0, in_table mgr r0 ∧
      r = if decide (sub_key r0 = (a, d, g)) then with_params params st r0 else r0).
  { intros Hns. assert (Hne : ∀ r0, in_table mgr r0 → sub_key r0 ≠ (a, d, g)).
    { intros r0 Hr [= <- <- <-]. by apply Hns, in_table_subscribed. }
    split; [intros Hr; exists r; by rewrite decide_False by auto|].
    intros (r0 & Hr0 & ->). by rewrite decide_False by auto. }
  rewrite subscribed_find in Hid by done.
  unfold neu_subscribe_manager_update_params. rewrite make_key_short by done.
  destruct (hash_find key (d, g) mgr) as [el|] eqn:Hf; [|apply Hid; naive_solver].
  destruct (existsb (is_app a) (apps el)) eqn:He; cycle 1.
  { apply existsb_is_app_false in He. apply Hid. naive_solver. }
  clear Hid. simpl. rewrite (in_table_update _ _ _ el) by done.
  pose proof (hash_find_Some key _ _ _ Hf) as [Hel Hk].
  assert (Hnd : NoDup (app_name <$> apps el)).
  { pose proof (mok_apps mgr Hok) as Ha. rewrite Forall_forall in Ha. by apply Ha. }
  assert (Hkd : key_driver el = d ∧ key_group el = g) by (unfold key_driver, key_group; by rewrite Hk).
  destruct Hkd as [Hkd Hkg]. destruct (decide _) as [E|E].
  - setoid_rewrite elem_of_update_app; [|done]. split.
    + intros (sub & (s & Hs & ->) & ->). exists (row_of_sub el s). split; [by exists el, s|].
      unfold sub_key, row_of_sub, with_params. simpl. rewrite Hkd, Hkg.
      destruct (decide (app_name s = a)) as [->|Hne]; [by rewrite decide_True|].
      by rewrite decide_False by congruence.
    + intros (r0 & Hr0 & Hr). assert (E0 : (sr_driver r0, sr_group r0) = (d, g)).
      { rewrite <-E, Hr. by destruct (decide _). }
      rewrite <-E0 in Hf. apply (in_table_group mgr el) in Hr0 as (s & Hs & ->); [|done|done].
      eexists. split; [by exists s|]. rewrite Hr. unfold sub_key, row_of_sub, with_params. simpl.
      rewrite Hkd, Hkg. destruct (decide (app_name s = a)) as [->|Hne]; [by rewrite decide_True|].
      by rewrite decide_False by congruence.
  - assert (Hne : ∀ r0, (sr_driver r0, sr_group r0) = (sr_driver r, sr_group r) →
      sub_key r0 ≠ (a, d, g)) by (intros r0 E0 [= E1 E2 E3]; apply E; congruence).
    split; [intros Hr; exists r; by rewrite decide_False by auto|].
    intros (r0 & Hr0 & Hr). destruct (decide _) as [E0|E0]; [|by rewrite Hr].
    destruct (Hne r0); [by rewrite Hr|done].
Qed.

(** ** Renaming *)

Lemma rename_driver_rows mgr d new mgr' :
  short new → new ≠ d → neu_subscribe_manager_update_driver_name mgr d new = Some mgr' →
  ∀ r, in_table mgr' r ↔ ∃ r0, in_table mgr r0 ∧
    r = sub_row_of (rename_to d new (sr_driver r0)) (sr_group r0) (sr_app r0) (sr_params r0)
          (sr_static_tags r0).
Proof.
  intros Hs Hne E r. rewrite update_driver_name_spec in E by done. injection E as <-.
  rewrite (in_table_perm _ _ _ (rename_split_perm d new mgr)). unfold in_table.
  assert (Hrow : ∀ el sub, row_of_sub (rename_if d new el) sub =
    sub_row_of (rename_to d new (key_driver el)) (key_group el) (app_name sub) (app_params sub)
      (app_static_tags sub)).
  { intros el sub. unfold row_of_sub, key_driver, key_group. by rewrite rename_if_key. }
  split.
  - intros (el' & sub & (el & -> & Hel)%list_elem_of_fmap & Hsub & ->).
    rewrite rename_if_apps in Hsub. exists (row_of_sub el sub).
    split; [by exists el, sub|]. apply Hrow.
  - intros (r0 & (el & sub & Hel & Hsub & ->) & ->). exists (rename_if d new el), sub.
    rewrite rename_if_apps, Hrow. split; [by apply list_elem_of_fmap_2|done].
Qed.

Lemma rename_group_rows mgr d g new :
  mgr_ok mgr → short d → short g → short new →
  ∀ r, in_table (neu_subscribe_manager_update_group_name mgr d g new).2 r ↔
    ∃ r0, in_table mgr r0 ∧
      r = sub_row_of (sr_driver r0) (if decide (sub_parent r0 = (d, g)) then new else sr_group r0)
            (sr_app r0) (sr_params r0) (sr_static_tags r0).
Proof.
  intros Hok Hd Hg Hn r. pose proof (mok_table mgr Hok) as Ht.
  assert (Hrow : ∀ el sub, sub_parent (row_of_sub el sub) = key el) by by intros [[]].
  unfold neu_subscribe_manager_update_group_name. rewrite make_key_short by done.
  destruct (hash_find key (d, g) mgr) as [el|] eqn:Hf; simpl.
  - pose proof (hash_find_Some key _ _ _ Hf) as [Hel Hk]. unfold NEU_GROUP_NAME_LEN.
    rewrite cstr_trunc_short by done. unfold in_table, hash_add. setoid_rewrite elem_of_app.
    setoid_rewrite list_elem_of_singleton. setoid_rewrite elem_of_hash_del; [|done].
    assert (Hkd : key_driver el = d) by (unfold key_driver; by rewrite Hk). rewrite Hkd. split.
    + intros (el' & sub & [[Hel' Hne]| ->] & Hsub & ->).
      * exists (row_of_sub el' sub). split; [by exists el', sub|]. by rewrite decide_False by by rewrite Hrow.
      * exists (row_of_sub el sub). split; [by exists el, sub|]. rewrite decide_True by by rewrite Hrow.
        unfold row_of_sub. simpl. by rewrite Hkd.
    + intros (r0 & (el' & sub & Hel' & Hsub & ->) & ->). rewrite Hrow.
      destruct (decide (key el' = (d, g))) as [E|E].
      * assert (el' = el) as -> by (apply (table_ok_inj key mgr); [done..|congruence]).
        eexists _, sub. split; [by right|]. split; [done|]. rewrite decide_True by done.
        unfold row_of_sub. simpl. by rewrite Hkd.
      * exists el', sub. split; [by left|]. split; [done|]. by rewrite decide_False.
  - apply hash_find_None in Hf. assert (Hne : ∀ r0, in_table mgr r0 → sub_parent r0 ≠ (d, g)).
    { intros r0 (el & sub & Hel & _ & ->) Hp. apply Hf. rewrite <-Hp, Hrow. by apply list_elem_of_fmap_2. }
    split; [intros Hr; exists r; rewrite decide_False by auto; by destruct r|].
    intros (r0 & Hr0 & ->). rewrite decide_False by auto. by destruct r0.
Qed.

Lemma rename_app_rows mgr app new :
  short new →
  ∀ r, in_table (neu_subscribe_manager_update_app_name mgr app new) r ↔
    ∃ r0, in_table mgr r0 ∧
      r = sub_row_of (sr_driver r0) (sr_group r0) (rename_to app new (sr_app r0)) (sr_params r0)
            (sr_static_tags r0).
Proof.
  intros Hs r. unfold neu_subscribe_manager_update_app_name, in_table.
  assert (Hrow : ∀ el el' sub, key el' = key el →
    row_of_sub el' (if is_app app sub then rename_app new sub else sub) =
    sub_row_of (key_driver el) (key_group el) (rename_to app new (app_name sub)) (app_params sub)
      (app_static_tags sub)).
  { intros el el' sub Hk. unfold row_of_sub, key_driver, key_group, is_app, rename_to. rewrite Hk.
    case_bool_decide as E; [rewrite decide_True by done|by rewrite decide_False].
    simpl. unfold NEU_NODE_NAME_LEN. by rewrite cstr_trunc_short. }
  split.
  - intros (el' & sub & (el & -> & Hel)%list_elem_of_fmap & (s & -> & Hsub)%list_elem_of_fmap & ->).
    exists (row_of_sub el s). split; [by exists el, s|]. by apply Hrow.
  - intros (r0 & (el & sub & Hel & Hsub & ->) & ->). eexists _, _.
    split; [by apply list_elem_of_fmap_2|]. split; [by apply list_elem_of_fmap_2|].
    symmetry. by apply Hrow.
Qed.
