(* ===== verification/Manager.v ===== *)
(** * The core manager

    src/core/manager_internal.c, the requests of [manager_loop] in
    src/core/manager.c and src/core/storage.c: the manager owns the table of
    nodes and the table of subscriptions, creates and deletes adapters, passes
    requests on to them and keeps the rows of nodes and subscriptions in the
    database.

    The adapters are in a heap of objects behind the pointers of the node table.
    A request that an adapter has to serve goes out as a message and comes back as
    a response; each half is a definition of its own.  [None] is undefined
    behaviour or a failed assertion.  Plugins are parameters: the registry with
    what [dlopen] gives for each of them, and their functions by plugin name.  The
    answers to the clients, the events for the monitor, the built-in dashboard and
    the nodes of single plugins are left out. *)

From S2P Require Import Prelude UtHash NeuTypes CHeap DriverCache Tag Group Driver NodeManager Subscribe Persist Adapter.

Definition NEU_ERR_NODE_EXIST : Z := 2002.
Definition NEU_ERR_NODE_NOT_ALLOW_DELETE : Z := 2011.
Definition NEU_ERR_NODE_NOT_ALLOW_SUBSCRIBE : Z := 2012.
Definition NEU_ERR_LIBRARY_NOT_FOUND : Z := 2301.
Definition NEU_ERR_LIBRARY_NOT_ALLOW_CREATE_INSTANCE : Z := 2307.
Definition NEU_ERR_MQTT_SUBSCRIBE_FAILURE : Z := 4010.

Definition type_code (t : neu_node_type_e) : Z :=
  match t with NEU_NA_TYPE_DRIVER => 1 | NEU_NA_TYPE_APP => 2 end.

(** ** State *)

(** An entry of the plugin registry; [pe_open] is the instance that the library
    gives, [None] when it is in none of the three directories. *)
Record plugin_entity_t (P : Type) := {
  pe_name : string;
  pe_single : bool;
  pe_type : neu_node_type_e;
  pe_open : option P;
}.
Arguments pe_name {P}.
Arguments pe_single {P}.
Arguments pe_type {P}.
Arguments pe_open {P}.

Record node_obj (P : Type) := { o_module : string; o_adapter : neu_adapter_t P }.
Arguments o_module {P}.
Arguments o_adapter {P}.
Arguments Build_node_obj {P}.

(** [m_inits] holds the [NEU_REQ_NODE_INIT] messages the new adapters have sent. *)
Record neu_manager_t (P : Type) := {
  m_nodes : neu_node_manager_t;
  m_subs : neu_subscribe_mgr_t;
  m_heap : gmap Z (node_obj P);
  m_next : Z;
  m_inits : list (string * Z);
}.
Arguments m_nodes {P}.
Arguments m_subs {P}.
Arguments m_heap {P}.
Arguments m_next {P}.
Arguments m_inits {P}.

Definition manager_empty {P} : neu_manager_t P :=
  {| m_nodes := neu_node_manager_create; m_subs := neu_subscribe_manager_create; m_heap := ∅;
     m_next := 1; m_inits := [] |}.

Definition with_m_nodes {P} (x : neu_node_manager_t) (m : neu_manager_t P) : neu_manager_t P :=
  {| m_nodes := x; m_subs := m_subs m; m_heap := m_heap m; m_next := m_next m;
     m_inits := m_inits m |}.
Definition with_m_subs {P} (x : neu_subscribe_mgr_t) (m : neu_manager_t P) : neu_manager_t P :=
  {| m_nodes := m_nodes m; m_subs := x; m_heap := m_heap m; m_next := m_next m;
     m_inits := m_inits m |}.
Definition with_m_heap {P} (x : gmap Z (node_obj P)) (m : neu_manager_t P) : neu_manager_t P :=
  {| m_nodes := m_nodes m; m_subs := m_subs m; m_heap := x; m_next := m_next m;
     m_inits := m_inits m |}.
Definition with_m_inits {P} (x : list (string * Z)) (m : neu_manager_t P) : neu_manager_t P :=
  {| m_nodes := m_nodes m; m_subs := m_subs m; m_heap := m_heap m; m_next := m_next m;
     m_inits := x |}.

(** Writing through the pointer to an adapter. *)
Definition set_adapter {P} (p : Z) (a : neu_adapter_t P) (m : neu_manager_t P) : neu_manager_t P :=
  with_m_heap (alter (λ o, {| o_module := o_module o; o_adapter := a |}) p (m_heap m)) m.

(** Messages to a node that change it: the subscriptions of a group. *)
Inductive node_msg :=
  | MsgSubscribe (app group : string) (port : Z)
  | MsgUnsubscribe (app group : string).

Section Manager.
Context {P : Type} (intf : string → plugin_intf P) (ops : string → plugin_ops).
Context (plugins : list (plugin_entity_t P)).
Context (link : P → Z) (level : P → Z) (rtt : P → option Z).
Context (trans_data_port : Z → Z) (parse_topic : string → Z * option string) (ut_d : Z).
Context `{SQL : Sqlite} {J : Type} `{Jansson J}.

#[local] Abbreviation manager := (neu_manager_t P).

(** What the node manager reads of an adapter. *)
Definition view (heap : gmap Z (node_obj P)) (p : Z) : NodeManager.neu_adapter_t :=
  match heap !! p with
  | Some o =>
      let a := o_adapter o in
      {| adapter_name := a_name a; module_name := o_module o; module_type := type_code (a_type a);
         adapter_state := state_code (a_state a); link_state := link (a_plugin a);
         log_level := level (a_plugin a); last_rtt_ms := rtt (a_plugin a);
         group_names := g_name <$> d_groups (a_driver a) |}
  | None =>
      {| adapter_name := EmptyString; module_name := EmptyString; module_type := 0;
         adapter_state := 0; link_state := 0; log_level := 0; last_rtt_ms := None;
         group_names := [] |}
  end.

(** [forward_msg] and the node that gets the message: it is lost when the node is
    not there or has no address yet; an application hands it to its plugin. *)
Definition deliver (m : manager) (x : string * node_msg) : manager :=
  if sun_path_1 (neu_node_manager_get_addr (m_nodes m) x.1) =? 0 then m
  else match neu_node_manager_find (m_nodes m) x.1 with
  | None => m
  | Some p =>
      match m_heap m !! p with
      | None => m
      | Some o =>
          let a := o_adapter o in
          if is_driver a then
            let d := match x.2 with
                     | MsgSubscribe app group port =>
                         (neu_adapter_driver_subscribe (a_driver a) group app port).1
                     | MsgUnsubscribe app group =>
                         neu_adapter_driver_unsubscribe (a_driver a) group app
                     end in
            set_adapter p (with_driver d a) m
          else m
      end
  end.
Definition deliver_all (l : list (string * node_msg)) (m : manager) : manager := foldl deliver m l.

(** ** Nodes *)

Definition neu_plugin_manager_find (plugin : string) : option (plugin_entity_t P) :=
  hash_find pe_name plugin plugins.

(** The adapter is created before the node is in the table; its setting may be
    refused, and then it is taken out again. *)
Definition neu_manager_add_node (clock : Z) (m : manager) (db : database) (node plugin : string)
    (setting tags : option string) (state : Z) : option (Z * manager * database) :=
  match neu_plugin_manager_find plugin with
  | None => Some (NEU_ERR_LIBRARY_NOT_FOUND, m, db)
  | Some e =>
      if pe_single e then Some (NEU_ERR_LIBRARY_NOT_ALLOW_CREATE_INSTANCE, m, db)
      else match neu_node_manager_find (m_nodes m) node with
      | Some _ => Some (NEU_ERR_NODE_EXIST, m, db)
      | None =>
          p0 ← pe_open e;
          '(oa, db) ← neu_adapter_create (intf plugin) (ops plugin) clock node (pe_type e) p0 db;
          match oa with
          | None => Some ((intf_init (intf plugin) p0).1, m, db)
          | Some a =>
              let ptr := m_next m in
              let heap := <[ptr := {| o_module := plugin; o_adapter := a |}]> (m_heap m) in
              let ns := (neu_node_manager_add (view heap) (m_nodes m) ptr ptr tags).2 in
              let m1 := {| m_nodes := ns; m_subs := m_subs m; m_heap := heap; m_next := ptr + 1;
                           m_inits := m_inits m ++ [(node, state)] |} in
              match setting with
              | None => Some (NEU_ERR_SUCCESS, m1, db)
              | Some s =>
                  let '(ret, a, db) := neu_adapter_set_setting (intf plugin) a s db in
                  if negb (ret =? 0) then
                    Some (ret, with_m_nodes (neu_node_manager_del ut_d ns node)
                                 (with_m_heap (delete ptr heap) m1), db)
                  else Some (NEU_ERR_SUCCESS, set_adapter ptr a m1, db)
              end
          end
      end
  end.

(** [neu_manager_get_node_info] and the statement. *)
Definition manager_storage_add_node (m : manager) (db : database) (node : string)
    (tags : option string) : database :=
  match neu_node_manager_find (m_nodes m) node with
  | None => db
  | Some p =>
      match m_heap m !! p with
      | None => db
      | Some o =>
          (neu_sqlite_persister_store_node db
             {| nr_name := node; nr_type := type_code (a_type (o_adapter o));
                nr_state := state_code (a_state (o_adapter o)); nr_plugin_name := o_module o;
                nr_tags := tags |}).2
      end
  end.

(** [NEU_REQ_ADD_NODE] *)
Definition handle_add_node (clock : Z) (m : manager) (db : database) (node plugin : string)
    (setting tags : option string) : option (Z * manager * database) :=
  '(error, m, db) ← neu_manager_add_node clock m db node plugin setting tags
                      (state_code NEU_NODE_RUNNING_STATE_INIT);
  if error =? NEU_ERR_SUCCESS then
    let db := manager_storage_add_node m db node tags in
    let db := match setting with Some s => adapter_storage_setting node s db | None => db end in
    Some (error, m, db)
  else Some (error, m, db).

(** [NEU_REQ_NODE_INIT]: a node that was stopped is started and stopped. *)
Definition handle_node_init (m : manager) (db : database) (node : string) (src : sockaddr_un)
    (state : Z) : option (manager * database) :=
  let '(rv, ns) := neu_node_manager_update (m_nodes m) node src in
  if negb (rv =? 0) then Some (m, db)
  else
    let m := with_m_nodes ns m in
    if (state =? 2) || (state =? 3) || (state =? 4) then
      p ← neu_node_manager_find (m_nodes m) node;
      o ← m_heap m !! p;
      let '(_, a, db) := neu_adapter_start (intf (o_module o)) (o_adapter o) db in
      let '(_, a, db) := if state =? 4 then neu_adapter_stop (intf (o_module o)) a db
                         else (0, a, db) in
      Some (set_adapter p a m, db)
    else Some (m, db).

(** [NEU_REQ_UPDATE_NODE_TAG] *)
Definition handle_update_node_tag (m : manager) (db : database) (node tags : string)
    : Z * manager * database :=
  let '(ret, ns) := neu_node_manager_update_tags (m_nodes m) node tags in
  if ret =? 0
  then (NEU_ERR_SUCCESS, with_m_nodes ns m,
        (neu_sqlite_persister_update_node_tags db node (Some tags)).2)
  else (NEU_ERR_NODE_NOT_EXIST, m, db).

(** *** Renaming *)

(** [NEU_REQ_UPDATE_NODE]: 0 when the request goes on to the node. *)
Definition handle_update_node (m : manager) (node new_name : string) : Z :=
  if neu_node_manager_find (m_nodes m) node is None then NEU_ERR_NODE_NOT_EXIST
  else if neu_node_manager_find (m_nodes m) new_name is Some _ then NEU_ERR_NODE_EXIST
  else 0.

Definition neu_manager_update_node_name (m : manager) (node new_name : string)
    : option (Z * manager) :=
  subs ← (if neu_node_manager_is_driver (view (m_heap m)) (m_nodes m) node
          then neu_subscribe_manager_update_driver_name (m_subs m) node new_name
          else Some (neu_subscribe_manager_update_app_name (m_subs m) node new_name));
  let '(ret, ns) := neu_node_manager_update_name (m_nodes m) node new_name in
  Some (ret, with_m_nodes ns (with_m_subs subs m)).

(** [NEU_RESP_NODE_RENAME] *)
Definition handle_node_rename_resp (m : manager) (db : database) (error : Z)
    (node new_name : string) : option (manager * database) :=
  if error =? 0 then
    '(_, m) ← neu_manager_update_node_name m node new_name;
    Some (m, (neu_sqlite_persister_update_node db node new_name).2)
  else Some (m, db).

(** *** Deleting *)

(** [NEU_REQ_DEL_NODE]: the answer, or the messages to the drivers and then the
    request to the node to shut down. *)
Definition handle_del_node (m : manager) (db : database) (node : string)
    : option (Z * manager * database * list (string * node_msg)) :=
  match neu_node_manager_find (m_nodes m) node with
  | None => Some (NEU_ERR_NODE_NOT_EXIST, m, db, [])
  | Some p =>
      if neu_node_manager_is_single (m_nodes m) node
      then Some (NEU_ERR_NODE_NOT_ALLOW_DELETE, m, db, [])
      else
        o ← m_heap m !! p;
        let db := (neu_sqlite_persister_delete_node db node).2 in
        if is_driver (o_adapter o) then Some (0, m, db, [])
        else
          let subscriptions := neu_subscribe_manager_get (m_subs m) node None None in
          Some (0, with_m_subs (neu_subscribe_manager_unsub_all (m_subs m) node) m, db,
                (λ sub, (info_driver sub, MsgUnsubscribe node (info_group sub)))
                  <$> subscriptions)
  end.

(** [NEU_RESP_NODE_UNINIT] *)
Definition neu_manager_del_node (m : manager) (node : string) : Z * manager :=
  match neu_node_manager_find (m_nodes m) node with
  | None => (NEU_ERR_NODE_NOT_EXIST, m)
  | Some p =>
      (NEU_ERR_SUCCESS,
       {| m_nodes := neu_node_manager_del ut_d (m_nodes m) node;
          m_subs := neu_subscribe_manager_remove (m_subs m) node None;
          m_heap := delete p (m_heap m); m_next := m_next m; m_inits := m_inits m |})
  end.

(** ** Groups *)

(** [NEU_REQ_UPDATE_GROUP]: 0 when the request goes on to the driver. *)
Definition handle_update_group_req (m : manager) (driver : string) : Z :=
  if neu_node_manager_find (m_nodes m) driver is None then NEU_ERR_NODE_NOT_EXIST
  else if neu_node_manager_is_driver (view (m_heap m)) (m_nodes m) driver then 0
  else NEU_ERR_GROUP_NOT_ALLOW.

(** [NEU_RESP_UPDATE_DRIVER_GROUP] *)
Definition handle_update_group_resp (m : manager) (error : Z) (driver group new_name : string)
    : manager :=
  if error =? 0 then
    with_m_subs (neu_subscribe_manager_update_group_name (m_subs m) driver group new_name).2 m
  else m.

(** [NEU_REQ_DEL_GROUP]; the request goes on to the driver. *)
Definition handle_del_group_req (m : manager) (driver group : string) : Z * manager :=
  if neu_node_manager_find (m_nodes m) driver is None then (NEU_ERR_NODE_NOT_EXIST, m)
  else (0, with_m_subs (neu_subscribe_manager_remove (m_subs m) driver (Some group)) m).

(** ** Subscriptions *)

(** The node called [driver] is cast to a driver whatever it is. *)
Definition manager_subscribe (m : manager) (app driver group : string)
    (params static_tags : option string) : option (Z * manager) :=
  match neu_node_manager_find (m_nodes m) driver with
  | None => Some (NEU_ERR_NODE_NOT_EXIST, m)
  | Some p =>
      o ← m_heap m !! p;
      if is_driver (o_adapter o) then
        let ret := neu_adapter_driver_group_exist (a_driver (o_adapter o)) group in
        if negb (ret =? NEU_ERR_SUCCESS) then Some (ret, m)
        else
          let addr := neu_node_manager_get_addr (m_nodes m) app in
          let '(ret, subs) := neu_subscribe_manager_sub (m_subs m) driver app group params
                                static_tags (sun_id addr) in
          Some (ret, with_m_subs subs m)
      else None
  end.

(** [neu_parse_param] of the topic gives an error or the topic; a missing topic is
    accepted. *)
Definition topic_refused (module : string) (params : option string) : bool :=
  match params with
  | Some s =>
      bool_decide (module = "MQTT"%string) &&
      let '(ret, topic) := parse_topic s in
      negb (ret =? 0) || bool_decide (topic = Some EmptyString)
  | None => false
  end.

(** The answer, the port of the application and the manager. *)
Definition neu_manager_subscribe (m : manager) (app driver group : string)
    (params static_tags : option string) : option (Z * Z * manager) :=
  if neu_node_manager_is_monitor (m_nodes m) app
  then Some (NEU_ERR_NODE_NOT_ALLOW_SUBSCRIBE, 0, m)
  else match neu_node_manager_find (m_nodes m) app with
  | None => Some (NEU_ERR_NODE_NOT_EXIST, 0, m)
  | Some p =>
      o ← m_heap m !! p;
      let port := trans_data_port p in
      if topic_refused (o_module o) params then Some (NEU_ERR_MQTT_SUBSCRIBE_FAILURE, port, m)
      else if is_driver (o_adapter o) then Some (NEU_ERR_NODE_NOT_ALLOW_SUBSCRIBE, port, m)
      else
        '(ret, m) ← manager_subscribe m app driver group params static_tags;
        Some (ret, port, m)
  end.

Definition manager_storage_subscribe (db : database) (app driver group : string)
    (params static_tags : option string) : database :=
  (neu_sqlite_persister_store_subscription db
     {| sr_app := app; sr_driver := driver; sr_group := group; sr_params := params;
        sr_static_tags := static_tags |}).2.

(** [NEU_REQ_SUBSCRIBE_GROUP] *)
Definition handle_subscribe_group (m : manager) (db : database) (app driver group : string)
    (params static_tags : option string)
    : option (Z * manager * database * list (string * node_msg)) :=
  '(error, port, m) ← neu_manager_subscribe m app driver group params static_tags;
  if error =? NEU_ERR_SUCCESS then
    Some (error, m, manager_storage_subscribe db app driver group params static_tags,
          [(app, MsgSubscribe app group port); (driver, MsgSubscribe app group port)])
  else Some (error, m, db, []).

Record neu_req_subscribe_group_info_t := {
  sg_driver : string;
  sg_group : string;
  sg_params : option string;
  sg_static_tags : option string;
}.

(** [NEU_REQ_SUBSCRIBE_GROUPS]: the loop ends at the first group that fails, what
    was subscribed before stays. *)
Fixpoint handle_subscribe_groups (m : manager) (db : database) (app : string)
    (l : list neu_req_subscribe_group_info_t)
    : option (Z * manager * database * list (string * node_msg)) :=
  match l with
  | [] => Some (0, m, db, [])
  | i :: l' =>
      '(error, m, db, msgs) ← handle_subscribe_group m db app (sg_driver i) (sg_group i)
                                (sg_params i) (sg_static_tags i);
      if negb (error =? 0) then Some (error, m, db, [])
      else
        '(error, m, db, msgs') ← handle_subscribe_groups m db app l';
        Some (error, m, db, msgs ++ msgs')
  end.

(** [NEU_REQ_UPDATE_SUBSCRIBE_GROUP] *)
Definition handle_update_subscribe (m : manager) (db : database) (app driver group : string)
    (params static_tags : option string) : Z * manager * database :=
  let '(error, subs) :=
    neu_subscribe_manager_update_params (m_subs m) app driver group params static_tags in
  if error =? NEU_ERR_SUCCESS then
    (error, with_m_subs subs m,
     (neu_sqlite_persister_update_subscription db
        {| sr_app := app; sr_driver := driver; sr_group := group; sr_params := params;
           sr_static_tags := static_tags |}).2)
  else (error, m, db).

(** [NEU_REQ_UNSUBSCRIBE_GROUP] *)
Definition handle_unsubscribe_group (m : manager) (db : database) (app driver group : string)
    : Z * manager * database * list (string * node_msg) :=
  let '(error, subs) := neu_subscribe_manager_unsub (m_subs m) driver app group in
  if error =? NEU_ERR_SUCCESS then
    (error, with_m_subs subs m, (neu_sqlite_persister_delete_subscription db app driver group).2,
     [(app, MsgUnsubscribe app group); (driver, MsgUnsubscribe app group)])
  else (error, m, db, []).

(** *** Queries *)

Record neu_resp_driver_subscribe_info_t := {
  ds_app : string; ds_driver : string; ds_group : string; ds_subscribed : bool;
}.

(** The groups of all drivers, in the order of the tables. *)
Definition neu_manager_get_driver_group (m : manager) : list (string * neu_resp_group_info_t) :=
  drivers ← neu_node_manager_get (view (m_heap m)) (m_nodes m) NodeManager.NEU_NA_TYPE_DRIVER;
  match neu_node_manager_find (m_nodes m) (info_node drivers) with
  | Some p =>
      match m_heap m !! p with
      | Some o => (λ g, (info_node drivers, g)) <$>
                  neu_adapter_driver_get_group (a_driver (o_adapter o)) EmptyString
      | None => []
      end
  | None => []
  end.

(** With a name, the groups whose driver or own name contains it. *)
Definition neu_manager_get_driver_groups (m : manager) (app name : string)
    : list neu_resp_driver_subscribe_info_t :=
  let subs := neu_subscribe_manager_get (m_subs m) app None None in
  '(driver, g) ← neu_manager_get_driver_group m;
  let group := gi_name g in
  if ((String.length name =? 0)%nat || strstr driver name || strstr group name)
     && (0 <? String.length driver)%nat && (0 <? String.length group)%nat
  then [{| ds_app := app; ds_driver := driver; ds_group := group;
           ds_subscribed := existsb (λ sub, bool_decide (info_driver sub = driver) &&
                                            bool_decide (info_group sub = group)) subs |}]
  else [].

(** ** Start-up *)

(** Errors of single nodes are logged. *)
Fixpoint manager_load_node (clock : Z) (m : manager) (db : database) (rows : list node_row)
    : option (manager * database) :=
  match rows with
  | [] => Some (m, db)
  | r :: rows' =>
      '(_, m, db) ← neu_manager_add_node clock m db (nr_name r) (nr_plugin_name r) None (nr_tags r)
                      (nr_state r);
      manager_load_node clock m db rows'
  end.

(** The messages of the new adapters, with the addresses they come from. *)
Fixpoint init_nodes (src : string → sockaddr_un) (m : manager) (db : database)
    (inits : list (string * Z)) : option (manager * database) :=
  match inits with
  | [] => Some (with_m_inits [] m, db)
  | (node, state) :: inits' =>
      '(m, db) ← handle_node_init m db node (src node) state;
      init_nodes src m db inits'
  end.

(** The subscriptions of one application. *)
Fixpoint load_subscriptions (m : manager) (app : string) (rows : list sub_row) : option manager :=
  match rows with
  | [] => Some m
  | r :: rows' =>
      '(rv, port, m) ← neu_manager_subscribe m app (sr_driver r) (sr_group r) (sr_params r)
                         (sr_static_tags r);
      let m := if rv =? 0
               then deliver_all [(app, MsgSubscribe app (sr_group r) port);
                                 (sr_driver r, MsgSubscribe app (sr_group r) port)] m
               else m in
      load_subscriptions m app rows'
  end.

Fixpoint load_app_subscriptions (m : manager) (db : database)
    (apps : list NodeManager.neu_resp_node_info_t) : option manager :=
  match apps with
  | [] => Some m
  | i :: apps' =>
      m ← load_subscriptions m (info_node i)
            (neu_sqlite_persister_load_subscriptions db (info_node i));
      load_app_subscriptions m db apps'
  end.

Definition manager_load_subscribe (m : manager) (db : database) : option manager :=
  load_app_subscriptions m db
    (neu_node_manager_get (view (m_heap m)) (m_nodes m) NodeManager.NEU_NA_TYPE_APP).

(** [neu_manager_create], which waits until every adapter has sent its message. *)
Definition neu_manager_create (clock : Z) (src : string → sockaddr_un) (db : database)
    : option (manager * database) :=
  '(m, db) ← manager_load_node clock manager_empty db (neu_sqlite_persister_load_nodes db);
  '(m, db) ← init_nodes src m db (m_inits m);
  m ← manager_load_subscribe m db;
  Some (m, db).
End Manager.
