(* ===== verification/ManagerOk.v ===== *)
(** * The manager, the adapters and the database agree

    [system_ok]: the nodes of the manager are the rows of the database, every node
    has its configuration there, the subscriptions of the manager are the rows of
    the database, and they lead from applications to groups that exist.  Every
    request that has been handled completely keeps it. *)

From S2P Require Import Prelude UtHash NeuTypes CHeap DriverCache Tag Group Driver NodeManager Subscribe Persist Adapter AdapterConfig AdapterStored AdapterGtag AdapterOk AdapterRestart AdapterFrame SubscribeRows Manager.

Section System.
Context {P : Type} (intf : string → plugin_intf P) (ops : string → plugin_ops).
Context (plugins : list (plugin_entity_t P)).
Context (link : P → Z) (level : P → Z) (rtt : P → option Z).
Context (trans_data_port : Z → Z) (parse_topic : string → Z * option string) (ut_d : Z).
Context `{SQL : Sqlite} `{!SqliteOk SQL} {J : Type} `{Jansson J}.
Context (Hops : ∀ s, plugin_keeps (ops s)).

#[local] Abbreviation manager := (neu_manager_t P).

(** A node of the table and the object behind its pointer. *)
Definition node_at (m : manager) (n : node_entity_t) (o : node_obj P) : Prop :=
  n ∈ nodes (m_nodes m) ∧ m_heap m !! adapter n = Some o.

Definition ident_of (n : node_entity_t) (o : node_obj P) : string * Z * string * option string :=
  (name n, type_code (a_type (o_adapter o)), o_module o, node_tags n).

(** The nodes of the table are in the database. *)
Record nodes_loaded (m : manager) (db : database) : Prop := {
  ns_names : table_ok name (nodes (m_nodes m));
  ns_ptrs : table_ok adapter (nodes (m_nodes m));
  ns_plain : ∀ n, n ∈ nodes (m_nodes m) →
    is_static n = false ∧ display n = true ∧ single n = false ∧ short (name n);
  ns_heap : ∀ n, n ∈ nodes (m_nodes m) → ∃ o, m_heap m !! adapter n = Some o;
  ns_next : ∀ p, is_Some (m_heap m !! p) → p < m_next m;
  ns_node : ∀ n o, node_at m n o → a_name (o_adapter o) = name n ∧ durable (o_adapter o) db ∧
    ident_of n o ∈ node_ident <$> db_nodes db;
  ns_plugin : ∀ n o, node_at m n o → ∃ e, neu_plugin_manager_find plugins (o_module o) = Some e ∧
    pe_single e = false ∧ pe_type e = a_type (o_adapter o) ∧
    is_monitor n = bool_decide (o_module o = "Monitor"%string);
  ns_db : db_ok db;
  ns_faithful : rows_faithful db;
}.

(** And the nodes of the database are in the table. *)
Record nodes_stored (m : manager) (db : database) : Prop := {
  ns_loaded :> nodes_loaded m db;
  ns_rows : ∀ r, r ∈ db_nodes db → nr_name r ∈ name <$> nodes (m_nodes m);
}.

Record subs_stored (subs : neu_subscribe_mgr_t) (db : database) : Prop := {
  ss_ok : mgr_ok subs;
  ss_rows : ∀ r, in_table subs r ↔ r ∈ db_subs db;
  ss_keys : ∀ el, el ∈ subs → key el ∈ group_row_key <$> db_groups db;
  ss_apps : ∀ r x, r ∈ db_subs db → x ∈ db_nodes db → nr_name x = sr_app r →
    nr_type x = 2 ∧ nr_plugin_name x ≠ "Monitor"%string;
}.

Record system_ok (m : manager) (db : database) : Prop := {
  so_nodes : nodes_stored m db;
  so_subs : subs_stored (m_subs m) db;
}.

(** ** Looking things up *)

Lemma find_node (m : manager) nm p :
  neu_node_manager_find (m_nodes m) nm = Some p →
  ∃ n, n ∈ nodes (m_nodes m) ∧ name n = nm ∧ adapter n = p.
Proof.
  unfold neu_node_manager_find. intros (n & Hf & ->)%fmap_Some.
  apply hash_find_Some in Hf as [Hn Hk]. by exists n.
Qed.

Lemma find_node_at (m : manager) db nm p :
  nodes_stored m db → neu_node_manager_find (m_nodes m) nm = Some p →
  ∃ n o, node_at m n o ∧ name n = nm ∧ adapter n = p ∧ m_heap m !! p = Some o.
Proof.
  intros Hs (n & Hn & Hk & <-)%find_node. destruct (ns_heap m db Hs n Hn) as [o Ho].
  by exists n, o.
Qed.

Lemma find_node_None (m : manager) nm :
  neu_node_manager_find (m_nodes m) nm = None ↔ nm ∉ name <$> nodes (m_nodes m).
Proof.
  unfold neu_node_manager_find. rewrite fmap_None. apply hash_find_None.
Qed.

Lemma find_node_Some (m : manager) db n :
  nodes_stored m db → n ∈ nodes (m_nodes m) →
  neu_node_manager_find (m_nodes m) (name n) = Some (adapter n).
Proof.
  intros Hs Hn. unfold neu_node_manager_find. by rewrite (hash_find_elem name) by (done || apply Hs).
Qed.

Lemma node_at_name_inj (m : manager) db n o n' o' :
  nodes_stored m db → node_at m n o → node_at m n' o' → name n = name n' → n = n' ∧ o = o'.
Proof.
  intros Hs [Hn Ho] [Hn' Ho'] Hk.
  assert (n = n') as <- by (by apply (table_ok_inj name (nodes (m_nodes m))); [apply Hs|..]).
  rewrite Ho in Ho'. by injection Ho' as <-.
Qed.

(** The row of a node; there is one of that name. *)
Lemma node_row_of (m : manager) db n o r :
  nodes_stored m db → node_at m n o → r ∈ db_nodes db → nr_name r = name n →
  node_ident r = ident_of n o.
Proof.
  intros Hs Hn Hr Hk. destruct (ns_node m db Hs n o Hn) as (_ & _ & Hi).
  apply list_elem_of_fmap in Hi as (r' & Hi & Hr'). rewrite Hi. f_equal.
  apply (table_ok_inj nr_name (db_nodes db)); [apply (ns_db m db Hs)|done..|].
  rewrite Hk. by injection Hi.
Qed.

(** The groups of the database belong to drivers. *)
Lemma group_driver (m : manager) db n o g :
  nodes_stored m db → node_at m n o → (name n, g) ∈ group_row_key <$> db_groups db →
  is_driver (o_adapter o) = true ∧ is_Some (mem_interval (a_driver (o_adapter o)) g).
Proof.
  intros Hs Hn Hg. destruct (ns_node m db Hs n o Hn) as (Hname & Hd & _).
  assert (Hi : is_Some (db_interval (a_name (o_adapter o)) db g)).
  { unfold db_interval. rewrite Hname. destruct (hash_find group_row_key _ _) eqn:E; [by eexists|].
    by apply hash_find_None in E. }
  split.
  - destruct (is_driver (o_adapter o)) eqn:E; [done|]. exfalso.
    rewrite (durable_app _ _ _ Hd) in Hi; [by destruct Hi|]. unfold is_driver in E.
    by destruct (a_type (o_adapter o)).
  - by rewrite (sc_intervals _ _ _ (dur_config _ _ _ Hd)).
Qed.

Lemma group_in_db (m : manager) db n o g :
  nodes_stored m db → node_at m n o → is_Some (mem_interval (a_driver (o_adapter o)) g) →
  (name n, g) ∈ group_row_key <$> db_groups db.
Proof.
  intros Hs Hn Hi. destruct (ns_node m db Hs n o Hn) as (Hname & Hd & _).
  rewrite (sc_intervals _ _ _ (dur_config _ _ _ Hd)), Hname in Hi. unfold db_interval in Hi.
  destruct (hash_find group_row_key (name n, g) (db_groups db)) eqn:E; [|by destruct Hi].
  apply hash_find_Some in E as [Hin <-]. by apply list_elem_of_fmap_2.
Qed.

Lemma row_node_of (m : manager) db nm :
  nodes_stored m db → nm ∈ nr_name <$> db_nodes db → ∃ n o, node_at m n o ∧ name n = nm.
Proof.
  intros Hs (r & -> & Hr)%list_elem_of_fmap. apply (ns_rows _ _ Hs) in Hr.
  apply list_elem_of_fmap in Hr as (n & -> & Hn). destruct (ns_heap _ _ Hs n Hn) as [o Ho].
  by exists n, o.
Qed.

Lemma node_in_rows (m : manager) db nm :
  nodes_stored m db →
  is_Some (neu_node_manager_find (m_nodes m) nm) ↔ nm ∈ nr_name <$> db_nodes db.
Proof.
  intros Hs. split.
  - intros [p (n & o & Hn & <- & _)%(find_node_at m db)]; [|done].
    destruct (ns_node _ _ Hs n o Hn) as (<- & Hd & _). apply (dur_config _ _ _ Hd).
  - intros (n & o & Hn & <-)%(row_node_of m db); [|done].
    rewrite (find_node_Some m db n Hs (proj1 Hn)). by eexists.
Qed.

(** What the database says of a node. *)
Lemma node_facts (m : manager) db n o :
  nodes_stored m db → node_at m n o →
  let a := o_adapter o in
  a_name a = name n ∧ ident_of n o ∈ node_ident <$> db_nodes db ∧
  (∀ g, mem_interval (a_driver a) g = db_interval (name n) db g) ∧
  (∀ g t, mem_tag (a_driver a) g t = db_tag (name n) db g t) ∧
  a_setting a = adapter_load_setting (name n) db ∧
  (∀ r, r ∈ db_nodes db → nr_name r = name n →
     nr_state r = state_code NEU_NODE_RUNNING_STATE_RUNNING ↔
     a_state a = NEU_NODE_RUNNING_STATE_RUNNING).
Proof.
  intros Hs Hn. destruct (ns_node _ _ Hs n o Hn) as (<- & [_ Hc Hset Hrun] & Hi).
  split_and!; try done; [apply (sc_intervals _ _ _ Hc)|apply (sc_tags _ _ _ Hc)].
Qed.

Lemma idents_names (l l' : list node_row) :
  node_ident <$> l' = node_ident <$> l → nr_name <$> l' = nr_name <$> l.
Proof.
  intros E. assert (Hf : ∀ l : list node_row, nr_name <$> l = (λ i, i.1.1.1) <$> (node_ident <$> l))
    by (intros k; by rewrite <-list_fmap_compose).
  by rewrite !Hf, E.
Qed.

(** ** A node that changes *)

Lemma node_at_set (m : manager) db n o a n' o' :
  nodes_stored m db → node_at m n o → node_at (set_adapter (adapter n) a m) n' o' →
  n' = n ∧ o' = {| o_module := o_module o; o_adapter := a |} ∨
  name n' ≠ name n ∧ node_at m n' o'.
Proof.
  intros Hs [Hn Ho] [Hn' Ho']. unfold set_adapter in Ho'. simpl in *.
  destruct (decide (adapter n' = adapter n)) as [E|Hne].
  - assert (n' = n) as -> by (by apply (table_ok_inj adapter (nodes (m_nodes m))); [apply Hs|..]).
    left. rewrite lookup_alter_eq, Ho in Ho'. by injection Ho' as <-.
  - right. rewrite lookup_alter_ne in Ho' by done. split; [|done]. intros E. apply Hne.
    by rewrite (table_ok_inj name (nodes (m_nodes m)) n' n); [|apply Hs|..].
Qed.

Lemma nodes_adapter (m : manager) db n o a db' mv :
  nodes_stored m db → node_at m n o → a_name a = name n → a_type a = a_type (o_adapter o) →
  about mv (name n) db db' → durable a db' →
  nodes_stored (set_adapter (adapter n) a m) db'.
Proof.
  intros Hs Hn Hname Hty [Hel Hid _ _] Hd.
  pose proof (sc_db _ _ _ (dur_config _ _ _ Hd)) as Hdb.
  pose proof (sc_rows _ _ _ (dur_config _ _ _ Hd)) as Hf.
  pose proof (λ n' o', node_at_set m db n o a n' o' Hs Hn) as Hcase.
  destruct Hs as [[Hnames Hptrs Hplain Hheap Hnext Hnode Hplug _ _] Hrows].
  split; [split; try done|].
  - intros n' Hn'. unfold set_adapter. simpl. destruct (Hheap n' Hn') as [o' Ho'].
    destruct (decide (adapter n' = adapter n)) as [E|E].
    + rewrite E, lookup_alter_eq. rewrite <-E, Ho'. by eexists.
    + rewrite lookup_alter_ne by done. eauto.
  - intros p. unfold set_adapter. simpl. destruct (decide (p = adapter n)) as [->|E].
    + rewrite lookup_alter_eq. intros _. apply Hnext. destruct Hn as [_ Ho]. eauto.
    + rewrite lookup_alter_ne by done. apply Hnext.
  - intros n' o' [[-> ->]|[Hne Hn']]%Hcase.
    + split_and!; [done|done|]. rewrite Hid. unfold ident_of. simpl. rewrite Hty. by apply Hnode.
    + destruct (Hnode n' o' Hn') as (Hname' & Hd' & Hi'). split_and!; [done| |by rewrite Hid].
      eapply (durable_elsewhere (λ x, x ≠ name n)); [done| |done..]. by rewrite Hname'.
  - intros n' o' [[-> ->]|[Hne Hn']]%Hcase; [|by apply (Hplug n')].
    destruct (Hplug n o Hn) as (e & He & Hsing & Hty'). exists e. simpl. by rewrite Hty.
  - intros r Hr. assert (Hin : nr_name r ∈ nr_name <$> db_nodes db).
    { rewrite <-(idents_names _ _ Hid). by apply list_elem_of_fmap_2. }
    apply list_elem_of_fmap in Hin as (r0 & -> & Hr0). by apply Hrows.
Qed.

Lemma subs_about subs db db' node :
  subs_stored subs db → about false node db db' → subs_stored subs db'.
Proof.
  intros [Hok Hrows Hkeys Happs] [_ Hid Hs Hg]. specialize (Hs eq_refl). specialize (Hg eq_refl).
  split; try done.
  - intros r. by rewrite Hs.
  - intros el Hel. auto.
  - intros r x. rewrite Hs. intros Hr Hx Hk.
    assert (Hin : node_ident x ∈ node_ident <$> db_nodes db)
      by (rewrite <-Hid; by apply list_elem_of_fmap_2).
    apply list_elem_of_fmap in Hin as (x0 & [= E1 E2 E3 E4] & Hx0). rewrite E2, E3.
    apply (Happs r); congruence.
Qed.

(** A request that a node serves and that leaves its name. *)
Lemma nodes_served (m : manager) db n o req a' db' :
  nodes_stored m db → node_at m n o →
  served (intf (o_module o)) (ops (o_module o)) (o_adapter o) db req a' db' →
  request_ok (o_adapter o) db req → (∀ x, req ≠ ReqRename x) →
  nodes_stored (set_adapter (adapter n) a' m) db' ∧
  node_at (set_adapter (adapter n) a' m) n {| o_module := o_module o; o_adapter := a' |} ∧
  about (default false (moves req)) (name n) db db'.
Proof.
  intros Hs Hn Hsv Hok Hren. destruct (ns_node m db Hs n o Hn) as (Hname & Hd & _).
  destruct (served_about _ _ (Hops _) _ _ _ _ _ Hsv Hok (dur_config _ _ _ Hd) Hren)
    as (Ha & Hname' & Hty). rewrite Hname in Ha, Hname'. split_and!; [|..|done].
  - eapply nodes_adapter; [done|done|done|done|exact Ha|]. by eapply served_durable.
  - destruct Hn as [Hn Ho]. split; [done|]. unfold set_adapter. simpl.
    by rewrite lookup_alter_eq, Ho.
Qed.

(** It leaves the subscriptions alone, unless a group gets a new name or goes. *)
Lemma system_served (m : manager) db n o req a' db' :
  system_ok m db → node_at m n o →
  served (intf (o_module o)) (ops (o_module o)) (o_adapter o) db req a' db' →
  request_ok (o_adapter o) db req → (∀ x, req ≠ ReqRename x) → moves req ≠ Some true →
  system_ok (set_adapter (adapter n) a' m) db'.
Proof.
  intros [Hs Hsub] Hn Hsv Hok Hren Hm.
  destruct (nodes_served m db n o req a' db' Hs Hn Hsv Hok Hren) as (Hs' & _ & Ha).
  split; [done|]. eapply subs_about; [done|].
  assert (Hmf : default false (moves req) = false) by (destruct (moves req) as [[|]|]; done).
  by rewrite Hmf in Ha.
Qed.

(** ** Entries of the node table that change *)

(** [f] keeps what identifies a node. *)
Lemma nodes_entities (m : manager) db db' ns f :
  nodes_stored m db →
  nodes ns = f <$> nodes (m_nodes m) →
  (∀ n, name (f n) = name n ∧ adapter (f n) = adapter n ∧ is_static (f n) = is_static n ∧
        display (f n) = display n ∧ single (f n) = single n ∧ is_monitor (f n) = is_monitor n) →
  db_ok db' → rows_faithful db' → nr_name <$> db_nodes db' = nr_name <$> db_nodes db →
  (∀ n o, node_at m n o → durable (o_adapter o) db' ∧
     ident_of (f n) o ∈ node_ident <$> db_nodes db') →
  nodes_stored (with_m_nodes ns m) db'.
Proof.
  intros [[Hnames Hptrs Hplain Hheap Hnext Hnode Hplug _ _] Hrows] Hns Hf Hdb Hfa Hnr Hdur.
  assert (Hkeys : name <$> nodes ns = name <$> nodes (m_nodes m)).
  { rewrite Hns. apply elem_key_ext. intros n. apply Hf. }
  assert (Hat : ∀ n' o, node_at (with_m_nodes ns m) n' o → ∃ n, n' = f n ∧ node_at m n o).
  { intros n' o [Hn' Ho]. simpl in *. rewrite Hns in Hn'.
    apply list_elem_of_fmap in Hn' as (n & -> & Hn). exists n. split; [done|]. split; [done|].
    by destruct (Hf n) as (_ & <- & _). }
  split; [split; simpl; try done|simpl].
  - unfold table_ok. by rewrite Hkeys.
  - unfold table_ok. rewrite Hns, (elem_key_ext adapter adapter f); [done|]. intros n. apply Hf.
  - rewrite Hns. intros n' (n & -> & Hn)%list_elem_of_fmap.
    destruct (Hf n) as (-> & _ & -> & -> & -> & _). by apply Hplain.
  - rewrite Hns. intros n' (n & -> & Hn)%list_elem_of_fmap. destruct (Hf n) as (_ & -> & _). auto.
  - intros n' o (n & -> & Hn)%Hat. destruct (Hf n) as (-> & _).
    destruct (Hnode n o Hn) as (? & _ & _). by destruct (Hdur n o Hn).
  - intros n' o (n & -> & Hn)%Hat. destruct (Hf n) as (_ & _ & _ & _ & _ & ->). by apply (Hplug n).
  - intros r Hr. rewrite Hkeys. assert (Hin : nr_name r ∈ nr_name <$> db_nodes db)
      by (rewrite <-Hnr; by apply list_elem_of_fmap_2).
    apply list_elem_of_fmap in Hin as (r0 & -> & Hr0). by apply Hrows.
Qed.

(** The address of a node. *)
Lemma nodes_addr (m : manager) db node src :
  nodes_stored m db →
  nodes_stored (with_m_nodes (set_nodes (hash_update name node (with_addr src) (nodes (m_nodes m)))
                                (m_nodes m)) m) db.
Proof.
  intros Hn.
  eapply (nodes_entities m db db _ (λ x, if decide (name x = node) then with_addr src x else x));
    [done| | |apply Hn|apply Hn|done|].
  - simpl. apply hash_update_fmap, Hn.
  - intros x. by case_decide.
  - intros x o Hx. destruct (ns_node m db Hn x o Hx) as (_ & ? & ?). split; [done|].
    unfold ident_of. by case_decide.
Qed.

Lemma node_init_nodes (m : manager) db node src state m' db' :
  nodes_stored m db → handle_node_init intf m db node src state = Some (m', db') →
  nodes_stored m' db' ∧ m_subs m' = m_subs m ∧ about false node db db'.
Proof.
  intros Hs. unfold handle_node_init, neu_node_manager_update.
  destruct (hash_find name node (nodes (m_nodes m))) as [n|] eqn:Hf;
    [|intros [= <- <-]; split_and!; [done..|apply about_refl]].
  simpl. set (ns := set_nodes _ _).
  assert (Hs1 : nodes_stored (with_m_nodes ns m) db) by by apply nodes_addr.
  clearbody ns. destruct (_ || _); [|intros [= <- <-]; split_and!; [done..|apply about_refl]].
  destruct (neu_node_manager_find ns node) as [p|] eqn:Hp; simpl; [|done].
  destruct (find_node_at (with_m_nodes ns m) db node p) as (x & o & Hx & Hk & <- & Ho);
    [apply Hs1|done|]. simpl in Ho. rewrite Ho. simpl. subst node.
  destruct (neu_adapter_start (intf (o_module o)) (o_adapter o) db) as [[e1 a1] db1] eqn:E1.
  destruct (nodes_served (with_m_nodes ns m) db x o (ReqCtl NEU_ADAPTER_CTL_START) a1 db1)
    as (Hs2 & Hx2 & Ha2); [done|done|by eapply served_ctl|done|done|].
  destruct (state =? 4); [|by intros [= <- <-]].
  destruct (neu_adapter_stop (intf (o_module o)) a1 db1) as [[e2 a2] db2] eqn:E2.
  intros [= <- <-].
  destruct (nodes_served _ db1 x _ (ReqCtl NEU_ADAPTER_CTL_STOP) a2 db2 Hs2 Hx2)
    as (Hs3 & _ & Ha3); [by eapply served_ctl|done|done|].
  split_and!; [|done|by eapply about_trans].
  revert Hs3. unfold set_adapter, with_m_heap. simpl. by rewrite alter_alter_eq.
Qed.

Lemma node_init_ok (m : manager) db node src state m' db' :
  system_ok m db → handle_node_init intf m db node src state = Some (m', db') → system_ok m' db'.
Proof.
  intros [Hs Hsub] E. destruct (node_init_nodes m db node src state m' db' Hs E) as (Hs' & Esubs & Ha).
  split; [done|]. rewrite Esubs. by eapply subs_about.
Qed.

Lemma update_node_tag_ok (m : manager) db node tags e m' db' :
  system_ok m db → handle_update_node_tag m db node tags = (e, m', db') → system_ok m' db'.
Proof.
  intros [Hn Hsub]. unfold handle_update_node_tag, neu_node_manager_update_tags.
  destruct (hash_find name node (nodes (m_nodes m))) as [n|] eqn:Hf; [|by intros [= <- <- <-]].
  simpl. intros [= <- <- <-]. set (db' := update_node_rows node _ db).
  pose proof (run_persister_ok (PUpdateNodeTags node (Some tags)) db (ns_db _ _ Hn)) as [Hdb' _].
  simpl in Hdb'. fold db' in Hdb'.
  assert (Hnr : nr_name <$> db_nodes db' = nr_name <$> db_nodes db).
  { apply elem_key_ext. intros r. by case_decide. }
  split.
  - eapply (nodes_entities m db db' _
      (λ x, if decide (name x = node) then NodeManager.with_tags (Some tags) x else x));
      [done| | |done|apply Hn|done|].
    + simpl. apply hash_update_fmap, Hn.
    + intros x. by case_decide.
    + intros x o Hx. destruct (ns_node m db Hn x o Hx) as (_ & [Happ Hs Hset Hrun] & Hi). split.
      * split; [done|by eapply stored_node_statement|done|].
        intros r (r0 & -> & Hr0)%list_elem_of_fmap Hk.
        assert (Hk0 : nr_name r0 = a_name (o_adapter o)) by (by destruct (decide _)).
        rewrite <-(Hrun r0 Hr0 Hk0). by destruct (decide _).
      * apply list_elem_of_fmap in Hi as (r & Hi & Hr). apply list_elem_of_fmap.
        eexists. split; [|by apply list_elem_of_fmap_2]. injection Hi as E1 E2 E3 E4.
        unfold ident_of, node_ident. rewrite <-E1.
        destruct (decide (name x = node)); simpl; congruence.
  - destruct Hsub as [Hok Hrows Hkeys Happs]. split; try done.
    intros r x Hr (x0 & -> & Hx0)%list_elem_of_fmap Hk.
    assert (nr_name x0 = sr_app r) by (by destruct (decide _)).
    destruct (Happs r x0) as [? ?]; [done..|]. by destruct (decide _).
Qed.

(** ** Messages to drivers *)

Lemma durable_with_apps (a : neu_adapter_t P) db group f :
  durable a db →
  durable (with_driver (with_groups (hash_update g_name group (λ g, with_apps (f g) g)
                          (d_groups (a_driver a))) (a_driver a)) a) db.
Proof.
  intros [Happ Hs Hset Hrun]. split; try done; simpl.
  - intros Hty. by rewrite (Happ Hty).
  - apply (stored_ext _ (a_driver a)); [done| |].
    + destruct Hs as [[Ht Hnm] _ _ _ _ _ _]. split; simpl.
      * unfold table_ok. by rewrite hash_update_keys.
      * by apply Forall_hash_updated.
    + intros x. unfold find_group. simpl. rewrite hash_find_update by done.
      case_decide; [|done]. by destruct (hash_find g_name x _).
Qed.

Lemma hash_update_ext {K A} `{EqDecision K} (k : A → K) x f g l e :
  hash_find k x l = Some e → f e = g e → hash_update k x f l = hash_update k x g l.
Proof.
  induction l as [|y l IH]; simpl; [done|]. case_decide; [by intros [= ->] ->|].
  intros Hf He. by rewrite IH.
Qed.

(** Objects that differ in what is not stored. *)
Definition alike (o o' : node_obj P) : Prop :=
  o_module o' = o_module o ∧ a_name (o_adapter o') = a_name (o_adapter o) ∧
  a_type (o_adapter o') = a_type (o_adapter o) ∧ a_state (o_adapter o') = a_state (o_adapter o) ∧
  ∀ db, durable (o_adapter o) db → durable (o_adapter o') db.

Record same_system (m m' : manager) : Prop := {
  sm_nodes : m_nodes m' = m_nodes m;
  sm_subs : m_subs m' = m_subs m;
  sm_next : m_next m' = m_next m;
  sm_heap : ∀ p, option_Forall2 alike (m_heap m !! p) (m_heap m' !! p);
}.

#[export] Instance alike_preorder : PreOrder alike.
Proof.
  split; [by intros o|]. intros x y z (? & ? & ? & ? & ?) (? & ? & ? & ? & ?).
  split_and!; [congruence..|auto].
Qed.

#[export] Instance same_system_preorder : PreOrder same_system.
Proof.
  split.
  - intros m. by split.
  - intros x y z [? ? ? H1] [? ? ? H2]. split; [congruence..|]. intros p.
    pose proof (H1 p) as Ha. pose proof (H2 p) as Hb.
    destruct Ha as [o1 o2 Ho|]; inversion Hb; subst; constructor. by etransitivity.
Qed.

Lemma deliver_same (m : manager) x : same_system m (deliver m x).
Proof.
  unfold deliver. destruct (_ =? 0); [done|]. destruct (neu_node_manager_find (m_nodes m) x.1) as [p|]; [|done].
  destruct (m_heap m !! p) as [o|] eqn:Ho; [|done]. destruct (is_driver (o_adapter o)); [|done].
  split; try done. intros q. unfold set_adapter. simpl. destruct (decide (q = p)) as [->|Hne];
    [|by rewrite lookup_alter_ne].
  rewrite lookup_alter_eq, Ho. constructor. split_and!; try done. intros db Hd. simpl.
  destruct x as [r [app group port|app group]]; simpl.
  - unfold neu_adapter_driver_subscribe. destruct (find_group _ group) as [g|] eqn:Hg; simpl;
      [|by destruct Hd].
    destruct (bool_decide _); [by destruct Hd|]. simpl.
    set (l := [_]). rewrite (hash_update_ext g_name group (with_apps (g_apps g ++ l))
      (λ g, with_apps (g_apps g ++ l) g) _ g Hg eq_refl).
    by apply (durable_with_apps _ _ _ (λ g, g_apps g ++ l)).
  - unfold neu_adapter_driver_unsubscribe. destruct (find_group _ group) as [g|] eqn:Hg;
      [|by destruct Hd].
    rewrite (hash_update_ext g_name group (with_apps (hash_del sub_app app (g_apps g)))
      (λ g, with_apps (hash_del sub_app app (g_apps g)) g) _ g Hg eq_refl).
    by apply (durable_with_apps _ _ _ (λ g, hash_del sub_app app (g_apps g))).
Qed.

Lemma deliver_all_same l : ∀ m : manager, same_system m (deliver_all l m).
Proof.
  induction l as [|x l IH]; intros m; [done|].
  etransitivity; [apply deliver_same|apply IH].
Qed.

Lemma same_system_object (m m' : manager) p o' :
  same_system m m' → m_heap m' !! p = Some o' → ∃ o, m_heap m !! p = Some o ∧ alike o o'.
Proof.
  intros Hs Ho'. pose proof (sm_heap _ _ Hs p) as Ha. rewrite Ho' in Ha.
  destruct (m_heap m !! p) as [o|]; inversion Ha; subst. by exists o.
Qed.

Lemma same_system_object_of (m m' : manager) p o :
  same_system m m' → m_heap m !! p = Some o → ∃ o', m_heap m' !! p = Some o' ∧ alike o o'.
Proof.
  intros Hs Ho. pose proof (sm_heap _ _ Hs p) as Ha. rewrite Ho in Ha.
  destruct (m_heap m' !! p) as [o'|]; inversion Ha; subst. by exists o'.
Qed.

Lemma nodes_same (m m' : manager) db : same_system m m' → nodes_stored m db → nodes_stored m' db.
Proof.
  intros Hsm [[] Hrows]. pose proof (sm_nodes _ _ Hsm) as En.
  assert (Hat : ∀ n o', node_at m' n o' → ∃ o, node_at m n o ∧ alike o o').
  { intros n o' [Hn Ho']. rewrite En in Hn.
    destruct (same_system_object m m' _ _ Hsm Ho') as (o & Ho & Hal). by exists o. }
  split; [split; rewrite ?En; try done|by rewrite En].
  - intros n Hn. destruct (ns_heap0 n Hn) as [o Ho].
    destruct (same_system_object_of m m' _ _ Hsm Ho) as (o' & Ho' & _). by exists o'.
  - intros p [o' Ho']. rewrite (sm_next _ _ Hsm). apply ns_next0.
    destruct (same_system_object m m' _ _ Hsm Ho') as (o & Ho & _). by exists o.
  - intros n o' (o & Hn & Hm & Hna & Hty & _ & Hd)%Hat. destruct (ns_node0 n o Hn) as (? & ? & ?).
    unfold ident_of. rewrite Hm, Hty, Hna. auto.
  - intros n o' (o & Hn & Hm & Hna & Hty & _ & Hd)%Hat. rewrite Hm, Hty. by apply (ns_plugin0 n).
Qed.

Lemma deliver_all_ok l (m : manager) db : system_ok m db → system_ok (deliver_all l m) db.
Proof.
  intros [Hn Hs]. pose proof (deliver_all_same l m) as Hsame. split; [by eapply nodes_same|].
  by rewrite (sm_subs _ _ Hsame).
Qed.

(** ** Subscriptions *)

Lemma with_m_subs_id (m : manager) : with_m_subs (m_subs m) m = m.
Proof. by destruct m. Qed.

Lemma nodes_with_subs (m : manager) db subs :
  nodes_stored m db → nodes_stored (with_m_subs subs m) db.
Proof. intros [[] ?]. by split; [split|]. Qed.

(** Rows of subscriptions are no configuration. *)
Lemma nodes_sub_rows (m : manager) db l :
  nodes_stored m db → db_ok (Persist.with_subs l db) → nodes_stored m (Persist.with_subs l db).
Proof.
  intros [[] Hrows] Hdb. split; [split; try done|done]. intros n o Hn.
  destruct (ns_node0 n o Hn) as (? & [? Hst Hset Hrun] & ?). split_and!; [done| |done].
  split; try done. by eapply stored_node_statement.
Qed.

Lemma sub_keys_of mgr d a g params st addr el :
  short d → short g → el ∈ (neu_subscribe_manager_sub mgr d a g params st addr).2 →
  key el ∈ key <$> mgr ∨ key el = (d, g).
Proof.
  intros Hd Hg. unfold neu_subscribe_manager_sub. rewrite make_key_short by done.
  destruct (hash_find key (d, g) mgr) as [el0|].
  - destruct (existsb _ _); simpl; intros Hel; left; apply (list_elem_of_fmap_2 key) in Hel; [done|].
    by rewrite hash_update_keys in Hel.
  - simpl. unfold hash_add. intros [Hel| ->%list_elem_of_singleton]%elem_of_app; [left|by right].
    by apply list_elem_of_fmap_2.
Qed.

(** A subscription that the manager accepts is accepted by the database. *)
Lemma subscribe_stored (m : manager) db napp oapp ndrv odrv group params st addr subs' :
  system_ok m db → node_at m napp oapp → is_driver (o_adapter oapp) = false →
  o_module oapp ≠ "Monitor"%string → node_at m ndrv odrv → is_driver (o_adapter odrv) = true → short group →
  is_Some (mem_interval (a_driver (o_adapter odrv)) group) →
  neu_subscribe_manager_sub (m_subs m) (name ndrv) (name napp) group params st addr =
    (NEU_ERR_SUCCESS, subs') →
  let db' := manager_storage_subscribe db (name napp) (name ndrv) group params st in
  db_subs db' = db_subs db ++ [sub_row_of (name ndrv) group (name napp) params st] ∧
  system_ok (with_m_subs subs' m) db'.
Proof.
  intros [Hs Hsub] Happ Hta Hmon Hdrv Htd Hg Hi E.
  pose proof Hsub as [Hok Hrows Hkeys Happs].
  destruct (ns_plain m db Hs napp (proj1 Happ)) as (_ & _ & _ & Hsa).
  destruct (ns_plain m db Hs ndrv (proj1 Hdrv)) as (_ & _ & _ & Hsd).
  pose proof (sub_spec (m_subs m) _ _ _ params st addr Hok Hsd Hsa Hg) as Hspec.
  rewrite E in Hspec. destruct Hspec as [Hok' Hspec].
  destruct (decide (subscribed (m_subs m) (name ndrv) group (name napp))) as [|Hns];
    [by destruct Hspec|]. clear Hspec.
  pose proof (sub_rows (m_subs m) _ _ _ params st addr Hok Hsd Hsa Hg Hns) as Hrows'.
  pose proof (λ el, sub_keys_of (m_subs m) _ (name napp) group params st addr el Hsd Hg) as Hkeys'.
  rewrite E in Hrows', Hkeys'. simpl in Hrows', Hkeys'.
  set (r := sub_row_of (name ndrv) group (name napp) params st) in *.
  assert (Hgroup : sub_parent r ∈ group_row_key <$> db_groups db) by by eapply group_in_db.
  assert (Hnode : name napp ∈ nr_name <$> db_nodes db).
  { destruct (ns_node m db Hs napp oapp Happ) as (Hname & Hd & _). rewrite <-Hname.
    apply (dur_config _ _ _ Hd). }
  assert (Hne : name napp ≠ name ndrv).
  { intros Hk. destruct (node_at_name_inj m db _ _ _ _ Hs Happ Hdrv Hk) as [-> ->]. congruence. }
  assert (Hnk : sub_key r ∉ sub_key <$> db_subs db).
  { intros (r' & Hk & Hr')%list_elem_of_fmap. apply Hns. apply Hrows, in_table_subscribed in Hr'.
    injection Hk as E1 E2 E3. by rewrite E1, E2, E3. }
  pose proof (run_persister_ok (PStoreSub r) db (ns_db _ _ Hs)) as [Hdb' _].
  unfold manager_storage_subscribe. fold r.
  assert (Hst : neu_sqlite_persister_store_subscription db r =
    (0, Persist.with_subs (db_subs db ++ [r]) db)).
  { unfold neu_sqlite_persister_store_subscription. by rewrite !bool_decide_eq_true_2. }
  simpl in Hdb'. rewrite Hst in Hdb'. change (neu_sqlite_persister_store_subscription db
    {| sr_app := _ |}) with (neu_sqlite_persister_store_subscription db r). rewrite Hst. simpl.
  split; [done|]. split; [by apply nodes_with_subs, nodes_sub_rows|]. split; try done; simpl.
  - intros r'. rewrite Hrows', Hrows, elem_of_app, list_elem_of_singleton. done.
  - intros el [(el0 & -> & Hel0)%list_elem_of_fmap| ->]%Hkeys'; [by apply Hkeys|done].
  - intros r' x [Hr'| ->%list_elem_of_singleton]%elem_of_app Hx Hk; [by eapply Happs|].
    pose proof (node_row_of m db napp oapp x Hs Happ Hx Hk) as [= _ -> -> _].
    split; [|done]. unfold is_driver in Hta. by destruct (a_type (o_adapter oapp)).
Qed.

Lemma neu_manager_subscribe_inv (m : manager) db app driver group params st e port m1 :
  nodes_stored m db → mgr_ok (m_subs m) → short group →
  neu_manager_subscribe trans_data_port parse_topic m app driver group params st =
    Some (e, port, m1) →
  e ≠ NEU_ERR_SUCCESS ∧ m1 = m ∨
  e = NEU_ERR_SUCCESS ∧ ∃ napp oapp ndrv odrv addr subs',
    node_at m napp oapp ∧ name napp = app ∧ is_driver (o_adapter oapp) = false ∧
    o_module oapp ≠ "Monitor"%string ∧ port = trans_data_port (adapter napp) ∧
    node_at m ndrv odrv ∧ name ndrv = driver ∧ is_driver (o_adapter odrv) = true ∧
    is_Some (mem_interval (a_driver (o_adapter odrv)) group) ∧
    neu_subscribe_manager_sub (m_subs m) driver app group params st addr = (NEU_ERR_SUCCESS, subs') ∧
    m1 = with_m_subs subs' m.
Proof.
  intros Hs Hok Hg. unfold neu_manager_subscribe, manager_subscribe.
  destruct (neu_node_manager_is_monitor _ _) eqn:Hmon; [intros [= <- <- <-]; by left|].
  destruct (neu_node_manager_find (m_nodes m) app) as [p|] eqn:Hp; [|intros [= <- <- <-]; by left].
  destruct (find_node_at m db _ _ Hs Hp) as (napp & oapp & Hn & Hka & <- & Ho). rewrite Ho. simpl.
  unfold neu_node_manager_is_monitor in Hmon.
  rewrite <-Hka, (hash_find_elem name) in Hmon by (apply Hs || apply Hn).
  destruct (ns_plugin m db Hs napp oapp Hn) as (_ & _ & _ & _ & Hmon'). rewrite Hmon' in Hmon.
  apply bool_decide_eq_false in Hmon. clear Hmon'.
  destruct (topic_refused _ _ _); [intros [= <- <- <-]; by left|].
  destruct (is_driver (o_adapter oapp)) eqn:Hta; [intros [= <- <- <-]; by left|].
  destruct (neu_node_manager_find (m_nodes m) driver) as [q|] eqn:Hq;
    simpl; [|intros [= <- <- <-]; by left].
  destruct (find_node_at m db _ _ Hs Hq) as (ndrv & odrv & Hd & Hkd & <- & Hod). rewrite Hod. simpl.
  destruct (is_driver (o_adapter odrv)) eqn:Htd; [|done].
  unfold neu_adapter_driver_group_exist.
  destruct (find_group (a_driver (o_adapter odrv)) group) as [gr|] eqn:Hgr;
    simpl; [|intros [= <- <- <-]; by left].
  set (addr := sun_id _).
  destruct (ns_plain m db Hs napp (proj1 Hn)) as (_ & _ & _ & Hsa).
  destruct (ns_plain m db Hs ndrv (proj1 Hd)) as (_ & _ & _ & Hsd).
  rewrite Hka in Hsa. rewrite Hkd in Hsd.
  pose proof (sub_spec (m_subs m) driver app group params st addr Hok Hsd Hsa Hg) as Hspec.
  destruct (neu_subscribe_manager_sub (m_subs m) driver app group params st addr) as [ret subs'] eqn:E.
  destruct Hspec as [_ Hspec]. simpl. intros [= <- <- <-].
  destruct (decide _); destruct Hspec as [-> Hspec].
  - left. split; [done|]. rewrite Hspec. apply with_m_subs_id.
  - right. split; [done|]. exists napp, oapp, ndrv, odrv, addr, subs'.
    split_and!; try done. unfold mem_interval. rewrite Hgr. by eexists.
Qed.

Lemma subscribe_group_ok (m : manager) db app driver group params st e m1 db1 msgs :
  system_ok m db → short group →
  handle_subscribe_group trans_data_port parse_topic m db app driver group params st =
    Some (e, m1, db1, msgs) →
  system_ok m1 db1.
Proof.
  intros Hsys Hg. unfold handle_subscribe_group.
  destruct (neu_manager_subscribe _ _ _ _ _ _ _ _) as [[[e1 port] m2]|] eqn:E; simpl; [|done].
  apply (neu_manager_subscribe_inv m db) in E; [|apply Hsys|apply Hsys|done].
  destruct E as [[Hne ->]|(-> & napp & oapp & ndrv & odrv & addr & subs' & Hn & <- & Hta & Hmon & -> & Hd & <- &
    Htd & Hi & E & ->)].
  - rewrite (proj2 (Z.eqb_neq _ _) Hne). by intros [= _ <- <- _].
  - simpl. intros [= _ <- <- _].
    by eapply (subscribe_stored m db napp oapp ndrv odrv group params st addr subs').
Qed.

Lemma subscribe_groups_ok l : ∀ (m : manager) db app e m1 db1 msgs,
  system_ok m db → Forall (λ i, short (sg_group i)) l →
  handle_subscribe_groups trans_data_port parse_topic m db app l = Some (e, m1, db1, msgs) →
  system_ok m1 db1.
Proof.
  induction l as [|i l IH]; intros m db app e m1 db1 msgs Hs Hl; cbn [handle_subscribe_groups];
    [by intros [= _ <- <- _]|].
  apply Forall_cons in Hl as [Hi Hl].
  destruct (handle_subscribe_group _ _ _ _ _ _ _ _ _) as [[[[e2 m2] db2] ms2]|] eqn:E; simpl; [|done].
  apply subscribe_group_ok in E; [|done|done].
  destruct (e2 =? 0); simpl; [|by intros [= _ <- <- _]].
  destruct (handle_subscribe_groups _ _ _ _ _ _) as [[[[e3 m3] db3] ms3]|] eqn:E'; simpl; [|done].
  intros [= _ <- <- _]. by eapply IH.
Qed.

(** What one side of a system forgets, the other forgets. *)
Lemma subs_restrict subs subs' db db' (Q : sub_row → Prop) :
  subs_stored subs db → mgr_ok subs' → (∀ r, in_table subs' r ↔ in_table subs r ∧ Q r) →
  (∀ r, r ∈ db_subs db' ↔ r ∈ db_subs db ∧ Q r) →
  (∀ el, el ∈ subs' → key el ∈ group_row_key <$> db_groups db') →
  (∀ x, x ∈ db_nodes db' → x ∈ db_nodes db) →
  subs_stored subs' db'.
Proof.
  intros [Hok Hrows Hkeys Happs] Hok' Hr Hdb Hk Hn. split; try done.
  - intros r. by rewrite Hr, Hdb, Hrows.
  - intros r x [Hin _]%Hdb ?%Hn. by apply Happs.
Qed.

Lemma unsubscribe_group_ok (m : manager) db app driver group e m1 db1 msgs :
  system_ok m db → short driver → short group →
  handle_unsubscribe_group m db app driver group = (e, m1, db1, msgs) → system_ok m1 db1.
Proof.
  intros [Hs Hsub] Hd Hg. unfold handle_unsubscribe_group. pose proof (ss_ok _ _ Hsub) as Hok.
  pose proof (unsub_spec (m_subs m) driver app group Hok Hd Hg) as Hspec.
  pose proof (unsub_rows (m_subs m) driver app group Hok Hd Hg) as Hrows.
  assert (Hkeys : key <$> (neu_subscribe_manager_unsub (m_subs m) driver app group).2 =
                  key <$> m_subs m).
  { unfold neu_subscribe_manager_unsub. destruct (hash_find _ _ _); [|done].
    destruct (existsb _ _); [|done]. by apply hash_update_keys. }
  destruct (neu_subscribe_manager_unsub (m_subs m) driver app group) as [ret subs'].
  destruct Hspec as [Hok' _]. simpl in *. destruct (ret =? _); [|by intros [= _ <- <- _]].
  intros [= _ <- <- _].
  pose proof (run_persister_ok (PDeleteSub app driver group) db (ns_db _ _ Hs)) as [Hdb' _].
  split; [by apply nodes_with_subs, nodes_sub_rows|].
  eapply (subs_restrict (m_subs m)); [done|done|exact Hrows| | |done]; simpl.
  - intros r. rewrite list_elem_of_filter. split; intros [? ?]; by split.
  - intros el Hel. apply (list_elem_of_fmap_2 key) in Hel. rewrite Hkeys in Hel.
    apply list_elem_of_fmap in Hel as (el0 & -> & Hel0). by apply (ss_keys _ _ Hsub).
Qed.

Lemma update_subscribe_ok (m : manager) db app driver group params st e m1 db1 :
  system_ok m db → short driver → short group →
  handle_update_subscribe m db app driver group params st = (e, m1, db1) → system_ok m1 db1.
Proof.
  intros [Hs Hsub] Hd Hg. unfold handle_update_subscribe. pose proof Hsub as [Hok Hrw Hkeys Happs].
  pose proof (update_params_spec (m_subs m) driver app group params st Hok Hd Hg) as Hspec.
  pose proof (update_params_rows (m_subs m) app driver group params st Hok Hd Hg) as Hrows.
  assert (Hk : key <$> (neu_subscribe_manager_update_params (m_subs m) app driver group params st).2 =
                  key <$> m_subs m).
  { unfold neu_subscribe_manager_update_params. destruct (hash_find _ _ _); [|done].
    destruct (existsb _ _); [|done]. by apply hash_update_keys. }
  destruct (neu_subscribe_manager_update_params (m_subs m) app driver group params st) as [ret subs'].
  destruct Hspec as [Hok' _]. simpl in *. destruct (ret =? _); [|by intros [= _ <- <-]].
  intros [= _ <- <-]. set (r := {| sr_app := app |}).
  pose proof (run_persister_ok (PUpdateSub r) db (ns_db _ _ Hs)) as [Hdb' _].
  split; [by apply nodes_with_subs, nodes_sub_rows|]. split; try done; simpl.
  - intros r'. rewrite Hrows, list_elem_of_fmap. setoid_rewrite Hrw.
    split; intros (r0 & ? & ?); by exists r0.
  - intros el Hel. apply (list_elem_of_fmap_2 key) in Hel. rewrite Hk in Hel.
    apply list_elem_of_fmap in Hel as (el0 & -> & Hel0). auto.
  - intros r' x (r0 & -> & Hr0)%list_elem_of_fmap Hx Hk'. apply (Happs r0); [done..|].
    by destruct (decide _).
Qed.
End System.
