(* ===== verification/ManagerTrans.v ===== *)
(** * Requests that take a manager and a node

    Deleting and renaming groups and nodes: the manager sends the request on,
    the node answers, and the manager brings its tables and the database in line.
    Each handled request keeps [system_ok]. *)

From S2P Require Import Prelude UtHash NeuTypes CHeap DriverCache Tag Group Driver NodeManager Subscribe Persist Adapter AdapterConfig AdapterStored AdapterGtag AdapterOk AdapterRestart AdapterFrame SubscribeRows Manager ManagerOk.

Section Transactions.
Context {P : Type} (intf : string → plugin_intf P) (ops : string → plugin_ops).
Context (plugins : list (plugin_entity_t P)).
Context (link : P → Z) (level : P → Z) (rtt : P → option Z) (ut_d : Z).
Context `{SQL : Sqlite} `{!SqliteOk SQL} {J : Type} `{Jansson J}.
Context (Hops : ∀ s, plugin_keeps (ops s)).

#[local] Abbreviation manager := (neu_manager_t P).
#[local] Abbreviation nodes_stored := (nodes_stored plugins).
#[local] Abbreviation system_ok := (system_ok plugins).

(** ** Groups *)

(** Subscriptions of the database lead to groups that the driver has. *)
Lemma sub_parent_group (m : manager) db n o r :
  nodes_stored m db → node_at m n o → r ∈ db_subs db → sr_driver r = name n →
  is_driver (o_adapter o) = true ∧ is_Some (find_group (a_driver (o_adapter o)) (sr_group r)).
Proof.
  intros Hs Hn Hr Hd. pose proof (dok_sub_group db (ns_db _ _ _ Hs) r Hr) as Hg.
  unfold sub_parent in Hg. rewrite Hd in Hg.
  destruct (group_driver plugins m db n o _ Hs Hn Hg) as [Hty Hi]. split; [done|].
  unfold mem_interval in Hi. destruct (find_group _ _); [by eexists|by destruct Hi].
Qed.

Lemma remove_elem (subs : neu_subscribe_mgr_t) driver group el :
  el ∈ neu_subscribe_manager_remove subs driver group ↔
  el ∈ subs ∧ ¬ (key_driver el = driver ∧ (group = None ∨ group = Some (key_group el))).
Proof.
  unfold neu_subscribe_manager_remove. rewrite !list_elem_of_In, filter_In. f_equiv.
  rewrite negb_true_iff. unfold removed. destruct group as [g|].
  - destruct (bool_decide_reflect (driver = key_driver el)) as [->|E]; simpl.
    + rewrite bool_decide_eq_false. naive_solver.
    + split; [|done]. intros _ [E' _]. by symmetry in E'.
  - rewrite andb_true_r, bool_decide_eq_false. naive_solver.
Qed.

(** The database follows the driver. *)
Lemma del_group_db (m : manager) db n o group (h : mem J) r a' db' h' :
  nodes_stored m db → node_at m n o →
  handle_del_group (o_adapter o) (name n) group db h = Some (r, a', db', h') →
  db' = db ∧ (∀ g, (name n, g) ∈ group_row_key <$> db_groups db → g ≠ group) ∨
  db' = (neu_sqlite_persister_delete_group db (name n) group).2.
Proof.
  intros Hs Hn. unfold handle_del_group, neu_adapter_driver_del_group, mbind, M_bind, mret, M_ret.
  destruct (is_driver (o_adapter o)) eqn:Hdr; cycle 1.
  { intros [= _ _ <- _]. left. split; [done|]. intros g Hg.
    destruct (group_driver plugins m db n o g Hs Hn Hg). congruence. }
  destruct (find_group (a_driver (o_adapter o)) group) as [gr|] eqn:Hf; simpl; cycle 1.
  { intros [= _ _ <- _]. left. split; [done|]. intros g Hg ->.
    destruct (group_driver plugins m db n o group Hs Hn Hg) as [_ [i Hi]].
    unfold mem_interval in Hi. by rewrite Hf in Hi. }
  destruct (cache_del_tags _ _ _ h) as [[c h1]|]; [|done]. simpl. intros [= _ _ <- _]. by right.
Qed.

(** [NEU_REQ_DEL_GROUP], served by the driver. *)
Lemma del_group_system (m : manager) db driver group m1 n o (h : mem J) r a' db' h' :
  system_ok m db → handle_del_group_req m driver group = (0, m1) →
  node_at m n o → name n = driver →
  handle_del_group (o_adapter o) driver group db h = Some (r, a', db', h') →
  system_ok (set_adapter (adapter n) a' m1) db'.
Proof.
  intros [Hs Hsub] E1 Hn <- E. unfold handle_del_group_req in E1.
  rewrite (find_node_Some plugins m db n Hs (proj1 Hn)) in E1. injection E1 as <-.
  destruct (ns_node _ m db Hs n o Hn) as (Hname & Hd & _).
  assert (Hsv : served (intf (o_module o)) (ops (o_module o)) (o_adapter o) db (ReqDelGroup group) a' db').
  { eapply (served_del_group _ _ _ _ _ h). rewrite Hname. exact E. }
  destruct (served_about _ _ (Hops _) _ _ _ _ _ Hsv I (dur_config _ _ _ Hd)) as (Ha & Hname' & Hty);
    [done|]. rewrite Hname in Ha, Hname'.
  split.
  - eapply (nodes_adapter plugins _ db n o); [by apply nodes_with_subs|done..|exact Ha|].
    by eapply served_durable.
  - simpl. destruct (remove_spec (m_subs m) (name n) (Some group) (ss_ok _ _ Hsub)) as [Hok' _].
    pose proof (remove_rows (m_subs m) (name n) (Some group) (ss_ok _ _ Hsub)) as Hrows.
    pose proof (del_group_db m db n o group h r a' db' h' Hs Hn E) as Hdb.
    eapply (subs_restrict (m_subs m) _ db db'); [done|done|exact Hrows| | |].
    + intros x. destruct Hdb as [[-> Hno]| ->]; simpl.
      * split; [|tauto]. intros Hx. split; [done|]. intros [Ex [?|[= ->]]]; [done|].
        apply (Hno (sr_group x)); [|done]. rewrite <-Ex. by apply (dok_sub_group db (ns_db _ _ _ Hs)).
      * rewrite list_elem_of_filter. unfold sub_parent. split; [|naive_solver congruence].
        intros [Hp Hx]. split; [done|]. intros [Ex [?|[= Eg]]]; [done|]. apply Hp. congruence.
    + intros el [Hel Hno']%remove_elem. pose proof (ss_keys _ _ Hsub el Hel) as Hk.
      destruct Hdb as [[-> _]| ->]; [done|]. simpl. apply key_filter; [|done].
      intros x _ Hx. rewrite Hx. intros Ek. apply Hno'. unfold key_driver, key_group.
      rewrite Ek. simpl. auto.
    + by destruct Hdb as [[-> _]| ->].
Qed.
(** A group with a new name, in the table and in the database. *)
Lemma subs_group_renamed subs db db' d g new :
  subs_stored subs db → short d → short g → short new →
  new = g ∨ ((d, new) ∉ group_row_key <$> db_groups db) → db_nodes db' = db_nodes db →
  (∀ k, k ∈ group_row_key <$> db_groups db →
     (if decide (k = (d, g)) then (d, new) else k) ∈ group_row_key <$> db_groups db') →
  (∀ r, r ∈ db_subs db' ↔ ∃ r0, r0 ∈ db_subs db ∧
     r = sub_row_of (sr_driver r0) (if decide (sub_parent r0 = (d, g)) then new else sr_group r0)
           (sr_app r0) (sr_params r0) (sr_static_tags r0)) →
  subs_stored (neu_subscribe_manager_update_group_name subs d g new).2 db'.
Proof.
  intros [Hok Hrows Hkeys Happs] Hd Hg Hnew Hfresh Hn Hgr Hsr.
  assert (Hfr : new = g ∨ (d, new) ∉ key <$> subs).
  { destruct Hfresh as [|Hf]; [by left|right]. intros (el & Hk & Hel)%list_elem_of_fmap.
    apply Hf. rewrite Hk. auto. }
  split.
  - by apply update_group_name_ok.
  - intros r. rewrite rename_group_rows, Hsr by done. by setoid_rewrite Hrows.
  - unfold neu_subscribe_manager_update_group_name. rewrite make_key_short by done.
    destruct (hash_find key (d, g) subs) as [el|] eqn:Hf; simpl.
    + pose proof (hash_find_Some key _ _ _ Hf) as [Hel Hk]. unfold key_driver. rewrite Hk.
      unfold NEU_GROUP_NAME_LEN. rewrite cstr_trunc_short by done. unfold hash_add.
      intros x [Hx| ->%list_elem_of_singleton]%elem_of_app.
      * apply elem_of_hash_del in Hx as [Hx Hne]; [|apply Hok].
        pose proof (Hgr _ (Hkeys x Hx)) as Hin. by rewrite decide_False in Hin.
      * pose proof (Hgr _ (Hkeys el Hel)) as Hin. by rewrite decide_True in Hin.
    + intros x Hx. apply hash_find_None in Hf. pose proof (Hgr _ (Hkeys x Hx)) as Hin.
      rewrite decide_False in Hin; [done|]. intros Hk. apply Hf. rewrite <-Hk.
      by apply list_elem_of_fmap_2.
  - rewrite Hn. intros r x (r0 & Hr0 & ->)%Hsr. by apply (Happs r0).
Qed.

(** [NEU_REQ_UPDATE_GROUP], served by the driver, and the answer. *)
Lemma update_group_system (m : manager) db driver group new itv now n o e a' db' :
  system_ok m db → handle_update_group_req link level rtt m driver = 0 →
  node_at m n o → name n = driver →
  handle_update_group now (o_adapter o) group new itv db = (e, a', db') →
  short group → short new → 0 <= itv < 2147483648 →
  system_ok (handle_update_group_resp (set_adapter (adapter n) a' m) e driver group new) db'.
Proof.
  intros [Hs Hsub] _ Hn <- E Hg Hnew Hitv.
  destruct (ns_node _ m db Hs n o Hn) as (Hname & Hd & _).
  destruct (ns_plain _ m db Hs n (proj1 Hn)) as (_ & _ & _ & Hsn).
  pose proof (served_update_group (intf (o_module o)) (ops (o_module o)) _ _ _ _ _ _ _ _ _ E) as Hsv.
  assert (Hlen : (String.length new <= 128)%nat) by (unfold short in Hnew; lia).
  destruct (served_about _ _ (Hops _) _ _ _ _ _ Hsv (conj Hlen Hitv) (dur_config _ _ _ Hd))
    as (Ha & Hname' & Hty); [done|]. rewrite Hname in Ha, Hname'.
  assert (Hns : nodes_stored (set_adapter (adapter n) a' m) db').
  { eapply (nodes_adapter plugins _ db n o); [done..|exact Ha|]. by eapply served_durable. }
  unfold handle_update_group in E. unfold handle_update_group_resp.
  destruct (is_driver (o_adapter o)); [|injection E as <- _ <-; by split].
  pose proof (update_group_config now _ group new itv (sc_tables _ _ _ (dur_config _ _ _ Hd))) as Hu.
  destruct (neu_adapter_driver_update_group now _ group (Some new) itv) as [ret d'].
  destruct Hu as [_ Hok]. injection E as <- _ Edb.
  destruct (Z.eqb_spec ret NEU_ERR_SUCCESS) as [Er|Er]; cycle 1.
  { rewrite (proj2 (Z.eqb_neq ret 0) Er). subst db'. by split. }
  subst ret. simpl. destruct (Hok eq_refl) as (_ & _ & Hgi & Hfresh & _ & _).
  pose proof (sc_intervals _ _ _ (dur_config _ _ _ Hd)) as Hsi. rewrite Hname in *.
  rewrite Hsi in Hgi, Hfresh. unfold adapter_storage_update_group in Edb.
  pose proof (update_group_statement_rows db (name n) group new itv (ns_db _ _ _ Hs) Hlen Hitv Hgi Hfresh)
    as Hdb. simpl in Hdb. rewrite Edb in Hdb. clear Edb.
  split; [by apply nodes_with_subs|]. apply (subs_group_renamed _ db); try done.
  - destruct Hfresh as [->|Hf]; [by left|right]. unfold db_interval in Hf.
    apply fmap_None in Hf. by apply hash_find_None in Hf.
  - by destruct Hdb as [[_ ->]|(f & _ & ->)].
  - intros k Hk. destruct Hdb as [[<- ->]|(f & Hf & ->)]; [by case_decide as Ek; [rewrite <-Ek|]|].
    apply list_elem_of_fmap in Hk as (r & -> & Hr). simpl.
    apply list_elem_of_fmap. eexists. split; [|by apply list_elem_of_fmap_2].
    destruct (decide _) as [Ek|Ek]; [|done]. unfold group_row_key in *. destruct (Hf r) as [-> ->].
    congruence.
  - intros r. destruct Hdb as [[<- ->]|(f & Hf & ->)]; simpl.
    + split; [intros Hr; exists r; split; [done|]|intros (r0 & Hr0 & ->)].
      * case_decide as Ek; [|by destruct r]. injection Ek as _ <-. by destruct r.
      * case_decide as Ek; [injection Ek as _ <-|]; by destruct r0.
    + rewrite list_elem_of_fmap. split; intros (r0 & ? & ?); exists r0.
      * split; [done|]. subst r. by case_decide; [|destruct r0].
      * split; [|done]. subst r. by case_decide; [|destruct r0].
Qed.
(** ** Deleting a node *)

Lemma nodes_deleted (m : manager) db n :
  nodes_stored m db → n ∈ nodes (m_nodes m) →
  nodes_stored (neu_manager_del_node ut_d m (name n)).2
    (neu_sqlite_persister_delete_node db (name n)).2.
Proof.
  intros Hs Hn. unfold neu_manager_del_node. rewrite (find_node_Some plugins m db n Hs Hn). simpl.
  pose proof (db_ok_delete_node (name n) db (ns_db _ _ _ Hs)) as Hdb'. simpl in Hdb'.
  destruct Hs as [[Hnames Hptrs Hplain Hheap Hnext Hnode Hplug Hdb Hf] Hrows].
  assert (Hns : nodes (neu_node_manager_del ut_d (m_nodes m) (name n)) =
                hash_del name (name n) (nodes (m_nodes m))).
  { unfold neu_node_manager_del. by rewrite (hash_find_elem name) by done. }
  assert (Hel : ∀ x, x ∈ hash_del name (name n) (nodes (m_nodes m)) ↔
                     x ∈ nodes (m_nodes m) ∧ name x ≠ name n).
  { intros x. by apply elem_of_hash_del. }
  assert (Hptr : ∀ x, x ∈ nodes (m_nodes m) → name x ≠ name n → adapter n ≠ adapter x).
  { intros x Hx Hne E. apply Hne. by rewrite (table_ok_inj adapter (nodes (m_nodes m)) n x). }
  assert (Hat : ∀ x o, x ∈ hash_del name (name n) (nodes (m_nodes m)) →
    delete (adapter n) (m_heap m) !! adapter x = Some o → node_at m x o ∧ name x ≠ name n).
  { intros x o [Hx Hne]%Hel. rewrite lookup_delete_ne by auto. by split. }
  split; [split|]; simpl; rewrite ?Hns.
  - by apply table_ok_del.
  - by eapply table_ok_sublist; [apply hash_del_sublist|].
  - intros x [Hx _]%Hel. auto.
  - intros x [Hx Hne]%Hel. rewrite lookup_delete_ne by auto. auto.
  - intros p [o Ho]. apply Hnext. apply lookup_delete_Some in Ho as [_ Ho]. by exists o.
  - intros x o [Hx Ho]. simpl in Hx, Ho. rewrite Hns in Hx.
    destruct (Hat x o Hx Ho) as [Hxo Hne]. destruct (Hnode x o Hxo) as (Hname & Hd & Hi).
    split_and!; [done| |].
    + eapply (durable_elsewhere (λ y, y ≠ name n)); [done|by rewrite Hname| |done|].
      * split; simpl; by apply filter_filter_same.
      * intros r [_ Hr]%list_elem_of_filter. by apply Hf.
    + apply key_filter; [|done]. intros r _ [= E _ _ _]. congruence.
  - intros x o [Hx Ho]. simpl in Hx, Ho. rewrite Hns in Hx.
    destruct (Hat x o Hx Ho) as [Hxo _]. by apply (Hplug x).
  - done.
  - intros r [_ Hr]%list_elem_of_filter. by apply Hf.
  - intros r [Hne Hr]%list_elem_of_filter. specialize (Hrows r Hr).
    apply list_elem_of_fmap in Hrows as (x & Ex & Hx). rewrite Ex in *.
    apply list_elem_of_fmap_2, Hel. done.
Qed.

Lemma unsub_all_keys (subs : neu_subscribe_mgr_t) app :
  key <$> neu_subscribe_manager_unsub_all subs app = key <$> subs.
Proof.
  unfold neu_subscribe_manager_unsub_all. generalize subs at 2. intros l. revert subs.
  induction l as [|el l IH]; intros subs; simpl; [done|]. rewrite IH.
  destruct (existsb _ _); [|done]. unfold neu_subscribe_manager_unsub.
  destruct (hash_find _ _ _); [|done]. destruct (existsb _ _); [|done]. by apply hash_update_keys.
Qed.

(** No driver is an application of a subscription. *)
Lemma sub_app_not_driver (m : manager) db n o r :
  system_ok m db → node_at m n o → is_driver (o_adapter o) = true → r ∈ db_subs db →
  sr_app r ≠ name n.
Proof.
  intros [Hs Hsub] Hn Hty Hr E.
  destruct (ns_node _ m db Hs n o Hn) as (_ & _ & Hi).
  apply list_elem_of_fmap in Hi as (x & [= E1 E2 _ _] & Hx).
  pose proof (ss_apps _ _ Hsub r x Hr Hx) as Ht. rewrite <-E2 in Ht.
  unfold is_driver in Hty. destruct (a_type (o_adapter o)); [|done].
  destruct Ht as [? _]; [congruence|done].
Qed.

Lemma subs_node_deleted (m : manager) db n o :
  system_ok m db → node_at m n o →
  let subs := if is_driver (o_adapter o) then m_subs m
              else neu_subscribe_manager_unsub_all (m_subs m) (name n) in
  subs_stored (neu_subscribe_manager_remove subs (name n) None)
    (neu_sqlite_persister_delete_node db (name n)).2.
Proof.
  intros Hsys Hn subs. pose proof Hsys as [Hs Hsub]. pose proof (ss_ok _ _ Hsub) as Hok.
  assert (Hsubs : mgr_ok subs ∧ (∀ r, in_table subs r ↔ in_table (m_subs m) r ∧ sr_app r ≠ name n) ∧
                  key <$> subs = key <$> m_subs m).
  { unfold subs. destruct (is_driver (o_adapter o)) eqn:Hty; split_and!; try done.
    - intros r. split; [|tauto]. intros Hr. split; [done|]. apply (ss_rows _ _ Hsub) in Hr.
      by eapply (sub_app_not_driver m db n o).
    - by apply (unsub_all_spec (m_subs m) (name n)).
    - by apply unsub_all_rows.
    - apply unsub_all_keys. }
  destruct Hsubs as (Hok1 & Hrows1 & Hkeys1).
  destruct (remove_spec subs (name n) None Hok1) as [Hok2 _].
  pose proof (remove_rows subs (name n) None Hok1) as Hrows2. clearbody subs.
  apply (subs_restrict (m_subs m) _ db _ (λ r, sr_app r ≠ name n ∧ sr_driver r ≠ name n));
    [done|done| | | |].
  - intros r. rewrite Hrows2, Hrows1. naive_solver.
  - intros r. simpl. rewrite list_elem_of_filter. tauto.
  - intros el [Hel Hne]%remove_elem. simpl. apply key_filter.
    + intros x _ Hx E. apply Hne. unfold key_driver. rewrite <-Hx. simpl. auto.
    + apply (list_elem_of_fmap_2 key) in Hel. rewrite Hkeys1 in Hel.
      apply list_elem_of_fmap in Hel as (el0 & -> & Hel0). by apply (ss_keys _ _ Hsub).
  - intros x [_ Hx]%list_elem_of_filter. done.
Qed.

(** [NEU_REQ_DEL_NODE], the messages to the drivers and [NEU_RESP_NODE_UNINIT]. *)
Lemma del_node_ok (m : manager) db node m1 db1 msgs m2 :
  system_ok m db → handle_del_node m db node = Some (0, m1, db1, msgs) →
  neu_manager_del_node ut_d (deliver_all msgs m1) node = (NEU_ERR_SUCCESS, m2) →
  system_ok m2 db1.
Proof.
  intros [Hs Hsub]. unfold handle_del_node.
  destruct (neu_node_manager_find (m_nodes m) node) as [p|] eqn:Hp; [|done].
  destruct (find_node_at plugins m db node p Hs Hp) as (n & o & Hn & <- & <- & Ho).
  destruct (neu_node_manager_is_single _ _); [done|]. rewrite Ho. simpl. intros E1 E2.
  assert (Hm1 : db1 = (neu_sqlite_persister_delete_node db (name n)).2 ∧
    nodes_stored m1 db ∧ nodes (m_nodes m1) = nodes (m_nodes m) ∧
    m_subs m1 = if is_driver (o_adapter o) then m_subs m
                else neu_subscribe_manager_unsub_all (m_subs m) (name n)).
  { destruct (is_driver (o_adapter o)); injection E1 as <- <- _; split_and!; try done.
    by apply nodes_with_subs. }
  destruct Hm1 as (-> & Hs1 & Hn1 & Hsubs). clear E1.
  pose proof (deliver_all_same msgs m1) as Hsame.
  assert (Hs2 : nodes_stored (deliver_all msgs m1) db) by by eapply nodes_same.
  assert (Hin : n ∈ nodes (m_nodes (deliver_all msgs m1))).
  { rewrite (sm_nodes _ _ Hsame), Hn1. apply Hn. }
  split; [replace m2 with (neu_manager_del_node ut_d (deliver_all msgs m1) (name n)).2
            by (by rewrite E2); by apply nodes_deleted|].
  revert E2. unfold neu_manager_del_node. rewrite (find_node_Some plugins _ db n Hs2 Hin).
  intros [= <-]. simpl. rewrite (sm_subs _ _ Hsame), Hsubs.
  by apply (subs_node_deleted m db n o).
Qed.
(** ** Renaming a node *)

Lemma rename_to_other old new x : x ≠ old → rename_to old new x = x.
Proof. intros Hx. unfold rename_to. by rewrite decide_False. Qed.
Lemma rename_to_old old new : rename_to old new old = new.
Proof. unfold rename_to. by rewrite decide_True. Qed.

Lemma rename_elsewhere old new db :
  elsewhere (λ x, x ≠ old ∧ x ≠ new) db (rename_node_rows old new db).
Proof.
  assert (Hq : ∀ x, rename_to old new x ≠ old ∧ rename_to old new x ≠ new ↔ x ≠ old ∧ x ≠ new).
  { intros x. unfold rename_to. case_decide; naive_solver. }
  split; simpl; apply filter_fmap_same; intros r; simpl; try apply Hq; intros [Hr _];
    rewrite rename_to_other by done; by destruct r.
Qed.

Section Renamed.
Context (m : manager) (db : database) (n : node_entity_t) (o : node_obj P) (new : string).
Context (Hsys : system_ok m db) (Hn : node_at m n o).
Context (Hshort : short new) (Hfresh : new ∉ name <$> nodes (m_nodes m)).

#[local] Abbreviation db' := (rename_node_rows (name n) new db).

Lemma rename_fresh_rows : new ∉ nr_name <$> db_nodes db.
Proof.
  intros (r & -> & Hr)%list_elem_of_fmap. apply Hfresh. by apply (ns_rows _ _ _ (so_nodes _ _ _ Hsys)).
Qed.

Lemma rename_statement : (neu_sqlite_persister_update_node db (name n) new).2 = db'.
Proof.
  destruct (ns_node _ _ _ (so_nodes _ _ _ Hsys) n o Hn) as (Hname & Hd & _).
  unfold neu_sqlite_persister_update_node.
  rewrite decide_False by (intros Hno; apply Hno; rewrite <-Hname; apply (dur_config _ _ _ Hd)).
  unfold short in Hshort. rewrite text_fits_bytes by lia.
  rewrite (bool_decide_eq_true_2 (new ∉ _)) by apply rename_fresh_rows.
  by rewrite orb_true_r.
Qed.

Lemma rename_name_ne : new ≠ name n.
Proof. intros ->. apply Hfresh. apply list_elem_of_fmap_2, Hn. Qed.

Context (a' : neu_adapter_t P) (Ha' : (neu_adapter_rename (o_adapter o) new).2 = a').

Lemma renamed_durable : durable a' db'.
Proof.
  rewrite <-Ha'.
  destruct (ns_node _ _ _ (so_nodes _ _ _ Hsys) n o Hn) as (Hname & Hd & _).
  rewrite <-rename_statement, <-Hname. eapply (served_durable (intf (o_module o)) (ops (o_module o)));
    [apply Hops|by eapply served_rename, surjective_pairing| |done].
  split; [unfold short in Hshort; lia|right; apply rename_fresh_rows].
Qed.

Lemma renamed_adapter : a_name a' = new ∧ a_type a' = a_type (o_adapter o).
Proof. rewrite <-Ha'. unfold neu_adapter_rename. simpl. by destruct (is_driver (o_adapter o)), (is_driver _). Qed.

Lemma renamed_elem x :
  x ∈ hash_add (with_name new n) (hash_del name (name n) (nodes (m_nodes m))) ↔
  x = with_name new n ∨ x ∈ nodes (m_nodes m) ∧ name x ≠ name n.
Proof.
  unfold hash_add. rewrite elem_of_app, list_elem_of_singleton, elem_of_hash_del; [tauto|].
  apply (ns_names _ _ _ (so_nodes _ _ _ Hsys)).
Qed.

#[local] Abbreviation heap' := (m_heap (set_adapter (adapter n) a' m)).

Lemma renamed_heap x o' :
  x = with_name new n ∨ x ∈ nodes (m_nodes m) ∧ name x ≠ name n → heap' !! adapter x = Some o' →
  x = with_name new n ∧ o' = {| o_module := o_module o; o_adapter := a' |} ∨
  node_at m x o' ∧ name x ≠ name n ∧ name x ≠ new.
Proof.
  pose proof (so_nodes _ _ _ Hsys) as Hs. simpl. intros [->|[Hx Hne]] Ho'.
  - left. split; [done|]. simpl in Ho'. rewrite lookup_alter_eq, (proj2 Hn) in Ho'. by injection Ho' as <-.
  - right. rewrite lookup_alter_ne in Ho'.
    + split_and!; [done|done|]. intros E. apply Hfresh. rewrite <-E. by apply list_elem_of_fmap_2.
    + intros E. apply Hne. by rewrite (table_ok_inj adapter (nodes (m_nodes m)) n x); [|apply Hs|apply Hn|..].
Qed.

Lemma nodes_renamed subs :
  nodes_stored
    (with_m_nodes (set_nodes (hash_add (with_name new n)
                               (hash_del name (name n) (nodes (m_nodes m)))) (m_nodes m))
       (with_m_subs subs (set_adapter (adapter n) a' m))) db'.
Proof.
  pose proof renamed_durable as Hd'. pose proof (dur_config _ _ _ Hd') as Hc'.
  destruct renamed_adapter as [Hna Hta].
  pose proof (so_nodes _ _ _ Hsys) as [[Hnames Hptrs Hplain Hheap Hnext Hnode Hplug Hdb Hf] Hrows].
  split; [split|]; simpl; try apply Hc'; try setoid_rewrite renamed_elem.
  - apply table_ok_add; [by apply table_ok_del|]. rewrite hash_find_del by done.
    case_decide; [done|]. by apply hash_find_None.
  - apply table_ok_add; [by eapply table_ok_sublist; [apply hash_del_sublist|]|].
    apply hash_find_None. intros (x & E & [Hx Hne]%elem_of_hash_del)%list_elem_of_fmap; [|done].
    apply Hne. by rewrite (table_ok_inj adapter (nodes (m_nodes m)) x n); [|done|done|apply Hn|].
  - intros x [->|[Hx _]]; [|by apply Hplain]. destruct (Hplain n (proj1 Hn)) as (? & ? & ? & _). done.
  - intros x Hx. assert (Ha : ∃ o', m_heap m !! adapter x = Some o').
    { destruct Hx as [->|[Hx _]]; [|auto]. by exists o; apply Hn. }
    destruct Ha as [o' Ho']. destruct (decide (adapter n = adapter x)) as [E|Hne];
      [rewrite E, lookup_alter_eq, Ho'|rewrite lookup_alter_ne by done]; eauto.
  - intros p. destruct (decide (adapter n = p)) as [<-|Hne].
    + intros _. apply Hnext. by exists o; apply Hn.
    + rewrite lookup_alter_ne by done. apply Hnext.
  - intros x o' [Hx Ho']. apply renamed_elem in Hx.
    destruct (renamed_heap x o' Hx Ho') as [[-> ->]|(Hxo & Hne & Hne')]; simpl.
    + split_and!; [done|done|]. destruct (Hnode n o Hn) as (_ & _ & Hi).
      apply list_elem_of_fmap in Hi as (r & Ei & Hr). unfold ident_of in *. simpl. rewrite Hta.
      apply list_elem_of_fmap. eexists. split; [|by apply list_elem_of_fmap_2].
      unfold node_ident in *. simpl. injection Ei as E1 -> -> ->. by rewrite <-E1, rename_to_old.
    + destruct (Hnode x o' Hxo) as (Hname & Hd & Hi). split_and!; [done| |].
      * eapply (durable_elsewhere (λ y, y ≠ name n ∧ y ≠ new)); [done|by rewrite Hname
          |apply rename_elsewhere|apply Hc'..].
      * apply list_elem_of_fmap in Hi as (r & Ei & Hr). rewrite Ei.
        apply list_elem_of_fmap. eexists. split; [|by apply list_elem_of_fmap_2].
        unfold node_ident in *. simpl. injection Ei as E1 _ _ _. rewrite rename_to_other; congruence.
  - intros x o' [Hx Ho']. apply renamed_elem in Hx.
    destruct (renamed_heap x o' Hx Ho') as [[-> ->]|(Hxo & _)]; simpl; [|by apply (Hplug x)].
    rewrite Hta. by apply (Hplug n).
  - intros r (r0 & -> & Hr0)%list_elem_of_fmap. simpl. specialize (Hrows r0 Hr0).
    apply list_elem_of_fmap in Hrows as (x & -> & Hx). apply list_elem_of_fmap.
    destruct (decide (name x = name n)) as [E|E].
    + exists (with_name new n). rewrite E, rename_to_old, renamed_elem. auto.
    + exists x. rewrite rename_to_other, renamed_elem by done. auto.
Qed.
(** Of a subscription that the new name meets, it meets one end only. *)
Lemma renamed_row r :
  r ∈ db_subs db →
  if is_driver (o_adapter o) then rename_to (name n) new (sr_app r) = sr_app r
  else rename_to (name n) new (sr_driver r) = sr_driver r.
Proof.
  intros Hr. destruct (is_driver (o_adapter o)) eqn:Hty; apply rename_to_other.
  - by eapply sub_app_not_driver.
  - intros E. destruct (sub_parent_group m db n o r (so_nodes _ _ _ Hsys) Hn Hr E). congruence.
Qed.

Lemma renamed_keys (subs : neu_subscribe_mgr_t) el :
  subs_stored subs db → el ∈ subs →
  (rename_to (name n) new (key_driver el), key_group el) ∈ group_row_key <$> db_groups db'.
Proof.
  intros Hsub Hel. pose proof (ss_keys _ _ Hsub el Hel) as Hk.
  apply list_elem_of_fmap in Hk as (g & Eg & Hg). apply list_elem_of_fmap.
  eexists. split; [|by apply list_elem_of_fmap_2]. unfold group_row_key, key_driver, key_group in *.
  by rewrite Eg.
Qed.

Lemma renamed_apps subs r x :
  subs_stored subs db → r ∈ db_subs db' → x ∈ db_nodes db' → nr_name x = sr_app r →
  nr_type x = 2 ∧ nr_plugin_name x ≠ "Monitor"%string.
Proof.
  intros Hsub (r0 & -> & Hr0)%list_elem_of_fmap (x0 & -> & Hx0)%list_elem_of_fmap. simpl. intros E.
  apply (ss_apps _ _ Hsub r0 x0); [done|done|].
  apply (rename_to_inj (name n) new (nr_name <$> db_nodes db)); [|by apply list_elem_of_fmap_2| |done].
  - right. apply rename_fresh_rows.
  - by apply (dok_sub_node db (ns_db _ _ _ (so_nodes _ _ _ Hsys))).
Qed.

Lemma renamed_driver_subs :
  is_driver (o_adapter o) = true →
  ∃ subs', neu_subscribe_manager_update_driver_name (m_subs m) (name n) new = Some subs' ∧
    subs_stored subs' db'.
Proof.
  intros Hty. pose proof (so_subs _ _ _ Hsys) as Hsub. pose proof (ss_ok _ _ Hsub) as Hok.
  pose proof rename_name_ne as Hne. pose proof (update_driver_name_spec (m_subs m) (name n) new Hshort Hne) as E.
  eexists. split; [exact E|].
  pose proof (rename_split_perm (name n) new (m_subs m)) as Hp.
  split.
  - eapply mgr_ok_perm; [symmetry; exact Hp|]. apply rename_if_ok; [done|done|].
    intros (el & En & Hel)%list_elem_of_fmap. apply rename_fresh_rows. rewrite En.
    pose proof (ss_keys _ _ Hsub el Hel) as Hk. apply list_elem_of_fmap in Hk as (g & Eg & Hg).
    unfold key_driver. rewrite Eg.
    by apply (dok_group_node db (ns_db _ _ _ (so_nodes _ _ _ Hsys))).
  - intros r. rewrite (rename_driver_rows (m_subs m) (name n) new _ Hshort Hne E).
    setoid_rewrite (ss_rows _ _ Hsub). simpl. rewrite list_elem_of_fmap.
    pose proof renamed_row as Hrow. rewrite Hty in Hrow.
    split; [intros (r0 & Hr0 & ->)|intros (r0 & -> & Hr0)]; exists r0; unfold sub_row_of;
      by rewrite (Hrow r0 Hr0).
  - intros el Hel. rewrite Hp in Hel. apply list_elem_of_fmap in Hel as (el0 & -> & Hel0).
    rewrite rename_if_key by done. by apply (renamed_keys (m_subs m)).
  - intros r x. by apply (renamed_apps (m_subs m)).
Qed.

Lemma renamed_app_subs :
  is_driver (o_adapter o) = false →
  subs_stored (neu_subscribe_manager_update_app_name (m_subs m) (name n) new) db'.
Proof.
  intros Hty. pose proof (so_subs _ _ _ Hsys) as Hsub. pose proof (ss_ok _ _ Hsub) as Hok. split.
  - apply update_app_name_spec; [done|done|]. apply Forall_forall. intros el Hel Hin.
    apply rename_fresh_rows. apply list_elem_of_fmap in Hin as (sub & En & Hs). rewrite En.
    apply (dok_sub_node db (ns_db _ _ _ (so_nodes _ _ _ Hsys)) (row_of_sub el sub)).
    apply (ss_rows _ _ Hsub). by exists el, sub.
  - intros r. rewrite rename_app_rows by done. setoid_rewrite (ss_rows _ _ Hsub). simpl.
    rewrite list_elem_of_fmap. pose proof renamed_row as Hrow. rewrite Hty in Hrow.
    split; [intros (r0 & Hr0 & ->)|intros (r0 & -> & Hr0)]; exists r0; unfold sub_row_of;
      by rewrite (Hrow r0 Hr0).
  - intros el' (el & -> & Hel)%list_elem_of_fmap. simpl.
    pose proof (renamed_keys (m_subs m) el Hsub Hel) as Hk.
    rewrite rename_to_other in Hk; [by destruct el as [[]]|]. intros E.
    pose proof (ss_keys _ _ Hsub el Hel) as Hg. destruct (key el) as [kd kg] eqn:Ek.
    unfold key_driver in E. rewrite Ek in E. simpl in E. subst kd.
    destruct (group_driver plugins m db n o kg (so_nodes _ _ _ Hsys) Hn Hg). congruence.
  - intros r x. by apply (renamed_apps (m_subs m)).
Qed.
End Renamed.

(** [NEU_REQ_UPDATE_NODE], the node and [NEU_RESP_NODE_RENAME]: the answer of the
    node is always processed. *)
Lemma rename_node_ok (m : manager) db node new n o e a' :
  system_ok m db → handle_update_node m node new = 0 → short new →
  node_at m n o → name n = node → neu_adapter_rename (o_adapter o) new = (e, a') →
  ∃ m' db', handle_node_rename_resp link level rtt (set_adapter (adapter n) a' m) db e node new =
    Some (m', db') ∧ system_ok m' db'.
Proof.
  intros Hsys Eq Hshort Hn <- Ea. pose proof (so_nodes _ _ _ Hsys) as Hs.
  assert (Hfresh : new ∉ name <$> nodes (m_nodes m)).
  { apply find_node_None. revert Eq. unfold handle_update_node.
    destruct (neu_node_manager_find (m_nodes m) (name n)); [|done].
    by destruct (neu_node_manager_find (m_nodes m) new). }
  assert (e = 0) as -> by (revert Ea; unfold neu_adapter_rename; by intros [= <- _]).
  assert (Ha' : (neu_adapter_rename (o_adapter o) new).2 = a') by by rewrite Ea.
  destruct (renamed_adapter o new a' Ha') as [_ Hta].
  unfold handle_node_rename_resp, neu_manager_update_node_name, neu_node_manager_is_driver,
    neu_node_manager_update_name. simpl.
  rewrite (hash_find_elem name) by (done || apply Hs || apply Hn). unfold view. simpl.
  rewrite lookup_alter_eq, (proj2 Hn). simpl. rewrite Hta.
  rewrite (rename_statement m db n o new); [|done..].
  destruct (is_driver (o_adapter o)) eqn:Hty.
  - assert (Ht : a_type (o_adapter o) = NEU_NA_TYPE_DRIVER)
      by (unfold is_driver in Hty; by destruct (a_type (o_adapter o))). rewrite Ht. simpl.
    destruct (renamed_driver_subs m db n o new Hsys Hn Hshort Hfresh Hty) as (subs' & -> & Hsub').
    simpl. eexists _, _. split; [done|]. split; [|done].
    by apply (nodes_renamed m db n o new Hsys Hn Hshort Hfresh a' Ha').
  - assert (Ht : a_type (o_adapter o) = NEU_NA_TYPE_APP)
      by (unfold is_driver in Hty; by destruct (a_type (o_adapter o))). rewrite Ht. simpl.
    eexists _, _. split; [done|]. split.
    + by apply (nodes_renamed m db n o new Hsys Hn Hshort Hfresh a' Ha').
    + by apply (renamed_app_subs m db n o).
Qed.
End Transactions.
