(* ===== verification/ManagerAdd.v ===== *)
(** * Adding a node

    [NEU_REQ_ADD_NODE]: a new node is in the table and in the database, with its
    setting; a node whose setting the plugin refuses leaves no trace in either. *)

From S2P Require Import Prelude UtHash NeuTypes CHeap DriverCache Tag Group Driver NodeManager Subscribe Persist Adapter AdapterConfig AdapterStored AdapterGtag AdapterOk AdapterRestart AdapterFrame SubscribeRows Manager ManagerOk.

Section Add.
Context {P : Type} (intf : string → plugin_intf P) (ops : string → plugin_ops).
Context (plugins : list (plugin_entity_t P)).
Context (link : P → Z) (level : P → Z) (rtt : P → option Z) (ut_d : Z).
Context `{SQL : Sqlite} `{!SqliteOk SQL}.

#[local] Abbreviation manager := (neu_manager_t P).
#[local] Abbreviation nodes_loaded := (nodes_loaded plugins).
#[local] Abbreviation nodes_stored := (nodes_stored plugins).
#[local] Abbreviation system_ok := (system_ok plugins).

(** ** The adapter of a node that the database does not know *)

Definition new_adapter (node : string) (ty : neu_node_type_e) (p : P) : neu_adapter_t P :=
  {| a_name := node; a_type := ty; a_state := NEU_NODE_RUNNING_STATE_INIT; a_setting := None;
     a_timer_connect := timers_none; a_driver := neu_adapter_driver_create; a_plugin := p |}.

Lemma unknown_no_rows node db :
  db_ok db → node ∉ nr_name <$> db_nodes db →
  adapter_load_setting node db = None ∧ (∀ x, db_interval node db x = None) ∧
  (∀ x n, db_tag node db x n = None) ∧ neu_sqlite_persister_load_groups db node = [].
Proof.
  intros Hdb Hno.
  assert (Hg : ∀ r, r ∈ db_groups db → gr_driver r ≠ node).
  { intros r Hr <-. apply Hno. by apply (dok_group_node db Hdb). }
  assert (Hgi : ∀ x, db_interval node db x = None).
  { intros x. unfold db_interval. destruct (hash_find _ _ _) as [r|] eqn:E; [|done].
    apply hash_find_Some in E as [Hr [= Hk _]]. by destruct (Hg r Hr). }
  split_and!.
  - unfold adapter_load_setting, neu_sqlite_persister_load_node_setting.
    destruct (hash_find _ _ _) as [r|] eqn:E; [|done]. exfalso. apply Hno.
    apply hash_find_Some in E as [Hr <-]. by apply (dok_setting_node db Hdb).
  - done.
  - intros x n. destruct (db_tag node db x n) eqn:E; [|done]. exfalso.
    assert (is_Some (db_interval node db x)) as [i Hi] by (eapply (db_tag_group _ _ _ n); [done|by rewrite E]).
    by rewrite Hgi in Hi.
  - unfold neu_sqlite_persister_load_groups.
    assert (filter (λ r, gr_driver r = node) (db_groups db) = []) as ->.
    { induction (db_groups db) as [|r l IH]; [done|]. rewrite filter_cons_False.
      - apply IH. intros x Hx. apply Hg. by right.
      - apply Hg. by left. }
    apply Permutation_nil_r, sql_order_perm.
Qed.

Lemma storage_state_unknown node s db :
  node ∉ nr_name <$> db_nodes db → adapter_storage_state node s db = db.
Proof.
  intros Hno. unfold adapter_storage_state, neu_sqlite_persister_update_node_state.
  by rewrite decide_True.
Qed.

Lemma create_new i pl clock node ty p db :
  db_ok db → node ∉ nr_name <$> db_nodes db →
  neu_adapter_create i pl clock node ty p db =
    Some (if (intf_init i p).1 =? 0 then Some (new_adapter node ty (intf_init i p).2) else None, db).
Proof.
  intros Hdb Hno. destruct (unknown_no_rows node db Hdb Hno) as (Hset & _ & _ & Hg).
  unfold neu_adapter_create. destruct (intf_init i p) as [rv p1]. rewrite Hset. simpl.
  destruct ty; simpl.
  - unfold adapter_load_group_and_tag. simpl. rewrite Hg. simpl. by rewrite storage_state_unknown.
  - by rewrite storage_state_unknown.
Qed.

(** A setting that the plugin accepts starts the node. *)
Lemma set_setting_new i node ty p s db e a db' :
  node ∉ nr_name <$> db_nodes db →
  neu_adapter_set_setting i (new_adapter node ty p) s db = (e, a, db') →
  db' = db ∧ a_name a = node ∧ a_type a = ty ∧ d_groups (a_driver a) = [] ∧
  (e = 0 → a_setting a = Some s).
Proof.
  intros Hno. unfold neu_adapter_set_setting.
  destruct (intf_setting i s _) as [rv p1]. destruct (Z.eqb_spec rv 0) as [->|Hne]; cycle 1.
  { intros [= <- <- <-]. split_and!; try done. }
  rewrite decide_True by done. unfold neu_adapter_start. simpl.
  destruct (intf_start i p1) as [err p2]. destruct (err =? NEU_ERR_SUCCESS).
  - rewrite storage_state_unknown by done. intros [= <- <- <-].
    destruct ty; split_and!; done.
  - intros [= <- <- <-]. split_and!; done.
Qed.
(** ** The rows of a new node *)

Definition row_of (a : neu_adapter_t P) (plugin : string) (tags : option string) : node_row :=
  {| nr_name := a_name a; nr_type := type_code (a_type a); nr_state := state_code (a_state a);
     nr_plugin_name := plugin; nr_tags := tags |}.

Definition stored_new (db : database) (r : node_row) (setting : option string) : database :=
  let db1 := (neu_sqlite_persister_store_node db r).2 in
  match setting with Some s => adapter_storage_setting (nr_name r) s db1 | None => db1 end.

Lemma stored_new_rows db r setting :
  db_ok db → nr_name r ∉ nr_name <$> db_nodes db → node_check r = true →
  let db' := stored_new db r setting in
  db_ok db' ∧ db_nodes db' = db_nodes db ++ [r] ∧ db_groups db' = db_groups db ∧
  db_tags db' = db_tags db ∧ db_subs db' = db_subs db ∧
  elsewhere (λ x, x ≠ nr_name r) db db' ∧ adapter_load_setting (nr_name r) db' = setting.
Proof.
  intros Hdb Hno Hc.
  pose proof (run_persister_ok (PStoreNode r) db Hdb) as [Hdb1 _]. simpl in Hdb1.
  destruct (unknown_no_rows (nr_name r) db Hdb Hno) as (Hset & _). revert Hdb1.
  unfold stored_new, neu_sqlite_persister_store_node.
  rewrite Hc, bool_decide_eq_true_2 by done. simpl. set (db1 := {| db_nodes := _ |}). intros Hdb1.
  assert (Hel : elsewhere (λ x, x ≠ nr_name r) db db1).
  { split; try done. simpl. apply filter_snoc_same. tauto. }
  destruct setting as [s|]; [|done].
  pose proof (run_persister_ok (PStoreSetting (nr_name r) s) db1 Hdb1) as [Hdb2 _]. simpl in Hdb2.
  revert Hdb2. unfold adapter_storage_setting, neu_sqlite_persister_store_node_setting.
  rewrite decide_True; [|simpl; rewrite fmap_app; set_solver]. simpl. intros Hdb2.
  split_and!; try done.
  - etransitivity; [exact Hel|]. split; try done. simpl. rewrite filter_snoc_same by tauto.
    by apply filter_filter_same.
  - unfold adapter_load_setting, neu_sqlite_persister_load_node_setting. simpl.
    set (x := {| st_node := _ |}). set (l := filter _ _).
    assert (Hl : hash_find st_node (nr_name r) l = None).
    { apply hash_find_None. intros (y & E & [Hne _]%list_elem_of_filter)%list_elem_of_fmap. congruence. }
    change (l ++ [x]) with (hash_add x l). rewrite hash_find_add, Hl. by rewrite decide_True.
Qed.

Lemma new_durable (a : neu_adapter_t P) db plugin tags :
  db_ok db → rows_faithful db → a_name a ∉ nr_name <$> db_nodes db → d_groups (a_driver a) = [] →
  node_check (row_of a plugin tags) = true →
  durable a (stored_new db (row_of a plugin tags) (a_setting a)).
Proof.
  intros Hdb Hf Hno Hd Hc.
  destruct (stored_new_rows db (row_of a plugin tags) (a_setting a) Hdb Hno Hc)
    as (Hdb' & Hn & Hg & Ht & _ & _ & Hset). simpl in Hset.
  destruct (unknown_no_rows (a_name a) db Hdb Hno) as (_ & Hi & Htag & _).
  set (db' := stored_new db _ _) in *. clearbody db'. split; [done| |done|].
  - split; try done.
    + by split; rewrite Hd; constructor.
    + rewrite Hn, fmap_app. set_solver.
    + intros x. unfold mem_interval, find_group. rewrite Hd. unfold db_interval in *. by rewrite Hg, Hi.
    + intros x n. unfold mem_tag, find_group. rewrite Hd. unfold db_tag in *. by rewrite Ht, Htag.
    + intros r. rewrite Ht. apply Hf.
    + intros x i. unfold mem_interval, find_group. by rewrite Hd.
  - intros r. rewrite Hn. intros [Hr| ->%list_elem_of_singleton]%elem_of_app Hk.
    + destruct Hno. rewrite <-Hk. by apply list_elem_of_fmap_2.
    + simpl. by destruct (a_state a).
Qed.
(** ** The tables *)

(** What [nodes_stored] looks at. *)
Lemma nodes_stored_ext (m m' : manager) db :
  nodes_stored m db → nodes (m_nodes m') = nodes (m_nodes m) → m_heap m' = m_heap m →
  m_next m <= m_next m' → nodes_stored m' db.
Proof.
  intros [[] Hrows] En Eh Ex.
  assert (Hat : ∀ n o, node_at m' n o → node_at m n o) by (intros n o [??]; split; congruence).
  split; [split; rewrite ?En, ?Eh; try done|by rewrite En].
  - intros p Hp. specialize (ns_next p Hp). lia.
  - intros n o Hn. by apply ns_node, Hat.
  - intros n o Hn. by apply (ns_plugin n), Hat.
Qed.

Lemma heap_next_fresh (m : manager) db : nodes_loaded m db → m_heap m !! m_next m = None.
Proof.
  intros Hs. destruct (m_heap m !! m_next m) eqn:E; [|done].
  pose proof (ns_next _ _ _ Hs (m_next m)) as Hlt. rewrite E in Hlt. specialize (Hlt ltac:(eauto)). lia.
Qed.

Lemma node_ptr_fresh (m : manager) db n :
  nodes_loaded m db → n ∈ nodes (m_nodes m) → adapter n ≠ m_next m.
Proof.
  intros Hs Hn E. destruct (ns_heap _ _ _ Hs n Hn) as [o Ho].
  rewrite E, (heap_next_fresh m db Hs) in Ho. done.
Qed.

Definition new_entity (node module : string) (ptr : Z) (tags : option string) : node_entity_t :=
  {| node_ptr := ptr; name := node; adapter := ptr; is_static := false; display := true;
     single := false; is_monitor := bool_decide (module = "Monitor"%string); addr := sockaddr_zero;
     node_tags := tags |}.

(** One more node, with its rows. *)
Lemma loaded_added (m m' : manager) db db' a e tags :
  nodes_loaded m db → a_name a ∉ name <$> nodes (m_nodes m) → short (a_name a) →
  a_type a = pe_type e → pe_single e = false →
  neu_plugin_manager_find plugins (pe_name e) = Some e →
  nodes (m_nodes m') = hash_add (new_entity (a_name a) (pe_name e) (m_next m) tags) (nodes (m_nodes m)) →
  m_heap m' = <[m_next m := {| o_module := pe_name e; o_adapter := a |}]> (m_heap m) →
  m_next m' = m_next m + 1 →
  durable a db' → elsewhere (λ x, x ≠ a_name a) db db' →
  (∀ i, i ∈ node_ident <$> db_nodes db → i ∈ node_ident <$> db_nodes db') →
  (a_name a, type_code (a_type a), pe_name e, tags) ∈ node_ident <$> db_nodes db' →
  nodes_loaded m' db'.
Proof.
  intros Hs Hnew Hsh Hty Hsing Hfind En Eh Ex Hda Hel Hids Hid.
  pose proof (node_ptr_fresh m db) as Hfr. pose proof (dur_config _ _ _ Hda) as Hca.
  set (n0 := new_entity _ _ _ _) in *.
  assert (Hin : ∀ x, x ∈ nodes (m_nodes m') ↔ x ∈ nodes (m_nodes m) ∨ x = n0).
  { intros x. rewrite En. unfold hash_add. by rewrite elem_of_app, list_elem_of_singleton. }
  assert (Hat : ∀ x o, node_at m' x o →
    x = n0 ∧ o = {| o_module := pe_name e; o_adapter := a |} ∨ node_at m x o ∧ name x ≠ a_name a).
  { intros x o [Hx Ho]. apply Hin in Hx. rewrite Eh in Ho. destruct Hx as [Hx| ->].
    - rewrite lookup_insert_ne in Ho by (symmetry; by apply Hfr). right. split; [done|].
      intros Ek. apply Hnew. rewrite <-Ek. by apply list_elem_of_fmap_2.
    - simpl in Ho. rewrite lookup_insert_eq in Ho. injection Ho as <-. by left. }
  destruct Hs as [Hnames Hptrs Hplain Hheap Hnext Hnode Hplug Hdb Hf]. split; try apply Hca.
  - rewrite En. apply table_ok_add; [done|]. by apply hash_find_None.
  - rewrite En. apply table_ok_add; [done|]. apply hash_find_None.
    intros (x & Ek & Hx)%list_elem_of_fmap. by apply (Hfr x).
  - intros x [Hx| ->]%Hin; [by apply Hplain|done].
  - intros x [Hx| ->]%Hin; rewrite Eh.
    + rewrite lookup_insert_ne by (symmetry; by apply Hfr). auto.
    + simpl. rewrite lookup_insert_eq. eauto.
  - intros p. rewrite Eh, Ex. destruct (decide (p = m_next m)) as [->|Hne]; [lia|].
    rewrite lookup_insert_ne by done. intros Hp. specialize (Hnext p Hp). lia.
  - intros x o [[-> ->]|[Hx Hne]]%Hat; [done|].
    destruct (Hnode x o Hx) as (Hname & Hd' & Hi). split_and!; [done| |by apply Hids].
    eapply (durable_elsewhere (λ y, y ≠ a_name a)); [done|by rewrite Hname|exact Hel|apply Hca..].
  - intros x o [[-> ->]|[Hx Hne]]%Hat; [|by apply (Hplug x)]. by exists e.
Qed.

Lemma nodes_added (m m' : manager) db a e tags :
  let r := row_of a (pe_name e) tags in
  let db' := stored_new db r (a_setting a) in
  nodes_stored m db → a_name a ∉ name <$> nodes (m_nodes m) → short (a_name a) →
  d_groups (a_driver a) = [] → a_type a = pe_type e → pe_single e = false →
  neu_plugin_manager_find plugins (pe_name e) = Some e → node_check r = true →
  nodes (m_nodes m') = hash_add (new_entity (a_name a) (pe_name e) (m_next m) tags) (nodes (m_nodes m)) →
  m_heap m' = <[m_next m := {| o_module := pe_name e; o_adapter := a |}]> (m_heap m) →
  m_next m' = m_next m + 1 →
  nodes_stored m' db'.
Proof.
  intros r db' Hs Hnew Hsh Hd Hty Hsing Hfind Hc En Eh Ex.
  assert (Hno : nr_name r ∉ nr_name <$> db_nodes db).
  { intros (x & Hk & Hx)%list_elem_of_fmap. apply Hnew. simpl in Hk. rewrite Hk.
    by apply (ns_rows _ _ _ Hs). }
  pose proof (new_durable a db (pe_name e) tags (ns_db _ _ _ Hs) (ns_faithful _ _ _ Hs) Hno Hd Hc) as Hda.
  destruct (stored_new_rows db r (a_setting a) (ns_db _ _ _ Hs) Hno Hc)
    as (_ & Hn & _ & _ & _ & Hel & _). fold r db' in Hda, Hn, Hel.
  split.
  - eapply (loaded_added m m' db db' a e tags); try done; try apply Hs;
      rewrite Hn, fmap_app; intros; apply elem_of_app; [by left|right; by apply list_elem_of_singleton].
  - intros x. rewrite Hn, En. unfold hash_add. rewrite fmap_app. intros [Hx| ->%list_elem_of_singleton]%elem_of_app.
    + apply elem_of_app. left. by apply (ns_rows _ _ _ Hs).
    + apply elem_of_app. right. by apply list_elem_of_singleton.
Qed.

(** Subscriptions do not meet a new node. *)
Lemma subs_added subs db r setting :
  subs_stored subs db → db_ok db → nr_name r ∉ nr_name <$> db_nodes db → node_check r = true →
  subs_stored subs (stored_new db r setting).
Proof.
  intros [Hok Hrows Hkeys Happs] Hdb Hno Hc.
  destruct (stored_new_rows db r setting Hdb Hno Hc) as (_ & Hn & Hg & _ & Hs & _).
  split; rewrite ?Hn, ?Hg, ?Hs; try done.
  intros x y Hx [Hy| ->%list_elem_of_singleton]%elem_of_app Hk; [by eapply Happs|].
  destruct Hno. rewrite Hk. by apply (dok_sub_node db Hdb).
Qed.
(** ** The request *)

Lemma hash_del_added (x : node_entity_t) l :
  name x ∉ name <$> l → hash_del name (name x) (hash_add x l) = l.
Proof.
  unfold hash_add. induction l as [|y l IH]; csimpl; [by rewrite decide_True|].
  intros [Hne Hl]%not_elem_of_cons. rewrite decide_False by congruence. by rewrite IH.
Qed.

Lemma new_row_check (a : neu_adapter_t P) plugin tags :
  short (a_name a) → (String.length plugin < 32)%nat → node_check (row_of a plugin tags) = true.
Proof.
  unfold short. intros Hn Hp. unfold node_check. simpl. rewrite !text_fits_bytes by lia.
  by destruct (a_type a), (a_state a).
Qed.

(** Either nothing is left, or there is one more node. *)
Lemma add_node_inv clock (m : manager) db node plugin setting tags state e m' db' :
  nodes_stored m db →
  neu_manager_add_node intf ops plugins link level rtt ut_d clock m db node plugin setting tags state =
    Some (e, m', db') →
  db' = db ∧ m_subs m' = m_subs m ∧
  (e ≠ 0 ∧ nodes (m_nodes m') = nodes (m_nodes m) ∧ m_heap m' = m_heap m ∧ m_next m <= m_next m' ∨
   e = 0 ∧ ∃ pe a, neu_plugin_manager_find plugins plugin = Some pe ∧ pe_name pe = plugin ∧
     pe_single pe = false ∧ a_name a = node ∧ a_type a = pe_type pe ∧ d_groups (a_driver a) = [] ∧
     a_setting a = setting ∧ (node ∉ name <$> nodes (m_nodes m)) ∧
     nodes (m_nodes m') = hash_add (new_entity node plugin (m_next m) tags) (nodes (m_nodes m)) ∧
     m_heap m' = <[m_next m := {| o_module := plugin; o_adapter := a |}]> (m_heap m) ∧
     m_next m' = m_next m + 1).
Proof.
  intros Hs. unfold neu_manager_add_node.
  destruct (neu_plugin_manager_find plugins plugin) as [pe|] eqn:Hfind;
    [|intros [= <- <- <-]; split_and!; [done..|left; split_and!; [done..|lia]]].
  pose proof (hash_find_Some pe_name _ _ _ Hfind) as [_ <-].
  destruct (pe_single pe) eqn:Hsing; [intros [= <- <- <-]; split_and!; [done..|left; split_and!; [done..|lia]]|].
  destruct (neu_node_manager_find (m_nodes m) node) as [p|] eqn:Hf;
    [intros [= <- <- <-]; split_and!; [done..|left; split_and!; [done..|lia]]|].
  apply find_node_None in Hf. destruct (pe_open pe) as [p0|]; [|done]. cbn [mbind option_bind].
  assert (Hno : node ∉ nr_name <$> db_nodes db).
  { intros (x & Hk & Hx)%list_elem_of_fmap. apply Hf. rewrite Hk. by apply (ns_rows _ _ _ Hs). }
  rewrite create_new by (done || apply Hs). cbn [mbind option_bind].
  destruct (Z.eqb_spec (intf_init (intf (pe_name pe)) p0).1 0) as [_|Hinit]; cycle 1.
  { intros [= <- <- <-]. split_and!; [done..|left; split_and!; [done..|lia]]. }
  set (a := new_adapter node (pe_type pe) _). set (heap := insert _ _ (m_heap m)).
  cbv zeta. set (ns := (neu_node_manager_add _ _ _ _ _).2).
  assert (Hns : nodes ns = hash_add (new_entity node (pe_name pe) (m_next m) tags) (nodes (m_nodes m))).
  { unfold ns, neu_node_manager_add, view, new_entity, heap. simpl. by rewrite lookup_insert_eq. }
  clearbody ns. destruct setting as [s|]; cycle 1.
  { intros [= <- <- <-]. split_and!; [done..|right]. split; [done|]. by exists pe, a. }
  destruct (neu_adapter_set_setting _ a s db) as [[ret a1] db1] eqn:Es.
  apply set_setting_new in Es; [|done]. destruct Es as (-> & Hn1 & Hty1 & Hd1 & Hset1).
  destruct (Z.eqb_spec ret 0) as [->|Hret]; simpl; intros [= <- <- <-].
  - split_and!; [done..|right]. split; [done|]. exists pe, a1. split_and!; try done; [by apply Hset1|].
    simpl. unfold heap. by rewrite alter_insert_eq.
  - split_and!; [done..|left]. split_and!; [done| | |simpl; lia].
    + unfold neu_node_manager_del. rewrite Hns.
      rewrite hash_find_add, (proj2 (hash_find_None name _ _) Hf), decide_True by done. simpl.
      by apply (hash_del_added (new_entity node (pe_name pe) (m_next m) tags)).
    + unfold heap. rewrite delete_insert_eq. apply delete_id. eapply heap_next_fresh, Hs.
Qed.

(** [NEU_REQ_ADD_NODE]; the names are arrays of the message. *)
Lemma add_node_ok clock (m : manager) db node plugin setting tags e m' db' :
  system_ok m db → short node → (String.length plugin < 32)%nat →
  handle_add_node intf ops plugins link level rtt ut_d clock m db node plugin setting tags =
    Some (e, m', db') →
  system_ok m' db'.
Proof.
  intros [Hs Hsub] Hsh Hpl. unfold handle_add_node.
  destruct (neu_manager_add_node _ _ _ _ _ _ _ _ _ _ _ _ _ _ _) as [[[e1 m1] db1]|] eqn:E; simpl; [|done].
  apply add_node_inv in E; [|done]. destruct E as (-> & Esubs & [(He & En & Eh & Ex)|(-> & pe & a & E)]).
  { rewrite (proj2 (Z.eqb_neq e1 NEU_ERR_SUCCESS) He). intros [= <- <- <-]. split.
    - by eapply nodes_stored_ext.
    - by rewrite Esubs. }
  destruct E as (Hfind & <- & Hsing & <- & Hty & Hd & <- & Hnew & En & Eh & Ex). simpl.
  intros [= <- <- <-].
  assert (Edb : manager_storage_add_node m1 db (a_name a) tags =
                (neu_sqlite_persister_store_node db (row_of a (pe_name pe) tags)).2).
  { unfold manager_storage_add_node, neu_node_manager_find. rewrite En, hash_find_add.
    rewrite (proj2 (hash_find_None name _ _) Hnew), decide_True by done. simpl.
    by rewrite Eh, lookup_insert_eq. }
  rewrite Edb. change (system_ok m1 (stored_new db (row_of a (pe_name pe) tags) (a_setting a))).
  pose proof (new_row_check a (pe_name pe) tags Hsh Hpl) as Hc. split.
  - by eapply nodes_added.
  - rewrite Esubs. apply subs_added; [done|apply Hs| |done].
    intros (x & Hk & Hx)%list_elem_of_fmap. apply Hnew. simpl in Hk. rewrite Hk.
    by apply (ns_rows _ _ _ Hs).
Qed.
End Add.
