(* ===== verification/ManagerHistory.v ===== *)
(** * Every request keeps the system in order

    [handled]: a request of the manager with everything it causes.  Each of them
    keeps [system_ok], which holds of an empty manager and an empty database. *)

From S2P Require Import Prelude UtHash NeuTypes CHeap DriverCache Tag Group Driver NodeManager Subscribe Persist Adapter AdapterConfig AdapterStored AdapterGtag AdapterOk AdapterRestart AdapterFrame SubscribeRows Manager ManagerOk ManagerTrans ManagerAdd.

Definition database_empty : database :=
  {| db_nodes := []; db_settings := []; db_groups := []; db_tags := []; db_subs := [] |}.

Section History.
Context {P : Type} (intf : string → plugin_intf P) (ops : string → plugin_ops).
Context (plugins : list (plugin_entity_t P)).
Context (link : P → Z) (level : P → Z) (rtt : P → option Z).
Context (trans_data_port : Z → Z) (parse_topic : string → Z * option string) (ut_d : Z).
Context `{SQL : Sqlite} `{!SqliteOk SQL} {J : Type} `{Jansson J}.

#[local] Abbreviation manager := (neu_manager_t P).

(** A request and everything it causes: the messages to drivers, the answer of the
    node and what the manager does on it.  Names come from arrays of the
    messages.  The messages between the manager and a node are delivered before the
    next request is taken: in the program a second request can overtake the answer
    to a first one, which these steps leave out.  A request to a node keeps to
    [request_ok]; a batch of new drivers ([NEU_REQ_ADD_DRIVERS]) and the requests
    that the plugins answer are not steps. *)
Inductive handled (m : manager) (db : database) : manager → database → Prop :=
  | handled_add_node clock node plugin setting tags e m' db' :
      short node → (String.length plugin < 32)%nat →
      handle_add_node intf ops plugins link level rtt ut_d clock m db node plugin setting tags =
        Some (e, m', db') →
      handled m db m' db'
  | handled_node_init node src state m' db' :
      handle_node_init intf m db node src state = Some (m', db') → handled m db m' db'
  | handled_update_node_tag node tags e m' db' :
      handle_update_node_tag m db node tags = (e, m', db') → handled m db m' db'
  | handled_del_node node m1 db1 msgs m2 :
      handle_del_node m db node = Some (0, m1, db1, msgs) →
      neu_manager_del_node ut_d (deliver_all msgs m1) node = (NEU_ERR_SUCCESS, m2) →
      handled m db m2 db1
  | handled_rename n o new e a' m' db' :
      handle_update_node m (name n) new = 0 → short new → node_at m n o →
      neu_adapter_rename (o_adapter o) new = (e, a') →
      handle_node_rename_resp link level rtt (set_adapter (adapter n) a' m) db e (name n) new =
        Some (m', db') →
      handled m db m' db'
  | handled_subscribe app driver group params st e m1 db1 msgs :
      short group →
      handle_subscribe_group trans_data_port parse_topic m db app driver group params st =
        Some (e, m1, db1, msgs) →
      handled m db (deliver_all msgs m1) db1
  | handled_subscribe_groups app l e m1 db1 msgs :
      Forall (λ i, short (sg_group i)) l →
      handle_subscribe_groups trans_data_port parse_topic m db app l = Some (e, m1, db1, msgs) →
      handled m db (deliver_all msgs m1) db1
  | handled_update_subscribe app driver group params st e m1 db1 :
      short driver → short group →
      handle_update_subscribe m db app driver group params st = (e, m1, db1) → handled m db m1 db1
  | handled_unsubscribe app driver group e m1 db1 msgs :
      short driver → short group →
      handle_unsubscribe_group m db app driver group = (e, m1, db1, msgs) →
      handled m db (deliver_all msgs m1) db1
  | handled_del_group n o group m1 (h : mem J) r a' db' h' :
      handle_del_group_req m (name n) group = (0, m1) → node_at m n o →
      handle_del_group (o_adapter o) (name n) group db h = Some (r, a', db', h') →
      handled m db (set_adapter (adapter n) a' m1) db'
  | handled_update_group n o group new itv now e a' db' :
      handle_update_group_req link level rtt m (name n) = 0 → node_at m n o →
      short group → short new → 0 <= itv < 2147483648 →
      handle_update_group now (o_adapter o) group new itv db = (e, a', db') →
      handled m db
        (handle_update_group_resp (set_adapter (adapter n) a' m) e (name n) group new) db'
  | handled_request n o req a' db' :
      node_at m n o → (∀ x, req ≠ ReqRename x) → moves req ≠ Some true →
      request_ok (o_adapter o) db req →
      served (intf (o_module o)) (ops (o_module o)) (o_adapter o) db req a' db' →
      handled m db (set_adapter (adapter n) a' m) db'.

Context (Hops : ∀ s, plugin_keeps (ops s)).

Lemma system_empty : system_ok plugins manager_empty database_empty.
Proof.
  assert (Hn : ∀ n o, node_at (P:=P) manager_empty n o → False) by by intros n o [?%elem_of_nil _].
  split; [split; [split|]|split]; simpl; try (by constructor); try done;
    try (by intros ? ?%elem_of_nil); try (by intros ? ? ?%Hn).
  - intros p [o Ho]. by rewrite lookup_empty in Ho.
  - split; simpl; try (by constructor); by intros ? ?%elem_of_nil.
  - by split; constructor.
  - intros r. split; [|by intros ?%elem_of_nil]. by intros (el & _ & ?%elem_of_nil & _).
  - by intros r x ?%elem_of_nil.
Qed.

Lemma handled_ok m db m' db' : handled m db m' db' → system_ok plugins m db → system_ok plugins m' db'.
Proof.
  intros Hh Hs. destruct Hh.
  - by eapply add_node_ok.
  - by eapply node_init_ok.
  - by eapply update_node_tag_ok.
  - by eapply del_node_ok.
  - destruct (rename_node_ok intf ops plugins link level rtt Hops m db (name n) new n o e a')
      as (m1 & db1 & E & Hs'); [done..|]. congruence.
  - apply deliver_all_ok. by eapply subscribe_group_ok.
  - apply deliver_all_ok. by eapply subscribe_groups_ok.
  - by eapply (update_subscribe_ok plugins m db app driver group).
  - apply deliver_all_ok. by eapply (unsubscribe_group_ok plugins m db app driver group).
  - by eapply del_group_system.
  - by eapply (update_group_system intf ops plugins link level rtt Hops m db (name n) group new).
  - by eapply system_served.
Qed.


Lemma sub_rows_subscribed subs db d g a :
  subs_stored subs db → subscribed subs d g a ↔ (a, d, g) ∈ sub_key <$> db_subs db.
Proof.
  intros Hsub. split.
  - intros (r & Hr & <-)%subscribed_in_table. apply list_elem_of_fmap_2. by apply (ss_rows _ _ Hsub).
  - intros (r & [= -> -> ->] & Hr)%list_elem_of_fmap. apply in_table_subscribed.
    by apply (ss_rows _ _ Hsub).
Qed.

End History.
