(* ===== verification/ManagerRestart.v ===== *)
(** * The system survives a restart

    [neu_manager_create] on the database of a system: every node is there again
    with its plugin, its tags, its configuration and its setting, a node that was
    running runs, and the subscriptions are the same.  Loading is three loops over
    the rows: the nodes, the messages the new adapters send, the subscriptions. *)

From S2P Require Import Prelude UtHash NeuTypes CHeap DriverCache Tag Group Driver NodeManager Subscribe Persist Adapter AdapterConfig AdapterStored AdapterGtag AdapterOk AdapterRestart AdapterFrame SubscribeRows Manager ManagerOk ManagerTrans ManagerAdd ManagerHistory.

(** ** Only the states of nodes differ *)

Record keeps_rows (db db' : database) : Prop := {
  kr_settings : db_settings db' = db_settings db;
  kr_groups : db_groups db' = db_groups db;
  kr_tags : db_tags db' = db_tags db;
  kr_subs : db_subs db' = db_subs db;
  kr_idents : node_ident <$> db_nodes db' = node_ident <$> db_nodes db;
}.

#[export] Instance keeps_rows_preorder : PreOrder keeps_rows.
Proof. split; [by intros db; split|]. intros x y z [] []. split; congruence. Qed.

Section Keeps.
Context {P : Type} (intf : plugin_intf P) `{SQL : Sqlite}.

Lemma storage_state_keeps node s db : keeps_rows db (adapter_storage_state node s db).
Proof.
  destruct (update_state_rows db node s) as (_ & Hs & Hg & Ht & _).
  destruct (update_state_about false node (state_code s) db) as [_ Hi Hsub _].
  by split; [| | |apply Hsub|].
Qed.

Lemma start_keeps a db e a' db' : neu_adapter_start intf a db = (e, a', db') → keeps_rows db db'.
Proof.
  unfold neu_adapter_start. intros E.
  destruct (a_state a); try (by injection E as _ _ <-);
    destruct (intf_start intf (a_plugin a)) as [err p];
    (destruct (err =? NEU_ERR_SUCCESS); [|by injection E as _ _ <-]);
    injection E as _ _ <-; apply storage_state_keeps.
Qed.

Lemma stop_keeps a db e a' db' : neu_adapter_stop intf a db = (e, a', db') → keeps_rows db db'.
Proof.
  unfold neu_adapter_stop. intros E.
  destruct (a_state a); try (by injection E as _ _ <-).
  destruct (intf_stop intf (a_plugin a)) as [err p].
  destruct (err =? NEU_ERR_SUCCESS); [|by injection E as _ _ <-].
  injection E as _ _ <-. apply storage_state_keeps.
Qed.

Lemma keeps_interval db db' node x :
  keeps_rows db db' → db_interval node db' x = db_interval node db x.
Proof. intros [_ Hg _ _ _]. unfold db_interval. by rewrite Hg. Qed.
Lemma keeps_tag db db' node x n : keeps_rows db db' → db_tag node db' x n = db_tag node db x n.
Proof. intros [_ _ Ht _ _]. unfold db_tag. by rewrite Ht. Qed.
Lemma keeps_setting db db' node :
  keeps_rows db db' → adapter_load_setting node db' = adapter_load_setting node db.
Proof.
  intros [Hs _ _ _ _]. unfold adapter_load_setting, neu_sqlite_persister_load_node_setting.
  by rewrite Hs.
Qed.

Lemma keeps_stored node d db db' :
  keeps_rows db db' → db_ok db' → stored_config node d db → stored_config node d db'.
Proof.
  intros [Hs Hg Ht _ Hi] Hdb Hc. apply (stored_node_statement node d db); try done.
  by apply idents_names.
Qed.
End Keeps.

Section Restart.
Context {P : Type} (intf : string → plugin_intf P) (ops : string → plugin_ops).
Context (plugins : list (plugin_entity_t P)).
Context (link : P → Z) (level : P → Z) (rtt : P → option Z).
Context (trans_data_port : Z → Z) (parse_topic : string → Z * option string) (ut_d : Z).
Context `{SQL : Sqlite} `{!SqliteOk SQL} {J : Type} `{Jansson J}.
Context (Hops : ∀ s, plugin_keeps (ops s)).

#[local] Abbreviation manager := (neu_manager_t P).
#[local] Abbreviation nodes_loaded := (nodes_loaded plugins).
#[local] Abbreviation nodes_stored := (nodes_stored plugins).
#[local] Abbreviation system_ok := (system_ok plugins).

(** The libraries are there, the plugins take the settings that are stored and can
    be started, and the topics of the subscriptions are accepted. *)
Record comes_up (db : database) : Prop := {
  cu_open : ∀ r e, r ∈ db_nodes db → neu_plugin_manager_find plugins (nr_plugin_name r) = Some e →
    ∃ p, pe_open e = Some p ∧ (intf_init (intf (nr_plugin_name r)) p).1 = 0 ∧
      ∀ s, adapter_load_setting (nr_name r) db = Some s →
        (intf_setting (intf (nr_plugin_name r)) s (intf_init (intf (nr_plugin_name r)) p).2).1 = 0;
  cu_start : ∀ r p, r ∈ db_nodes db → (intf_start (intf (nr_plugin_name r)) p).1 = 0;
  cu_topics : ∀ r x, r ∈ db_subs db → x ∈ db_nodes db → nr_name x = sr_app r →
    topic_refused parse_topic (nr_plugin_name x) (sr_params r) = false;
}.

(** The system before the restart. *)
Context (m0 : manager) (db : database) (Hsys : system_ok m0 db) (Hup : comes_up db).

(** The node of a row. *)
Lemma row_node r :
  r ∈ db_nodes db → ∃ n o, node_at m0 n o ∧ name n = nr_name r ∧ node_ident r = ident_of n o ∧
    durable (o_adapter o) db ∧ a_name (o_adapter o) = nr_name r.
Proof.
  intros Hr. pose proof (so_nodes _ _ _ Hsys) as Hs.
  pose proof (ns_rows _ _ _ Hs r Hr) as Hin. apply list_elem_of_fmap in Hin as (n & En & Hn).
  destruct (ns_heap _ _ _ Hs n Hn) as [o Ho]. assert (Hno : node_at m0 n o) by done.
  destruct (ns_node _ _ _ Hs n o Hno) as (Ha & Hd & _). exists n, o. split_and!; try done.
  - by apply (node_row_of plugins m0 db).
  - congruence.
Qed.

(** *** The nodes *)

(** What a new node is like. *)
Definition fresh_state (r : node_row) (a : neu_adapter_t P) : Prop :=
  is_Some (adapter_load_setting (nr_name r) db) → a_state a = NEU_NODE_RUNNING_STATE_READY.

Lemma load_one clock (m : manager) db1 r :
  r ∈ db_nodes db → keeps_rows db db1 → db_ok db1 → nodes_loaded m db1 →
  nr_name r ∉ name <$> nodes (m_nodes m) →
  ∃ m' db2 a, neu_manager_add_node intf ops plugins link level rtt ut_d clock m db1 (nr_name r)
      (nr_plugin_name r) None (nr_tags r) (nr_state r) = Some (NEU_ERR_SUCCESS, m', db2) ∧
    nodes_loaded m' db2 ∧ keeps_rows db db2 ∧ db_ok db2 ∧ m_subs m' = m_subs m ∧
    m_inits m' = m_inits m ++ [(nr_name r, nr_state r)] ∧
    nodes (m_nodes m') = nodes (m_nodes m) ++ [new_entity (nr_name r) (nr_plugin_name r) (m_next m) (nr_tags r)] ∧
    m_heap m' = <[m_next m := {| o_module := nr_plugin_name r; o_adapter := a |}]> (m_heap m) ∧
    fresh_state r a.
Proof.
  intros Hr Hk Hdb1 Hl Hnew. destruct (row_node r Hr) as (n & o & Hn & En & Ei & Hd & Ea).
  destruct (ns_plugin _ _ _ (so_nodes _ _ _ Hsys) n o Hn) as (e & He & Hsing & Hty & _).
  injection Ei as _ Et Em Etag. rewrite <-Em in He.
  pose proof (hash_find_Some pe_name _ _ _ He) as [_ Epe].
  destruct (cu_open db Hup r e Hr He) as (p & Hopen & Hinit & Hset).
  pose proof (keeps_stored _ _ _ _ Hk Hdb1 (dur_config _ _ _ Hd)) as Hc1. rewrite Ea in Hc1.
  assert (Happ : pe_type e = NEU_NA_TYPE_APP → ∀ x, db_interval (nr_name r) db1 x = None).
  { intros Ht x. rewrite (keeps_interval db db1) by done. rewrite <-Ea.
    apply (durable_app _ _ _ Hd). congruence. }
  destruct (create_restores (intf (nr_plugin_name r)) (ops (nr_plugin_name r)) (Hops _) clock (nr_name r)
    (pe_type e) db1 p (stored_loadable _ _ _ Hc1) Happ Hinit)
    as (a & db2 & E & Hna & Hta & _ & Hc2 & _ & _ & Hsome & _ & Edb2).
  destruct (create_durable (intf (nr_plugin_name r)) (ops (nr_plugin_name r)) (Hops _) clock (nr_name r)
    (pe_type e) db1 p (stored_loadable _ _ _ Hc1) Happ Hinit) as (a1 & db3 & E' & Hda & _).
  { intros s. rewrite (keeps_setting db db1) by done. apply Hset. }
  rewrite E in E'. injection E' as <- <-.
  destruct (update_state_about false (nr_name r) (state_code (a_state a)) db1) as [Hel Hids _ _].
  fold (adapter_storage_state (nr_name r) (a_state a) db1) in Hel, Hids. rewrite <-Edb2 in Hel, Hids.
  assert (Hk2 : keeps_rows db1 db2) by (rewrite Edb2; apply storage_state_keeps).
  unfold neu_manager_add_node. rewrite He, Hsing, (proj2 (find_node_None m (nr_name r)) Hnew), Hopen.
  cbn [mbind option_bind]. rewrite E. cbn [mbind option_bind].
  eexists _, db2, a. split; [reflexivity|].
  assert (Hent : nodes (neu_node_manager_add
    (view link level rtt (<[m_next m := {| o_module := nr_plugin_name r; o_adapter := a |}]> (m_heap m)))
    (m_nodes m) (m_next m) (m_next m) (nr_tags r)).2 =
    hash_add (new_entity (nr_name r) (nr_plugin_name r) (m_next m) (nr_tags r)) (nodes (m_nodes m))).
  { unfold neu_node_manager_add, view, new_entity. simpl. rewrite lookup_insert_eq. simpl. by rewrite Hna. }
  split_and!; try done; [|by etransitivity|by apply Hc2|].
  - rewrite <-Epe in *. eapply (loaded_added plugins m _ db1 db2 a e (nr_tags r)); cbn [m_nodes m_heap m_next]; try done.
    + by rewrite Hna.
    + rewrite Hna, <-En. apply (ns_plain _ _ _ (so_nodes _ _ _ Hsys) n (proj1 Hn)).
    + rewrite Hent. by rewrite Hna.
    + by rewrite Hna.
    + by rewrite Hids.
    + rewrite Hids, (kr_idents _ _ Hk). apply list_elem_of_fmap. exists r. split; [|done].
      unfold node_ident. rewrite Hna, Hta, Hty, Et. congruence.
  - intros [s Hs]. apply (Hsome s); [by rewrite (keeps_setting db db1)|by apply Hset].
Qed.
(** The nodes of the rows [done] are there. *)
Record loading (done : list node_row) (m : manager) (db1 : database) : Prop := {
  ld_keeps : keeps_rows db db1;
  ld_db_ok : db_ok db1;
  ld_nodes : nodes_loaded m db1;
  ld_names : name <$> nodes (m_nodes m) = nr_name <$> done;
  ld_subs : m_subs m = [];
  ld_inits : m_inits m = (λ r, (nr_name r, nr_state r)) <$> done;
  ld_fresh : ∀ n o r, node_at m n o → r ∈ db_nodes db → nr_name r = name n →
    fresh_state r (o_adapter o);
}.

Lemma loading_start : loading [] manager_empty db.
Proof.
  pose proof (so_nodes _ _ _ Hsys) as Hs.
  assert (Hno : ∀ n o, node_at (P:=P) manager_empty n o → False) by by intros n o [?%elem_of_nil _].
  split; try done; try apply Hs; [|by intros n o r ?%Hno].
  split; simpl; try (by constructor); try (by intros ? ?%elem_of_nil); try (by intros ? ? ?%Hno);
    [|apply Hs..].
  intros p [o Ho]. by rewrite lookup_empty in Ho.
Qed.

Lemma load_nodes clock l : ∀ done m db1,
  db_nodes db = done ++ l → loading done m db1 →
  ∃ m' db2, manager_load_node intf ops plugins link level rtt ut_d clock m db1 l = Some (m', db2) ∧
    loading (db_nodes db) m' db2.
Proof.
  induction l as [|r l IH]; intros done m db1 El Hl.
  { rewrite app_nil_r in El. exists m, db1. by rewrite El. }
  assert (Hr : r ∈ db_nodes db) by (rewrite El; set_solver).
  pose proof Hl as [Hk Hdb1 Hns Hnames Hsubs Hinits Hfresh].
  assert (Hnew : nr_name r ∉ name <$> nodes (m_nodes m)).
  { rewrite Hnames. pose proof (dok_nodes db (ns_db _ _ _ (so_nodes _ _ _ Hsys))) as Ht.
    unfold table_ok in Ht. rewrite El, fmap_app in Ht. csimpl in Ht.
    apply NoDup_app in Ht as (_ & Ht & _). intros Hin. apply (Ht _ Hin). by left. }
  destruct (load_one clock m db1 r Hr Hk Hdb1 Hns Hnew)
    as (m' & db2 & a & E & Hns' & Hk' & Hdb2 & Hsubs' & Hinits' & En & Eh & Hfr).
  cbn [manager_load_node]. rewrite E. cbn [mbind option_bind].
  apply (IH (done ++ [r])); [by rewrite El, <-app_assoc|].
  split; try done.
  - rewrite En, !fmap_app, Hnames. done.
  - by rewrite Hsubs'.
  - by rewrite Hinits', fmap_app, Hinits.
  - intros n o r' [Hn Ho] Hr' Hk0. rewrite En in Hn. rewrite Eh in Ho.
    apply elem_of_app in Hn as [Hn| ->%list_elem_of_singleton].
    + rewrite lookup_insert_ne in Ho by (symmetry; by eapply (node_ptr_fresh plugins)).
      by apply (Hfresh n o r').
    + simpl in *. rewrite lookup_insert_eq in Ho. injection Ho as <-. simpl.
      rewrite (table_ok_inj nr_name (db_nodes db) r' r); [done| |done..].
      apply (ns_db _ _ _ (so_nodes _ _ _ Hsys)).
Qed.
(** *** The messages of the new adapters *)

Lemma loading_stored m db1 : loading (db_nodes db) m db1 → nodes_stored m db1.
Proof.
  intros [Hk _ Hl Hn _ _ _]. split; [done|]. intros r Hr. rewrite Hn.
  rewrite <-(idents_names _ _ (kr_idents _ _ Hk)). by apply list_elem_of_fmap_2.
Qed.

(** The row of a node and its plugin. *)
Lemma stored_row (m : manager) db1 n o :
  nodes_stored m db1 → keeps_rows db db1 → node_at m n o →
  ∃ r, r ∈ db_nodes db ∧ node_ident r = ident_of n o.
Proof.
  intros Hs Hk Hn. destruct (ns_node _ _ _ Hs n o Hn) as (_ & _ & Hi).
  rewrite (kr_idents _ _ Hk) in Hi. apply list_elem_of_fmap in Hi as (r & Hi & Hr). by exists r.
Qed.

Lemma start_runs (i : plugin_intf P) a db1 e a' db2 :
  neu_adapter_start i a db1 = (e, a', db2) → (∀ p, (intf_start i p).1 = 0) →
  a_state a = NEU_NODE_RUNNING_STATE_READY → a_state a' = NEU_NODE_RUNNING_STATE_RUNNING.
Proof.
  unfold neu_adapter_start. intros E Hi Hr. rewrite Hr in E. specialize (Hi (a_plugin a)).
  destruct (intf_start i (a_plugin a)) as [err p]. simpl in Hi. subst err. simpl in E.
  injection E as _ <- _. by destruct (is_driver _).
Qed.

(** What the message of a node does to the node. *)
Definition node_up (state : Z) (o : node_obj P) (db1 : database) (o' : node_obj P) (db2 : database)
    : Prop :=
  o_module o' = o_module o ∧ keeps_rows db1 db2 ∧
  (state = 3 → (∀ p, (intf_start (intf (o_module o)) p).1 = 0) →
     a_state (o_adapter o) = NEU_NODE_RUNNING_STATE_READY →
     a_state (o_adapter o') = NEU_NODE_RUNNING_STATE_RUNNING).

Lemma init_inv (m : manager) db1 n o src state :
  nodes_stored m db1 → node_at m n o →
  ∃ o' db2, handle_node_init intf m db1 (name n) src state = Some
      (with_m_heap (<[adapter n := o']> (m_heap m))
         (with_m_nodes (set_nodes (hash_update name (name n) (with_addr src) (nodes (m_nodes m)))
                          (m_nodes m)) m), db2) ∧
    node_up state o db1 o' db2.
Proof.
  intros Hs [Hn Ho]. unfold handle_node_init, neu_node_manager_update.
  rewrite (hash_find_elem name) by (done || apply Hs). simpl. set (ns := set_nodes _ _).
  assert (Hid : with_m_heap (<[adapter n := o]> (m_heap m)) (with_m_nodes ns m) = with_m_nodes ns m).
  { unfold with_m_heap, with_m_nodes. by rewrite insert_id. }
  destruct ((state =? 2) || (state =? 3) || (state =? 4)) eqn:Est; cycle 1.
  { exists o, db1. rewrite Hid. split; [done|]. split_and!; [done..|]. by intros ->. }
  unfold neu_node_manager_find. simpl. rewrite hash_find_update by done.
  rewrite decide_True by done. rewrite (hash_find_elem name) by (done || apply Hs). simpl.
  rewrite Ho. simpl.
  destruct (neu_adapter_start (intf (o_module o)) (o_adapter o) db1) as [[e1 a1] db2] eqn:E1.
  pose proof (start_keeps _ _ _ _ _ _ E1) as Hk1.
  assert (Hset : ∀ a, set_adapter (adapter n) a (with_m_nodes ns m) =
    with_m_heap (<[adapter n := {| o_module := o_module o; o_adapter := a |}]> (m_heap m))
      (with_m_nodes ns m)).
  { intros a. unfold set_adapter. simpl. f_equal. apply map_eq. intros p.
    destruct (decide (adapter n = p)) as [<-|Hne].
    - by rewrite lookup_alter_eq, Ho, lookup_insert_eq.
    - by rewrite lookup_alter_ne, lookup_insert_ne. }
  destruct (Z.eqb_spec state 4) as [->|Hne].
  - destruct (neu_adapter_stop (intf (o_module o)) a1 db2) as [[e2 a2] db3] eqn:E2.
    eexists _, db3. rewrite Hset. split; [reflexivity|]. split_and!; [done| |done].
    etransitivity; [done|by eapply stop_keeps].
  - eexists _, db2. rewrite Hset. split; [reflexivity|]. split_and!; [done|done|].
    intros _ Hst. by eapply start_runs.
Qed.

(** The nodes after the message. *)
Lemma init_node_at (m : manager) db1 n o o1 src n' o' :
  nodes_stored m db1 → node_at m n o →
  node_at (with_m_heap (<[adapter n := o1]> (m_heap m))
    (with_m_nodes (set_nodes (hash_update name (name n) (with_addr src) (nodes (m_nodes m)))
                     (m_nodes m)) m)) n' o' →
  name n' = name n ∧ o' = o1 ∨ name n' ≠ name n ∧ node_at m n' o'.
Proof.
  intros Hs [Hn Ho] [Hn' Ho']. simpl in Hn', Ho'. rewrite hash_update_fmap in Hn' by apply Hs.
  apply list_elem_of_fmap in Hn' as (x & -> & Hx).
  destruct (decide (name x = name n)) as [E|E].
  - left. simpl. split; [done|].
    assert (x = n) as -> by (by apply (table_ok_inj name (nodes (m_nodes m))); [apply Hs|..]).
    simpl in Ho'. rewrite lookup_insert_eq in Ho'. by injection Ho' as <-.
  - right. split; [done|]. rewrite lookup_insert_ne in Ho'; [done|]. intros E'. apply E.
    by rewrite (table_ok_inj adapter (nodes (m_nodes m)) n x); [|apply Hs|..].
Qed.

(** The nodes [done] have been heard of: those that ran are up. *)
Record starting (done : list string) (m : manager) (db1 : database) : Prop := {
  sg_keeps : keeps_rows db db1;
  sg_nodes : nodes_stored m db1;
  sg_names : name <$> nodes (m_nodes m) = nr_name <$> db_nodes db;
  sg_subs : m_subs m = [];
  sg_state : ∀ n o r, node_at m n o → r ∈ db_nodes db → nr_name r = name n → nr_state r = 3 →
    is_Some (adapter_load_setting (nr_name r) db) →
    a_state (o_adapter o) = if decide (name n ∈ done) then NEU_NODE_RUNNING_STATE_RUNNING
                            else NEU_NODE_RUNNING_STATE_READY;
}.

Lemma starting_step (m : manager) db1 done src r :
  starting done m db1 → r ∈ db_nodes db → nr_name r ∉ done →
  ∃ m' db2, handle_node_init intf m db1 (nr_name r) src (nr_state r) = Some (m', db2) ∧
    starting (done ++ [nr_name r]) m' db2.
Proof.
  intros [Hk Hs Hnames Hsubs Hst] Hr Hnew.
  assert (Hin : nr_name r ∈ name <$> nodes (m_nodes m)).
  { rewrite Hnames. by apply list_elem_of_fmap_2. }
  apply list_elem_of_fmap in Hin as (n & En & Hn). destruct (ns_heap _ _ _ Hs n Hn) as [o Ho].
  assert (Hno : node_at m n o) by done. rewrite En in *.
  destruct (init_inv m db1 n o src (nr_state r) Hs Hno) as (o' & db2 & E & Hmod & Hk2 & Hrun).
  eexists _, db2. split; [exact E|].
  destruct (node_init_nodes intf ops plugins Hops m db1 (name n) src (nr_state r) _ db2 Hs E)
    as (Hs' & Esubs & _).
  split; [by etransitivity|done| |by rewrite <-Hsubs|].
  - rewrite <-Hnames. simpl. by apply hash_update_keys.
  - intros n' x r' Hn' Hr' Ek Est Hset.
    destruct (init_node_at m db1 n o o' src n' x Hs Hno Hn') as [[Ex ->]|[Hne Hx]].
    + assert (r' = r) as ->.
      { apply (table_ok_inj nr_name (db_nodes db)); [|done|done|congruence].
        apply (ns_db _ _ _ (so_nodes _ _ _ Hsys)). }
      rewrite decide_True by (rewrite Ex; set_solver). apply Hrun; [done| |].
      * destruct (stored_row m db1 n o Hs Hk Hno) as (y & Hy & Ey).
        assert (y = r) as ->.
        { apply (table_ok_inj nr_name (db_nodes db)); [|done|done|by injection Ey; congruence].
          apply (ns_db _ _ _ (so_nodes _ _ _ Hsys)). }
        injection Ey as _ _ <- _. intros p. by apply (cu_start db Hup).
      * rewrite (Hst n o r Hno Hr En Est Hset). by rewrite decide_False.
    + rewrite (Hst n' x r' Hx Hr' Ek Est Hset).
      destruct (decide (name n' ∈ done)) as [Hd|Hd];
        [rewrite decide_True by set_solver|rewrite decide_False by set_solver]; done.
Qed.

Lemma start_nodes src l : ∀ done m db1,
  db_nodes db = done ++ l → starting (nr_name <$> done) m db1 →
  ∃ m' db2, init_nodes intf src m db1 ((λ r, (nr_name r, nr_state r)) <$> l) = Some (m', db2) ∧
    starting (nr_name <$> db_nodes db) m' db2.
Proof.
  induction l as [|r l IH]; intros done m db1 El Hst.
  { rewrite app_nil_r in El. eexists _, db1. split; [done|]. rewrite El. destruct Hst.
    split; try done. by eapply (nodes_stored_ext plugins m). }
  assert (Hnew : nr_name r ∉ nr_name <$> done).
  { pose proof (dok_nodes db (ns_db _ _ _ (so_nodes _ _ _ Hsys))) as Ht.
    unfold table_ok in Ht. rewrite El, fmap_app in Ht. csimpl in Ht.
    apply NoDup_app in Ht as (_ & Ht & _). intros Hin. apply (Ht _ Hin). by left. }
  destruct (starting_step m db1 (nr_name <$> done) (src (nr_name r)) r) as (m' & db2 & E & Hst');
    [done|rewrite El; set_solver|done|].
  csimpl. rewrite E. cbn [mbind option_bind].
  apply (IH (done ++ [r])); [by rewrite El, <-app_assoc|]. by rewrite fmap_app.
Qed.

Lemma loading_starting m db1 : loading (db_nodes db) m db1 → starting [] m db1.
Proof.
  intros Hl. pose proof Hl as [Hk _ _ Hn Hsubs _ Hfresh]. split; try done.
  - by apply loading_stored.
  - intros n o r Hno Hr Ek _ Hset. rewrite decide_False by apply not_elem_of_nil.
    by apply (Hfresh n o r).
Qed.
(** *** The subscriptions *)

Lemma row_node_at (m : manager) db1 nm :
  nodes_stored m db1 → keeps_rows db db1 → nm ∈ nr_name <$> db_nodes db →
  ∃ n o, node_at m n o ∧ name n = nm.
Proof.
  intros Hs Hk. rewrite <-(idents_names _ _ (kr_idents _ _ Hk)). by apply (row_node_of plugins m db1).
Qed.

(** The two ends of a stored subscription. *)
Lemma stored_sub_ends (m : manager) db1 r :
  nodes_stored m db1 → keeps_rows db db1 → r ∈ db_subs db →
  ∃ na oa nd od, node_at m na oa ∧ name na = sr_app r ∧ is_driver (o_adapter oa) = false ∧
    is_monitor na = false ∧ topic_refused parse_topic (o_module oa) (sr_params r) = false ∧
    node_at m nd od ∧ name nd = sr_driver r ∧ is_driver (o_adapter od) = true ∧
    is_Some (find_group (a_driver (o_adapter od)) (sr_group r)) ∧
    short (sr_app r) ∧ short (sr_driver r) ∧ short (sr_group r).
Proof.
  intros Hs Hk Hr. pose proof (so_nodes _ _ _ Hsys) as Hs0.
  pose proof (so_subs _ _ _ Hsys) as Hsub0. pose proof (ns_db _ _ _ Hs0) as Hdb.
  pose proof (dok_sub_node db Hdb r Hr) as Hra. pose proof (dok_sub_group db Hdb r Hr) as Hrg.
  destruct (row_node_at m db1 _ Hs Hk Hra) as (na & oa & Hna & Ena).
  destruct (stored_row m db1 na oa Hs Hk Hna) as (x & Hx & Ex). injection Ex as Ex1 Ex2 Ex3 _.
  assert (Exa : nr_name x = sr_app r) by congruence.
  destruct (ss_apps _ _ Hsub0 r x Hr Hx Exa) as [Ht Hm].
  pose proof (cu_topics db Hup r x Hr Hx Exa) as Htop. rewrite Ex3 in Htop, Hm. rewrite Ex2 in Ht.
  assert (Hrd : sr_driver r ∈ nr_name <$> db_nodes db).
  { apply list_elem_of_fmap in Hrg as (gr & [= -> _] & Hgr). by apply (dok_group_node db Hdb). }
  destruct (row_node_at m db1 _ Hs Hk Hrd) as (nd & od & Hnd & End).
  unfold sub_parent in Hrg. rewrite <-End, <-(kr_groups _ _ Hk) in Hrg.
  destruct (group_driver plugins m db1 nd od _ Hs Hnd Hrg) as [Htd Hi].
  destruct (ns_plain _ _ _ Hs na (proj1 Hna)) as (_ & _ & _ & Hsa).
  destruct (ns_plain _ _ _ Hs nd (proj1 Hnd)) as (_ & _ & _ & Hsd).
  destruct (ns_plugin _ _ _ Hs na oa Hna) as (_ & _ & _ & _ & Hmon).
  rewrite bool_decide_eq_false_2 in Hmon by done.
  exists na, oa, nd, od. rewrite <-Ena, <-End. split_and!; try done.
  - unfold is_driver. by destruct (a_type (o_adapter oa)).
  - unfold mem_interval in Hi. destruct (find_group _ _); [by eexists|by destruct Hi].
  - apply (ss_rows _ _ Hsub0) in Hr as (el & sub & Hel & _ & ->).
    pose proof (mok_short _ (ss_ok _ _ Hsub0)) as Hsh. rewrite Forall_forall in Hsh.
    by apply (Hsh el Hel).
Qed.

(** A stored subscription is accepted once. *)
Lemma resubscribe (m : manager) db1 r :
  nodes_stored m db1 → keeps_rows db db1 → mgr_ok (m_subs m) → r ∈ db_subs db →
  ¬ subscribed (m_subs m) (sr_driver r) (sr_group r) (sr_app r) →
  ∃ port subs', neu_manager_subscribe trans_data_port parse_topic m (sr_app r) (sr_driver r)
      (sr_group r) (sr_params r) (sr_static_tags r) = Some (0, port, with_m_subs subs' m) ∧
    mgr_ok subs' ∧ (∀ x, in_table subs' x ↔ in_table (m_subs m) x ∨ x = r) ∧
    (∀ el, el ∈ subs' → key el ∈ key <$> m_subs m ∨ key el = sub_parent r).
Proof.
  intros Hs Hk Hok Hr Hns. destruct (stored_sub_ends m db1 r Hs Hk Hr)
    as (na & oa & nd & od & Hna & Ena & Hta & Hmon & Htop & Hnd & End & Htd & [gr Hgr] & Hsa & Hsd & Hsg).
  pose proof (find_node_Some plugins m db1 na Hs (proj1 Hna)) as Hfa. rewrite Ena in Hfa.
  pose proof (find_node_Some plugins m db1 nd Hs (proj1 Hnd)) as Hfd. rewrite End in Hfd.
  assert (Hha : hash_find name (sr_app r) (nodes (m_nodes m)) = Some na).
  { rewrite <-Ena. apply hash_find_elem; [apply Hs|apply Hna]. }
  unfold neu_manager_subscribe, manager_subscribe, neu_node_manager_is_monitor.
  rewrite Hha, Hmon, Hfa, (proj2 Hna). cbn [mbind option_bind]. rewrite Htop, Hta, Hfd, (proj2 Hnd).
  cbn [mbind option_bind]. rewrite Htd. unfold neu_adapter_driver_group_exist. rewrite Hgr. simpl.
  set (addr := sun_id _).
  pose proof (sub_spec (m_subs m) _ _ _ (sr_params r) (sr_static_tags r) addr Hok Hsd Hsa Hsg) as Hspec.
  pose proof (sub_rows (m_subs m) _ _ _ (sr_params r) (sr_static_tags r) addr Hok Hsd Hsa Hsg Hns) as Hrows.
  pose proof (λ el, sub_keys_of (m_subs m) _ (sr_app r) _ (sr_params r) (sr_static_tags r) addr el Hsd Hsg)
    as Hkeys.
  destruct (neu_subscribe_manager_sub (m_subs m) _ _ _ _ _ addr) as [ret subs'].
  destruct Hspec as [Hok' Hspec]. rewrite decide_False in Hspec by done. destruct Hspec as [-> _].
  eexists _, subs'. split; [reflexivity|]. split_and!; try done.
  intros y. rewrite Hrows. unfold sub_row_of. by destruct r.
Qed.

(** The rows [R] have been loaded into the manager [m1]. *)
Record subscribing (m1 : manager) (db1 : database) (R : list sub_row) (m : manager) : Prop := {
  sb_same : same_system m1 (with_m_subs (m_subs m1) m);
  sb_ok : mgr_ok (m_subs m);
  sb_rows : ∀ r, in_table (m_subs m) r ↔ r ∈ R;
  sb_keys : ∀ el, el ∈ m_subs m → key el ∈ group_row_key <$> db_groups db;
  sb_db : ∀ r, r ∈ R → r ∈ db_subs db;
}.

Lemma load_one_sub (m1 : manager) db1 R m r :
  nodes_stored m1 db1 → keeps_rows db db1 → subscribing m1 db1 R m → r ∈ db_subs db → r ∉ R →
  ∃ port m', neu_manager_subscribe trans_data_port parse_topic m (sr_app r) (sr_driver r)
      (sr_group r) (sr_params r) (sr_static_tags r) = Some (0, port, m') ∧
    ∀ msgs, subscribing m1 db1 (R ++ [r]) (deliver_all msgs m').
Proof.
  intros Hs Hk [Hsame Hok Hrows Hkeys Hdb] Hr Hnew.
  assert (Hsm : nodes_stored m db1).
  { pose proof (nodes_same plugins _ _ db1 Hsame Hs) as Hn.
    apply (nodes_stored_ext plugins _ m) in Hn; [done..|]. simpl. lia. }
  destruct (resubscribe m db1 r Hsm Hk Hok Hr) as (port & subs' & E & Hok' & Hrows' & Hkeys').
  { intros (r' & Hr' & Ek)%subscribed_in_table. apply Hnew. apply Hrows in Hr'.
    rewrite (table_ok_inj sub_key (db_subs db) r r'); try done; [|by apply Hdb].
    apply (dok_subs db (ns_db _ _ _ (so_nodes _ _ _ Hsys))). }
  exists port, (with_m_subs subs' m). split; [done|]. intros msgs.
  pose proof (deliver_all_same msgs (with_m_subs subs' m)) as [En Es Ex Hh].
  split; rewrite ?Es; simpl; try done.
  - etransitivity; [exact Hsame|]. split; simpl; try done.
  - intros x. rewrite Hrows', Hrows, elem_of_app, list_elem_of_singleton. done.
  - intros el Hel. destruct (Hkeys' el Hel) as [(el0 & -> & Hel0)%list_elem_of_fmap| ->]; [by apply Hkeys|].
    by apply (dok_sub_group db (ns_db _ _ _ (so_nodes _ _ _ Hsys))).
  - intros x [Hx| ->%list_elem_of_singleton]%elem_of_app; [by apply Hdb|done].
Qed.
Lemma load_app (m1 : manager) db1 app l : ∀ R m,
  nodes_stored m1 db1 → keeps_rows db db1 → subscribing m1 db1 R m → NoDup l →
  (∀ r, r ∈ l → r ∈ db_subs db ∧ sr_app r = app ∧ r ∉ R) →
  ∃ m', load_subscriptions trans_data_port parse_topic m app l = Some m' ∧
    subscribing m1 db1 (R ++ l) m'.
Proof.
  induction l as [|r l IH]; intros R m Hs Hk Hsb Hnd Hl.
  { exists m. by rewrite app_nil_r. }
  apply NoDup_cons in Hnd as [Hr Hnd]. destruct (Hl r) as (Hdb & Happ & HR); [by left|].
  destruct (load_one_sub m1 db1 R m r Hs Hk Hsb Hdb HR) as (port & m' & E & Hsb').
  cbn [load_subscriptions]. rewrite Happ in E. rewrite E. cbn [mbind option_bind]. simpl.
  destruct (IH (R ++ [r]) (deliver_all [(app, MsgSubscribe app (sr_group r) port);
    (sr_driver r, MsgSubscribe app (sr_group r) port)] m')) as (m2 & E2 & Hsb2); [done|done|apply Hsb'|done| |].
  - intros x Hx. destruct (Hl x) as (? & ? & HxR); [by right|]. split_and!; try done.
    intros [?|Hxr%list_elem_of_singleton]%elem_of_app; [done|]. by subst x.
  - exists m2. split; [exact E2|]. by rewrite <-app_assoc in Hsb2.
Qed.

Lemma load_apps (m1 : manager) db1 apps : ∀ R m,
  nodes_stored m1 db1 → keeps_rows db db1 → subscribing m1 db1 R m →
  NoDup (info_node <$> apps) → (∀ r, r ∈ R → sr_app r ∉ info_node <$> apps) →
  ∃ m' R', load_app_subscriptions trans_data_port parse_topic m db1 apps = Some m' ∧
    subscribing m1 db1 R' m' ∧
    (∀ r, r ∈ R' ↔ r ∈ R ∨ r ∈ db_subs db ∧ sr_app r ∈ info_node <$> apps).
Proof.
  induction apps as [|i apps IH]; intros R m Hs Hk Hsb Hnd HR.
  { exists m, R. split_and!; [done|done|]. intros r. set_solver. }
  csimpl in Hnd. apply NoDup_cons in Hnd as [Hi Hnd].
  set (l := neu_sqlite_persister_load_subscriptions db1 (info_node i)).
  assert (Hl : ∀ r, r ∈ l ↔ r ∈ db_subs db ∧ sr_app r = info_node i).
  { intros r. unfold l, neu_sqlite_persister_load_subscriptions.
    rewrite list_elem_of_filter, (kr_subs _ _ Hk). tauto. }
  destruct (load_app m1 db1 (info_node i) l R m) as (m2 & E & Hsb2); try done.
  { unfold l, neu_sqlite_persister_load_subscriptions. apply NoDup_filter. rewrite (kr_subs _ _ Hk).
    apply (NoDup_fmap_1 sub_key). apply (dok_subs db (ns_db _ _ _ (so_nodes _ _ _ Hsys))). }
  { intros r [Hdb Ha]%Hl. split_and!; try done. intros Hin. apply (HR r Hin). rewrite Ha. by left. }
  destruct (IH (R ++ l) m2) as (m' & R' & E' & Hsb' & HR'); [done..| |].
  { intros r [Hin|[_ Ha]%Hl]%elem_of_app; [|by rewrite Ha]. intros Hin'. apply (HR r Hin). by right. }
  exists m', R'. cbn [load_app_subscriptions]. fold l. rewrite E. split_and!; [exact E'|done|].
  intros r. rewrite HR', elem_of_app, Hl. csimpl. rewrite elem_of_cons. tauto.
Qed.

(** The applications the loop runs over. *)
Lemma listed_apps (m : manager) db1 :
  nodes_stored m db1 →
  let apps := neu_node_manager_get (view link level rtt (m_heap m)) (m_nodes m) NodeManager.NEU_NA_TYPE_APP in
  NoDup (info_node <$> apps) ∧
  ∀ n o, node_at m n o → is_driver (o_adapter o) = false → name n ∈ info_node <$> apps.
Proof.
  intros Hs. unfold neu_node_manager_get. cbv zeta.
  assert (Hname : ∀ n, n ∈ nodes (m_nodes m) →
    info_node (node_info (view link level rtt (m_heap m)) n) = name n).
  { intros n Hn. destruct (ns_heap _ _ _ Hs n Hn) as [o Ho].
    destruct (ns_node _ _ _ Hs n o (conj Hn Ho)) as (Ha & _).
    destruct (ns_plain _ _ _ Hs n Hn) as (_ & _ & _ & Hsh).
    unfold node_info, view. simpl. rewrite Ho. simpl. rewrite Ha. unfold snprintf_s.
    apply substring_full. unfold short in Hsh. change (_ - 1)%nat with 127%nat. lia. }
  rewrite <-list_fmap_compose.
  assert (Hmap : ∀ l : list node_entity_t, (∀ n, n ∈ l → n ∈ nodes (m_nodes m)) →
    (info_node ∘ node_info (view link level rtt (m_heap m))) <$> l = name <$> l).
  { induction l as [|n l IH]; intros Hl; csimpl; [done|]. rewrite IH by set_solver. f_equal.
    apply Hname, Hl. by left. }
  set (ap := List.filter _ _).
  assert (Hsl : ap `sublist_of` nodes (m_nodes m)).
  { unfold ap. generalize (nodes (m_nodes m)). intros l. induction l as [|x l IH]; simpl; [done|].
    destruct (listed _ _ x); by constructor. }
  rewrite Hmap by (intros n Hn; by eapply elem_of_sublist). split.
  - eapply sublist_NoDup; [apply (ns_names _ _ _ Hs)|]. by apply fmap_sublist.
  - intros n o [Hn Ho] Hty. apply list_elem_of_fmap_2. unfold ap. apply list_elem_of_In, filter_In.
    split; [by apply list_elem_of_In|]. destruct (ns_plain _ _ _ Hs n Hn) as (Hst & Hdi & _).
    unfold listed, view. rewrite Hst, Hdi, Ho. simpl. unfold is_driver in Hty.
    by destruct (a_type (o_adapter o)).
Qed.
Lemma create_system clock src :
  ∃ m' db', neu_manager_create intf ops plugins link level rtt trans_data_port parse_topic ut_d clock
      src db = Some (m', db') ∧
    system_ok m' db' ∧ keeps_rows db db' ∧
    (∀ n o r, node_at m' n o → r ∈ db_nodes db → nr_name r = name n → nr_state r = 3 →
       is_Some (adapter_load_setting (nr_name r) db) →
       a_state (o_adapter o) = NEU_NODE_RUNNING_STATE_RUNNING).
Proof.
  destruct (load_nodes clock (db_nodes db) [] manager_empty db) as (m1 & db1 & E1 & Hl);
    [done|apply loading_start|].
  destruct (start_nodes src (db_nodes db) [] m1 db1) as (m2 & db2 & E2 & Hst);
    [done|by apply loading_starting|].
  pose proof Hst as [Hk Hs Hnames Hsubs Hstate].
  destruct (listed_apps m2 db2 Hs) as [Hnd Hlist].
  destruct (load_apps m2 db2 (neu_node_manager_get (view link level rtt (m_heap m2)) (m_nodes m2)
    NodeManager.NEU_NA_TYPE_APP) [] m2) as (m3 & R & E3 & [Hsame Hok Hrows Hkeys HRdb] & HR);
    [done|done| |done|by intros r ?%elem_of_nil|].
  { split; rewrite ?Hsubs; try done.
    - by split; constructor.
    - intros r. split; [by intros (el & _ & ?%elem_of_nil & _)|by intros ?%elem_of_nil].
    - by intros el ?%elem_of_nil.
    - by intros r ?%elem_of_nil. }
  exists m3, db2. unfold neu_manager_create, neu_sqlite_persister_load_nodes, manager_load_subscribe.
  rewrite E1. cbn [mbind option_bind]. rewrite (ld_inits _ _ _ Hl), E2. cbn [mbind option_bind].
  rewrite E3. cbn [mbind option_bind].
  assert (Hs3 : nodes_stored m3 db2).
  { pose proof (nodes_same plugins _ _ db2 Hsame Hs) as Hn.
    apply (nodes_stored_ext plugins _ m3) in Hn; [done..|]. simpl. lia. }
  split_and!; [done| |done|].
  - split; [done|]. split.
    + done.
    + intros r. rewrite Hrows, HR, (kr_subs _ _ Hk). split; [by intros [?%elem_of_nil|[? _]]|].
      intros Hr. right. split; [done|].
      destruct (stored_sub_ends m2 db2 r Hs Hk Hr) as (na & oa & _ & _ & Hna & <- & Hta & _). eauto.
    + intros el Hel. rewrite (kr_groups _ _ Hk). by apply Hkeys.
    + intros r x. rewrite (kr_subs _ _ Hk). intros Hr Hx Ex.
      assert (Hin : node_ident x ∈ node_ident <$> db_nodes db).
      { rewrite <-(kr_idents _ _ Hk). by apply list_elem_of_fmap_2. }
      apply list_elem_of_fmap in Hin as (y & [= E4 -> -> _] & Hy).
      apply (ss_apps _ _ (so_subs _ _ _ Hsys) r y); congruence.
  - intros n o r [Hn Ho] Hr Ek Es Hset. pose proof (sm_nodes _ _ Hsame) as En. simpl in En.
    rewrite En in Hn. destruct (same_system_object _ _ _ _ Hsame Ho) as (o2 & Ho2 & _ & _ & _ & Ha & _).
    rewrite Ha, (Hstate n o2 r) by done. rewrite decide_True; [done|]. rewrite <-Ek.
    by apply list_elem_of_fmap_2.
Qed.
End Restart.

(** ** Histories *)

Section Reached.
Context {P : Type} (intf : string → plugin_intf P) (ops : string → plugin_ops).
Context (plugins : list (plugin_entity_t P)).
Context (link : P → Z) (level : P → Z) (rtt : P → option Z).
Context (trans_data_port : Z → Z) (parse_topic : string → Z * option string) (ut_d : Z).
Context `{SQL : Sqlite} `{!SqliteOk SQL} {J : Type} `{Jansson J}.

#[local] Abbreviation manager := (neu_manager_t P).
#[local] Abbreviation create :=
  (neu_manager_create intf ops plugins link level rtt trans_data_port parse_topic ut_d).
#[local] Abbreviation comes_up := (comes_up intf plugins parse_topic).

(** Requests and restarts, from an empty database on. *)
Inductive reached : manager → database → Prop :=
  | reached_start : reached manager_empty database_empty
  | reached_step m db m' db' :
      reached m db →
      handled intf ops plugins link level rtt trans_data_port parse_topic ut_d m db m' db' →
      reached m' db'
  | reached_restart m db clock src m' db' :
      reached m db → comes_up db → create clock src db = Some (m', db') → reached m' db'.

Context (Hops : ∀ s, plugin_keeps (ops s)).

Lemma reached_ok m db : reached m db → system_ok plugins m db.
Proof.
  induction 1 as [|m db m' db' _ IH Hh|m db clock src m' db' _ IH Hup E].
  - apply system_empty.
  - by eapply handled_ok.
  - destruct (create_system intf ops plugins link level rtt trans_data_port parse_topic ut_d Hops
      m db IH Hup clock src) as (m1 & db1 & E1 & Hs & _). congruence.
Qed.

(** C2: The manager, its nodes and the database agree in every state that is
    [reached] from an empty database by requests, each handled together with the
    answer of its node, and by restarts that come up ([comes_up]): the nodes of the
    table are the nodes of the database; the database has the type, the plugin and
    the tags of each node, its groups with their intervals, its tags, its setting,
    and says that it runs exactly when it does; the subscriptions of the table are
    those of the database; and each of them leads from an application to a group
    that a driver has. Requests keep to [request_ok]: names and intervals fit their
    columns, tags are storable and an update keeps the display format of the tag,
    which the database does not update ([updated_format_not_stored]). *)
Theorem manager_and_database_agree m db :
  reached m db →
  (∀ nm, is_Some (neu_node_manager_find (m_nodes m) nm) ↔ nm ∈ nr_name <$> db_nodes db) ∧
  (∀ n o, node_at m n o →
     let a := o_adapter o in
     a_name a = name n ∧ ident_of n o ∈ node_ident <$> db_nodes db ∧
     (∀ g, mem_interval (a_driver a) g = db_interval (name n) db g) ∧
     (∀ g t, mem_tag (a_driver a) g t = db_tag (name n) db g t) ∧
     a_setting a = adapter_load_setting (name n) db ∧
     (∀ r, r ∈ db_nodes db → nr_name r = name n →
        nr_state r = state_code NEU_NODE_RUNNING_STATE_RUNNING ↔
        a_state a = NEU_NODE_RUNNING_STATE_RUNNING)) ∧
  (∀ d g a, subscribed (m_subs m) d g a ↔ (a, d, g) ∈ sub_key <$> db_subs db) ∧
  (∀ d g a, subscribed (m_subs m) d g a →
     ∃ na oa nd od, node_at m na oa ∧ name na = a ∧ is_driver (o_adapter oa) = false ∧
       node_at m nd od ∧ name nd = d ∧ is_driver (o_adapter od) = true ∧
       is_Some (find_group (a_driver (o_adapter od)) g)).
Proof.
  intros [Hs Hsub]%reached_ok. split_and!.
  - intros nm. by apply (node_in_rows plugins m db).
  - intros n o Hn. by apply (node_facts plugins m db).
  - intros d g a. by apply sub_rows_subscribed.
  - intros d g a (r & Hr & [= <- <- <-])%subscribed_in_table. apply (ss_rows _ _ Hsub) in Hr.
    pose proof (dok_sub_node db (ns_db _ _ _ Hs) r Hr) as Ha.
    pose proof (dok_sub_group db (ns_db _ _ _ Hs) r Hr) as Hg.
    apply list_elem_of_fmap in Hg as (gr & [= Hgd _] & Hgr).
    apply (dok_group_node db (ns_db _ _ _ Hs)) in Hgr. rewrite <-Hgd in Hgr.
    destruct (row_node_of plugins m db _ Hs Ha) as (na & oa & Hna & Ena).
    destruct (row_node_of plugins m db _ Hs Hgr) as (nd & od & Hnd & End).
    destruct (sub_parent_group plugins m db nd od r Hs Hnd Hr (eq_sym End)) as [Htd Hf].
    exists na, oa, nd, od. split_and!; try done.
    destruct (is_driver (o_adapter oa)) eqn:Hta; [|done].
    destruct (sub_app_not_driver plugins m db na oa r); done.
Qed.

(** C1: The system survives a restart. For every state that is [reached] from an
    empty database by requests, each handled together with the answer of its node,
    and earlier restarts: if the plugins of the stored nodes can be opened, take the
    stored settings and start, and no stored topic is refused ([comes_up]), then
    starting the manager on the database succeeds and gives the same nodes, each of
    the same type, plugin and tags, with the same groups, intervals, tags and
    setting; a node that was running with a setting runs; and the subscriptions are
    the same, with their parameters. Requests are those of [handled]: they keep to
    [request_ok], which leaves out updates that change the format of a tag
    ([updated_format_not_stored]) and values that the database does not keep;
    [comes_up] leaves out an emptied topic ([emptied_topic_is_lost]); a batch of new
    drivers and the requests to plugins are not among them. *)
Theorem restart_restores_system m db clock src :
  reached m db → comes_up db →
  ∃ m' db', create clock src db = Some (m', db') ∧
    (∀ nm, is_Some (neu_node_manager_find (m_nodes m') nm) ↔
           is_Some (neu_node_manager_find (m_nodes m) nm)) ∧
    (∀ n o n' o', node_at m n o → node_at m' n' o' → name n' = name n →
       let a := o_adapter o in let a' := o_adapter o' in
       o_module o' = o_module o ∧ a_type a' = a_type a ∧ node_tags n' = node_tags n ∧
       (∀ g, mem_interval (a_driver a') g = mem_interval (a_driver a) g) ∧
       (∀ g t, mem_tag (a_driver a') g t = mem_tag (a_driver a) g t) ∧
       a_setting a' = a_setting a ∧
       (a_state a = NEU_NODE_RUNNING_STATE_RUNNING → is_Some (a_setting a) →
        a_state a' = NEU_NODE_RUNNING_STATE_RUNNING)) ∧
    (∀ r, in_table (m_subs m') r ↔ in_table (m_subs m) r).
Proof.
  intros Hs%reached_ok Hup.
  destruct (create_system intf ops plugins link level rtt trans_data_port parse_topic ut_d Hops
    m db Hs Hup clock src) as (m' & db' & E & Hs' & Hk & Hrun).
  exists m', db'. destruct Hs as [Hn Hsub]. destruct Hs' as [Hn' Hsub']. split_and!; [done|..].
  - intros nm. rewrite (node_in_rows plugins m db nm Hn), (node_in_rows plugins m' db' nm Hn').
    by rewrite (idents_names _ _ (kr_idents _ _ Hk)).
  - intros n o n' o' Hno Hno' Ename.
    destruct (node_facts plugins m db n o Hn Hno) as (_ & Hi & Hiv & Htag & Hset & Hst).
    destruct (node_facts plugins m' db' n' o' Hn' Hno') as (_ & Hi' & Hiv' & Htag' & Hset' & _).
    rewrite (kr_idents _ _ Hk) in Hi'. apply list_elem_of_fmap in Hi as (r & Ei & Hr).
    apply list_elem_of_fmap in Hi' as (r' & Ei' & Hr'). injection Ei as E1 E2 E3 E4.
    injection Ei' as E1' E2' E3' E4'.
    assert (r' = r) as ->.
    { apply (table_ok_inj nr_name (db_nodes db)); [apply (ns_db _ _ _ Hn)|done..|congruence]. }
    rewrite Ename in *. split_and!; try congruence.
    + rewrite <-E2 in E2'. by destruct (a_type (o_adapter o)), (a_type (o_adapter o')).
    + intros g. by rewrite Hiv, Hiv', (keeps_interval db db').
    + intros g t. by rewrite Htag, Htag', (keeps_tag db db').
    + by rewrite Hset, Hset', (keeps_setting db db').
    + intros Ha Hsome. apply (Hrun n' o' r); [done|done|congruence| |].
      * by apply (Hst r).
      * by rewrite <-E1, <-Hset.
  - intros r. by rewrite (ss_rows _ _ Hsub'), (ss_rows _ _ Hsub), (kr_subs _ _ Hk).
Qed.
End Reached.

(** ** Witness *)

#[local] Existing Instance example_sql.
#[local] Existing Instance example_sql_ok.
#[local] Existing Instance demo_json.

Definition demo_plugins : list (plugin_entity_t ()) :=
  [{| pe_name := "Modbus TCP"; pe_single := false; pe_type := NEU_NA_TYPE_DRIVER; pe_open := Some () |};
   {| pe_name := "MQTT"; pe_single := false; pe_type := NEU_NA_TYPE_APP; pe_open := Some () |}].

Definition demo_add (node plugin : string) (x : neu_manager_t () * database)
    : option (Z * neu_manager_t () * database) :=
  handle_add_node (λ _, demo_intf) (λ _, demo_plugin) demo_plugins (λ _, 0) (λ _, 0) (λ _, None) 4096 7
    x.1 x.2 node plugin (Some "{}") None.
Definition demo_subscribe (app driver group : string) (x : neu_manager_t () * database)
    : option (Z * neu_manager_t () * database * list (string * node_msg)) :=
  handle_subscribe_group (λ p, p + 10000) (λ _, (0, Some "topic")) x.1 x.2 app driver group
    (Some "{}") None.

(** The driver "plc" with the group "fast" and the application "mqtt", which
    subscribes to the group. *)
Definition demo_addr : sockaddr_un := {| sun_path_1 := 110; sun_id := 5 |}.
Definition demo_m0 : neu_manager_t () * database := (manager_empty, database_empty).
Definition demo_m1 : neu_manager_t () * database :=
  match demo_add "plc" "Modbus TCP" demo_m0 with Some (_, m, db) => (m, db) | None => demo_m0 end.
Definition demo_m1' : neu_manager_t () * database :=
  default demo_m1 (handle_node_init (λ _, demo_intf) demo_m1.1 demo_m1.2 "plc" demo_addr 1).
Definition demo_m2 : neu_manager_t () * database :=
  match demo_add "mqtt" "MQTT" demo_m1' with Some (_, m, db) => (m, db) | None => demo_m1' end.
Definition demo_plc (x : neu_manager_t () * database) : node_entity_t :=
  default (new_entity "plc" "Modbus TCP" 1 None) (head (nodes (m_nodes x.1))).
Definition demo_obj (x : neu_manager_t () * database) : node_obj () :=
  default {| o_module := EmptyString; o_adapter := demo_none |}
    (m_heap x.1 !! adapter (demo_plc x)).
Definition demo_group : Z * neu_adapter_t () * database :=
  handle_add_group (o_adapter (demo_obj demo_m2)) "fast" 100 demo_m2.2.
Definition demo_m3 : neu_manager_t () * database :=
  (set_adapter (adapter (demo_plc demo_m2)) demo_group.1.2 demo_m2.1, demo_group.2).
Definition demo_sub : Z * neu_manager_t () * database * list (string * node_msg) :=
  default (0, demo_m3.1, demo_m3.2, []) (demo_subscribe "mqtt" "plc" "fast" demo_m3).
Definition demo_m4 : neu_manager_t () * database :=
  (deliver_all demo_sub.2 demo_sub.1.1.2, demo_sub.1.2).

#[local] Abbreviation demo_reached x :=
  (reached (λ _, demo_intf) (λ _, demo_plugin) demo_plugins (λ _, 0) (λ _, 0) (λ _, None)
     (λ p, p + 10000) (λ _, (0, Some "topic"%string)) 4096 x.1 x.2).

Lemma demo_m4_reached : demo_reached demo_m4.
Proof.
  assert (H1 : demo_reached demo_m1).
  { eapply reached_step; [apply reached_start|].
    eapply (handled_add_node _ _ _ _ _ _ _ _ _ _ _ 7 "plc" "Modbus TCP" (Some "{}"%string) None 0);
      [unfold short; simpl; lia|simpl; lia|vm_compute; reflexivity]. }
  assert (H1' : demo_reached demo_m1').
  { eapply reached_step; [exact H1|].
    eapply (handled_node_init _ _ _ _ _ _ _ _ _ _ _ "plc" demo_addr 1). vm_compute. reflexivity. }
  assert (H2 : demo_reached demo_m2).
  { eapply reached_step; [exact H1'|].
    eapply (handled_add_node _ _ _ _ _ _ _ _ _ _ _ 7 "mqtt" "MQTT" (Some "{}"%string) None 0);
      [unfold short; simpl; lia|simpl; lia|vm_compute; reflexivity]. }
  assert (H3 : demo_reached demo_m3).
  { eapply reached_step; [exact H2|].
    eapply (handled_request _ _ _ _ _ _ _ _ _ _ _ (demo_plc demo_m2) (demo_obj demo_m2)
      (ReqAddGroup "fast" 100)); [|done|done|simpl; lia|].
    - split; [apply list_elem_of_lookup_2 with 0%nat|]; vm_compute; reflexivity.
    - eapply (served_add_group _ _ _ _ _ _ 0). vm_compute. reflexivity. }
  eapply reached_step; [exact H3|].
  eapply (handled_subscribe _ _ _ _ _ _ _ _ _ _ _ "mqtt" "plc" "fast" (Some "{}"%string) None 0);
    [unfold short; simpl; lia|vm_compute; reflexivity].
Qed.

Lemma manager_and_database_agree_witness :
  subscribed (m_subs demo_m4.1) "plc" "fast" "mqtt" ∧
  ("mqtt", "plc", "fast") ∈ sub_key <$> db_subs demo_m4.2 ∧
  is_Some (neu_node_manager_find (m_nodes demo_m4.1) "plc") ∧ "plc" ∈ nr_name <$> db_nodes demo_m4.2.
Proof.
  destruct (manager_and_database_agree (λ _, demo_intf) (λ _, demo_plugin) demo_plugins (λ _, 0) (λ _, 0)
    (λ _, None) (λ p, p + 10000) (λ _, (0, Some "topic"%string)) 4096 (λ _, demo_keeps)
    demo_m4.1 demo_m4.2 demo_m4_reached) as (Hn & _ & Hs & _).
  assert (Hsub : subscribed (m_subs demo_m4.1) "plc" "fast" "mqtt")
    by (apply (bool_decide_unpack _); by vm_compute).
  assert (Hnode : is_Some (neu_node_manager_find (m_nodes demo_m4.1) "plc"))
    by (eexists; vm_compute; reflexivity).
  split_and!; [exact Hsub|by apply Hs|exact Hnode|by apply Hn].
Defined.

Lemma demo_comes_up : comes_up (λ _, demo_intf) demo_plugins (λ _, (0, Some "topic"%string)) demo_m4.2.
Proof.
  split; [intros r e Hr He; exists ()|done|]; cycle 1.
  { intros r x _ _ _. unfold topic_refused. destruct (sr_params r); [|done]. by rewrite andb_false_r. }
  assert (Hopen : pe_open e = Some ()).
  { apply hash_find_Some in He as [He _].
    repeat (apply elem_of_cons in He as [->|He]; [done|]). by apply elem_of_nil in He. }
  done.
Qed.

(** The subscription of "mqtt" and the group of "plc" are there again, and "plc",
    which its setting had started, runs. *)
Lemma restart_restores_system_witness :
  ∃ m' db', neu_manager_create (λ _, demo_intf) (λ _, demo_plugin) demo_plugins (λ _, 0) (λ _, 0)
      (λ _, None) (λ p, p + 10000) (λ _, (0, Some "topic"%string)) 4096 9
      (λ _, demo_addr) demo_m4.2 = Some (m', db') ∧
    subscribed (m_subs m') "plc" "fast" "mqtt" ∧
    is_Some (neu_node_manager_find (m_nodes m') "plc") ∧
    ∀ n' o', node_at m' n' o' → name n' = "plc"%string →
      a_state (o_adapter o') = NEU_NODE_RUNNING_STATE_RUNNING ∧
      mem_interval (a_driver (o_adapter o')) "fast" = Some 100.
Proof.
  destruct (restart_restores_system (λ _, demo_intf) (λ _, demo_plugin) demo_plugins (λ _, 0) (λ _, 0)
    (λ _, None) (λ p, p + 10000) (λ _, (0, Some "topic"%string)) 4096 (λ _, demo_keeps)
    demo_m4.1 demo_m4.2 9 (λ _, demo_addr) demo_m4_reached demo_comes_up)
    as (m' & db' & E & Hn & Hcfg & Hsub).
  exists m', db'. split; [exact E|]. split_and!.
  - assert (Hs : subscribed (m_subs demo_m4.1) "plc" "fast" "mqtt")
      by (apply (bool_decide_unpack _); by vm_compute).
    apply subscribed_in_table in Hs as (r & Hr & [= E1 E2 E3]). apply Hsub, in_table_subscribed in Hr.
    by rewrite E1, E2, E3 in Hr.
  - apply Hn. eexists. vm_compute. reflexivity.
  - intros n' o' Hno' Ename.
    assert (Hno : node_at demo_m4.1 (demo_plc demo_m4) (demo_obj demo_m4)).
    { split; [apply list_elem_of_lookup_2 with 0%nat|]; vm_compute; reflexivity. }
    destruct (Hcfg _ _ n' o' Hno Hno') as (_ & _ & _ & Hi & _ & _ & Hrun).
    { rewrite Ename. by vm_compute. }
    split; [apply Hrun; [by vm_compute|eexists; vm_compute; reflexivity]|].
    rewrite Hi. by vm_compute.
Defined.
