(* ===== verification/ManagerCases.v ===== *)
(** * Requests that go wrong

    Behaviours of the manager that the invariants do not rule out: a subscription
    to an application, a renamed application, a topic that is emptied. *)

From S2P Require Import Prelude UtHash NeuTypes CHeap DriverCache Tag Group Driver NodeManager Subscribe Persist Adapter AdapterOk AdapterRestart Manager ManagerOk ManagerAdd ManagerHistory ManagerRestart.

Section Cases.
Context {P : Type} (plugins : list (plugin_entity_t P)).
Context (trans_data_port : Z → Z) (parse_topic : string → Z * option string).
Context `{SQL : Sqlite}.

(** Subscribing an application to a node that is no driver is undefined: the node
    is cast to a driver whatever it is, and the group is looked for in memory
    that an application does not have. *)
Theorem subscribe_to_application_undefined (m : neu_manager_t P) db na oa nd od group params st :
  nodes_stored plugins m db → node_at m na oa → is_driver (o_adapter oa) = false →
  o_module oa ≠ "Monitor"%string → topic_refused parse_topic (o_module oa) params = false →
  node_at m nd od → is_driver (o_adapter od) = false →
  handle_subscribe_group trans_data_port parse_topic m db (name na) (name nd) group params st = None.
Proof.
  intros Hs Hna Hta Hm Htop Hnd Htd.
  destruct (ns_plugin _ _ _ Hs na oa Hna) as (_ & _ & _ & _ & Hmon).
  rewrite bool_decide_eq_false_2 in Hmon by done.
  unfold handle_subscribe_group, neu_manager_subscribe, manager_subscribe, neu_node_manager_is_monitor.
  rewrite (hash_find_elem name) by (apply Hs || apply Hna). rewrite Hmon.
  rewrite (find_node_Some plugins m db na Hs (proj1 Hna)), (proj2 Hna). simpl. rewrite Htop, Hta.
  rewrite (find_node_Some plugins m db nd Hs (proj1 Hnd)), (proj2 Hnd). simpl. by rewrite Htd.
Qed.
End Cases.

(** ** Concrete runs *)

#[local] Existing Instance example_sql.
#[local] Existing Instance example_sql_ok.
#[local] Existing Instance demo_json.

(** The applications that the group "fast" of "plc" reports to. *)
Definition demo_reports (m : neu_manager_t ()) : list string :=
  match neu_node_manager_find (m_nodes m) "plc" ≫= (m_heap m !!.) with
  | Some o => match find_group (a_driver (o_adapter o)) "fast" with
              | Some g => sub_app <$> g_apps g | None => [] end
  | None => []
  end.

Definition demo_mqtt (x : neu_manager_t () * database) : node_entity_t :=
  default (new_entity "mqtt" "MQTT" 2 None) (nodes (m_nodes x.1) !! 1%nat).

(** "mqtt" is renamed to "cloud" and then unsubscribes. *)
Definition demo_m5 : neu_manager_t () * database :=
  match m_heap demo_m4.1 !! adapter (demo_mqtt demo_m4) with
  | Some o =>
      let '(e, a) := neu_adapter_rename (o_adapter o) "cloud" in
      default demo_m4 (handle_node_rename_resp (λ _, 0) (λ _, 0) (λ _, None)
        (set_adapter (adapter (demo_mqtt demo_m4)) a demo_m4.1) demo_m4.2 e "mqtt" "cloud")
  | None => demo_m4
  end.
Definition demo_m6 : neu_manager_t () * database :=
  let '(_, m, db, msgs) := handle_unsubscribe_group demo_m5.1 demo_m5.2 "cloud" "plc" "fast" in
  (deliver_all msgs m, db).

(** The driver keeps sending to an application that was renamed and has
    unsubscribed since: nobody tells it the new name, and it does not know the
    application that it is to forget. *)
Lemma renamed_application_keeps_receiving :
  demo_reports demo_m4.1 = ["mqtt"%string] ∧
  subscribed (m_subs demo_m5.1) "plc" "fast" "cloud" ∧
  m_subs demo_m6.1 = [{| key := ("plc", "fast"); apps := [] |}] ∧ db_subs demo_m6.2 = [] ∧
  demo_reports demo_m6.1 = ["mqtt"%string].
Proof. split_and!; try (apply (bool_decide_unpack _)); vm_compute; reflexivity. Qed.

(** The topic is the whole parameter here. *)
Definition demo_topic (s : string) : Z * option string := (0, Some s).

Definition demo_m7 : neu_manager_t () * database :=
  let '(_, m, db) := handle_update_subscribe demo_m4.1 demo_m4.2 "mqtt" "plc" "fast" (Some EmptyString)
                       None in (m, db).

(** A subscription cannot be made with an empty topic, but its topic can be emptied;
    it is there until the next start, which refuses it, and its row stays. *)
Lemma emptied_topic_is_lost :
  subscribed (m_subs demo_m7.1) "plc" "fast" "mqtt" ∧
  ∃ m db, neu_manager_create (λ _, demo_intf) (λ _, demo_plugin) demo_plugins (λ _, 0) (λ _, 0)
      (λ _, None) (λ p, p + 10000) demo_topic 4096 9 (λ _, demo_addr) demo_m7.2 = Some (m, db) ∧
    m_subs m = [] ∧ sub_key <$> db_subs db = [("mqtt", "plc", "fast")].
Proof.
  split; [apply (bool_decide_unpack _); by vm_compute|].
  eexists _, _. split; [vm_compute; reflexivity|]. split; vm_compute; reflexivity.
Qed.

Definition demo_app : node_obj () :=
  default {| o_module := EmptyString; o_adapter := demo_none |}
    (m_heap demo_m4.1 !! adapter (demo_mqtt demo_m4)).

(** An application that subscribes to itself. *)
Lemma subscribe_to_application_undefined_witness :
  handle_subscribe_group (λ p, p + 10000) demo_topic demo_m4.1 demo_m4.2 "mqtt" "mqtt" "fast" None None =
  None.
Proof.
  assert (Hn : node_at demo_m4.1 (demo_mqtt demo_m4) demo_app).
  { split; [apply list_elem_of_lookup_2 with 1%nat|]; vm_compute; reflexivity. }
  apply (subscribe_to_application_undefined demo_plugins (λ p, p + 10000) demo_topic demo_m4.1 demo_m4.2
    (demo_mqtt demo_m4) demo_app (demo_mqtt demo_m4) demo_app "fast" None None);
    [|exact Hn|by vm_compute|by vm_compute|by vm_compute|exact Hn|by vm_compute].
  exact (so_nodes _ _ _ (reached_ok _ (λ _, demo_plugin) _ _ _ _ _ _ _ (λ _, demo_keeps) _ _
    demo_m4_reached)).
Defined.
