(* ===== verification/Simulator.v ===== *)
(** * The embedded Modbus TCP simulator

    simulator/modbus_tcp_simulator.c: a Modbus server inside the process, with
    four register files, tags whose holding registers a generator thread fills,
    and clients whose bytes are collected until a request is complete.  An array
    that is accessed outside of its bounds makes an operation [None].  The mutex
    makes every operation below one step. *)

From Stdlib Require Import SpecFloat.
From S2P Require Import Prelude CFloat NeuTypes Modbus.

Definition SIM_MAX_REGS : Z := 1000.
Definition SIM_MAX_BITS : Z := 1000.
Definition SIM_DEFAULT_IP : string := "0.0.0.0".
Definition SIM_DEFAULT_PORT : Z := 1502.

(** [neu_sim_tag_type_e]; the number comes from outside and may be another. *)
Definition NEU_SIM_TAG_NONE : Z := 0.
Definition NEU_SIM_TAG_SINE : Z := 1.
Definition NEU_SIM_TAG_SAW : Z := 2.
Definition NEU_SIM_TAG_SQUARE : Z := 3.
Definition NEU_SIM_TAG_RANDOM : Z := 4.

(** [sim_ctx_t] without the connection, the event loop and the thread. *)
Record sim_ctx_t := {
  running : bool;
  sim_ip : string;
  sim_port : Z;
  coil_bits : list Z;
  input_bits : list Z;
  hold_regs : list Z;
  input_regs : list Z;
  readonly_mask : list bool;
  sim_tag_type : list Z;
  sim_tag_name : list (option string);
  sim_tag_addr : list (option string);
  sim_tag_count : Z;
  last_error_code : Z;
}.

Definition with_hold (l : list Z) (s : sim_ctx_t) : sim_ctx_t := {|
  running := running s; sim_ip := sim_ip s; sim_port := sim_port s;
  coil_bits := coil_bits s; input_bits := input_bits s; hold_regs := l;
  input_regs := input_regs s; readonly_mask := readonly_mask s; sim_tag_type := sim_tag_type s;
  sim_tag_name := sim_tag_name s; sim_tag_addr := sim_tag_addr s; sim_tag_count := sim_tag_count s;
  last_error_code := last_error_code s |}.
Definition with_coils (l : list Z) (s : sim_ctx_t) : sim_ctx_t := {|
  running := running s; sim_ip := sim_ip s; sim_port := sim_port s;
  coil_bits := l; input_bits := input_bits s; hold_regs := hold_regs s;
  input_regs := input_regs s; readonly_mask := readonly_mask s; sim_tag_type := sim_tag_type s;
  sim_tag_name := sim_tag_name s; sim_tag_addr := sim_tag_addr s; sim_tag_count := sim_tag_count s;
  last_error_code := last_error_code s |}.
Definition with_tables (mask : list bool) (ty : list Z) (names addrs : list (option string))
    (count : Z) (s : sim_ctx_t) : sim_ctx_t := {|
  running := running s; sim_ip := sim_ip s; sim_port := sim_port s;
  coil_bits := coil_bits s; input_bits := input_bits s; hold_regs := hold_regs s;
  input_regs := input_regs s; readonly_mask := mask; sim_tag_type := ty;
  sim_tag_name := names; sim_tag_addr := addrs; sim_tag_count := count;
  last_error_code := last_error_code s |}.
Definition with_status (r : bool) (ip : string) (port : Z) (e : Z) (s : sim_ctx_t) : sim_ctx_t := {|
  running := r; sim_ip := ip; sim_port := port;
  coil_bits := coil_bits s; input_bits := input_bits s; hold_regs := hold_regs s;
  input_regs := input_regs s; readonly_mask := readonly_mask s; sim_tag_type := sim_tag_type s;
  sim_tag_name := sim_tag_name s; sim_tag_addr := sim_tag_addr s; sim_tag_count := sim_tag_count s;
  last_error_code := e |}.

(** ** Arrays *)

(** [a\[i\]] and [a\[i\] = x] *)
Definition array_get {A} (l : list A) (i : Z) : option A :=
  if i <? 0 then None else l !! Z.to_nat i.
Definition array_set {A} (i : Z) (x : A) (l : list A) : option (list A) :=
  if (0 <=? i) && (i <? Z.of_nat (length l)) then Some (<[Z.to_nat i := x]> l) else None.

(** [memcpy] out of and into a byte array. *)
Definition load (l : list Z) (off n : Z) : option (list Z) :=
  if (0 <=? off) && (0 <=? n) && (off + n <=? Z.of_nat (length l))
  then Some (mem_read (Z.to_nat off) (Z.to_nat n) l) else None.
Definition store (off : Z) (bs : list Z) (l : list Z) : option (list Z) :=
  if (0 <=? off) && (off + Z.of_nat (length bs) <=? Z.of_nat (length l))
  then Some (mem_write (Z.to_nat off) bs l) else None.

(** A loop whose body may fail. *)
Fixpoint foldM {A B} (f : A → B → option A) (a : A) (l : list B) : option A :=
  match l with [] => Some a | x :: l' => a ← f a x; foldM f a l' end.

(** ** Requests

    [req] is the buffer of the client, the protocol data unit starts at [pdu];
    [res] is the response buffer, which holds a header and a code already.  An
    operation returns its result, the buffer and [*res_len]. *)

(** [ntohs] of the 16-bit field at [off]. *)
Definition field16 (req : list Z) (off : Z) : option Z :=
  b ← load req off 2; Some (ntohs (le_load b)).

(** [rc->function = f] and [rh->len = htons (n)]: both point into the response. *)
Definition set_function (f : Z) (res : list Z) : option (list Z) := store 7 [u8 f] res.
Definition set_len (n : Z) (res : list Z) : option (list Z) := store 4 (le_store 2 (htons n)) res.

(** An exception response. *)
Definition refuse (f code : Z) (res : list Z) (res_mlen res_len : Z) : option (Z * list Z * Z) :=
  res ← set_function f res;
  if res_len + 1 >? res_mlen then Some (-1, res, res_len) else
  res ← store res_len [code] res;
  res ← set_len (sizeof_code + 1) res;
  Some (0, res, res_len + 1).

(** The response to a write: the address fields of the request. *)
Definition acknowledge (req : list Z) (pdu : Z) (res : list Z) (res_mlen res_len : Z)
    : option (Z * list Z * Z) :=
  if res_len + sizeof_address >? res_mlen then Some (-1, res, res_len) else
  bs ← load req pdu sizeof_address;
  res ← store res_len bs res;
  res ← set_len (sizeof_code + sizeof_address) res;
  Some (0, res, res_len + sizeof_address).

Definition pdu_read_holding (s : sim_ctx_t) (req : list Z) (pdu pdu_len : Z) (res : list Z)
    (res_mlen res_len : Z) : option (Z * list Z * Z) :=
  if pdu_len <? sizeof_address then Some (-1, res, res_len) else
  start ← field16 req pdu; nreg ← field16 req (pdu + 2);
  if (nreg =? 0) || (start + nreg >? SIM_MAX_REGS)
  then refuse MODBUS_READ_HOLD_REG_ERR 0x02 res res_mlen res_len
  else if res_len + 1 + 2 * nreg >? res_mlen then Some (-1, res, res_len) else
  res ← store res_len [u8 (nreg * 2)] res;
  res ← foldM (λ res i, v ← array_get (hold_regs s) (start + i);
                        store (res_len + 1 + i * 2) (le_store 2 (htons v)) res)
          res (seqZ 0 nreg);
  res ← set_len (sizeof_code + 1 + 2 * nreg) res;
  Some (0, res, res_len + 1 + 2 * nreg).

Definition pdu_read_input_regs (s : sim_ctx_t) (req : list Z) (pdu pdu_len : Z) (res : list Z)
    (res_mlen res_len : Z) : option (Z * list Z * Z) :=
  if pdu_len <? sizeof_address then Some (-1, res, res_len) else
  start ← field16 req pdu; nreg ← field16 req (pdu + 2);
  if (nreg =? 0) || (start + nreg >? SIM_MAX_REGS)
  then refuse MODBUS_READ_INPUT_REG_ERR 0x02 res res_mlen res_len
  else if res_len + 1 + 2 * nreg >? res_mlen then Some (-1, res, res_len) else
  res ← store res_len [u8 (nreg * 2)] res;
  res ← foldM (λ res i, v ← array_get (input_regs s) (start + i);
                        res ← store (res_len + 1 + i * 2) [u8 (Z.shiftr v 8)] res;
                        store (res_len + 1 + i * 2 + 1) [Z.land v 0xFF] res)
          res (seqZ 0 nreg);
  res ← set_len (sizeof_code + 1 + 2 * nreg) res;
  Some (0, res, res_len + 1 + 2 * nreg).

(** The body of both bit reads, which differ in the array and the exception. *)
Definition set_bit (res_len : Z) (bits : list Z) (start : Z) (res : list Z) (i : Z)
    : option (list Z) :=
  b ← array_get bits (start + i);
  if b =? 0 then Some res else
  old ← load res (res_len + 1 + i / 8) 1;
  store (res_len + 1 + i / 8) [Z.lor (le_load old) (u8 (Z.shiftl 1 (i mod 8)))] res.

Definition pdu_read_coils (s : sim_ctx_t) (req : list Z) (pdu pdu_len : Z) (res : list Z)
    (res_mlen res_len : Z) : option (Z * list Z * Z) :=
  if pdu_len <? sizeof_address then Some (-1, res, res_len) else
  start ← field16 req pdu; nbits ← field16 req (pdu + 2);
  if (nbits =? 0) || (start + nbits >? SIM_MAX_BITS)
  then refuse MODBUS_READ_COIL_ERR 0x02 res res_mlen res_len
  else
  let nbytes := u16 ((nbits + 7) / 8) in
  if res_len + 1 + nbytes >? res_mlen then Some (-1, res, res_len) else
  res ← store res_len [u8 nbytes] res;
  res ← store (res_len + 1) (replicate (Z.to_nat nbytes) 0) res;
  res ← foldM (set_bit res_len (coil_bits s) start) res (seqZ 0 nbits);
  res ← set_len (sizeof_code + 1 + nbytes) res;
  Some (0, res, res_len + 1 + nbytes).

Definition pdu_read_inputs (s : sim_ctx_t) (req : list Z) (pdu pdu_len : Z) (res : list Z)
    (res_mlen res_len : Z) : option (Z * list Z * Z) :=
  if pdu_len <? sizeof_address then Some (-1, res, res_len) else
  start ← field16 req pdu; nbits ← field16 req (pdu + 2);
  if (nbits =? 0) || (start + nbits >? SIM_MAX_BITS)
  then refuse MODBUS_READ_INPUT_ERR 0x02 res res_mlen res_len
  else
  let nbytes := u16 ((nbits + 7) / 8) in
  if res_len + 1 + nbytes >? res_mlen then Some (-1, res, res_len) else
  res ← store res_len [u8 nbytes] res;
  res ← store (res_len + 1) (replicate (Z.to_nat nbytes) 0) res;
  res ← foldM (set_bit res_len (input_bits s) start) res (seqZ 0 nbits);
  res ← set_len (sizeof_code + 1 + nbytes) res;
  Some (0, res, res_len + 1 + nbytes).

(** Writes change the registers as well.  The state is changed before the room
    for the response is checked. *)
Definition pdu_write_single_holding (s : sim_ctx_t) (req : list Z) (pdu pdu_len : Z) (res : list Z)
    (res_mlen res_len : Z) : option (Z * list Z * Z * sim_ctx_t) :=
  if pdu_len <? sizeof_address then Some (-1, res, res_len, s) else
  start ← field16 req pdu;
  if start >=? SIM_MAX_REGS then
    '(ret, res, len) ← refuse MODBUS_WRITE_S_HOLD_REG_ERR 0x02 res res_mlen res_len;
    Some (ret, res, len, s)
  else
  is_readonly ← array_get (readonly_mask s) start;
  if is_readonly : bool then
    '(ret, res, len) ← refuse MODBUS_WRITE_S_HOLD_REG_ERR 0x03 res res_mlen res_len;
    Some (ret, res, len, s)
  else
  vbytes ← load req (pdu + 2) 2;
  regs ← array_set start (be_load vbytes) (hold_regs s);
  '(ret, res, len) ← acknowledge req pdu res res_mlen res_len;
  Some (ret, res, len, with_hold regs s).

Definition pdu_write_multiple_holding (s : sim_ctx_t) (req : list Z) (pdu pdu_len : Z) (res : list Z)
    (res_mlen res_len : Z) : option (Z * list Z * Z * sim_ctx_t) :=
  if pdu_len <? sizeof_address + sizeof_data then Some (-1, res, res_len, s) else
  start ← field16 req pdu; nreg ← field16 req (pdu + 2);
  if (nreg =? 0) || (start + nreg >? SIM_MAX_REGS) then
    '(ret, res, len) ← refuse MODBUS_WRITE_M_HOLD_REG_ERR 0x02 res res_mlen res_len;
    Some (ret, res, len, s)
  else
  mask ← mapM (λ i, array_get (readonly_mask s) (start + i)) (seqZ 0 nreg);
  if existsb id mask then
    '(ret, res, len) ← refuse MODBUS_WRITE_M_HOLD_REG_ERR 0x03 res res_mlen res_len;
    Some (ret, res, len, s)
  else
  regs ← foldM (λ regs i, bp ← load req (pdu + sizeof_address + sizeof_data + i * 2) 2;
                          array_set (start + i) (be_load bp) regs)
           (hold_regs s) (seqZ 0 nreg);
  '(ret, res, len) ← acknowledge req pdu res res_mlen res_len;
  Some (ret, res, len, with_hold regs s).

Definition pdu_write_single_coil (s : sim_ctx_t) (req : list Z) (pdu pdu_len : Z) (res : list Z)
    (res_mlen res_len : Z) : option (Z * list Z * Z * sim_ctx_t) :=
  if pdu_len <? sizeof_address then Some (-1, res, res_len, s) else
  start ← field16 req pdu;
  if start >=? SIM_MAX_BITS then
    '(ret, res, len) ← refuse MODBUS_WRITE_S_COIL_ERR 0x02 res res_mlen res_len;
    Some (ret, res, len, s)
  else
  vbytes ← load req (pdu + 2) 2;
  bits ← array_set start (if be_load vbytes =? 0xFF00 then 1 else 0) (coil_bits s);
  '(ret, res, len) ← acknowledge req pdu res res_mlen res_len;
  Some (ret, res, len, with_coils bits s).

Definition pdu_write_multiple_coils (s : sim_ctx_t) (req : list Z) (pdu pdu_len : Z) (res : list Z)
    (res_mlen res_len : Z) : option (Z * list Z * Z * sim_ctx_t) :=
  if pdu_len <? sizeof_address + sizeof_data then Some (-1, res, res_len, s) else
  start ← field16 req pdu; nbits ← field16 req (pdu + 2);
  if (nbits =? 0) || (start + nbits >? SIM_MAX_BITS) then
    '(ret, res, len) ← refuse MODBUS_WRITE_M_COIL_ERR 0x02 res res_mlen res_len;
    Some (ret, res, len, s)
  else
  bits ← foldM (λ bits i, b ← load req (pdu + sizeof_address + sizeof_data + i / 8) 1;
                          array_set (start + i) (Z.land (Z.shiftr (le_load b) (i mod 8)) 0x1) bits)
           (coil_bits s) (seqZ 0 nbits);
  '(ret, res, len) ← acknowledge req pdu res res_mlen res_len;
  Some (ret, res, len, with_coils bits s).

(** [process_modbus_tcp]: the bytes used up, the response buffer, its length and
    the simulator.  [rc] and [c] are at offset 6 of the two buffers.  What the
    operation on the protocol data unit returns is ignored. *)
Definition process_modbus_tcp (s : sim_ctx_t) (req : list Z) (req_len : Z) (res : list Z)
    (res_mlen : Z) : option (Z * list Z * Z * sim_ctx_t) :=
  if req_len <? sizeof_header then Some (0, res, 0, s) else
  hlen ← field16 req 4;
  let need := u16 (sizeof_header + hlen) in
  if req_len <? need then Some (0, res, 0, s) else
  protocol ← load req 2 2;
  if negb (le_load protocol =? 0) then Some (-1, res, 0, s) else
  header ← load req 0 sizeof_header;
  res ← store 0 header res;
  code ← load req 6 sizeof_code;
  res ← store 6 code res;
  let res_len := sizeof_header + sizeof_code in
  res ← set_len sizeof_code res;
  let f := nth 1 code 0 in
  let pdu := sizeof_header + sizeof_code in
  let pdu_len := need - (sizeof_header + sizeof_code) in
  if f =? MODBUS_READ_HOLD_REG then
    '(_, res, len) ← pdu_read_holding s req pdu pdu_len res res_mlen res_len;
    Some (need, res, len, s)
  else if f =? MODBUS_READ_INPUT_REG then
    '(_, res, len) ← pdu_read_input_regs s req pdu pdu_len res res_mlen res_len;
    Some (need, res, len, s)
  else if f =? MODBUS_READ_COIL then
    '(_, res, len) ← pdu_read_coils s req pdu pdu_len res res_mlen res_len;
    Some (need, res, len, s)
  else if f =? MODBUS_READ_INPUT then
    '(_, res, len) ← pdu_read_inputs s req pdu pdu_len res res_mlen res_len;
    Some (need, res, len, s)
  else if f =? MODBUS_WRITE_S_HOLD_REG then
    '(_, res, len, s) ← pdu_write_single_holding s req pdu pdu_len res res_mlen res_len;
    Some (need, res, len, s)
  else if f =? MODBUS_WRITE_M_HOLD_REG then
    '(_, res, len, s) ← pdu_write_multiple_holding s req pdu pdu_len res res_mlen res_len;
    Some (need, res, len, s)
  else if f =? MODBUS_WRITE_S_COIL then
    '(_, res, len, s) ← pdu_write_single_coil s req pdu pdu_len res res_mlen res_len;
    Some (need, res, len, s)
  else if f =? MODBUS_WRITE_M_COIL then
    '(_, res, len, s) ← pdu_write_multiple_coils s req pdu pdu_len res res_mlen res_len;
    Some (need, res, len, s)
  else
    '(ret, res, len) ← refuse (Z.lor f 0x80) 0x01 res res_mlen res_len;
    Some (if ret =? -1 then -1 else need, res, len, s).

(** ** Clients *)

(** [struct cycle_buf] *)
Record cycle_buf := { cb_len : Z; cb_buf : list Z }.
Definition CYCLE_BUF_SIZE : Z := 4096.
Definition RES_SIZE : Z := 2048.
Definition cycle_buf_zero : cycle_buf :=
  {| cb_len := 0; cb_buf := replicate (Z.to_nat CYCLE_BUF_SIZE) 0 |}.

(** What a client sees of [client_io_cb]. *)
Inductive client_effect := Waiting | Answer (bytes : list Z) | Closed.

(** [NEU_EVENT_IO_READ]: [r] is the result of [neu_conn_tcp_server_recv] and
    [data] what it stored; at most as much as there is room for. *)
Definition client_read (s : sim_ctx_t) (cb : cycle_buf) (r : Z) (data : list Z)
    : option (client_effect * cycle_buf * sim_ctx_t) :=
  buf ← store (cb_len cb) data (cb_buf cb);
  let len := if r >? 0 then u16 (cb_len cb + u16 r) else cb_len cb in
  '(used, res, res_len, s) ← process_modbus_tcp s buf len (replicate (Z.to_nat RES_SIZE) 0) RES_SIZE;
  if used =? -1 then Some (Closed, {| cb_len := len; cb_buf := buf |}, s)
  else if used =? 0 then Some (Waiting, {| cb_len := len; cb_buf := buf |}, s)
  else
    rest ← load buf used (len - used);
    buf ← store 0 rest buf;
    bytes ← load res 0 res_len;
    Some (Answer bytes, {| cb_len := u16 (len - used); cb_buf := buf |}, s).

(** [g_clients]: 32 slots of a file descriptor, 0 being free, and an event. *)
Definition client_slots : list (Z * Z) := replicate 32 (0, 0).

Fixpoint add_client (fd client : Z) (slots : list (Z * Z)) : Z * list (Z * Z) :=
  match slots with
  | [] => (-1, [])
  | (f, c) :: slots' =>
      if f =? 0 then (0, (fd, client) :: slots')
      else let '(r, slots') := add_client fd client slots' in (r, (f, c) :: slots')
  end.

(** The event of the client and the slots; its descriptor is closed. *)
Fixpoint del_client (fd : Z) (slots : list (Z * Z)) : option Z * list (Z * Z) :=
  match slots with
  | [] => (None, [])
  | (f, c) :: slots' =>
      if f =? fd then (Some c, (0, c) :: slots')
      else let '(r, slots') := del_client fd slots' in (r, (f, c) :: slots')
  end.

(** The descriptors closed, and the slots. *)
Definition clean_client (slots : list (Z * Z)) : list Z * list (Z * Z) :=
  (fst <$> filter (λ '(f, _), f ≠ 0) slots, (λ '(_, c), (0, c)) <$> slots).

(** ** Tags *)

(** [sim_reset_regs_unlocked] *)
Definition sim_reset_regs_unlocked (s : sim_ctx_t) : sim_ctx_t := {|
  running := running s; sim_ip := sim_ip s; sim_port := sim_port s;
  coil_bits := replicate 1000 0; input_bits := replicate 1000 0;
  hold_regs := replicate 1000 0; input_regs := replicate 1000 0;
  readonly_mask := replicate 1000 false; sim_tag_type := replicate 1000 NEU_SIM_TAG_NONE;
  sim_tag_name := replicate 1000 None; sim_tag_addr := replicate 1000 None;
  sim_tag_count := 0; last_error_code := last_error_code s |}.

Definition sim_mark_tag_unlocked (addr t : Z) (s : sim_ctx_t) : option sim_ctx_t :=
  if addr >=? SIM_MAX_REGS then Some s
  else if t =? NEU_SIM_TAG_SINE then
    if addr + 1 <? SIM_MAX_REGS then
      mask ← array_set addr true (readonly_mask s);
      mask ← array_set (addr + 1) true mask;
      ty ← array_set addr t (sim_tag_type s);
      Some (with_tables mask ty (sim_tag_name s) (sim_tag_addr s) (sim_tag_count s + 1) s)
    else Some s
  else if (t =? NEU_SIM_TAG_SAW) || (t =? NEU_SIM_TAG_SQUARE) || (t =? NEU_SIM_TAG_RANDOM) then
    mask ← array_set addr true (readonly_mask s);
    ty ← array_set addr t (sim_tag_type s);
    Some (with_tables mask ty (sim_tag_name s) (sim_tag_addr s) (sim_tag_count s + 1) s)
  else Some s.

(** One element of the parallel arrays of [neu_modbus_simulator_config_tags]. *)
Record sim_tag := { st_name : option string; st_addr : option string; st_index : Z; st_type : Z }.

Definition config_tag (s : sim_ctx_t) (t : sim_tag) : option sim_ctx_t :=
  s ← sim_mark_tag_unlocked (st_index t) (st_type t) s;
  names ← match st_name t with
          | Some n => array_set (st_index t) (Some n) (sim_tag_name s)
          | None => Some (sim_tag_name s)
          end;
  addrs ← match st_addr t with
          | Some a => array_set (st_index t) (Some a) (sim_tag_addr s)
          | None => Some (sim_tag_addr s)
          end;
  Some (with_tables (readonly_mask s) (sim_tag_type s) names addrs (sim_tag_count s) s).

(** [neu_modbus_simulator_config_tags] up to the call of [sim_persist_save]. *)
Definition config_tags (tags : list sim_tag) (s : sim_ctx_t) : option sim_ctx_t :=
  foldM config_tag (sim_reset_regs_unlocked s) tags.

(** ** Generated values *)

Definition prng_int (seed min max : Z) : Z :=
  let x := u32 (u32 seed * 2654435761) in
  let x := Z.lxor x (u32 (Z.shiftl x 13)) in
  let x := Z.lxor x (Z.shiftr x 17) in
  let x := Z.lxor x (u32 (Z.shiftl x 5)) in
  let span := max - min + 1 in
  min + s32 (x mod (if span >? 0 then span else 1)).

(** [fmod] of finite doubles: exact, with the sign of [x]. *)
Definition d64_fmod (x y : spec_float) : spec_float :=
  match x, y with
  | S754_finite sx mx ex, S754_finite _ my ey =>
      let e := Z.min ex ey in
      let r := (Z.pos mx * 2 ^ (ex - e)) mod (Z.pos my * 2 ^ (ey - e)) in
      binary_normalize 53 1024 (if sx then - r else r) e sx
  | S754_zero s, S754_finite _ _ _ => x
  | S754_finite _ _ _, S754_infinity _ | S754_zero _, S754_infinity _ => x
  | _, _ => S754_nan
  end.

(** [M_PI] and [0.5] *)
Definition M_PI : spec_float := d64_of_bits 0x400921FB54442D18.
Definition half : spec_float := d64_of_bits 0x3FE0000000000000.

Section generator.
(** The sine of the C library. *)
Context (sin : spec_float → spec_float).

(** The bits of the [float] at the time [tms]. *)
Definition sine_bits (tms : Z) : Z :=
  let T := d64_of_Z 60000 in
  let theta := d64_div (d64_mul (d64_mul (d64_of_Z 2) M_PI) (d64_fmod (d64_of_Z tms) T)) T in
  let val := d64_add (d64_of_Z (-100))
    (d64_div (d64_mul (d64_sub (d64_of_Z 100) (d64_of_Z (-100))) (d64_add (sin theta) (d64_of_Z 1)))
       (d64_of_Z 2)) in
  f32_bits (double_to_float val).

Definition sim_update_sine_hi_lo (addr tms : Z) (s : sim_ctx_t) : option sim_ctx_t :=
  let u := sine_bits tms in
  let lo := Z.land u 0xFFFF in
  let hi := Z.land (Z.shiftr u 16) 0xFFFF in
  if addr + 1 <? SIM_MAX_REGS then
    regs ← array_set addr hi (hold_regs s);
    regs ← array_set (addr + 1) lo regs;
    Some (with_hold regs s)
  else Some s.

(** The value before the clamping; a [double] out of the range of [int] is not
    converted. *)
Definition saw_value (tms : Z) : option Z :=
  let T := d64_of_Z 100000 in
  let ph := d64_div (d64_fmod (d64_of_Z tms) T) T in
  sf_trunc_Z (d64_floor (d64_add (d64_mul (d64_of_Z 100) ph) half)).

Definition sim_update_saw (addr tms : Z) (s : sim_ctx_t) : option sim_ctx_t :=
  v ← saw_value tms;
  let v := if v <? 0 then 0 else v in
  let v := if v >? 100 then 100 else v in
  regs ← array_set addr (u16 v) (hold_regs s);
  Some (with_hold regs s).

Definition square_value (tms : Z) : Z :=
  let phase := Z.rem tms 10000 in if phase <? Z.quot 10000 2 then -10 else 10.

Definition sim_update_square (addr tms : Z) (s : sim_ctx_t) : option sim_ctx_t :=
  regs ← array_set addr (u16 (s16 (square_value tms))) (hold_regs s);
  Some (with_hold regs s).

Definition random_value (addr tms : Z) : Z :=
  prng_int (s32 (Z.lxor (s32 (Z.quot tms 1000)) addr)) 0 100.

Definition sim_update_random (addr tms : Z) (s : sim_ctx_t) : option sim_ctx_t :=
  regs ← array_set addr (u16 (random_value addr tms)) (hold_regs s);
  Some (with_hold regs s).

Definition generate_at (tms : Z) (s : sim_ctx_t) (addr : Z) : option sim_ctx_t :=
  tp ← array_get (sim_tag_type s) addr;
  if tp =? NEU_SIM_TAG_NONE then Some s
  else if tp =? NEU_SIM_TAG_SINE then sim_update_sine_hi_lo addr tms s
  else if tp =? NEU_SIM_TAG_SAW then sim_update_saw addr tms s
  else if tp =? NEU_SIM_TAG_SQUARE then sim_update_square addr tms s
  else if tp =? NEU_SIM_TAG_RANDOM then sim_update_random addr tms s
  else Some s.

(** One round of [generator_thread], under the lock. *)
Definition generate (tms : Z) (s : sim_ctx_t) : option sim_ctx_t :=
  foldM (generate_at tms) s (seqZ 0 SIM_MAX_REGS).
End generator.
