(* ===== verification/SimulatorOk.v ===== *)
(** * The simulator withstands its clients

    Whatever bytes a client sends, in whatever portions, no array is accessed out
    of its bounds, the invariant [sim_ok] is kept, and the registers that the
    generator owns and the inputs are as they were. *)

From Stdlib Require Import SpecFloat.
From S2P Require Import Prelude NeuTypes Modbus Simulator.

(** ** Arrays and loops *)

Lemma array_get_some {A} (l : list A) i :
  0 <= i < Z.of_nat (length l) → ∃ x, array_get l i = Some x ∧ l !! Z.to_nat i = Some x.
Proof.
  intros Hi. unfold array_get. rewrite (proj2 (Z.ltb_ge _ _)) by lia.
  destruct (lookup_lt_is_Some_2 l (Z.to_nat i)) as [x Hx]; [lia|]. by exists x.
Qed.

Lemma array_set_some {A} i (x : A) l :
  0 <= i < Z.of_nat (length l) → array_set i x l = Some (<[Z.to_nat i := x]> l).
Proof.
  intros Hi. unfold array_set.
  by rewrite (proj2 (Z.leb_le _ _)), (proj2 (Z.ltb_lt _ _)) by lia.
Qed.

Lemma load_some l off n :
  0 <= off → 0 <= n → off + n <= Z.of_nat (length l) →
  load l off n = Some (mem_read (Z.to_nat off) (Z.to_nat n) l).
Proof. intros ? ? ?. unfold load. by rewrite !(proj2 (Z.leb_le _ _)) by lia. Qed.

Lemma store_some off bs l :
  0 <= off → off + Z.of_nat (length bs) <= Z.of_nat (length l) →
  store off bs l = Some (mem_write (Z.to_nat off) bs l).
Proof. intros ? ?. unfold store. by rewrite !(proj2 (Z.leb_le _ _)) by lia. Qed.

(** A buffer of [n] bytes. *)
Definition buffer (n : Z) (l : list Z) : Prop := Z.of_nat (length l) = n ∧ bytes_ok l.

Lemma store_buffer n off bs l :
  buffer n l → 0 <= off → off + Z.of_nat (length bs) <= n → bytes_ok bs →
  ∃ l', store off bs l = Some l' ∧ buffer n l'.
Proof.
  intros [Hl Hb] Ho Hn Hbs. rewrite store_some by lia. eexists. split; [done|].
  split; [by rewrite length_mem_write by lia|by apply mem_write_ok].
Qed.

Lemma load_buffer n l off k :
  buffer n l → 0 <= off → 0 <= k → off + k <= n →
  ∃ bs, load l off k = Some bs ∧ Z.of_nat (length bs) = k ∧ bytes_ok bs.
Proof.
  intros [Hl Hb] Ho Hk Hn. rewrite load_some by lia. eexists. split; [done|].
  split; [rewrite length_mem_read by lia; lia|by apply mem_read_ok].
Qed.

Lemma foldM_inv {A B} (I : A → Prop) (f : A → B → option A) a l :
  (∀ a x, x ∈ l → I a → ∃ a', f a x = Some a' ∧ I a') → I a →
  ∃ a', foldM f a l = Some a' ∧ I a'.
Proof.
  revert a. induction l as [|x l IH]; intros a Hf Ha; [by exists a|]. simpl.
  destruct (Hf a x) as (a' & -> & Ha'); [left|done|]. simpl. apply IH; [|done].
  intros b y Hy. apply Hf. by right.
Qed.

Lemma foldM_app {A B} (f : A → B → option A) a l k :
  foldM f a (l ++ k) = b ← foldM f a l; foldM f b k.
Proof.
  revert a. induction l as [|x l IH]; intros a; [done|]. simpl. destruct (f a x); [apply IH|done].
Qed.

Lemma mapM_some {A B} (f : A → option B) l :
  (∀ x, x ∈ l → is_Some (f x)) → ∃ k, mapM f l = Some k ∧ Forall2 (λ x y, f x = Some y) l k.
Proof.
  induction l as [|x l IH]; intros Hf; [by exists []|]. simpl.
  destruct (Hf x) as [y Hy]; [left|]. rewrite Hy.
  destruct IH as (k & Hk & HF); [intros z Hz; apply Hf; by right|].
  rewrite Hk. exists (y :: k). split; [done|]. by constructor.
Qed.

Lemma elem_of_seqZ0 n x : x ∈ seqZ 0 n → 0 <= x < n.
Proof. rewrite elem_of_seqZ. lia. Qed.

Lemma be_load_2 bs : Z.of_nat (length bs) = 2 → bytes_ok bs → is_u16 (be_load bs).
Proof.
  intros Hl Hb. unfold be_load.
  pose proof (le_load_range (reverse bs) (bytes_ok_rev _ Hb)) as H. rewrite length_reverse in H.
  replace (length bs) with 2%nat in H by lia. done.
Qed.

Lemma ntohs_range z : is_u16 (ntohs z).
Proof.
  unfold ntohs, bswap. pose proof (le_load_range (be_store 2 z) (be_store_ok 2 z)) as H.
  by rewrite length_be_store in H.
Qed.

Lemma field16_some n req off :
  buffer n req → 0 <= off → off + 2 <= n → ∃ v, field16 req off = Some v ∧ is_u16 v.
Proof.
  intros Hr Ho Hn. unfold field16. destruct (load_buffer n req off 2) as (bs & -> & _); [done|lia..|].
  simpl. eexists. split; [done|apply ntohs_range].
Qed.

(** ** The invariant *)

Record sim_ok (s : sim_ctx_t) : Prop := {
  so_coils : Z.of_nat (length (coil_bits s)) = 1000;
  so_inputs : Z.of_nat (length (input_bits s)) = 1000;
  so_hold : Z.of_nat (length (hold_regs s)) = 1000;
  so_input_regs : Z.of_nat (length (input_regs s)) = 1000;
  so_mask : Z.of_nat (length (readonly_mask s)) = 1000;
  so_types : Z.of_nat (length (sim_tag_type s)) = 1000;
  so_names : Z.of_nat (length (sim_tag_name s)) = 1000;
  so_addrs : Z.of_nat (length (sim_tag_addr s)) = 1000;
  so_bits : Forall (λ b, b = 0 ∨ b = 1) (coil_bits s);
  so_words : Forall (λ v, is_u16 v) (hold_regs s);
  so_input_words : Forall (λ v, is_u16 v) (input_regs s);
  (** The registers of a tag are read-only. *)
  so_owned : ∀ a t, sim_tag_type s !! a = Some t → t ≠ NEU_SIM_TAG_NONE →
    1 <= t <= 4 ∧ readonly_mask s !! a = Some true ∧
    (t = NEU_SIM_TAG_SINE → readonly_mask s !! S a = Some true);
}.

(** What a client may change: coils, and holding registers that no tag owns. *)
Record client_frame (s s' : sim_ctx_t) : Prop := {
  cf_ok : sim_ok s';
  cf_rest : ∃ bits regs, s' = with_coils bits (with_hold regs s);
  cf_owned : ∀ a, readonly_mask s !! a = Some true → hold_regs s' !! a = hold_regs s !! a;
}.

Lemma client_frame_refl s : sim_ok s → client_frame s s.
Proof. intros Hs. split; [done| |done]. exists (coil_bits s), (hold_regs s). by destruct s. Qed.

(** Registers that differ only where no tag owns them. *)
Definition regs_frame (s : sim_ctx_t) (regs : list Z) : Prop :=
  Z.of_nat (length regs) = 1000 ∧ Forall (λ v, is_u16 v) regs ∧
  ∀ a, readonly_mask s !! a = Some true → regs !! a = hold_regs s !! a.

Lemma regs_frame_refl s : sim_ok s → regs_frame s (hold_regs s).
Proof. intros Hs. split; [apply Hs|]. split; [apply Hs|done]. Qed.

Lemma regs_frame_set s regs i v :
  regs_frame s regs → 0 <= i < 1000 → is_u16 v → readonly_mask s !! Z.to_nat i = Some false →
  ∃ regs', array_set i v regs = Some regs' ∧ regs_frame s regs'.
Proof.
  intros (Hl & Hw & Ho) Hi Hv Hm. rewrite array_set_some by lia. eexists. split; [done|].
  split; [by rewrite length_insert|]. split; [by apply Forall_insert|].
  intros a Ha. rewrite list_lookup_insert_ne; [by apply Ho|]. intros <-. congruence.
Qed.

Lemma with_hold_frame s regs : sim_ok s → regs_frame s regs → client_frame s (with_hold regs s).
Proof.
  intros Hs (Hl & Hw & Ho). split; [| |done].
  - destruct Hs. by constructor.
  - exists (coil_bits s), regs. by destruct s.
Qed.

Lemma with_coils_frame s bits :
  sim_ok s → Z.of_nat (length bits) = 1000 → Forall (λ b, b = 0 ∨ b = 1) bits →
  client_frame s (with_coils bits s).
Proof.
  intros Hs Hl Hb. split; [| |done].
  - destruct Hs. by constructor.
  - exists bits, (hold_regs s). by destruct s.
Qed.

(** ** Every operation is defined *)

(** The result of an operation on a response buffer of [m] bytes of which 8 are
    in use. *)
Definition answered (m : Z) (r : option (Z * list Z * Z)) : Prop :=
  ∃ ret res len, r = Some (ret, res, len) ∧ buffer m res ∧ 8 <= len <= m ∧ (ret = 0 ∨ ret = -1).
Definition served (m : Z) (s : sim_ctx_t) (r : option (Z * list Z * Z * sim_ctx_t)) : Prop :=
  ∃ ret res len s', r = Some (ret, res, len, s') ∧ buffer m res ∧ 8 <= len <= m ∧ client_frame s s'.

Ltac stored H :=
  match goal with
  | |- context [store ?o ?b ?l] =>
      destruct (store_buffer _ o b l H) as (? & -> & ?);
      [try lia|rewrite ?length_le_store, ?length_replicate; simpl; try lia
      |auto with neuron|cbn [mbind option_bind]]
  end.

Lemma refuse_answered m f code res len :
  buffer m res → 8 <= len <= m → 8 <= m → is_u8 code →
  answered m (refuse f code res m len).
Proof.
  intros Hr Hl Hm Hc. unfold refuse, set_function, set_len.
  destruct (store_buffer m 7 [u8 f] res Hr) as (r1 & -> & H1); [lia|simpl; lia|auto with neuron|].
  cbn [mbind option_bind]. destruct (Z.gtb_spec (len + 1) m); [by exists (-1), r1, len; auto|].
  destruct (store_buffer m len [code] r1 H1) as (r2 & -> & H2); [lia|simpl; lia|auto with neuron|].
  cbn [mbind option_bind].
  destruct (store_buffer m 4 (le_store 2 (htons (sizeof_code + 1))) r2 H2) as (r3 & -> & H3);
    [lia|rewrite length_le_store; lia|auto with neuron|].
  exists 0, r3, (len + 1). split; [done|]. split; [done|]. split; [lia|by left].
Qed.

Lemma acknowledge_answered n m req pdu res len :
  buffer n req → 0 <= pdu → pdu + 4 <= n → buffer m res → 8 <= len <= m → 8 <= m →
  answered m (acknowledge req pdu res m len).
Proof.
  intros Hq Hp Hn Hr Hl Hm. unfold acknowledge, set_len, sizeof_address.
  destruct (Z.gtb_spec (len + 4) m); [by exists (-1), res, len; auto|].
  destruct (load_buffer n req pdu 4 Hq) as (bs & -> & Hbl & Hb); [lia..|]. cbn [mbind option_bind].
  destruct (store_buffer m len bs res Hr) as (r1 & -> & H1); [lia|lia|done|]. cbn [mbind option_bind].
  destruct (store_buffer m 4 (le_store 2 (htons (sizeof_code + 4))) r1 H1) as (r2 & -> & H2);
    [lia|rewrite length_le_store; lia|auto with neuron|].
  exists 0, r2, (len + 4). split; [done|]. split; [done|]. split; [lia|by left].
Qed.

(** The tail of a read: the length of the frame. *)
Lemma finish_answered m res n len :
  buffer m res → 8 <= len <= m →
  answered m (res ← set_len n res; Some (0, res, len)).
Proof.
  intros Hr Hl. unfold set_len.
  destruct (store_buffer m 4 (le_store 2 (htons n)) res Hr) as (r & -> & H);
    [lia|rewrite length_le_store; lia|auto with neuron|].
  exists 0, r, len. auto.
Qed.

(** A loop that keeps [I]: the body and the start are left to prove. *)
Ltac looped I r Hb :=
  match goal with
  | |- context [foldM ?f ?a ?l] =>
      destruct (foldM_inv I f a l) as (r & -> & Hb); [| |cbn [mbind option_bind]]
  end.

Ltac refused := apply refuse_answered; [done|lia|lia|lia].

(** The address fields of a request, and the range check on them. *)
Ltac field n Hq off v :=
  destruct (field16_some n _ off Hq) as (v & -> & ?); [lia|lia|cbn [mbind option_bind]].
Ltac fields n Hq pdu v v0 := field n Hq pdu v; field n Hq (pdu + 2) v0.

Lemma read_holding_answered n m s req pdu pdu_len res :
  sim_ok s → buffer n req → 0 <= pdu → pdu + 4 <= n → buffer m res → 8 <= m →
  answered m (pdu_read_holding s req pdu pdu_len res m 8).
Proof.
  intros Hs Hq Hp Hn Hr Hm. unfold pdu_read_holding, SIM_MAX_REGS.
  destruct (_ <? _); [by exists (-1), res, 8; auto with lia|]. fields n Hq pdu v v0.
  destruct (Z.eqb_spec v0 0), (Z.gtb_spec (v + v0) 1000); cbn [orb];
    try refused.
  destruct (Z.gtb_spec (8 + 1 + 2 * v0) m); [by exists (-1), res, 8; auto with lia|]. stored Hr.
  looped (buffer m) r Hb; [|done|].
  { intros a i Hi%elem_of_seqZ0 Ha.
    destruct (array_get_some (hold_regs s) (v + i)) as (x' & -> & _); [rewrite so_hold by done; lia|].
    cbn [mbind option_bind]. apply store_buffer; [done|lia| |auto with neuron].
    rewrite length_le_store. lia. }
  cbn [mbind option_bind]. apply finish_answered; [done|lia].
Qed.

Lemma read_input_regs_answered n m s req pdu pdu_len res :
  sim_ok s → buffer n req → 0 <= pdu → pdu + 4 <= n → buffer m res → 8 <= m →
  answered m (pdu_read_input_regs s req pdu pdu_len res m 8).
Proof.
  intros Hs Hq Hp Hn Hr Hm. unfold pdu_read_input_regs, SIM_MAX_REGS.
  destruct (_ <? _); [by exists (-1), res, 8; auto with lia|]. fields n Hq pdu v v0.
  destruct (Z.eqb_spec v0 0), (Z.gtb_spec (v + v0) 1000); cbn [orb];
    try refused.
  destruct (Z.gtb_spec (8 + 1 + 2 * v0) m); [by exists (-1), res, 8; auto with lia|]. stored Hr.
  looped (buffer m) r Hb; [|done|].
  { intros a i Hi%elem_of_seqZ0 Ha.
    destruct (array_get_some (input_regs s) (v + i)) as (x' & -> & _); [rewrite so_input_regs by done; lia|].
    cbn [mbind option_bind]. stored Ha. apply store_buffer; [done|lia|simpl; lia|].
    apply bytes_ok_cons; [|auto with neuron]. change 0xFF with (Z.ones 8).
    rewrite Z.land_ones by lia. apply Z.mod_pos_bound. lia. }
  cbn [mbind option_bind]. apply finish_answered; [done|lia].
Qed.

Lemma lor_u8 a b : is_u8 a → is_u8 b → is_u8 (Z.lor a b).
Proof.
  intros Ha Hb. split; [apply Z.lor_nonneg; lia|].
  destruct (decide (Z.lor a b = 0)) as [->|Hne]; [lia|].
  apply Z.log2_lt_cancel. rewrite Z.log2_lor by lia.
  assert (∀ x, is_u8 x → Z.log2 x < 8) as H.
  { intros x Hx. destruct (decide (x = 0)) as [->|]; [done|]. apply Z.log2_lt_pow2; lia. }
  change (Z.log2 256) with 8. pose proof (H a Ha). pose proof (H b Hb). lia.
Qed.

(** Setting the bits of a read keeps the buffer. *)
Lemma set_bits_buffer m bits start nbits res :
  Z.of_nat (length bits) = 1000 → 0 <= start → start + nbits <= 1000 → 0 <= nbits →
  9 + (nbits + 7) / 8 <= m → buffer m res →
  ∃ r, foldM (set_bit 8 bits start) res (seqZ 0 nbits) = Some r ∧ buffer m r.
Proof.
  intros Hl Hst Hsn Hn Hm Hr. apply foldM_inv; [|done]. intros a i Hi%elem_of_seqZ0 Ha.
  unfold set_bit. destruct (array_get_some bits (start + i)) as (x & -> & _); [lia|].
  cbn [mbind option_bind]. destruct (_ =? _); [by exists a|].
  assert (0 <= i / 8 < (nbits + 7) / 8) by zlia.
  destruct (load_buffer m a (8 + 1 + i / 8) 1 Ha) as (bs & -> & Hbl & Hb); [lia..|].
  cbn [mbind option_bind]. apply store_buffer; [done|lia|simpl; lia|].
  apply bytes_ok_cons; [|auto with neuron]. apply lor_u8; [|apply u8_range].
  pose proof (le_load_range bs Hb) as Hrg. by replace (length bs) with 1%nat in Hrg by lia.
Qed.

Lemma read_bits_answered n m bits (f : Z) req pdu pdu_len res :
  Z.of_nat (length bits) = 1000 → buffer n req → 0 <= pdu → pdu + 4 <= n → buffer m res → 8 <= m →
  answered m (
    if pdu_len <? sizeof_address then Some (-1, res, 8) else
    start ← field16 req pdu; nbits ← field16 req (pdu + 2);
    if (nbits =? 0) || (start + nbits >? SIM_MAX_BITS) then refuse f 0x02 res m 8
    else
    let nbytes := u16 ((nbits + 7) / 8) in
    if 8 + 1 + nbytes >? m then Some (-1, res, 8) else
    res ← store 8 [u8 nbytes] res;
    res ← store (8 + 1) (replicate (Z.to_nat nbytes) 0) res;
    res ← foldM (set_bit 8 bits start) res (seqZ 0 nbits);
    res ← set_len (sizeof_code + 1 + nbytes) res;
    Some (0, res, 8 + 1 + nbytes)).
Proof.
  intros Hbits Hq Hp Hn Hr Hm. unfold SIM_MAX_BITS.
  destruct (_ <? _); [by exists (-1), res, 8; auto with lia|]. fields n Hq pdu v v0.
  destruct (Z.eqb_spec v0 0), (Z.gtb_spec (v + v0) 1000); cbn [orb];
    try refused.
  cbv zeta. assert (0 <= (v0 + 7) / 8 < 65536) by zlia. rewrite u16_id by lia.
  destruct (Z.gtb_spec (8 + 1 + (v0 + 7) / 8) m); [by exists (-1), res, 8; auto with lia|].
  stored Hr.
  destruct (store_buffer m (8 + 1) (replicate (Z.to_nat ((v0 + 7) / 8)) 0) x) as (x1 & -> & Hx1);
    [done|lia|rewrite length_replicate; lia|by apply bytes_ok_replicate|]. cbn [mbind option_bind].
  destruct (set_bits_buffer m bits v v0 x1) as (r & -> & Hb); [lia..|done|].
  cbn [mbind option_bind]. apply finish_answered; [done|lia].
Qed.

(** An operation whose result is passed on with the state. *)
Lemma served_answered m s s' r :
  answered m r → client_frame s s' → served m s ('(ret, res, len) ← r; Some (ret, res, len, s')).
Proof. intros (ret & res & len & -> & Hb & Hl & _) Hf. by exists ret, res, len, s'. Qed.

Lemma write_single_holding_served n m s req pdu pdu_len res :
  sim_ok s → buffer n req → 0 <= pdu → pdu + 4 <= n → buffer m res → 8 <= m →
  served m s (pdu_write_single_holding s req pdu pdu_len res m 8).
Proof.
  intros Hs Hq Hp Hn Hr Hm. unfold pdu_write_single_holding, SIM_MAX_REGS.
  pose proof (client_frame_refl s Hs) as Hrefl.
  destruct (_ <? _); [by exists (-1), res, 8, s; auto with lia|]. field n Hq pdu v.
  destruct (Z.geb_spec v 1000); [by apply served_answered; [refused|]|].
  destruct (array_get_some (readonly_mask s) v) as (ro & -> & Hro); [rewrite so_mask by done; lia|].
  cbn [mbind option_bind]. destruct ro; [by apply served_answered; [refused|]|].
  destruct (load_buffer n req (pdu + 2) 2 Hq) as (bs & -> & Hbl & Hb); [lia..|]. cbn [mbind option_bind].
  destruct (regs_frame_set s (hold_regs s) v (be_load bs)) as (regs & -> & Hf);
    [by apply regs_frame_refl|lia|by apply be_load_2|done|]. cbn [mbind option_bind].
  apply served_answered; [|by apply with_hold_frame].
  apply (acknowledge_answered n); [done|lia|lia|done|lia|done].
Qed.

Lemma write_multiple_holding_served n m s req pdu pdu_len res :
  sim_ok s → buffer n req → 0 <= pdu → pdu + 2005 <= n → buffer m res → 8 <= m →
  served m s (pdu_write_multiple_holding s req pdu pdu_len res m 8).
Proof.
  intros Hs Hq Hp Hn Hr Hm. unfold pdu_write_multiple_holding, SIM_MAX_REGS.
  pose proof (client_frame_refl s Hs) as Hrefl.
  destruct (_ <? _); [by exists (-1), res, 8, s; auto with lia|]. fields n Hq pdu v v0.
  destruct (Z.eqb_spec v0 0), (Z.gtb_spec (v + v0) 1000); cbn [orb];
    try (by apply served_answered; [refused|]).
  destruct (mapM_some (λ i, array_get (readonly_mask s) (v + i)) (seqZ 0 v0)) as (mask & -> & Hmask).
  { intros i Hi%elem_of_seqZ0. destruct (array_get_some (readonly_mask s) (v + i)) as (b & -> & _);
      [rewrite so_mask by done; lia|by eexists]. }
  cbn [mbind option_bind]. destruct (existsb id mask) eqn:Hex;
    [by apply served_answered; [refused|]|].
  looped (regs_frame s) regs Hb; [|by apply regs_frame_refl|].
  { intros a i Hi Ha. pose proof (elem_of_seqZ0 _ _ Hi).
    destruct (load_buffer n req (pdu + sizeof_address + sizeof_data + i * 2) 2 Hq)
      as (bs & -> & Hbl & Hbb); [unfold sizeof_address, sizeof_data; lia..|]. cbn [mbind option_bind].
    apply regs_frame_set; [done|lia|by apply be_load_2|].
    apply list_elem_of_lookup in Hi as [k Hk].
    destruct (Forall2_lookup_l _ _ _ _ _ Hmask Hk) as (b & Hbk & Hget).
    unfold array_get in Hget. destruct (_ <? _); [done|]. rewrite Hget. f_equal.
    destruct b; [|done]. exfalso. apply Bool.not_true_iff_false in Hex. apply Hex, existsb_exists.
    exists true. split; [|done]. apply list_elem_of_In. by eapply list_elem_of_lookup_2. }
  cbn [mbind option_bind]. apply served_answered; [|by apply with_hold_frame].
  apply (acknowledge_answered n); [done|lia|lia|done|lia|done].
Qed.

(** Coils that are all 0 or 1. *)
Definition bits_ok (bits : list Z) : Prop :=
  Z.of_nat (length bits) = 1000 ∧ Forall (λ b, b = 0 ∨ b = 1) bits.

Lemma bits_set bits i b :
  bits_ok bits → 0 <= i < 1000 → b = 0 ∨ b = 1 →
  ∃ bits', array_set i b bits = Some bits' ∧ bits_ok bits'.
Proof.
  intros [Hl Hb] Hi Hv. rewrite array_set_some by lia. eexists. split; [done|].
  split; [by rewrite length_insert|]. by apply Forall_insert.
Qed.

Lemma write_single_coil_served n m s req pdu pdu_len res :
  sim_ok s → buffer n req → 0 <= pdu → pdu + 4 <= n → buffer m res → 8 <= m →
  served m s (pdu_write_single_coil s req pdu pdu_len res m 8).
Proof.
  intros Hs Hq Hp Hn Hr Hm. unfold pdu_write_single_coil, SIM_MAX_BITS.
  pose proof (client_frame_refl s Hs) as Hrefl.
  destruct (_ <? _); [by exists (-1), res, 8, s; auto with lia|]. field n Hq pdu v.
  destruct (Z.geb_spec v 1000); [by apply served_answered; [refused|]|].
  destruct (load_buffer n req (pdu + 2) 2 Hq) as (bs & -> & Hbl & Hb); [lia..|]. cbn [mbind option_bind].
  destruct (bits_set (coil_bits s) v (if be_load bs =? 0xFF00 then 1 else 0)) as (bits & -> & Hf);
    [split; apply Hs|lia|destruct (_ =? _); auto|]. cbn [mbind option_bind].
  apply served_answered; [|by apply with_coils_frame; [|apply Hf..]].
  apply (acknowledge_answered n); [done|lia|lia|done|lia|done].
Qed.

Lemma land_1 z : Z.land z 1 = 0 ∨ Z.land z 1 = 1.
Proof.
  assert (Z.land z 1 = z mod 2) as -> by apply (Z.land_ones z 1 ltac:(lia)).
  pose proof (Z.mod_pos_bound z 2). lia.
Qed.

Lemma write_multiple_coils_served n m s req pdu pdu_len res :
  sim_ok s → buffer n req → 0 <= pdu → pdu + 2005 <= n → buffer m res → 8 <= m →
  served m s (pdu_write_multiple_coils s req pdu pdu_len res m 8).
Proof.
  intros Hs Hq Hp Hn Hr Hm. unfold pdu_write_multiple_coils, SIM_MAX_BITS.
  pose proof (client_frame_refl s Hs) as Hrefl.
  destruct (_ <? _); [by exists (-1), res, 8, s; auto with lia|]. fields n Hq pdu v v0.
  destruct (Z.eqb_spec v0 0), (Z.gtb_spec (v + v0) 1000); cbn [orb];
    try (by apply served_answered; [refused|]).
  looped bits_ok bits Hb; [|split; apply Hs|].
  { intros a i Hi%elem_of_seqZ0 Ha. assert (0 <= i / 8 < 1000) by zlia.
    destruct (load_buffer n req (pdu + sizeof_address + sizeof_data + i / 8) 1 Hq)
      as (bs & -> & Hbl & Hbb); [unfold sizeof_address, sizeof_data; lia..|]. cbn [mbind option_bind].
    apply bits_set; [done|lia|apply land_1]. }
  cbn [mbind option_bind]. apply served_answered; [|by apply with_coils_frame; [|apply Hb..]].
  apply (acknowledge_answered n); [done|lia|lia|done|lia|done].
Qed.

(** ** A whole request *)

(** An operation that changes nothing. *)
Lemma pass_answered m s need r :
  answered m r → sim_ok s → 0 <= need →
  ∃ res len s', ('(_, res, len) ← r; Some (need, res, len, s)) = Some (need, res, len, s') ∧
    buffer m res ∧ 0 <= len <= m ∧ client_frame s s'.
Proof.
  intros (ret & res & len & -> & Hb & Hl & _) Hs _. exists res, len, s.
  split; [done|]. split; [done|]. split; [lia|by apply client_frame_refl].
Qed.

Lemma pass_served m s need r :
  served m s r → 0 <= need →
  ∃ res len s', ('(_, res, len, s) ← r; Some (need, res, len, s)) = Some (need, res, len, s') ∧
    buffer m res ∧ 0 <= len <= m ∧ client_frame s s'.
Proof.
  intros (ret & res & len & s' & -> & Hb & Hl & Hf) _. exists res, len, s'.
  split; [done|]. split; [done|]. split; [lia|done].
Qed.

(** Every request, complete or not, with whatever contents. *)
Lemma process_total s req req_len res m :
  sim_ok s → buffer CYCLE_BUF_SIZE req → 0 <= req_len <= CYCLE_BUF_SIZE → buffer m res → 9 <= m →
  ∃ used res' len s', process_modbus_tcp s req req_len res m = Some (used, res', len, s') ∧
    (used = -1 ∨ 0 <= used <= req_len) ∧ buffer m res' ∧ 0 <= len <= m ∧ client_frame s s'.
Proof.
  intros Hs Hq Hlen Hr Hm. unfold process_modbus_tcp, CYCLE_BUF_SIZE in *.
  pose proof (client_frame_refl s Hs) as Hrefl.
  destruct (Z.ltb_spec req_len sizeof_header) as [|Hge].
  { exists 0, res, 0, s. split; [done|]. split; [right; lia|]. split_and!; [apply Hr..|lia|lia|done]. }
  unfold sizeof_header in Hge.
  destruct (field16_some 4096 req 4 Hq) as (hlen & -> & Hh); [lia..|]. cbn [mbind option_bind].
  set (need := u16 (sizeof_header + hlen)). pose proof (u16_range (sizeof_header + hlen)) as Hneed.
  fold need in Hneed. destruct (Z.ltb_spec req_len need) as [|Hle].
  { exists 0, res, 0, s. split; [done|]. split; [right; lia|]. split_and!; [apply Hr..|lia|lia|done]. }
  destruct (load_buffer 4096 req 2 2 Hq) as (pr & -> & _ & _); [lia..|]. cbn [mbind option_bind].
  destruct (_ =? 0); cbn [negb].
  2:{ exists (-1), res, 0, s. split; [done|]. split; [by left|]. split_and!; [apply Hr..|lia|lia|done]. }
  unfold sizeof_header, sizeof_code. change (6 + 2) with 8.
  destruct (load_buffer 4096 req 0 6 Hq) as (hd & -> & Hhl & Hhb); [lia..|]. cbn [mbind option_bind].
  destruct (store_buffer m 0 hd res Hr) as (r1 & -> & H1); [lia|lia|done|]. cbn [mbind option_bind].
  destruct (load_buffer 4096 req 6 2 Hq) as (cd & -> & Hcl & Hcb); [lia..|]. cbn [mbind option_bind].
  destruct (store_buffer m 6 cd r1 H1) as (r2 & -> & H2); [lia|lia|done|]. cbn [mbind option_bind].
  unfold set_len at 1.
  destruct (store_buffer m 4 (le_store 2 (htons 2)) r2 H2) as (r3 & -> & H3);
    [lia|rewrite length_le_store; lia|auto with neuron|]. cbn [mbind option_bind].
  assert (∀ X, (∃ res len s', X = Some (need, res, len, s') ∧ buffer m res ∧ 0 <= len <= m ∧
    client_frame s s') → ∃ used res' len s', X = Some (used, res', len, s') ∧
    (used = -1 ∨ 0 <= used <= req_len) ∧ buffer m res' ∧ 0 <= len <= m ∧ client_frame s s') as Hgo.
  { intros X (res' & len & s' & -> & ?). exists need, res', len, s'. split; [done|].
    split; [right; lia|done]. }
  assert (Hm8 : 8 <= m) by lia. assert (Hn0 : 0 <= need) by lia.
  destruct (_ =? MODBUS_READ_HOLD_REG).
  { apply Hgo, pass_answered; [|done..]. apply (read_holding_answered 4096); try done; lia. }
  destruct (_ =? MODBUS_READ_INPUT_REG).
  { apply Hgo, pass_answered; [|done..]. apply (read_input_regs_answered 4096); try done; lia. }
  destruct (_ =? MODBUS_READ_COIL).
  { apply Hgo, pass_answered; [|done..].
    apply (read_bits_answered 4096); [by apply so_coils|try done; lia..]. }
  destruct (_ =? MODBUS_READ_INPUT).
  { apply Hgo, pass_answered; [|done..].
    apply (read_bits_answered 4096); [by apply so_inputs|try done; lia..]. }
  destruct (_ =? MODBUS_WRITE_S_HOLD_REG).
  { apply Hgo, pass_served; [|done]. apply (write_single_holding_served 4096); try done; lia. }
  destruct (_ =? MODBUS_WRITE_M_HOLD_REG).
  { apply Hgo, pass_served; [|done]. apply (write_multiple_holding_served 4096); try done; lia. }
  destruct (_ =? MODBUS_WRITE_S_COIL).
  { apply Hgo, pass_served; [|done]. apply (write_single_coil_served 4096); try done; lia. }
  destruct (_ =? MODBUS_WRITE_M_COIL).
  { apply Hgo, pass_served; [|done]. apply (write_multiple_coils_served 4096); try done; lia. }
  destruct (refuse_answered m (Z.lor (nth 1 cd 0) 0x80) 0x01 r3 8) as (ret & r4 & len & -> & Hb & Hl & Hret);
    [done|lia|lia|lia|].
  eexists _, r4, len, s. split; [done|].
  split; [destruct (ret =? -1); [by left|right; lia]|]. split; [done|]. split; [lia|done].
Qed.

(** ** A client *)

Definition client_ok (cb : cycle_buf) : Prop :=
  buffer CYCLE_BUF_SIZE (cb_buf cb) ∧ 0 <= cb_len cb <= CYCLE_BUF_SIZE.

(** What [recv] may return for a buffer with room for [room] bytes. *)
Definition received (room r : Z) (data : list Z) : Prop :=
  bytes_ok data ∧ (r <= 0 ∧ data = [] ∨ 0 < r <= room ∧ Z.of_nat (length data) = r).

Lemma client_read_total s cb r data :
  sim_ok s → client_ok cb → received (CYCLE_BUF_SIZE - cb_len cb) r data →
  ∃ e cb' s', client_read s cb r data = Some (e, cb', s') ∧ client_ok cb' ∧ client_frame s s' ∧
    match e with Answer bytes => Z.of_nat (length bytes) <= RES_SIZE | _ => True end.
Proof.
  intros Hs [Hcb Hlen] [Hdb Hrd]. unfold client_read.
  set (len := if r >? 0 then u16 (cb_len cb + u16 r) else cb_len cb).
  assert (len = cb_len cb + Z.of_nat (length data) ∧ len <= CYCLE_BUF_SIZE) as [Hl1 Hl2].
  { unfold len, CYCLE_BUF_SIZE in *. destruct Hrd as [[Hr ->]|[Hr Hdl]].
    - rewrite Z.gtb_ltb, (proj2 (Z.ltb_ge _ _)) by lia. simpl. lia.
    - rewrite Z.gtb_ltb, (proj2 (Z.ltb_lt _ _)), (u16_id r), u16_id by lia. lia. }
  destruct (store_buffer CYCLE_BUF_SIZE (cb_len cb) data (cb_buf cb) Hcb) as (buf & -> & Hbuf);
    [lia|lia|done|]. cbn [mbind option_bind].
  destruct (process_total s buf len (replicate (Z.to_nat RES_SIZE) 0) RES_SIZE)
    as (used & res & rl & s' & -> & Hu & Hb & Hrl & Hf); [done|done|lia| |done|].
  { split; [rewrite length_replicate; unfold RES_SIZE; lia|by apply bytes_ok_replicate]. }
  cbn [mbind option_bind]. destruct (Z.eqb_spec used (-1)).
  { eexists Closed, _, s'. split; [done|]. split; [|done]. split; [done|simpl; lia]. }
  destruct (Z.eqb_spec used 0).
  { eexists Waiting, _, s'. split; [done|]. split; [|done]. split; [done|simpl; lia]. }
  destruct (load_buffer CYCLE_BUF_SIZE buf used (len - used) Hbuf) as (rest & -> & Hrest & Hrb); [lia..|].
  cbn [mbind option_bind].
  destruct (store_buffer CYCLE_BUF_SIZE 0 rest buf Hbuf) as (buf' & -> & Hbuf'); [lia|lia|done|].
  cbn [mbind option_bind].
  destruct (load_buffer RES_SIZE res 0 rl Hb) as (bytes & -> & Hbl & _); [lia..|]. cbn [mbind option_bind].
  eexists (Answer bytes), _, s'. split; [done|].
  split; [split; [done|]; cbn [cb_len]; rewrite u16_id; unfold CYCLE_BUF_SIZE in *; lia|].
  split; [done|lia].
Qed.

(** ** The generator *)

(** Registers that differ only where a tag owns them. *)
Definition owned_frame (s : sim_ctx_t) (regs : list Z) : Prop :=
  Z.of_nat (length regs) = 1000 ∧ Forall (λ v, is_u16 v) regs ∧
  ∀ a, readonly_mask s !! a = Some false → regs !! a = hold_regs s !! a.

Lemma owned_frame_set s regs a v :
  owned_frame s regs → readonly_mask s !! a = Some true → is_u16 v → (a < 1000)%nat →
  array_set (Z.of_nat a) v regs = Some (<[a := v]> regs) ∧ owned_frame s (<[a := v]> regs).
Proof.
  intros (Hl & Hw & Ho) Hm Hv Ha. rewrite array_set_some, Nat2Z.id by lia. split; [done|].
  split; [by rewrite length_insert|]. split; [by apply Forall_insert|].
  intros b Hb. rewrite list_lookup_insert_ne; [by apply Ho|]. intros <-. congruence.
Qed.

(** The time is one whose saw value is a number. *)
Definition time_ok (tms : Z) : Prop := is_Some (saw_value tms).

Lemma prng_range seed lo hi : 0 <= lo <= hi → hi < 1000 → lo <= prng_int seed lo hi <= hi.
Proof.
  intros Hlo Hhi. unfold prng_int. rewrite Z.gtb_ltb, (proj2 (Z.ltb_lt _ _)) by lia.
  set (x := Z.lxor _ _). pose proof (Z.mod_pos_bound x (hi - lo + 1) ltac:(lia)). zlia.
Qed.

(** What the generator writes is what the header documents. *)
Lemma random_range addr tms : 0 <= random_value addr tms <= 100.
Proof. by apply prng_range. Qed.

Lemma land_ffff z : is_u16 (Z.land z 0xFFFF).
Proof. change 0xFFFF with (Z.ones 16). rewrite Z.land_ones by lia. apply Z.mod_pos_bound. lia. Qed.

Lemma generate_at_ok sin tms s regs a :
  sim_ok s → time_ok tms → owned_frame s regs → (a < 1000)%nat →
  ∃ regs', generate_at sin tms (with_hold regs s) (Z.of_nat a) = Some (with_hold regs' s) ∧
    owned_frame s regs'.
Proof.
  intros Hs [v Hv] Hf Ha. unfold generate_at.
  destruct (array_get_some (sim_tag_type (with_hold regs s)) (Z.of_nat a)) as (t & -> & Ht).
  { simpl. rewrite so_types by done. lia. }
  cbn [mbind option_bind]. rewrite Nat2Z.id in Ht. simpl in Ht.
  destruct (Z.eqb_spec t NEU_SIM_TAG_NONE) as [|Hne]; [by exists regs|].
  destruct (so_owned s Hs a t Ht Hne) as (Hrange & Hm & Hsine).
  assert (∀ w, is_u16 w → ∃ regs', (regs' ← array_set (Z.of_nat a) w regs;
    Some (with_hold regs' s)) = Some (with_hold regs' s) ∧ owned_frame s regs') as Hone.
  { intros w Hw. destruct (owned_frame_set s regs a w) as [-> ?]; [done..|]. by eexists. }
  destruct (Z.eqb_spec t NEU_SIM_TAG_SINE) as [E|_].
  { specialize (Hsine E). unfold sim_update_sine_hi_lo, SIM_MAX_REGS. destruct (Z.ltb_spec (Z.of_nat a + 1) 1000).
    - cbn [hold_regs with_hold].
      destruct (owned_frame_set s regs a (Z.land (Z.shiftr (sine_bits sin tms) 16) 0xFFFF)) as [-> H1];
        [done|done|apply land_ffff|done|]. cbn [mbind option_bind].
      replace (Z.of_nat a + 1) with (Z.of_nat (S a)) by lia.
      edestruct (owned_frame_set s) as [-> H2]; [apply H1|done|apply land_ffff|lia|].
      cbn [mbind option_bind]. by eexists.
    - by exists regs. }
  destruct (_ =? NEU_SIM_TAG_SAW).
  { unfold sim_update_saw. rewrite Hv. cbn [mbind option_bind hold_regs with_hold].
    apply Hone, u16_range. }
  destruct (_ =? NEU_SIM_TAG_SQUARE); [apply Hone, u16_range|].
  destruct (_ =? NEU_SIM_TAG_RANDOM); [apply Hone, u16_range|]. by exists regs.
Qed.

Lemma with_hold_id s : with_hold (hold_regs s) s = s.
Proof. by destruct s. Qed.

Lemma generate_ok sin tms s :
  sim_ok s → time_ok tms →
  ∃ regs, generate sin tms s = Some (with_hold regs s) ∧ owned_frame s regs.
Proof.
  intros Hs Ht.
  destruct (foldM_inv (λ s', ∃ regs, s' = with_hold regs s ∧ owned_frame s regs)
    (generate_at sin tms) s (seqZ 0 SIM_MAX_REGS)) as (s' & Hg & regs & -> & Hf).
  - intros s' x Hx%elem_of_seqZ0 (regs & -> & Hf). unfold SIM_MAX_REGS in Hx.
    destruct (generate_at_ok sin tms s regs (Z.to_nat x)) as (regs' & Hg & Hf'); [done..|lia|].
    rewrite Z2Nat.id in Hg by lia. rewrite Hg. eexists. split; [done|]. by exists regs'.
  - exists (hold_regs s). rewrite with_hold_id. split; [done|]. split; [apply Hs|]. split; [apply Hs|done].
  - by exists regs.
Qed.

Lemma owned_frame_ok s regs : sim_ok s → owned_frame s regs → sim_ok (with_hold regs s).
Proof. intros Hs (Hl & Hw & _). destruct Hs. by constructor. Qed.

(** ** Configuring tags *)

Definition sim_tag_ok (t : sim_tag) : Prop := 0 <= st_index t < 1000.

Lemma reset_ok s : sim_ok (sim_reset_regs_unlocked s).
Proof.
  constructor; cbn [sim_reset_regs_unlocked coil_bits input_bits hold_regs input_regs readonly_mask
    sim_tag_type sim_tag_name sim_tag_addr]; rewrite ?length_replicate; try done.
  - apply Forall_replicate. by left.
  - by apply Forall_replicate.
  - by apply Forall_replicate.
  - intros a t [-> _]%lookup_replicate Hne. done.
Qed.

(** Marking registers of a tag. *)
Lemma mark_ok s mask ty a t :
  sim_ok s → (a < 1000)%nat → 1 <= t <= 4 →
  (∀ b, readonly_mask s !! b = Some true → mask !! b = Some true) →
  Z.of_nat (length mask) = 1000 → mask !! a = Some true →
  (t = NEU_SIM_TAG_SINE → mask !! S a = Some true) → ty = <[a := t]> (sim_tag_type s) →
  sim_ok (with_tables mask ty (sim_tag_name s) (sim_tag_addr s) (sim_tag_count s + 1) s).
Proof.
  intros Hs Ha Ht Hmono Hl Hm Hsine ->. destruct Hs. constructor; simpl; try done.
  - by rewrite length_insert.
  - intros b u. destruct (decide (a = b)) as [<-|Hne].
    + rewrite list_lookup_insert_eq by lia. intros [= <-] _. done.
    + rewrite list_lookup_insert_ne by done. intros Hb Hu.
      destruct (so_owned0 b u Hb Hu) as (? & ? & ?). split; [done|]. split; auto.
Qed.

Lemma set_true_mono (mask : list bool) a b :
  mask !! b = Some true → <[a := true]> mask !! b = Some true.
Proof.
  intros Hb. destruct (decide (a = b)) as [->|]; [|by rewrite list_lookup_insert_ne].
  rewrite list_lookup_insert_eq; [done|]. by eapply lookup_lt_Some.
Qed.

Lemma mark_tag_ok i t s :
  sim_ok s → 0 <= i → ∃ s', sim_mark_tag_unlocked i t s = Some s' ∧ sim_ok s'.
Proof.
  intros Hs Hi. unfold sim_mark_tag_unlocked, SIM_MAX_REGS.
  pose proof (so_mask s Hs) as Hml. pose proof (so_types s Hs) as Htl.
  destruct (Z.geb_spec i 1000); [by exists s|]. destruct (Z.eqb_spec t NEU_SIM_TAG_SINE) as [->|Hns].
  - destruct (Z.ltb_spec (i + 1) 1000); [|by exists s].
    rewrite (array_set_some i true) by lia. cbn [mbind option_bind].
    rewrite (array_set_some (i + 1)) by (rewrite length_insert; lia). cbn [mbind option_bind].
    rewrite array_set_some by lia. cbn [mbind option_bind]. eexists. split; [done|].
    replace (Z.to_nat (i + 1)) with (S (Z.to_nat i)) by lia.
    apply (mark_ok s _ _ (Z.to_nat i) NEU_SIM_TAG_SINE); [done|lia|done| | | | |done].
    + intros b Hb. by apply set_true_mono, set_true_mono.
    + by rewrite !length_insert.
    + apply set_true_mono. by rewrite list_lookup_insert_eq by lia.
    + intros _. by rewrite list_lookup_insert_eq by (rewrite length_insert; lia).
  - destruct ((t =? _) || _ || _) eqn:Hty; [|by exists s].
    rewrite (array_set_some i true) by lia. cbn [mbind option_bind].
    rewrite array_set_some by lia. cbn [mbind option_bind]. eexists. split; [done|].
    apply (mark_ok s _ _ (Z.to_nat i) t); [done|lia| | | | | |done].
    + unfold NEU_SIM_TAG_SAW, NEU_SIM_TAG_SQUARE, NEU_SIM_TAG_RANDOM in Hty. lia.
    + intros b Hb. by apply set_true_mono.
    + by rewrite length_insert.
    + by rewrite list_lookup_insert_eq by lia.
    + done.
Qed.

Lemma config_tag_ok s t : sim_ok s → sim_tag_ok t → ∃ s', config_tag s t = Some s' ∧ sim_ok s'.
Proof.
  intros Hs Ht. unfold config_tag, sim_tag_ok in *.
  destruct (mark_tag_ok (st_index t) (st_type t) s) as (s1 & -> & H1); [done|lia|].
  cbn [mbind option_bind].
  assert (∀ (o : option string) l, Z.of_nat (length l) = 1000 →
    ∃ l', match o with Some n => array_set (st_index t) (Some n) l | None => Some l end = Some l' ∧
      Z.of_nat (length l') = 1000) as Hset.
  { intros [n|] l Hl; [|by exists l]. rewrite array_set_some by lia. eexists. split; [done|].
    by rewrite length_insert. }
  destruct (Hset (st_name t) (sim_tag_name s1)) as (names & -> & Hn); [by apply so_names|].
  destruct (Hset (st_addr t) (sim_tag_addr s1)) as (addrs & -> & Ha); [by apply so_addrs|].
  cbn [mbind option_bind]. eexists. split; [done|]. destruct H1. by constructor.
Qed.

Lemma config_tags_ok tags s :
  Forall sim_tag_ok tags → ∃ s', config_tags tags s = Some s' ∧ sim_ok s'.
Proof.
  intros Ht. apply foldM_inv; [|apply reset_ok]. intros s' t Hin Hs'.
  apply config_tag_ok; [done|]. by eapply Forall_forall in Ht.
Qed.

(** ** Histories *)

Abbreviation sim_state := (sim_ctx_t * gmap Z cycle_buf)%type (only parsing).

(** What happens to the simulator: a client is accepted, sends, hangs up, the
    generator makes a round, the tags are configured. *)
Inductive sim_event :=
  | SimAccept (fd : Z)
  | SimRead (fd r : Z) (data : list Z)
  | SimHangup (fd : Z)
  | SimGenerate (tms : Z)
  | SimConfig (tags : list sim_tag).

Section history.
Context (sin : spec_float → spec_float).

Definition sim_handle (st : sim_state) (e : sim_event) : option sim_state :=
  let '(s, cs) := st in
  match e with
  | SimAccept fd => Some (s, <[fd := cycle_buf_zero]> cs)
  | SimRead fd r data =>
      cb ← cs !! fd;
      '(eff, cb, s) ← client_read s cb r data;
      Some (s, match eff with Closed => delete fd cs | _ => <[fd := cb]> cs end)
  | SimHangup fd => Some (s, delete fd cs)
  | SimGenerate tms => s ← generate sin tms s; Some (s, cs)
  | SimConfig tags => s ← config_tags tags s; Some (s, cs)
  end.

(** What the environment can do: a client that is connected sends bytes for which
    there is room; the tags of a configuration are in range, as both callers of
    [neu_modbus_simulator_config_tags] check. *)
Definition can_happen (st : sim_state) (e : sim_event) : Prop :=
  match e with
  | SimRead fd r data =>
      ∃ cb, st.2 !! fd = Some cb ∧ received (CYCLE_BUF_SIZE - cb_len cb) r data
  | SimGenerate tms => time_ok tms
  | SimConfig tags => Forall sim_tag_ok tags
  | SimAccept _ | SimHangup _ => True
  end.

Inductive sim_reached : sim_state → Prop :=
  | sim_reached_init s : sim_reached (sim_reset_regs_unlocked s, ∅)
  | sim_reached_step st e st' :
      sim_reached st → can_happen st e → sim_handle st e = Some st' → sim_reached st'.

Definition sim_state_ok (st : sim_state) : Prop :=
  sim_ok st.1 ∧ map_Forall (λ _ cb, client_ok cb) st.2.

(** Who may change what. *)
Definition sim_frame (e : sim_event) (s s' : sim_ctx_t) : Prop :=
  match e with
  | SimAccept _ | SimHangup _ => s' = s
  | SimRead _ _ _ => client_frame s s'
  | SimGenerate _ => ∃ regs, s' = with_hold regs s ∧ owned_frame s regs
  | SimConfig _ => True
  end.

Lemma cycle_buf_zero_ok : client_ok cycle_buf_zero.
Proof.
  split; [|by vm_compute]. split.
  - cbn [cb_buf cycle_buf_zero]. rewrite length_replicate. unfold CYCLE_BUF_SIZE. lia.
  - by apply bytes_ok_replicate.
Qed.

Lemma sim_handle_ok st e :
  sim_state_ok st → can_happen st e →
  ∃ st', sim_handle st e = Some st' ∧ sim_state_ok st' ∧ sim_frame e st.1 st'.1.
Proof.
  destruct st as [s cs]. intros [Hs Hcs] He. cbn [fst snd] in *.
  destruct e as [fd|fd r data|fd|tms|tags]; cbn [sim_handle can_happen sim_frame fst snd] in *.
  - eexists. split; [done|]. split; [|done]. split; [done|].
    apply map_Forall_insert_2; [apply cycle_buf_zero_ok|done].
  - destruct He as (cb & Hcb & Hrd). rewrite Hcb. cbn [mbind option_bind].
    destruct (client_read_total s cb r data) as (eff & cb' & s' & -> & Hcb' & Hf & _);
      [done|by apply (Hcs fd)|done|]. cbn [mbind option_bind].
    eexists. split; [done|]. split; [|done]. split; [apply Hf|]. cbn [snd].
    destruct eff; try (by apply map_Forall_insert_2). by apply map_Forall_delete.
  - eexists. split; [done|]. split; [|done]. split; [done|]. by apply map_Forall_delete.
  - destruct (generate_ok sin tms s) as (regs & -> & Hf); [done..|]. cbn [mbind option_bind].
    eexists. split; [done|]. split; [|by exists regs]. split; [by apply owned_frame_ok|done].
  - destruct (config_tags_ok tags s) as (s' & -> & Hs'); [done|]. cbn [mbind option_bind].
    eexists. split; [done|]. done.
Qed.

Lemma sim_reached_ok st : sim_reached st → sim_state_ok st.
Proof.
  induction 1 as [s|st e st' _ IH He Hst']; [split; [apply reset_ok|apply map_Forall_empty]|].
  destruct (sim_handle_ok st e IH He) as (st2 & Heq & Hok & _). congruence.
Qed.

(** C15: The simulator withstands every client.  In every state that clients, the
    generator and configurations of tags can bring about, whatever bytes come next,
    in whatever portions: the event is handled without an access outside of an
    array, register files and buffers keep their sizes and their contents their
    widths.  Clients change no register that a tag owns, no input and no tag, and
    the generator changes no register that clients may write. *)
Theorem simulator_withstands_clients st e :
  sim_reached st → can_happen st e →
  ∃ st', sim_handle st e = Some st' ∧ sim_state_ok st' ∧ sim_frame e st.1 st'.1.
Proof. intros Hst He. apply sim_handle_ok; [by apply sim_reached_ok|done]. Qed.
End history.

(** ** What goes wrong *)

(** An index that is not checked by the caller: the mark is refused, the name is
    written behind the end of the array. *)
Lemma config_tag_out_of_range s t n :
  sim_ok s → 1000 <= st_index t → st_name t = Some n → config_tag s t = None.
Proof.
  intros Hs Ht Hn. unfold config_tag, sim_mark_tag_unlocked, SIM_MAX_REGS.
  destruct (Z.geb_spec (st_index t) 1000); [|lia]. cbn [mbind option_bind]. rewrite Hn.
  unfold array_set. pose proof (so_names s Hs).
  rewrite (proj2 (Z.ltb_ge (st_index t) (Z.of_nat (length (sim_tag_name s))))) by lia.
  by rewrite andb_false_r.
Qed.

(** ** A concrete simulator *)

Definition sim_zero : sim_ctx_t := {|
  running := false; sim_ip := SIM_DEFAULT_IP; sim_port := SIM_DEFAULT_PORT; coil_bits := [];
  input_bits := []; hold_regs := []; input_regs := []; readonly_mask := []; sim_tag_type := [];
  sim_tag_name := []; sim_tag_addr := []; sim_tag_count := 0; last_error_code := 0 |}.

(** A saw in register 8. *)
Definition demo_tags : list sim_tag :=
  [{| st_name := Some "saw"%string; st_addr := Some "1!400009"%string; st_index := 8;
      st_type := NEU_SIM_TAG_SAW |}].
Definition demo_sim : sim_ctx_t := default sim_zero (config_tags demo_tags sim_zero).

Lemma demo_sim_config : config_tags demo_tags sim_zero = Some demo_sim.
Proof. vm_compute. reflexivity. Qed.

Lemma demo_tags_ok : Forall sim_tag_ok demo_tags.
Proof. repeat constructor; vm_compute; congruence. Qed.

Lemma demo_sim_ok : sim_ok demo_sim.
Proof.
  destruct (config_tags_ok demo_tags sim_zero demo_tags_ok) as (s' & Hs' & Hok).
  rewrite demo_sim_config in Hs'. congruence.
Qed.

(** A client that sends half a header and then another seven bytes. *)
Lemma simulator_withstands_clients_witness :
  ∃ st', sim_handle id (sim_reset_regs_unlocked sim_zero, {[ 7 := cycle_buf_zero ]})
      (SimRead 7 3 [1; 2; 3]) = Some st' ∧ sim_state_ok st' ∧
    sim_frame (SimRead 7 3 [1; 2; 3]) (sim_reset_regs_unlocked sim_zero) st'.1.
Proof.
  apply (simulator_withstands_clients id (sim_reset_regs_unlocked sim_zero, {[ 7 := cycle_buf_zero ]})
    (SimRead 7 3 [1; 2; 3])).
  - eapply (sim_reached_step id _ (SimAccept 7)); [apply sim_reached_init|done|reflexivity].
  - exists cycle_buf_zero. split; [apply lookup_singleton_eq|]. split; [repeat constructor; lia|].
    right. split; [vm_compute; split; congruence|done].
Defined.
