(* ===== verification/SimulatorServe.v ===== *)
(** * What the simulator answers

    A Modbus server on decoded requests ([serve]), the encoding of requests
    ([encode_request]), and the proof that the byte-level code of the simulator
    implements the server: on every complete request of the protocol it sends the
    server's answer in one frame, changes its registers as the server does and
    uses up exactly the request. *)

From S2P Require Import Prelude NeuTypes ProtocolBuf Modbus ModbusPoint ModbusStack ModbusValue Simulator SimulatorOk.

(** ** The server *)

Inductive modbus_request :=
  | ReadHolding (start n : Z)
  | ReadInputRegs (start n : Z)
  | ReadCoils (start n : Z)
  | ReadInputs (start n : Z)
  | WriteHolding (start v : Z)
  | WriteHoldings (start : Z) (vs : list Z)
  | WriteCoil (start : Z) (on : bool)
  | WriteCoils (start : Z) (bs : list bool)
  | OtherFunction (f : Z) (body : list Z).

(** Bits in bytes, the first one lowest. *)
Definition bits_value (bs : list bool) : Z := foldr (λ b acc, Z.b2z b + 2 * acc) 0 bs.
Definition bit_bytes (n : nat) : nat := ((n + 7) / 8)%nat.
Definition pack_bits (bs : list bool) : list Z :=
  (λ k, bits_value (take 8 (drop (8 * k) bs))) <$> seq 0 (bit_bytes (length bs)).

(** The protocol data unit of a request, from the function code on. *)
Definition encode_request (r : modbus_request) : list Z :=
  match r with
  | ReadHolding start n => [MODBUS_READ_HOLD_REG] ++ be_store 2 start ++ be_store 2 n
  | ReadInputRegs start n => [MODBUS_READ_INPUT_REG] ++ be_store 2 start ++ be_store 2 n
  | ReadCoils start n => [MODBUS_READ_COIL] ++ be_store 2 start ++ be_store 2 n
  | ReadInputs start n => [MODBUS_READ_INPUT] ++ be_store 2 start ++ be_store 2 n
  | WriteHolding start v => [MODBUS_WRITE_S_HOLD_REG] ++ be_store 2 start ++ be_store 2 v
  | WriteHoldings start vs =>
      [MODBUS_WRITE_M_HOLD_REG] ++ be_store 2 start ++ be_store 2 (Z.of_nat (length vs)) ++
      [u8 (2 * Z.of_nat (length vs))] ++ concat (be_store 2 <$> vs)
  | WriteCoil start on =>
      [MODBUS_WRITE_S_COIL] ++ be_store 2 start ++ be_store 2 (if on then 0xFF00 else 0)
  | WriteCoils start bs =>
      [MODBUS_WRITE_M_COIL] ++ be_store 2 start ++ be_store 2 (Z.of_nat (length bs)) ++
      [u8 (Z.of_nat (bit_bytes (length bs)))] ++ pack_bits bs
  | OtherFunction f body => f :: body
  end.

(** A part of a register file. *)
Definition slice {A} (start n : Z) (l : list A) : list A :=
  take (Z.to_nat n) (drop (Z.to_nat start) l).

(** [n] registers from [start] exist. *)
Definition in_range (start n : Z) : bool := negb (n =? 0) && (start + n <=? 1000).

Definition exception (f code : Z) : list Z := [Z.lor f 0x80; code].

Definition serve_regs (f start n : Z) (regs : list Z) : list Z :=
  if in_range start n
  then [f; u8 (2 * n)] ++ concat (be_store 2 <$> slice start n regs)
  else exception f 0x02.

Definition serve_bits (f start n : Z) (bits : list Z) : list Z :=
  if in_range start n
  then let bs := (λ b, negb (b =? 0)) <$> slice start n bits in
       [f; u8 (Z.of_nat (bit_bytes (length bs)))] ++ pack_bits bs
  else exception f 0x02.

Definition serve_write (s : sim_ctx_t) (f start n : Z) (echo : list Z) (regs : list Z)
    : list Z * sim_ctx_t :=
  if negb (in_range start n) then (exception f 0x02, s)
  else if existsb id (slice start n (readonly_mask s)) then (exception f 0x03, s)
  else ([f] ++ be_store 2 start ++ echo, with_hold regs s).

(** The answer, from the function code on, and the registers afterwards. *)
Definition serve (s : sim_ctx_t) (r : modbus_request) : list Z * sim_ctx_t :=
  match r with
  | ReadHolding start n => (serve_regs MODBUS_READ_HOLD_REG start n (hold_regs s), s)
  | ReadInputRegs start n => (serve_regs MODBUS_READ_INPUT_REG start n (input_regs s), s)
  | ReadCoils start n => (serve_bits MODBUS_READ_COIL start n (coil_bits s), s)
  | ReadInputs start n => (serve_bits MODBUS_READ_INPUT start n (input_bits s), s)
  | WriteHolding start v =>
      serve_write s MODBUS_WRITE_S_HOLD_REG start 1 (be_store 2 v)
        (<[Z.to_nat start := v]> (hold_regs s))
  | WriteHoldings start vs =>
      serve_write s MODBUS_WRITE_M_HOLD_REG start (Z.of_nat (length vs))
        (be_store 2 (Z.of_nat (length vs))) (list_inserts (Z.to_nat start) vs (hold_regs s))
  | WriteCoil start on =>
      if in_range start 1
      then ([MODBUS_WRITE_S_COIL] ++ be_store 2 start ++ be_store 2 (if on then 0xFF00 else 0),
            with_coils (<[Z.to_nat start := Z.b2z on]> (coil_bits s)) s)
      else (exception MODBUS_WRITE_S_COIL 0x02, s)
  | WriteCoils start bs =>
      if in_range start (Z.of_nat (length bs))
      then ([MODBUS_WRITE_M_COIL] ++ be_store 2 start ++ be_store 2 (Z.of_nat (length bs)),
            with_coils (list_inserts (Z.to_nat start) (Z.b2z <$> bs) (coil_bits s)) s)
      else (exception MODBUS_WRITE_M_COIL 0x02, s)
  | OtherFunction f body => (exception f 0x01, s)
  end.

(** The functions that the simulator knows. *)
Definition known_functions : list Z :=
  [MODBUS_READ_HOLD_REG; MODBUS_READ_INPUT_REG; MODBUS_READ_COIL; MODBUS_READ_INPUT;
   MODBUS_WRITE_S_HOLD_REG; MODBUS_WRITE_M_HOLD_REG; MODBUS_WRITE_S_COIL; MODBUS_WRITE_M_COIL].

(** A request of the protocol: fields of 16 bits, bytes, a size that fits. *)
Definition request_wf (r : modbus_request) : Prop :=
  match r with
  | ReadHolding start n | ReadInputRegs start n | ReadCoils start n | ReadInputs start n =>
      is_u16 start ∧ is_u16 n
  | WriteHolding start v => is_u16 start ∧ is_u16 v
  | WriteHoldings start vs => is_u16 start ∧ Forall (λ v, is_u16 v) vs ∧ (length vs <= 1000)%nat
  | WriteCoil start _ => is_u16 start
  | WriteCoils start bs => is_u16 start ∧ (length bs <= 2000)%nat
  | OtherFunction f body =>
      is_u8 f ∧ (f ∉ known_functions) ∧ bytes_ok body ∧ (length body <= 4000)%nat
  end.

(** ** The response buffer *)

(** The header and code with [out] behind them, in a buffer of 2048 bytes. *)
Definition response (seq n slave f : Z) (out : list Z) : list Z :=
  be_store 2 seq ++ [0; 0] ++ be_store 2 n ++ [slave; f] ++ out ++ replicate (2040 - length out) 0.

Lemma response_length seq n slave f out :
  (length out <= 2040)%nat → length (response seq n slave f out) = 2048%nat.
Proof. intros Ho. unfold response. rewrite !length_app, !length_be_store, length_replicate. simpl. lia. Qed.

Lemma response_front seq n slave f out :
  response seq n slave f out =
    (be_store 2 seq ++ [0; 0] ++ be_store 2 n ++ [slave; f]) ++ out ++ replicate (2040 - length out) 0.
Proof. unfold response. by rewrite <-!app_assoc. Qed.

Lemma response_store seq n slave f out bs off :
  off = 8 + Z.of_nat (length out) → (length out + length bs <= 2040)%nat →
  store off bs (response seq n slave f out) = Some (response seq n slave f (out ++ bs)).
Proof.
  intros -> Hl. rewrite store_some by (rewrite ?response_length by lia; lia). f_equal.
  rewrite !response_front. unfold mem_write.
  set (front := be_store 2 seq ++ _). assert (Hf : length front = 8%nat) by done.
  replace (Z.to_nat (8 + Z.of_nat (length out))) with (length front + length out)%nat by lia.
  rewrite take_app_add, drop_app_ge by lia.
  rewrite take_app_length. rewrite drop_app_ge by lia. rewrite drop_replicate.
  rewrite length_app, <-!app_assoc. do 3 f_equal. f_equal. lia.
Qed.

Lemma response_set_len seq n slave f out k :
  (length out <= 2040)%nat → set_len k (response seq n slave f out) = Some (response seq k slave f out).
Proof.
  intros Hl. unfold set_len, htons. rewrite le_store_bswap.
  rewrite store_some by (rewrite ?response_length, ?length_be_store by done; lia). done.
Qed.

Lemma response_set_function seq n slave f out g :
  (length out <= 2040)%nat →
  set_function g (response seq n slave f out) = Some (response seq n slave (u8 g) out).
Proof. intros Hl. unfold set_function. by rewrite store_some by (rewrite ?response_length by done; simpl; lia). Qed.

Lemma response_load seq slave f out len :
  (length out <= 2040)%nat → len = 8 + Z.of_nat (length out) →
  load (response seq (2 + Z.of_nat (length out)) slave f out) 0 len =
    Some (frame_of MODBUS_PROTOCOL_TCP seq ([slave; f] ++ out)).
Proof.
  intros Hl ->. rewrite load_some by (rewrite ?response_length by done; lia). f_equal.
  rewrite response_front. unfold mem_read. rewrite drop_0.
  set (front := be_store 2 seq ++ _). assert (Hf : length front = 8%nat) by done.
  replace (Z.to_nat (8 + Z.of_nat (length out))) with (length front + length out)%nat by lia.
  rewrite take_app_add, take_app_length. unfold frame_of, front. rewrite <-!app_assoc. do 3 f_equal.
  f_equal. rewrite length_app. simpl. lia.
Qed.

(** ** Loops and words *)

(** A loop over the indices, by what it has reached after each of them. *)
Lemma foldM_index {A} (F : nat → A) (f : A → Z → option A) a n r :
  a = F 0%nat → r = F (Z.to_nat n) →
  (∀ k, (k < Z.to_nat n)%nat → f (F k) (Z.of_nat k) = Some (F (S k))) →
  foldM f a (seqZ 0 n) = Some r.
Proof.
  intros -> -> Hf. destruct (decide (0 <= n)) as [Hn|Hn].
  2:{ rewrite seqZ_nil by lia. by replace (Z.to_nat n) with 0%nat by lia. }
  rewrite <-(Z2Nat.id n) at 1 by done. clear Hn. induction (Z.to_nat n) as [|k IH]; [done|].
  rewrite seqZ_S, foldM_app, IH by (intros i Hi; apply Hf; lia). cbn [mbind option_bind foldM].
  rewrite Z.add_0_l, Hf by lia. done.
Qed.

Lemma length_words l : length (concat (be_store 2 <$> l)) = (2 * length l)%nat.
Proof.
  induction l as [|v l IH]; [done|]. rewrite fmap_cons. cbn [concat length].
  rewrite length_app, length_be_store, IH. lia.
Qed.

(** ** Bits *)

Lemma bits_value_range l : 0 <= bits_value l < 2 ^ Z.of_nat (length l).
Proof.
  induction l as [|b l IH]; [done|]. cbn [bits_value foldr length]. fold (bits_value l).
  rewrite Nat2Z.inj_succ, Z.pow_succ_r by lia. destruct b; simpl Z.b2z; lia.
Qed.

Lemma bits_value_snoc l b :
  bits_value (l ++ [b]) = bits_value l + Z.b2z b * 2 ^ Z.of_nat (length l).
Proof.
  induction l as [|c l IH]; [destruct b; done|]. cbn [bits_value foldr length app].
  fold (bits_value l) (bits_value (l ++ [b])). rewrite IH, Nat2Z.inj_succ, Z.pow_succ_r by lia. lia.
Qed.

Lemma lor_above a n : 0 <= n → 0 <= a < 2 ^ n → Z.lor a (2 ^ n) = a + 2 ^ n.
Proof.
  intros Hn Ha. rewrite <-Z.add_lor_land.
  assert (Z.land a (2 ^ n) = 0) as ->; [|lia]. apply Z.bits_inj_0. intros m.
  rewrite Z.land_spec. destruct (decide (m < 0)); [by rewrite Z.testbit_neg_r|].
  rewrite Z.pow2_bits_eqb by done. destruct (Z.eqb_spec n m) as [<-|]; [|by rewrite andb_false_r].
  rewrite Z.testbit_eqb, Z.div_small by lia. done.
Qed.

Lemma bits_value_testbit l j : Z.testbit (bits_value l) (Z.of_nat j) = nth j l false.
Proof.
  revert j. induction l as [|b l IH]; intros j; [by destruct j; rewrite Z.bits_0|].
  cbn [bits_value foldr]. fold (bits_value l). rewrite Z.add_comm. destruct j as [|j]; cbn [nth].
  - apply Z.testbit_0_r.
  - rewrite Nat2Z.inj_succ, Z.testbit_succ_r by lia. apply IH.
Qed.

(** The bits of a byte that are among the first [k]. *)
Definition chunk (bs : list bool) (k j : nat) : list bool := take 8 (drop (8 * j) (take k bs)).

Lemma chunk_step bs k b :
  bs !! k = Some b →
  chunk bs (S k) (k / 8) = chunk bs k (k / 8) ++ [b] ∧ length (chunk bs k (k / 8)) = (k mod 8)%nat.
Proof.
  intros Hb. pose proof (lookup_lt_Some _ _ _ Hb) as Hlt. unfold chunk.
  pose proof (Nat.div_mod k 8 ltac:(lia)). pose proof (Nat.mod_upper_bound k 8 ltac:(lia)).
  set (q := (k / 8)%nat) in *. split.
  - rewrite (take_S_r bs k b) by done. rewrite drop_app_le by (rewrite length_take; lia).
    rewrite take_app_ge by (rewrite length_drop, length_take; lia).
    rewrite (take_ge (drop _ (take k bs))) by (rewrite length_drop, length_take; lia). f_equal.
    apply take_ge. rewrite length_drop, length_take. simpl. lia.
  - rewrite length_take, length_drop, length_take. lia.
Qed.

Lemma chunk_other bs k j : j ≠ (k / 8)%nat → chunk bs (S k) j = chunk bs k j.
Proof.
  intros Hj. unfold chunk. pose proof (Nat.div_mod k 8 ltac:(lia)).
  pose proof (Nat.mod_upper_bound k 8 ltac:(lia)). set (q := (k / 8)%nat) in *.
  rewrite !skipn_firstn_comm, !take_take. f_equal. lia.
Qed.

Lemma chunk_all bs k j : (length bs <= k)%nat → chunk bs k j = take 8 (drop (8 * j) bs).
Proof. intros Hk. unfold chunk. by rewrite (take_ge bs). Qed.

Lemma pack_bits_length bs : length (pack_bits bs) = bit_bytes (length bs).
Proof. unfold pack_bits. by rewrite length_fmap, length_seq. Qed.

Lemma pack_bits_ok bs : bytes_ok (pack_bits bs).
Proof.
  apply Forall_fmap, Forall_forall. intros k _. unfold compose.
  pose proof (bits_value_range (take 8 (drop (8 * k) bs))) as Hr.
  assert (2 ^ Z.of_nat (length (take 8 (drop (8 * k) bs))) <= 2 ^ 8).
  { apply Z.pow_le_mono_r; [lia|]. rewrite length_take. lia. }
  change (2 ^ 8) with 256 in *. lia.
Qed.

(** The bit [i] of what is packed. *)
Lemma pack_bits_testbit bs i :
  (i < length bs)%nat →
  ∃ b, pack_bits bs !! (i / 8)%nat = Some b ∧ is_u8 b ∧
    Z.testbit b (Z.of_nat (i mod 8)) = nth i bs false.
Proof.
  intros Hi. unfold pack_bits, bit_bytes.
  pose proof (Nat.div_mod i 8 ltac:(lia)). pose proof (Nat.mod_upper_bound i 8 ltac:(lia)).
  assert (i / 8 < (length bs + 7) / 8)%nat by (apply Nat.div_le_lower_bound; lia).
  exists (bits_value (take 8 (drop (8 * (i / 8)) bs))).
  assert (Hlk : pack_bits bs !! (i / 8)%nat = Some (bits_value (take 8 (drop (8 * (i / 8)) bs)))).
  { unfold pack_bits. by rewrite list_lookup_fmap, lookup_seq_lt by (unfold bit_bytes; lia). }
  split; [exact Hlk|]. split.
  - pose proof (pack_bits_ok bs) as Hok. by eapply Forall_lookup_1 in Hok.
  - rewrite bits_value_testbit, !nth_lookup, lookup_take_lt, lookup_drop by lia.
    by rewrite (Nat.mul_comm 8), Nat.mul_comm, <-Nat.div_mod by lia.
Qed.

(** ** The request buffer *)

(** A complete request at the front of the buffer of the client. *)
Definition request_at (seq slave : Z) (pdu rest req : list Z) : Prop :=
  req = frame_of MODBUS_PROTOCOL_TCP seq (slave :: pdu) ++ rest ∧ buffer CYCLE_BUF_SIZE req.

Section serving.
Context (s : sim_ctx_t) (Hs : sim_ok s) (seq slave : Z) (req : list Z).
Abbreviation resp := (response seq 2 slave).

(** The address fields. *)
Lemma request_fields f a b data rest :
  request_at seq slave ([f] ++ be_store 2 a ++ be_store 2 b ++ data) rest req →
  field16 req 8 = Some (u16 a) ∧ field16 req (8 + 2) = Some (u16 b) ∧
  load req (8 + 2) 2 = Some (be_store 2 b) ∧ load req 8 sizeof_address = Some (be_store 2 a ++ be_store 2 b).
Proof.
  intros [Hreq [Hl _]]. unfold field16, sizeof_address, CYCLE_BUF_SIZE in *.
  rewrite !load_some by lia. cbn [mbind option_bind].
  assert (mem_read (Z.to_nat 8) (Z.to_nat 2) req = be_store 2 a) as -> by (by rewrite Hreq).
  assert (mem_read (Z.to_nat (8 + 2)) (Z.to_nat 2) req = be_store 2 b) as -> by (by rewrite Hreq).
  assert (mem_read (Z.to_nat 8) (Z.to_nat 4) req = be_store 2 a ++ be_store 2 b) as -> by (by rewrite Hreq).
  by rewrite !ntohs_be.
Qed.

(** A request of two fields. *)
Lemma two_fields f a b rest :
  request_at seq slave ([f] ++ be_store 2 a ++ be_store 2 b) rest req → is_u16 a → is_u16 b →
  field16 req 8 = Some a ∧ field16 req (8 + 2) = Some b.
Proof.
  intros Hreq Ha Hb. rewrite <-(app_nil_r (be_store 2 b)) in Hreq.
  destruct (request_fields _ _ _ _ _ Hreq) as (H1 & H2 & _). by rewrite H1, H2, !u16_id.
Qed.

(** The bytes behind the byte count. *)
Lemma request_data f a b c data rest i k :
  request_at seq slave ([f] ++ be_store 2 a ++ be_store 2 b ++ [c] ++ data) rest req →
  0 <= i → 0 <= k → i + k <= Z.of_nat (length data) →
  load req (8 + sizeof_address + sizeof_data + i) k = Some (mem_read (Z.to_nat i) (Z.to_nat k) data).
Proof.
  intros [Hreq [Hl _]] Hi Hk Hn. unfold sizeof_address, sizeof_data in *.
  assert (Hreq' : req = (be_store 2 seq ++ [0; 0] ++ be_store 2 (Z.of_nat (length (slave :: [f] ++
    be_store 2 a ++ be_store 2 b ++ [c] ++ data))) ++ [slave; f] ++ be_store 2 a ++ be_store 2 b ++ [c])
    ++ data ++ rest) by (rewrite Hreq; unfold frame_of; by rewrite <-!app_assoc).
  set (front := be_store 2 seq ++ _) in Hreq'. assert (Hf : length front = 13%nat) by done.
  assert (Hlr : length req = (13 + length data + length rest)%nat) by (rewrite Hreq', !length_app, Hf; lia).
  rewrite load_some by lia. f_equal. rewrite Hreq'. unfold mem_read.
  replace (Z.to_nat (8 + 4 + 1 + i)) with (length front + Z.to_nat i)%nat by lia.
  rewrite drop_app_add, drop_app_le, take_app_le by (rewrite ?length_drop; lia). done.
Qed.

(** ** The operations on the response buffer *)

Lemma refuse_spec f g code :
  is_u8 g → refuse g code (resp f []) 2048 8 = Some (0, response seq 3 slave g [code], 9).
Proof.
  intros Hg. unfold refuse, sizeof_code. rewrite response_set_function by (simpl; lia).
  cbn [mbind option_bind]. change (8 + 1 >? 2048) with false. cbv iota.
  rewrite (response_store _ _ _ _ [] [code] 8) by (simpl; lia). cbn [mbind option_bind].
  rewrite response_set_len by (simpl; lia). cbn [mbind option_bind]. by rewrite u8_id.
Qed.

Lemma acknowledge_spec f a b data rest :
  request_at seq slave ([f] ++ be_store 2 a ++ be_store 2 b ++ data) rest req →
  acknowledge req 8 (resp f []) 2048 8 =
    Some (0, response seq 6 slave f (be_store 2 a ++ be_store 2 b), 12).
Proof.
  intros Hreq. destruct (request_fields f a b data rest Hreq) as (_ & _ & _ & H4).
  unfold acknowledge. rewrite H4. change (8 + sizeof_address >? 2048) with false. cbn [mbind option_bind].
  rewrite response_store by (rewrite ?length_app, ?length_be_store; simpl; lia).
  cbn [mbind option_bind]. by rewrite response_set_len by (simpl; lia).
Qed.

(** The loop that copies registers. *)
Lemma copy_loop (body : list Z → Z → option (list Z)) f c (regs : list Z) start n :
  (∀ res i v out, array_get regs (start + i) = Some v → v ∈ regs → res = resp f out →
    8 + Z.of_nat (length out) = 8 + 1 + i * 2 → (length out <= 2038)%nat →
    body res i = Some (resp f (out ++ be_store 2 v))) →
  0 <= start → 0 <= n → start + n <= Z.of_nat (length regs) → n <= 1000 →
  foldM body (resp f [c]) (seqZ 0 n) = Some (resp f ([c] ++ concat (be_store 2 <$> slice start n regs))).
Proof.
  intros Hbody Hst Hn Hle H1000. unfold slice.
  pose (F := λ k : nat, resp f ([c] ++ concat (be_store 2 <$> take k (drop (Z.to_nat start) regs)))).
  apply (foldM_index F); [done|done|]. intros k Hk.
  destruct (array_get_some regs (start + Z.of_nat k)) as (v & Hget & Hv); [lia|].
  assert (Hlen : length (concat (be_store 2 <$> take k (drop (Z.to_nat start) regs))) = (2 * k)%nat).
  { rewrite length_words, length_take, length_drop. lia. }
  unfold F. erewrite Hbody; [|done|by eapply list_elem_of_lookup_2|done
    |rewrite length_app, Hlen; simpl; lia|rewrite length_app, Hlen; simpl; lia].
  do 2 f_equal. rewrite <-app_assoc. f_equal.
  rewrite (take_S_r _ _ v), fmap_app, concat_app by (rewrite lookup_drop, <-Hv; f_equal; lia).
  cbn [fmap list_fmap concat]. by rewrite app_nil_r.
Qed.

Lemma copy_regs f c (regs : list Z) start n :
  0 <= start → 0 <= n → start + n <= Z.of_nat (length regs) → n <= 1000 →
  foldM (λ res i, v ← array_get regs (start + i); store (8 + 1 + i * 2) (le_store 2 (htons v)) res)
    (resp f [c]) (seqZ 0 n) = Some (resp f ([c] ++ concat (be_store 2 <$> slice start n regs))).
Proof.
  intros. apply copy_loop; try done. intros res i v out Hget _ -> Ho Hl. rewrite Hget.
  cbn [mbind option_bind]. unfold htons. rewrite le_store_bswap.
  by rewrite response_store by (rewrite ?length_be_store; lia).
Qed.

Lemma word_bytes v : is_u16 v → [u8 (Z.shiftr v 8); Z.land v 0xFF] = be_store 2 v.
Proof.
  intros Hv. rewrite be_store_2, Z.shiftr_div_pow2 by lia. change 0xFF with (Z.ones 8).
  by rewrite Z.land_ones by lia.
Qed.

(** The same, byte by byte. *)
Lemma copy_regs_bytes f c (regs : list Z) start n :
  Forall (λ v, is_u16 v) regs →
  0 <= start → 0 <= n → start + n <= Z.of_nat (length regs) → n <= 1000 →
  foldM (λ res i, v ← array_get regs (start + i);
                  res ← store (8 + 1 + i * 2) [u8 (Z.shiftr v 8)] res;
                  store (8 + 1 + i * 2 + 1) [Z.land v 0xFF] res)
    (resp f [c]) (seqZ 0 n) = Some (resp f ([c] ++ concat (be_store 2 <$> slice start n regs))).
Proof.
  intros Hw. intros. apply copy_loop; try done. intros res i v out Hget Hin -> Ho Hl. rewrite Hget.
  cbn [mbind option_bind]. rewrite response_store by (simpl; lia). cbn [mbind option_bind].
  rewrite response_store by (rewrite ?length_app; simpl; lia).
  rewrite <-app_assoc. cbn [app]. rewrite word_bytes; [done|]. by eapply Forall_forall in Hw.
Qed.

(** The response buffer holds the answer [ans]. *)
Definition holds_answer (ans : list Z) (r : Z * list Z * Z) : Prop :=
  ∃ g out, ans = g :: out ∧ (length out <= 2040)%nat ∧
    r = (0, response seq (2 + Z.of_nat (length out)) slave g out, 8 + Z.of_nat (length out)).

Lemma refuse_holds f g e code :
  e = Z.lor g 0x80 → is_u8 e →
  ∃ r, refuse e code (resp f []) 2048 8 = Some r ∧ holds_answer (exception g code) r.
Proof.
  intros -> Hg. rewrite refuse_spec by done. eexists. split; [done|]. exists (Z.lor g 0x80), [code].
  split; [done|]. split; [simpl; lia|done].
Qed.

Lemma in_range_spec start n :
  0 <= start → 0 <= n → in_range start n = negb ((n =? 0) || (start + n >? 1000)).
Proof. intros ? ?. unfold in_range. rewrite negb_orb. f_equal. lia. Qed.

(** Both reads of registers. *)
Lemma finish_regs f c n regs start :
  0 <= start → 0 <= n → start + n <= 1000 → Z.of_nat (length regs) = 1000 →
  let out := [c] ++ concat (be_store 2 <$> slice start n regs) in
  ∃ r, (res ← set_len (sizeof_code + 1 + 2 * n) (resp f out); Some (0, res, 8 + 1 + 2 * n)) = Some r ∧
    holds_answer (f :: out) r.
Proof.
  intros Hst Hn Hle Hl out.
  assert (Hout : Z.of_nat (length out) = 1 + 2 * n).
  { unfold out. rewrite length_app, length_words. unfold slice. rewrite length_take, length_drop. simpl. lia. }
  replace (sizeof_code + 1 + 2 * n) with (2 + Z.of_nat (length out)) by (unfold sizeof_code; lia).
  replace (8 + 1 + 2 * n) with (8 + Z.of_nat (length out)) by lia.
  rewrite response_set_len by lia. cbn [mbind option_bind]. eexists. split; [done|].
  exists f, out. split; [done|]. split; [lia|done].
Qed.

Lemma read_holding_serves start n pdu_len rest :
  request_at seq slave (encode_request (ReadHolding start n)) rest req →
  is_u16 start → is_u16 n → 4 <= pdu_len →
  ∃ r, pdu_read_holding s req 8 pdu_len (resp MODBUS_READ_HOLD_REG []) 2048 8 = Some r ∧
    holds_answer (serve_regs MODBUS_READ_HOLD_REG start n (hold_regs s)) r.
Proof.
  intros Hreq Hst Hn Hp. destruct (two_fields _ _ _ _ Hreq) as [H1 H2]; [done..|].
  unfold pdu_read_holding, sizeof_address, SIM_MAX_REGS. destruct (Z.ltb_spec pdu_len 4); [lia|].
  rewrite H1, H2. cbn [mbind option_bind]. unfold serve_regs.
  rewrite in_range_spec by lia. destruct (_ || _) eqn:Hr; cbn [negb]; [by apply refuse_holds; vm_compute|].
  apply orb_false_iff in Hr as [Hz Hr]. rewrite Z.eqb_neq in Hz. rewrite Z.gtb_ltb, Z.ltb_ge in Hr.
  destruct (Z.gtb_spec (8 + 1 + 2 * n) 2048); [lia|].
  rewrite (response_store _ _ _ _ [] [_]) by (simpl; lia). cbn [mbind option_bind app].
  rewrite copy_regs by (rewrite ?so_hold by done; lia). cbn [mbind option_bind].
  rewrite (Z.mul_comm n 2). apply finish_regs; [lia..|by apply so_hold].
Qed.

Lemma read_input_regs_serves start n pdu_len rest :
  request_at seq slave (encode_request (ReadInputRegs start n)) rest req →
  is_u16 start → is_u16 n → 4 <= pdu_len →
  ∃ r, pdu_read_input_regs s req 8 pdu_len (resp MODBUS_READ_INPUT_REG []) 2048 8 = Some r ∧
    holds_answer (serve_regs MODBUS_READ_INPUT_REG start n (input_regs s)) r.
Proof.
  intros Hreq Hst Hn Hp. destruct (two_fields _ _ _ _ Hreq) as [H1 H2]; [done..|].
  unfold pdu_read_input_regs, sizeof_address, SIM_MAX_REGS. destruct (Z.ltb_spec pdu_len 4); [lia|].
  rewrite H1, H2. cbn [mbind option_bind]. unfold serve_regs.
  rewrite in_range_spec by lia. destruct (_ || _) eqn:Hr; cbn [negb]; [by apply refuse_holds; vm_compute|].
  apply orb_false_iff in Hr as [Hz Hr]. rewrite Z.eqb_neq in Hz. rewrite Z.gtb_ltb, Z.ltb_ge in Hr.
  destruct (Z.gtb_spec (8 + 1 + 2 * n) 2048); [lia|].
  rewrite (response_store _ _ _ _ [] [_]) by (simpl; lia). cbn [mbind option_bind app].
  rewrite copy_regs_bytes by (apply (so_input_words s Hs) || rewrite ?so_input_regs by done; lia).
  cbn [mbind option_bind].
  rewrite (Z.mul_comm n 2). apply finish_regs; [lia..|by apply so_input_regs].
Qed.

(** ** Bits in the response *)

Lemma response_byte f out i b :
  out !! i = Some b → (length out <= 2040)%nat →
  load (resp f out) (8 + Z.of_nat i) 1 = Some [b] ∧
  ∀ c, store (8 + Z.of_nat i) [c] (resp f out) = Some (resp f (<[i := c]> out)).
Proof.
  intros Hb Hl. pose proof (lookup_lt_Some _ _ _ Hb) as Hi. split.
  - rewrite load_some by (rewrite ?response_length by done; lia). f_equal.
    rewrite response_front. unfold mem_read. set (front := be_store 2 seq ++ _).
    replace (Z.to_nat (8 + Z.of_nat i)) with (length front + i)%nat by (unfold front; simpl; lia).
    rewrite drop_app_add, drop_app_le, take_app_le by (rewrite ?length_drop; simpl; lia).
    by rewrite (drop_S _ b) by done.
  - intros c. rewrite store_some by (rewrite ?response_length by done; simpl; lia). f_equal.
    rewrite !response_front. unfold mem_write. set (front := be_store 2 seq ++ _).
    replace (Z.to_nat (8 + Z.of_nat i)) with (length front + i)%nat by (unfold front; simpl; lia).
    replace (length front + i + length [c])%nat with (length front + S i)%nat by (simpl; lia).
    rewrite take_app_add, drop_app_add, take_app_le, drop_app_le by lia.
    rewrite length_insert, insert_take_drop by done. by rewrite <-!app_assoc.
Qed.

(** The bits from [start] as truth values. *)
Definition bools (bits : list Z) (start n : Z) : list bool :=
  (λ b, negb (b =? 0)) <$> slice start n bits.

Lemma bools_length bits start n :
  0 <= start → 0 <= n → start + n <= Z.of_nat (length bits) → length (bools bits start n) = Z.to_nat n.
Proof. intros ? ? ?. unfold bools, slice. rewrite length_fmap, length_take, length_drop. lia. Qed.

(** The bytes after [k] bits. *)
Definition bytes_after (bs : list bool) (k : nat) : list Z :=
  (λ j, bits_value (chunk bs k j)) <$> List.seq 0 (bit_bytes (length bs)).

Lemma bytes_after_lookup bs k j :
  (j < bit_bytes (length bs))%nat → bytes_after bs k !! j = Some (bits_value (chunk bs k j)).
Proof. intros Hj. unfold bytes_after. by rewrite list_lookup_fmap, lookup_seq_lt. Qed.

Lemma bytes_after_step bs k b :
  bs !! k = Some b →
  bytes_after bs (S k) = <[(k / 8)%nat := bits_value (chunk bs k (k / 8) ++ [b])]> (bytes_after bs k).
Proof.
  intros Hb. destruct (chunk_step bs k b Hb) as [Hc _]. apply list_eq. intros j.
  destruct (decide (j < bit_bytes (length bs))%nat) as [Hj|Hj].
  - rewrite bytes_after_lookup by done. destruct (decide (j = (k / 8)%nat)) as [->|Hne].
    + rewrite list_lookup_insert_eq by (unfold bytes_after; rewrite length_fmap, length_seq; lia).
      by rewrite Hc.
    + rewrite list_lookup_insert_ne, bytes_after_lookup, chunk_other by done. done.
  - rewrite !lookup_ge_None_2; [done| |]; unfold bytes_after;
      rewrite ?length_insert, length_fmap, length_seq; lia.
Qed.

Lemma set_bits f c bits start n :
  0 <= start → 0 <= n → start + n <= Z.of_nat (length bits) → n <= 1000 →
  foldM (set_bit 8 bits start) (resp f ([c] ++ bytes_after (bools bits start n) 0)) (seqZ 0 n) =
    Some (resp f ([c] ++ pack_bits (bools bits start n))).
Proof.
  intros Hst Hn Hle H1000. set (bs := bools bits start n).
  assert (Hbl : length bs = Z.to_nat n) by (by apply bools_length).
  apply (foldM_index (λ k, resp f ([c] ++ bytes_after bs k))); [done| |].
  { assert (pack_bits bs = bytes_after bs (Z.to_nat n)) as ->; [|done].
    apply list_fmap_ext. intros i j _. by rewrite chunk_all by lia. }
  intros k Hk. unfold set_bit.
  destruct (array_get_some bits (start + Z.of_nat k)) as (v & -> & Hv); [lia|]. cbn [mbind option_bind].
  assert (Hb : bs !! k = Some (negb (v =? 0))).
  { unfold bs, bools, slice. rewrite list_lookup_fmap, lookup_take_lt, lookup_drop by lia.
    replace (Z.to_nat start + k)%nat with (Z.to_nat (start + Z.of_nat k)) by lia. by rewrite Hv. }
  rewrite (bytes_after_step bs k _ Hb). destruct (chunk_step bs k _ Hb) as [_ Hcl].
  set (q := (k / 8)%nat) in *. set (l := chunk bs k q) in *.
  assert (Hq : (q < bit_bytes (length bs))%nat).
  { unfold q, bit_bytes. pose proof (Nat.div_mod k 8 ltac:(lia)).
    apply Nat.div_le_lower_bound; lia. }
  assert (Hlk : ([c] ++ bytes_after bs k) !! S q = Some (bits_value l))
    by (by apply bytes_after_lookup).
  assert (Hol : (length ([c] ++ bytes_after bs k) <= 2040)%nat).
  { rewrite length_app. unfold bytes_after. rewrite length_fmap, length_seq. unfold bit_bytes.
    rewrite Hbl. cbn [length]. assert ((Z.to_nat n + 7) / 8 <= 2039)%nat; [|lia].
    apply Nat.Div0.div_le_upper_bound; lia. }
  destruct (response_byte f _ _ _ Hlk Hol) as [Hload Hstore].
  replace (8 + 1 + Z.of_nat k / 8) with (8 + Z.of_nat (S q)) by (unfold q; rewrite Nat2Z.inj_succ, Nat2Z.inj_div; lia).
  rewrite Hload, bits_value_snoc, Hcl. destruct (Z.eqb_spec v 0) as [->|Hne]; cbn [mbind option_bind negb].
  - cbn [Z.b2z]. rewrite Z.mul_0_l, Z.add_0_r, list_insert_id; [done|by apply bytes_after_lookup].
  - rewrite Hstore. cbn [app]. change (<[S q := ?x]> (c :: ?m)) with (c :: <[q := x]> m).
    match goal with |- Some (_ (c :: <[q := ?x]> _)) = Some (_ (c :: <[q := ?y]> _)) =>
      assert (x = y) as ->; [|done] end.
    rewrite le_load_1, Z.shiftl_1_l, Nat2Z.inj_mod. cbn [Z.b2z]. rewrite Z.mul_1_l.
    change (Z.of_nat 8) with 8. assert (0 <= Z.of_nat k mod 8 < 8) by (apply Z.mod_pos_bound; lia).
    assert (2 ^ (Z.of_nat k mod 8) <= 2 ^ 7) by (apply Z.pow_le_mono_r; lia).
    assert (0 < 2 ^ (Z.of_nat k mod 8)) by (apply Z.pow_pos_nonneg; lia).
    rewrite u8_id by (change (2 ^ 7) with 128 in *; lia). apply lor_above; [lia|].
    pose proof (bits_value_range l) as Hr. rewrite Hcl, Nat2Z.inj_mod in Hr. done.
Qed.

(** Both reads of bits. *)
Lemma read_bits_serves f e bits start n pdu_len rest :
  request_at seq slave ([f] ++ be_store 2 start ++ be_store 2 n) rest req →
  e = Z.lor f 0x80 → is_u8 e → Z.of_nat (length bits) = 1000 →
  is_u16 start → is_u16 n → 4 <= pdu_len →
  ∃ r,
    (if pdu_len <? sizeof_address then Some (-1, resp f [], 8) else
     start ← field16 req 8; nbits ← field16 req (8 + 2);
     if (nbits =? 0) || (start + nbits >? SIM_MAX_BITS) then refuse e 0x02 (resp f []) 2048 8
     else
     let nbytes := u16 ((nbits + 7) / 8) in
     if 8 + 1 + nbytes >? 2048 then Some (-1, resp f [], 8) else
     res ← store 8 [u8 nbytes] (resp f []);
     res ← store (8 + 1) (replicate (Z.to_nat nbytes) 0) res;
     res ← foldM (set_bit 8 bits start) res (seqZ 0 nbits);
     res ← set_len (sizeof_code + 1 + nbytes) res;
     Some (0, res, 8 + 1 + nbytes)) = Some r ∧
    holds_answer (serve_bits f start n bits) r.
Proof.
  intros Hreq He Hu Hbits Hst Hn Hp. destruct (two_fields _ _ _ _ Hreq) as [H1 H2]; [done..|].
  unfold sizeof_address, SIM_MAX_BITS. destruct (Z.ltb_spec pdu_len 4); [lia|].
  rewrite H1, H2. cbn [mbind option_bind]. unfold serve_bits.
  rewrite in_range_spec by lia. destruct (_ || _) eqn:Hr; cbn [negb]; [by apply refuse_holds|].
  apply orb_false_iff in Hr as [Hz Hr]. rewrite Z.eqb_neq in Hz. rewrite Z.gtb_ltb, Z.ltb_ge in Hr.
  fold (bools bits start n). set (bs := bools bits start n).
  assert (Hbl : length bs = Z.to_nat n) by (apply bools_length; lia).
  assert (Hnb : (n + 7) / 8 = Z.of_nat (bit_bytes (length bs))).
  { unfold bit_bytes. rewrite Hbl, Nat2Z.inj_div, Nat2Z.inj_add, Z2Nat.id by lia. done. }
  assert (0 <= (n + 7) / 8 <= 200) by zlia.
  rewrite (u16_id ((n + 7) / 8)) by lia. cbv zeta. destruct (Z.gtb_spec (8 + 1 + (n + 7) / 8) 2048); [lia|].
  rewrite (response_store _ _ _ _ [] [_]) by (simpl; lia). cbn [mbind option_bind app].
  rewrite response_store by (rewrite ?length_replicate; simpl; lia). cbn [mbind option_bind].
  assert (Hzero : replicate (Z.to_nat ((n + 7) / 8)) 0 = bytes_after bs 0).
  { unfold bytes_after. rewrite Hnb, Nat2Z.id. symmetry. apply list_eq. intros j.
    rewrite list_lookup_fmap. destruct (decide (j < bit_bytes (length bs))%nat) as [Hj|Hj].
    - rewrite lookup_seq_lt, lookup_replicate_2 by done. cbn [fmap option_fmap option_map].
      unfold chunk. by rewrite take_0, drop_nil, take_nil.
    - by rewrite !lookup_ge_None_2 by (rewrite ?length_seq, ?length_replicate; lia). }
  pose proof (set_bits f (u8 ((n + 7) / 8)) bits start n) as Hsb. fold bs in Hsb.
  rewrite Hzero, Hsb by lia. cbn [mbind option_bind].
  set (out := [u8 ((n + 7) / 8)] ++ pack_bits bs).
  assert (Hout : Z.of_nat (length out) = 1 + (n + 7) / 8).
  { unfold out. rewrite length_app, pack_bits_length, Hnb. simpl. lia. }
  replace (sizeof_code + 1 + (n + 7) / 8) with (2 + Z.of_nat (length out)) by (unfold sizeof_code; lia).
  replace (8 + 1 + (n + 7) / 8) with (8 + Z.of_nat (length out)) by lia.
  rewrite response_set_len by lia. cbn [mbind option_bind]. eexists. split; [done|].
  exists f, out. unfold out at 1. rewrite Hnb. split; [done|]. split; [lia|done].
Qed.

(** ** Writes *)

Lemma ack_holds f a b data rest :
  request_at seq slave ([f] ++ be_store 2 a ++ be_store 2 b ++ data) rest req →
  ∃ r, acknowledge req 8 (resp f []) 2048 8 = Some r ∧
    holds_answer ([f] ++ be_store 2 a ++ be_store 2 b) r.
Proof.
  intros Hreq. rewrite (acknowledge_spec _ _ _ _ _ Hreq). eexists. split; [done|].
  exists f, (be_store 2 a ++ be_store 2 b). split; [done|]. split; [|done].
  rewrite length_app, !length_be_store. lia.
Qed.

(** The answer with the state. *)
Definition holds_served (ans : list Z * sim_ctx_t) (r : option (Z * list Z * Z * sim_ctx_t)) : Prop :=
  ∃ ret res len, r = Some (ret, res, len, ans.2) ∧ holds_answer ans.1 (ret, res, len).

Lemma served_with (ans : list Z) (s' : sim_ctx_t) r0 :
  (∃ r, r0 = Some r ∧ holds_answer ans r) →
  holds_served (ans, s') ('(ret, res, len) ← r0; Some (ret, res, len, s')).
Proof. intros ([[ret res] len] & -> & Hh). by exists ret, res, len. Qed.

Lemma slice_one {A} (l : list A) i x : l !! Z.to_nat i = Some x → slice i 1 l = [x].
Proof. intros Hx. unfold slice. by rewrite (drop_S _ x). Qed.

Lemma write_holding_serves start v pdu_len rest :
  request_at seq slave (encode_request (WriteHolding start v)) rest req →
  is_u16 start → is_u16 v → 4 <= pdu_len →
  holds_served (serve s (WriteHolding start v))
    (pdu_write_single_holding s req 8 pdu_len (resp MODBUS_WRITE_S_HOLD_REG []) 2048 8).
Proof.
  intros Hreq Hst Hv Hp. cbn [encode_request] in Hreq. rewrite <-(app_nil_r (be_store 2 v)) in Hreq.
  destruct (request_fields _ _ _ _ _ Hreq) as (H1 & _ & H3 & _).
  unfold pdu_write_single_holding, sizeof_address, SIM_MAX_REGS. destruct (Z.ltb_spec pdu_len 4); [lia|].
  rewrite H1, u16_id by done. cbn [mbind option_bind serve]. unfold serve_write, in_range.
  change (1 =? 0) with false. cbn [negb andb].
  destruct (Z.geb_spec start 1000), (Z.leb_spec (start + 1) 1000); try lia; cbn [negb].
  { apply served_with. by apply refuse_holds; vm_compute. }
  pose proof (so_mask s Hs). pose proof (so_hold s Hs).
  destruct (array_get_some (readonly_mask s) start) as (ro & -> & Hro); [lia|].
  rewrite (slice_one _ _ _ Hro). cbn [mbind option_bind existsb]. rewrite orb_false_r. unfold id.
  destruct ro; [apply served_with; by apply refuse_holds; vm_compute|].
  rewrite H3. cbn [mbind option_bind]. rewrite array_set_some by lia. cbn [mbind option_bind].
  assert (be_load (be_store 2 v) = v) as ->.
  { rewrite be_load_store. apply Z.mod_small. exact Hv. }
  apply served_with. rewrite app_nil_r in Hreq. apply (ack_holds _ _ _ [] rest).
  by rewrite app_nil_r.
Qed.

(** Words behind the byte count. *)
Lemma word_at vs k v :
  vs !! k = Some v → mem_read (2 * k) 2 (concat (be_store 2 <$> vs)) = be_store 2 v.
Proof.
  intros Hv. unfold mem_read. pose proof (concat_pairs_slice (be_store 2) vs k 1) as Hc.
  rewrite Nat.mul_1_r in Hc. rewrite Hc by (intros; apply length_be_store).
  rewrite (drop_S _ v) by done. cbn [take fmap list_fmap concat]. by rewrite app_nil_r.
Qed.

Lemma inserts_snoc {A} (l k : list A) x i :
  list_inserts i (k ++ [x]) l = <[(i + length k)%nat := x]> (list_inserts i k l).
Proof.
  revert i. induction k as [|y k IH]; intros i; cbn [list_inserts app length].
  - by rewrite Nat.add_0_r.
  - rewrite IH, list_insert_insert_ne by lia.
    by replace (i + S (length k))%nat with (S i + length k)%nat by lia.
Qed.

(** The loop over the elements of a write. *)
Lemma write_loop {A} (vs l : list A) start (body : list A → Z → option (list A)) :
  0 <= start →
  (∀ regs k v, vs !! k = Some v → length regs = length l →
    body regs (Z.of_nat k) = Some (<[(Z.to_nat start + k)%nat := v]> regs)) →
  foldM body l (seqZ 0 (Z.of_nat (length vs))) = Some (list_inserts (Z.to_nat start) vs l).
Proof.
  intros Hst Hbody. apply (foldM_index (λ k, list_inserts (Z.to_nat start) (take k vs) l)).
  - by rewrite take_0.
  - by rewrite take_ge by lia.
  - intros k Hk. rewrite Nat2Z.id in Hk. destruct (lookup_lt_is_Some_2 vs k Hk) as [v Hv].
    rewrite (Hbody _ k v Hv) by apply length_inserts.
    rewrite (take_S_r vs k v Hv), inserts_snoc, length_take. do 3 f_equal. lia.
Qed.

(** The protection check reads the mask of the registers. *)
Lemma mask_slice start n :
  0 <= start → 0 <= n → start + n <= 1000 →
  mapM (λ i, array_get (readonly_mask s) (start + i)) (seqZ 0 n) =
    Some (slice start n (readonly_mask s)).
Proof.
  intros Hst Hn Hle. pose proof (so_mask s Hs) as Hm. apply mapM_Some_2, Forall2_same_length_lookup_2.
  { unfold slice. rewrite length_seqZ, length_take, length_drop. lia. }
  intros k i b Hi Hb. apply lookup_seqZ in Hi as [-> Hk]. unfold array_get.
  destruct (Z.ltb_spec (start + (0 + Z.of_nat k)) 0); [lia|]. unfold slice in Hb.
  rewrite lookup_take_lt, lookup_drop in Hb by lia. rewrite <-Hb. f_equal. lia.
Qed.

Lemma write_holdings_serves start vs pdu_len rest :
  request_at seq slave (encode_request (WriteHoldings start vs)) rest req →
  is_u16 start → Forall (λ v, is_u16 v) vs → (length vs <= 1000)%nat → 5 <= pdu_len →
  holds_served (serve s (WriteHoldings start vs))
    (pdu_write_multiple_holding s req 8 pdu_len (resp MODBUS_WRITE_M_HOLD_REG []) 2048 8).
Proof.
  intros Hreq Hst Hvs Hl Hp. cbn [encode_request] in Hreq.
  destruct (request_fields _ _ _ _ _ Hreq) as (H1 & H2 & _).
  unfold pdu_write_multiple_holding, SIM_MAX_REGS. change (sizeof_address + sizeof_data) with 5.
  destruct (Z.ltb_spec pdu_len 5); [lia|].
  rewrite H1, H2, !u16_id by lia. cbn [mbind option_bind serve]. unfold serve_write.
  set (n := Z.of_nat (length vs)). rewrite in_range_spec by lia.
  destruct (_ || _) eqn:Hr; cbn [negb]; [by apply served_with, refuse_holds; vm_compute|].
  apply orb_false_iff in Hr as [Hz Hr]. rewrite Z.gtb_ltb, Z.ltb_ge in Hr.
  rewrite mask_slice by lia. cbn [mbind option_bind].
  destruct (existsb id _); [by apply served_with, refuse_holds; vm_compute|].
  rewrite (write_loop vs (hold_regs s) start); [|lia|].
  - cbn [mbind option_bind]. apply served_with. by apply (ack_holds _ _ _ _ _ Hreq).
  - intros regs k v Hv Hlr. pose proof (lookup_lt_Some _ _ _ Hv). pose proof (so_hold s Hs).
    rewrite (request_data _ _ _ _ _ _ (Z.of_nat k * 2) 2 Hreq) by (rewrite ?length_words; lia).
    cbn [mbind option_bind]. replace (Z.to_nat (Z.of_nat k * 2)) with (2 * k)%nat by lia.
    change (Z.to_nat 2) with 2%nat.
    rewrite (word_at vs k v Hv), be_load_store, Z.mod_small by (by eapply Forall_lookup_1 in Hvs).
    rewrite array_set_some by lia. do 2 f_equal. lia.
Qed.

Lemma write_coil_serves start on pdu_len rest :
  request_at seq slave (encode_request (WriteCoil start on)) rest req →
  is_u16 start → 4 <= pdu_len →
  holds_served (serve s (WriteCoil start on))
    (pdu_write_single_coil s req 8 pdu_len (resp MODBUS_WRITE_S_COIL []) 2048 8).
Proof.
  intros Hreq Hst Hp. cbn [encode_request] in Hreq. set (v := if on then 0xFF00 else 0) in *.
  rewrite <-(app_nil_r (be_store 2 v)) in Hreq.
  destruct (request_fields _ _ _ _ _ Hreq) as (H1 & _ & H3 & _).
  unfold pdu_write_single_coil, sizeof_address, SIM_MAX_BITS. destruct (Z.ltb_spec pdu_len 4); [lia|].
  rewrite H1, u16_id by done. cbn [mbind option_bind serve]. unfold in_range.
  change (1 =? 0) with false. cbn [negb andb].
  destruct (Z.geb_spec start 1000), (Z.leb_spec (start + 1) 1000); try lia.
  { by apply served_with, refuse_holds; vm_compute. }
  pose proof (so_coils s Hs). rewrite H3. cbn [mbind option_bind].
  rewrite array_set_some by lia. cbn [mbind option_bind].
  assert (be_load (be_store 2 v) = v) as -> by (by destruct on).
  assert ((if v =? 0xFF00 then 1 else 0) = Z.b2z on) as -> by (by destruct on).
  apply served_with, (ack_holds _ _ _ [] rest Hreq).
Qed.

Lemma write_coils_serves start bs pdu_len rest :
  request_at seq slave (encode_request (WriteCoils start bs)) rest req →
  is_u16 start → (length bs <= 2000)%nat → 5 <= pdu_len →
  holds_served (serve s (WriteCoils start bs))
    (pdu_write_multiple_coils s req 8 pdu_len (resp MODBUS_WRITE_M_COIL []) 2048 8).
Proof.
  intros Hreq Hst Hl Hp. cbn [encode_request] in Hreq.
  destruct (request_fields _ _ _ _ _ Hreq) as (H1 & H2 & _).
  unfold pdu_write_multiple_coils, SIM_MAX_BITS. change (sizeof_address + sizeof_data) with 5.
  destruct (Z.ltb_spec pdu_len 5); [lia|].
  rewrite H1, H2, !u16_id by lia. cbn [mbind option_bind serve].
  set (n := Z.of_nat (length bs)). rewrite in_range_spec by lia.
  destruct (_ || _) eqn:Hr; cbn [negb]; [by apply served_with, refuse_holds; vm_compute|].
  apply orb_false_iff in Hr as [Hz Hr]. rewrite Z.gtb_ltb, Z.ltb_ge in Hr.
  assert (Hn : n = Z.of_nat (length (Z.b2z <$> bs))) by (by rewrite length_fmap).
  replace (seqZ 0 n) with (seqZ 0 (Z.of_nat (length (Z.b2z <$> bs)))) by (by rewrite <-Hn).
  rewrite (write_loop (Z.b2z <$> bs) (coil_bits s) start); [|lia|].
  - cbn [mbind option_bind]. apply served_with. by apply (ack_holds _ _ _ _ _ Hreq).
  - intros bits k v Hv Hlr. rewrite list_lookup_fmap in Hv.
    destruct (bs !! k) as [b|] eqn:Hb; [|done]. injection Hv as <-.
    pose proof (lookup_lt_Some _ _ _ Hb). pose proof (so_coils s Hs).
    destruct (pack_bits_testbit bs k) as (w & Hw & Hwu & Hbit); [done|].
    assert (Hwl : (k / 8 < length (pack_bits bs))%nat) by (by eapply lookup_lt_Some).
    assert (Hq : Z.of_nat k / 8 = Z.of_nat (k / 8)) by (by rewrite Nat2Z.inj_div).
    rewrite Hq, (request_data _ _ _ _ _ _ (Z.of_nat (k / 8)) 1 Hreq) by lia.
    rewrite Nat2Z.id. change (Z.to_nat 1) with 1%nat. unfold mem_read. rewrite (drop_S _ w) by done.
    cbn [take mbind option_bind]. rewrite le_load_1.
    rewrite array_set_some by lia. f_equal. replace (Z.to_nat (start + Z.of_nat k)) with (Z.to_nat start + k)%nat by lia.
    f_equal. rewrite nth_lookup, Hb in Hbit. cbn [default] in Hbit.
    rewrite Nat2Z.inj_mod in Hbit. change (Z.of_nat 8) with 8 in Hbit. unfold default, id in Hbit.
    rewrite <-Hbit, Z.testbit_spec' by (apply Z.mod_pos_bound; lia).
    rewrite (Z.land_ones _ 1), Z.shiftr_div_pow2 by (try lia; apply Z.mod_pos_bound; lia). done.
Qed.
End serving.

(** ** A whole request *)

(** The response buffer when the header and the code have been copied. *)
Lemma response_start seq slave f pdu rest req :
  request_at seq slave (f :: pdu) rest req →
  (header ← load req 0 sizeof_header; res ← store 0 header (replicate (Z.to_nat 2048) 0);
   code ← load req 6 sizeof_code; res ← store 6 code res; res ← set_len sizeof_code res;
   Some (code, res)) = Some ([slave; f], response seq 2 slave f []).
Proof.
  intros [Hreq [Hl _]]. unfold sizeof_header, sizeof_code, CYCLE_BUF_SIZE in *.
  rewrite !load_some by lia.
  set (n := Z.of_nat (length (slave :: f :: pdu))). set (hd := be_store 2 seq ++ [0; 0] ++ be_store 2 n).
  assert (mem_read (Z.to_nat 0) (Z.to_nat 6) req = hd) as -> by (by rewrite Hreq).
  assert (mem_read (Z.to_nat 6) (Z.to_nat 2) req = [slave; f]) as -> by (by rewrite Hreq).
  cbn [mbind option_bind]. assert (Hhd : length hd = 6%nat) by done.
  rewrite store_some by (rewrite ?length_replicate, ?Hhd; lia). cbn [mbind option_bind].
  assert (mem_write (Z.to_nat 0) hd (replicate (Z.to_nat 2048) 0) = hd ++ replicate 2042 0) as ->.
  { unfold mem_write. rewrite take_0, app_nil_l, Hhd, drop_replicate. done. }
  rewrite store_some by (rewrite ?length_app, ?length_replicate, ?Hhd; simpl; lia).
  cbn [mbind option_bind].
  assert (mem_write (Z.to_nat 6) [slave; f] (hd ++ replicate 2042 0) = response seq n slave f []) as ->.
  { unfold mem_write. change (Z.to_nat 6) with (length hd). rewrite take_app_length.
    rewrite drop_app_add, drop_replicate. unfold response, hd. rewrite <-!app_assoc. do 5 f_equal. }
  by rewrite response_set_len by (simpl; lia).
Qed.

(** The function code of a request, and what follows it. *)
Definition request_function (r : modbus_request) : Z := nth 0 (encode_request r) 0.
Definition request_body (r : modbus_request) : list Z := drop 1 (encode_request r).

Lemma encode_split r : encode_request r = request_function r :: request_body r.
Proof. by destruct r. Qed.

Lemma pass_holds seq slave ans r (need : Z) (s : sim_ctx_t) :
  (∃ x, r = Some x ∧ holds_answer seq slave ans x) →
  ∃ res len, ('(_, res, len) ← r; Some (need, res, len, s)) = Some (need, res, len, s) ∧
    load res 0 len = Some (frame_of MODBUS_PROTOCOL_TCP seq (slave :: ans)).
Proof.
  intros ([[ret res] len] & -> & g & out & -> & Hl & [= -> -> ->]). eexists _, _. split; [done|].
  by apply response_load.
Qed.

Lemma pass_served_holds seq slave ans r (need : Z) :
  holds_served seq slave ans r →
  ∃ res len, ('(_, res, len, s) ← r; Some (need, res, len, s)) = Some (need, res, len, ans.2) ∧
    load res 0 len = Some (frame_of MODBUS_PROTOCOL_TCP seq (slave :: ans.1)).
Proof.
  destruct ans as [ans s']. intros (ret & res & len & -> & g & out & Ha & Hl & [= -> -> ->]).
  cbn [fst snd] in *. subst ans. eexists _, _. split; [done|]. by apply response_load.
Qed.

(** Comparisons of function codes. *)
Ltac decide_functions :=
  repeat match goal with
  | |- context [Z.eqb ?a ?b] =>
      let v := eval vm_compute in (Z.eqb a b) in
      lazymatch v with true => idtac | false => idtac end; change (Z.eqb a b) with v
  end; cbv iota.

Lemma process_serves s seq slave r rest req req_len :
  sim_ok s → request_wf r → request_at seq slave (encode_request r) rest req →
  let frame := frame_of MODBUS_PROTOCOL_TCP seq (slave :: encode_request r) in
  Z.of_nat (length frame) <= req_len <= CYCLE_BUF_SIZE →
  ∃ res len, process_modbus_tcp s req req_len (replicate (Z.to_nat RES_SIZE) 0) RES_SIZE =
      Some (Z.of_nat (length frame), res, len, (serve s r).2) ∧
    load res 0 len = Some (frame_of MODBUS_PROTOCOL_TCP seq (slave :: (serve s r).1)).
Proof.
  intros Hs Hwf Hreq frame Hlen. unfold process_modbus_tcp, RES_SIZE. unfold CYCLE_BUF_SIZE in Hlen.
  pose proof Hreq as [Hq [Hql Hqb]]. unfold CYCLE_BUF_SIZE in Hql.
  set (body := request_body r). set (f := request_function r).
  assert (Hfl : Z.of_nat (length frame) = 8 + Z.of_nat (length body)).
  { unfold frame. rewrite encode_split, length_frame_of. cbn [length framing_room]. fold body. lia. }
  destruct (Z.ltb_spec req_len sizeof_header) as [Hlt|_]; [unfold sizeof_header in Hlt; lia|].
  assert (Hf16 : field16 req 4 = Some (2 + Z.of_nat (length body))).
  { unfold field16. rewrite load_some by lia. cbn [mbind option_bind].
    assert (mem_read (Z.to_nat 4) (Z.to_nat 2) req =
      be_store 2 (Z.of_nat (length (slave :: encode_request r)))) as -> by (by rewrite Hq).
    rewrite ntohs_be, encode_split. fold body. rewrite u16_id by (cbn [length]; lia).
    f_equal. cbn [length]. lia. }
  rewrite Hf16. cbn [mbind option_bind]. cbv zeta.
  assert (u16 (sizeof_header + (2 + Z.of_nat (length body))) = Z.of_nat (length frame)) as ->
    by (unfold sizeof_header; rewrite u16_id by lia; lia).
  destruct (Z.ltb_spec req_len (Z.of_nat (length frame))); [lia|].
  rewrite (load_some req 2 2) by lia. cbn [mbind option_bind].
  assert (mem_read (Z.to_nat 2) (Z.to_nat 2) req = [0; 0]) as -> by (by rewrite Hq).
  change (le_load [0; 0] =? 0) with true. cbn [negb].
  pose proof Hreq as Hreq2. rewrite encode_split in Hreq2. fold body f in Hreq2.
  pose proof (response_start _ _ _ _ _ _ Hreq2) as Hstart.
  destruct (load req 0 sizeof_header) as [hd|]; [|done]. cbn [mbind option_bind] in *.
  destruct (store 0 hd _) as [r1|]; [|done]. cbn [mbind option_bind] in *.
  destruct (load req 6 sizeof_code) as [cd|]; [|done]. cbn [mbind option_bind] in *.
  destruct (store 6 cd r1) as [r2|]; [|done]. cbn [mbind option_bind] in *.
  destruct (set_len sizeof_code r2) as [r3|]; [|done]. cbn [mbind option_bind] in *.
  injection Hstart as -> ->. cbn [nth]. unfold sizeof_header, sizeof_code. change (6 + 2) with 8.
  assert (Hpl : Z.of_nat (length frame) - 8 = Z.of_nat (length body)) by lia. rewrite Hpl. clear Hpl.
  destruct r as [start n|start n|start n|start n|start v|start vs|start on|start bs|g gb];
    unfold request_function, request_body in f, body; cbn [encode_request nth app drop] in f, body;
    cbn [request_wf] in Hwf; subst f; decide_functions.
  - destruct Hwf. apply pass_holds. by apply (read_holding_serves s Hs _ _ _ _ _ _ rest).
  - destruct Hwf. apply pass_holds. by apply (read_input_regs_serves s Hs _ _ _ _ _ _ rest).
  - destruct Hwf. apply pass_holds.
    apply (read_bits_serves _ _ _ MODBUS_READ_COIL _ _ _ _ _ rest); try done. apply Hs.
  - destruct Hwf. apply pass_holds.
    apply (read_bits_serves _ _ _ MODBUS_READ_INPUT _ _ _ _ _ rest); try done. apply Hs.
  - destruct Hwf. apply pass_served_holds. by apply (write_holding_serves s Hs _ _ _ _ _ _ rest).
  - destruct Hwf as (? & ? & ?). apply pass_served_holds.
    apply (write_holdings_serves s Hs _ _ _ _ _ _ rest); try done. unfold body.
    rewrite drop_0, !length_app, !length_be_store. cbn [length]. lia.
  - apply pass_served_holds. by apply (write_coil_serves s Hs _ _ _ _ _ _ rest).
  - destruct Hwf as (? & ?). apply pass_served_holds.
    apply (write_coils_serves s Hs _ _ _ _ _ _ rest); try done. unfold body.
    rewrite drop_0, !length_app, !length_be_store. cbn [length]. lia.
  - destruct Hwf as (Hg & Hk & _).
    assert (∀ x, x ∈ known_functions → (g =? x) = false) as Hne.
    { intros x Hx. apply Z.eqb_neq. by intros ->. }
    rewrite !Hne by (unfold known_functions; set_solver).
    rewrite refuse_spec by (apply lor_u8; lia). cbn [mbind option_bind]. eexists _, _. split; [done|].
    by apply (response_load seq slave (Z.lor g 0x80) [0x01]); [simpl; lia|].
Qed.

(** ** A client that sends a request in pieces *)

(** The bytes that wait in the buffer of a client. *)
Definition pending (cb : cycle_buf) (l : list Z) : Prop :=
  client_ok cb ∧ cb_len cb = Z.of_nat (length l) ∧ ∃ rest, cb_buf cb = l ++ rest.

Lemma pending_zero : pending cycle_buf_zero [].
Proof. split; [apply cycle_buf_zero_ok|]. split; [done|]. by eexists. Qed.

(** The events of a client whose bytes arrive in portions. *)
Fixpoint client_reads (s : sim_ctx_t) (cb : cycle_buf) (pieces : list (list Z))
    : option (list client_effect * cycle_buf * sim_ctx_t) :=
  match pieces with
  | [] => Some ([], cb, s)
  | p :: pieces' =>
      '(e, cb, s) ← client_read s cb (Z.of_nat (length p)) p;
      '(es, cb, s) ← client_reads s cb pieces';
      Some (e :: es, cb, s)
  end.

(** What the buffer holds when a portion has arrived. *)
Lemma pending_store cb l p :
  pending cb l → bytes_ok p → p ≠ [] → (length l + length p <= 4096)%nat →
  ∃ rest, store (cb_len cb) p (cb_buf cb) = Some ((l ++ p) ++ rest) ∧
    buffer CYCLE_BUF_SIZE ((l ++ p) ++ rest) ∧
    (if Z.of_nat (length p) >? 0 then u16 (cb_len cb + u16 (Z.of_nat (length p))) else cb_len cb) =
      Z.of_nat (length (l ++ p)).
Proof.
  intros ([[Hbl Hbb] Hcl] & Hlen & rest & Hbuf) Hp Hne Hfit. unfold CYCLE_BUF_SIZE in *.
  assert (0 < length p)%nat by (destruct p; [done|simpl; lia]).
  rewrite Hlen, store_some by lia. rewrite Nat2Z.id, Hbuf. unfold mem_write.
  rewrite take_app_length, drop_app_add. exists (drop (length p) rest).
  rewrite <-app_assoc. split; [done|]. split.
  - assert (length rest = 4096 - length l)%nat by (rewrite Hbuf, length_app in Hbl; lia).
    split; [rewrite !length_app, length_drop; lia|]. rewrite Hbuf in Hbb.
    apply bytes_ok_app in Hbb as [? ?]. rewrite !bytes_ok_app. auto with neuron.
  - destruct (Z.gtb_spec (Z.of_nat (length p)) 0); [|lia]. rewrite length_app.
    rewrite (u16_id (Z.of_nat (length p))), u16_id by lia. lia.
Qed.

(** An incomplete request waits. *)
Lemma client_waits s cb l p more seq slave pdu :
  pending cb l → bytes_ok p → p ≠ [] → more ≠ [] →
  l ++ p ++ more = frame_of MODBUS_PROTOCOL_TCP seq (slave :: pdu) → (length pdu <= 4089)%nat →
  ∃ cb', client_read s cb (Z.of_nat (length p)) p = Some (Waiting, cb', s) ∧ pending cb' (l ++ p).
Proof.
  intros Hcb Hp Hne Hmore Hframe Hl.
  assert (Hfl : (length l + length p + length more = 7 + length pdu)%nat).
  { pose proof (length_frame_of MODBUS_PROTOCOL_TCP seq (slave :: pdu)) as H. rewrite <-Hframe in H.
    rewrite !length_app in H. cbn [framing_room length] in H. lia. }
  assert (0 < length more)%nat by (destruct more; [done|simpl; lia]).
  destruct (pending_store cb l p Hcb Hp Hne) as (rest & Hst & Hbuf & Hlen); [lia|].
  unfold client_read. rewrite Hst, Hlen. cbn [mbind option_bind]. set (buf := (l ++ p) ++ rest) in *.
  assert (Hproc : process_modbus_tcp s buf (Z.of_nat (length (l ++ p)))
    (replicate (Z.to_nat RES_SIZE) 0) RES_SIZE = Some (0, replicate (Z.to_nat RES_SIZE) 0, 0, s)).
  { unfold process_modbus_tcp. destruct (Z.ltb_spec (Z.of_nat (length (l ++ p))) sizeof_header) as [|Hge];
      [done|]. unfold sizeof_header in Hge. destruct Hbuf as [Hbl _]. unfold CYCLE_BUF_SIZE in Hbl.
    unfold field16. rewrite (load_some buf 4 2) by lia. cbn [mbind option_bind].
    assert (Hfield : mem_read (Z.to_nat 4) (Z.to_nat 2) buf = be_store 2 (Z.of_nat (length (slave :: pdu)))).
    { assert (Ht : take 6 buf = take 6 (frame_of MODBUS_PROTOCOL_TCP seq (slave :: pdu))).
      { rewrite <-Hframe, (app_assoc l p more). unfold buf.
        by rewrite (take_app_le (l ++ p) rest), (take_app_le (l ++ p) more) by lia. }
      assert (∀ x : list Z, mem_read (Z.to_nat 4) (Z.to_nat 2) x = drop 4 (take 6 x)) as Hmr.
      { intros x. unfold mem_read. by rewrite firstn_skipn_comm. }
      rewrite Hmr, Ht. done. }
    rewrite Hfield, ntohs_be. cbn [length]. unfold sizeof_header.
    rewrite (u16_id (Z.of_nat (S (length pdu)))) by lia.
    rewrite (u16_id (6 + Z.of_nat (S (length pdu)))) by lia.
    destruct (Z.ltb_spec (Z.of_nat (length (l ++ p))) (6 + Z.of_nat (S (length pdu)))) as [|Hge2]; [done|].
    rewrite length_app in Hge2. lia. }
  rewrite Hproc. cbn [mbind option_bind Z.eqb]. eexists. split; [done|]. split; [|split; [done|by eexists]].
  split; [done|]. cbn [cb_len]. rewrite length_app. unfold CYCLE_BUF_SIZE. lia.
Qed.

(** A complete request is answered. *)
Lemma client_answers s cb l p seq slave r :
  sim_ok s → request_wf r → pending cb l → bytes_ok p → p ≠ [] →
  l ++ p = frame_of MODBUS_PROTOCOL_TCP seq (slave :: encode_request r) →
  (length (encode_request r) <= 4089)%nat →
  ∃ cb', client_read s cb (Z.of_nat (length p)) p =
      Some (Answer (frame_of MODBUS_PROTOCOL_TCP seq (slave :: (serve s r).1)), cb', (serve s r).2) ∧
    pending cb' [].
Proof.
  intros Hs Hwf Hcb Hp Hne Hframe Hl.
  assert (Hfl : (length l + length p = 7 + length (encode_request r))%nat).
  { pose proof (length_frame_of MODBUS_PROTOCOL_TCP seq (slave :: encode_request r)) as H.
    rewrite <-Hframe, length_app in H. cbn [framing_room length] in H. lia. }
  destruct (pending_store cb l p Hcb Hp Hne) as (rest & Hst & Hbuf & Hlen); [lia|].
  unfold client_read. rewrite Hst, Hlen. cbn [mbind option_bind]. rewrite Hframe in *.
  set (frame := frame_of MODBUS_PROTOCOL_TCP seq (slave :: encode_request r)) in *.
  assert (Hfr : length frame = (7 + length (encode_request r))%nat).
  { rewrite <-Hframe, length_app. lia. }
  destruct (process_serves s seq slave r rest (frame ++ rest) (Z.of_nat (length frame)))
    as (res & len & Hproc & Hload); [done|done|done|fold frame; unfold CYCLE_BUF_SIZE; lia|].
  fold frame in Hproc. rewrite Hproc. cbn [mbind option_bind].
  destruct (Z.eqb_spec (Z.of_nat (length frame)) (-1)); [lia|].
  destruct (Z.eqb_spec (Z.of_nat (length frame)) 0); [lia|].
  destruct Hbuf as [Hbl Hbb]. unfold CYCLE_BUF_SIZE in Hbl.
  assert (length (frame ++ rest) = (length frame + length rest)%nat) by apply length_app.
  rewrite Z.sub_diag, (load_some (frame ++ rest) (Z.of_nat (length frame)) 0) by lia.
  cbn [mbind option_bind]. change (mem_read _ (Z.to_nat 0) _) with (@nil Z). rewrite store_some by (simpl; lia).
  cbn [mbind option_bind]. rewrite Hload. cbn [mbind option_bind]. eexists. split; [done|].
  split; [|split; [done|by eexists]]. split; [|cbn [cb_len]; unfold CYCLE_BUF_SIZE; zlia].
  split; [|apply mem_write_ok; [apply bytes_ok_nil|done]]. cbn [cb_buf]. rewrite length_mem_write by (simpl; lia). done.
Qed.

Lemma encode_length r : request_wf r → (length (encode_request r) <= 4089)%nat.
Proof.
  destruct r; cbn [request_wf encode_request]; intros Hwf;
    rewrite ?length_app, ?length_be_store, ?length_words, ?pack_bits_length; cbn [length]; try lia.
  unfold bit_bytes. destruct Hwf as [_ Hl]. assert ((length bs + 7) / 8 <= 1000)%nat; [|lia].
  apply Nat.Div0.div_le_upper_bound. lia.
Qed.

(** The portions of a request, the first of which comes behind [l]. *)
Lemma pieces_answered s seq slave r p pieces :
  sim_ok s → request_wf r → bytes_ok (concat (p :: pieces)) → Forall (.≠ []) (p :: pieces) →
  ∀ l cb, pending cb l →
  l ++ concat (p :: pieces) = frame_of MODBUS_PROTOCOL_TCP seq (slave :: encode_request r) →
  ∃ cb', client_reads s cb (p :: pieces) =
      Some (replicate (length pieces) Waiting ++
              [Answer (frame_of MODBUS_PROTOCOL_TCP seq (slave :: (serve s r).1))],
            cb', (serve s r).2) ∧ pending cb' [].
Proof.
  intros Hs Hwf. pose proof (encode_length r Hwf) as Hl. revert p.
  induction pieces as [|p' pieces IH]; intros p Hok Hne l cb Hcb Hframe;
    apply Forall_cons in Hne as [Hp Hne]; apply bytes_ok_app in Hok as [Hpb Hok].
  - cbn [concat] in Hframe. rewrite app_nil_r in Hframe. cbn [client_reads].
    destruct (client_answers s cb l p seq slave r) as (cb' & -> & Hcb'); [done..|].
    cbn [mbind option_bind]. by eexists.
  - pose proof Hne as [Hp' _]%Forall_cons.
    destruct (client_waits s cb l p (concat (p' :: pieces)) seq slave (encode_request r))
      as (cb1 & Hread & Hcb1); [done..| |done|done|].
    { cbn [concat]. by destruct p'. }
    cbn [client_reads]. rewrite Hread. cbn [mbind option_bind]. fold (client_reads s cb1 (p' :: pieces)).
    destruct (IH p' Hok Hne (l ++ p) cb1 Hcb1) as (cb' & Hrs & Hcb'); [by rewrite <-app_assoc|].
    change (client_read s cb1 (Z.of_nat (length p')) p' ≫= _) with (client_reads s cb1 (p' :: pieces)).
    rewrite Hrs. cbn [mbind option_bind]. by eexists.
Qed.

(** C14: The simulator implements a Modbus server.  A request of the protocol, with
    any of its functions or an unknown one, that arrives in any number of
    portions, is answered once, when its last byte has come, with the frame of the
    answer that [serve] defines: the registers or bits that it asks for, an
    acknowledgement of what it writes, or an exception for a range that does not
    exist, a register that a tag owns or an unknown function.  The registers
    change as [serve] says, and the buffer of the client is empty again. *)
Theorem simulator_implements_server s cb seq slave r pieces :
  sim_ok s → request_wf r → pending cb [] → bytes_ok (concat pieces) → Forall (.≠ []) pieces →
  concat pieces = frame_of MODBUS_PROTOCOL_TCP seq (slave :: encode_request r) →
  ∃ cb', client_reads s cb pieces =
      Some (replicate (length pieces - 1) Waiting ++
              [Answer (frame_of MODBUS_PROTOCOL_TCP seq (slave :: (serve s r).1))],
            cb', (serve s r).2) ∧ pending cb' [].
Proof.
  intros Hs Hwf Hcb Hok Hne Hframe. destruct pieces as [|p pieces]; [done|].
  replace (length (p :: pieces) - 1)%nat with (length pieces) by (simpl; lia).
  by apply (pieces_answered s seq slave r p pieces) with (l := []).
Qed.

(** A read of the registers 8 and 9 that arrives in two portions. *)
Lemma simulator_implements_server_witness :
  ∃ cb', client_reads demo_sim cycle_buf_zero [[0; 5; 0; 0; 0; 6; 1]; [3; 0; 8; 0; 2]] =
      Some ([Waiting; Answer (frame_of MODBUS_PROTOCOL_TCP 5 (1 :: (serve demo_sim (ReadHolding 8 2)).1))],
            cb', demo_sim) ∧ pending cb' [].
Proof.
  apply (simulator_implements_server demo_sim cycle_buf_zero 5 1 (ReadHolding 8 2)
    [[0; 5; 0; 0; 0; 6; 1]; [3; 0; 8; 0; 2]]).
  - exact demo_sim_ok.
  - split; lia.
  - exact pending_zero.
  - repeat constructor; lia.
  - repeat constructor; done.
  - reflexivity.
Defined.
