(* ===== verification/SimulatorDriver.v ===== *)
(** * The driver and the simulator together

    A Modbus TCP driver of the gateway whose connection leads to the simulator of
    the same process: the requests of the driver are bytes for [client_io_cb], the
    answers of the simulator are the bytes that the driver receives.  The network
    between the two delivers a frame in one piece.  What a poll publishes are the
    registers of the simulator, and what is written through the driver is read
    back. *)

From S2P Require Import Prelude NeuTypes Tag ProtocolBuf Modbus ModbusPoint ModbusPlan.
From S2P Require Import ModbusStack ModbusValue ModbusReq Simulator SimulatorOk SimulatorServe.

(** ** The connection *)

(** The simulator, its buffer for this client, the bytes on their way back, and a
    record of all answers the simulator has sent. *)
Record sim_link := {
  lk_sim : sim_ctx_t;
  lk_cb : cycle_buf;
  lk_stream : list Z;
  lk_answers : list (list Z);
}.

Definition link_send (l : sim_link) (frame : list Z) : Z * sim_link :=
  match client_read (lk_sim l) (lk_cb l) (Z.of_nat (length frame)) frame with
  | Some (e, cb, s) =>
      (Z.of_nat (length frame),
       {| lk_sim := s; lk_cb := cb;
          lk_stream := lk_stream l ++ match e with Answer bytes => bytes | _ => [] end;
          lk_answers := lk_answers l ++ match e with Answer bytes => [bytes] | _ => [] end |})
  | None => (-1, l)
  end.

Definition link_recv (l : sim_link) (n : Z) : Z * list Z * sim_link :=
  let bytes := take (Z.to_nat n) (lk_stream l) in
  (Z.of_nat (length bytes), bytes,
   {| lk_sim := lk_sim l; lk_cb := lk_cb l; lk_stream := drop (Z.to_nat n) (lk_stream l);
      lk_answers := lk_answers l |}).

Definition link_clear (l : sim_link) : sim_link :=
  {| lk_sim := lk_sim l; lk_cb := lk_cb l; lk_stream := []; lk_answers := lk_answers l |}.

Definition link_ops : conn_ops sim_link unit := {|
  neu_conn_send := link_send;
  neu_conn_recv := link_recv;
  neu_conn_tcp_server_send := λ l _, link_send l;
  neu_conn_tcp_server_recv := λ l _, link_recv l;
  neu_conn_is_connected := λ _, true;
  neu_conn_disconnect := λ l, l;
  neu_conn_clear_recv_buffer := link_clear;
  neu_conn_reconfig := λ l _, l;
|}.

(** The simulator waits for a request. *)
Definition link_idle (s : sim_ctx_t) (l : sim_link) : Prop :=
  lk_sim l = s ∧ sim_ok s ∧ pending (lk_cb l) [].

Lemma encode_ok r : request_wf r → bytes_ok (encode_request r).
Proof.
  assert (∀ l, bytes_ok (concat (be_store 2 <$> l))) as Hw.
  { induction l as [|v l IH]; [constructor|]. rewrite fmap_cons. cbn [concat].
    apply bytes_ok_app. auto with neuron. }
  assert (∀ l, bytes_ok (pack_bits l)) as Hb by apply pack_bits_ok.
  destruct r; cbn [request_wf encode_request]; intros Hwf; rewrite ?bytes_ok_app;
    try (by split_and!; auto with neuron; repeat constructor).
  destruct Hwf as (? & _ & ? & _). by apply bytes_ok_cons.
Qed.

Lemma frame_ok proto seq pdu : bytes_ok pdu → bytes_ok (frame_of proto seq pdu).
Proof.
  intros Hp. destruct proto; cbn [frame_of]; rewrite ?bytes_ok_app;
    split_and!; auto with neuron; repeat constructor; lia.
Qed.

(** A request that is sent is served. *)
Lemma link_serves l s seq slave r :
  link_idle s l → request_wf r → is_u8 slave →
  let frame := frame_of MODBUS_PROTOCOL_TCP seq (slave :: encode_request r) in
  ∃ l', link_send (link_clear l) frame = (Z.of_nat (length frame), l') ∧
    lk_sim l' = (serve s r).2 ∧ pending (lk_cb l') [] ∧
    lk_stream l' = frame_of MODBUS_PROTOCOL_TCP seq (slave :: (serve s r).1) ∧
    lk_answers l' = lk_answers l ++ [frame_of MODBUS_PROTOCOL_TCP seq (slave :: (serve s r).1)].
Proof.
  intros (Hsim & Hs & Hcb) Hwf Hsl frame. unfold link_send, link_clear. cbn [lk_sim lk_cb lk_stream lk_answers].
  assert (frame ≠ []) by done.
  destruct (client_answers s (lk_cb l) [] frame seq slave r) as (cb' & Hread & Hcb'); try done.
  - apply frame_ok, bytes_ok_cons; [done|by apply encode_ok].
  - by apply encode_length.
  - rewrite Hsim, Hread. by eexists.
Qed.

Lemma link_answers l s seq slave r :
  link_idle s l → request_wf r → is_u8 slave →
  answers link_ops MODBUS_PROTOCOL_TCP l
    (frame_of MODBUS_PROTOCOL_TCP seq (slave :: encode_request r))
    (frame_of MODBUS_PROTOCOL_TCP seq (slave :: (serve s r).1)).
Proof.
  intros Hl Hwf Hsl. destruct (link_serves l s seq slave r Hl Hwf Hsl) as (l' & Hsend & _ & _ & Hst & _).
  unfold answers. cbn [neu_conn_send neu_conn_clear_recv_buffer neu_conn_recv link_ops].
  rewrite Hsend. eexists _, l'. split; [done|].
  split; [rewrite length_frame_of; cbn [framing_room]; lia|]. unfold link_recv. rewrite Hst.
  set (resp := frame_of _ _ _).
  assert (Hrl : (6 <= length resp)%nat).
  { pose proof (length_frame_of MODBUS_PROTOCOL_TCP seq (slave :: (serve s r).1)) as H.
    fold resp in H. cbn [framing_room] in H. lia. }
  eexists _, _. change (Z.to_nat 6) with 6%nat. cbn [lk_stream]. split.
  - rewrite length_take, Nat.min_l by done. done.
  - rewrite (take_ge (drop 6 resp)) by (rewrite length_drop; lia). do 2 f_equal.
    rewrite length_drop. lia.
Qed.

(** ** Polling *)

Implicit Types (plugin : neu_plugin sim_link unit).

(** The holding registers as a memory. *)
Definition sim_mem (regs : list Z) (a : Z) : Z := nth (Z.to_nat a) regs 0.

Lemma slice_bytes regs start n :
  0 <= start → 0 <= n → start + n <= Z.of_nat (length regs) →
  concat (be_store 2 <$> slice start n regs) = registers_bytes (sim_mem regs) start n.
Proof.
  intros Hst Hn Hle. unfold registers_bytes. f_equal.
  assert (slice start n regs = sim_mem regs <$> seqZ start n) as ->; [|by rewrite <-list_fmap_compose].
  apply list_eq. intros i. unfold slice. rewrite list_lookup_fmap.
  destruct (decide (i < Z.to_nat n)%nat) as [Hi|Hi].
  - rewrite lookup_take_lt, lookup_drop, lookup_seqZ_lt by lia. cbn [fmap option_fmap option_map].
    unfold sim_mem. rewrite nth_lookup.
    replace (Z.to_nat (start + Z.of_nat i)) with (Z.to_nat start + i)%nat by lia.
    destruct (lookup_lt_is_Some_2 regs (Z.to_nat start + i)) as [v ->]; [lia|done].
  - rewrite lookup_take_ge, lookup_seqZ_ge by lia. done.
Qed.

Lemma poll_answered plugin s cmd :
  protocol (stack plugin) = MODBUS_PROTOCOL_TCP → link_idle s (conn plugin) →
  rc_area cmd = MODBUS_AREA_HOLD_REGISTER → is_u8 (rc_slave_id cmd) →
  0 <= rc_start_address cmd → 1 <= rc_n_register cmd <= 127 →
  rc_start_address cmd + rc_n_register cmd <= 1000 →
  answers link_ops (protocol (stack plugin)) (conn plugin) (cmd_request (stack plugin) cmd)
    (cmd_response (stack plugin) cmd (sim_mem (hold_regs s))).
Proof.
  intros Hp Hl Ha Hsl Hst Hn Hle. unfold cmd_request, cmd_response. rewrite Hp, Ha.
  pose proof Hl as (_ & Hs & _). pose proof (so_hold s Hs) as Hh.
  set (r := ReadHolding (rc_start_address cmd) (rc_n_register cmd)).
  assert (Hserve : (serve s r).1 = [MODBUS_READ_HOLD_REG; Z.of_nat (length (registers_bytes
      (sim_mem (hold_regs s)) (rc_start_address cmd) (rc_n_register cmd)))] ++
    registers_bytes (sim_mem (hold_regs s)) (rc_start_address cmd) (rc_n_register cmd)).
  { cbn [serve r fst]. unfold serve_regs, in_range.
    destruct (Z.eqb_spec (rc_n_register cmd) 0); [lia|].
    destruct (Z.leb_spec (rc_start_address cmd + rc_n_register cmd) 1000); [|lia]. cbn [negb andb].
    rewrite slice_bytes, length_registers_bytes, u8_id by lia. do 2 f_equal. rewrite Z2Nat.id by lia. done. }
  unfold read_response. pose proof (link_answers (conn plugin) s (read_seq (stack plugin))
    (rc_slave_id cmd) r Hl) as Hans. rewrite Hserve in Hans. apply Hans; [|done]. split; lia.
Qed.

(** ** Writing *)

(** Receiving does not change the simulator. *)
Definition peer (l : sim_link) : sim_ctx_t * cycle_buf * list (list Z) :=
  (lk_sim l, lk_cb l, lk_answers l).

Lemma process_protocol_buf_peer plugin slave size :
  peer (conn (process_protocol_buf link_ops plugin slave size).2) = peer (conn plugin).
Proof. by apply process_protocol_buf_obs. Qed.

(** Bytes as words. *)
Lemma bytes_words n data :
  bytes_ok data → length data = (2 * n)%nat →
  ∃ vs, concat (be_store 2 <$> vs) = data ∧ Forall (λ v, is_u16 v) vs ∧ length vs = n.
Proof.
  revert data. induction n as [|n IH]; intros data Hok Hl.
  { destruct data; [|simpl in Hl; lia]. by exists []. }
  destruct data as [|a [|b data]]; [simpl in Hl; lia..|]. unfold bytes_ok in Hok.
  rewrite !Forall_cons in Hok. destruct Hok as (Ha & Hb & Hok). destruct (IH data) as (vs & Hc & Hu & Hlen); [done|simpl in Hl; lia|].
  exists (a * 256 + b :: vs). split; [|split; [constructor; [lia|done]|simpl; lia]].
  rewrite fmap_cons. cbn [concat]. rewrite Hc, be_store_2. cbn [app]. f_equal; [zlia|f_equal; zlia].
Qed.

(** The request of the protocol for a write of [vs]. *)
Definition write_request (start : Z) (vs : list Z) : modbus_request :=
  match vs with [v] => WriteHolding start v | _ => WriteHoldings start vs end.

Lemma write_request_pdu slave start vs :
  (0 < length vs <= 127)%nat →
  write_pdu slave start (Z.of_nat (length vs)) (concat (be_store 2 <$> vs)) =
    slave :: encode_request (write_request start vs).
Proof.
  intros Hl. unfold write_pdu, write_request. destruct vs as [|v [|w vs]]; [simpl in Hl; lia| |].
  - cbn [length fmap list_fmap concat encode_request]. by rewrite app_nil_r.
  - set (l := v :: w :: vs) in *. destruct (Z.eqb_spec (Z.of_nat (length l)) 1); [simpl in *; lia|].
    cbn [encode_request]. rewrite u8_id by lia. rewrite length_words, Nat2Z.inj_mul. done.
Qed.

Lemma write_request_wf start vs :
  is_u16 start → Forall (λ v, is_u16 v) vs → (length vs <= 127)%nat → request_wf (write_request start vs).
Proof.
  intros Hst Hvs Hl. unfold write_request. destruct vs as [|v [|w vs]]; cbn [request_wf];
    [split; [done|]; split; [done|lia]| |split; [done|]; split; [done|lia]].
  split; [done|]. by apply Forall_cons in Hvs as [Hv _].
Qed.

(** A write through the driver reaches the simulator and is answered with
    success, whatever the simulator thinks of it. *)
Lemma write_reaches plugin s req slave start n_reg bytes :
  is_server plugin = false → backup plugin = false → protocol (stack plugin) = MODBUS_PROTOCOL_TCP →
  polling plugin → link_idle s (conn plugin) → is_u8 slave → is_u16 start → 1 <= n_reg <= 121 →
  bytes_ok bytes → 2 * n_reg <= Z.of_nat (length bytes) →
  ∃ vs ret plugin', concat (be_store 2 <$> vs) = take (Z.to_nat (2 * n_reg)) bytes ∧
    Forall (λ v, is_u16 v) vs ∧ Z.of_nat (length vs) = n_reg ∧
    write_and_wait link_ops plugin req slave MODBUS_AREA_HOLD_REGISTER start n_reg bytes (2 * n_reg) true =
      Some (ret, plugin') ∧ 0 < ret ∧
    lk_sim (conn plugin') = (serve s (write_request start vs)).2 ∧ pending (lk_cb (conn plugin')) [] ∧
    lk_answers (conn plugin') = lk_answers (conn plugin) ++
      [frame_of MODBUS_PROTOCOL_TCP (write_seq (stack plugin)) (slave :: (serve s (write_request start vs)).1)] ∧
    config plugin' = config (with_stack (bump_write_seq (stack plugin)) plugin) ∧
    responses (out plugin') = responses (out plugin) ++ [(req, NEU_ERR_SUCCESS)] ∧
    undefined (out plugin') = undefined (out plugin).
Proof.
  intros Hsrv Hbk Hproto Hpoll Hl Hsl Hst Hn Hok Hlen.
  destruct (bytes_words (Z.to_nat n_reg) (take (Z.to_nat (2 * n_reg)) bytes)) as (vs & Hvs & Hu & Hvl);
    [auto with neuron|rewrite length_take; lia|].
  assert (Hreq : write_pdu slave start n_reg (take (Z.to_nat (2 * n_reg)) bytes) =
    slave :: encode_request (write_request start vs)).
  { rewrite <-Hvs, <-write_request_pdu by lia. f_equal. lia. }
  destruct (stack_write_frame (plugin_ops link_ops) (stack plugin) plugin req slave start n_reg bytes
    (2 * n_reg) 0 true) as (size & Hwrite); try done; [lia..|rewrite Hproto; unfold stack_buf_size; simpl; lia|].
  rewrite Hreq, Hproto in Hwrite.
  destruct (link_serves (conn plugin) s (write_seq (stack plugin)) slave (write_request start vs) Hl)
    as (l' & Hsend & Hsim & Hcb & _ & Hansw); [apply write_request_wf; [done..|lia]|done|].
  set (frame := frame_of MODBUS_PROTOCOL_TCP _ _) in *.
  assert (Hmsg : send_fn (plugin_ops link_ops) plugin frame =
    (Z.of_nat (length frame), with_conn l' (with_conn (link_clear (conn plugin)) plugin))).
  { cbn [send_fn plugin_ops]. unfold modbus_send_msg.
    cbn [neu_conn_clear_recv_buffer neu_conn_send link_ops conn with_conn is_server backup].
    rewrite Hsrv, Hbk. cbn [andb conn with_conn]. by rewrite Hsend. }
  assert (Hpos : 0 < Z.of_nat (length frame)).
  { unfold frame. rewrite length_frame_of. cbn [framing_room]. lia. }
  rewrite Hmsg in Hwrite. destruct (Z.gtb_spec (Z.of_nat (length frame)) 0); [|lia].
  unfold write_and_wait. rewrite Hwrite. cbn [mbind option_bind].
  destruct (Z.gtb_spec (Z.of_nat (length frame)) 0); [|lia].
  set (p1 := with_stack _ _).
  pose proof (process_protocol_buf_peer p1 slave size) as Hpeer.
  pose proof (process_protocol_buf_config link_ops p1 slave size) as Hcfg.
  pose proof (process_protocol_buf_responses link_ops p1 slave size) as Hresp.
  pose proof (process_protocol_buf_defined link_ops p1 slave size Hpoll) as Hdef.
  destruct (process_protocol_buf link_ops p1 slave size) as [r2 p2]. cbn [snd] in *.
  exists vs, (Z.of_nat (length frame)), p2. unfold peer in Hpeer.
  injection Hpeer as Hp1 Hp2 Hp3.
  split_and!; try done; [lia|by rewrite Hp1|by rewrite Hp2|by rewrite Hp3| |].
  - rewrite Hresp. unfold p1. cbn [out with_stack write_resp plugin_ops modbus_write_resp emit with_conn].
    by rewrite responses_app.
  - rewrite Hdef. unfold p1. cbn [out with_stack write_resp plugin_ops modbus_write_resp emit with_conn].
    unfold undefined. rewrite existsb_app. apply orb_false_r.
Qed.

(** Encoding keeps a value a value. *)
Lemma set_bytes_ok n z v : bytes_ok v → bytes_ok (mem_write 0 (le_store n z) v).
Proof. auto with neuron. Qed.
#[local] Hint Resolve set_bytes_ok : neuron.

Lemma convert_endianess_ok e v : bytes_ok v → bytes_ok (modbus_convert_endianess v e).
Proof.
  intros Hv. destruct e; cbn [modbus_convert_endianess];
    unfold set_u32, neu_ntohs_p; auto with neuron.
Qed.

Lemma convert_endianess_64_ok e v : bytes_ok v → bytes_ok (modbus_convert_endianess_64 v e).
Proof. intros Hv. destruct e; cbn [modbus_convert_endianess_64]; unfold set_u64; auto with neuron. Qed.
#[local] Hint Resolve convert_endianess_ok convert_endianess_64_ok : neuron.

(** [convert_value] encodes numbers as [cal_n_byte] does, as long as the option of
    the tag is that of the point. *)
Lemma convert_value_numeric e e64 tag p v :
  point_type p = Some (tag_type tag) → numeric_registers (tag_type tag) = Some (n_register p) →
  (n_register p = 4 → opt_value_default (tag_option tag) = opt_value_default (option_ p)) →
  bytes_ok v → length v = 264%nat →
  ∃ w, convert_value e e64 v tag p = Some (2 * n_register p, w) ∧
    cal_n_byte (point_type p) v (option_ p) e (opt_value_default (option_ p)) e64
      (opt_value_default (option_ p)) = Some (2 * n_register p, w) ∧ bytes_ok w ∧ length w = 264%nat.
Proof.
  intros Hty Hnum Hopt Hok Hlen.
  destruct (cal_n_byte_spec p v e (opt_value_default (option_ p)) e64 (opt_value_default (option_ p))
    (2 * n_register p)) as (w & Hcal & Hwl); [|done|].
  { unfold wire_bytes. rewrite Hty.
    destruct (tag_type tag); simplify_eq/=; f_equal; lia. }
  exists w. split; [|split; [done|split; [|done]]].
  - rewrite <-Hcal, Hty. unfold convert_value, cal_n_byte.
    destruct (tag_type tag); simplify_eq/=; try done; by rewrite Hopt by lia.
  - rewrite Hty in Hcal. unfold cal_n_byte in Hcal.
    destruct (tag_type tag); simplify_eq/=; unfold set_u16, set_u32, set_u64;
      apply set_bytes_ok; destruct (opt_value_default (option_ p)); auto with neuron.
Qed.

(** The value of a numeric tag as it is decoded from the bytes it is encoded in. *)
Lemma encoded_reads_back e e64 p ty v w :
  point_type p = Some ty → numeric_registers ty = Some (n_register p) →
  bytes_ok v → length v = 264%nat → bytes_ok w → length w = 264%nat →
  cal_n_byte (point_type p) v (option_ p) e (opt_value_default (option_ p)) e64
    (opt_value_default (option_ p)) = Some (2 * n_register p, w) →
  reference_value e e64 p (take (Z.to_nat (2 * n_register p)) w) =
    le_load (take (Z.to_nat (2 * n_register p)) v).
Proof.
  intros Hty Hnum Hok Hlen Hwok Hwl Hcal.
  destruct (codec_preserves e e64 p ty v) as (n & w' & r & Hcal' & _ & Hread & Htake);
    [done|by unfold is_numeric; rewrite Hnum|done|done|].
  rewrite Hcal in Hcal'. injection Hcal' as <- <-. rewrite <-Htake.
  set (wire := take (Z.to_nat (2 * n_register p)) w).
  assert (Hn : 0 <= 2 * n_register p <= 8) by (destruct ty; simplify_eq/=; lia).
  assert (Hwire : length wire = Z.to_nat (2 * n_register p)) by (unfold wire; rewrite length_take; lia).
  destruct (convert_read_reference e e64 p ty wire (replicate (264 - length wire) 0))
    as (v' & Hv' & Href); [done|done|by apply bytes_ok_take|done|].
  rewrite <-Href. rewrite <-(take_drop (Z.to_nat (2 * n_register p)) w) in Hread. fold wire in Hread.
  rewrite wire_value_app in Hread by lia. rewrite Hread in Hv'. injection Hv' as <-.
  unfold mem_read. by rewrite drop_0, Hwire.
Qed.

(** ** What the driver sees *)

(** A driver that is a TCP client of the simulator and polls holding registers
    that the simulator has. *)
Record polls_simulator plugin (s : sim_ctx_t) (gd : modbus_group_data) (cmd : modbus_read_cmd_t) : Prop := {
  ps_client : is_server plugin = false;
  ps_single : backup plugin = false;
  ps_tcp : protocol (stack plugin) = MODBUS_PROTOCOL_TCP;
  ps_seq : 0 <= read_seq (stack plugin) < 65535;
  ps_link : link_idle s (conn plugin);
  ps_current : current_cmd plugin = Some (gd, cmd);
  ps_area : rc_area cmd = MODBUS_AREA_HOLD_REGISTER;
  ps_slave : is_u8 (rc_slave_id cmd);
  ps_start : 0 <= rc_start_address cmd;
  ps_size : 1 <= rc_n_register cmd <= 127;
  ps_range : rc_start_address cmd + rc_n_register cmd <= 1000;
  ps_numeric : Forall numeric_point (rc_tags cmd);
}.

Lemma simulator_polled plugin s gd cmd g max_byte :
  polls_simulator plugin s gd cmd → cmd_planned max_byte cmd →
  ∃ plugin' g' ups, check_modbus_read_result link_ops plugin g cmd = Some (plugin', g', false) ∧
    out plugin' = out plugin ++ (EvUpdate <$> ups) ∧
    Forall2 (reports (endianess plugin) (endianess_64 plugin) (sim_mem (hold_regs s)) (gd_group gd))
      (rc_tags cmd) ups.
Proof.
  intros [] Hplan.
  destruct (command_answered link_ops plugin g cmd gd (sim_mem (hold_regs s)) max_byte)
    as (plugin' & g' & ups & Hchk & Hout & Hrep & _); try done.
  - by rewrite ps_area0.
  - by apply poll_answered.
  - by exists plugin', g', ups.
Qed.

(** The driver publishes what the simulator has.  When a driver of the gateway
    polls the simulator, through the frames of its own stack and the request
    handling of the simulator, the poll succeeds on the first transmission and
    publishes for every tag of the command, in order, the value that the tag's
    registers have in the simulator, in the byte order set for the tag. *)
Theorem poll_publishes_simulator plugin s gd cmd g max_byte :
  polls_simulator plugin s gd cmd → cmd_planned max_byte cmd →
  ∃ plugin' g' ups, check_modbus_read_result link_ops plugin g cmd = Some (plugin', g', false) ∧
    out plugin' = out plugin ++ (EvUpdate <$> ups) ∧
    Forall2 (reports (endianess plugin) (endianess_64 plugin) (sim_mem (hold_regs s)) (gd_group gd))
      (rc_tags cmd) ups.
Proof. apply simulator_polled. Qed.

(** What a write leaves of the driver. *)
Lemma config_polls plugin plugin' s s' gd cmd :
  config plugin' = config (with_stack (bump_write_seq (stack plugin)) plugin) →
  polls_simulator plugin s gd cmd → link_idle s' (conn plugin') → polls_simulator plugin' s' gd cmd ∧
  endianess plugin' = endianess plugin ∧ endianess_64 plugin' = endianess_64 plugin.
Proof.
  intros Hcfg [] Hl. unfold config in Hcfg. injection Hcfg as Hst Hgd Hci Hsrv _ Hbk He He64 _ _ _ _ _.
  cbn [stack plugin_group_data cmd_idx is_server backup endianess endianess_64 with_stack] in *.
  unfold bump_write_seq in Hst. rewrite ps_tcp0 in Hst. cbn [is_tcp] in Hst.
  split; [|done]. split; try done; try congruence.
  - by rewrite Hst.
  - by rewrite Hst.
  - unfold current_cmd in *. by rewrite Hgd, Hci.
Qed.

(** The registers after an accepted write. *)
Lemma serve_write_request s start vs :
  sim_ok s → 0 <= start → (0 < length vs)%nat → start + Z.of_nat (length vs) <= 1000 →
  existsb id (slice start (Z.of_nat (length vs)) (readonly_mask s)) = false →
  (serve s (write_request start vs)).2 = with_hold (list_inserts (Z.to_nat start) vs (hold_regs s)) s.
Proof.
  intros Hs Hst Hl Hle Hro. unfold write_request.
  assert (∀ n, n = Z.of_nat (length vs) → in_range start n = true) as Hin.
  { intros n ->. unfold in_range. destruct (Z.eqb_spec (Z.of_nat (length vs)) 0); [lia|].
    destruct (Z.leb_spec (start + Z.of_nat (length vs)) 1000); [done|lia]. }
  destruct vs as [|v [|w vs]]; [simpl in Hl; lia| |]; cbn [serve]; unfold serve_write.
  - rewrite Hin by done. change (Z.of_nat (length [v])) with 1 in Hro. by rewrite Hro.
  - rewrite Hin by done. by rewrite Hro.
Qed.

(** A write that meets a register of a tag of the simulator. *)
Lemma refused_write_request s start vs :
  start + Z.of_nat (length vs) <= 1000 →
  existsb id (slice start (Z.of_nat (length vs)) (readonly_mask s)) = true →
  serve s (write_request start vs) =
    (exception (if Z.of_nat (length vs) =? 1 then MODBUS_WRITE_S_HOLD_REG else MODBUS_WRITE_M_HOLD_REG) 0x03, s).
Proof.
  intros Hle Hro. unfold write_request.
  assert (∀ n, n = Z.of_nat (length vs) → 0 < n → in_range start n = true) as Hin.
  { intros n -> Hpos. unfold in_range. destruct (Z.eqb_spec (Z.of_nat (length vs)) 0); [lia|].
    destruct (Z.leb_spec (start + Z.of_nat (length vs)) 1000); [done|lia]. }
  destruct vs as [|v [|w vs]]; [done| |]; cbn [serve]; unfold serve_write.
  - rewrite Hin by done. change (Z.of_nat (length [v])) with 1 in Hro. by rewrite Hro.
  - rewrite Hin by (cbn [length]; lia). rewrite Hro. cbn [negb].
    destruct (Z.eqb_spec (Z.of_nat (length (v :: w :: vs))) 1) as [E|]; [cbn [length] in E; lia|done].
Qed.

Lemma inserted_bytes regs start vs :
  0 <= start → start + Z.of_nat (length vs) <= Z.of_nat (length regs) →
  registers_bytes (sim_mem (list_inserts (Z.to_nat start) vs regs)) start (Z.of_nat (length vs)) =
    concat (be_store 2 <$> vs).
Proof.
  intros Hst Hle. rewrite <-slice_bytes by (rewrite ?length_inserts; lia). do 2 f_equal.
  unfold slice. rewrite Nat2Z.id. apply list_eq. intros i.
  destruct (decide (i < length vs)%nat) as [Hi|Hi].
  - rewrite lookup_take_lt, lookup_drop by lia. rewrite list_lookup_inserts by lia.
    f_equal. lia.
  - rewrite lookup_take_ge, lookup_ge_None_2 by lia. done.
Qed.

Lemma with_inserted_ok s start vs :
  sim_ok s → Forall (λ v, is_u16 v) vs → sim_ok (with_hold (list_inserts start vs (hold_regs s)) s).
Proof.
  intros [] Hvs. constructor; cbn [with_hold coil_bits input_bits hold_regs input_regs readonly_mask
    sim_tag_type sim_tag_name sim_tag_addr]; try done.
  - by rewrite length_inserts.
  - by apply Forall_inserts.
Qed.

(** Numbers have no bit number. *)
Lemma numeric_bit_ok p : numeric_point p → bit_ok p.
Proof. intros (_ & ty & Hty & Hn) Hbit. rewrite Hty in Hbit. injection Hbit as ->. done. Qed.

Lemma polls_polling plugin s gd cmd : polls_simulator plugin s gd cmd → polling plugin.
Proof.
  intros []. exists gd, cmd. split; [done|]. eapply Forall_impl; [done|]. apply numeric_bit_ok.
Qed.

(** A write of a tag of the command, up to what the simulator makes of it. *)
Lemma write_tag_reaches plugin s gd cmd req tag p v :
  polls_simulator plugin s gd cmd →
  modbus_tag_to_point tag point_zero (address_base plugin) = (NEU_ERR_SUCCESS, p) →
  area p = MODBUS_AREA_HOLD_REGISTER → numeric_registers (tag_type tag) = Some (n_register p) →
  (n_register p = 4 → opt_value_default (tag_option tag) = opt_value_default (option_ p)) →
  bytes_ok v → length v = 264%nat →
  ∃ vs ret plugin1, modbus_write_tag link_ops plugin req tag v = Some (ret, plugin1) ∧
    Forall (λ w, is_u16 w) vs ∧ Z.of_nat (length vs) = n_register p ∧
    reference_value (endianess plugin) (endianess_64 plugin) p (concat (be_store 2 <$> vs)) =
      le_load (take (Z.to_nat (2 * n_register p)) v) ∧
    lk_sim (conn plugin1) = (serve s (write_request (start_address p) vs)).2 ∧
    pending (lk_cb (conn plugin1)) [] ∧
    lk_answers (conn plugin1) = lk_answers (conn plugin) ++
      [frame_of MODBUS_PROTOCOL_TCP (write_seq (stack plugin))
         (slave_id p :: (serve s (write_request (start_address p) vs)).1)] ∧
    config plugin1 = config (with_stack (bump_write_seq (stack plugin)) plugin) ∧
    responses (out plugin1) = responses (out plugin) ++ [(req, NEU_ERR_SUCCESS)] ∧
    undefined (out plugin1) = undefined (out plugin).
Proof.
  intros Hps Hp Har Hnum Hopt Hok Hlen. pose proof (polls_polling _ _ _ _ Hps) as Hpoll.
  destruct Hps. destruct (tag_to_point_wf _ _ _ Hp) as ([Hsl Hst _ _] & Hty & _).
  destruct (convert_value_numeric (endianess plugin) (endianess_64 plugin) tag p v)
    as (w & Hconv & Hcal & Hwok & Hwl); [done..|].
  assert (Hn : 1 <= n_register p <= 4) by (destruct (tag_type tag); simplify_eq/=; lia).
  destruct (write_reaches plugin s req (slave_id p) (start_address p) (n_register p) (take 256 w))
    as (vs & ret & plugin1 & Hvs & Hvu & Hvl & Hw & Hret & Hsim & Hcb & Hansw & Hcfg & Hresp & Hdef); try done;
    [lia|auto with neuron|rewrite length_take; lia|].
  exists vs, ret, plugin1. split_and!; try done.
  - unfold modbus_write_tag. rewrite Hp. change (negb (NEU_ERR_SUCCESS =? 0)) with false. cbv iota.
    rewrite Hconv. cbn [mbind option_bind]. unfold write_modbus_point. by rewrite Har.
  - rewrite Hvs, take_take, Nat.min_l by lia. by apply (encoded_reads_back _ _ p (tag_type tag)).
Qed.

(** C9: What is written is polled. For a driver that is a single TCP client of the
    simulator and polls a planned command of numeric tags on holding registers (16-,
    32- and 64-bit integers, float and double; [numeric_point]), with the sequence
    number of its reads below 65535 ([polls_simulator]; the wrap is the subject of
    [stack_recv_seq_wrap]): a number written through the driver to registers that no
    tag of the simulator owns (a 64-bit tag with the byte order option of its point)
    is answered with success, and the next poll of the command publishes it: the
    bytes of the written value, whatever the byte orders set; nothing undefined
    happens on the way. *)
Theorem written_value_is_polled plugin s gd cmd g max_byte req tag p v :
  polls_simulator plugin s gd cmd → cmd_planned max_byte cmd →
  modbus_tag_to_point tag point_zero (address_base plugin) = (NEU_ERR_SUCCESS, p) → p ∈ rc_tags cmd →
  (n_register p = 4 → opt_value_default (tag_option tag) = opt_value_default (option_ p)) →
  existsb id (slice (start_address p) (n_register p) (readonly_mask s)) = false →
  bytes_ok v → length v = 264%nat →
  ∃ ret plugin1 plugin2 g' ups u,
    modbus_write_tag link_ops plugin req tag v = Some (ret, plugin1) ∧
    responses (out plugin1) = responses (out plugin) ++ [(req, NEU_ERR_SUCCESS)] ∧
    check_modbus_read_result link_ops plugin1 g cmd = Some (plugin2, g', false) ∧
    out plugin2 = out plugin1 ++ (EvUpdate <$> ups) ∧ u ∈ ups ∧ up_tag u = Some (point_name p) ∧
    le_load (mem_read 0 (Z.to_nat (2 * n_register p)) (dvalue_value (up_value u))) =
      le_load (take (Z.to_nat (2 * n_register p)) v) ∧
    undefined (out plugin2) = undefined (out plugin).
Proof.
  intros Hps Hplan Hp Hin Hopt Hro Hok Hlen. pose proof Hps as [].
  destruct (tag_to_point_wf _ _ _ Hp) as ([_ Hst Hcount _] & Hty & _).
  pose proof Hplan as [_ Hinside _ _]. rewrite Forall_forall in Hinside.
  destruct (Hinside p Hin) as (_ & Har & Hlo & Hhi). rewrite Forall_forall in ps_numeric0.
  destruct (ps_numeric0 p Hin) as (_ & ty & Hty' & Hnum). assert (ty = tag_type tag) as -> by congruence.
  destruct (write_tag_reaches plugin s gd cmd req tag p v) as
    (vs & ret & plugin1 & Hw & Hvu & Hvl & Hval & Hsim & Hcb & _ & Hcfg & Hresp & Hdef); try done; [congruence|].
  pose proof ps_link0 as (_ & Hs & _). pose proof (so_hold s Hs) as Hh.
  rewrite serve_write_request in Hsim by (rewrite ?Hvl; done || lia).
  set (regs := list_inserts _ vs _) in Hsim.
  destruct (config_polls plugin plugin1 s (with_hold regs s) gd cmd Hcfg Hps) as (Hps1 & He & He64).
  { split; [done|]. split; [by apply with_inserted_ok|done]. }
  destruct (simulator_polled plugin1 _ gd cmd g max_byte Hps1 Hplan) as (plugin2 & g' & ups & Hchk & Hout & Hrep).
  apply list_elem_of_lookup in Hin as [i Hi].
  destruct (Forall2_lookup_l _ _ _ _ _ Hrep Hi) as (u & Hu & _ & Htag & _ & Hle).
  exists ret, plugin1, plugin2, g', ups, u. split_and!; try done;
    [by eapply list_elem_of_lookup_2| |by rewrite Hout, undefined_updates].
  rewrite Hle, He, He64, <-Hval. cbn [hold_regs with_hold]. unfold regs. rewrite <-Hvl.
  by rewrite inserted_bytes by lia.
Qed.

(** C31: A refused write is reported as done. For a driver that is a single TCP
    client of the simulator and polls it with a read sequence number below 65535
    ([polls_simulator]) and a numeric tag (a 64-bit one with the byte order option
    of its point) on holding registers, all within the range of the simulator, one
    of which belongs to a tag of the simulator: the simulator keeps its registers
    and sends exactly one answer, the exception 3 to the function of the write, and
    the driver reports success: it answers the request when the frame is sent and
    ignores what comes back. *)
Theorem refused_write_reported_done plugin s gd cmd req tag p v :
  polls_simulator plugin s gd cmd →
  modbus_tag_to_point tag point_zero (address_base plugin) = (NEU_ERR_SUCCESS, p) →
  area p = MODBUS_AREA_HOLD_REGISTER → numeric_registers (tag_type tag) = Some (n_register p) →
  (n_register p = 4 → opt_value_default (tag_option tag) = opt_value_default (option_ p)) →
  start_address p + n_register p <= 1000 →
  existsb id (slice (start_address p) (n_register p) (readonly_mask s)) = true →
  bytes_ok v → length v = 264%nat →
  ∃ ret plugin1, modbus_write_tag link_ops plugin req tag v = Some (ret, plugin1) ∧
    lk_sim (conn plugin1) = s ∧
    lk_answers (conn plugin1) = lk_answers (conn plugin) ++
      [frame_of MODBUS_PROTOCOL_TCP (write_seq (stack plugin))
         (slave_id p :: exception (if n_register p =? 1 then MODBUS_WRITE_S_HOLD_REG
                                   else MODBUS_WRITE_M_HOLD_REG) 0x03)] ∧
    responses (out plugin1) = responses (out plugin) ++ [(req, NEU_ERR_SUCCESS)] ∧
    undefined (out plugin1) = undefined (out plugin).
Proof.
  intros Hps Hp Har Hnum Hopt Hle Hro Hok Hlen.
  destruct (write_tag_reaches plugin s gd cmd req tag p v) as
    (vs & ret & plugin1 & Hw & _ & Hvl & _ & Hsim & _ & Hansw & _ & Hresp & Hdef); try done.
  rewrite refused_write_request in Hsim, Hansw; [|by rewrite ?Hvl..].
  rewrite Hvl in Hansw. by exists ret, plugin1.
Qed.

(** ** Concrete runs *)

Definition demo_write_tag : neu_datatag_t := example_tag NEU_TYPE_UINT32 "1!400012" 3.
Definition demo_point : modbus_point_t :=
  (modbus_tag_to_point demo_write_tag point_zero base_1).2.
Definition demo_read_cmd : modbus_read_cmd_t := {|
  rc_slave_id := 1; rc_area := MODBUS_AREA_HOLD_REGISTER; rc_start_address := 11; rc_n_register := 2;
  rc_tags := [demo_point] |}.
Definition demo_gd : modbus_group_data := {|
  gd_group := "g"; gd_tags := [demo_point]; gd_cmds := [demo_read_cmd]; gd_address_base := base_1 |}.
Definition demo_driver : neu_plugin sim_link unit := {|
  conn := {| lk_sim := demo_sim; lk_cb := cycle_buf_zero; lk_stream := []; lk_answers := [] |};
  stack := modbus_stack_create MODBUS_PROTOCOL_TCP;
  plugin_group_data := Some demo_gd; cmd_idx := 0; is_server := false; client_fd := 0;
  endianess := MODBUS_CDAB; endianess_64 := MODBUS_LL; address_base := base_1;
  max_retries := 2; plugin_check_header := true; degradation := true; degrade_cycle := 2;
  backup := false; current_backup := false; first_attempt_done := false;
  param := (); param_backup := (); out := [] |}.

Lemma demo_point_ok : numeric_point demo_point.
Proof.
  split; [split; vm_compute; try done; split; congruence|].
  exists NEU_TYPE_UINT32. split; reflexivity.
Qed.

Lemma demo_polls : polls_simulator demo_driver demo_sim demo_gd demo_read_cmd.
Proof.
  split; try reflexivity; try (cbn; lia).
  - split; [reflexivity|]. split; [exact demo_sim_ok|exact pending_zero].
  - constructor; [exact demo_point_ok|constructor].
Qed.

Lemma demo_planned : cmd_planned 250 demo_read_cmd.
Proof.
  split; cbn [rc_tags rc_slave_id rc_area rc_start_address rc_n_register demo_read_cmd is_bit_area].
  - done.
  - repeat constructor; vm_compute; congruence.
  - intros a Ha. exists demo_point. split; [by left|].
    change (start_address demo_point) with 11. change (n_register demo_point) with 2. lia.
  - left. lia.
Qed.

Lemma poll_publishes_simulator_witness :
  ∃ plugin' g' ups, check_modbus_read_result link_ops demo_driver slave_state_zero demo_read_cmd =
      Some (plugin', g', false) ∧ out plugin' = [] ++ (EvUpdate <$> ups) ∧
    Forall2 (reports MODBUS_CDAB MODBUS_LL (sim_mem (hold_regs demo_sim)) "g") [demo_point] ups.
Proof.
  apply (poll_publishes_simulator demo_driver demo_sim demo_gd demo_read_cmd slave_state_zero 250);
    [exact demo_polls|exact demo_planned].
Defined.

Definition demo_value : neu_value_u := set_u32 0x12345678 value_zero.

Lemma demo_value_ok : bytes_ok demo_value.
Proof. apply mem_write_ok; [apply le_store_ok|apply bytes_ok_replicate; lia]. Qed.

Lemma written_value_is_polled_witness :
  ∃ ret plugin1 plugin2 g' ups u,
    modbus_write_tag link_ops demo_driver 9 demo_write_tag demo_value = Some (ret, plugin1) ∧
    responses (out plugin1) = [] ++ [(9, NEU_ERR_SUCCESS)] ∧
    check_modbus_read_result link_ops plugin1 slave_state_zero demo_read_cmd =
      Some (plugin2, g', false) ∧
    out plugin2 = out plugin1 ++ (EvUpdate <$> ups) ∧ u ∈ ups ∧ up_tag u = Some (point_name demo_point) ∧
    le_load (mem_read 0 4 (dvalue_value (up_value u))) = le_load (take 4 demo_value) ∧
    undefined (out plugin2) = false.
Proof.
  apply (written_value_is_polled demo_driver demo_sim demo_gd demo_read_cmd slave_state_zero 250 9
    demo_write_tag demo_point demo_value);
    [exact demo_polls|exact demo_planned|reflexivity|by left|done|reflexivity|exact demo_value_ok|reflexivity].
Defined.

(** The register of the saw. *)
Definition demo_saw_tag : neu_datatag_t := example_tag NEU_TYPE_UINT16 "1!400009" 3.

Lemma refused_write_reported_done_witness :
  ∃ ret plugin1, modbus_write_tag link_ops demo_driver 9 demo_saw_tag demo_value = Some (ret, plugin1) ∧
    lk_sim (conn plugin1) = demo_sim ∧
    lk_answers (conn plugin1) =
      [] ++ [frame_of MODBUS_PROTOCOL_TCP 0 (1 :: exception MODBUS_WRITE_S_HOLD_REG 0x03)] ∧
    responses (out plugin1) = [] ++ [(9, NEU_ERR_SUCCESS)] ∧ undefined (out plugin1) = false.
Proof.
  apply (refused_write_reported_done demo_driver demo_sim demo_gd demo_read_cmd 9 demo_saw_tag
    (modbus_tag_to_point demo_saw_tag point_zero base_1).2 demo_value);
    [exact demo_polls|reflexivity..|vm_compute; congruence|vm_compute; congruence|reflexivity|exact demo_value_ok|reflexivity].
Defined.
