(* ===== verification/SimulatorStore.v ===== *)
(** * The life of the simulator and its stored configuration

    simulator/modbus_tcp_simulator.c: initialisation, start and stop, the row of
    the database that keeps the tags and whether the simulator runs, and the
    answers about status and tags; plugins/restful/simulator_handle.c: the request
    that configures the tags.  The JSON library is the class [Json]; opening a
    socket, and whether a text is an address of the network, are arguments.  What
    SQLite is asked for succeeds. *)

From Stdlib Require Import Ascii.
From S2P Require Import Prelude CStd NeuTypes Modbus Simulator.

Definition NEU_ERR_PORT_IN_USE : Z := 1023.
Definition NEU_ERR_PARAM_IS_WRONG : Z := 1003.

(** ** JSON

    The functions of the library that are called.  [json_t] are values without
    real numbers.  [json_array] stands for [json_array ()] with its
    [json_array_append_new], [json_object] for [json_object ()] with its
    [json_object_set_new]; [json_string] is NULL for a text that is not UTF-8;
    [json_array_elements], [json_string_value] and [json_integer_value] are [None]
    for values of other types. *)
Class Json := {
  json_t : Type;
  json_array : list json_t → json_t;
  json_object : list (string * json_t) → json_t;
  json_string : string → option json_t;
  json_integer : Z → json_t;
  json_array_elements : json_t → option (list json_t);
  json_is_object : json_t → bool;
  json_object_get : json_t → string → option json_t;
  json_string_value : json_t → option string;
  json_integer_value : json_t → option Z;
  json_dumps : json_t → option string;
  json_loads : string → option json_t;
}.

(** What the library documents. *)
Class JsonOk `(Json) : Prop := {
  elements_array l : json_array_elements (json_array l) = Some l;
  is_object_object l : json_is_object (json_object l) = true;
  get_object l k : NoDup l.*1 → json_object_get (json_object l) k = (list_to_map l : gmap string json_t) !! k;
  value_string s j : json_string s = Some j → json_string_value j = Some s;
  value_integer z : - 2 ^ 63 <= z < 2 ^ 63 → json_integer_value (json_integer z) = Some z;
  dumps_array l : ∃ s, json_dumps (json_array l) = Some s ∧ s ≠ EmptyString ∧
    json_loads s = Some (json_array l);
}.

Section store.
Context `{JS : Json}.

(** ** The stored configuration *)

(** The row of [modbus_tcp_simulator] without the time. *)
Record sim_row := { row_enabled : Z; row_tags_json : string }.

(** [neu_persister_get_db]: [None] before the database is opened; inside, the row
    if there is one. *)
Definition sim_db : Type := option (option sim_row).

(** The members whose value the library accepts. *)
Definition set_new (k : string) (j : option json_t) : list (string * json_t) :=
  match j with Some j => [(k, j)] | None => [] end.

(** One element of the array. *)
Definition tag_object (name addr : string) (idx tp : Z) : json_t :=
  json_object (set_new "name" (json_string name) ++ set_new "address" (json_string addr) ++
               [("index"%string, json_integer idx); ("type"%string, json_integer tp)]).

(** The loop from [idx] on; [n] bounds the rounds. *)
Fixpoint build_tags (n : nat) (s : sim_ctx_t) (idx : Z) : option (list json_t) :=
  match n with
  | O => Some []
  | S n =>
      if negb (idx <? SIM_MAX_REGS) then Some [] else
      tp ← array_get (sim_tag_type s) idx;
      if tp =? NEU_SIM_TAG_NONE then build_tags n s (idx + 1) else
      name ← array_get (sim_tag_name s) idx;
      addr ← array_get (sim_tag_addr s) idx;
      let obj := tag_object (default EmptyString name) (default EmptyString addr) idx tp in
      let next := if (tp =? NEU_SIM_TAG_SINE) && (idx + 1 <? SIM_MAX_REGS) then idx + 2 else idx + 1 in
      objs ← build_tags n s next;
      Some (obj :: objs)
  end.

(** The array, and its text or NULL. *)
Definition sim_build_tags_json_unlocked (s : sim_ctx_t) : option (option string) :=
  objs ← build_tags (Z.to_nat SIM_MAX_REGS) s 0; Some (json_dumps (json_array objs)).

Definition sim_persist_save (s : sim_ctx_t) (db : sim_db) : option sim_db :=
  match db with
  | None => Some None
  | Some _ =>
      tags ← sim_build_tags_json_unlocked s;
      Some (Some (Some {| row_enabled := if running s then 1 else 0;
                          row_tags_json := default "[]"%string tags |}))
  end.

Definition neu_modbus_simulator_config_tags (tags : list sim_tag) (s : sim_ctx_t) (db : sim_db)
    : option (sim_ctx_t * sim_db) :=
  s ← config_tags tags s;
  db ← sim_persist_save s db;
  Some (s, db).

(** ** Start and stop *)

Section network.
(** [inet_pton] of [is_ipv4] and [is_ipv6]. *)
Context (is_ipv4 is_ipv6 : string → bool).

(** [strncpy] into the 64 bytes of [ip]. *)
Definition copy_ip (ip : string) : string := cstr_trunc 63 ip.

(** The argument [ip]: the simulator's own buffer, or another text or NULL. *)
Inductive ip_arg := IpOwn | IpText (ip : option string).

(** The address to listen on. *)
Definition start_ip (arg : ip_arg) (s : sim_ctx_t) : string :=
  let ip := match arg with
            | IpOwn => if decide (sim_ip s = EmptyString) then SIM_DEFAULT_IP else sim_ip s
            | IpText (Some ip) => if decide (ip = EmptyString) then SIM_DEFAULT_IP else copy_ip ip
            | IpText None => SIM_DEFAULT_IP
            end in
  if is_ipv4 ip || is_ipv6 ip then ip else SIM_DEFAULT_IP.

(** [lfd] is what [neu_conn_fd] gives for the new connection. *)
Definition neu_modbus_simulator_start (arg : ip_arg) (port lfd : Z) (s : sim_ctx_t) (db : sim_db)
    : option (Z * sim_ctx_t * sim_db) :=
  if running s then Some (0, s, db) else
  let ip := start_ip arg s in
  let port := if port >? 0 then port else sim_port s in
  if lfd <=? 0 then Some (-1, with_status false ip port NEU_ERR_PORT_IN_USE s, db) else
  let s := with_status true ip port 0 s in
  db ← sim_persist_save s db;
  Some (0, s, db).

(** The clients are closed as well. *)
Definition sim_do_stop (persist : bool) (slots : list (Z * Z)) (s : sim_ctx_t) (db : sim_db)
    : option (list (Z * Z) * sim_ctx_t * sim_db) :=
  if negb (running s) then Some (slots, s, db) else
  let slots := (clean_client slots).2 in
  let s := with_status false (sim_ip s) (sim_port s) (last_error_code s) s in
  db ← (if persist then sim_persist_save s db else Some db);
  Some (slots, s, db).

Definition neu_modbus_simulator_stop := sim_do_stop true.

(** ** Initialisation *)

(** [g_sim] filled with zeros. *)
Definition sim_memset : sim_ctx_t := {|
  running := false; sim_ip := EmptyString; sim_port := 0;
  coil_bits := replicate 1000 0; input_bits := replicate 1000 0;
  hold_regs := replicate 1000 0; input_regs := replicate 1000 0;
  readonly_mask := replicate 1000 false; sim_tag_type := replicate 1000 0;
  sim_tag_name := replicate 1000 None; sim_tag_addr := replicate 1000 None;
  sim_tag_count := 0; last_error_code := 0 |}.

(** The settings [ip] and [port] of the object [sim]. *)
Definition config_ip (sim : json_t) (ip : string) : string :=
  match json_object_get sim "ip" ≫= json_string_value with
  | Some cfg => if negb (bool_decide (cfg = EmptyString)) && (is_ipv4 cfg || is_ipv6 cfg)
                then copy_ip cfg else SIM_DEFAULT_IP
  | None => ip
  end.
Definition config_port (sim : json_t) (port : Z) : Z :=
  match json_object_get sim "port" ≫= json_integer_value with
  | Some z => let p := s32 z in if (p >? 0) && (p <? 65536) then p else port
  | None => port
  end.

(** [root] is the parsed configuration file, if there is one. *)
Definition neu_modbus_simulator_init (root : option json_t) : sim_ctx_t :=
  let s := with_status false SIM_DEFAULT_IP SIM_DEFAULT_PORT 0 sim_memset in
  let s := sim_reset_regs_unlocked s in
  match root with
  | None => s
  | Some root =>
      let sim := match json_object_get root "modbus_simulator" with
                 | Some sim => Some sim
                 | None => json_object_get root "simulator"
                 end in
      match sim with
      | Some sim => if json_is_object sim
                    then with_status false (config_ip sim (sim_ip s)) (config_port sim (sim_port s)) 0 s
                    else s
      | None => s
      end
  end.

(** ** Loading *)

(** One element of the stored array. *)
Definition tag_of_json (obj : json_t) : option sim_tag :=
  if negb (json_is_object obj) then None else
  jidx ← json_object_get obj "index";
  z ← json_integer_value jidx;
  jtype ← json_object_get obj "type";
  let idx := u16 z in
  let tpv := match json_integer_value jtype with Some t => u32 t | None => 0 end in
  if idx >=? SIM_MAX_REGS then None else
  Some {| st_name := Some (default EmptyString (json_object_get obj "name" ≫= json_string_value));
          st_addr := Some (default EmptyString (json_object_get obj "address" ≫= json_string_value));
          st_index := idx; st_type := tpv |}.

(** The tags of the row. *)
Definition stored_tags (text : string) : list sim_tag :=
  if decide (text = EmptyString) then [] else
  match json_loads text ≫= json_array_elements with
  | Some arr => omap tag_of_json arr
  | None => []
  end.

Definition sim_persist_load_and_apply (lfd : Z) (s : sim_ctx_t) (db : sim_db)
    : option (sim_ctx_t * sim_db) :=
  match db with
  | Some (Some row) =>
      let tags := stored_tags (row_tags_json row) in
      '(s, db) ← (match tags with
                  | [] => Some (s, db)
                  | _ => neu_modbus_simulator_config_tags tags s db
                  end);
      if row_enabled row =? 0 then Some (s, db) else
      '(_, s, db) ← neu_modbus_simulator_start IpOwn (sim_port s) lfd s db;
      Some (s, db)
  | _ => Some (s, db)
  end.
End network.

(** ** Answers *)

Record neu_modbus_simulator_status_t := {
  status_running : bool;
  status_ip : string;
  status_port : Z;
  status_tag_count : Z;
  status_error : Z;
}.
Definition neu_modbus_simulator_get_status (s : sim_ctx_t) : neu_modbus_simulator_status_t := {|
  status_running := running s; status_ip := copy_ip (sim_ip s); status_port := sim_port s;
  status_tag_count := sim_tag_count s; status_error := last_error_code s |}.

Definition type_name (tp : Z) : string :=
  if tp =? NEU_SIM_TAG_SINE then "sine" else if tp =? NEU_SIM_TAG_SAW then "saw"
  else if tp =? NEU_SIM_TAG_SQUARE then "square" else if tp =? NEU_SIM_TAG_RANDOM then "random" else "".

(** One round of the loop: nothing for a register without a tag. *)
Definition list_tag (s : sim_ctx_t) (addr : Z) : option (list json_t) :=
  tp ← array_get (sim_tag_type s) addr;
  if tp =? NEU_SIM_TAG_NONE then Some [] else
  name ← array_get (sim_tag_name s) addr;
  addr_str ← array_get (sim_tag_addr s) addr;
  Some [json_object (set_new "type" (json_string (type_name tp)) ++
                     set_new "name" (json_string (default EmptyString name)) ++
                     set_new "address" (json_string (default EmptyString addr_str)))].
Definition neu_modbus_simulator_list_tags_json (s : sim_ctx_t) : option (option string) :=
  objs ← mapM (list_tag s) (seqZ 0 SIM_MAX_REGS);
  Some (json_dumps (json_object [("tags"%string, json_array (concat objs))])).

(** *** The driver that reads the simulator

    The document has one node with one group; here are its parameters and tags. *)

Record export_tag_t := { ex_name : string; ex_address : string; ex_type : neu_type_e; ex_attribute : Z }.

Definition export_host (s : sim_ctx_t) : string :=
  if decide (sim_ip s = SIM_DEFAULT_IP) then "127.0.0.1"%string
  else if decide (sim_ip s = EmptyString) then "127.0.0.1"%string else sim_ip s.
Definition export_params (s : sim_ctx_t) : list (string * Z) :=
  [("port", sim_port s); ("address_base", 1); ("backup_port", 502); ("check_header", 0);
   ("connection_mode", 0); ("degrade_cycle", 2); ("degrade_time", 600); ("device_degrade", 0);
   ("endianess", 1); ("interval", 20); ("max_retries", 0); ("retry_interval", 0);
   ("timeout", 3000)]%string.

Definition export_type (tp : Z) : neu_type_e :=
  if tp =? NEU_SIM_TAG_SINE then NEU_TYPE_FLOAT else NEU_TYPE_INT16.
Definition export_type_name (tp : Z) : string :=
  if decide (type_name tp = EmptyString) then "p" else type_name tp.
Definition export_tag (s : sim_ctx_t) (addr tp : Z) : option export_tag_t :=
  name ← array_get (sim_tag_name s) addr;
  addr_str ← array_get (sim_tag_addr s) addr;
  Some {| ex_name := default ("sim_" +:+ export_type_name tp +:+ "_" +:+ print_dec addr)%string name;
          ex_address := default ("1!4" +:+ print_dec (addr + 1))%string addr_str;
          ex_type := export_type tp; ex_attribute := NEU_ATTRIBUTE_READ |}.

(** The loop from [addr] on; [n] bounds the rounds. *)
Fixpoint export_tags (n : nat) (s : sim_ctx_t) (addr : Z) : option (list export_tag_t) :=
  match n with
  | O => Some []
  | S n =>
      if negb (addr <? SIM_MAX_REGS) then Some [] else
      tp ← array_get (sim_tag_type s) addr;
      if tp =? NEU_SIM_TAG_NONE then export_tags n s (addr + 1) else
      t ← export_tag s addr tp;
      ts ← export_tags n s (if tp =? NEU_SIM_TAG_SINE then addr + 2 else addr + 1);
      Some (t :: ts)
  end.

(** ** The request that configures the tags *)

(** [strstr (s, "!4")], and behind the match. *)
Fixpoint after_hold_mark (s : string) : option string :=
  match s with
  | String c s' =>
      match s' with
      | String c' s'' =>
          if decide (c = "!"%char ∧ c' = "4"%char) then Some s'' else after_hold_mark s'
      | EmptyString => None
      end
  | EmptyString => None
  end.

Definition extract_hold_start_from_addr (addr_str : string) : option Z :=
  p ← after_hold_mark addr_str;
  match p with
  | String c rest =>
      d ← digit_of c;
      let v := strtol_value false (scan_digits d rest).1 in
      if (v <=? 0) || (v >? 65535) then None else Some (u16 (v - 1))
  | EmptyString => None
  end.

Definition tag_type_of_json (jtype : json_t) : Z :=
  match json_string_value jtype with
  | Some ts => if decide (ts = "sine") then NEU_SIM_TAG_SINE
               else if decide (ts = "saw") then NEU_SIM_TAG_SAW
               else if decide (ts = "square") then NEU_SIM_TAG_SQUARE
               else if decide (ts = "random") then NEU_SIM_TAG_RANDOM else NEU_SIM_TAG_NONE
  | None => match json_integer_value jtype with Some z => u32 z | None => NEU_SIM_TAG_NONE end
  end.

(** One element of the array [tags]. *)
Definition config_tag_of_json (obj : json_t) : option sim_tag :=
  if negb (json_is_object obj) then None else
  jaddr ← json_object_get obj "address";
  addr_str ← json_string_value jaddr;
  jtype ← json_object_get obj "type";
  idx0 ← extract_hold_start_from_addr addr_str;
  let tp := tag_type_of_json jtype in
  if (tp =? NEU_SIM_TAG_NONE) || (idx0 >=? 1000) then None else
  Some {| st_name := Some (default EmptyString (json_object_get obj "name" ≫= json_string_value));
          st_addr := Some addr_str; st_index := idx0; st_type := tp |}.

(** The body of the request; the answer is [NEU_ERR_PARAM_IS_WRONG] or 0. *)
Definition handle_simulator_set_config (body : string) (s : sim_ctx_t) (db : sim_db)
    : option (Z * sim_ctx_t * sim_db) :=
  match (root ← json_loads body; tags ← json_object_get root "tags"; json_array_elements tags) with
  | None => Some (NEU_ERR_PARAM_IS_WRONG, s, db)
  | Some tags =>
      '(s, db) ← neu_modbus_simulator_config_tags (omap config_tag_of_json tags) s db;
      Some (0, s, db)
  end.
End store.
