(* ===== verification/SimulatorLife.v ===== *)
(** * The simulator across restarts

    The tags of the simulator and whether it runs are kept in a row of the
    database; the next start of the process reads them back.  [tidy] is a
    simulator whose tags do not overlap; [sim_life] are the histories of starts,
    stops, configurations, clients, the generator and restarts. *)

From Stdlib Require Import SpecFloat Ascii.
From S2P Require Import Prelude NeuTypes Modbus Simulator SimulatorOk SimulatorStore.

(** ** Configuring one tag *)

Definition table_lengths (s : sim_ctx_t) : Prop :=
  length (readonly_mask s) = 1000%nat ∧ length (sim_tag_type s) = 1000%nat ∧
  length (sim_tag_name s) = 1000%nat ∧ length (sim_tag_addr s) = 1000%nat.

Lemma sim_ok_tables s : sim_ok s → table_lengths s.
Proof. intros []. split_and!; lia. Qed.

(** The mask with the registers of a tag. *)
Definition mark_mask (a : nat) (t : Z) (mask : list bool) : list bool :=
  if t =? NEU_SIM_TAG_SINE then <[S a := true]> (<[a := true]> mask) else <[a := true]> mask.

Lemma config_tag_some s a t n m :
  table_lengths s → (a < 1000)%nat → 1 <= t <= 4 → (t = NEU_SIM_TAG_SINE → (S a < 1000)%nat) →
  config_tag s {| st_name := Some n; st_addr := Some m; st_index := Z.of_nat a; st_type := t |} =
    Some (with_tables (mark_mask a t (readonly_mask s)) (<[a := t]> (sim_tag_type s))
            (<[a := Some n]> (sim_tag_name s)) (<[a := Some m]> (sim_tag_addr s)) (sim_tag_count s + 1) s).
Proof.
  intros (Hm & Ht & Hn & Ha) Hlt Hty Hs. unfold config_tag, sim_mark_tag_unlocked, SIM_MAX_REGS, mark_mask.
  cbn [st_index st_type st_name st_addr]. destruct (Z.geb_spec (Z.of_nat a) 1000); [lia|].
  destruct (Z.eqb_spec t NEU_SIM_TAG_SINE) as [E|E].
  - specialize (Hs E). rewrite (proj2 (Z.ltb_lt _ _)) by lia.
    rewrite (array_set_some (Z.of_nat a) true) by lia. cbn [mbind option_bind].
    rewrite (array_set_some (Z.of_nat a + 1)) by (rewrite length_insert; lia). cbn [mbind option_bind].
    rewrite (array_set_some (Z.of_nat a) t) by lia. cbn [mbind option_bind sim_tag_name sim_tag_addr with_tables].
    rewrite !(array_set_some (Z.of_nat a)) by lia. cbn [mbind option_bind].
    by replace (Z.to_nat (Z.of_nat a + 1)) with (S a) by lia; rewrite Nat2Z.id.
  - assert ((t =? NEU_SIM_TAG_SAW) || (t =? NEU_SIM_TAG_SQUARE) || (t =? NEU_SIM_TAG_RANDOM) = true) as ->
      by (unfold NEU_SIM_TAG_SINE, NEU_SIM_TAG_SAW, NEU_SIM_TAG_SQUARE, NEU_SIM_TAG_RANDOM in *; lia).
    rewrite (array_set_some (Z.of_nat a) true) by lia. cbn [mbind option_bind].
    rewrite (array_set_some (Z.of_nat a) t) by lia. cbn [mbind option_bind sim_tag_name sim_tag_addr with_tables].
    rewrite !(array_set_some (Z.of_nat a)) by lia. cbn [mbind option_bind]. by rewrite Nat2Z.id.
Qed.

Lemma mark_mask_lookup a t mask b :
  (a < length mask)%nat → (t = NEU_SIM_TAG_SINE → (S a < length mask)%nat) →
  mark_mask a t mask !! b =
    if decide (b = a ∨ t = NEU_SIM_TAG_SINE ∧ b = S a) then Some true else mask !! b.
Proof.
  intros Ha Hs. unfold mark_mask. destruct (Z.eqb_spec t NEU_SIM_TAG_SINE) as [E|E].
  - specialize (Hs E). rewrite list_lookup_insert, length_insert, list_lookup_insert.
    repeat case_decide; naive_solver lia.
  - rewrite list_lookup_insert. repeat case_decide; naive_solver lia.
Qed.

Lemma length_mark_mask a t mask : length (mark_mask a t mask) = length mask.
Proof. unfold mark_mask. destruct (_ =? _); by rewrite ?length_insert. Qed.

(** ** The tags of a simulator *)

Definition tag_at (s : sim_ctx_t) (a : nat) : option sim_tag :=
  t ← sim_tag_type s !! a;
  if t =? NEU_SIM_TAG_NONE then None else
  n ← sim_tag_name s !! a; m ← sim_tag_addr s !! a;
  Some {| st_name := n; st_addr := m; st_index := Z.of_nat a; st_type := t |}.
Definition tags_of (s : sim_ctx_t) : list sim_tag := omap (tag_at s) (seq 0 1000).

Section life.
Context {JS : Json} {JO : JsonOk JS}.

(** A text that the JSON library accepts. *)
Definition json_text (x : string) : Prop := is_Some (json_string x).

Record tidy (s : sim_ctx_t) : Prop := {
  td_sine a : sim_tag_type s !! a = Some NEU_SIM_TAG_SINE → sim_tag_type s !! S a = Some NEU_SIM_TAG_NONE;
  td_mask a : readonly_mask s !! a = Some true →
    ∃ b t, sim_tag_type s !! b = Some t ∧ t ≠ NEU_SIM_TAG_NONE ∧ (a = b ∨ t = NEU_SIM_TAG_SINE ∧ a = S b);
  td_typed a t : sim_tag_type s !! a = Some t → t ≠ NEU_SIM_TAG_NONE →
    ∃ n m, sim_tag_name s !! a = Some (Some n) ∧ sim_tag_addr s !! a = Some (Some m) ∧
      json_text n ∧ json_text m;
  td_untyped a : sim_tag_type s !! a = Some NEU_SIM_TAG_NONE →
    sim_tag_name s !! a = Some None ∧ sim_tag_addr s !! a = Some None;
  td_count : sim_tag_count s = Z.of_nat (length (tags_of s));
}.

(** What [tag_at] finds in a tidy simulator. *)
Lemma tag_at_cases s a :
  sim_ok s → tidy s → (a < 1000)%nat →
  (sim_tag_type s !! a = Some NEU_SIM_TAG_NONE ∧ sim_tag_name s !! a = Some None ∧
     sim_tag_addr s !! a = Some None ∧ tag_at s a = None) ∨
  (∃ t n m, sim_tag_type s !! a = Some t ∧ 1 <= t <= 4 ∧ (t = NEU_SIM_TAG_SINE → (S a < 1000)%nat) ∧
     sim_tag_name s !! a = Some (Some n) ∧ sim_tag_addr s !! a = Some (Some m) ∧ json_text n ∧ json_text m ∧
     tag_at s a = Some {| st_name := Some n; st_addr := Some m; st_index := Z.of_nat a; st_type := t |}).
Proof.
  intros Hs Htd Ha. pose proof (so_types s Hs). destruct (lookup_lt_is_Some_2 (sim_tag_type s) a) as [t Ht]; [lia|].
  unfold tag_at. rewrite Ht. cbn [mbind option_bind]. destruct (Z.eqb_spec t NEU_SIM_TAG_NONE) as [->|Hne].
  - left. by destruct (td_untyped s Htd a Ht).
  - right. destruct (td_typed s Htd a t Ht Hne) as (n & m & Hn & Hm & Hjn & Hjm). exists t, n, m.
    destruct (so_owned s Hs a t Ht Hne) as (Hr & _). rewrite Hn, Hm. split_and!; try done; try lia.
    intros ->. apply (td_sine s Htd) in Ht. apply lookup_lt_Some in Ht. lia.
Qed.

(** ** Reading back what was stored *)

Definition object_of (t : sim_tag) : json_t :=
  tag_object (default EmptyString (st_name t)) (default EmptyString (st_addr t)) (st_index t) (st_type t).

Lemma tag_of_object n m a t :
  json_text n → json_text m → (a < 1000)%nat → 1 <= t <= 4 →
  tag_of_json (tag_object n m (Z.of_nat a) t) =
    Some {| st_name := Some n; st_addr := Some m; st_index := Z.of_nat a; st_type := t |}.
Proof.
  intros [jn Hn] [jm Hm] Ha Ht. unfold tag_of_json, tag_object. rewrite Hn, Hm. cbn [set_new app].
  rewrite is_object_object. cbn [negb].
  rewrite !get_object by (repeat constructor; set_solver).
  cbn [list_to_map foldr uncurry fst snd]. rewrite !lookup_insert. cbn [mbind option_bind].
  repeat (rewrite decide_False by done; rewrite ?lookup_insert) || (rewrite decide_True by done).
  cbn [mbind option_bind]. rewrite !value_integer by lia. cbn [mbind option_bind].
  rewrite (value_string n jn Hn), (value_string m jm Hm). cbn [default].
  rewrite u16_id, u32_id by lia. unfold SIM_MAX_REGS. by destruct (Z.geb_spec (Z.of_nat a) 1000); [lia|].
Qed.

Lemma build_tags_some n s a :
  sim_ok s → tidy s → (1000 <= a + n)%nat →
  build_tags n s (Z.of_nat a) = Some (object_of <$> omap (tag_at s) (seq a (1000 - a))).
Proof.
  intros Hs Htd. revert a. induction n as [|n IH]; intros a Hn.
  { by replace (1000 - a)%nat with 0%nat by lia. }
  cbn [build_tags]. unfold SIM_MAX_REGS. destruct (Z.ltb_spec (Z.of_nat a) 1000); cbn [negb].
  2:{ by replace (1000 - a)%nat with 0%nat by lia. }
  replace (1000 - a)%nat with (S (1000 - S a)) by lia. cbn [seq omap list_omap].
  assert (∀ {A} (l : list A), array_get l (Z.of_nat a) = l !! a) as Hget.
  { intros A l. unfold array_get. by rewrite (proj2 (Z.ltb_ge _ _)), Nat2Z.id by lia. }
  rewrite !Hget. replace (Z.of_nat a + 1) with (Z.of_nat (S a)) by lia.
  destruct (tag_at_cases s a Hs Htd) as [(-> & _ & _ & ->)|(t & x & m & Ht & Hr & Hsn & Hx & Hm & _ & _ & ->)];
    [lia| |]; cbn [mbind option_bind].
  { change (NEU_SIM_TAG_NONE =? NEU_SIM_TAG_NONE) with true. cbv iota. apply IH. lia. }
  rewrite Ht, Hx, Hm. cbn [mbind option_bind default].
  destruct (Z.eqb_spec t NEU_SIM_TAG_NONE); [unfold NEU_SIM_TAG_NONE in *; lia|].
  destruct (Z.eqb_spec t NEU_SIM_TAG_SINE) as [->|Hns]; cbn [andb].
  2:{ rewrite IH by lia. done. }
  specialize (Hsn eq_refl). rewrite (proj2 (Z.ltb_lt (Z.of_nat (S a)) 1000)) by lia.
  replace (Z.of_nat a + 2) with (Z.of_nat (S (S a))) by lia. rewrite IH by lia. cbn [mbind option_bind].
  replace (1000 - S a)%nat with (S (1000 - S (S a))) by lia. cbn [seq omap list_omap].
  unfold tag_at at 2. rewrite (td_sine s Htd a Ht). done.
Qed.

(** ** Configuring the tags that are there *)

(** A register that belongs to a tag below [n]. *)
Definition covers (s : sim_ctx_t) (n b : nat) : Prop :=
  ∃ a t, (a < n)%nat ∧ sim_tag_type s !! a = Some t ∧ t ≠ NEU_SIM_TAG_NONE ∧
    (b = a ∨ t = NEU_SIM_TAG_SINE ∧ b = S a).

(** [s'] has the tags of [s] below [n] and no others. *)
Record tags_upto (s : sim_ctx_t) (n : nat) (s' : sim_ctx_t) : Prop := {
  tu_lengths : table_lengths s';
  tu_types a : (a < 1000)%nat →
    sim_tag_type s' !! a = if decide (a < n)%nat then sim_tag_type s !! a else Some NEU_SIM_TAG_NONE;
  tu_names a : (a < 1000)%nat →
    sim_tag_name s' !! a = if decide (a < n)%nat then sim_tag_name s !! a else Some None;
  tu_addrs a : (a < 1000)%nat →
    sim_tag_addr s' !! a = if decide (a < n)%nat then sim_tag_addr s !! a else Some None;
  tu_mask a : (a < 1000)%nat → readonly_mask s' !! a = Some true ↔ covers s n a;
  tu_count : sim_tag_count s' = Z.of_nat (length (omap (tag_at s) (seq 0 n)));
}.

Lemma covers_S s n b t :
  sim_tag_type s !! n = Some t →
  covers s (S n) b ↔ covers s n b ∨ t ≠ NEU_SIM_TAG_NONE ∧ (b = n ∨ t = NEU_SIM_TAG_SINE ∧ b = S n).
Proof.
  intros Ht. split.
  - intros (a & u & Ha & Hu & Hne & Hb). destruct (decide (a = n)) as [->|].
    + right. replace u with t in * by congruence. done.
    + left. exists a, u. split; [lia|done].
  - intros [(a & u & Ha & ?)|[Hne Hb]]; [exists a, u; split; [lia|done]|exists n, t; split; [lia|done]].
Qed.

Lemma upto_skip s n s' :
  sim_ok s → tidy s → (n < 1000)%nat → tag_at s n = None → sim_tag_type s !! n = Some NEU_SIM_TAG_NONE →
  tags_upto s n s' → tags_upto s (S n) s'.
Proof.
  intros Hs Htd Hn Hat Hty []. destruct (td_untyped s Htd n Hty) as [Hna Had].
  constructor; try done.
  - intros a Ha. rewrite tu_types0 by done. repeat case_decide; try lia; try done.
    by replace a with n by lia.
  - intros a Ha. rewrite tu_names0 by done. repeat case_decide; try lia; try done.
    by replace a with n by lia.
  - intros a Ha. rewrite tu_addrs0 by done. repeat case_decide; try lia; try done.
    by replace a with n by lia.
  - intros a Ha. rewrite tu_mask0, (covers_S s n a NEU_SIM_TAG_NONE) by done. naive_solver.
  - by rewrite seq_S, omap_app, tu_count0, Nat.add_0_l; cbn [omap list_omap]; rewrite Hat, app_nil_r.
Qed.

Lemma upto_step s n s' t x m :
  (n < 1000)%nat → sim_tag_type s !! n = Some t → 1 <= t <= 4 → (t = NEU_SIM_TAG_SINE → (S n < 1000)%nat) →
  sim_tag_name s !! n = Some (Some x) → sim_tag_addr s !! n = Some (Some m) → is_Some (tag_at s n) →
  tags_upto s n s' →
  tags_upto s (S n) (with_tables (mark_mask n t (readonly_mask s')) (<[n := t]> (sim_tag_type s'))
    (<[n := Some x]> (sim_tag_name s')) (<[n := Some m]> (sim_tag_addr s')) (sim_tag_count s' + 1) s').
Proof.
  intros Hn Hty Ht Hsn Hx Hm [g Hat] []. destruct tu_lengths0 as (Hlm & Hlt & Hln & Hla).
  constructor; cbn [readonly_mask sim_tag_type sim_tag_name sim_tag_addr sim_tag_count with_tables].
  - split_and!; cbn [readonly_mask sim_tag_type sim_tag_name sim_tag_addr with_tables];
      by rewrite ?length_mark_mask, ?length_insert.
  - intros a Ha. rewrite list_lookup_insert, tu_types0 by done. repeat case_decide; try lia; try done; naive_solver lia.
  - intros a Ha. rewrite list_lookup_insert, tu_names0 by done. repeat case_decide; try lia; try done; naive_solver lia.
  - intros a Ha. rewrite list_lookup_insert, tu_addrs0 by done. repeat case_decide; try lia; try done; naive_solver lia.
  - intros a Ha. rewrite mark_mask_lookup, (covers_S s n a t) by (done || lia).
    assert (t ≠ NEU_SIM_TAG_NONE) by (unfold NEU_SIM_TAG_NONE; lia). rewrite <-tu_mask0 by done.
    case_decide; naive_solver.
  - rewrite seq_S, omap_app, length_app, tu_count0, Nat.add_0_l. cbn [omap list_omap]. rewrite Hat. simpl. lia.
Qed.

Lemma upto_zero s s1 : tags_upto s 0 (sim_reset_regs_unlocked s1).
Proof.
  constructor; cbn [sim_reset_regs_unlocked readonly_mask sim_tag_type sim_tag_name sim_tag_addr sim_tag_count].
  - split_and!; apply length_replicate.
  - intros a Ha. by rewrite lookup_replicate_2 by done.
  - intros a Ha. by rewrite lookup_replicate_2 by done.
  - intros a Ha. by rewrite lookup_replicate_2 by done.
  - intros a Ha. rewrite lookup_replicate_2 by done. split; [done|]. intros (b & ? & ? & _). lia.
  - done.
Qed.

(** The simulator [s1] with the tags of [s]. *)
Definition with_tags_of (s s1 : sim_ctx_t) : sim_ctx_t :=
  with_tables (readonly_mask s) (sim_tag_type s) (sim_tag_name s) (sim_tag_addr s) (sim_tag_count s) s1.

Lemma lookups_eq {A} (l k : list A) :
  length l = 1000%nat → length k = 1000%nat → (∀ a, (a < 1000)%nat → l !! a = k !! a) → l = k.
Proof.
  intros Hl Hk Heq. apply list_eq. intros a. destruct (decide (a < 1000)%nat) as [Ha|Ha]; [by apply Heq|].
  rewrite !lookup_ge_None_2 by lia. done.
Qed.

Lemma upto_all s s' : sim_ok s → tidy s → tags_upto s 1000 s' → with_tags_of s s' = s'.
Proof.
  intros Hs Htd []. destruct tu_lengths0 as (Hlm & Hlt & Hln & Hla).
  destruct (sim_ok_tables s Hs) as (Hm & Ht & Hn & Ha). unfold with_tags_of, with_tables.
  assert (readonly_mask s = readonly_mask s') as Emask.
  { apply lookups_eq; [done..|]. intros a Hlt'.
    destruct (lookup_lt_is_Some_2 (readonly_mask s) a) as [b Hb]; [lia|].
    destruct (lookup_lt_is_Some_2 (readonly_mask s') a) as [b' Hb']; [lia|].
    assert (readonly_mask s !! a = Some true ↔ covers s 1000 a) as Hc.
    { split.
      - intros (b0 & t & Hty & Hne & Hab)%(td_mask s Htd). exists b0, t.
        split; [apply lookup_lt_Some in Hty; lia|done].
      - intros (b0 & t & _ & Hty & Hne & Hab). destruct (so_owned s Hs b0 t Hty Hne) as (_ & Hmb & Hsn).
        destruct Hab as [->|[? ->]]; auto. }
    rewrite <-tu_mask0 in Hc by done. rewrite Hb, Hb' in Hc |- *.
    destruct b, b'; try done; [pose proof (proj1 Hc eq_refl)|pose proof (proj2 Hc eq_refl)]; done. }
  rewrite Emask, (td_count s Htd). unfold tags_of. rewrite <-tu_count0.
  rewrite (lookups_eq (sim_tag_type s) (sim_tag_type s')), (lookups_eq (sim_tag_name s) (sim_tag_name s')),
    (lookups_eq (sim_tag_addr s) (sim_tag_addr s')); try done.
  - by destruct s'.
  - intros a Hlt'. rewrite tu_addrs0 by done. by case_decide.
  - intros a Hlt'. rewrite tu_names0 by done. by case_decide.
  - intros a Hlt'. rewrite tu_types0 by done. by case_decide.
Qed.

(** Configuring the tags of a tidy simulator gives it again, with all registers 0. *)
Lemma config_restores s s1 :
  sim_ok s → tidy s →
  config_tags (tags_of s) s1 = Some (with_tags_of s (sim_reset_regs_unlocked s1)).
Proof.
  intros Hs Htd.
  assert (∀ n, (n <= 1000)%nat → ∃ s', foldM config_tag (sim_reset_regs_unlocked s1)
      (omap (tag_at s) (seq 0 n)) = Some s' ∧ tags_upto s n s' ∧
      with_tags_of s (sim_reset_regs_unlocked s1) = with_tags_of s s') as Hall.
  { induction n as [|n IH]; intros Hn.
    { eexists. split; [done|]. split; [apply upto_zero|done]. }
    destruct IH as (s' & Hf & Hu & Hw); [lia|]. rewrite seq_S, omap_app, foldM_app, Hf.
    cbn [mbind option_bind omap list_omap Nat.add].
    destruct (tag_at_cases s n Hs Htd) as
      [(Hty & _ & _ & Hat)|(t & x & m & Hty & Ht & Hsn & Hx & Hm & _ & _ & Hat)]; [lia| |]; rewrite Hat.
    - exists s'. split; [done|]. split; [by apply upto_skip|done].
    - cbn [foldM]. rewrite (config_tag_some s' n t x m) by (done || lia || apply Hu). cbn [mbind option_bind].
      eexists. split; [done|]. split; [by apply upto_step|]. rewrite Hw. done. }
  destruct (Hall 1000%nat) as (s' & Hf & Hu & Hw); [lia|]. unfold config_tags, tags_of.
  rewrite Hf, Hw. by rewrite upto_all.
Qed.

(** ** Configurations without overlap *)

Definition tag_regs (t : sim_tag) : list nat :=
  let a := Z.to_nat (st_index t) in if st_type t =? NEU_SIM_TAG_SINE then [a; S a] else [a].

Record plain_tag (t : sim_tag) : Prop := {
  pt_index : 0 <= st_index t;
  pt_regs : Forall (λ a, (a < 1000)%nat) (tag_regs t);
  pt_type : 1 <= st_type t <= 4;
  pt_text : ∃ n m, st_name t = Some n ∧ st_addr t = Some m ∧ json_text n ∧ json_text m;
}.
Definition separate (tags : list sim_tag) : Prop := Forall plain_tag tags ∧ NoDup (tags ≫= tag_regs).

Lemma tag_regs_elem t b :
  0 <= st_index t →
  b ∈ tag_regs t ↔ b = Z.to_nat (st_index t) ∨ st_type t = NEU_SIM_TAG_SINE ∧ b = S (Z.to_nat (st_index t)).
Proof. intros Hi. unfold tag_regs. destruct (Z.eqb_spec (st_type t) NEU_SIM_TAG_SINE); set_solver. Qed.

(** The tags after one more. *)
Lemma tags_of_add s s' a g :
  (a < 1000)%nat → tag_at s a = None → tag_at s' a = Some g →
  (∀ b, (b < 1000)%nat → b ≠ a → tag_at s' b = tag_at s b) →
  length (tags_of s') = S (length (tags_of s)).
Proof.
  intros Ha Hn Hg Heq. unfold tags_of.
  replace (seq 0 1000) with (seq 0 a ++ a :: seq (S a) (1000 - S a)).
  2:{ replace 1000%nat with (a + S (1000 - S a))%nat at 2 by lia. by rewrite seq_app. }
  rewrite !omap_app. cbn [omap list_omap]. rewrite Hn, Hg, !length_app. cbn [length].
  assert (∀ l : list nat, (∀ b, b ∈ l → (b < 1000)%nat ∧ b ≠ a) → omap (tag_at s') l = omap (tag_at s) l) as Hl.
  { induction l as [|b l IH]; intros Hb; [done|]. cbn [omap list_omap].
    rewrite Heq, IH; [done|intros ? ?; apply Hb; by right|apply Hb; left..]. }
  rewrite !Hl; [lia|intros b Hb%elem_of_seq; lia..].
Qed.

(** No tag has one of the registers of a new tag. *)
Definition free_regs (s : sim_ctx_t) (a : nat) (t : Z) : Prop :=
  ∀ b, b = a ∨ t = NEU_SIM_TAG_SINE ∧ b = S a → readonly_mask s !! b ≠ Some true.

Lemma free_regs_apart s a t b u :
  sim_ok s → free_regs s a t → sim_tag_type s !! b = Some u → u ≠ NEU_SIM_TAG_NONE →
  b ≠ a ∧ (u = NEU_SIM_TAG_SINE → S b ≠ a) ∧ (t = NEU_SIM_TAG_SINE → b ≠ S a).
Proof.
  intros Hs Hfree Hb Hu. destruct (so_owned s Hs b u Hb Hu) as (_ & Hmb & Hms). split_and!.
  - intros ->. apply (Hfree a); [by left|done].
  - intros Hu' Hba. apply (Hfree a); [by left|]. rewrite <-Hba. auto.
  - intros -> ->. apply (Hfree (S a)); [by right|done].
Qed.

Lemma free_regs_none s a t b :
  sim_ok s → free_regs s a t → b = a ∨ t = NEU_SIM_TAG_SINE ∧ b = S a → (b < 1000)%nat →
  sim_tag_type s !! b = Some NEU_SIM_TAG_NONE.
Proof.
  intros Hs Hfree Hb Hlt. pose proof (so_types s Hs).
  destruct (lookup_lt_is_Some_2 (sim_tag_type s) b) as [u Hu]; [lia|].
  destruct (decide (u = NEU_SIM_TAG_NONE)) as [->|Hne]; [done|].
  destruct (free_regs_apart s a t b u Hs Hfree Hu Hne) as (? & _ & ?). naive_solver.
Qed.

Lemma tidy_insert s a t n m :
  sim_ok s → tidy s → (a < 1000)%nat → 1 <= t <= 4 → (t = NEU_SIM_TAG_SINE → (S a < 1000)%nat) →
  json_text n → json_text m → free_regs s a t →
  tidy (with_tables (mark_mask a t (readonly_mask s)) (<[a := t]> (sim_tag_type s))
          (<[a := Some n]> (sim_tag_name s)) (<[a := Some m]> (sim_tag_addr s)) (sim_tag_count s + 1) s).
Proof.
  intros Hs Htd Ha Ht Hsn Hjn Hjm Hfree. pose proof (sim_ok_tables s Hs) as (Hlm & Hlt & Hln & Hla).
  assert (t ≠ NEU_SIM_TAG_NONE) as Hne by (unfold NEU_SIM_TAG_NONE; lia).
  constructor; cbn [readonly_mask sim_tag_type sim_tag_name sim_tag_addr sim_tag_count with_tables].
  - intros b. rewrite !list_lookup_insert. case_decide as E1.
    + intros [= ->]. destruct E1 as [<- _]. rewrite decide_False by lia.
      apply (free_regs_none s a NEU_SIM_TAG_SINE); auto.
    + intros Hb. destruct (free_regs_apart s a t b _ Hs Hfree Hb ltac:(done)) as (_ & Hx & _).
      rewrite decide_False by naive_solver. by apply (td_sine s Htd).
  - intros b. rewrite mark_mask_lookup by (rewrite ?Hlm; done). case_decide as E1.
    + intros _. exists a, t. rewrite list_lookup_insert, decide_True by lia. naive_solver.
    + intros (b0 & u & Hb0 & Hu & Hx)%(td_mask s Htd). exists b0, u.
      destruct (free_regs_apart s a t b0 u Hs Hfree Hb0 Hu) as (Hba & _). by rewrite list_lookup_insert_ne.
  - intros b u. destruct (decide (a = b)) as [<-|Hab].
    + rewrite !list_lookup_insert_eq by lia. intros _ _. by exists n, m.
    + rewrite !list_lookup_insert_ne by done. apply (td_typed s Htd).
  - intros b. destruct (decide (a = b)) as [<-|Hab].
    + rewrite !list_lookup_insert_eq by lia. naive_solver.
    + rewrite !list_lookup_insert_ne by done. apply (td_untyped s Htd).
  - match goal with |- _ = Z.of_nat (length (tags_of ?s')) =>
      enough (length (tags_of s') = S (length (tags_of s))) as -> by (rewrite (td_count s Htd); lia) end.
    eapply (tags_of_add s _ a); [done|..]; unfold tag_at; cbn [sim_tag_type sim_tag_name sim_tag_addr with_tables].
    + rewrite (free_regs_none s a t a); auto.
    + rewrite !list_lookup_insert_eq by lia. cbn [mbind option_bind]. by rewrite (proj2 (Z.eqb_neq _ _)).
    + intros b Hb Hba. by rewrite !list_lookup_insert_ne.
Qed.

Lemma add_tag s t :
  sim_ok s → tidy s → plain_tag t → (∀ b, b ∈ tag_regs t → readonly_mask s !! b ≠ Some true) →
  ∃ s', config_tag s t = Some s' ∧ sim_ok s' ∧ tidy s' ∧
    (∀ b, readonly_mask s' !! b = Some true → readonly_mask s !! b = Some true ∨ b ∈ tag_regs t).
Proof.
  intros Hs Htd [Hi Hr Hty (n & m & Hn & Hm & Hjn & Hjm)] Hfree. rewrite Forall_forall in Hr.
  setoid_rewrite tag_regs_elem in Hr; [|done]. setoid_rewrite tag_regs_elem in Hfree; [|done].
  setoid_rewrite tag_regs_elem; [|done].
  destruct t as [n' m' i t]. cbn [st_index st_type st_name st_addr] in *. subst n' m'.
  destruct (config_tag_ok s {| st_name := Some n; st_addr := Some m; st_index := i; st_type := t |})
    as (s' & Hcfg & Hs'); [done|split; [done|cbn; specialize (Hr (Z.to_nat i) ltac:(by left)); lia]|].
  exists s'. split; [done|]. split; [done|]. revert Hcfg. set (a := Z.to_nat i) in *.
  replace i with (Z.of_nat a) by lia. pose proof (sim_ok_tables s Hs) as Hl.
  assert (a < 1000)%nat as Ha by (apply Hr; by left).
  assert (t = NEU_SIM_TAG_SINE → (S a < 1000)%nat) as Hsn by (intros ->; apply Hr; by right).
  rewrite (config_tag_some s a t n m) by done. intros [= <-]. split; [by apply tidy_insert|].
  intros b. cbn [readonly_mask with_tables]. rewrite mark_mask_lookup by (destruct Hl as [-> _]; done).
  case_decide; auto.
Qed.

Lemma add_tags tags s :
  sim_ok s → tidy s → separate tags →
  (∀ t b, t ∈ tags → b ∈ tag_regs t → readonly_mask s !! b ≠ Some true) →
  ∃ s', foldM config_tag s tags = Some s' ∧ sim_ok s' ∧ tidy s'.
Proof.
  revert s. induction tags as [|t tags IH]; intros s Hs Htd [Hp Hnd] Hfree; [by exists s|].
  apply Forall_cons in Hp as [Ht Hp]. cbn [mbind list_bind] in Hnd.
  apply NoDup_app in Hnd as (_ & Hdis & Hnd). cbn [foldM].
  destruct (add_tag s t) as (s' & -> & Hs' & Htd' & Hm); [done..|intros b; apply Hfree; left|].
  cbn [mbind option_bind]. apply IH; [done..|by split|]. intros t' b Ht' Hb Hmb.
  destruct (Hm b Hmb) as [?|Hbt]; [by apply (Hfree t' b); [right|..]|].
  apply (Hdis b Hbt), list_elem_of_bind. by exists t'.
Qed.

Lemma reset_tidy s : tidy (sim_reset_regs_unlocked s).
Proof.
  constructor; cbn [sim_reset_regs_unlocked readonly_mask sim_tag_type sim_tag_name sim_tag_addr sim_tag_count].
  - intros a [? _]%lookup_replicate. done.
  - intros a [? _]%lookup_replicate. done.
  - intros a t [-> _]%lookup_replicate. done.
  - intros a [_ Ha]%lookup_replicate. by rewrite !lookup_replicate_2.
  - by vm_compute.
Qed.

Lemma config_separate tags s :
  separate tags → ∃ s', config_tags tags s = Some s' ∧ sim_ok s' ∧ tidy s'.
Proof.
  intros Hsep. apply add_tags; [apply reset_ok|apply reset_tidy|done|].
  intros t b _ _ Hb. cbn [sim_reset_regs_unlocked readonly_mask] in Hb. by apply lookup_replicate in Hb as [? _].
Qed.

(** ** What does not touch the tags *)

Definition same_tags (s s' : sim_ctx_t) : Prop :=
  readonly_mask s' = readonly_mask s ∧ sim_tag_type s' = sim_tag_type s ∧
  sim_tag_name s' = sim_tag_name s ∧ sim_tag_addr s' = sim_tag_addr s ∧ sim_tag_count s' = sim_tag_count s.

Lemma same_tags_of s s' : same_tags s s' → tags_of s' = tags_of s.
Proof. intros (_ & Ht & Hn & Ha & _). unfold tags_of, tag_at. by rewrite Ht, Hn, Ha. Qed.

Lemma same_tags_tidy s s' : same_tags s s' → tidy s → tidy s'.
Proof.
  intros Hsame []. pose proof (same_tags_of s s' Hsame) as Hof. destruct Hsame as (Hm & Ht & Hn & Ha & Hc).
  constructor; rewrite ?Hm, ?Ht, ?Hn, ?Ha, ?Hc, ?Hof; done.
Qed.

Lemma with_status_ok r ip port e s : sim_ok s → sim_ok (with_status r ip port e s).
Proof. intros []. by constructor. Qed.

Lemma with_tags_ok s s1 : sim_ok s → sim_ok s1 → sim_ok (with_tags_of s s1).
Proof. intros [] []. by constructor. Qed.

(** Configuring tags leaves the rest alone. *)
Lemma config_tag_running s t s' : config_tag s t = Some s' → running s' = running s.
Proof.
  unfold config_tag, sim_mark_tag_unlocked. intros H. repeat (case_match || simplify_option_eq); done.
Qed.

Lemma config_tags_running tags s s' : config_tags tags s = Some s' → running s' = running s.
Proof.
  unfold config_tags. change (running s) with (running (sim_reset_regs_unlocked s)).
  generalize (sim_reset_regs_unlocked s) as s0. induction tags as [|t tags IH]; intros s0; cbn [foldM].
  - by intros [= ->].
  - destruct (config_tag s0 t) as [s1|] eqn:E; [|done]. cbn [mbind option_bind]. intros H%IH.
    rewrite H. by eapply config_tag_running.
Qed.

(** ** The row of the database *)

Definition row_of (s : sim_ctx_t) (r : sim_row) : Prop :=
  row_enabled r = (if running s then 1 else 0) ∧ stored_tags (row_tags_json r) = tags_of s.
Definition db_agrees (s : sim_ctx_t) (db : sim_db) : Prop :=
  match db with
  | Some (Some r) => row_of s r
  | Some None => running s = false ∧ tags_of s = []
  | None => False
  end.

Lemma db_agrees_same s s' db :
  same_tags s s' → running s' = running s → db_agrees s db → db_agrees s' db.
Proof. intros Hs Hr. unfold db_agrees, row_of. by rewrite (same_tags_of s s' Hs), Hr. Qed.

Lemma stored_objects s :
  sim_ok s → tidy s → ∀ l : list nat, (∀ a, a ∈ l → (a < 1000)%nat) →
  omap tag_of_json (object_of <$> omap (tag_at s) l) = omap (tag_at s) l.
Proof.
  intros Hs Htd l. induction l as [|a l IH]; intros Hl; [done|]. cbn [omap list_omap].
  assert (a < 1000)%nat as Ha by (apply Hl; left). specialize (IH ltac:(intros ? ?; apply Hl; by right)).
  destruct (tag_at_cases s a Hs Htd Ha) as [(_ & _ & _ & ->)|(t & n & m & _ & Ht & _ & _ & _ & Hjn & Hjm & ->)];
    [done|].
  rewrite fmap_cons. change (object_of _) with (tag_object n m (Z.of_nat a) t).
  cbn [omap list_omap]. rewrite (tag_of_object n m a t) by done. f_equal. exact IH.
Qed.

Lemma persist_saves s row :
  sim_ok s → tidy s → ∃ r, sim_persist_save s (Some row) = Some (Some (Some r)) ∧ row_of s r.
Proof.
  intros Hs Htd. unfold sim_persist_save, sim_build_tags_json_unlocked. change 0 with (Z.of_nat 0).
  rewrite build_tags_some by (done || unfold SIM_MAX_REGS; lia). cbn [mbind option_bind].
  destruct (dumps_array (object_of <$> omap (tag_at s) (seq 0 (1000 - 0)))) as (text & -> & Hne & Hl).
  change (default _ (Some text)) with text. eexists. split; [done|]. split; [done|]. cbn [row_tags_json]. unfold stored_tags.
  rewrite decide_False, Hl by done. cbn [mbind option_bind]. rewrite elements_array. cbn [mbind option_bind].
  rewrite (stored_objects s Hs Htd); [unfold tags_of; rewrite Nat.sub_0_r; reflexivity|].
  intros a Ha%elem_of_seq. lia.
Qed.

(** ** Histories *)

Section histories.
Context (is_ipv4 is_ipv6 : string → bool) (sin : spec_float → spec_float).

(** The simulator and its row, from the first start of a process with an empty
    database: configurations whose tags do not overlap, start and stop, clients,
    the generator, and restarts of the process that can listen on its port. *)
Inductive sim_life : sim_ctx_t → sim_db → Prop :=
  | life_first root : sim_life (neu_modbus_simulator_init is_ipv4 is_ipv6 root) (Some None)
  | life_config tags s db s' db' :
      sim_life s db → separate tags →
      neu_modbus_simulator_config_tags tags s db = Some (s', db') → sim_life s' db'
  | life_start arg port lfd s db ret s' db' :
      sim_life s db →
      neu_modbus_simulator_start is_ipv4 is_ipv6 arg port lfd s db = Some (ret, s', db') → sim_life s' db'
  | life_stop slots s db slots' s' db' :
      sim_life s db → neu_modbus_simulator_stop slots s db = Some (slots', s', db') → sim_life s' db'
  | life_client cb r data s db eff cb' s' :
      sim_life s db → client_ok cb → received (CYCLE_BUF_SIZE - cb_len cb) r data →
      client_read s cb r data = Some (eff, cb', s') → sim_life s' db
  | life_generate tms s db s' :
      sim_life s db → time_ok tms → generate sin tms s = Some s' → sim_life s' db
  | life_restart root lfd s db s' db' :
      sim_life s db → 0 < lfd →
      sim_persist_load_and_apply is_ipv4 is_ipv6 lfd
        (neu_modbus_simulator_init is_ipv4 is_ipv6 root) db = Some (s', db') → sim_life s' db'.

Definition life_ok (s : sim_ctx_t) (db : sim_db) : Prop := sim_ok s ∧ tidy s ∧ db_agrees s db.

Lemma init_form root :
  ∃ ip port, neu_modbus_simulator_init is_ipv4 is_ipv6 root =
    with_status false ip port 0 (sim_reset_regs_unlocked sim_memset).
Proof.
  unfold neu_modbus_simulator_init. destruct root as [root|]; [|by eexists _, _].
  destruct (match json_object_get root "modbus_simulator" with Some sim => Some sim
            | None => json_object_get root "simulator" end) as [sim|]; [|by eexists _, _].
  destruct (json_is_object sim); by eexists _, _.
Qed.

(** Saving gives a row that agrees, whatever was there. *)
Lemma saved_ok s s0 db :
  sim_ok s → tidy s → db_agrees s0 db → ∃ db', sim_persist_save s db = Some db' ∧ life_ok s db' ∧ is_Some db'.
Proof.
  intros Hs Htd Hdb. destruct db as [row|]; [|done].
  destruct (persist_saves s row Hs Htd) as (r & -> & Hr). eexists. split; [done|]. by split; [split_and!|].
Qed.

Lemma status_same r ip port e s : same_tags s (with_status r ip port e s).
Proof. by destruct s. Qed.

Lemma start_ok arg port lfd s db :
  life_ok s db → ∃ ret s' db',
    neu_modbus_simulator_start is_ipv4 is_ipv6 arg port lfd s db = Some (ret, s', db') ∧ life_ok s' db' ∧
    (running s = false → 0 < lfd → ∃ ip p, s' = with_status true ip p 0 s).
Proof.
  intros (Hs & Htd & Hdb). unfold neu_modbus_simulator_start.
  destruct (running s) eqn:Hrun; [by eexists _, s, db|].
  destruct (Z.leb_spec lfd 0).
  - eexists _, _, db. split; [done|]. split; [|intros _ ?; lia].
    split; [by apply with_status_ok|]. split; [by eapply same_tags_tidy, Htd; apply status_same|].
    eapply db_agrees_same, Hdb; [apply status_same|by rewrite Hrun].
  - set (s' := with_status true _ _ 0 s).
    destruct (saved_ok s' s db) as (db' & -> & Hok & _);
      [by apply with_status_ok|by eapply same_tags_tidy, Htd; apply status_same|done|].
    eexists _, s', db'. split; [done|]. split; [done|]. intros _ _. by eexists _, _.
Qed.

Lemma stop_ok slots s db :
  life_ok s db → ∃ slots' s' db', neu_modbus_simulator_stop slots s db = Some (slots', s', db') ∧ life_ok s' db'.
Proof.
  intros (Hs & Htd & Hdb). unfold neu_modbus_simulator_stop, sim_do_stop.
  destruct (running s) eqn:Hrun; cbn [negb]; [|by eexists _, s, db].
  set (s' := with_status false _ _ _ s). destruct (saved_ok s' s db) as (db' & -> & Hok & _);
    [by apply with_status_ok|by eapply same_tags_tidy, Htd; apply status_same|done|].
  by eexists _, s', db'.
Qed.

Lemma config_life_ok tags s db :
  life_ok s db → separate tags →
  ∃ s' db', neu_modbus_simulator_config_tags tags s db = Some (s', db') ∧ life_ok s' db'.
Proof.
  intros (Hs & Htd & Hdb) Hsep. unfold neu_modbus_simulator_config_tags.
  destruct (config_separate tags s Hsep) as (s' & -> & Hs' & Htd'). cbn [mbind option_bind].
  destruct (saved_ok s' s db) as (db' & -> & Hok & _); [done..|]. by eexists _, _.
Qed.

Lemma tags_same s s1 : same_tags s (with_tags_of s s1).
Proof. done. Qed.

(** The tags of the row are configured, or there are none. *)
Lemma load_tags root s db r :
  sim_ok s → tidy s → db_agrees s (Some (Some r)) → db = Some (Some r) →
  let s1 := with_tags_of s (neu_modbus_simulator_init is_ipv4 is_ipv6 root) in
  ∃ db', match stored_tags (row_tags_json r) with
         | [] => Some (neu_modbus_simulator_init is_ipv4 is_ipv6 root, db)
         | _ => neu_modbus_simulator_config_tags (stored_tags (row_tags_json r))
                  (neu_modbus_simulator_init is_ipv4 is_ipv6 root) db
         end = Some (s1, db') ∧
    sim_ok s1 ∧ tidy s1 ∧ is_Some db' ∧ (row_enabled r = 0 → db_agrees s1 db').
Proof.
  intros Hs Htd [Hen Hst] -> s1. destruct (init_form root) as (ip & port & Hinit).
  assert (sim_ok s1) as Hs1.
  { apply with_tags_ok; [done|]. rewrite Hinit. apply with_status_ok, reset_ok. }
  assert (tidy s1) as Htd1 by (by eapply same_tags_tidy, Htd).
  assert (config_tags (tags_of s) (neu_modbus_simulator_init is_ipv4 is_ipv6 root) = Some s1) as Hcfg.
  { rewrite (config_restores s) by done. unfold s1. by rewrite Hinit. }
  rewrite Hst. destruct (tags_of s) as [|g l] eqn:Hof.
  - unfold config_tags in Hcfg. cbn [foldM] in Hcfg.
    assert (neu_modbus_simulator_init is_ipv4 is_ipv6 root = s1) as ->.
    { apply (inj Some) in Hcfg. rewrite <-Hcfg, Hinit. reflexivity. }
    eexists. split; [done|]. split_and!; [done..|]. intros E. split.
    + rewrite E. unfold s1. by rewrite Hinit.
    + rewrite Hst. unfold s1. by rewrite (same_tags_of s).
  - unfold neu_modbus_simulator_config_tags. rewrite Hcfg. cbn [mbind option_bind].
    destruct (persist_saves s1 (Some r) Hs1 Htd1) as (r' & -> & Hr). cbn [mbind option_bind].
    eexists. split; [done|]. by split_and!.
Qed.

Lemma restart_ok root lfd s db :
  life_ok s db → 0 < lfd → ∃ s' db' ip port,
    sim_persist_load_and_apply is_ipv4 is_ipv6 lfd (neu_modbus_simulator_init is_ipv4 is_ipv6 root) db =
      Some (s', db') ∧ life_ok s' db' ∧
    s' = with_tags_of s (with_status (running s) ip port 0 (sim_reset_regs_unlocked sim_memset)).
Proof.
  intros (Hs & Htd & Hdb) Hlfd. destruct (init_form root) as (ip & port & Hinit).
  unfold sim_persist_load_and_apply. cbv zeta. destruct db as [[r|]|]; [| |done].
  - destruct (load_tags root s (Some (Some r)) r) as (db1 & Hload & Hs1 & Htd1 & [row ->] & Hag); [done..|].
    unfold sim_db in Hload |- *. rewrite Hload. cbn [mbind option_bind]. destruct Hdb as [Hen _].
    destruct (running s) eqn:Hrun; rewrite Hen; cbn [Z.eqb].
    + unfold neu_modbus_simulator_start. rewrite Hinit. cbn [running with_tags_of with_tables with_status].
      destruct (Z.leb_spec lfd 0); [lia|]. set (s' := with_status true _ _ 0 _).
      destruct (persist_saves s' row) as (r2 & -> & Hr2).
      { apply with_status_ok. by rewrite <-Hinit. }
      { eapply same_tags_tidy, Htd. done. }
      cbn [mbind option_bind]. eexists _, _, _, _. split; [done|]. split; [|done].
      split_and!; [apply with_status_ok; by rewrite <-Hinit|by eapply same_tags_tidy, Htd|done].
    + eexists _, _, ip, port. split; [done|]. split; [by split_and!; [| |apply Hag]|]. by rewrite Hinit.
  - destruct Hdb as [Hrun Hof]. eexists _, _, ip, port. split; [done|].
    assert (neu_modbus_simulator_init is_ipv4 is_ipv6 root =
      with_tags_of s (neu_modbus_simulator_init is_ipv4 is_ipv6 root)) as Heq.
    { pose proof (config_restores s (neu_modbus_simulator_init is_ipv4 is_ipv6 root) Hs Htd) as Hcfg.
      rewrite Hof in Hcfg. apply (inj Some) in Hcfg. rewrite Hinit in Hcfg |- *. exact Hcfg. }
    split; [|rewrite Hrun, Heq, Hinit; done]. split_and!.
    + rewrite Hinit. apply with_status_ok, reset_ok.
    + rewrite Heq. by eapply same_tags_tidy, Htd.
    + split; [by rewrite Hinit|]. rewrite Heq. by rewrite (same_tags_of s).
Qed.

Lemma sim_life_ok s db : sim_life s db → life_ok s db.
Proof.
  induction 1 as [root|tags s db s' db' _ IH Hsep H|arg port lfd s db ret s' db' _ IH H|slots s db slots' s' db' _ IH H
    |cb r data s db eff cb' s' _ IH Hcb Hrd H|tms s db s' _ IH Ht H|root lfd s db s' db' _ IH Hlfd H].
  - destruct (init_form root) as (ip & port & ->). split_and!; [apply with_status_ok, reset_ok| |].
    + eapply same_tags_tidy, (reset_tidy sim_memset). done.
    + split; [done|]. by vm_compute.
  - destruct (config_life_ok tags s db IH Hsep) as (? & ? & ? & ?). congruence.
  - destruct (start_ok arg port lfd s db IH) as (? & ? & ? & ? & ? & _). congruence.
  - destruct (stop_ok slots s db IH) as (? & ? & ? & ? & ?). congruence.
  - destruct IH as (Hs & Htd & Hdb).
    destruct (client_read_total s cb r data Hs Hcb Hrd) as (e & cb1 & s1 & Hc & _ & [Hok (bits & regs & ->) _] & _).
    assert (s' = with_coils bits (with_hold regs s)) as -> by congruence.
    split; [done|]. split; [by eapply same_tags_tidy, Htd|]. by eapply db_agrees_same, Hdb.
  - destruct IH as (Hs & Htd & Hdb). destruct (generate_ok sin tms s Hs Ht) as (regs & Hg & Hf).
    assert (s' = with_hold regs s) as -> by congruence. split; [by apply owned_frame_ok|].
    split; [by eapply same_tags_tidy, Htd|]. by eapply db_agrees_same, Hdb.
  - destruct (restart_ok root lfd s db IH Hlfd) as (? & ? & ? & ? & ? & ? & _). congruence.
Qed.

End histories.

(** ** What is lost *)

(** A tag on the second register of a sine is not stored. *)
Lemma overlapped_tag_not_stored n1 a1 n2 a2 s :
  ∃ s', config_tags [{| st_name := Some n1; st_addr := Some a1; st_index := 0; st_type := NEU_SIM_TAG_SINE |};
                     {| st_name := Some n2; st_addr := Some a2; st_index := 1; st_type := NEU_SIM_TAG_SAW |}] s =
      Some s' ∧ sim_tag_count s' = 2 ∧
    build_tags (Z.to_nat SIM_MAX_REGS) s' 0 = Some [tag_object n1 a1 0 NEU_SIM_TAG_SINE].
Proof. eexists. split; [vm_compute; reflexivity|]. split; vm_compute; reflexivity. Qed.

(** A simulator with tags that cannot listen when the process starts is not
    started by later starts of the process either. *)
Lemma failed_start_disables is_ipv4 is_ipv6 root lfd s r :
  life_ok s (Some (Some r)) → tags_of s ≠ [] → lfd <= 0 →
  ∃ s' r', sim_persist_load_and_apply is_ipv4 is_ipv6 lfd (neu_modbus_simulator_init is_ipv4 is_ipv6 root)
      (Some (Some r)) = Some (s', Some (Some r')) ∧ row_enabled r' = 0.
Proof.
  intros (Hs & Htd & Hen & Hst) Hne Hlfd. destruct (init_form is_ipv4 is_ipv6 root) as (ip & port & Hinit).
  unfold sim_persist_load_and_apply. cbv zeta. rewrite Hst.
  set (s1 := with_tags_of s (neu_modbus_simulator_init is_ipv4 is_ipv6 root)).
  assert (sim_ok s1) as Hs1.
  { apply with_tags_ok; [done|]. rewrite Hinit. apply with_status_ok, reset_ok. }
  destruct (persist_saves s1 (Some r) Hs1) as (r1 & Hsave & Hr1 & _); [by eapply same_tags_tidy, Htd|].
  assert (row_enabled r1 = 0) as Hr1' by (rewrite Hr1; unfold s1; by rewrite Hinit).
  assert (neu_modbus_simulator_config_tags (tags_of s) (neu_modbus_simulator_init is_ipv4 is_ipv6 root)
    (Some (Some r)) = Some (s1, Some (Some r1))) as Hcfg.
  { unfold neu_modbus_simulator_config_tags. rewrite (config_restores s) by done. cbn [mbind option_bind].
    replace (sim_reset_regs_unlocked _) with (neu_modbus_simulator_init is_ipv4 is_ipv6 root) by (by rewrite Hinit).
    fold s1. by rewrite Hsave. }
  destruct (tags_of s) as [|g l]; [destruct (Hne eq_refl)|]. rewrite Hcfg. cbn [mbind option_bind].
  destruct (row_enabled r =? 0); [by exists s1, r1|]. unfold neu_modbus_simulator_start, s1 at 1.
  rewrite Hinit. cbn [running with_tags_of with_tables with_status].
  rewrite (proj2 (Z.leb_le _ _)) by done. cbn [mbind option_bind]. by eexists _, r1.
Qed.
End life.

(** ** A JSON library *)

(** Values are trees; their text is the number of the tree in binary. *)
Fixpoint pos_text (p : positive) : string :=
  match p with
  | xH => EmptyString
  | xO p => String "0"%char (pos_text p)
  | xI p => String "1"%char (pos_text p)
  end.
Fixpoint text_pos (s : string) : positive :=
  match s with
  | EmptyString => xH
  | String c s => if decide (c = "0"%char) then xO (text_pos s) else xI (text_pos s)
  end.
Lemma text_pos_text p : text_pos (pos_text p) = p.
Proof. induction p as [p IH|p IH|]; simpl; by rewrite ?IH. Qed.

Definition tree_member (k : string) (m : gen_tree (string + Z)) (o : option (gen_tree (string + Z)))
    : option (gen_tree (string + Z)) :=
  match m with
  | GenNode 2 [GenLeaf (inl k'); v] => if decide (k' = k) then Some v else o
  | _ => o
  end.

#[export] Instance tree_json : Json := {|
  json_t := gen_tree (string + Z);
  json_array := GenNode 0;
  json_object l := GenNode 1 ((λ '(k, v), GenNode 2 [GenLeaf (inl k); v]) <$> l);
  json_string s := Some (GenLeaf (inl s));
  json_integer z := GenLeaf (inr z);
  json_array_elements j := match j with GenNode 0 l => Some l | _ => None end;
  json_is_object j := match j with GenNode 1 _ => true | _ => false end;
  json_object_get j k := match j with GenNode 1 l => foldr (tree_member k) None l | _ => None end;
  json_string_value j := match j with GenLeaf (inl s) => Some s | _ => None end;
  json_integer_value j := match j with GenLeaf (inr z) => Some z | _ => None end;
  json_dumps j := Some (String "#"%char (pos_text (encode j)));
  json_loads s := match s with String _ s => decode (text_pos s) | EmptyString => None end;
|}.

#[export] Instance tree_json_ok : JsonOk tree_json.
Proof.
  constructor; try done.
  - intros l k _. cbn. induction l as [|[k' v] l IH]; [done|]. cbn. rewrite IH, lookup_insert. done.
  - by intros s j [= <-].
  - intros l. eexists. split; [done|]. split; [done|]. cbn. by rewrite text_pos_text, decode_encode.
Qed.

Definition demo_life : sim_ctx_t * sim_db :=
  default (sim_memset, None) (neu_modbus_simulator_config_tags demo_tags
    (neu_modbus_simulator_init (λ _, true) (λ _, true) None) (Some None)).

Lemma demo_life_life : sim_life (λ _, true) (λ _, true) id demo_life.1 demo_life.2.
Proof.
  assert (separate demo_tags) as Hsep.
  { split; [|vm_compute; repeat constructor; set_solver]. constructor; [|constructor].
    constructor; cbn [st_index st_type st_name st_addr]; [done| |vm_compute; split; congruence|].
    2:{ eexists _, _. split_and!; [done|done|by eexists..]. }
    change (tag_regs _) with [8%nat]. apply Forall_singleton. lia. }
  pose proof (life_first (λ _, true) (λ _, true) id None) as Hfirst.
  destruct (config_life_ok _ _ _ (sim_life_ok _ _ _ _ _ Hfirst) Hsep) as (s & db & Hcfg & _).
  unfold demo_life. rewrite Hcfg. by eapply life_config.
Qed.

