(* ===== verification/SimulatorSignal.v ===== *)
(** * From the generator to the application

    A tag of the simulator is configured with the text of a Modbus address; the
    simulator takes the register from it with a scanner of its own, and the driver
    that is exported for the simulator parses the same text.  Both mean the same
    register, and the value that the generator writes there is the value that the
    driver publishes. *)

From Stdlib Require Import SpecFloat Ascii.
From S2P Require Import Prelude CStd CFloat NeuTypes Tag Modbus ModbusPoint ModbusPlan.
From S2P Require Import ModbusStack ModbusValue ModbusReq Simulator SimulatorOk SimulatorServe.
From S2P Require Import SimulatorDriver SimulatorStore SimulatorLife.

(** ** Two readings of an address *)

Lemma after_mark_skip c s : c ≠ "!"%char → after_hold_mark (String c s) = after_hold_mark s.
Proof. intros Hc. destruct s as [|c' s]; [done|]. cbn [after_hold_mark]. rewrite decide_False; [done|naive_solver]. Qed.

Lemma after_mark_ws s : after_hold_mark (skip_ws s) = after_hold_mark s.
Proof.
  induction s as [|c s IH]; [done|]. cbn [skip_ws]. destruct (is_space c) eqn:Hc; [|done].
  rewrite IH, after_mark_skip; [done|]. by intros ->.
Qed.

Lemma after_mark_digits s acc : after_hold_mark (scan_digits acc s).2 = after_hold_mark s.
Proof.
  revert acc. induction s as [|c s IH]; intros acc; [done|]. cbn [scan_digits].
  destruct (digit_of c) eqn:Hc; [|done]. rewrite IH, after_mark_skip; [done|]. by intros ->.
Qed.

Lemma after_mark_number s neg v rest :
  scan_number s = Some (neg, v, rest) → after_hold_mark rest = after_hold_mark s.
Proof.
  unfold scan_number. destruct (scan_sign s) as [neg' s1] eqn:Hs.
  assert (after_hold_mark s1 = after_hold_mark s) as <-.
  { unfold scan_sign in Hs. destruct s as [|c s]; [by simplify_eq|].
    repeat case_decide; simplify_eq; [by rewrite after_mark_skip..|done]. }
  destruct s1 as [|c s2]; [done|]. destruct (digit_of c) as [d|] eqn:Hd; [|done].
  destruct (scan_digits d s2) as [v' r] eqn:Hsc. intros [= _ _ <-].
  rewrite after_mark_skip by (by intros ->). rewrite <-(after_mark_digits s2 d). by rewrite Hsc.
Qed.

Lemma skip_ws_digit c s d : digit_of c = Some d → skip_ws (String c s) = String c s.
Proof.
  intros Hd. cbn [skip_ws]. destruct (is_space c) eqn:Hs; [|done]. exfalso.
  unfold is_space, digit_of in *. apply orb_true_iff in Hs.
  destruct ((48 <=? char_code c) && (char_code c <=? 57)) eqn:E; [|done]. rewrite !andb_true_iff in *. lia.
Qed.

Lemma scan_number_digit c s d :
  digit_of c = Some d → scan_number (String c s) = Some (false, (scan_digits d s).1, (scan_digits d s).2).
Proof.
  intros Hd. unfold scan_number, scan_sign. rewrite !decide_False by (by intros ->). rewrite Hd.
  by destruct (scan_digits d s).
Qed.

(** The number that the simulator takes out of an address of a holding register is
    the one that the driver scans. *)
Lemma address_scanned s slave start i :
  sscanf fmt_address s = [slave; ch "4"; start] → extract_hold_start_from_addr s = Some i →
  1 <= start <= 65535 ∧ i = start - 1.
Proof.
  unfold sscanf, fmt_address. cbn [sscanf_run].
  destruct (scan_number (skip_ws s)) as [[[neg n] s1]|] eqn:Hn; [|done].
  destruct s1 as [|c1 s1]; [done|]. destruct (decide (c1 = "!"%char)) as [->|]; [|done].
  destruct s1 as [|c2 s2]; [done|].
  destruct (scan_number (skip_ws s2)) as [[[neg2 n2] s3]|] eqn:Hn2; [|done].
  cbn [sscanf_run fst]. intros [= _ Hc Hstart] Hx.
  assert (c2 = "4"%char) as ->.
  { change (ch "4") with 52 in Hc. unfold char_code in Hc. rewrite <-(ascii_nat_embedding c2).
    by replace (nat_of_ascii c2) with 52%nat by lia. }
  unfold extract_hold_start_from_addr in Hx.
  rewrite <-after_mark_ws, <-(after_mark_number _ _ _ _ Hn) in Hx.
  cbn [after_hold_mark] in Hx. rewrite decide_True in Hx by done. cbn [mbind option_bind] in Hx.
  destruct s2 as [|c s2]; [done|]. destruct (digit_of c) as [d|] eqn:Hd; [|done]. cbn [mbind option_bind] in Hx.
  rewrite (skip_ws_digit c s2 d), (scan_number_digit c s2 d) in Hn2 by done. injection Hn2 as <- <- <-.
  unfold strtol_value, strtoul_value in *. revert Hx Hstart. set (v := (scan_digits d s2).1).
  destruct (Z.gtb_spec v 9223372036854775807); cbn [orb]; [done|].
  destruct (Z.leb_spec v 0); [done|]. destruct (Z.gtb_spec v 65535); [done|]. cbn [orb].
  destruct (Z.geb_spec v 18446744073709551616); [lia|]. rewrite u32_id by lia. intros [= <-] <-. zlia.
Qed.

(** The area and the start of a point that was accepted. *)
Lemma tag_to_point_scanned tag p :
  modbus_tag_to_point tag point_zero base_1 = (NEU_ERR_SUCCESS, p) → area p = MODBUS_AREA_HOLD_REGISTER →
  ∃ slave start, sscanf fmt_address (tag_address tag) = [slave; ch "4"; start] ∧
    start_address p = point_start start base_1.
Proof.
  unfold modbus_tag_to_point. destruct (neu_datatag_parse_addr_option tag _) as [ret o].
  destruct (negb (ret =? 0)); [done|].
  destruct (sscanf fmt_address (tag_address tag)) as [|slave [|c [|start [|]]]] eqn:Hsc; try done.
  destruct (start >? 65536); [done|]. destruct (area_of_char c) as [ar|] eqn:Har; [|done].
  destruct (_ && _); [done|].
  destruct (negb _) eqn:Hne; [intros [= E _]; by rewrite E in Hne|]. clear Hne.
  intros Hp Harea. assert (area p = ar ∧ start_address p = point_start start base_1) as [Ha Hst].
  { unfold count_registers, registers in Hp. repeat (case_match || simplify_eq); done. }
  exists slave, start. split; [|done]. do 2 f_equal. rewrite Ha in Harea. subst ar.
  unfold area_of_char in Har. by repeat case_decide; simplify_eq.
Qed.

(** The driver and the simulator agree on the register of an address. *)
Lemma address_agrees tag p i :
  modbus_tag_to_point tag point_zero base_1 = (NEU_ERR_SUCCESS, p) → area p = MODBUS_AREA_HOLD_REGISTER →
  extract_hold_start_from_addr (tag_address tag) = Some i → start_address p = i.
Proof.
  intros Hp Ha Hx. destruct (tag_to_point_scanned tag p Hp Ha) as (slave & start & Hsc & ->).
  destruct (address_scanned _ _ _ _ Hsc Hx) as [Hs ->]. unfold point_start. cbn [base_code].
  rewrite andb_false_r, (proj2 (Z.eqb_neq start 0)) by lia. cbn [andb]. zlia.
Qed.

(** ** What the generator writes *)

Lemma array_set_inv {A} i (x : A) l l' :
  array_set i x l = Some l' → 0 <= i < Z.of_nat (length l) ∧ l' = <[Z.to_nat i := x]> l.
Proof. unfold array_set. destruct (_ && _) eqn:E; [|done]. intros [= <-]. split; [lia|done]. Qed.

(** The registers differ at most in the one or two of a tag at [b]. *)
Definition regs_at (b : Z) (regs regs' : list Z) : Prop :=
  length regs' = length regs ∧
  ∀ a, Z.of_nat a ≠ b → Z.of_nat a ≠ b + 1 → regs' !! a = regs !! a.

Section signals.
Context (sin : spec_float → spec_float).

(** A round for one register changes at most two registers, and none without a tag. *)
Lemma generate_at_frame tms s b s' :
  0 <= b → generate_at sin tms s b = Some s' →
  ∃ regs, s' = with_hold regs s ∧ regs_at b (hold_regs s) regs ∧
    (sim_tag_type s !! Z.to_nat b = Some NEU_SIM_TAG_NONE → s' = s).
Proof.
  intros Hb. unfold generate_at. destruct (array_get (sim_tag_type s) b) as [tp|] eqn:Htp; [|done].
  cbn [mbind option_bind]. unfold array_get in Htp. rewrite (proj2 (Z.ltb_ge _ _)) in Htp by lia.
  assert (∀ x regs', array_set b x (hold_regs s) = Some regs' → regs_at b (hold_regs s) regs') as Hset.
  { intros x regs' [Hr ->]%array_set_inv. split; [apply length_insert|].
    intros a Ha _. rewrite list_lookup_insert_ne by lia. done. }
  destruct (Z.eqb_spec tp NEU_SIM_TAG_NONE) as [->|Hne].
  { intros [= <-]. exists (hold_regs s). rewrite with_hold_id. by split. }
  assert (∀ P : Prop, sim_tag_type s !! Z.to_nat b = Some NEU_SIM_TAG_NONE → P) as Hno by (intros P E; congruence).
  destruct (tp =? NEU_SIM_TAG_SINE).
  - unfold sim_update_sine_hi_lo. destruct (_ <? _).
    + destruct (array_set b _ (hold_regs s)) as [r1|] eqn:E1; [|done]. cbn [mbind option_bind].
      destruct (array_set (b + 1) _ r1) as [r2|] eqn:E2; [|done]. intros [= <-].
      apply array_set_inv in E1 as [Hr ->]. apply array_set_inv in E2 as [Hr' ->].
      eexists. split; [done|]. split; [|apply Hno]. split; [by rewrite !length_insert|].
      intros a Ha Ha'. rewrite !list_lookup_insert_ne by lia. done.
    + intros [= <-]. exists (hold_regs s). rewrite with_hold_id. by split; [|split; [|apply Hno]].
  - assert (∀ x, (regs ← array_set b x (hold_regs s); Some (with_hold regs s)) = Some s' →
      ∃ regs, s' = with_hold regs s ∧ regs_at b (hold_regs s) regs ∧
        (sim_tag_type s !! Z.to_nat b = Some NEU_SIM_TAG_NONE → s' = s)) as Hone.
    { intros x. destruct (array_set b x (hold_regs s)) as [r1|] eqn:E1; [|done]. intros [= <-].
      exists r1. split; [done|]. split; [by eapply Hset|apply Hno]. }
    destruct (tp =? NEU_SIM_TAG_SAW); [unfold sim_update_saw; destruct (saw_value tms); [apply Hone|done]|].
    destruct (tp =? NEU_SIM_TAG_SQUARE); [apply Hone|]. destruct (tp =? NEU_SIM_TAG_RANDOM); [apply Hone|].
    intros [= <-]. exists (hold_regs s). rewrite with_hold_id. by split; [|split; [|apply Hno]].
Qed.

(** A loop that passes registers without a tag and registers above [a]. *)
Lemma generate_rest tms l s s' a :
  Forall (λ b, 0 <= b ∧ (sim_tag_type s !! Z.to_nat b = Some NEU_SIM_TAG_NONE ∨ Z.of_nat a < b)) l →
  foldM (generate_at sin tms) s l = Some s' → hold_regs s' !! a = hold_regs s !! a.
Proof.
  revert s. induction l as [|b l IH]; intros s Hl; cbn [foldM]; [by intros [= ->]|].
  apply Forall_cons in Hl as [[Hb Hcase] Hl].
  destruct (generate_at sin tms s b) as [s1|] eqn:E; [|done]. cbn [mbind option_bind].
  destruct (generate_at_frame tms s b s1 Hb E) as (regs & -> & [_ Hregs] & Hnone). intros Hf%IH; [|done].
  rewrite Hf. destruct Hcase as [Hn|Hlt]; [by rewrite (Hnone Hn)|]. apply Hregs; lia.
Qed.

(** The tables are as they were. *)
Lemma generate_keeps tms l s s' :
  Forall (λ b, 0 <= b) l → foldM (generate_at sin tms) s l = Some s' →
  ∃ regs, s' = with_hold regs s ∧ length regs = length (hold_regs s).
Proof.
  revert s. induction l as [|b l IH]; intros s Hl; cbn [foldM].
  - intros [= <-]. exists (hold_regs s). by rewrite with_hold_id.
  - apply Forall_cons in Hl as [Hb Hl].
    destruct (generate_at sin tms s b) as [s1|] eqn:E; [|done]. cbn [mbind option_bind].
    destruct (generate_at_frame tms s b s1 Hb E) as (regs & -> & [Hlen _] & _).
    intros (regs' & -> & Hlen')%IH; [|done]. exists regs'. split; [done|]. by rewrite Hlen'.
Qed.

(** The registers of a tag at the time [tms]: a saw from 0 to 100, a square of -10
    and 10, a random number from 0 to 100, the two halves of a [float]. *)
Definition signal (tms : Z) (a : nat) (t : Z) : list Z :=
  if t =? NEU_SIM_TAG_SINE
  then [Z.land (Z.shiftr (sine_bits sin tms) 16) 0xFFFF; Z.land (sine_bits sin tms) 0xFFFF]
  else if t =? NEU_SIM_TAG_SAW then [Z.max 0 (Z.min 100 (default 0 (saw_value tms)))]
  else if t =? NEU_SIM_TAG_SQUARE then [u16 (square_value tms)]
  else [random_value (Z.of_nat a) tms].

Lemma generate_at_signal tms s a t s' :
  length (hold_regs s) = 1000%nat → (a < 1000)%nat → (t = NEU_SIM_TAG_SINE → (S a < 1000)%nat) → sim_tag_type s !! a = Some t → 1 <= t <= 4 →
  generate_at sin tms s (Z.of_nat a) = Some s' →
  ∀ i v, signal tms a t !! i = Some v → hold_regs s' !! (a + i)%nat = Some v.
Proof.
  intros Hlen Ha Hroom Hty Ht. unfold generate_at, array_get, signal. rewrite (proj2 (Z.ltb_ge _ _)), Nat2Z.id, Hty by lia.
  cbn [mbind option_bind]. rewrite (proj2 (Z.eqb_neq t NEU_SIM_TAG_NONE)) by (unfold NEU_SIM_TAG_NONE; lia).
  assert (∀ x y, u16 x = y → (regs ← array_set (Z.of_nat a) (u16 x) (hold_regs s); Some (with_hold regs s)) = Some s' →
    ∀ i v, [y] !! i = Some v → hold_regs s' !! (a + i)%nat = Some v) as Hone.
  { intros x y <-. rewrite array_set_some, Nat2Z.id by lia. intros [= <-] [|[|]] v; [|done..]. intros [= <-].
    rewrite Nat.add_0_r. apply list_lookup_insert_eq. lia. }
  destruct (Z.eqb_spec t NEU_SIM_TAG_SINE) as [E|Hns].
  { specialize (Hroom E). unfold sim_update_sine_hi_lo, SIM_MAX_REGS. rewrite (proj2 (Z.ltb_lt _ _)) by lia.
    rewrite (array_set_some (Z.of_nat a)) by lia. cbn [mbind option_bind].
    rewrite array_set_some by (rewrite length_insert; lia). intros [= <-] i v.
    replace (Z.to_nat (Z.of_nat a + 1)) with (S a) by lia. rewrite Nat2Z.id. cbn [hold_regs with_hold].
    destruct i as [|[|i]]; [| |done]; intros [= <-].
    - rewrite Nat.add_0_r, list_lookup_insert_ne, list_lookup_insert_eq by lia. done.
    - replace (a + 1)%nat with (S a) by lia. rewrite list_lookup_insert_eq by (rewrite length_insert; lia). done. }
  destruct (Z.eqb_spec t NEU_SIM_TAG_SAW).
  { unfold sim_update_saw. destruct (saw_value tms) as [w|]; [|done]. cbn [mbind option_bind].
    apply Hone. change (default 0 (Some w)) with w. set (w0 := if w <? 0 then 0 else w).
    assert (w0 = Z.max 0 w) as -> by (unfold w0; destruct (Z.ltb_spec w 0); lia).
    destruct (Z.gtb_spec (Z.max 0 w) 100); rewrite u16_id by lia; lia. }
  destruct (Z.eqb_spec t NEU_SIM_TAG_SQUARE).
  { apply Hone. unfold square_value. by destruct (_ <? _). }
  rewrite (proj2 (Z.eqb_eq t NEU_SIM_TAG_RANDOM))
    by (unfold NEU_SIM_TAG_SINE, NEU_SIM_TAG_SAW, NEU_SIM_TAG_SQUARE, NEU_SIM_TAG_RANDOM in *; lia).
  apply Hone. pose proof (random_range (Z.of_nat a) tms). by rewrite u16_id by lia.
Qed.

(** After a round every tag has its signal in its registers. *)
Lemma generated_signal tms s a t s' :
  sim_ok s → sim_tag_type s !! a = Some t → t ≠ NEU_SIM_TAG_NONE →
  (t = NEU_SIM_TAG_SINE → sim_tag_type s !! S a = Some NEU_SIM_TAG_NONE) → generate sin tms s = Some s' →
  ∀ i v, signal tms a t !! i = Some v → hold_regs s' !! (a + i)%nat = Some v.
Proof.
  intros Hs Hty Hne Hsine. destruct (so_owned s Hs a t Hty Hne) as (Hr & _).
  pose proof (so_types s Hs). pose proof (so_hold s Hs).
  assert (a < 1000)%nat as Ha by (apply lookup_lt_Some in Hty; lia).
  assert (t = NEU_SIM_TAG_SINE → (S a < 1000)%nat) as Hroom.
  { intros E. specialize (Hsine E). apply lookup_lt_Some in Hsine. lia. }
  unfold generate, SIM_MAX_REGS. replace 1000 with (Z.of_nat a + (1 + (999 - Z.of_nat a))) by lia.
  rewrite seqZ_app, foldM_app, seqZ_cons, Z.add_0_l by lia.
  destruct (foldM _ s (seqZ 0 (Z.of_nat a))) as [s1|] eqn:E1; [|done].
  apply generate_keeps in E1 as (regs & -> & Hlen); [|apply Forall_forall; intros b Hb%elem_of_seqZ; lia].
  cbn [mbind option_bind foldM].
  destruct (generate_at sin tms (with_hold regs s) (Z.of_nat a)) as [s2|] eqn:E2; [|done]. cbn [mbind option_bind].
  destruct (generate_at_frame tms _ _ _ (Nat2Z.is_nonneg a) E2) as (regs2 & Hs2 & _).
  intros Hrest i v Hv. transitivity (hold_regs s2 !! (a + i)%nat); [eapply generate_rest; [|exact Hrest]|].
  2:{ eapply (generate_at_signal tms (with_hold regs s) a t s2); try done. cbn [hold_regs with_hold]. lia. }
  apply Forall_forall. intros b Hb%elem_of_seqZ. split; [lia|]. rewrite Hs2. cbn [sim_tag_type with_hold].
  unfold signal in Hv. destruct (Z.eqb_spec t NEU_SIM_TAG_SINE) as [E|E].
  - destruct (decide (b = Z.of_nat a + 1)) as [->|]; [left|right].
    + replace (Z.to_nat (Z.of_nat a + 1)) with (S a) by lia. auto.
    + destruct i as [|[|]]; [lia|lia|done].
  - right. assert (i = 0%nat) as ->; [|lia]. revert Hv. repeat case_match; by destruct i.
Qed.

(** ** The value that is published *)

(** The bits of the [float], or the 16-bit number. *)
Definition signal_value (tms : Z) (a : nat) (t : Z) : Z :=
  if t =? NEU_SIM_TAG_SINE then u32 (sine_bits sin tms) else nth 0 (signal tms a t) 0.

(** What the header of the simulator says about a tag of type [INT16]. *)
Definition documented (t v : Z) : Prop :=
  (t = NEU_SIM_TAG_SAW → 0 <= s16 v <= 100) ∧
  (t = NEU_SIM_TAG_SQUARE → s16 v = -10 ∨ s16 v = 10) ∧
  (t = NEU_SIM_TAG_RANDOM → 0 <= s16 v <= 100).

Lemma signal_documented tms a t : documented t (signal_value tms a t).
Proof.
  unfold documented, signal_value, signal. split_and!; intros ->; cbn [Z.eqb Pos.eqb NEU_SIM_TAG_SAW
    NEU_SIM_TAG_SQUARE NEU_SIM_TAG_RANDOM NEU_SIM_TAG_SINE nth].
  - generalize (default 0 (saw_value tms)). intros w. zlia.
  - unfold square_value. destruct (_ <? _); [by left|by right].
  - pose proof (random_range (Z.of_nat a) tms). zlia.
Qed.

Lemma halves z : be_load (be_store 2 (Z.land (Z.shiftr z 16) 0xFFFF) ++ be_store 2 (Z.land z 0xFFFF)) = u32 z.
Proof.
  change 0xFFFF with (Z.ones 16). rewrite !Z.land_ones, Z.shiftr_div_pow2, !be_store_2 by lia.
  unfold be_load. cbn -[le_load]. change (2 ^ 16) with 65536.
  assert (u32 z = (z / 65536) mod 65536 * 65536 + z mod 65536) as -> by zlia.
  pose proof (Z.mod_pos_bound z 65536 ltac:(lia)). pose proof (Z.mod_pos_bound (z / 65536) 65536 ltac:(lia)).
  revert H H0. generalize (z mod 65536) ((z / 65536) mod 65536). clear z. intros l h Hl Hh.
  unfold le_load. zlia.
Qed.

(** The bytes of the registers of a tag are the number. *)
Lemma signal_bytes tms a t regs :
  1 <= t <= 4 → (∀ i v, signal tms a t !! i = Some v → regs !! (a + i)%nat = Some v) →
  be_load (registers_bytes (sim_mem regs) (Z.of_nat a) (Z.of_nat (length (signal tms a t)))) = signal_value tms a t.
Proof.
  intros Ht Hregs. assert (∀ i v, signal tms a t !! i = Some v → sim_mem regs (Z.of_nat a + Z.of_nat i) = v) as Hm.
  { intros i v Hv. unfold sim_mem. rewrite <-Nat2Z.inj_add, Nat2Z.id. apply nth_lookup_Some with (d := 0), Hregs, Hv. }
  clear Hregs. unfold registers_bytes, signal_value. revert Hm. unfold signal.
  destruct (t =? NEU_SIM_TAG_SINE).
  - intros Hm. pose proof (Hm 0%nat _ eq_refl) as H0. pose proof (Hm 1%nat _ eq_refl) as H1.
    cbn [length]. change (Z.of_nat 2) with 2. rewrite !seqZ_cons by lia. cbn [fmap list_fmap concat Z.pred].
    rewrite Z.add_0_r in H0. rewrite H0. replace (Z.succ (Z.of_nat a)) with (Z.of_nat a + Z.of_nat 1) by lia.
    rewrite H1. change (seqZ _ (Z.pred (Z.pred 2))) with (@nil Z). cbn [fmap list_fmap concat].
    rewrite app_nil_r. apply halves.
  - intros Hm.
    assert (∀ v, is_u16 v → sim_mem regs (Z.of_nat a + Z.of_nat 0) = v →
      be_load (concat ((λ b, be_store 2 (sim_mem regs b)) <$> seqZ (Z.of_nat a) (Z.of_nat (length [v])))) = nth 0 [v] 0) as Hone.
    { intros v Hv Hmv. rewrite Z.add_0_r in Hmv. cbn [length nth]. change (Z.of_nat 1) with 1. rewrite seqZ_cons by lia.
      change (seqZ _ (Z.pred 1)) with (@nil Z). cbn [fmap list_fmap concat]. rewrite app_nil_r, Hmv, be_load_store.
      apply Z.mod_small. done. }
    pose proof (random_range (Z.of_nat a) tms).
    destruct (t =? NEU_SIM_TAG_SAW); [|destruct (t =? NEU_SIM_TAG_SQUARE)];
      (apply Hone; [first [apply u16_range|lia]|exact (Hm 0%nat _ eq_refl)]).
Qed.

Lemma signal_length tms a t : Z.of_nat (length (signal tms a t)) <= 2.
Proof. unfold signal. by repeat case_match. Qed.

(** The order of the exported driver is that of the wire. *)
Lemma reference_abcd e64 p wire : n_register p <= 2 → reference_value MODBUS_ABCD e64 p wire = be_load wire.
Proof.
  intros Hn. unfold reference_value. destruct (opt_value_default (option_ p)); [|done].
  rewrite (proj2 (Z.eqb_neq (n_register p) 4)) by lia. destruct (n_register p =? 2); [|done].
  by destruct wire as [|? [|? [|? [|? [|]]]]].
Qed.

(** ** From the configuration to the application *)

(** The address of a tag is one of its register. *)
Definition addresses_ok (s : sim_ctx_t) : Prop :=
  ∀ a x, sim_tag_addr s !! a = Some (Some x) → extract_hold_start_from_addr x = Some (Z.of_nat a).

Lemma config_tag_addresses s t s' :
  addresses_ok s → (∀ x, st_addr t = Some x → extract_hold_start_from_addr x = Some (st_index t)) →
  config_tag s t = Some s' → addresses_ok s'.
Proof.
  intros Hs Ht. unfold config_tag.
  destruct (sim_mark_tag_unlocked _ _ s) as [s1|] eqn:Hmark; [|done]. cbn [mbind option_bind].
  assert (sim_tag_addr s1 = sim_tag_addr s) as Haddr.
  { unfold sim_mark_tag_unlocked in Hmark. repeat (case_match || simplify_option_eq); done. }
  destruct (match st_name t with Some n => _ | None => _ end) as [names|]; [|done]. cbn [mbind option_bind].
  destruct (st_addr t) as [x|] eqn:Hx; cbn [mbind option_bind].
  - destruct (array_set _ _ _) as [addrs|] eqn:Hset; [|done]. cbn [mbind option_bind]. intros [= <-].
    apply array_set_inv in Hset as [Hi ->]. intros a y. cbn [sim_tag_addr with_tables].
    rewrite Haddr, list_lookup_insert. case_decide as E; [|apply Hs]. intros [= <-].
    rewrite (Ht x eq_refl). f_equal. lia.
  - intros [= <-] a y. cbn [sim_tag_addr with_tables]. rewrite Haddr. apply Hs.
Qed.

Lemma config_tags_addresses tags s s' :
  (∀ t x, t ∈ tags → st_addr t = Some x → extract_hold_start_from_addr x = Some (st_index t)) →
  config_tags tags s = Some s' → addresses_ok s'.
Proof.
  unfold config_tags.
  assert (addresses_ok (sim_reset_regs_unlocked s)) as H0.
  { intros a x. cbn [sim_reset_regs_unlocked sim_tag_addr]. by intros [? _]%lookup_replicate. }
  revert H0. generalize (sim_reset_regs_unlocked s) as s0.
  induction tags as [|t tags IH]; intros s0 H0 Ht; cbn [foldM]; [by intros [= <-]|].
  destruct (config_tag s0 t) as [s1|] eqn:Hc; [|done]. cbn [mbind option_bind].
  apply IH; [|intros t' x Ht'; apply Ht; by right].
  eapply config_tag_addresses; [exact H0| |exact Hc]. intros x. apply Ht. left.
Qed.

(** The request that configures the tags takes their registers from their addresses. *)
Lemma set_config_addresses `{Json} body s db s' db' :
  handle_simulator_set_config body s db = Some (0, s', db') → addresses_ok s'.
Proof.
  unfold handle_simulator_set_config. destruct (json_loads body ≫= _) as [tags|]; [|done].
  unfold neu_modbus_simulator_config_tags.
  destruct (config_tags _ s) as [s1|] eqn:Hcfg; [|done]. cbn [mbind option_bind].
  destruct (sim_persist_save s1 db); [|done]. cbn [mbind option_bind]. intros [= <- _].
  eapply config_tags_addresses, Hcfg. intros t x (j & _ & Hj)%list_elem_of_omap Hx. unfold config_tag_of_json in Hj.
  repeat (case_match || simplify_option_eq); done.
Qed.

(** The tag that is exported for a register, in the driver. *)
Lemma exported_point s a t e tag p :
  addresses_ok s → (a < 1000)%nat → export_tag s (Z.of_nat a) t = Some e →
  tag_address tag = ex_address e → tag_type tag = ex_type e →
  attribute_test (tag_attribute tag) NEU_ATTRIBUTE_WRITE = false →
  modbus_tag_to_point tag point_zero base_1 = (NEU_ERR_SUCCESS, p) → area p = MODBUS_AREA_HOLD_REGISTER →
  start_address p = Z.of_nat a.
Proof.
  intros Hadr Ha He Hta Htt Hattr Hp Har. unfold export_tag, array_get in He.
  rewrite (proj2 (Z.ltb_ge _ _)), Nat2Z.id in He by lia.
  destruct (sim_tag_name s !! a) as [n|]; [|done]. cbn [mbind option_bind] in He.
  destruct (sim_tag_addr s !! a) as [o|] eqn:Ho; [|done]. cbn [mbind option_bind] in He.
  injection He as <-. cbn [ex_address ex_type] in *. destruct o as [x|]; cbn [default] in Hta.
  - change (default _ (Some x)) with x in Hta. apply (address_agrees tag p _ Hp Har). rewrite Hta. by apply Hadr.
  - change (default _ None) with (print_address 1 MODBUS_AREA_HOLD_REGISTER (Z.of_nat a + 1)) in Hta.
    pose proof (address_roundtrip tag 1 MODBUS_AREA_HOLD_REGISTER (Z.of_nat a + 1)
      (if t =? NEU_SIM_TAG_SINE then 2 else 1) ltac:(lia) eq_refl ltac:(lia) Hta) as Hrt.
    rewrite Hp in Hrt. destruct Hrt as (_ & _ & _ & -> & _); [|done|lia].
    rewrite Htt. unfold export_type. by destruct (t =? NEU_SIM_TAG_SINE).
Qed.

(** C17: A simulated signal reaches the applications. When the generator has made a
    round, a driver set up like the exported one (single TCP client, byte order
    ABCD, read sequence number below 65535) that polls the tag exported for a tag of
    the simulator publishes, with the type of the tag, the number that the generator
    computed for this time: the [float] of the sine, or a 16-bit number in the range
    that the header documents. For a sine, no tag sits in its second register, which
    the configuration does not check. The address may have been given in the
    configuration or made up by the export. *)
Theorem signal_is_published (plugin : neu_plugin sim_link unit) s s' gd cmd g max_byte tms a t e tag p :
  sim_ok s → addresses_ok s → sim_tag_type s !! a = Some t → t ≠ NEU_SIM_TAG_NONE →
  (t = NEU_SIM_TAG_SINE → sim_tag_type s !! S a = Some NEU_SIM_TAG_NONE) →
  generate sin tms s = Some s' →
  export_tag s (Z.of_nat a) t = Some e →
  tag_address tag = ex_address e → tag_type tag = ex_type e → tag_attribute tag = ex_attribute e →
  modbus_tag_to_point tag point_zero base_1 = (NEU_ERR_SUCCESS, p) → p ∈ rc_tags cmd →
  polls_simulator plugin s' gd cmd → cmd_planned max_byte cmd → endianess plugin = MODBUS_ABCD →
  ∃ plugin' g' ups u,
    check_modbus_read_result link_ops plugin g cmd = Some (plugin', g', false) ∧
    out plugin' = out plugin ++ (EvUpdate <$> ups) ∧ u ∈ ups ∧ up_tag u = Some (point_name p) ∧
    dvalue_type (up_value u) = Some (ex_type e) ∧
    le_load (mem_read 0 (Z.to_nat (2 * n_register p)) (dvalue_value (up_value u))) = signal_value tms a t ∧
    documented t (signal_value tms a t).
Proof.
  intros Hs Hadr Hty Hne Hsine Hgen He Hta Htt Hattr Hp Hin Hps Hplan Hen.
  destruct (so_owned s Hs a t Hty Hne) as (Hr & _). pose proof (so_types s Hs).
  assert (a < 1000)%nat as Ha by (apply lookup_lt_Some in Hty; lia).
  destruct (tag_to_point_wf _ _ _ Hp) as (_ & Hpt & _).
  pose proof Hplan as [_ Hinside _ _]. rewrite Forall_forall in Hinside.
  destruct (Hinside p Hin) as (_ & Har & _). rewrite (ps_area _ _ _ _ Hps) in Har.
  pose proof (ps_numeric _ _ _ _ Hps) as Hnums. rewrite Forall_forall in Hnums. destruct (Hnums p Hin) as (_ & ty & Hty' & Hnum).
  assert (ty = ex_type e) as -> by congruence.
  assert (ex_type e = export_type t ∧ ex_attribute e = NEU_ATTRIBUTE_READ) as [Hext Hexa].
  { unfold export_tag in He. destruct (array_get (sim_tag_name s) _); [|done].
    destruct (array_get (sim_tag_addr s) _); [|done]. by injection He as <-. }
  assert (start_address p = Z.of_nat a) as Hst.
  { eapply exported_point; try done. by rewrite Hattr, Hexa. }
  assert (n_register p = Z.of_nat (length (signal tms a t))) as Hnr.
  { rewrite Hext in Hnum. unfold export_type, signal in *. destruct (t =? NEU_SIM_TAG_SINE); cbn in Hnum; [by simplify_eq|].
    destruct (t =? NEU_SIM_TAG_SAW); [|destruct (t =? NEU_SIM_TAG_SQUARE)]; by simplify_eq. }
  destruct (simulator_polled plugin s' gd cmd g max_byte Hps Hplan) as (plugin' & g' & ups & Hchk & Hout & Hrep).
  apply list_elem_of_lookup in Hin as [i Hi].
  destruct (Forall2_lookup_l _ _ _ _ _ Hrep Hi) as (u & Hu & _ & Htag & Hdt & Hle).
  exists plugin', g', ups, u. split_and!; try done; [by eapply list_elem_of_lookup_2|congruence| |apply signal_documented].
  rewrite Hle, Hen, Hst, Hnr, reference_abcd by (rewrite Hnr; apply signal_length).
  by apply signal_bytes; [|eapply generated_signal].
Qed.
End signals.

(** ** A concrete run *)

(** The saw in register 8 after a round, and the driver that polls it. *)
Definition demo_generated : sim_ctx_t := default demo_sim (generate id 12345 demo_sim).
Definition demo_signal_tag : neu_datatag_t := example_tag NEU_TYPE_INT16 "1!400009" 1.
Definition demo_signal_point : modbus_point_t := (modbus_tag_to_point demo_signal_tag point_zero base_1).2.
Definition demo_signal_cmd : modbus_read_cmd_t := {|
  rc_slave_id := 1; rc_area := MODBUS_AREA_HOLD_REGISTER; rc_start_address := 8; rc_n_register := 1;
  rc_tags := [demo_signal_point] |}.
Definition demo_signal_gd : modbus_group_data := {|
  gd_group := "group1"; gd_tags := [demo_signal_point]; gd_cmds := [demo_signal_cmd]; gd_address_base := base_1 |}.
Definition demo_signal_driver : neu_plugin sim_link unit := {|
  conn := {| lk_sim := demo_generated; lk_cb := cycle_buf_zero; lk_stream := []; lk_answers := [] |};
  stack := modbus_stack_create MODBUS_PROTOCOL_TCP;
  plugin_group_data := Some demo_signal_gd; cmd_idx := 0; is_server := false; client_fd := 0;
  endianess := MODBUS_ABCD; endianess_64 := MODBUS_LL; address_base := base_1;
  max_retries := 0; plugin_check_header := false; degradation := false; degrade_cycle := 2;
  backup := false; current_backup := false; first_attempt_done := false;
  param := (); param_backup := (); out := [] |}.

Lemma demo_generated_eq : generate id 12345 demo_sim = Some demo_generated.
Proof. vm_compute. reflexivity. Qed.

Lemma demo_generated_ok : sim_ok demo_generated.
Proof.
  destruct (generate_ok id 12345 demo_sim demo_sim_ok) as (regs & Hg & Hf); [by vm_compute; eexists|].
  rewrite demo_generated_eq in Hg. apply (inj Some) in Hg. rewrite Hg.
  apply owned_frame_ok; [exact demo_sim_ok|exact Hf].
Qed.

Lemma demo_signal_polls : polls_simulator demo_signal_driver demo_generated demo_signal_gd demo_signal_cmd.
Proof.
  split; try reflexivity; try (cbn; lia).
  - split; [reflexivity|]. split; [exact demo_generated_ok|exact pending_zero].
  - constructor; [|constructor]. split; [split; vm_compute; try done; split; congruence|].
    exists NEU_TYPE_INT16. split; reflexivity.
Qed.

Lemma demo_signal_planned : cmd_planned 250 demo_signal_cmd.
Proof.
  split; cbn [rc_tags rc_slave_id rc_area rc_start_address rc_n_register demo_signal_cmd is_bit_area].
  - done.
  - repeat constructor; vm_compute; congruence.
  - intros a Ha. exists demo_signal_point. split; [by left|].
    change (start_address demo_signal_point) with 8. change (n_register demo_signal_point) with 1. lia.
  - left. lia.
Qed.

Lemma demo_addresses : addresses_ok demo_sim.
Proof.
  apply (config_tags_addresses demo_tags sim_zero); [|exact demo_sim_config].
  intros t x Ht. apply list_elem_of_singleton in Ht as ->. intros [= <-]. reflexivity.
Qed.

Lemma signal_is_published_witness :
  ∃ plugin' g' ups u,
    check_modbus_read_result link_ops demo_signal_driver slave_state_zero demo_signal_cmd =
      Some (plugin', g', false) ∧
    out plugin' = [] ++ (EvUpdate <$> ups) ∧ u ∈ ups ∧ up_tag u = Some (point_name demo_signal_point) ∧
    dvalue_type (up_value u) = Some NEU_TYPE_INT16 ∧
    le_load (mem_read 0 2 (dvalue_value (up_value u))) = signal_value id 12345 8 NEU_SIM_TAG_SAW ∧
    documented NEU_SIM_TAG_SAW (signal_value id 12345 8 NEU_SIM_TAG_SAW).
Proof.
  apply (signal_is_published id demo_signal_driver demo_sim demo_generated demo_signal_gd demo_signal_cmd
    slave_state_zero 250 12345 8 NEU_SIM_TAG_SAW
    {| ex_name := "saw"; ex_address := "1!400009"; ex_type := NEU_TYPE_INT16; ex_attribute := NEU_ATTRIBUTE_READ |}
    demo_signal_tag demo_signal_point).
  - exact demo_sim_ok.
  - exact demo_addresses.
  - vm_compute. reflexivity.
  - discriminate.
  - discriminate.
  - exact demo_generated_eq.
  - vm_compute. reflexivity.
  - reflexivity.
  - reflexivity.
  - reflexivity.
  - vm_compute. reflexivity.
  - left.
  - exact demo_signal_polls.
  - exact demo_signal_planned.
  - reflexivity.
Defined.
