(* ===== verification/ModbusConfig.v ===== *)
(** * The configuration of the Modbus drivers

    [driver_config] and [driver_uninit] of plugins/modbus/modbus_tcp.c and
    [driver_config] of modbus_rtu.c, with [neu_parse_param] of
    parser/neu_json_fn.c, [decode_object] of utils/json.c for the types that are
    used, and the parameters of a connection (connection/connection.c).  Texts
    that are copied are blocks of the heap, so that every [strdup] and [free] is
    there; [None] is a use of memory that is not.  The names of missing settings,
    allocated and freed for the log, are left out, and so are the clients of a
    server connection. *)

From S2P Require Import Prelude CHeap NeuTypes Modbus SimulatorStore.

Section config.
Context {JS : Json}.

Abbreviation MH := (M ()).

(** ** Settings *)

(** [strdup] of a text outside the heap. *)
Definition strdup_text (s : string) : MH Z :=
  let bs := (λ c, Z.of_nat (Ascii.nat_of_ascii c)) <$> String.list_ascii_of_string s in
  q ← calloc (S (length bs)); store q 0 bs;; mret q.

(** The types of settings. *)
Inductive elem_type := NEU_JSON_INT | NEU_JSON_STR.

(** [json_is_array (ob) && json_array_size (ob) > UINT16_MAX] *)
Definition too_long (ob : json_t) : bool :=
  match json_array_elements ob with Some l => Z.of_nat (length l) >? 65535 | None => false end.

(** The value, which is a pointer for a text, or a failure. *)
Definition decode_object (root : json_t) (name : string) (t : elem_type) : MH (option Z) :=
  match json_object_get root name with
  | None => mret None
  | Some ob =>
      if too_long ob then mret None else
      match t with
      | NEU_JSON_INT => mret (Some (default 0 (json_integer_value ob)))
      | NEU_JSON_STR =>
          match json_string_value ob with
          | Some s => p ← strdup_text s; mret (Some p)
          | None => mret None
          end
      end
  end.

(** The values in order; those from the first failure on are 0, as they were
    initialised. *)
Fixpoint parse_elems (p : json_t) (es : list (string * elem_type)) : MH (Z * list Z) :=
  match es with
  | [] => mret (0, [])
  | (name, t) :: es' =>
      v ← decode_object p name t;
      match v with
      | None => mret (-1, replicate (length es) 0)
      | Some v => r ← parse_elems p es'; mret (r.1, v :: r.2)
      end
  end.

Definition neu_parse_param (config : string) (es : list (string * elem_type)) : MH (Z * list Z) :=
  match (root ← json_loads config; p ← json_object_get root "params"; if too_long p then None else Some p) with
  | None => mret (-1, replicate (length es) 0)
  | Some p => parse_elems p es
  end.

(** Numbers with their defaults. *)
Definition parse_ints (config : string) (names : list string) (defaults : list Z) : MH (list Z) :=
  r ← neu_parse_param config ((., NEU_JSON_INT) <$> names);
  mret (if r.1 =? 0 then r.2 else defaults).

(** ** Connections *)

Definition NEU_CONN_TCP_SERVER : Z := 1.
Definition NEU_CONN_TCP_CLIENT : Z := 2.
Definition NEU_CONN_TTY_CLIENT : Z := 4.

(** [neu_conn_param_t]; [ip] and [device] are the first member of their structs
    and share their place in the union. *)
Record neu_conn_param_t := { cp_type : Z; cp_ip : Z; cp_port : Z; cp_timeout : Z }.
Definition conn_param_zero : neu_conn_param_t := {| cp_type := 0; cp_ip := 0; cp_port := 0; cp_timeout := 0 |}.

Definition conn_has_text (ty : Z) : bool :=
  (ty =? NEU_CONN_TCP_SERVER) || (ty =? NEU_CONN_TCP_CLIENT) || (ty =? NEU_CONN_TTY_CLIENT).

(** The parameters of a connection, of the types that the drivers use. *)
Definition conn_free_param (c : neu_conn_param_t) : MH () :=
  if conn_has_text (cp_type c) then free (cp_ip c) else mret ().
Definition conn_init_param (c param : neu_conn_param_t) : MH neu_conn_param_t :=
  if conn_has_text (cp_type param) then
    q ← strdup (cp_ip param);
    mret {| cp_type := cp_type param; cp_ip := q; cp_port := cp_port param; cp_timeout := cp_timeout param |}
  else mret {| cp_type := cp_type param; cp_ip := cp_ip c; cp_port := cp_port c; cp_timeout := cp_timeout c |}.
Definition neu_conn_new (param : neu_conn_param_t) : MH neu_conn_param_t := conn_init_param conn_param_zero param.
Definition neu_conn_reconfig (c param : neu_conn_param_t) : MH neu_conn_param_t :=
  conn_free_param c;; conn_init_param c param.

(** ** The plugin *)

(** The configured part of [neu_plugin_t]. *)
Record modbus_settings := {
  ms_is_server : bool;
  ms_is_serial : bool;
  ms_interval : Z;
  ms_retry_interval : Z;
  ms_max_retries : Z;
  ms_check_header : Z;
  ms_degradation : bool;
  ms_degrade_cycle : Z;
  ms_degrade_time : Z;
  ms_endianess : Z;
  ms_endianess_64 : Z;
  ms_address_base : Z;
  ms_backup : bool;
  ms_param : neu_conn_param_t;
  ms_param_backup : neu_conn_param_t;
  ms_conn : option neu_conn_param_t;
}.

(** [driver_open] *)
Definition driver_open : modbus_settings := {|
  ms_is_server := false; ms_is_serial := false; ms_interval := 0; ms_retry_interval := 0;
  ms_max_retries := 0; ms_check_header := 0; ms_degradation := false; ms_degrade_cycle := 0;
  ms_degrade_time := 0; ms_endianess := 0; ms_endianess_64 := 0; ms_address_base := 0;
  ms_backup := false; ms_param := conn_param_zero; ms_param_backup := conn_param_zero; ms_conn := None |}.

(** [neu_conn_reconfig] or [neu_conn_new] *)
Definition connect (conn : option neu_conn_param_t) (param : neu_conn_param_t) : MH neu_conn_param_t :=
  match conn with Some c => neu_conn_reconfig c param | None => neu_conn_new param end.

(** The branches of [connection_mode]: the parameters, those of the backup, whether
    there is one, and [is_server]. *)
Definition tcp_mode (p : modbus_settings) (mode host port timeout backup_ip backup_port : Z) (backup : bool)
    : MH (neu_conn_param_t * neu_conn_param_t * bool * bool) :=
  if mode =? 1 then
    ip ← strdup host;
    free (cp_ip (ms_param p));;
    free (cp_ip (ms_param_backup p));;
    mret ({| cp_type := NEU_CONN_TCP_SERVER; cp_ip := ip; cp_port := u16 port; cp_timeout := u16 timeout |},
          conn_param_zero, false, true)
  else if mode =? 0 then
    free (cp_ip (ms_param p));;
    ip ← strdup host;
    bip ← (if decide (backup_ip = 0) then mret 0
           else free (cp_ip (ms_param_backup p));; strdup backup_ip);
    mret ({| cp_type := NEU_CONN_TCP_CLIENT; cp_ip := ip; cp_port := u16 port; cp_timeout := u16 timeout |},
          {| cp_type := NEU_CONN_TCP_CLIENT; cp_ip := bip; cp_port := u16 backup_port; cp_timeout := u16 timeout |},
          backup, false)
  else mret (conn_param_zero, conn_param_zero, backup, ms_is_server p).

Definition num (l : list Z) (i : nat) : Z := nth i l 0.

Definition tcp_driver_config (p : modbus_settings) (config : string) : MH (Z * modbus_settings) :=
  r ← neu_parse_param config [("port", NEU_JSON_INT); ("host", NEU_JSON_STR); ("connection_mode", NEU_JSON_INT);
                              ("timeout", NEU_JSON_INT); ("interval", NEU_JSON_INT)]%string;
  let '(port, host, mode, timeout, interval) :=
    (num r.2 0, num r.2 1, num r.2 2, num r.2 3, num r.2 4) in
  if negb (r.1 =? 0) then free host;; mret (-1, p) else
  if timeout <=? 0 then mret (-1, p) else
  retries ← parse_ints config ["max_retries"; "retry_interval"]%string [0; 0];
  header ← parse_ints config ["check_header"]%string [0];
  degrade ← parse_ints config ["device_degrade"; "degrade_cycle"; "degrade_time"]%string [0; 2; 600];
  endian ← parse_ints config ["endianess"]%string [1];
  base ← parse_ints config ["address_base"]%string [1];
  b ← neu_parse_param config [("backup_host", NEU_JSON_STR); ("backup_port", NEU_JSON_INT)]%string;
  endian_64 ← parse_ints config ["endianess_64"]%string [1];
  m ← tcp_mode p mode host port timeout (num b.2 0) (num b.2 1) (b.1 =? 0);
  let '(param, param_backup, backup, is_server) := m in
  conn ← connect (ms_conn p) param;
  free host;;
  free (num b.2 0);;
  mret (0, {| ms_is_server := is_server; ms_is_serial := ms_is_serial p; ms_interval := u16 interval;
              ms_retry_interval := u16 (num retries 1); ms_max_retries := u16 (num retries 0);
              ms_check_header := u16 (num header 0); ms_degradation := negb (num degrade 0 =? 0);
              ms_degrade_cycle := u16 (num degrade 1); ms_degrade_time := u16 (num degrade 2);
              ms_endianess := u32 (num endian 0); ms_endianess_64 := u32 (num endian_64 0);
              ms_address_base := u32 (num base 0); ms_backup := backup; ms_param := param;
              ms_param_backup := param_backup; ms_conn := Some conn |}).

(** The texts that [driver_uninit] of the TCP driver releases. *)
Definition tcp_driver_uninit (p : modbus_settings) : MH () :=
  (match ms_conn p with Some c => conn_free_param c | None => mret () end);;
  free (cp_ip (ms_param p));;
  free (cp_ip (ms_param_backup p)).

(** The link of the RTU driver: a serial line, or a TCP connection by
    [connection_mode]. *)
Definition rtu_link (p : modbus_settings) (link mode text port timeout : Z)
    : neu_conn_param_t * bool * bool :=
  if link =? 0 then
    ({| cp_type := NEU_CONN_TTY_CLIENT; cp_ip := text; cp_port := 0; cp_timeout := u16 timeout |},
     ms_is_server p, true)
  else if mode =? 1 then
    ({| cp_type := NEU_CONN_TCP_SERVER; cp_ip := text; cp_port := u16 port; cp_timeout := u16 timeout |},
     true, ms_is_serial p)
  else if mode =? 0 then
    ({| cp_type := NEU_CONN_TCP_CLIENT; cp_ip := text; cp_port := u16 port; cp_timeout := u16 timeout |},
     false, ms_is_serial p)
  else (conn_param_zero, ms_is_server p, ms_is_serial p).

Definition rtu_driver_config (p : modbus_settings) (config : string) : MH (Z * modbus_settings) :=
  r ← neu_parse_param config [("link", NEU_JSON_INT); ("timeout", NEU_JSON_INT); ("interval", NEU_JSON_INT)]%string;
  let '(link, timeout, interval) := (num r.2 0, num r.2 1, num r.2 2) in
  if negb (r.1 =? 0) then mret (-1, p) else
  if timeout <=? 0 then mret (-1, p) else
  let p := {| ms_is_server := ms_is_server p; ms_is_serial := ms_is_serial p; ms_interval := u16 interval;
              ms_retry_interval := ms_retry_interval p; ms_max_retries := ms_max_retries p;
              ms_check_header := ms_check_header p; ms_degradation := ms_degradation p;
              ms_degrade_cycle := ms_degrade_cycle p; ms_degrade_time := ms_degrade_time p;
              ms_endianess := ms_endianess p; ms_endianess_64 := ms_endianess_64 p;
              ms_address_base := ms_address_base p; ms_backup := ms_backup p; ms_param := ms_param p;
              ms_param_backup := ms_param_backup p; ms_conn := ms_conn p |} in
  l ← (if link =? 0
       then neu_parse_param config [("device", NEU_JSON_STR); ("stop", NEU_JSON_INT); ("parity", NEU_JSON_INT);
                                    ("baud", NEU_JSON_INT); ("data", NEU_JSON_INT)]%string
       else neu_parse_param config [("connection_mode", NEU_JSON_INT); ("host", NEU_JSON_STR);
                                    ("port", NEU_JSON_INT)]%string);
  if negb (l.1 =? 0) then mret (-1, p) else
  retries ← parse_ints config ["max_retries"; "retry_interval"]%string [0; 0];
  degrade ← parse_ints config ["device_degrade"; "degrade_cycle"; "degrade_time"]%string [0; 2; 600];
  endian ← parse_ints config ["endianess"]%string [1];
  base ← parse_ints config ["address_base"]%string [1];
  endian_64 ← parse_ints config ["endianess_64"]%string [1];
  let text := if link =? 0 then num l.2 0 else num l.2 1 in
  let '(param, is_server, is_serial) := rtu_link p link (num l.2 0) text (num l.2 2) timeout in
  conn ← connect (ms_conn p) param;
  free text;;
  mret (0, {| ms_is_server := is_server; ms_is_serial := is_serial; ms_interval := ms_interval p;
              ms_retry_interval := u16 (num retries 1); ms_max_retries := u16 (num retries 0);
              ms_check_header := ms_check_header p; ms_degradation := negb (num degrade 0 =? 0);
              ms_degrade_cycle := u16 (num degrade 1); ms_degrade_time := u16 (num degrade 2);
              ms_endianess := u32 (num endian 0); ms_endianess_64 := u32 (num endian_64 0);
              ms_address_base := u32 (num base 0); ms_backup := ms_backup p; ms_param := ms_param p;
              ms_param_backup := ms_param_backup p; ms_conn := Some conn |}).
End config.
