(* ===== verification/ModbusConfigOk.v ===== *)
(** * Configuring the Modbus TCP driver

    Whatever texts a driver is configured with, in whatever order, no memory is
    used that is not there, the plugin and its connection own their texts, and
    [driver_uninit] releases what they own. *)

From S2P Require Import Prelude CHeap NeuTypes Modbus SimulatorStore ModbusConfig.

Abbreviation heap := (mem ()).
Implicit Types (h : mem ()).

(** ** A heap of texts *)

(** The blocks of the heap are those of [X], each a text. *)
Definition texts h (X : gset Z) : Prop :=
  0 < hp_next h ∧ dom (hp_blocks h) = X ∧
  ∀ p b, hp_blocks h !! p = Some b → 0 < p < hp_next h ∧ is_Some (c_string b).

(** The outcome of an allocation. *)
Definition new_text (X : gset Z) (p : Z) h : Prop := 0 < p ∧ (p ∉ X) ∧ texts h ({[p]} ∪ X).

Lemma c_string_strdup bs : is_Some (c_string (bs ++ [0])).
Proof.
  induction bs as [|c bs IH]; [by eexists|]. cbn [app c_string]. destruct (decide (c = 0)); [by eexists|].
  destruct IH as [s ->]. by eexists.
Qed.

Lemma texts_alloc h X bs :
  texts h X → runs (q ← calloc (S (length bs)); store q 0 bs;; mret q) h (new_text X).
Proof.
  intros (Hn & Hd & Hb). apply runs_bind, runs_calloc, runs_bind.
  set (h1 := Mem _ (<[_ := _]> _) _).
  assert (runs (store (hp_next h) 0 bs) h1 (λ _ h', ∃ c, h' = set_blocks (<[hp_next h := c]> (hp_blocks h)) h1 ∧
    is_Some (c_string c))) as Hst.
  { destruct (decide (bs = [])) as [->|Hne].
    - exists (), h1. split; [done|]. exists [0]. split; [done|]. by eexists.
    - eapply runs_store with (b := replicate (S (length bs)) 0); [done|apply lookup_insert_eq| |].
      + rewrite length_replicate. lia.
      + exists (bs ++ [0]). split; [|apply c_string_strdup]. unfold set_blocks, h1. cbn. rewrite insert_insert_eq.
        do 2 f_equal. unfold mem_write.
        change (0 :: replicate (length bs) 0) with (replicate (S (length bs)) 0). cbn [take app]. rewrite Nat.add_0_l, replicate_S_end, drop_app_length'; [done|].
        by rewrite length_replicate. }
  eapply runs_mono; [exact Hst|]. intros [] h' (c & -> & Hc). apply runs_ret.
  assert (hp_next h ∉ X) as Hfresh.
  { rewrite <-Hd, elem_of_dom. intros [b Hx]. apply Hb in Hx. lia. }
  split; [done|]. split; [done|]. split; [cbn; lia|]. split; [cbn; by rewrite dom_insert_L, Hd|].
  intros p b. cbn. destruct (decide (p = hp_next h)) as [->|].
  - rewrite lookup_insert_eq. intros [= <-]. split; [lia|done].
  - rewrite lookup_insert_ne by done. intros [? ?]%Hb. split; [lia|done].
Qed.

Lemma texts_strdup_text s h X : texts h X → runs (strdup_text s) h (new_text X).
Proof. apply texts_alloc. Qed.

Lemma texts_strdup p h X : texts h X → p ∈ X → runs (strdup p) h (new_text X).
Proof.
  intros HX Hp. pose proof HX as (_ & Hd & Hb). rewrite <-Hd, elem_of_dom in Hp. destruct Hp as [b Hp].
  destruct (Hb p b Hp) as [_ [s Hs]]. destruct (texts_alloc h X s HX) as (q & h' & Heq & Hq).
  exists q, h'. split; [|done]. unfold strdup, load_str. by rewrite Hp; cbn [mbind option_bind]; rewrite Hs.
Qed.

Lemma texts_free p h X : texts h X → p = 0 ∨ p ∈ X → runs (free p) h (λ _ h', texts h' (X ∖ {[p]})).
Proof.
  intros HX Hp. pose proof HX as (Hn & Hd & Hb). apply runs_free.
  { destruct Hp as [->|Hp]; [by left|]. right. by rewrite <-Hd, elem_of_dom in Hp. }
  case_decide as E.
  - subst p. replace (X ∖ {[0]}) with X; [done|]. apply set_eq. intros q. rewrite elem_of_difference, elem_of_singleton.
    split; [|naive_solver]. intros Hq. split; [done|]. intros ->. rewrite <-Hd, elem_of_dom in Hq.
    destruct Hq as [b Hq]. apply Hb in Hq. lia.
  - split; [done|]. split; [cbn; by rewrite dom_delete_L, Hd|]. intros q b. cbn.
    intros [_ ?]%lookup_delete_Some. by apply Hb.
Qed.

Lemma texts_pos h X p : texts h X → p ∈ X → 0 < p.
Proof. intros (_ & <- & Hb) [b Hp]%elem_of_dom. apply Hb in Hp. lia. Qed.

(** ** Owned texts *)

(** The texts of the heap are those that the pointers of [l] point to, each owned
    once; a null pointer owns nothing. *)
Definition owning h (l : list Z) : Prop :=
  texts h (list_to_set (filter (.≠ 0) l)) ∧ NoDup (filter (.≠ 0) l).

#[export] Instance owning_perm h : Proper ((≡ₚ) ==> iff) (owning h).
Proof. intros l k Hlk. unfold owning. by rewrite Hlk. Qed.

Lemma owning_null h l : owning h (0 :: l) ↔ owning h l.
Proof. unfold owning. by rewrite filter_cons_False by (intros H; by apply H). Qed.

Lemma owning_cons h p l :
  p ≠ 0 → owning h (p :: l) ↔
    texts h ({[p]} ∪ list_to_set (filter (.≠ 0) l)) ∧ (p ∉ filter (.≠ 0) l) ∧ NoDup (filter (.≠ 0) l).
Proof. intros Hp. unfold owning. rewrite filter_cons_True by done. rewrite NoDup_cons. done. Qed.

Lemma new_text_owning h h' p l :
  owning h l → new_text (list_to_set (filter (.≠ 0) l)) p h' → 0 < p ∧ owning h' (p :: l).
Proof.
  intros [_ Hnd] (Hp & Hnew & Ht). split; [done|]. apply owning_cons; [lia|].
  by rewrite elem_of_list_to_set in Hnew.
Qed.

Lemma owning_free h p l : owning h (p :: l) → runs (free p) h (λ _ h', owning h' l).
Proof.
  destruct (decide (p = 0)) as [->|Hp].
  - intros H%owning_null. exists (), h. by split.
  - intros (Ht & Hn & Hnd)%owning_cons; [|done].
    eapply runs_mono; [apply (texts_free p _ _ Ht); right; set_solver|]. intros [] h' Ht'. split; [|done].
    replace (list_to_set _) with (({[p]} ∪ list_to_set (filter (.≠ 0) l)) ∖ {[p]} : gset Z); [done|].
    apply set_eq. intros q. rewrite elem_of_difference, elem_of_union, elem_of_singleton, elem_of_list_to_set.
    naive_solver.
Qed.

Lemma owning_release h p l k : owning h l → l ≡ₚ p :: k → runs (free p) h (λ _ h', owning h' k).
Proof. intros Hl Hk. apply owning_free. by rewrite <-Hk. Qed.

Lemma owning_strdup h p l : owning h l → p ≠ 0 → p ∈ l → runs (strdup p) h (λ q h', 0 < q ∧ owning h' (q :: l)).
Proof.
  intros Hl Hp Hin. eapply runs_mono; [apply (texts_strdup p _ _ (proj1 Hl))|].
  - rewrite elem_of_list_to_set. by apply list_elem_of_filter.
  - intros q h'. by apply (new_text_owning h).
Qed.

Section ok.
Context {JS : Json}.

(** ** Settings *)

Definition setting (config name : string) : option json_t :=
  root ← json_loads config; p ← json_object_get root "params";
  if too_long p then None else
  ob ← json_object_get p name; if too_long ob then None else Some ob.

(** The number that a setting of type [NEU_JSON_INT] is read as. *)
Definition setting_int (config name : string) : Z := default 0 (setting config name ≫= json_integer_value).

Definition ints (names : list string) : list (string * elem_type) := (., NEU_JSON_INT) <$> names.

(** The params object. *)
Definition params_of (config : string) (p : json_t) : Prop :=
  (root ← json_loads config; p ← json_object_get root "params"; if too_long p then None else Some p) = Some p.

Lemma setting_of config p name :
  params_of config p →
  setting config name = (ob ← json_object_get p name; if too_long ob then None else Some ob).
Proof.
  unfold params_of, setting. destruct (json_loads config) as [root|]; [|done]. cbn [mbind option_bind].
  destruct (json_object_get root "params") as [q|]; [|done]. cbn [mbind option_bind].
  destruct (too_long q); [done|]. by intros [= ->].
Qed.

(** Numbers leave the heap alone. *)
Lemma decode_int config p name h Q :
  params_of config p →
  Q (match setting config name with Some _ => Some (setting_int config name) | None => None end) h →
  runs (decode_object p name NEU_JSON_INT) h Q.
Proof.
  intros Hp. unfold setting_int. rewrite (setting_of config p name Hp). unfold decode_object.
  destruct (json_object_get p name) as [ob|]; [|apply runs_ret]. cbn [mbind option_bind].
  destruct (too_long ob); apply runs_ret.
Qed.

Lemma parse_elems_ints config p names h :
  params_of config p →
  runs (parse_elems p (ints names)) h (λ r h', h' = h ∧
    (r.1 = 0 ∧ r.2 = setting_int config <$> names ∨ r.1 = -1)).
Proof.
  intros Hp. induction names as [|n names IH]; [by apply runs_ret; split; [|left]|].
  cbn [ints fmap list_fmap parse_elems]. apply runs_bind. apply (decode_int config); [done|].
  destruct (setting config n) as [ob|] eqn:Hs; [|by apply runs_ret; split; [|right]].
  apply runs_bind. eapply runs_mono; [exact IH|]. intros r h' [-> Hr]. apply runs_ret. split; [done|].
  cbn [fst snd]. destruct Hr as [[-> ->]| ->]; [by left|by right].
Qed.

Lemma runs_parse_ints config names defaults h :
  runs (parse_ints config names defaults) h (λ r h', h' = h ∧ (r = (setting_int config <$> names) ∨ r = defaults)).
Proof.
  unfold parse_ints. apply runs_bind. unfold neu_parse_param.
  destruct (root ← json_loads config; _) as [p|] eqn:Hp; cbn [fst snd].
  - eapply runs_mono; [by apply (parse_elems_ints config)|]. intros r h' [-> Hr]. apply runs_ret. split; [done|].
    destruct Hr as [[-> ->]| ->]; [by left|by right].
  - apply runs_ret, runs_ret. split; [done|]. by right.
Qed.

Lemma num_zeros n i : num (replicate n 0) i = 0.
Proof. revert i. induction n as [|n IH]; intros [|i]; try done. apply IH. Qed.

(** One text between numbers: it is there, or the call has failed. *)
Definition text_parsed (config : string) (pre post : list string) (name : string) (X : gset Z)
    (r : Z * list Z) h : Prop :=
  let v := num r.2 (length pre) in
  (v = 0 ∧ r.1 = -1 ∧ texts h X ∨ new_text X v h) ∧
  (r.1 = 0 ∧ r.2 = (setting_int config <$> pre) ++ v :: (setting_int config <$> post) ∨ r.1 = -1) ∧
  (pre = [] → v = 0 → setting config name ≫= json_string_value = None).

Lemma parse_elems_text config p pre name post h X :
  params_of config p → texts h X →
  runs (parse_elems p (ints pre ++ (name, NEU_JSON_STR) :: ints post)) h (text_parsed config pre post name X).
Proof.
  intros Hp HX. induction pre as [|n pre IH]; cbn [ints fmap list_fmap app parse_elems]; apply runs_bind.
  - unfold decode_object. pose proof (setting_of config p name Hp) as Hset.
    assert (setting config name ≫= json_string_value = None → runs (mret None) h
      (λ v h', runs (match v with None => mret (-1, replicate (length ((name, NEU_JSON_STR) :: ints post)) 0)
        | Some v => r ← parse_elems p (ints post); mret (r.1, v :: r.2) end) h'
        (text_parsed config [] post name X))) as Hfail.
    { intros Hnone. apply runs_ret, runs_ret. split; [by left|]. split; [by right|]. done. }
    destruct (json_object_get p name) as [ob|]; cbn [mbind option_bind] in Hset; [|apply Hfail; by rewrite Hset].
    destruct (too_long ob); [apply Hfail; by rewrite Hset|].
    destruct (json_string_value ob) as [s|] eqn:Hs; [|apply Hfail; by rewrite Hset].
    apply runs_bind. eapply runs_mono; [by apply texts_strdup_text|]. intros v h' Hv. apply runs_ret, runs_bind.
    eapply runs_mono; [by apply (parse_elems_ints config)|]. intros r h2 [-> Hr]. apply runs_ret.
    split; [by right|]. cbn [fst snd]. split; [destruct Hr as [[-> ->]| ->]; [by left|by right]|].
    intros _ Hz. change (v = 0) in Hz. destruct Hv as [Hv _]. lia.
  - apply (decode_int config); [done|]. destruct (setting config n) as [ob|].
    2:{ apply runs_ret. unfold text_parsed. cbn [fst snd]. rewrite num_zeros. split; [by left|]. by split; [right|]. }
    apply runs_bind. eapply runs_mono; [exact IH|]. intros r h' (Hv & Hr & _). apply runs_ret.
    split; [done|]. split; [|done]. cbn [fst snd]. destruct Hr as [[-> Hr]| ->]; [left|by right].
    split; [done|]. cbn [fmap list_fmap app]. f_equal. exact Hr.
Qed.

Lemma runs_parse_text config pre name post h X :
  texts h X →
  runs (neu_parse_param config (ints pre ++ (name, NEU_JSON_STR) :: ints post)) h
    (text_parsed config pre post name X).
Proof.
  intros HX. unfold neu_parse_param. destruct (root ← json_loads config; _) as [p|] eqn:Hp.
  - by apply parse_elems_text.
  - apply runs_ret. unfold text_parsed. cbn [fst snd]. rewrite num_zeros. split; [by left|]. split; [by right|].
    intros _ _. unfold setting. revert Hp. destruct (json_loads config) as [root|]; [|done]. cbn [mbind option_bind].
    destruct (json_object_get root "params") as [q|]; [|done]. cbn [mbind option_bind]. by destruct (too_long q).
Qed.

(** The same with owned texts: the new pointer is null if the call fails before. *)
Definition owned_parsed (config : string) (pre post : list string) (name : string) (l : list Z)
    (r : Z * list Z) h : Prop :=
  let v := num r.2 (length pre) in
  owning h (v :: l) ∧ (r.1 = 0 → v ≠ 0) ∧
  (r.1 = 0 ∧ r.2 = (setting_int config <$> pre) ++ v :: (setting_int config <$> post) ∨ r.1 = -1) ∧
  (pre = [] → v = 0 → setting config name ≫= json_string_value = None).

Lemma owning_parse config pre name post h l :
  owning h l →
  runs (neu_parse_param config (ints pre ++ (name, NEU_JSON_STR) :: ints post)) h
    (owned_parsed config pre post name l).
Proof.
  intros Hl. eapply runs_mono; [apply (runs_parse_text config pre name post h _ (proj1 Hl))|].
  intros r h' (Hv & Hr & Hs). unfold owned_parsed. destruct Hv as [(Hv & Hr1 & Ht)|Hv].
  - rewrite Hv, owning_null, Hr1. split; [by split; [|apply Hl]|]. split; [done|]. split; [by right|]. intros E _. by apply Hs.
  - destruct (new_text_owning h h' _ l Hl Hv). split; [done|]. split; [lia|]. done.
Qed.

(** ** Connections *)

Definition conn_texts (c : option neu_conn_param_t) : list Z :=
  match c with Some c => if conn_has_text (cp_type c) then [cp_ip c] else [] | None => [] end.

Lemma owning_init c param h l :
  owning h l → (conn_has_text (cp_type param) = true → cp_ip param ≠ 0 ∧ cp_ip param ∈ l) →
  runs (conn_init_param c param) h (λ c' h', owning h' (conn_texts (Some c') ++ l)).
Proof.
  intros Hl Hp. unfold conn_init_param. destruct (conn_has_text (cp_type param)) eqn:E.
  - destruct Hp as [Hne Hin]; [done|]. apply runs_bind. eapply runs_mono; [by apply owning_strdup|].
    intros q h' [_ Hq]. apply runs_ret. cbn [conn_texts cp_type cp_ip]. by rewrite E.
  - apply runs_ret. cbn [conn_texts cp_type]. by rewrite E.
Qed.

Lemma owning_connect conn param h l :
  owning h (conn_texts conn ++ l) → (conn_has_text (cp_type param) = true → cp_ip param ≠ 0 ∧ cp_ip param ∈ l) →
  runs (connect conn param) h (λ c h', owning h' (conn_texts (Some c) ++ l)).
Proof.
  intros Hl Hp. destruct conn as [c|]; cbn [connect]; [|by apply owning_init].
  unfold neu_conn_reconfig. apply runs_bind. unfold conn_free_param. cbn [conn_texts] in Hl.
  destruct (conn_has_text (cp_type c)).
  - eapply runs_mono; [by apply owning_free|]. intros [] h' Hl'. by apply owning_init.
  - apply runs_ret. by apply owning_init.
Qed.

(** ** The configuration *)

Definition plugin_texts (p : modbus_settings) : list Z :=
  cp_ip (ms_param p) :: cp_ip (ms_param_backup p) :: conn_texts (ms_conn p).

(** The plugin owns its texts; [lost] are texts that nobody has a pointer to. *)
Definition config_ok h (p : modbus_settings) (lost : list Z) : Prop := owning h (plugin_texts p ++ lost).

(** A configuration that loses nothing: the timeout is positive, and the driver is
    a server, or a client with a backup. *)
Definition complete (config : string) : Prop :=
  0 < setting_int config "timeout" ∧
  (setting_int config "connection_mode" = 1 ∨
   setting_int config "connection_mode" = 0 ∧ is_Some (setting config "backup_host" ≫= json_string_value)).

(** The branches of [connection_mode]. *)
Lemma owning_mode p mode host port timeout bip bport backup h l :
  owning h (cp_ip (ms_param p) :: cp_ip (ms_param_backup p) :: bip :: host :: l) → host ≠ 0 →
  runs (tcp_mode p mode host port timeout bip bport backup) h (λ m h', ∃ lost,
    let '(param, param_backup, _, _) := m in
    owning h' (cp_ip param :: cp_ip param_backup :: bip :: host :: lost ++ l) ∧
    (conn_has_text (cp_type param) = true → cp_ip param ≠ 0) ∧
    (mode = 1 ∨ mode = 0 ∧ bip ≠ 0 → lost = [])).
Proof.
  intros Hl Hh. unfold tcp_mode. set (a := cp_ip (ms_param p)) in *. set (b := cp_ip (ms_param_backup p)) in *.
  destruct (Z.eqb_spec mode 1) as [->|H1]; [|destruct (Z.eqb_spec mode 0) as [->|H0]].
  - apply runs_bind. eapply runs_mono; [apply (owning_strdup _ host _ Hl Hh); set_solver|]. intros ip h1 [Hip Ho].
    apply runs_bind. eapply runs_mono; [apply (owning_release _ a _ (ip :: b :: bip :: host :: l) Ho); solve_Permutation|].
    intros [] h2 Ho2. apply runs_bind.
    eapply runs_mono; [apply (owning_release _ b _ (ip :: bip :: host :: l) Ho2); solve_Permutation|].
    intros [] h3 Ho3. apply runs_ret. exists []. cbn [cp_ip cp_type conn_param_zero app]. split; [|by split; [lia|]].
    by rewrite (Permutation_swap 0), owning_null.
  - apply runs_bind. eapply runs_mono; [apply (owning_free _ a _ Hl)|]. intros [] h1 Ho.
    apply runs_bind. eapply runs_mono; [apply (owning_strdup _ host _ Ho Hh); set_solver|]. intros ip h2 [Hip Ho2].
    apply runs_bind. destruct (decide (bip = 0)) as [->|Hb].
    + apply runs_ret, runs_ret. exists [b]. cbn [cp_ip cp_type app]. split; [|split; [lia|naive_solver]].
      rewrite (Permutation_swap 0), owning_null. eapply owning_perm; [|exact Ho2]. solve_Permutation.
    + apply runs_bind.
      eapply runs_mono; [apply (owning_release _ b _ (ip :: bip :: host :: l) Ho2); solve_Permutation|].
      intros [] h3 Ho3. eapply runs_mono; [apply (owning_strdup _ bip _ Ho3 Hb); set_solver|]. intros q h4 [Hq Ho4].
      apply runs_ret. exists []. cbn [cp_ip cp_type app]. split; [|by split; [lia|]].
      eapply owning_perm; [|exact Ho4]. solve_Permutation.
  - apply runs_ret. exists [a; b]. cbn [cp_ip cp_type conn_param_zero]. split; [|split; [done|lia]].
    rewrite !owning_null. eapply owning_perm; [|exact Hl]. solve_Permutation.
Qed.

Lemma config_step config h p lost :
  config_ok h p lost →
  runs (tcp_driver_config p config) h (λ r h', ∃ lost', config_ok h' r.2 (lost' ++ lost) ∧
    (r.1 ≠ 0 → r.2 = p) ∧ (complete config → lost' = [])).
Proof.
  intros Hok. unfold tcp_driver_config. apply runs_bind.
  eapply runs_mono; [apply (owning_parse config ["port"] "host" ["connection_mode"; "timeout"; "interval"] h _ Hok)|].
  intros r h1 (Ho & Hv & Hr & _). cbn [length] in Ho, Hv, Hr. set (host := num r.2 1) in *.
  destruct (Z.eqb_spec (r.1) 0) as [E|E]; cbn [negb].
  2:{ apply runs_bind. eapply runs_mono; [apply (owning_free _ _ _ Ho)|]. intros [] h2 Ho2. apply runs_ret.
      exists []. done. }
  destruct Hr as [[_ Hr]|Hr]; [|by rewrite E in Hr]. specialize (Hv E).
  assert (num r.2 3 = setting_int config "timeout") as -> by (by rewrite Hr).
  assert (num r.2 2 = setting_int config "connection_mode") as -> by (by rewrite Hr).
  destruct (Z.leb_spec (setting_int config "timeout") 0) as [Ht|Ht].
  { apply runs_ret. exists [host]. split; [eapply owning_perm; [|exact Ho]; solve_Permutation|].
    split; [done|]. intros [? _]. lia. }
  do 5 (apply runs_bind; eapply runs_mono; [apply runs_parse_ints|]; intros ? ? [-> _]).
  apply runs_bind. eapply runs_mono; [apply (owning_parse config [] "backup_host" ["backup_port"] _ _ Ho)|].
  intros b h2 (Hob & _ & _ & Hb). cbn [length] in Hob, Hb. set (bip := num b.2 0) in *.
  apply runs_bind; eapply runs_mono; [apply runs_parse_ints|]; intros endian_64 ? [-> _].
  apply runs_bind. eapply runs_mono.
  { apply (owning_mode p _ host _ _ bip _ _ h2 (conn_texts (ms_conn p) ++ lost)); [|done].
    eapply owning_perm; [|exact Hob]. unfold plugin_texts. solve_Permutation. }
  intros [[[param param_backup] backup] is_server] h3 (lost' & Ho3 & Hip & Hlost).
  apply runs_bind. eapply runs_mono.
  { apply (owning_connect (ms_conn p) param _ (cp_ip param :: cp_ip param_backup :: bip :: host :: lost' ++ lost)).
    - eapply owning_perm; [|exact Ho3]. solve_Permutation.
    - intros Hty. split; [auto|left]. }
  intros c h4 Ho4. apply runs_bind. eapply runs_mono.
  { apply (owning_release _ host _ (conn_texts (Some c) ++ cp_ip param :: cp_ip param_backup :: bip :: lost' ++ lost) Ho4).
    solve_Permutation. }
  intros [] h5 Ho5. apply runs_bind. eapply runs_mono.
  { apply (owning_release _ bip _ (conn_texts (Some c) ++ cp_ip param :: cp_ip param_backup :: lost' ++ lost) Ho5).
    solve_Permutation. }
  intros [] h6 Ho6. apply runs_ret. exists lost'. cbn [fst snd]. split.
  - unfold config_ok, plugin_texts. cbn [ms_param ms_param_backup ms_conn].
    eapply owning_perm; [|exact Ho6]. solve_Permutation.
  - split; [done|]. intros [_ Hmode]. apply Hlost. destruct Hmode as [?|[? [x Hx]]]; [by left|right].
    split; [done|]. intros Hz. rewrite (Hb eq_refl Hz) in Hx. done.
Qed.

(** ** Histories *)

Fixpoint run_configs (p : modbus_settings) (configs : list string) : M () modbus_settings :=
  match configs with
  | [] => mret p
  | c :: configs' => r ← tcp_driver_config p c; run_configs r.2 configs'
  end.

Definition heap_empty : heap := Mem 1 ∅ ().

Lemma configs_ok configs h p lost :
  config_ok h p lost →
  runs (run_configs p configs) h (λ p' h', ∃ lost', config_ok h' p' (lost' ++ lost) ∧
    (Forall complete configs → lost' = [])).
Proof.
  revert h p lost. induction configs as [|c configs IH]; intros h p lost Hok; cbn [run_configs].
  - apply runs_ret. by exists [].
  - apply runs_bind. eapply runs_mono; [by apply config_step|]. intros r h1 (lost1 & Hok1 & _ & Hc1).
    eapply runs_mono; [apply (IH _ _ _ Hok1)|]. intros p' h' (lost2 & Hok2 & Hc2). exists (lost2 ++ lost1).
    split; [by rewrite <-app_assoc|]. intros [Hc Hcs]%Forall_cons. by rewrite Hc1, Hc2.
Qed.

Lemma uninit_ok p h lost : config_ok h p lost → runs (tcp_driver_uninit p) h (λ _ h', owning h' lost).
Proof.
  intros Hok. unfold tcp_driver_uninit. unfold config_ok, plugin_texts in Hok. apply runs_bind.
  assert (runs (match ms_conn p with Some c => conn_free_param c | None => mret () end) h
    (λ _ h', owning h' (cp_ip (ms_param p) :: cp_ip (ms_param_backup p) :: lost))) as Hconn.
  { destruct (ms_conn p) as [c|]; [|by apply runs_ret]. unfold conn_free_param. cbn [conn_texts] in Hok.
    destruct (conn_has_text (cp_type c)); [|by apply runs_ret].
    eapply owning_release; [exact Hok|]. solve_Permutation. }
  eapply runs_mono; [exact Hconn|]. intros [] h1 Ho1. apply runs_bind.
  eapply runs_mono; [by apply owning_free|]. intros [] h2 Ho2. by apply owning_free.
Qed.

(** C36: The TCP driver can be configured with any texts in any order.  From a new
    plugin, every configuration returns without using memory that is not there,
    the plugin and its connection own their texts, each once, and uninitialising
    the plugin releases all of them.  Only texts lost by earlier configurations are
    left, and none is lost as long as every configuration has a positive timeout
    and makes the driver a server, or a client with a backup. *)
Theorem tcp_configs_safe configs :
  runs (run_configs driver_open configs) heap_empty (λ p h, ∃ lost, config_ok h p lost ∧
    runs (tcp_driver_uninit p) h (λ _ h', owning h' lost) ∧ (Forall complete configs → lost = [])).
Proof.
  assert (config_ok heap_empty driver_open []) as H0.
  { unfold config_ok, plugin_texts. cbn. rewrite !owning_null. split; [|constructor].
    split; [done|]. split; [done|]. intros p b. cbn. by rewrite lookup_empty. }
  eapply runs_mono; [apply (configs_ok configs _ _ _ H0)|]. intros p h (lost & Hok & Hc). rewrite app_nil_r in Hok.
  exists lost. split; [done|]. split; [by apply uninit_ok|done].
Qed.

(** ** What goes wrong *)

(** The RTU driver that was a server and gets a serial line goes on as a server, and
    one that had a serial line and gets a TCP connection goes on as serial. *)
Lemma rtu_link_keeps_flags p mode text port timeout :
  (rtu_link p 0 mode text port timeout).1.2 = ms_is_server p ∧
  (rtu_link p 1 0 text port timeout).2 = ms_is_serial p ∧ (rtu_link p 1 1 text port timeout).2 = ms_is_serial p.
Proof. done. Qed.
End ok.
