(* ===== verification/Connection.v ===== *)
(** * Connections

    connection/connection.c: TCP, UDP and serial connections of the drivers.  The
    operating system is the record [os_ops] of the calls that the code makes, over
    a state of any type.  A connection is the record [neu_conn]; computations are
    in the monad [CM] over a connection, the operating system and the calls of the
    callbacks that have been made.  [None] is a failed assertion or an access
    outside of the receive buffer.  The texts of the parameters are values here;
    that they are copied and released is in ModbusConfig.v.  The mutex of the
    connection makes the operations atomic.  Log output, the address of a client
    and sleeping between attempts to send are left out. *)

From S2P Require Import Prelude.

(** ** The operating system *)

Inductive sock_type := SOCK_STREAM | SOCK_DGRAM.
Inductive sock_opt :=
  | SO_REUSEADDR
  | SO_BROADCAST
  | SO_TIMEO (sec usec : Z).      (* SO_RCVTIMEO and SO_SNDTIMEO *)
Inductive msg_flag := MSG_NONE | MSG_WAITALL | MSG_DONTWAIT.

Definition EAGAIN : Z := 11.
Definition EINPROGRESS : Z := 115.

(** Terminal attributes, speeds in bits per second. *)
Record termios := {
  c_iflag : Z;
  c_oflag : Z;
  c_cflag : Z;
  c_lflag : Z;
  c_ispeed : Z;
  c_ospeed : Z;
  c_vtime : Z;
  c_vmin : Z;
}.

(** A call that may fail returns its result, and [errno] where the code looks at
    it; a call that receives returns the bytes that it has written. *)
Record os_ops (OS : Type) := {
  inet_pton4 : string → bool;
  inet_pton6 : string → bool;
  os_socket : bool → sock_type → bool → OS → Z * OS;      (* IPv6, type, SOCK_NONBLOCK *)
  os_setsockopt : Z → sock_opt → OS → OS;
  os_bind : Z → string → Z → OS → Z * OS;
  os_listen : Z → OS → Z * OS;
  os_connect : Z → string → Z → OS → Z * Z * OS;
  os_accept : Z → OS → Z * OS;
  os_getsockname : Z → OS → option Z;                     (* the port *)
  os_open : string → OS → Z * OS;
  os_tcgetattr : Z → OS → termios;
  os_tcsetattr : Z → termios → OS → OS;                   (* after tcflush *)
  os_send : Z → list Z → msg_flag → OS → Z * Z * OS;
  os_sendto : Z → list Z → msg_flag → string * Z → OS → Z * Z * OS;
  os_write : Z → list Z → OS → Z * Z * OS;
  os_recv : Z → Z → msg_flag → OS → Z * list Z * Z * OS;
  os_recvfrom : Z → Z → OS → Z * list Z * Z * OS;
  os_read : Z → Z → OS → Z * list Z * Z * OS;
  os_close : Z → OS → OS;
}.
Arguments inet_pton4 {_}. Arguments inet_pton6 {_}. Arguments os_socket {_}. Arguments os_setsockopt {_}.
Arguments os_bind {_}. Arguments os_listen {_}. Arguments os_connect {_}. Arguments os_accept {_}.
Arguments os_getsockname {_}. Arguments os_open {_}. Arguments os_tcgetattr {_}. Arguments os_tcsetattr {_}.
Arguments os_send {_}. Arguments os_sendto {_}. Arguments os_write {_}. Arguments os_recv {_}.
Arguments os_recvfrom {_}. Arguments os_read {_}. Arguments os_close {_}.

(** ** Parameters and state *)

Inductive neu_conn_tty_baud_e :=
  | NEU_CONN_TTY_BAUD_115200 | NEU_CONN_TTY_BAUD_57600 | NEU_CONN_TTY_BAUD_38400
  | NEU_CONN_TTY_BAUD_19200 | NEU_CONN_TTY_BAUD_9600 | NEU_CONN_TTY_BAUD_4800
  | NEU_CONN_TTY_BAUD_2400 | NEU_CONN_TTY_BAUD_1800 | NEU_CONN_TTY_BAUD_1200
  | NEU_CONN_TTY_BAUD_600 | NEU_CONN_TTY_BAUD_300 | NEU_CONN_TTY_BAUD_200 | NEU_CONN_TTY_BAUD_150.
Inductive neu_conn_tty_parity_e :=
  | NEU_CONN_TTY_PARITY_NONE | NEU_CONN_TTY_PARITY_ODD | NEU_CONN_TTY_PARITY_EVEN
  | NEU_CONN_TTY_PARITY_MARK | NEU_CONN_TTY_PARITY_SPACE.
Inductive neu_conn_tty_stop_e := NEU_CONN_TTY_STOP_1 | NEU_CONN_TTY_STOP_2.
Inductive neu_conn_tty_data_e :=
  | NEU_CONN_TTY_DATA_5 | NEU_CONN_TTY_DATA_6 | NEU_CONN_TTY_DATA_7 | NEU_CONN_TTY_DATA_8.
Inductive neu_conn_tty_flow_e := NEU_CONN_TTYP_FLOW_DISABLE | NEU_CONN_TTYP_FLOW_ENABLE.

Record tty_client := {
  tty_device : string;
  tty_data : neu_conn_tty_data_e;
  tty_stop : neu_conn_tty_stop_e;
  tty_baud : neu_conn_tty_baud_e;
  tty_parity : neu_conn_tty_parity_e;
  tty_flow : neu_conn_tty_flow_e;
  tty_timeout : Z;
}.

(** [neu_conn_param_t]: the type and the member of the union that goes with it. *)
Inductive conn_param :=
  | TcpServer (ip : string) (port timeout max_link : Z)
  | TcpClient (ip : string) (port timeout : Z)
  | Udp (src_ip : string) (src_port : Z) (dst_ip : string) (dst_port timeout : Z)
  | TtyClient (tty : tty_client)
  | UdpTo (src_ip : string) (src_port timeout : Z).

Definition param_timeout (p : conn_param) : Z :=
  match p with
  | TcpServer _ _ t _ | TcpClient _ _ t | Udp _ _ _ _ t | UdpTo _ _ t => t
  | TtyClient tty => tty_timeout tty
  end.

(** The slots of the clients hold their descriptors, 0 for a free slot. *)
Record neu_conn := {
  c_param : conn_param;
  is_connected : bool;
  stop : bool;
  connection_ok : bool;
  callback_trigger : bool;
  fd : Z;
  block : bool;
  send_bytes : Z;
  recv_bytes : Z;
  clients : list Z;
  n_client : Z;
  is_listen : bool;
  buf : list Z;
  buf_size : Z;
  offset : Z;
  udp_act_port : Z;
}.

Section setters.
Implicit Types c : neu_conn.
Definition with_param c p blk cl := {| c_param := p; is_connected := is_connected c; stop := stop c;
  connection_ok := connection_ok c; callback_trigger := callback_trigger c; fd := fd c; block := blk;
  send_bytes := send_bytes c; recv_bytes := recv_bytes c; clients := cl; n_client := n_client c;
  is_listen := is_listen c; buf := buf c; buf_size := buf_size c; offset := offset c;
  udp_act_port := udp_act_port c |}.
Definition with_link c b f := {| c_param := c_param c; is_connected := b; stop := stop c;
  connection_ok := connection_ok c; callback_trigger := callback_trigger c; fd := f; block := block c;
  send_bytes := send_bytes c; recv_bytes := recv_bytes c; clients := clients c; n_client := n_client c;
  is_listen := is_listen c; buf := buf c; buf_size := buf_size c; offset := offset c;
  udp_act_port := udp_act_port c |}.
Definition with_flags c ok trigger := {| c_param := c_param c; is_connected := is_connected c; stop := stop c;
  connection_ok := ok; callback_trigger := trigger; fd := fd c; block := block c;
  send_bytes := send_bytes c; recv_bytes := recv_bytes c; clients := clients c; n_client := n_client c;
  is_listen := is_listen c; buf := buf c; buf_size := buf_size c; offset := offset c;
  udp_act_port := udp_act_port c |}.
Definition with_stop c b := {| c_param := c_param c; is_connected := is_connected c; stop := b;
  connection_ok := connection_ok c; callback_trigger := callback_trigger c; fd := fd c; block := block c;
  send_bytes := send_bytes c; recv_bytes := recv_bytes c; clients := clients c; n_client := n_client c;
  is_listen := is_listen c; buf := buf c; buf_size := buf_size c; offset := offset c;
  udp_act_port := udp_act_port c |}.
Definition with_bytes c s r := {| c_param := c_param c; is_connected := is_connected c; stop := stop c;
  connection_ok := connection_ok c; callback_trigger := callback_trigger c; fd := fd c; block := block c;
  send_bytes := s; recv_bytes := r; clients := clients c; n_client := n_client c;
  is_listen := is_listen c; buf := buf c; buf_size := buf_size c; offset := offset c;
  udp_act_port := udp_act_port c |}.
Definition with_clients c cl n := {| c_param := c_param c; is_connected := is_connected c; stop := stop c;
  connection_ok := connection_ok c; callback_trigger := callback_trigger c; fd := fd c; block := block c;
  send_bytes := send_bytes c; recv_bytes := recv_bytes c; clients := cl; n_client := n;
  is_listen := is_listen c; buf := buf c; buf_size := buf_size c; offset := offset c;
  udp_act_port := udp_act_port c |}.
Definition with_listen c f b := {| c_param := c_param c; is_connected := is_connected c; stop := stop c;
  connection_ok := connection_ok c; callback_trigger := callback_trigger c; fd := f; block := block c;
  send_bytes := send_bytes c; recv_bytes := recv_bytes c; clients := clients c; n_client := n_client c;
  is_listen := b; buf := buf c; buf_size := buf_size c; offset := offset c;
  udp_act_port := udp_act_port c |}.
Definition with_buf c b o := {| c_param := c_param c; is_connected := is_connected c; stop := stop c;
  connection_ok := connection_ok c; callback_trigger := callback_trigger c; fd := fd c; block := block c;
  send_bytes := send_bytes c; recv_bytes := recv_bytes c; clients := clients c; n_client := n_client c;
  is_listen := is_listen c; buf := b; buf_size := buf_size c; offset := o;
  udp_act_port := udp_act_port c |}.
Definition with_port c p := {| c_param := c_param c; is_connected := is_connected c; stop := stop c;
  connection_ok := connection_ok c; callback_trigger := callback_trigger c; fd := fd c; block := block c;
  send_bytes := send_bytes c; recv_bytes := recv_bytes c; clients := clients c; n_client := n_client c;
  is_listen := is_listen c; buf := buf c; buf_size := buf_size c; offset := offset c;
  udp_act_port := p |}.
End setters.

(** Calls of the callbacks of the parameters and of [neu_conn_new]. *)
Inductive conn_call :=
  | Connected (fd : Z)
  | Disconnected (fd : Z)
  | StartListen (fd : Z)
  | StopListen (fd : Z).

(** ** Serial lines *)

Definition CRTSCTS : Z := 0x80000000.
Definition PARENB : Z := 0x100.
Definition PARODD : Z := 0x200.
Definition CMSPAR : Z := 0x40000000.
Definition CSIZE : Z := 0x30.
Definition CSTOPB : Z := 0x40.
Definition CREAD_CLOCAL : Z := 0x880.
Definition INPCK : Z := 0x10.

Definition baud_speed (b : neu_conn_tty_baud_e) : Z :=
  match b with
  | NEU_CONN_TTY_BAUD_115200 => 115200 | NEU_CONN_TTY_BAUD_57600 => 57600
  | NEU_CONN_TTY_BAUD_38400 => 38400 | NEU_CONN_TTY_BAUD_19200 => 19200
  | NEU_CONN_TTY_BAUD_9600 => 9600 | NEU_CONN_TTY_BAUD_4800 => 4800
  | NEU_CONN_TTY_BAUD_2400 => 2400 | NEU_CONN_TTY_BAUD_1800 => 1800
  | NEU_CONN_TTY_BAUD_1200 => 1200 | NEU_CONN_TTY_BAUD_600 => 600
  | NEU_CONN_TTY_BAUD_300 => 300 | NEU_CONN_TTY_BAUD_200 => 200
  | NEU_CONN_TTY_BAUD_150 => 150
  end.

Definition set_flow (f : neu_conn_tty_flow_e) (cflag : Z) : Z :=
  match f with
  | NEU_CONN_TTYP_FLOW_DISABLE => Z.ldiff cflag CRTSCTS
  | NEU_CONN_TTYP_FLOW_ENABLE => Z.lor cflag CRTSCTS
  end.

(** [c_cflag] and [c_iflag] *)
Definition set_parity (p : neu_conn_tty_parity_e) (cflag iflag : Z) : Z * Z :=
  match p with
  | NEU_CONN_TTY_PARITY_NONE => (Z.ldiff cflag PARENB, iflag)
  | NEU_CONN_TTY_PARITY_ODD => (Z.lor (Z.lor cflag PARENB) PARODD, INPCK)
  | NEU_CONN_TTY_PARITY_EVEN => (Z.ldiff (Z.lor cflag PARENB) PARODD, INPCK)
  | NEU_CONN_TTY_PARITY_MARK => (Z.lor (Z.lor (Z.lor cflag PARENB) PARODD) CMSPAR, INPCK)
  | NEU_CONN_TTY_PARITY_SPACE => (Z.ldiff (Z.lor (Z.lor cflag PARENB) CMSPAR) PARODD, INPCK)
  end.

Definition data_bits (d : neu_conn_tty_data_e) : Z :=
  match d with
  | NEU_CONN_TTY_DATA_5 => 0x00 | NEU_CONN_TTY_DATA_6 => 0x10
  | NEU_CONN_TTY_DATA_7 => 0x20 | NEU_CONN_TTY_DATA_8 => 0x30
  end.

Definition set_stop (s : neu_conn_tty_stop_e) (cflag : Z) : Z :=
  match s with
  | NEU_CONN_TTY_STOP_1 => Z.ldiff cflag CSTOPB
  | NEU_CONN_TTY_STOP_2 => Z.lor cflag CSTOPB
  end.

(** The attributes set for a line that has the attributes [t]. *)
Definition tty_options (tty : tty_client) (t : termios) : termios :=
  let '(cflag, iflag) := set_parity (tty_parity tty) (set_flow (tty_flow tty) (c_cflag t)) (c_iflag t) in
  let cflag := Z.lor (Z.ldiff cflag CSIZE) (data_bits (tty_data tty)) in
  {| c_cflag := Z.lor (set_stop (tty_stop tty) cflag) CREAD_CLOCAL;
     (* ICANON, ECHO, ECHOE, ECHONL, ISIG *)
     c_lflag := Z.ldiff (c_lflag t) 0x5b;
     (* IXON, IXOFF, IXANY, then IGNBRK, BRKINT, PARMRK, ISTRIP, INLCR, IGNCR, ICRNL *)
     c_iflag := Z.ldiff (Z.ldiff iflag 0x1c00) 0x1eb;
     (* OPOST, ONLCR *)
     c_oflag := Z.ldiff (c_oflag t) 0x5;
     c_ispeed := baud_speed (tty_baud tty);
     c_ospeed := baud_speed (tty_baud tty);
     c_vtime := u8 (tty_timeout tty / 100);
     c_vmin := 0 |}.

(** ** Computations *)

Record cst (OS : Type) := St {
  s_conn : neu_conn;
  s_os : OS;
  s_calls : list conn_call;
}.
Arguments St {_}. Arguments s_conn {_}. Arguments s_os {_}. Arguments s_calls {_}.

Definition CM (OS A : Type) : Type := cst OS → option (A * cst OS).

#[export] Instance CM_ret {OS} : MRet (CM OS) := λ A a s, Some (a, s).
#[export] Instance CM_bind {OS} : MBind (CM OS) := λ A B k m s,
  match m s with Some (a, s') => k a s' | None => None end.

Section conn.
Context {OS : Type} (os : os_ops OS).
Abbreviation CMO := (CM OS).

Definition get : CMO neu_conn := λ s, Some (s_conn s, s).
Definition modify (f : neu_conn → neu_conn) : CMO () := λ s, Some ((), St (f (s_conn s)) (s_os s) (s_calls s)).
Definition sys {A} (f : OS → A * OS) : CMO A := λ s,
  let '(a, o) := f (s_os s) in Some (a, St (s_conn s) o (s_calls s)).
Definition look {A} (f : OS → A) : CMO A := λ s, Some (f (s_os s), s).
Definition sys_ (f : OS → OS) : CMO () := λ s, Some ((), St (s_conn s) (f (s_os s)) (s_calls s)).
Definition call (e : conn_call) : CMO () := λ s, Some ((), St (s_conn s) (s_os s) (s_calls s ++ [e])).
Definition abort {A} : CMO A := λ _, None.
Definition when (b : bool) (m : CMO ()) : CMO () := if b then m else mret ().

Definition is_ipv4 (ip : string) : bool := inet_pton4 os ip.
Definition is_ipv6 (ip : string) : bool := inet_pton6 os ip.

(** ** Servers *)

Definition conn_tcp_server_listen : CMO () :=
  c ← get;
  match c_param c with
  | TcpServer ip port _ _ =>
      if is_listen c then mret () else
      if is_ipv4 ip || is_ipv6 ip then
        f ← sys (os_socket os (negb (is_ipv4 ip)) SOCK_STREAM true);
        sys_ (os_setsockopt os f SO_REUSEADDR);;
        ret ← sys (os_bind os f ip port);
        if negb (ret =? 0) then sys_ (os_close os f) else
        ret ← sys (os_listen os f);
        if negb (ret =? 0) then sys_ (os_close os f) else
        modify (λ c, with_listen c f true);;
        call (StartListen f)
      else mret ()
  | _ => mret ()
  end.

(** The loop that closes the clients; the slots that are left. *)
Fixpoint close_clients (cl : list Z) : CMO (list Z) :=
  match cl with
  | [] => mret []
  | x :: cl' =>
      when (x >? 0) (sys_ (os_close os x));;
      r ← close_clients cl';
      mret ((if x >? 0 then 0 else x) :: r)
  end.

Definition conn_tcp_server_stop : CMO () :=
  c ← get;
  match c_param c with
  | TcpServer _ _ _ _ =>
      if is_listen c then
        call (StopListen (fd c));;
        cl ← close_clients (clients c);
        modify (λ c, with_clients c cl (n_client c));;
        when (fd c >? 0) (sys_ (os_close os (fd c));; modify (λ c, with_listen c 0 (is_listen c)));;
        modify (λ c, with_clients c (clients c) 0);;
        modify (λ c, with_listen c (fd c) false)
      else mret ()
  | _ => mret ()
  end.

(** The slots with [f] in the first free one. *)
Fixpoint fill_slot (f : Z) (cl : list Z) : option (list Z) :=
  match cl with
  | [] => None
  | x :: cl' => if x =? 0 then Some (f :: cl') else cons x <$> fill_slot f cl'
  end.
Definition conn_tcp_server_add_client (f : Z) : CMO () :=
  c ← get;
  match fill_slot f (clients c) with
  | Some cl => modify (λ c, with_clients c cl (n_client c + 1))
  | None => abort
  end.

(** The slots with the first one that holds [f] free. *)
Fixpoint free_slot (f : Z) (cl : list Z) : option (list Z) :=
  match cl with
  | [] => None
  | x :: cl' => if (f >? 0) && (x =? f) then Some (0 :: cl') else cons x <$> free_slot f cl'
  end.
Definition conn_tcp_server_del_client (f : Z) : CMO () :=
  c ← get;
  match c_param c with
  | TcpServer _ _ _ _ =>
      match free_slot f (clients c) with
      | Some cl => sys_ (os_close os f);; modify (λ c, with_clients c cl (n_client c - 1))
      | None => mret ()
      end
  | _ => abort
  end.

(** The first client that is connected makes room. *)
Fixpoint replace_slot (f : Z) (cl : list Z) : option (Z * list Z) :=
  match cl with
  | [] => None
  | x :: cl' => if x >? 0 then Some (x, f :: cl') else prod_map id (cons x) <$> replace_slot f cl'
  end.
Definition conn_tcp_server_replace_client (f : Z) : CMO Z :=
  c ← get;
  match replace_slot f (clients c) with
  | Some (old, cl) => sys_ (os_close os old);; modify (λ c, with_clients c cl (n_client c));; mret old
  | None => mret 0
  end.

(** [SO_RCVTIMEO] and [SO_SNDTIMEO] of a blocking connection. *)
Definition set_timeout (f timeout : Z) : CMO () :=
  sys_ (os_setsockopt os f (SO_TIMEO (timeout / 1000) (timeout mod 1000 * 1000))).

Definition neu_conn_tcp_server_accept : CMO Z :=
  c ← get;
  match c_param c with
  | TcpServer _ _ timeout max_link =>
      f ← sys (os_accept os (fd c));
      if f <=? 0 then mret (-1) else
      when (block c) (set_timeout f timeout);;
      ok ← (if n_client c >=? max_link then
              old ← conn_tcp_server_replace_client f;
              if old >? 0 then mret true else sys_ (os_close os f);; mret false
            else conn_tcp_server_add_client f;; mret true);
      if negb ok then mret (-1) else
      modify (λ c, with_link c true (fd c));;
      call (Connected f);;
      modify (λ c, with_flags c (connection_ok c) true);;
      mret f
  | _ => mret (-1)
  end.

(** [memset (conn->buf, 0, conn->buf_size)] and [offset = 0] *)
Definition reset_buf : CMO () :=
  modify (λ c, with_buf c (replicate (Z.to_nat (buf_size c)) 0) 0).

Definition neu_conn_tcp_server_close_client (f : Z) : CMO Z :=
  c ← get;
  match c_param c with
  | TcpServer _ _ _ _ =>
      call (Disconnected f);;
      conn_tcp_server_del_client f;;
      reset_buf;;
      mret 0
  | _ => mret (-1)
  end.

Definition neu_conn_tcp_server_send (f : Z) (bytes : list Z) : CMO Z :=
  c ← get;
  if stop c then mret 0 else
  conn_tcp_server_listen;;
  r ← sys (os_send os f bytes MSG_DONTWAIT);
  let '(ret, errno) := r in
  when (ret >? 0) (modify (λ c, with_bytes c (u64 (send_bytes c + ret)) (recv_bytes c)));;
  when ((ret <=? 0) && negb (errno =? EAGAIN)) (call (Disconnected f);; conn_tcp_server_del_client f);;
  mret ret.

Definition neu_conn_tcp_server_recv (f len : Z) : CMO (Z * list Z) :=
  c ← get;
  if stop c then mret (0, []) else
  r ← sys (os_recv os f len (if block c then MSG_WAITALL else MSG_NONE));
  let '(ret, bytes, _) := r in
  when (ret >? 0) (modify (λ c, with_bytes c (send_bytes c) (u64 (recv_bytes c + ret))));;
  mret (ret, bytes).

(** ** Connecting and disconnecting *)

Definition fail_connect (f : Z) : CMO () :=
  sys_ (os_close os f);; modify (λ c, with_link c false (fd c)).

Definition connect_tcp_client (ip : string) (port timeout : Z) : CMO () :=
  c ← get;
  f ← sys (os_socket os (negb (is_ipv4 ip)) SOCK_STREAM (negb (block c)));
  when (block c) (set_timeout f timeout);;
  if is_ipv4 ip || is_ipv6 ip then
    r ← sys (os_connect os f ip port);
    let '(ret, errno) := r in
    if (block c && (ret =? 0)) || (negb (block c) && negb (ret =? 0) && (errno =? EINPROGRESS))
    then modify (λ c, with_link c true f)
    else fail_connect f
  else sys_ (os_close os f).

(** The port that [getsockname] finds. *)
Definition note_port (f : Z) : CMO () :=
  p ← look (os_getsockname os f);
  match p with Some p => modify (λ c, with_port c (u16 p)) | None => mret () end.

Definition connect_udp (src_ip : string) (src_port : Z) (dst_ip : string) (dst_port timeout : Z) : CMO () :=
  c ← get;
  f ← sys (os_socket os (negb (is_ipv4 dst_ip)) SOCK_DGRAM (negb (block c)));
  when (block c) (set_timeout f timeout);;
  sys_ (os_setsockopt os f SO_BROADCAST);;
  if is_ipv4 src_ip || is_ipv6 src_ip then
    ret ← sys (os_bind os f src_ip src_port);
    if negb (ret =? 0) then fail_connect f else
    note_port f;;
    if is_ipv4 dst_ip || is_ipv6 dst_ip then
      r ← sys (os_connect os f dst_ip dst_port);
      let '(ret, errno) := r in
      if negb (ret =? 0) && negb (errno =? EINPROGRESS) then fail_connect f
      else modify (λ c, with_link c true f)
    else mret ()
  else sys_ (os_close os f).

(** For a source that is not an IPv4 address, the code looks at [udp.dst_ip], which
    parameters of this type do not have. *)
Definition connect_udp_to (src_ip : string) (src_port timeout : Z) : CMO () :=
  c ← get;
  f ← sys (os_socket os (negb (is_ipv4 src_ip)) SOCK_DGRAM (negb (block c)));
  when (block c) (set_timeout f timeout);;
  sys_ (os_setsockopt os f SO_BROADCAST);;
  if is_ipv4 src_ip then
    f ← sys (os_socket os false SOCK_DGRAM true);
    ret ← sys (os_bind os f src_ip src_port);
    if negb (ret =? 0) then fail_connect f else
    note_port f;;
    modify (λ c, with_link c true f)
  else abort.

Definition connect_tty (tty : tty_client) : CMO () :=
  f ← sys (os_open os (tty_device tty));
  if f <=? 0 then mret () else
  t ← look (os_tcgetattr os f);
  sys_ (os_tcsetattr os f (tty_options tty t));;
  modify (λ c, with_link c true f).

Definition conn_connect : CMO () :=
  c ← get;
  match c_param c with
  | TcpServer _ _ _ _ => mret ()
  | TcpClient ip port timeout => connect_tcp_client ip port timeout
  | Udp src_ip src_port dst_ip dst_port timeout => connect_udp src_ip src_port dst_ip dst_port timeout
  | UdpTo src_ip src_port timeout => connect_udp_to src_ip src_port timeout
  | TtyClient tty => connect_tty tty
  end.

Definition conn_disconnect : CMO () :=
  c ← get;
  modify (λ c, with_flags (with_link c false (fd c)) false (callback_trigger c));;
  when (callback_trigger c) (call (Disconnected (fd c));; modify (λ c, with_flags c (connection_ok c) false));;
  reset_buf;;
  match c_param c with
  | TcpServer _ _ _ _ =>
      cl ← close_clients (clients c);
      modify (λ c, with_clients c cl 0)
  | _ =>
      when (fd c >? 0) (sys_ (os_close os (fd c));; modify (λ c, with_link c (is_connected c) 0))
  end.

Definition neu_conn_connect : CMO () := conn_connect.
Definition neu_conn_disconnect : CMO () := conn_disconnect.

(** ** Life *)

Definition conn_free_param : CMO () :=
  c ← get;
  match c_param c with
  | TcpServer _ _ _ _ => modify (λ c, with_clients c [] 0)
  | _ => mret ()
  end.

Definition conn_init_param (p : conn_param) : CMO () :=
  modify (λ c, with_param c p (param_timeout p >? 0)
    (match p with TcpServer _ _ _ max_link => replicate (Z.to_nat max_link) 0 | _ => clients c end)).

(** What [calloc] leaves, with the parameters that are about to be set. *)
Definition conn_zero (p : conn_param) : neu_conn := {|
  c_param := p; is_connected := false; stop := false; connection_ok := false; callback_trigger := false;
  fd := 0; block := false; send_bytes := 0; recv_bytes := 0; clients := []; n_client := 0;
  is_listen := false; buf := []; buf_size := 0; offset := 0; udp_act_port := 0 |}.

Definition new_body (p : conn_param) : CMO () :=
  conn_init_param p;;
  modify (λ c, {| c_param := c_param c; is_connected := false; stop := false;
    connection_ok := connection_ok c; callback_trigger := false; fd := fd c; block := block c;
    send_bytes := send_bytes c; recv_bytes := recv_bytes c; clients := clients c; n_client := n_client c;
    is_listen := is_listen c; buf := replicate (Z.to_nat 8192) 0; buf_size := 8192; offset := 0;
    udp_act_port := udp_act_port c |});;
  conn_tcp_server_listen.
Definition neu_conn_new (p : conn_param) (o : OS) : option (() * cst OS) := new_body p (St (conn_zero p) o []).

Definition neu_conn_stop : CMO () :=
  c ← get;
  when (is_listen c) conn_tcp_server_stop;;
  modify (λ c, with_stop c true);;
  conn_disconnect.

Definition neu_conn_start : CMO () := modify (λ c, with_stop (with_bytes c 0 0) false).

Definition neu_conn_reconfig (p : conn_param) : CMO () :=
  conn_tcp_server_stop;;
  conn_disconnect;;
  conn_free_param;;
  conn_init_param p;;
  conn_tcp_server_listen;;
  modify (λ c, with_bytes c 0 0).

Definition neu_conn_destory : CMO () :=
  conn_tcp_server_stop;;
  conn_disconnect;;
  conn_free_param.

(** ** Sending and receiving *)

(** [ret] and the last [errno].  The loop ends: what is sent grows, or [retry]
    does. *)
Fixpoint send_loop (n : nat) (bytes : list Z) (ret retry errno : Z) : CMO (Z * Z) :=
  match n with
  | O => abort
  | S n' =>
      if ret <? Z.of_nat (length bytes) then
        c ← get;
        r ← match c_param c with
            | UdpTo _ _ _ | TcpServer _ _ _ _ => abort
            | TcpClient _ _ _ | Udp _ _ _ _ _ =>
                sys (os_send os (fd c) (drop (Z.to_nat ret) bytes) (if block c then MSG_NONE else MSG_WAITALL))
            | TtyClient _ => sys (os_write os (fd c) (drop (Z.to_nat ret) bytes))
            end;
        let '(rc, errno) := r in
        let rc := s32 rc in
        if rc >? 0 then
          if ret + rc =? Z.of_nat (length bytes) then mret (ret + rc, errno)
          else send_loop n' bytes (ret + rc) retry errno
        else if negb (block c) && (rc =? -1) && (errno =? EAGAIN) then
          if retry >? 10 then mret (ret, errno) else send_loop n' bytes ret (retry + 1) errno
        else mret (rc, errno)
      else mret (ret, errno)
  end.

Definition neu_conn_send (bytes : list Z) : CMO Z :=
  c ← get;
  if stop c then mret 0 else
  when (negb (is_connected c)) conn_connect;;
  c ← get;
  ret ← (if is_connected c then
           r ← send_loop (length bytes + 13) bytes 0 0 0;
           let '(ret, errno) := r in
           c ← get;
           when ((ret =? -1) && (negb (errno =? EAGAIN) || connection_ok c)) conn_disconnect;;
           c ← get;
           when ((ret >? 0) && negb (callback_trigger c))
             (call (Connected (fd c));; modify (λ c, with_flags c (connection_ok c) true));;
           mret ret
         else mret 0);
  when (ret >? 0)
    (modify (λ c, with_flags (with_bytes c (u64 (send_bytes c + ret)) (recv_bytes c)) true (callback_trigger c)));;
  mret ret.

(** The loop of [neu_conn_clear_recv_buffer].  It goes on as long as there are
    bytes, so [n] bounds the calls of [recv]. *)
Fixpoint clear_loop (n : nat) (f : Z) : CMO () :=
  match n with
  | O => abort
  | S n' =>
      r ← sys (os_recv os f 256 MSG_DONTWAIT);
      let '(ret, _, _) := r in
      if ret >? 0 then clear_loop n' f else mret ()
  end.
Definition neu_conn_clear_recv_buffer (n : nat) : CMO () :=
  c ← get;
  if negb (is_connected c) then mret () else
  match c_param c with
  | TcpClient _ _ _ => clear_loop n (fd c)
  | _ => mret ()
  end.

(** The [while] loop for a serial line: [ret] and the bytes read so far. *)
Fixpoint tty_loop (n : nat) (f len ret : Z) (bytes : list Z) (errno : Z) : CMO (Z * list Z * Z) :=
  match n with
  | O => abort
  | S n' =>
      if (ret >? 0) && (ret <? len) then
        r ← sys (os_read os f (len - ret));
        let '(rv, more, errno) := r in
        if rv <=? 0 then mret (rv, bytes ++ more, errno)
        else tty_loop n' f len (ret + rv) (bytes ++ more) errno
      else mret (ret, bytes, errno)
  end.

Definition neu_conn_recv (len : Z) : CMO (Z * list Z) :=
  c ← get;
  if stop c then mret (0, []) else
  r ← match c_param c with
      | UdpTo _ _ _ | TcpServer _ _ _ _ => abort
      | TcpClient _ _ _ => sys (os_recv os (fd c) len (if block c then MSG_WAITALL else MSG_NONE))
      | Udp _ _ _ _ _ => sys (os_recv os (fd c) len MSG_NONE)
      | TtyClient _ =>
          r ← sys (os_read os (fd c) len);
          let '(ret, bytes, errno) := r in
          tty_loop (Z.to_nat len + 1) (fd c) len ret bytes errno
      end;
  let '(ret, bytes, errno) := r in
  when (match c_param c with
        | TtyClient _ => ret =? -1
        | Udp _ _ _ _ _ | UdpTo _ _ _ => ret <=? 0
        | _ => (ret <=? 0) && ((ret =? 0) || (connection_ok c && (ret =? -1) && negb (errno =? EAGAIN)))
        end) conn_disconnect;;
  when (ret >? 0) (modify (λ c, with_bytes c (send_bytes c) (u64 (recv_bytes c + ret))));;
  mret (ret, bytes).

Definition neu_conn_udp_sendto (bytes : list Z) (dst : string * Z) : CMO Z :=
  c ← get;
  if stop c then mret 0 else
  when (negb (is_connected c)) conn_connect;;
  c ← get;
  ret ← (if is_connected c then
           r ← match c_param c with
               | UdpTo _ _ _ => sys (os_sendto os (fd c) bytes (if block c then MSG_NONE else MSG_DONTWAIT) dst)
               | _ => abort
               end;
           let '(ret, errno) := r in
           when ((ret =? -1) && negb (errno =? EAGAIN)) conn_disconnect;;
           c ← get;
           when ((ret >? 0) && negb (callback_trigger c))
             (call (Connected (fd c));; modify (λ c, with_flags c (connection_ok c) true));;
           mret ret
         else mret 0);
  when (ret >? 0) (modify (λ c, with_bytes c (u64 (send_bytes c + ret)) (recv_bytes c)));;
  mret ret.

Definition neu_conn_udp_recvfrom (len : Z) : CMO (Z * list Z) :=
  c ← get;
  if stop c then mret (0, []) else
  r ← match c_param c with
      | UdpTo _ _ _ => sys (os_recvfrom os (fd c) len)
      | _ => abort
      end;
  let '(ret, bytes, errno) := r in
  when ((ret <=? 0) && ((ret =? 0) || ((ret =? -1) && negb (errno =? EAGAIN)))) conn_disconnect;;
  when (ret >? 0) (modify (λ c, with_bytes c (send_bytes c) (u64 (recv_bytes c + ret))));;
  mret (ret, bytes).

(** ** Streams *)

(** The bytes that a call has received, in the buffer behind those that wait. *)
Definition buf_store (off : Z) (bytes : list Z) : CMO () :=
  c ← get;
  if off + Z.of_nat (length bytes) <=? buf_size c
  then modify (λ c, with_buf c (mem_write (Z.to_nat off) bytes (buf c)) (offset c))
  else abort.

(** [offset += ret] *)
Definition advance (ret : Z) : CMO () := modify (λ c, with_buf c (buf c) (u16 (offset c + ret))).

Section streams.
Context {Ctx : Type}.

(** The consumer sees the bytes that wait and says how many it has used; 0 is none,
    -1 an error.  [Some] is the result of an early return. *)
Fixpoint consume_loop (n : nat) (fn : Ctx → list Z → Z * Ctx) (ctx : Ctx) (fail : CMO ())
    : CMO (option Z * Ctx) :=
  match n with
  | O => abort
  | S n' =>
      c ← get;
      if offset c >? 0 then
        let '(used, ctx) := fn ctx (take (Z.to_nat (offset c)) (buf c)) in
        if used =? 0 then mret (None, ctx)
        else if used =? -1 then fail;; mret (None, ctx)
        else if offset c - used <? 0 then mret (Some (-1), ctx)
        else
          let rest := u16 (offset c - used) in
          if (0 <=? used) && (used + rest <=? buf_size c) then
            modify (λ c, with_buf c
              (mem_write 0 (mem_read (Z.to_nat used) (Z.to_nat rest) (buf c)) (buf c)) rest);;
            consume_loop n' fn ctx fail
          else abort
      else mret (None, ctx)
  end.

Definition stream_consume (recv : Z → CMO (Z * list Z)) (fail : CMO ())
    (fn : Ctx → list Z → Z * Ctx) (ctx : Ctx) : CMO (Z * Ctx) :=
  c ← get;
  r ← recv (buf_size c - offset c);
  let '(ret, bytes) := r in
  if ret >? 0 then
    buf_store (offset c) bytes;;
    advance ret;;
    c ← get;
    r ← consume_loop (S (Z.to_nat (offset c))) fn ctx fail;
    mret (default ret r.1, r.2)
  else mret (ret, ctx).

Definition neu_conn_stream_consume := stream_consume neu_conn_recv neu_conn_disconnect.
Definition neu_conn_stream_tcp_server_consume (f : Z) :=
  stream_consume (neu_conn_tcp_server_recv f) (neu_conn_tcp_server_close_client f;; mret ()).

(** The handler says how many bytes it has used and how many more it needs, which
    is a [uint16_t]; [strict] is the assertion of the server variant. *)
Fixpoint wait_loop (n : nat) (recv : Z → CMO (Z * list Z)) (strict : bool)
    (fn : Ctx → list Z → Z * Z * Ctx) (ctx : Ctx) (ret : Z) (bytes : list Z) : CMO (Z * Ctx) :=
  match n with
  | O => abort
  | S n' =>
      if ret >? 0 then
        c ← get;
        buf_store (offset c) bytes;;
        advance ret;;
        c ← get;
        let '(used, need, ctx) := fn ctx (take (Z.to_nat (offset c)) (buf c)) in
        let need := u16 need in
        if need >? 0 then
          if need <=? buf_size c - offset c then
            r ← recv need;
            wait_loop n' recv strict fn ctx r.1 r.2
          else if strict then abort else mret (-1, ctx)
        else mret (used, ctx)
      else mret (ret, ctx)
  end.

Definition neu_conn_wait_msg (fn : Ctx → list Z → Z * Z * Ctx) (ctx : Ctx) (n_byte : Z) : CMO (Z * Ctx) :=
  c ← get;
  r ← neu_conn_recv (if n_byte >? buf_size c then buf_size c else n_byte);
  modify (λ c, with_buf c (buf c) 0);;
  wait_loop (S (Z.to_nat (buf_size c))) neu_conn_recv false fn ctx r.1 r.2.

Definition neu_conn_tcp_server_wait_msg (f : Z) (fn : Ctx → list Z → Z * Z * Ctx) (ctx : Ctx) (n_byte : Z)
    : CMO (Z * Ctx) :=
  c ← get;
  r ← neu_conn_tcp_server_recv f n_byte;
  modify (λ c, with_buf c (buf c) 0);;
  wait_loop (S (Z.to_nat (buf_size c))) (neu_conn_tcp_server_recv f) true fn ctx r.1 r.2.
End streams.
End conn.
