(* ===== verification/ConnectionOk.v ===== *)
(** * Connections keep their descriptors and their sessions

    What every operation of connection.c keeps, for TCP servers, TCP clients and
    serial lines: the process has the descriptors it had before the connection was
    made and those that the connection holds, each once; the counter of clients is
    that of the occupied slots; the callbacks of a client bracket its sessions.
    The hypotheses on the operating system are those of the class [Posix]. *)

From S2P Require Import Prelude Connection.

(** ** Descriptors *)

(** The result of a call that opens a descriptor: -1, or one that was not open. *)
Definition got (f : Z) (X X' : gset Z) : Prop :=
  (f = -1 ∧ X' = X) ∨ (0 <= f ∧ (f ∉ X) ∧ X' = X ∪ {[f]}).

(** [fds] are the open descriptors of the process.  A call that receives writes as
    many bytes as it returns, and no more than it was asked for; [bind] and
    [connect] fail for a descriptor that is not open. *)
Class Posix {OS} (os : os_ops OS) (fds : OS → gset Z) := {
  posix_socket v t nb o : got (os_socket os v t nb o).1 (fds o) (fds (os_socket os v t nb o).2);
  posix_open d o : got (os_open os d o).1 (fds o) (fds (os_open os d o).2);
  posix_accept f o : got (os_accept os f o).1 (fds o) (fds (os_accept os f o).2);
  posix_close f o : fds (os_close os f o) = fds o ∖ {[f]};
  posix_bind_bad f ip p o : f ∉ fds o → (os_bind os f ip p o).1 ≠ 0;
  posix_connect_bad f ip p o : f ∉ fds o →
    (os_connect os f ip p o).1.1 ≠ 0 ∧ (os_connect os f ip p o).1.2 ≠ EINPROGRESS;
  posix_setsockopt f x o : fds (os_setsockopt os f x o) = fds o;
  posix_bind f ip p o : fds (os_bind os f ip p o).2 = fds o;
  posix_listen f o : fds (os_listen os f o).2 = fds o;
  posix_connect f ip p o : fds (os_connect os f ip p o).2 = fds o;
  posix_tcsetattr f t o : fds (os_tcsetattr os f t o) = fds o;
  posix_send f b m o : fds (os_send os f b m o).2 = fds o;
  posix_write f b o : fds (os_write os f b o).2 = fds o;
  posix_recv f n m o : fds (os_recv os f n m o).2 = fds o;
  posix_read f n o : fds (os_read os f n o).2 = fds o;
  posix_recv_bytes f n m o ret bytes e o' : os_recv os f n m o = (ret, bytes, e, o') →
    ret <= Z.max 0 n ∧ length bytes = Z.to_nat ret;
  posix_read_bytes f n o ret bytes e o' : os_read os f n o = (ret, bytes, e, o') →
    ret <= Z.max 0 n ∧ length bytes = Z.to_nat ret;
}.

(** At any time finitely many bytes have come in for a descriptor: a call that takes
    some leaves fewer. *)
Class FiniteQueue {OS} (os : os_ops OS) (queued : Z → OS → nat) := {
  queue_recv f o ret bytes e o' : os_recv os f 256 MSG_DONTWAIT o = (ret, bytes, e, o') → 0 < ret →
    (queued f o' < queued f o)%nat;
}.

(** Of the open descriptors [X], [base] belongs to others and [l] to the connection;
    standard input is open. *)
Record own (base X : gset Z) (l : list Z) : Prop := {
  own_stdin : 0 ∈ base;
  own_base x : x ∈ base → 0 <= x;
  own_nodup : NoDup l;
  own_apart x : x ∈ l → 0 < x ∧ x ∉ base;
  own_all : X = base ∪ list_to_set l;
}.

Lemma own_perm base X l k : l ≡ₚ k → own base X l → own base X k.
Proof.
  intros Hp [H1 H2 H3 H4 H5]. split; [done|done|by rewrite <-Hp| |].
  - intros x Hx. apply H4. by rewrite Hp.
  - rewrite H5. apply leibniz_equiv. by rewrite Hp.
Qed.

Lemma own_got base X X' l f : own base X l → got f X X' →
  f = -1 ∧ own base X' l ∨ 0 < f ∧ own base X' (f :: l).
Proof.
  intros Ho [[-> ->]|(Hf & Hn & ->)]; [by left|]. right. destruct Ho as [H1 H2 H3 H4 H5].
  assert (f ≠ 0) by (intros ->; subst X; set_solver).
  split; [lia|]. split; [done|done| | |].
  - constructor; [|done]. subst X. set_solver.
  - intros x [->|Hx]%elem_of_cons; [|by apply H4]. split; [lia|]. subst X. set_solver.
  - subst X. set_solver.
Qed.

Lemma own_close_many base X k l : own base X (k ++ l) → own base (X ∖ list_to_set k) l.
Proof.
  intros [H1 H2 (H3 & H3' & H3'')%NoDup_app H4 H5]. split; [done|done|done| |].
  - intros x Hx. apply H4. set_solver.
  - subst X. apply set_eq. intros x. rewrite elem_of_difference, !elem_of_union, !elem_of_list_to_set, elem_of_app.
    split; [tauto|]. intros [Hx|Hx].
    + split; [by left|]. intros Hk. by apply (H4 x); [set_solver|].
    + split; [tauto|]. intros Hk. by apply (H3' x).
Qed.

Lemma own_close base X f l : own base X (f :: l) → own base (X ∖ {[f]}) l.
Proof.
  intros Ho. apply (own_close_many base X [f] l) in Ho. cbn [list_to_set] in Ho.
  by rewrite (right_id_L ∅ (∪)) in Ho.
Qed.

Lemma own_bad base X l : own base X l → -1 ∉ X.
Proof.
  intros Ho. rewrite (own_all _ _ _ Ho). intros [Hx%(own_base _ _ _ Ho)|Hx]%elem_of_union; [lia|].
  apply elem_of_list_to_set, (own_apart _ _ _ Ho) in Hx. lia.
Qed.

(** Closing -1. *)
Lemma own_close_none base X l : own base X l → own base (X ∖ {[-1]}) l.
Proof. intros Ho. pose proof (own_bad _ _ _ Ho). by assert (X ∖ {[-1]} = X) as -> by set_solver. Qed.

Lemma own_none base X : own base X [] → X = base.
Proof. intros Ho. rewrite (own_all _ _ _ Ho). set_solver. Qed.

(** ** The invariant *)

Definition open_clients (c : neu_conn) : list Z := filter (λ x, 0 < x) (clients c).

(** The descriptors that a connection holds. *)
Definition held (c : neu_conn) : list Z :=
  match c_param c with
  | TcpServer _ _ _ _ => (if is_listen c then [fd c] else []) ++ open_clients c
  | _ => if is_connected c then [fd c] else []
  end.

Definition is_client (p : conn_param) : bool :=
  match p with TcpClient _ _ _ | TtyClient _ => true | _ => false end.
Definition is_tcp_server (p : conn_param) : bool :=
  match p with TcpServer _ _ _ _ => true | _ => false end.

Definition shape (c : neu_conn) : Prop :=
  match c_param c with
  | TcpServer _ _ _ max_link =>
      length (clients c) = Z.to_nat max_link ∧ Forall (λ x, 0 <= x) (clients c) ∧
      n_client c = Z.of_nat (length (open_clients c)) ∧ (is_listen c = false → fd c = 0)
  | TcpClient _ _ _ | TtyClient _ =>
      is_listen c = false ∧ n_client c = 0 ∧ (is_connected c = false → fd c = 0)
  | _ => False
  end.

(** The sessions of a client: the descriptor of the one that is open, or [None] if a
    callback is out of turn. *)
Fixpoint sessions (up : option Z) (l : list conn_call) : option (option Z) :=
  match l with
  | [] => Some up
  | Connected f :: l' => match up with None => sessions (Some f) l' | Some _ => None end
  | Disconnected f :: l' =>
      match up with Some g => if f =? g then sessions None l' else None | None => None end
  | _ :: l' => None
  end.

Lemma sessions_app up l k : sessions up (l ++ k) = (up' ← sessions up l; sessions up' k).
Proof.
  revert up. induction l as [|[f|f|f|f] l IH]; intros up; [done|..]; cbn [sessions app mbind option_bind];
    [destruct up|destruct up as [g|]; [destruct (f =? g)|]|..]; done || apply IH.
Qed.

Definition in_session (c : neu_conn) : option Z := if callback_trigger c then Some (fd c) else None.

Definition client_calls (c : neu_conn) (calls : list conn_call) : Prop :=
  is_client (c_param c) = true ∧ sessions None calls = Some (in_session c) ∧
  (callback_trigger c = true → is_connected c = true).

(** [cl]: the connection has only been a client. *)
Record conn_ok (cl : bool) (base : gset Z) (c : neu_conn) (X : gset Z) (calls : list conn_call) : Prop := {
  ok_own : own base X (held c);
  ok_shape : shape c;
  ok_buf : buf_size c = 8192 ∧ length (buf c) = Z.to_nat (buf_size c);
  ok_offset : 0 <= offset c <= 8192;
  ok_calls : cl = true → client_calls c calls;
}.

(** ** Computations *)

Section wp.
Context {OS : Type}.
Implicit Types (s : cst OS).

(** Total correctness. *)
Definition wp {A} (m : CM OS A) (Q : A → cst OS → Prop) s : Prop :=
  match m s with Some (a, s') => Q a s' | None => False end.

Lemma wp_bind {A B} (m : CM OS A) (k : A → CM OS B) Q s :
  wp m (λ a, wp (k a) Q) s → wp (m ≫= k) Q s.
Proof. unfold wp, mbind, CM_bind. by destruct (m s) as [[]|]. Qed.
Lemma wp_bind_assoc {A B C} (m : CM OS A) (k : A → CM OS B) (k' : B → CM OS C) Q s :
  wp ((m ≫= k) ≫= k') Q s → wp (m ≫= λ a, k a ≫= k') Q s.
Proof. unfold wp, mbind, CM_bind. by destruct (m s) as [[]|]. Qed.
Lemma wp_mono {A} (m : CM OS A) (P Q : A → cst OS → Prop) s :
  wp m P s → (∀ a s', P a s' → Q a s') → wp m Q s.
Proof. unfold wp. destruct (m s) as [[]|]; naive_solver. Qed.
Lemma wp_sys {A} (f : OS → A * OS) (Q : A → cst OS → Prop) s :
  Q (f (s_os s)).1 (St (s_conn s) (f (s_os s)).2 (s_calls s)) → wp (sys f) Q s.
Proof. unfold wp, sys. by destruct (f (s_os s)). Qed.
Lemma wp_when (b : bool) (m : CM OS ()) (Q : () → cst OS → Prop) s :
  (b = true → wp m Q s) → (b = false → Q () s) → wp (when b m) Q s.
Proof. destruct b; cbn; auto. Qed.
Lemma wp_eq {A} (m : CM OS A) Q s : wp m Q s → wp m (λ a s', m s = Some (a, s') ∧ Q a s') s.
Proof. unfold wp. by destruct (m s) as [[]|]. Qed.
Lemma wp_returns {A} (m : CM OS A) Q s : wp m Q s → is_Some (m s).
Proof. unfold wp. destruct (m s); [by eexists|done]. Qed.
Lemma wp_result {A} (m : CM OS A) Q s a s' : wp m Q s → m s = Some (a, s') → Q a s'.
Proof. unfold wp. intros Hw E. by rewrite E in Hw. Qed.
End wp.

Ltac wp_step :=
  lazymatch goal with
  | |- wp (mbind _ _) _ _ => apply wp_bind
  | |- wp (mret ?a) ?Q ?s => change (Q a s)
  | |- wp get ?Q ?s => change (Q (s_conn s) s)
  | |- wp (modify ?f) ?Q ?s => change (Q () (St (f (s_conn s)) (s_os s) (s_calls s)))
  | |- wp (call ?e) ?Q ?s => change (Q () (St (s_conn s) (s_os s) (s_calls s ++ [e])))
  | |- wp (look ?f) ?Q ?s => change (Q (f (s_os s)) s)
  | |- wp (sys_ ?f) ?Q ?s => change (Q () (St (s_conn s) (f (s_os s)) (s_calls s)))
  | |- wp (sys _) _ _ => apply wp_sys
  end; cbn [s_conn s_os s_calls]; cbv beta.
Ltac wp_steps := repeat wp_step.

(** ** Slots *)

Abbreviation occupied := (filter (λ x : Z, 0 < x)) (only parsing).

Lemma fill_slot_ok f cl cl' :
  0 < f → Forall (λ x, 0 <= x) cl → fill_slot f cl = Some cl' →
  length cl' = length cl ∧ Forall (λ x, 0 <= x) cl' ∧ occupied cl' ≡ₚ f :: occupied cl.
Proof.
  intros Hf. revert cl'. induction cl as [|x cl IH]; intros cl'; [done|]. cbn [fill_slot].
  intros [Hx Hcl]%Forall_cons. destruct (Z.eqb_spec x 0) as [->|Hne].
  - intros [= <-]. rewrite !filter_cons, decide_True, (decide_False (P := 0 < 0)) by lia.
    split_and!; [done|constructor; [lia|done]|done].
  - intros (cl1 & Hcl1 & ->)%fmap_Some. destruct (IH _ Hcl Hcl1) as (H1 & H2 & H3). cbn [length].
    rewrite !filter_cons, !decide_True by lia. split_and!; [lia|by constructor|]. rewrite H3. constructor.
Qed.

Lemma fill_slot_room f cl :
  Forall (λ x, 0 <= x) cl → (length (occupied cl) < length cl)%nat → is_Some (fill_slot f cl).
Proof.
  induction 1 as [|x cl Hx Hcl IH]; cbn [length fill_slot]; [lia|]. rewrite filter_cons.
  destruct (Z.eqb_spec x 0) as [->|Hne]; [by eexists|]. rewrite decide_True by lia. cbn [length].
  intros Hlt. destruct IH as [cl' ->]; [lia|]. by eexists.
Qed.

Lemma free_slot_ok f cl cl' :
  Forall (λ x, 0 <= x) cl → free_slot f cl = Some cl' →
  length cl' = length cl ∧ Forall (λ x, 0 <= x) cl' ∧ occupied cl ≡ₚ f :: occupied cl'.
Proof.
  revert cl'. induction cl as [|x cl IH]; intros cl'; [done|]. cbn [free_slot].
  intros [Hx Hcl]%Forall_cons. destruct (_ && _) eqn:E.
  - apply andb_true_iff in E as [Hf ->%Z.eqb_eq]. intros [= <-].
    rewrite !filter_cons, decide_True, (decide_False (P := 0 < 0)) by lia.
    split_and!; [done|constructor; [lia|done]|done].
  - intros (cl1 & Hcl1 & ->)%fmap_Some. destruct (IH _ Hcl Hcl1) as (H1 & H2 & H3). cbn [length].
    rewrite !filter_cons. split_and!; [lia|by constructor|]. case_decide; [|done]. rewrite H3. constructor.
Qed.

Lemma replace_slot_ok f cl old cl' :
  0 < f → Forall (λ x, 0 <= x) cl → replace_slot f cl = Some (old, cl') →
  length cl' = length cl ∧ Forall (λ x, 0 <= x) cl' ∧ 0 < old ∧
  ∃ l, occupied cl ≡ₚ old :: l ∧ occupied cl' ≡ₚ f :: l.
Proof.
  intros Hf. revert cl'. induction cl as [|x cl IH]; intros cl'; [done|]. cbn [replace_slot].
  intros [Hx Hcl]%Forall_cons. destruct (Z.gtb_spec x 0) as [Hlt|Hge].
  - intros [= <- <-]. rewrite !filter_cons, !decide_True by lia.
    split_and!; [done|constructor; [lia|done]|done|by eexists].
  - intros ([o1 cl1] & Hcl1 & E)%fmap_Some. injection E as -> ->.
    destruct (IH _ Hcl Hcl1) as (H1 & H2 & H3 & l & H4 & H5). cbn [length].
    rewrite !filter_cons, !decide_False by lia. split_and!; [lia|by constructor|done|by exists l].
Qed.

Section invariant.
Context {OS : Type} (os : os_ops OS) (fds : OS → gset Z) `{!Posix os fds}.
Implicit Types (s : cst OS) (base X : gset Z).

Definition st_ok (cl : bool) base s : Prop := conn_ok cl base (s_conn s) (fds (s_os s)) (s_calls s).

Definition closed_clients (cl : list Z) : list Z := (λ x, if x >? 0 then 0 else x) <$> cl.

Lemma close_clients_ok cl base l s (Q : list Z → cst OS → Prop) :
  own base (fds (s_os s)) (filter (λ x, 0 < x) cl ++ l) →
  (∀ o, own base (fds o) l → Q (closed_clients cl) (St (s_conn s) o (s_calls s))) →
  wp (close_clients os cl) Q s.
Proof.
  revert s Q. induction cl as [|x cl IH]; intros s Q Ho HQ; cbn [close_clients].
  { wp_steps. destruct s. by apply HQ. }
  wp_step. unfold closed_clients in HQ. rewrite fmap_cons in HQ. cbn beta in HQ.
  rewrite filter_cons in Ho. destruct (Z.gtb_spec x 0); cbn [when].
  - rewrite decide_True in Ho by lia. wp_steps. apply IH; cbn [s_os s_conn s_calls].
    + rewrite posix_close. by apply own_close in Ho.
    + intros o Ho'. wp_steps. by apply HQ.
  - rewrite decide_False in Ho by lia. wp_steps. apply IH; [done|]. intros o Ho'. wp_steps. by apply HQ.
Qed.

Lemma closed_clients_zero cl : Forall (λ x, 0 <= x) cl → closed_clients cl = replicate (length cl) 0.
Proof.
  induction 1 as [|x cl Hx _ IH]; [done|]. unfold closed_clients in *. cbn [length replicate]. rewrite fmap_cons, IH.
  f_equal. destruct (Z.gtb_spec x 0); lia.
Qed.

Lemma filter_zeros n : filter (λ x, 0 < x) (replicate n 0) = [].
Proof. induction n as [|n IH]; [done|]. cbn [replicate]. rewrite filter_cons, decide_False by lia. done. Qed.

(** ** Servers *)

Lemma server_not_client cl base c X calls : conn_ok cl base c X calls → is_tcp_server (c_param c) = true → cl = false.
Proof. intros Hok Hs. destruct cl; [|done]. destruct (ok_calls _ _ _ _ _ Hok eq_refl) as [Hc _]. by destruct (c_param c). Qed.

Lemma listen_ok cl base s :
  st_ok cl base s →
  wp (conn_tcp_server_listen os) (λ _ s', st_ok cl base s' ∧ c_param (s_conn s') = c_param (s_conn s)) s.
Proof.
  intros Hok. unfold conn_tcp_server_listen. do 2 wp_step.
  destruct (c_param (s_conn s)) as [ip port t ml| | | |] eqn:Hp; try (by wp_steps).
  destruct (is_listen (s_conn s)) eqn:Hl; [by wp_steps|]. destruct (_ || _); [|by wp_steps].
  pose proof (server_not_client _ _ _ _ _ Hok ltac:(by rewrite Hp)) as ->.
  destruct Hok as [Ho Hsh Hb Hoff _]. unfold held in Ho. rewrite Hp, Hl in Ho. cbn [app] in Ho.
  unfold shape in Hsh. rewrite Hp in Hsh. destruct Hsh as (Hsh1 & Hsh2 & Hsh3 & Hsh4).
  wp_steps. pose proof (posix_socket (negb (is_ipv4 os ip)) SOCK_STREAM true (s_os s)) as Hg.
  destruct (os_socket os _ _ _ _) as [f o1]. cbn [fst snd] in *.
  set (o2 := os_setsockopt os f SO_REUSEADDR o1).
  assert (fds o2 = fds o1) as E2 by apply posix_setsockopt. rewrite <-E2 in Hg. clearbody o2.
  pose proof (posix_bind f ip port o2) as Hbind. pose proof (posix_bind_bad f ip port o2) as Hbad.
  destruct (os_bind os f ip port o2) as [r3 o3]. cbn [fst snd] in *. rewrite <-Hbind in Hg.
  pose proof (own_got _ _ _ _ _ Ho Hg) as Hown.
  assert (∀ o, fds o = fds o3 → st_ok false base (St (s_conn s) (os_close os f o) (s_calls s))) as Hclose.
  { intros o E. split; cbn [s_conn s_os s_calls]; [|by unfold shape; rewrite Hp|done|done|done].
    unfold held. rewrite Hp, Hl, posix_close, E.
    destruct Hown as [[-> H]|[_ H]]; [by apply own_close_none|by apply own_close]. }
  destruct (Z.eqb_spec r3 0) as [E3|E3]; cbn [negb]; wp_steps; [|by split; [apply Hclose|]].
  pose proof (posix_listen f o3) as Hlis. destruct (os_listen os f o3) as [r4 o4]. cbn [fst snd] in *.
  destruct (Z.eqb_spec r4 0); cbn [negb]; wp_steps; [|by split; [apply Hclose|]].
  destruct Hown as [[-> H]|[Hf H]].
  { destruct Hbad; [|done]. rewrite <-Hbind. by eapply own_bad. }
  split; [|done]. split; cbn; [|by unfold shape; cbn; rewrite Hp|done|done|done].
  unfold held, open_clients. cbn. rewrite Hp, Hlis. done.
Qed.

Lemma server_stop_ok cl base s :
  st_ok cl base s →
  wp (conn_tcp_server_stop os) (λ _ s', st_ok cl base s' ∧ c_param (s_conn s') = c_param (s_conn s) ∧
    is_listen (s_conn s') = false) s.
Proof.
  intros Hok. unfold conn_tcp_server_stop. do 2 wp_step.
  destruct (c_param (s_conn s)) as [ip port t ml| | | |] eqn:Hp;
    try (wp_steps; split_and!; [done|done|]; destruct Hok as [_ Hsh _ _ _]; unfold shape in Hsh; rewrite Hp in Hsh; tauto).
  destruct (is_listen (s_conn s)) eqn:Hl; [|by wp_steps].
  pose proof (server_not_client _ _ _ _ _ Hok ltac:(by rewrite Hp)) as ->.
  destruct Hok as [Ho Hsh Hb Hoff _]. unfold held in Ho. rewrite Hp, Hl in Ho. cbn [app] in Ho.
  unfold shape in Hsh. rewrite Hp in Hsh. destruct Hsh as (Hsh1 & Hsh2 & Hsh3 & _).
  wp_steps. apply (close_clients_ok _ base [fd (s_conn s)]); cbn [s_os s_conn s_calls].
  { eapply own_perm; [|exact Ho]. unfold open_clients. by rewrite (comm (++) (filter _ _)). }
  intros o Ho'. rewrite closed_clients_zero by done. wp_steps.
  assert (0 < fd (s_conn s)) as Hf by (apply (own_apart _ _ _ Ho); set_solver).
  destruct (Z.gtb_spec (fd (s_conn s)) 0); [|lia]. cbn [when]. wp_steps.
  split; [|done]. split; cbn; [| |done|done|done].
  - unfold held, open_clients. cbn. rewrite Hp, posix_close, filter_zeros. cbn. by apply own_close in Ho'.
  - unfold shape, open_clients. cbn. rewrite Hp, filter_zeros, length_replicate.
    split_and!; [done|by apply Forall_replicate|done|done].
Qed.

(** ** Connecting and disconnecting *)

(** What a disconnection leaves. *)
Definition closed (c c' : neu_conn) : Prop :=
  c_param c' = c_param c ∧ is_listen c' = is_listen c ∧ is_connected c' = false ∧ offset c' = 0 ∧
  stop c' = stop c ∧ held c' = (if is_listen c then [fd c'] else []).

(** The end of [conn_disconnect] for a client. *)
Lemma client_close_ok cl base s :
  let c := with_buf (with_flags (with_link (s_conn s) false (fd (s_conn s))) false false)
    (replicate (Z.to_nat (buf_size (s_conn s))) 0) 0 in
  ∀ calls, is_client (c_param (s_conn s)) = true → is_listen (s_conn s) = false → n_client (s_conn s) = 0 →
  (is_connected (s_conn s) = false → fd (s_conn s) = 0) → buf_size (s_conn s) = 8192 →
  own base (fds (s_os s)) (if is_connected (s_conn s) then [fd (s_conn s)] else []) →
  (cl = true → sessions None calls = Some None) →
  wp (when (fd (s_conn s) >? 0)
      (sys_ (os_close os (fd (s_conn s)));; modify (λ c, with_link c (is_connected c) 0)))
    (λ _ s', st_ok cl base s' ∧ closed (s_conn s) (s_conn s')) (St c (s_os s) calls).
Proof.
  intros c calls Hcl Hl Hn Hfd Hb Ho Hses.
  assert (∀ o, own base (fds o) [] → let s' := St (with_link c (is_connected c) 0) o calls in
    st_ok cl base s' ∧ closed (s_conn s) (s_conn s')) as Hend.
  { intros o Ho'. unfold c. cbn. unfold st_ok, closed, held. cbn.
    destruct (c_param (s_conn s)) eqn:Hp; [done| |done| |done]; (split; [split; cbn|by rewrite Hl]);
      unfold held, shape; cbn; rewrite ?Hp, ?length_replicate; try done; lia || idtac.
    all: intros E; unfold client_calls, in_session, c; cbn; rewrite Hp; by auto. }
  destruct (is_connected (s_conn s)).
  - assert (0 < fd (s_conn s)) by (apply (own_apart _ _ _ Ho); set_solver).
    destruct (Z.gtb_spec (fd (s_conn s)) 0); [|lia]. cbn [when]. wp_steps. apply Hend.
    rewrite posix_close. by apply own_close in Ho.
  - rewrite Hfd in * by done. cbn [when]. wp_steps. specialize (Hend _ Ho). unfold c in *. cbn in Hend.
    unfold with_link, with_flags, with_buf in *. cbn in Hend |- *. by rewrite Hfd by done.
Qed.

Lemma disconnect_ok cl base s :
  st_ok cl base s → wp (conn_disconnect os) (λ _ s', st_ok cl base s' ∧ closed (s_conn s) (s_conn s')) s.
Proof.
  intros [Ho Hsh [Hb Hb'] Hoff Hc]. unfold conn_disconnect. do 5 wp_step.
  apply wp_mono with (λ _ s1, s_os s1 = s_os s ∧
    s_conn s1 = with_flags (with_link (s_conn s) false (fd (s_conn s))) false false ∧
    (cl = true → sessions None (s_calls s1) = Some None)).
  { apply wp_when; intros Ht; wp_steps; cbn [s_conn s_os s_calls with_flags with_link callback_trigger]; split_and!; try done.
    - intros E. destruct (Hc E) as (_ & Hses & _). rewrite sessions_app, Hses. unfold in_session. rewrite Ht.
      cbn. by rewrite Z.eqb_refl.
    - by rewrite Ht.
    - intros E. destruct (Hc E) as (_ & Hses & _). rewrite Hses. unfold in_session. by rewrite Ht. }
  intros [] [c1 o1 calls1]. cbn [s_os s_conn s_calls]. intros (-> & -> & Hses). unfold reset_buf. wp_steps.
  cbn [buf_size with_flags with_link]. unfold held in Ho. unfold shape in Hsh.
  assert (length (replicate (Z.to_nat (buf_size (s_conn s))) 0) = Z.to_nat (buf_size (s_conn s))) as Hlen
    by apply length_replicate.
  destruct (c_param (s_conn s)) as [ip port t ml|ip port t| |tty|] eqn:Hp; [| |done| |done].
  - destruct Hsh as (Hsh1 & Hsh2 & Hsh3 & Hsh4). wp_steps.
    apply (close_clients_ok _ base (if is_listen (s_conn s) then [fd (s_conn s)] else [])); cbn [s_os s_conn s_calls].
    { eapply own_perm; [|exact Ho]. unfold open_clients. by rewrite (comm (++) (filter _ _)). }
    intros o Ho'. rewrite closed_clients_zero by done. wp_steps. split.
    + split; cbn; [| |done|lia|].
      * unfold held, open_clients. cbn. rewrite Hp, filter_zeros. cbn. by rewrite app_nil_r.
      * unfold shape, open_clients. cbn. rewrite Hp, filter_zeros, length_replicate.
        split_and!; [done|by apply Forall_replicate|done|done].
      * intros E. destruct (Hc E) as [Hc' _]. by rewrite Hp in Hc'.
    + unfold closed, held, open_clients. cbn. rewrite Hp, filter_zeros, app_nil_r. done.
  - destruct Hsh as (? & ? & ?). apply client_close_ok; by rewrite ?Hp.
  - destruct Hsh as (? & ? & ?). apply client_close_ok; by rewrite ?Hp.
Qed.

(** A client that is not connected, as [conn_connect] finds it. *)
Definition offline (c : neu_conn) : Prop := is_client (c_param c) = true → is_connected c = false.

Lemma st_ok_client cl base s :
  is_client (c_param (s_conn s)) = true →
  st_ok cl base s ↔
    own base (fds (s_os s)) (if is_connected (s_conn s) then [fd (s_conn s)] else []) ∧
    (is_listen (s_conn s) = false ∧ n_client (s_conn s) = 0 ∧ (is_connected (s_conn s) = false → fd (s_conn s) = 0)) ∧
    (buf_size (s_conn s) = 8192 ∧ length (buf (s_conn s)) = Z.to_nat (buf_size (s_conn s))) ∧
    0 <= offset (s_conn s) <= 8192 ∧ (cl = true → client_calls (s_conn s) (s_calls s)).
Proof.
  intros Hc. split.
  - intros [Ho Hsh Hb Hoff Hcl]. unfold held, shape in *. by destruct (c_param (s_conn s)).
  - intros (? & ? & ? & ? & ?). split; [..|done]; unfold held, shape; by destruct (c_param (s_conn s)).
Qed.

(** A client that takes a descriptor. *)
Lemma client_link_ok cl base s f o :
  is_client (c_param (s_conn s)) = true → st_ok cl base s → is_connected (s_conn s) = false →
  own base (fds o) [f] → st_ok cl base (St (with_link (s_conn s) true f) o (s_calls s)).
Proof.
  intros Hc (Ho & (Hl & Hn & _) & Hb & Hoff & Hcl)%st_ok_client Hcon Ho'; [|done].
  apply st_ok_client; [done|]. cbn. split_and!; try done; try tauto. intros E.
  destruct (Hcl E) as (? & Hses & Htr). split; [done|]. cbn.
  destruct (callback_trigger (s_conn s)) eqn:Ht; [by rewrite Htr in Hcon|].
  split; [|done]. rewrite Hses. unfold in_session. cbn. by rewrite Ht.
Qed.

(** A client that stays without one. *)
Lemma client_fail_ok cl base s o c :
  is_client (c_param (s_conn s)) = true → st_ok cl base s → is_connected (s_conn s) = false →
  c = s_conn s ∨ c = with_link (s_conn s) false (fd (s_conn s)) →
  own base (fds o) [] → st_ok cl base (St c o (s_calls s)).
Proof.
  intros Hc (Ho & Hsh & Hb & Hoff & Hcl)%st_ok_client Hcon Hc' Ho'; [|done].
  assert (s_conn s = with_link (s_conn s) false (fd (s_conn s))) as E
    by (rewrite <-Hcon; by destruct (s_conn s)).
  assert (c = s_conn s) as -> by (destruct Hc'; congruence).
  apply st_ok_client; [done|]. cbn. split_and!; try done; try tauto. by rewrite Hcon.
Qed.

Lemma connect_ok cl base s :
  st_ok cl base s → offline (s_conn s) →
  wp (conn_connect os) (λ _ s', st_ok cl base s' ∧ c_param (s_conn s') = c_param (s_conn s) ∧
    stop (s_conn s') = stop (s_conn s)) s.
Proof.
  intros Hok Hoff. unfold conn_connect. do 2 wp_step. unfold offline in Hoff.
  destruct (c_param (s_conn s)) as [| ip port t| |tty|] eqn:Hp; [by wp_steps| |by destruct Hok as [_ Hsh _ _ _];
    unfold shape in Hsh; rewrite Hp in Hsh| |by destruct Hok as [_ Hsh _ _ _]; unfold shape in Hsh; rewrite Hp in Hsh].
  - assert (is_client (c_param (s_conn s)) = true) as Hc by (by rewrite Hp). specialize (Hoff eq_refl).
    pose proof Hok as (Ho & _)%st_ok_client; [|done]. rewrite Hoff in Ho.
    unfold connect_tcp_client. wp_steps.
    pose proof (posix_socket (negb (is_ipv4 os ip)) SOCK_STREAM (negb (block (s_conn s))) (s_os s)) as Hg.
    destruct (os_socket os _ _ _ _) as [f o1]. cbn [fst snd] in *.
    apply wp_mono with (λ _ s1, s_conn s1 = s_conn s ∧ s_calls s1 = s_calls s ∧ fds (s_os s1) = fds o1).
    { apply wp_when; intros _; [|done]. unfold set_timeout. wp_steps. split_and!; [done|done|]. apply posix_setsockopt. }
    intros [] [c2 o2 calls2]. cbn [s_conn s_os s_calls]. intros (-> & -> & E2). rewrite <-E2 in Hg.
    pose proof (own_got _ _ _ _ _ Ho Hg) as Hown.
    assert (∀ o, fds o = fds o2 → own base (fds (os_close os f o)) []) as Hclose.
    { intros o E. rewrite posix_close, E. destruct Hown as [[-> H]|[_ H]]; [by apply own_close_none|by apply own_close]. }
    destruct (_ || _).
    2:{ wp_steps. split; [|done]. eapply (client_fail_ok cl base s); auto. }
    wp_steps. pose proof (posix_connect f ip port o2) as Hcn. pose proof (posix_connect_bad f ip port o2) as Hbad.
    destruct (os_connect os f ip port o2) as [[r e] o3]. cbn [fst snd] in *.
    destruct (_ || _) eqn:Hr; unfold fail_connect; wp_steps; (split; [|done]).
    + apply (client_link_ok cl base s); try done. destruct Hown as [[-> H]|[_ H]]; [|by rewrite Hcn].
      destruct Hbad as [Hb1 Hb2]; [by eapply own_bad|].
      destruct (Z.eqb_spec r 0), (Z.eqb_spec e EINPROGRESS), (block (s_conn s)); done.
    + eapply (client_fail_ok cl base s); auto.
  - assert (is_client (c_param (s_conn s)) = true) as Hc by (by rewrite Hp). specialize (Hoff eq_refl).
    pose proof Hok as (Ho & _)%st_ok_client; [|done]. rewrite Hoff in Ho.
    unfold connect_tty. wp_steps. pose proof (posix_open (tty_device tty) (s_os s)) as Hg.
    destruct (os_open os (tty_device tty) (s_os s)) as [f o1]. cbn [fst snd] in *.
    destruct (own_got _ _ _ _ _ Ho Hg) as [[-> H]|[Hf H]].
    + cbn. wp_steps. split; [|done]. eapply (client_fail_ok cl base s); auto.
    + destruct (Z.leb_spec f 0); [lia|]. wp_steps. split; [|done].
      apply (client_link_ok cl base s); try done. by rewrite posix_tcsetattr.
Qed.

(** ** Operations of servers *)

Lemma st_ok_server cl base s :
  is_tcp_server (c_param (s_conn s)) = true →
  st_ok cl base s ↔ cl = false ∧
    own base (fds (s_os s)) ((if is_listen (s_conn s) then [fd (s_conn s)] else []) ++ open_clients (s_conn s)) ∧
    shape (s_conn s) ∧ (buf_size (s_conn s) = 8192 ∧ length (buf (s_conn s)) = Z.to_nat (buf_size (s_conn s))) ∧
    0 <= offset (s_conn s) <= 8192.
Proof.
  intros Hc. split.
  - intros Hok. pose proof (server_not_client _ _ _ _ _ Hok Hc). destruct Hok as [Ho Hsh Hb Hoff Hcl].
    unfold held in *. by destruct (c_param (s_conn s)).
  - intros (-> & ? & ? & ? & ?). split; try done. unfold held. by destruct (c_param (s_conn s)).
Qed.

(** New slots for those of a server. *)
Lemma clients_ok base s o cl' n :
  is_tcp_server (c_param (s_conn s)) = true → st_ok false base s →
  length cl' = length (clients (s_conn s)) → Forall (λ x, 0 <= x) cl' → n = Z.of_nat (length (occupied cl')) →
  own base (fds o) ((if is_listen (s_conn s) then [fd (s_conn s)] else []) ++ occupied cl') →
  st_ok false base (St (with_clients (s_conn s) cl' n) o (s_calls s)).
Proof.
  intros Hs (_ & _ & Hsh & ? & ?)%st_ok_server Hlen Hpos -> Ho; [|done].
  apply st_ok_server; [done|]. split_and!; try done; try tauto. unfold shape in *. cbn.
  destruct (c_param (s_conn s)); [|done..]. destruct Hsh as (? & ? & ? & ?). split_and!; try done. congruence.
Qed.

Lemma server_slots base s ip port t ml :
  c_param (s_conn s) = TcpServer ip port t ml → st_ok false base s →
  length (clients (s_conn s)) = Z.to_nat ml ∧ Forall (λ x, 0 <= x) (clients (s_conn s)) ∧
  n_client (s_conn s) = Z.of_nat (length (open_clients (s_conn s))) ∧
  own base (fds (s_os s)) ((if is_listen (s_conn s) then [fd (s_conn s)] else []) ++ open_clients (s_conn s)).
Proof.
  intros Hp Hok. apply st_ok_server in Hok as (_ & Ho & Hsh & _); [|by rewrite Hp].
  unfold shape in Hsh. rewrite Hp in Hsh. tauto.
Qed.

Lemma del_client_ok base s f :
  is_tcp_server (c_param (s_conn s)) = true → st_ok false base s →
  wp (conn_tcp_server_del_client os f)
    (λ _ s', st_ok false base s' ∧ c_param (s_conn s') = c_param (s_conn s) ∧ s_calls s' = s_calls s) s.
Proof.
  intros Hs Hok. unfold conn_tcp_server_del_client. do 2 wp_step.
  destruct (c_param (s_conn s)) as [ip port t ml| | | |] eqn:Hp; [|done..].
  destruct (server_slots _ _ _ _ _ _ Hp Hok) as (Hlen & Hpos & Hn & Ho).
  destruct (free_slot f _) as [cl'|] eqn:Hf; [|by wp_steps].
  destruct (free_slot_ok _ _ _ Hpos Hf) as (H1 & H2 & H3). wp_steps. split; [|done].
  apply clients_ok; try done; [by rewrite Hp|..].
  - unfold open_clients in Hn. rewrite Hn, H3. cbn [length]. lia.
  - rewrite posix_close. apply own_close. eapply own_perm; [|exact Ho]. unfold open_clients. rewrite H3. solve_Permutation.
Qed.

Lemma accept_ok base s :
  st_ok false base s → wp (neu_conn_tcp_server_accept os) (λ _ s', st_ok false base s') s.
Proof.
  intros Hok. unfold neu_conn_tcp_server_accept. do 2 wp_step.
  destruct (c_param (s_conn s)) as [ip port t ml| | | |] eqn:Hp; try (by wp_steps).
  destruct (server_slots _ _ _ _ _ _ Hp Hok) as (Hlen & Hpos & Hn & Ho). wp_steps.
  pose proof (posix_accept (fd (s_conn s)) (s_os s)) as Hg. destruct (os_accept os _ _) as [f o1]. cbn [fst snd] in *.
  set (s1 := St (s_conn s) o1 (s_calls s)).
  destruct (own_got _ _ _ _ _ Ho Hg) as [[-> H]|[Hf H]].
  { cbn. wp_steps. apply st_ok_server; [by cbn; rewrite Hp|]. apply st_ok_server in Hok; [|by rewrite Hp]. cbn. tauto. }
  destruct (Z.leb_spec f 0); [lia|]. wp_steps.
  apply wp_mono with (λ _ s2, s_conn s2 = s_conn s ∧ s_calls s2 = s_calls s ∧ fds (s_os s2) = fds o1).
  { apply wp_when; intros _; [|done]. unfold set_timeout. wp_steps. split_and!; [done|done|]. apply posix_setsockopt. }
  intros [] [c2 o2 calls2]. cbn [s_conn s_os s_calls]. intros (-> & -> & E2). rewrite <-E2 in H. wp_step.
  apply wp_mono with (λ ok s3, st_ok false base s3 ∧ c_param (s_conn s3) = c_param (s_conn s)).
  - destruct (Z.geb_spec (n_client (s_conn s)) ml); wp_steps.
    + unfold conn_tcp_server_replace_client. wp_steps. destruct (replace_slot f _) as [[old cl']|] eqn:Hr; wp_steps.
      * destruct (replace_slot_ok _ _ _ _ Hf Hpos Hr) as (S1 & S2 & S3 & l & S4 & S5).
        destruct (Z.gtb_spec old 0); [|lia]. wp_steps. split; [|done].
        apply (clients_ok base s); try done; [by rewrite Hp|..].
        -- unfold open_clients in Hn. rewrite Hn, S4, S5. done.
        -- rewrite posix_close. apply own_close. eapply own_perm; [|exact H]. unfold open_clients. rewrite S4, S5.
           solve_Permutation.
      * cbn. wp_steps. split; [|done]. apply st_ok_server; [by cbn; rewrite Hp|].
        apply st_ok_server in Hok; [|by rewrite Hp]. cbn. rewrite posix_close. apply own_close in H. tauto.
    + unfold conn_tcp_server_add_client. wp_steps.
      destruct (fill_slot_room f (clients (s_conn s))) as [cl' Hfill]; [done|unfold open_clients in Hn; lia|].
      rewrite Hfill. destruct (fill_slot_ok _ _ _ Hf Hpos Hfill) as (S1 & S2 & S3). wp_steps. split; [|done].
      apply (clients_ok base s); try done; [by rewrite Hp|..].
      * unfold open_clients in Hn. rewrite Hn, S3. cbn [length]. lia.
      * eapply own_perm; [|exact H]. unfold open_clients. rewrite S3. solve_Permutation.
  - intros ok s3 [Hok3 Hp3]. rewrite Hp in Hp3. destruct ok; cbn [negb]; wp_steps; [|done].
    apply st_ok_server; [by cbn; rewrite Hp3|]. apply st_ok_server in Hok3; [|by rewrite Hp3]. cbn.
    destruct Hok3 as (? & ? & Hsh & ? & ?). split_and!; try done; try tauto.
    unfold shape in *. cbn. by rewrite Hp3 in *.
Qed.

(** Fields that the invariant does not mention, the buffer and callbacks of servers. *)
Lemma st_ok_bytes cl base s x y : st_ok cl base s → st_ok cl base (St (with_bytes (s_conn s) x y) (s_os s) (s_calls s)).
Proof. intros [Ho Hsh Hb Hoff Hcl]. by split. Qed.
Lemma st_ok_buf cl base s b off :
  st_ok cl base s → length b = length (buf (s_conn s)) → 0 <= off <= 8192 →
  st_ok cl base (St (with_buf (s_conn s) b off) (s_os s) (s_calls s)).
Proof. intros [Ho Hsh [Hb Hb'] Hoff Hcl] Hlen. split; [done|done| |done|done]. cbn. by rewrite Hlen. Qed.
Lemma st_ok_stop cl base s b : st_ok cl base s → st_ok cl base (St (with_stop (s_conn s) b) (s_os s) (s_calls s)).
Proof. intros [Ho Hsh Hb Hoff Hcl]. by split. Qed.
Lemma st_ok_os cl base s o : st_ok cl base s → fds o = fds (s_os s) → st_ok cl base (St (s_conn s) o (s_calls s)).
Proof. intros [Ho Hsh Hb Hoff Hcl] E. split; cbn; by rewrite ?E. Qed.
Lemma st_ok_call base s e : st_ok false base s → st_ok false base (St (s_conn s) (s_os s) (s_calls s ++ [e])).
Proof. intros [Ho Hsh Hb Hoff Hcl]. by split. Qed.

Lemma reset_buf_ok cl base s :
  st_ok cl base s → wp reset_buf (λ _ s', st_ok cl base s' ∧ c_param (s_conn s') = c_param (s_conn s)) s.
Proof.
  intros Hok. unfold reset_buf. wp_steps. split; [|done]. apply st_ok_buf; [done| |lia].
  destruct (ok_buf _ _ _ _ _ Hok) as [_ ->]. apply length_replicate.
Qed.

Lemma close_client_ok cl base s f :
  st_ok cl base s →
  wp (neu_conn_tcp_server_close_client os f) (λ _ s', st_ok cl base s' ∧ c_param (s_conn s') = c_param (s_conn s)) s.
Proof.
  intros Hok. unfold neu_conn_tcp_server_close_client. do 2 wp_step.
  destruct (c_param (s_conn s)) eqn:Hp; try (by wp_steps).
  pose proof (server_not_client _ _ _ _ _ Hok ltac:(by rewrite Hp)) as ->. wp_steps.
  eapply wp_mono; [apply del_client_ok; [by cbn; rewrite Hp|by apply st_ok_call]|].
  intros [] s' (Hok' & Hp' & _). wp_steps. eapply wp_mono; [by apply reset_buf_ok|].
  intros [] s2 [Hok2 Hp2]. wp_steps. split; [done|]. rewrite Hp2, Hp'. done.
Qed.

Lemma server_send_ok base s f bytes :
  is_tcp_server (c_param (s_conn s)) = true → st_ok false base s →
  wp (neu_conn_tcp_server_send os f bytes) (λ _ s', st_ok false base s') s.
Proof.
  intros Hs Hok. unfold neu_conn_tcp_server_send. do 2 wp_step. destruct (stop _); [by wp_steps|]. wp_steps.
  eapply wp_mono; [by apply (listen_ok false base)|].
  intros [] s1 [Hok1 Hp1]. wp_steps. pose proof (posix_send f bytes MSG_DONTWAIT (s_os s1)) as Hsend.
  destruct (os_send os _ _ _ _) as [[ret e] o2]. cbn [fst snd] in *. wp_steps.
  pose proof (st_ok_os _ _ _ _ Hok1 Hsend) as Hok2. rewrite <-Hp1 in Hs. clear Hok Hok1 Hp1.
  apply wp_mono with (λ _ s3, st_ok false base s3 ∧ is_tcp_server (c_param (s_conn s3)) = true).
  { apply wp_when; intros _; [|done]. wp_steps. split; [|done]. by apply (st_ok_bytes _ _ (St _ _ _)). }
  intros [] s3 [Hok3 Hs3]. wp_steps. apply wp_mono with (λ _ s4, st_ok false base s4).
  { apply wp_when; intros _; [|done]. wp_steps.
    eapply wp_mono; [apply (del_client_ok base (St _ _ _)); [done|by apply st_ok_call]|]. by intros [] s4 [? _]. }
  intros [] s4 Hok4. by wp_steps.
Qed.

(** ** Sending and receiving *)

(** Only the operating system has moved, and no descriptor. *)
Definition os_moved s s' : Prop :=
  s_conn s' = s_conn s ∧ s_calls s' = s_calls s ∧ fds (s_os s') = fds (s_os s).

Lemma os_moved_refl s : os_moved s s.
Proof. done. Qed.
Lemma os_moved_step s o s' : fds o = fds (s_os s) → os_moved (St (s_conn s) o (s_calls s)) s' → os_moved s s'.
Proof. intros E (? & ? & E'). cbn in E'. split_and!; [done..|]. by rewrite E', E. Qed.
Lemma os_moved_ok cl base s s' : os_moved s s' → st_ok cl base s → st_ok cl base s'.
Proof. destruct s' as [c o calls]. intros (Hc & Hl & E) Hok. cbn in *. subst c calls. by apply st_ok_os. Qed.

(** The loop ends: [len - ret + 11 - retry] goes down. *)
Lemma send_loop_ok n bytes ret retry e s :
  is_client (c_param (s_conn s)) = true → 0 <= ret → 0 <= retry <= 11 →
  Z.max 0 (Z.of_nat (length bytes) - ret) + (11 - retry) < Z.of_nat n →
  wp (send_loop os n bytes ret retry e) (λ _ s', os_moved s s') s.
Proof.
  revert s ret retry e. induction n as [|n IH]; intros s ret retry e Hc Hret Hretry Hn; [lia|]. cbn [send_loop].
  destruct (Z.ltb_spec ret (Z.of_nat (length bytes))); [|by wp_steps].
  wp_steps.
  apply wp_mono with (λ _ s', os_moved s s').
  { unfold os_moved. destruct (c_param (s_conn s)); try done; wp_steps; (split_and!; [done..|]);
      by rewrite ?posix_send, ?posix_write. }
  intros [rc e'] s1 Hm. cbv zeta. destruct (Z.gtb_spec (s32 rc) 0) as [Hrc|Hrc].
  - destruct (_ =? _); [by wp_steps|]. destruct s1 as [c1 o1 calls1]. pose proof Hm as (E1 & E2 & _). cbn in E1, E2. subst c1 calls1.
    eapply wp_mono; [apply IH; [done|lia|lia|lia]|]. intros r s2 Hm2. eapply os_moved_step; [by apply Hm|done].
  - destruct (negb _ && _ && _); [|by wp_steps]. destruct (Z.gtb_spec retry 10); [by wp_steps|].
    destruct s1 as [c1 o1 calls1]. pose proof Hm as (E1 & E2 & _). cbn in E1, E2. subst c1 calls1.
    eapply wp_mono; [apply IH; [done|lia|lia|lia]|]. intros r s2 Hm2. eapply os_moved_step; [by apply Hm|done].
Qed.

Lemma send_ok cl base s bytes :
  is_client (c_param (s_conn s)) = true → st_ok cl base s →
  wp (neu_conn_send os bytes) (λ _ s', st_ok cl base s') s.
Proof.
  intros Hc Hok. unfold neu_conn_send. do 2 wp_step. destruct (stop _); [by wp_steps|]. wp_step.
  apply wp_mono with (λ _ s1, st_ok cl base s1 ∧ is_client (c_param (s_conn s1)) = true).
  { apply wp_when; [|done]. intros Hcon%negb_true_iff. eapply wp_mono; [apply (connect_ok cl base); [done|by intros ?]|].
    intros [] s1 (Hok1 & -> & _). done. }
  intros [] s1 [Hok1 Hc1]. wp_steps.
  apply wp_mono with (λ _ s2, st_ok cl base s2).
  2:{ intros ret s2 Hok2. wp_steps. apply wp_mono with (λ _ s3, st_ok cl base s3); [|by intros [] s3 ?; wp_steps].
      apply wp_when; intros _; [|done]. wp_steps. destruct Hok2 as [Ho Hsh Hb Hoff Hcl]. by split. }
  destruct (is_connected (s_conn s1)) eqn:Hcon; [|by wp_steps]. wp_steps.
  eapply wp_mono; [apply (send_loop_ok _ bytes 0 0 0 s1 Hc1); lia|].
  intros [ret e] s2 Hm. pose proof (os_moved_ok _ _ _ _ Hm Hok1) as Hok2. wp_steps.
  apply wp_mono with (λ _ s3, st_ok cl base s3 ∧ is_client (c_param (s_conn s3)) = true ∧
    (0 < ret → is_connected (s_conn s3) = true)).
  { apply wp_when.
    - intros [E%Z.eqb_eq _]%andb_true_iff. eapply wp_mono; [by apply (disconnect_ok cl base)|].
      intros [] s3 [Hok3 (-> & _)]. split_and!; [done| |lia]. by rewrite (proj1 Hm).
    - intros _. by rewrite (proj1 Hm). }
  intros [] s3 (Hok3 & Hc3 & Hcon3). wp_steps.
  apply wp_mono with (λ _ s4, st_ok cl base s4); [|by intros [] s4 ?; wp_steps].
  apply wp_when; [|done]. intros [Hret%Z.gtb_lt Htr%negb_true_iff]%andb_true_iff. wp_steps.
  specialize (Hcon3 Hret). apply st_ok_client in Hok3 as (? & ? & ? & ? & Hcl); [|done]. apply st_ok_client; [done|]. cbn.
  split_and!; try done; try tauto. intros E. destruct (Hcl E) as (_ & Hses & _). split_and!; [done| |done].
  cbn. rewrite sessions_app, Hses. unfold in_session. by rewrite Htr.
Qed.

(** What was received fits what was asked for. *)
Definition received (len : Z) (ret : Z) (bytes : list Z) : Prop :=
  0 < ret → ret <= len ∧ Z.of_nat (length bytes) = ret.

Lemma tty_loop_ok n f len ret bytes e s :
  received len ret bytes → Z.max 0 (len - ret) < Z.of_nat n →
  wp (tty_loop os n f len ret bytes e) (λ r s', os_moved s s' ∧ received len r.1.1 r.1.2) s.
Proof.
  revert s ret bytes e. induction n as [|n IH]; intros s ret bytes e Hr Hn; [lia|]. cbn [tty_loop].
  destruct (Z.gtb_spec ret 0); cbn [andb]; [|by wp_steps]. destruct (Z.ltb_spec ret len); [|by wp_steps]. wp_steps.
  pose proof (posix_read f (len - ret) (s_os s)) as Hf. pose proof (posix_read_bytes f (len - ret) (s_os s)) as Hb.
  destruct (os_read os f (len - ret) (s_os s)) as [[[rv more] e'] o']. cbn [fst snd] in *.
  destruct (Hb _ _ _ _ eq_refl) as [Hle Hlen]. destruct Hr as [Hr1 Hr2]; [done|].
  destruct (Z.leb_spec rv 0); wp_steps.
  - split; [done|]. intros ?. cbn in *. lia.
  - eapply wp_mono; [apply IH; [intros _; rewrite length_app; lia|lia]|].
    intros r s2 [Hm2 ?]. split; [|done]. by eapply os_moved_step.
Qed.

(** What a call that receives keeps; when it has received something, no byte that
    waits is touched. *)
Definition recv_keeps (cl : bool) base (recv : Z → CM OS (Z * list Z)) s : Prop :=
  ∀ len, wp (recv len) (λ r s', st_ok cl base s' ∧ c_param (s_conn s') = c_param (s_conn s) ∧
    received len r.1 r.2 ∧
    (0 < r.1 → buf (s_conn s') = buf (s_conn s) ∧ offset (s_conn s') = offset (s_conn s))) s.

Lemma recv_ok cl base s :
  is_client (c_param (s_conn s)) = true → st_ok cl base s → recv_keeps cl base (neu_conn_recv os) s.
Proof.
  intros Hc Hok len. unfold neu_conn_recv. do 2 wp_step. destruct (stop _); [wp_steps; split_and!; done|]. wp_step.
  apply wp_mono with (λ r s1, os_moved s s1 ∧ received len r.1.1 r.1.2).
  { destruct (c_param (s_conn s)); try done; wp_steps.
    - set (m := if block _ then _ else _).
      pose proof (posix_recv (fd (s_conn s)) len m (s_os s)) as Hf.
      pose proof (posix_recv_bytes (fd (s_conn s)) len m (s_os s)) as Hb.
      destruct (os_recv os _ _ _ _) as [[[ret bytes] e] o]. destruct (Hb _ _ _ _ eq_refl) as [Hle Hlen].
      split; [done|]. intros ?. cbn in *. lia.
    - pose proof (posix_read (fd (s_conn s)) len (s_os s)) as Hf.
      pose proof (posix_read_bytes (fd (s_conn s)) len (s_os s)) as Hb.
      destruct (os_read os _ _ _) as [[[ret bytes] e] o]. destruct (Hb _ _ _ _ eq_refl) as [Hle Hlen]. cbn [fst snd] in *.
      destruct (decide (0 < ret)).
      + eapply wp_mono; [apply tty_loop_ok; [intros _|]; lia|]. intros r s2 [Hm ?]. split; [|done]. by eapply os_moved_step.
      + destruct (Z.to_nat len + 1)%nat eqn:En; [lia|]. cbn [tty_loop]. destruct (Z.gtb_spec ret 0); [lia|]. cbn [andb].
        wp_steps. split; [done|]. intros ?. cbn in *. lia. }
  intros [[ret bytes] e] s1 [Hm Hr]. cbn [fst snd] in Hr. wp_steps. pose proof (os_moved_ok _ _ _ _ Hm Hok) as Hok1.
  pose proof (proj1 Hm) as E1.
  apply wp_mono with (λ _ s2, st_ok cl base s2 ∧ c_param (s_conn s2) = c_param (s_conn s) ∧ (0 < ret → s2 = s1)).
  { apply wp_when; [|intros _; split_and!; congruence]. intros Hd. eapply wp_mono; [by apply (disconnect_ok cl base)|].
    intros [] s2 [Hok2 (-> & _)]. rewrite E1. split_and!; [done|done|].
    destruct (c_param (s_conn s)); try apply andb_true_iff in Hd as [Hd _]; lia. }
  intros [] s2 (Hok2 & Hp2 & Hs2). wp_steps.
  destruct (Z.gtb_spec ret 0) as [Hret|Hret]; cbn [when]; wp_steps.
  - split_and!; [by apply st_ok_bytes|done|done|]. intros _. rewrite (Hs2 Hret). cbn. by rewrite E1.
  - split_and!; [done|done|done|]. cbn. lia.
Qed.

Lemma server_recv_ok base s f : st_ok false base s → recv_keeps false base (neu_conn_tcp_server_recv os f) s.
Proof.
  intros Hok len. unfold neu_conn_tcp_server_recv. do 2 wp_step. destruct (stop _); [wp_steps; split_and!; done|]. wp_steps.
  set (m := if block _ then _ else _).
  pose proof (posix_recv f len m (s_os s)) as Hf. pose proof (posix_recv_bytes f len m (s_os s)) as Hb.
  destruct (os_recv os _ _ _ _) as [[[ret bytes] e] o]. destruct (Hb _ _ _ _ eq_refl) as [Hle Hlen]. cbn [fst snd] in *.
  pose proof (st_ok_os _ _ _ _ Hok Hf) as Hok1. wp_steps.
  destruct (Z.gtb_spec ret 0) as [Hret|Hret]; cbn [when]; wp_steps.
  - split_and!; [by apply (st_ok_bytes _ _ (St _ _ _))|done| |done]. intros _. cbn in *. lia.
  - split_and!; [done|done| |cbn; lia]. intros ?. cbn in *. lia.
Qed.

Lemma clear_ok cl base n s s' :
  st_ok cl base s → neu_conn_clear_recv_buffer os n s = Some ((), s') → st_ok cl base s'.
Proof.
  intros Hok. unfold neu_conn_clear_recv_buffer, mbind, CM_bind, get.
  destruct (negb _); [by intros [= <-]|]. destruct (c_param _); try (by intros [= <-]).
  generalize (fd (s_conn s)). intros f. revert s Hok. induction n as [|n IH]; intros s Hok; cbn [clear_loop]; [done|].
  unfold mbind, CM_bind, sys. pose proof (posix_recv f 256 MSG_DONTWAIT (s_os s)) as Hf.
  destruct (os_recv os _ _ _ _) as [[[ret bytes] e] o]. cbn [snd] in Hf. pose proof (st_ok_os _ _ _ _ Hok Hf) as Hok1.
  destruct (ret >? 0); [by apply IH|by intros [= <-]].
Qed.
End invariant.
