(* ===== verification/ConnectionNet.v ===== *)
(** * An operating system with a network

    An executable operating system for connections: a set of open descriptors, and
    one peer, a line of any type that takes bytes and gives bytes, to which every
    socket leads.  It satisfies the hypotheses of the class [Posix], so that the
    theorems on connections can be applied to it. *)

From S2P Require Import Prelude Connection ConnectionOk.

Record net (L : Type) := { net_fds : gset Z; net_link : L }.
Arguments net_fds {_}. Arguments net_link {_}.


Definition EBADF : Z := 9.

(** A descriptor that is not in use. *)
Definition new_fd (X : gset Z) : Z := 1 + foldr Z.max 2 (elements X).

Section net.
Context {L : Type} (link_send : L → list Z → Z * L) (link_recv : L → Z → Z * list Z * L) (fresh_link : L → L).
Implicit Types o : net L.

Definition opened o : Z * net L :=
  (new_fd (net_fds o), {| net_fds := net_fds o ∪ {[new_fd (net_fds o)]}; net_link := net_link o |}).

Definition with_net_link (o : net L) (l : L) : net L := {| net_fds := net_fds o; net_link := l |}.

Definition net_send (f : Z) (bytes : list Z) (o : net L) : Z * Z * net L :=
  if decide (f ∈ net_fds o)
  then let '(ret, l) := link_send (net_link o) bytes in (ret, 0, with_net_link o l)
  else (-1, EBADF, o).

(** When there is nothing to receive, the time-out is over. *)
Definition net_recv (f n : Z) (o : net L) : Z * list Z * Z * net L :=
  if decide (f ∈ net_fds o)
  then let '(ret, bytes, l) := link_recv (net_link o) n in
       if ret =? 0 then (-1, [], EAGAIN, o) else (ret, bytes, 0, with_net_link o l)
  else (-1, [], EBADF, o).

Definition net_ops : os_ops (net L) := {|
  inet_pton4 := λ _, true;
  inet_pton6 := λ _, false;
  os_socket := λ _ _ _, opened;
  os_setsockopt := λ _ _ o, o;
  os_bind := λ f _ _ o, (if decide (f ∈ net_fds o) then 0 else -1, o);
  os_listen := λ _ o, (0, o);
  os_connect := λ f _ _ o,
    if decide (f ∈ net_fds o) then (0, 0, with_net_link o (fresh_link (net_link o))) else (-1, EBADF, o);
  os_accept := λ _, opened;
  os_getsockname := λ _ _, None;
  os_open := λ _, opened;
  os_tcgetattr := λ _ _, {| c_iflag := 0; c_oflag := 0; c_cflag := 0; c_lflag := 0; c_ispeed := 0;
    c_ospeed := 0; c_vtime := 0; c_vmin := 0 |};
  os_tcsetattr := λ _ _ o, o;
  os_send := λ f bytes _, net_send f bytes;
  os_sendto := λ f bytes _ _, net_send f bytes;
  os_write := net_send;
  os_recv := λ f n _, net_recv f n;
  os_recvfrom := net_recv;
  os_read := net_recv;
  os_close := λ f o, {| net_fds := net_fds o ∖ {[f]}; net_link := net_link o |};
|}.

Lemma new_fd_fresh X : 0 <= new_fd X ∧ new_fd X ∉ X.
Proof.
  assert (∀ l, 2 <= foldr Z.max 2 l ∧ ∀ x, x ∈ l → x <= foldr Z.max 2 l) as H.
  { induction l as [|y l [IH1 IH2]]; cbn [foldr]; [split; [lia|by intros ? ?%elem_of_nil]|].
    split; [lia|]. intros x [->|Hx]%elem_of_cons; [lia|]. specialize (IH2 x Hx). lia. }
  unfold new_fd. destruct (H (elements X)) as [H1 H2]. split; [lia|].
  intros Hx. specialize (H2 _ (proj2 (elem_of_elements X _) Hx)). lia.
Qed.

Lemma opened_got o : got (opened o).1 (net_fds o) (net_fds (opened o).2).
Proof. right. cbn. destruct (new_fd_fresh (net_fds o)). done. Qed.

Lemma net_send_fds f b o : net_fds (net_send f b o).2 = net_fds o.
Proof. unfold net_send. case_decide; [|done]. by destruct (link_send _ _). Qed.

Lemma net_recv_fds f n o : net_fds (net_recv f n o).2 = net_fds o.
Proof. unfold net_recv. case_decide; [|done]. destruct (link_recv _ _) as [[ret b] l]. by destruct (ret =? 0). Qed.

(** The line gives no more than it is asked for. *)
Hypothesis Hrecv : ∀ l n, (link_recv l n).1.1 <= Z.max 0 n ∧ length (link_recv l n).1.2 = Z.to_nat (link_recv l n).1.1.

Lemma net_recv_bytes f n o ret bytes e o' :
  net_recv f n o = (ret, bytes, e, o') → ret <= Z.max 0 n ∧ length bytes = Z.to_nat ret.
Proof.
  unfold net_recv. case_decide; [|intros [= <- <- <- <-]; cbn; lia].
  pose proof (Hrecv (net_link o) n) as Hr. destruct (link_recv (net_link o) n) as [[r b] l]. cbn in Hr.
  destruct (Z.eqb_spec r 0); intros [= <- <- <- <-]; [cbn; lia|done].
Qed.

Lemma net_posix : Posix net_ops net_fds.
Proof.
  split; cbn.
  - intros _ _ _ o. apply opened_got.
  - intros _ o. apply opened_got.
  - intros _ o. apply opened_got.
  - done.
  - intros f _ _ o Hf. by rewrite decide_False.
  - intros f _ _ o Hf. by rewrite decide_False.
  - done.
  - done.
  - done.
  - intros f _ _ o. by case_decide.
  - done.
  - intros f b _ o. apply net_send_fds.
  - intros f b o. apply net_send_fds.
  - intros f n _ o. apply net_recv_fds.
  - intros f n o. apply net_recv_fds.
  - intros f n _ o ret bytes e o'. apply net_recv_bytes.
  - intros f n o ret bytes e o'. apply net_recv_bytes.
Qed.
End net.

(** ** A line that gives back what it takes *)

Definition echo_recv (l : list Z) (n : Z) : Z * list Z * list Z :=
  (Z.of_nat (length (take (Z.to_nat n) l)), take (Z.to_nat n) l, drop (Z.to_nat n) l).

Definition echo_ops : os_ops (net (list Z)) :=
  net_ops (λ l bytes, (Z.of_nat (length bytes), l ++ bytes)) echo_recv (λ _, []).

#[export] Instance echo_posix : Posix echo_ops net_fds.
Proof. apply net_posix. intros l n. cbn. rewrite length_take. lia. Qed.

Definition echo_queued (_ : Z) (o : net (list Z)) : nat := length (net_link o).

#[export] Instance echo_finite : FiniteQueue echo_ops echo_queued.
Proof.
  split. intros f o ret bytes e o'. cbn. unfold net_recv. case_decide; [|intros [= <- <- <- <-]; lia].
  unfold echo_recv. set (k := Z.of_nat _). destruct (Z.eqb_spec k 0); intros [= <- <- <- <-] Hret; [lia|].
  unfold k in Hret. unfold echo_queued. cbn [net_link with_net_link]. rewrite length_take in Hret. rewrite length_drop. lia.
Qed.

(** A process with its standard streams. *)
Definition echo_start : net (list Z) := {| net_fds := {[0; 1; 2]}; net_link := [] |}.

Lemma echo_start_fds : 0 ∈ net_fds echo_start ∧ ∀ x, x ∈ net_fds echo_start → 0 <= x.
Proof. cbn. split; [set_solver|]. intros x Hx. set_unfold in Hx. lia. Qed.
