(* ===== verification/ConnectionLife.v ===== *)
(** * The life of a connection

    Streams of received bytes, and histories: every operation that fits the type of
    the connection returns and keeps the invariant of ConnectionOk.v, so that no
    descriptor is lost or closed twice, slots of clients are never missing and the
    callbacks of a client come in turn.  The consumer of a stream works as if it
    had all bytes at once. *)

From S2P Require Import Prelude Connection ConnectionOk ConnectionNet.

(** ** Streams *)

(** The bytes that wait for more. *)
Definition waiting (c : neu_conn) : list Z := take (Z.to_nat (offset c)) (buf c).

Section drain.
Context {Ctx : Type} (fn : Ctx → list Z → Z * Ctx).

(** The consumer on all bytes at once: it is called until it wants more. *)
Fixpoint drain_loop (n : nat) (ctx : Ctx) (l : list Z) : Ctx * list Z :=
  match n, l with
  | S n', _ :: _ =>
      let '(used, ctx') := fn ctx l in
      if used <=? 0 then (ctx', l) else drain_loop n' ctx' (drop (Z.to_nat used) l)
  | _, _ => (ctx, l)
  end.
Definition drain (ctx : Ctx) (l : list Z) : Ctx * list Z := drain_loop (length l) ctx l.

(** A consumer that uses no more than there is, and whose decision does not depend
    on what follows the bytes it uses. *)
Record consumer_ok : Prop := {
  used_range ctx l : 0 <= (fn ctx l).1 <= Z.of_nat (length l);
  used_stable ctx l k : 0 < (fn ctx l).1 → fn ctx (l ++ k) = fn ctx l;
  used_none ctx l : (fn ctx l).1 = 0 → (fn ctx l).2 = ctx;
}.
Hypothesis Hfn : consumer_ok.

Lemma drain_loop_fuel n m ctx l :
  (length l <= n)%nat → (length l <= m)%nat → drain_loop n ctx l = drain_loop m ctx l.
Proof.
  revert m ctx l. induction n as [|n IH]; intros m ctx l Hn Hm; [destruct l; [by destruct m|cbn in Hn; lia]|].
  destruct l as [|x l]; [by destruct m|]. destruct m as [|m]; [cbn in Hm; lia|]. cbn [drain_loop].
  destruct (fn ctx (x :: l)) as [used ctx']. destruct (Z.leb_spec used 0); [done|].
  apply IH; rewrite length_drop; cbn [length] in *; lia.
Qed.

Lemma drain_step ctx l used ctx' :
  fn ctx l = (used, ctx') → 0 < used → drain ctx l = drain ctx' (drop (Z.to_nat used) l).
Proof.
  intros E Hu. unfold drain. pose proof (used_range Hfn ctx l) as Hr. rewrite E in Hr. cbn in Hr.
  destruct l as [|x l]; [cbn in Hr; lia|]. cbn [length drain_loop]. rewrite E. destruct (Z.leb_spec used 0); [lia|].
  apply drain_loop_fuel; rewrite ?length_drop; cbn [length] in *; lia.
Qed.

Lemma drain_stop ctx l : (fn ctx l).1 = 0 → drain ctx l = (ctx, l).
Proof.
  intros E. pose proof (used_none Hfn ctx l E) as E2. unfold drain. destruct l as [|x l]; [done|]. cbn [length drain_loop].
  destruct (fn ctx (x :: l)) as [used ctx']. cbn in *. by subst.
Qed.

(** It does not matter how the bytes are cut into portions. *)
Lemma drain_app ctx l k :
  let r := drain ctx l in drain ctx (l ++ k) = drain r.1 (r.2 ++ k).
Proof.
  remember (length l) as n eqn:Hn. revert ctx l Hn. induction n as [n IH] using lt_wf_ind. intros ctx l ->.
  destruct (fn ctx l) as [used ctx'] eqn:E. pose proof (used_range Hfn ctx l) as Hr. rewrite E in Hr. cbn in Hr.
  destruct (decide (used = 0)) as [->|Hne]; [by rewrite (drain_stop ctx l) by (by rewrite E)|].
  assert (0 < used) as Hpos by lia. cbv zeta. rewrite (drain_step ctx l used ctx') by done.
  rewrite (drain_step ctx (l ++ k) used ctx') by (rewrite ?(used_stable Hfn) by (by rewrite E); done).
  rewrite drop_app_le by lia. apply (IH (length (drop (Z.to_nat used) l))); [|done]. rewrite length_drop. lia.
Qed.

Lemma drain_again ctx l : let r := drain ctx l in drain r.1 r.2 = (r.1, r.2).
Proof. cbv zeta. pose proof (drain_app ctx l []) as H. cbv zeta in H. rewrite !app_nil_r in H. by rewrite <-H, <-surjective_pairing. Qed.
End drain.

Section streams.
Context {OS : Type} (os : os_ops OS) (fds : OS → gset Z) `{!Posix os fds} {Ctx : Type}.
Implicit Types (s : cst OS) (base : gset Z) (ctx : Ctx).
Abbreviation st_ok := (st_ok fds).

(** What the handling of an error keeps. *)
Definition fail_keeps cl base (fail : CM OS ()) : Prop :=
  ∀ s, st_ok cl base s → wp fail (λ _ s', st_ok cl base s' ∧ c_param (s_conn s') = c_param (s_conn s)) s.

(** The buffer after [used] bytes have been used. *)
Definition used_buf (used : Z) (c : neu_conn) : neu_conn :=
  with_buf c (mem_write 0 (mem_read (Z.to_nat used) (Z.to_nat (offset c - used)) (buf c)) (buf c)) (offset c - used).

Lemma waiting_used cl base s used :
  st_ok cl base s → 0 <= used <= offset (s_conn s) →
  waiting (used_buf used (s_conn s)) = drop (Z.to_nat used) (waiting (s_conn s)) ∧
  st_ok cl base (St (used_buf used (s_conn s)) (s_os s) (s_calls s)).
Proof.
  intros Hok Hu. destruct (ok_buf _ _ _ _ _ Hok) as [Hb1 Hb2]. pose proof (ok_offset _ _ _ _ _ Hok) as Hoff.
  rewrite Hb1 in Hb2.
  assert (length (mem_read (Z.to_nat used) (Z.to_nat (offset (s_conn s) - used)) (buf (s_conn s))) =
    Z.to_nat (offset (s_conn s) - used)) as Hlen by (apply length_mem_read; lia).
  split.
  - unfold waiting, used_buf. cbn [offset buf with_buf]. unfold mem_write. rewrite take_0, app_nil_l.
    rewrite take_app_length' by lia. unfold mem_read. rewrite take_drop_commute. do 2 f_equal. lia.
  - apply st_ok_buf; [done| |lia]. apply length_mem_write. lia.
Qed.

Lemma consume_loop_ok cl base fn fail n ctx s :
  (∀ ctx l, -1 <= (fn ctx l).1) → fail_keeps cl base fail → st_ok cl base s →
  offset (s_conn s) < Z.of_nat n →
  wp (consume_loop n fn ctx fail) (λ r s', st_ok cl base s' ∧ c_param (s_conn s') = c_param (s_conn s) ∧
    (consumer_ok fn → r = (None, (drain fn ctx (waiting (s_conn s))).1) ∧
      waiting (s_conn s') = (drain fn ctx (waiting (s_conn s))).2)) s.
Proof.
  intros Hfn Hfail. revert s ctx. induction n as [|n IH]; intros s ctx Hok Hn;
    pose proof (ok_offset _ _ _ _ _ Hok) as Hoff; [lia|]. cbn [consume_loop]. wp_steps.
  destruct (ok_buf _ _ _ _ _ Hok) as [Hb1 Hb2]. rewrite Hb1 in Hb2.
  assert (Z.of_nat (length (waiting (s_conn s))) = offset (s_conn s)) as Hw
    by (unfold waiting; rewrite length_take; lia).
  destruct (Z.gtb_spec (offset (s_conn s)) 0) as [Hpos|Hz].
  2:{ wp_steps. split_and!; [done|done|]. intros _. destruct (waiting (s_conn s)); [done|cbn in Hw; lia]. }
  fold (waiting (s_conn s)). destruct (fn ctx (waiting (s_conn s))) as [used ctx'] eqn:E.
  pose proof (Hfn ctx (waiting (s_conn s))) as Hu. rewrite E in Hu. cbn in Hu.
  destruct (Z.eqb_spec used 0) as [->|Hu0]; wp_steps.
  { split_and!; [done|done|]. intros Hc. pose proof (used_none fn Hc ctx (waiting (s_conn s))) as E2.
    rewrite drain_stop by (done || by rewrite E). rewrite E in E2. by rewrite <-(E2 eq_refl). }
  destruct (Z.eqb_spec used (-1)) as [->|Hu1]; wp_steps.
  { eapply wp_mono; [by apply Hfail|]. intros [] s' [Hok' Hp']. wp_steps. split_and!; [done|done|].
    intros Hc. pose proof (used_range fn Hc ctx (waiting (s_conn s))) as Hr. rewrite E in Hr. cbn in Hr. lia. }
  destruct (Z.ltb_spec (offset (s_conn s) - used) 0) as [Hlt|Hge]; wp_steps.
  { split_and!; [done|done|]. intros Hc. pose proof (used_range fn Hc ctx (waiting (s_conn s))) as Hr.
    rewrite E in Hr. cbn in Hr. lia. }
  cbv zeta. rewrite u16_id by lia. rewrite Hb1.
  destruct (Z.leb_spec 0 used); [|lia]. destruct (Z.leb_spec (used + (offset (s_conn s) - used)) 8192); [|lia]. cbn [andb].
  wp_steps. destruct (waiting_used cl base s used Hok ltac:(lia)) as [Hw' Hok'].
  eapply wp_mono; [apply IH; [exact Hok'|cbn; lia]|].
  intros r s' (Hok2 & Hp2 & Hd). split_and!; [done|done|]. intros Hc. destruct (Hd Hc) as [-> ->].
  unfold used_buf in Hw'. cbn [s_conn]. rewrite Hw'. by rewrite (drain_step fn Hc ctx (waiting (s_conn s)) used ctx') by (done || lia).
Qed.

(** Bytes received behind those that wait. *)
Lemma append_ok cl base s ret bytes (Q : () → cst OS → Prop) :
  st_ok cl base s → 0 < ret → ret <= 8192 - offset (s_conn s) → Z.of_nat (length bytes) = ret →
  (∀ s', st_ok cl base s' → c_param (s_conn s') = c_param (s_conn s) →
     waiting (s_conn s') = waiting (s_conn s) ++ bytes → offset (s_conn s') = offset (s_conn s) + ret → Q () s') →
  wp (buf_store (offset (s_conn s)) bytes;; advance ret) Q s.
Proof.
  intros Hok Hret Hle Hlen HQ. pose proof (ok_offset _ _ _ _ _ Hok) as Hoff.
  destruct (ok_buf _ _ _ _ _ Hok) as [Hb1 Hb2]. rewrite Hb1 in Hb2. unfold buf_store, advance. wp_steps. rewrite Hb1.
  destruct (Z.leb_spec (offset (s_conn s) + Z.of_nat (length bytes)) 8192); [|lia]. wp_steps.
  cbn [buf offset with_buf]. rewrite u16_id by lia. apply HQ; [|done| |done].
  - apply (st_ok_buf fds cl base s); [done| |lia]. apply length_mem_write. lia.
  - unfold waiting, mem_write. cbn [s_conn offset buf with_buf]. rewrite app_assoc.
    rewrite take_app_length' by (rewrite length_app, length_take; lia). done.
Qed.

Lemma stream_consume_ok cl base recv fail fn ctx s :
  (∀ ctx l, -1 <= (fn ctx l).1) → fail_keeps cl base fail → recv_keeps fds cl base recv s → st_ok cl base s →
  wp (stream_consume recv fail fn ctx) (λ r s', st_ok cl base s' ∧ c_param (s_conn s') = c_param (s_conn s) ∧
    (consumer_ok fn → ∀ ret bytes s1,
      recv (buf_size (s_conn s) - offset (s_conn s)) s = Some ((ret, bytes), s1) → 0 < ret →
      r = (ret, (drain fn ctx (waiting (s_conn s) ++ bytes)).1) ∧
      waiting (s_conn s') = (drain fn ctx (waiting (s_conn s) ++ bytes)).2)) s.
Proof.
  intros Hfn Hfail Hrecv Hok. unfold stream_consume. wp_steps.
  eapply wp_mono; [apply wp_eq, Hrecv|]. intros [ret bytes] s1 (Heq & Hok1 & Hp1 & Hr & Hsame). cbn [fst snd] in *.
  destruct (Z.gtb_spec ret 0) as [Hret|Hret].
  2:{ wp_steps. split_and!; [done|done|]. intros _ ? ? ?. rewrite Heq. intros [= -> -> ->]. lia. }
  destruct (ok_buf _ _ _ _ _ Hok) as [Hb1 _]. rewrite Hb1 in *. destruct (Hr Hret) as [Hle Hlen].
  destruct (Hsame Hret) as [Hbuf Hoff]. rewrite <-Hoff in *.
  assert (waiting (s_conn s1) = waiting (s_conn s)) as Hw by (unfold waiting; by rewrite Hbuf, Hoff).
  apply wp_bind_assoc, wp_bind. apply (append_ok cl base s1 ret bytes); [done..|].
  intros s2 Hok2 Hp2 Hw2 Hoff2. wp_steps. pose proof (ok_offset _ _ _ _ _ Hok2).
  eapply wp_mono; [apply (consume_loop_ok cl base); [done..|lia]|].
  intros r s3 (Hok3 & Hp3 & Hd). wp_steps. split_and!; [done|congruence|].
  intros Hc ret' bytes' s1'. rewrite Heq. intros [= <- <- <-] _. destruct (Hd Hc) as [-> ->]. cbn [fst snd default].
  by rewrite Hw2, Hw.
Qed.

(** What the server variant of the wait asserts: what the handler still needs fits
    into the rest of the buffer. *)
Definition need_fits (fn : Ctx → list Z → Z * Z * Ctx) : Prop :=
  ∀ ctx l, Z.of_nat (length l) <= 8192 → u16 (fn ctx l).1.2 <= 8192 - Z.of_nat (length l).

Lemma wait_loop_ok cl base recv n strict fn ctx ret bytes s :
  (strict = true → need_fits fn) →
  (∀ s', st_ok cl base s' → c_param (s_conn s') = c_param (s_conn s) → recv_keeps fds cl base recv s') →
  st_ok cl base s → received (8192 - offset (s_conn s)) ret bytes → 8192 - offset (s_conn s) < Z.of_nat n →
  wp (wait_loop n recv strict fn ctx ret bytes) (λ _ s', st_ok cl base s') s.
Proof.
  intros Hstrict. revert s ctx ret bytes. induction n as [|n IH]; intros s ctx ret bytes Hrecv Hok Hr Hn;
    pose proof (ok_offset _ _ _ _ _ Hok) as Hoff; [lia|]. cbn [wait_loop].
  destruct (Z.gtb_spec ret 0) as [Hret|Hret]; [|by wp_steps]. destruct (Hr Hret) as [Hle Hlen].
  do 2 wp_step. apply wp_bind_assoc, wp_bind. apply (append_ok cl base s ret bytes); [done..|].
  intros s2 Hok2 Hp2 _ Hoff2. wp_steps.
  destruct (ok_buf _ _ _ _ _ Hok2) as [Hb1 Hb2]. rewrite Hb1 in Hb2. pose proof (ok_offset _ _ _ _ _ Hok2) as Hoff3.
  assert (strict = true → u16 (fn ctx (waiting (s_conn s2))).1.2 <= 8192 - offset (s_conn s2)) as Hneed'.
  { intros E. assert (Z.of_nat (length (waiting (s_conn s2))) = offset (s_conn s2)) as Hw
      by (unfold waiting; rewrite length_take; lia).
    rewrite <-Hw. apply (Hstrict E). lia. }
  fold (waiting (s_conn s2)). destruct (fn ctx _) as [[used need] ctx']. cbn [fst snd] in Hneed'. cbv zeta.
  destruct (u16 need >? 0); [|by wp_steps]. rewrite Hb1.
  destruct (Z.leb_spec (u16 need) (8192 - offset (s_conn s2))) as [Hneed|Hneed].
  2:{ destruct strict; [specialize (Hneed' eq_refl); lia|by wp_steps]. }
  wp_steps.
  eapply wp_mono; [apply (Hrecv s2 Hok2 Hp2)|]. intros [ret' bytes'] s3 (Hok3 & Hp3 & Hr3 & Hsame). cbn [fst snd] in *.
  destruct (decide (0 < ret')) as [Hpos|Hneg].
  - destruct (Hsame Hpos) as [_ Hoff4]. destruct (Hr3 Hpos) as [Hle3 Hlen3]. apply IH; [|done| |].
    + intros s' Hok' Hp'. apply Hrecv; congruence.
    + intros _. lia.
    + lia.
  - destruct n as [|n]; [lia|]. cbn [wait_loop]. destruct (Z.gtb_spec ret' 0); [lia|]. by wp_steps.
Qed.

Lemma wait_msg_ok cl base fn ctx n_byte s :
  is_client (c_param (s_conn s)) = true → st_ok cl base s →
  wp (neu_conn_wait_msg os fn ctx n_byte) (λ _ s', st_ok cl base s') s.
Proof.
  intros Hc Hok. unfold neu_conn_wait_msg. wp_steps. destruct (ok_buf _ _ _ _ _ Hok) as [-> _].
  eapply wp_mono; [by apply (recv_ok os fds cl base)|]. intros [ret bytes] s1 (Hok1 & Hp1 & Hr & _). wp_steps.
  cbn [fst snd] in *. apply (wait_loop_ok cl base); [done| | | |].
  - intros s' Hok' Hp'. apply (recv_ok os fds cl base); [|done]. rewrite Hp'. cbn. by rewrite Hp1.
  - apply (st_ok_buf fds cl base s1); [done|done|lia].
  - cbn. intros Hret. destruct (Hr Hret) as [Hle ->]. destruct (Z.gtb_spec n_byte 8192); lia.
  - cbn. lia.
Qed.

Lemma server_wait_ok base f fn ctx n_byte s :
  is_tcp_server (c_param (s_conn s)) = true → n_byte <= 8192 → need_fits fn → st_ok false base s →
  wp (neu_conn_tcp_server_wait_msg os f fn ctx n_byte) (λ _ s', st_ok false base s') s.
Proof.
  intros Hsrv Hn Hfit Hok. unfold neu_conn_tcp_server_wait_msg. wp_steps. destruct (ok_buf _ _ _ _ _ Hok) as [-> _].
  eapply wp_mono; [by apply (server_recv_ok os fds base)|]. intros [ret bytes] s1 (Hok1 & Hp1 & Hr & _). wp_steps.
  cbn [fst snd] in *. apply (wait_loop_ok false base); [done| | | |].
  - intros s' Hok' _. by apply (server_recv_ok os fds base).
  - apply (st_ok_buf fds false base s1); [done|done|lia].
  - cbn. intros Hret. destruct (Hr Hret) as [Hle ->]. lia.
  - cbn. lia.
Qed.
End streams.

(** ** Life *)

Definition supported (p : conn_param) : bool := is_client p || is_tcp_server p.

Section life.
Context {OS : Type} (os : os_ops OS) (fds : OS → gset Z) `{!Posix os fds}.
Implicit Types (s : cst OS) (base : gset Z).
Abbreviation st_ok := (st_ok fds).

Lemma listen_keeps cl base s :
  st_ok cl base s → wp (conn_tcp_server_listen os) (λ _ s', st_ok cl base s') s.
Proof. intros Hok. eapply wp_mono; [by apply (listen_ok os fds cl base)|]. by intros [] s' [? _]. Qed.

(** A connection without descriptors that gets parameters. *)
Lemma init_param_ok cl base c o calls p :
  supported p = true → (cl = true → is_client p = true ∧ sessions None calls = Some None ∧ callback_trigger c = false) →
  own base (fds o) [] → is_connected c = false → is_listen c = false → fd c = 0 → n_client c = 0 →
  buf_size c = 8192 ∧ length (buf c) = Z.to_nat (buf_size c) →
  0 <= offset c <= 8192 →
  wp (conn_init_param p) (λ _ s', st_ok cl base s') (St c o calls).
Proof.
  intros Hs Hcl Ho Hcon Hl Hf Hn Hb Hoff. unfold conn_init_param. wp_steps. split; cbn [s_conn s_os s_calls].
  - unfold held, open_clients. cbn. rewrite Hcon, Hl. destruct p; [|done..]. by rewrite filter_zeros.
  - unfold shape, open_clients. cbn. destruct p as [ip port t ml| | | |]; try done.
    rewrite filter_zeros, length_replicate. split_and!; [done|by apply Forall_replicate|done|done].
  - done.
  - done.
  - intros E. destruct (Hcl E) as (Hp & Hses & Ht). split; [done|]. unfold in_session. cbn. by rewrite Ht.
Qed.

Lemma new_ok o p :
  supported p = true → 0 ∈ fds o → (∀ x, x ∈ fds o → 0 <= x) →
  ∃ s, neu_conn_new os p o = Some ((), s) ∧ st_ok (is_client p) (fds o) s.
Proof.
  intros Hs H0 Hpos.
  assert (wp (new_body os p) (λ _ s', st_ok (is_client p) (fds o) s') (St (conn_zero p) o [])) as Hwp.
  2:{ unfold wp in Hwp. unfold neu_conn_new. destruct (new_body os p _) as [[[] s]|]; [by exists s|done]. }
  unfold new_body, conn_init_param. wp_steps. apply listen_keeps.
  assert (own (fds o) (fds o) []) as Ho by (split; [done|done|constructor|set_solver|set_solver]).
  split; cbn [s_conn s_os s_calls].
  - unfold held, open_clients. cbn. destruct p; [|done..]. by rewrite filter_zeros.
  - unfold shape, open_clients. cbn. destruct p as [ip port t ml| | | |]; try done.
    rewrite filter_zeros, length_replicate. split_and!; [done|by apply Forall_replicate|done|done].
  - cbn [buf buf_size]. by rewrite length_replicate.
  - cbn [offset]. lia.
  - by split.
Qed.

(** Stopping and disconnecting leave no descriptor. *)
Definition detached cl base s : Prop :=
  st_ok cl base s ∧ own base (fds (s_os s)) [] ∧ is_connected (s_conn s) = false ∧ is_listen (s_conn s) = false ∧
  fd (s_conn s) = 0 ∧ (cl = true → callback_trigger (s_conn s) = false ∧ sessions None (s_calls s) = Some None).

Lemma detach_ok cl base s (k : CM OS ()) Q :
  st_ok cl base s → (∀ s', detached cl base s' → wp k Q s') →
  wp (conn_tcp_server_stop os;; conn_disconnect os;; k) Q s.
Proof.
  intros Hok Hk. wp_step. eapply wp_mono; [by apply (server_stop_ok os fds cl base)|].
  intros [] s1 (Hok1 & Hp1 & Hl1). wp_steps. eapply wp_mono; [by apply (disconnect_ok os fds cl base)|].
  intros [] s2 [Hok2 (Hp2 & Hl2 & Hc2 & _ & _ & Hh)]. rewrite Hl1 in Hh, Hl2. apply Hk.
  destruct Hok2 as [Ho Hsh Hb Hoff Hcl] eqn:E. clear E. split_and!; [done|by rewrite <-Hh|done|done| |].
  - unfold shape in Hsh. destruct (c_param (s_conn s2)); tauto.
  - intros E. destruct (Hcl E) as (_ & Hses & Ht). unfold in_session in Hses.
    destruct (callback_trigger (s_conn s2)); [by rewrite Ht in Hc2|done].
Qed.

Lemma reconfig_ok cl base s p :
  supported p = true → (cl = true → is_client p = true) → st_ok cl base s →
  wp (neu_conn_reconfig os p) (λ _ s', st_ok cl base s') s.
Proof.
  intros Hs Hcl Hok. unfold neu_conn_reconfig. apply (detach_ok cl base); [done|].
  intros s1 (Hok1 & Ho1 & Hc1 & Hl1 & Hf1 & Hcl1). wp_steps.
  apply wp_mono with (λ _ s2, s_os s2 = s_os s1 ∧ s_calls s2 = s_calls s1 ∧
    (∃ l, s_conn s2 = with_clients (s_conn s1) l 0)).
  { unfold conn_free_param. wp_steps. destruct Hok1 as [_ Hsh _ _ _]. unfold shape in Hsh.
    destruct (c_param (s_conn s1)); wp_steps; try done; (split_and!; [done|done|]); [by eexists|..];
      exists (clients (s_conn s1)); destruct Hsh as (_ & <- & _); by destruct (s_conn s1). }
  intros [] [c2 o2 calls2]. cbn [s_os s_calls s_conn]. intros (-> & -> & l & ->). wp_steps.
  destruct (ok_buf _ _ _ _ _ Hok1) as [Hb1 Hb2].
  eapply wp_mono.
  { apply (init_param_ok cl base); try done; [|by apply (ok_offset _ _ _ _ _ Hok1)].
    intros E. split_and!; [by apply Hcl|by apply Hcl1|by apply Hcl1]. }
  intros [] s3 Hok3. wp_steps. eapply wp_mono; [by apply (listen_keeps cl base)|].
  intros [] s4 Hok4. wp_steps. by apply st_ok_bytes.
Qed.

Lemma conn_stop_ok cl base s : st_ok cl base s → wp (neu_conn_stop os) (λ _ s', st_ok cl base s') s.
Proof.
  intros Hok. unfold neu_conn_stop. wp_steps. apply wp_mono with (λ _ s1, st_ok cl base s1).
  { apply wp_when; intros _; [|done]. eapply wp_mono; [by apply (server_stop_ok os fds cl base)|]. by intros [] s1 [? _]. }
  intros [] s1 Hok1. wp_steps. eapply wp_mono; [apply (disconnect_ok os fds cl base); by apply st_ok_stop|].
  by intros [] s2 [? _].
Qed.

Lemma destory_ok cl base s :
  st_ok cl base s →
  ∃ s', neu_conn_destory os s = Some ((), s') ∧ fds (s_os s') = base ∧
    (cl = true → sessions None (s_calls s') = Some None).
Proof.
  intros Hok.
  assert (wp (neu_conn_destory os) (λ _ s', fds (s_os s') = base ∧
    (cl = true → sessions None (s_calls s') = Some None)) s) as Hwp.
  { unfold neu_conn_destory. apply (detach_ok cl base); [done|]. intros s1 (_ & Ho1 & _ & _ & _ & Hcl1).
    unfold conn_free_param. wp_steps. apply own_none in Ho1.
    destruct (c_param (s_conn s1)); wp_steps; (split; [done|]; intros E; by apply Hcl1). }
  unfold wp in Hwp. destruct (neu_conn_destory os s) as [[[] s']|]; [by exists s'|done].
Qed.

(** ** Histories *)

Inductive conn_op :=
  | OpSend (bytes : list Z)
  | OpRecv (len : Z)
  | OpClear (n : nat)
  | OpConnect
  | OpDriverConnect
  | OpDisconnect
  | OpStop
  | OpStart
  | OpReconfig (p : conn_param)
  | OpConsume (fn : list Z → Z)
  | OpWait (fn : list Z → Z * Z) (n_byte : Z)
  | OpAccept
  | OpCloseClient (f : Z)
  | OpServerSend (f : Z) (bytes : list Z)
  | OpServerRecv (f len : Z)
  | OpServerConsume (f : Z) (fn : list Z → Z)
  | OpServerWait (f : Z) (fn : list Z → Z * Z) (n_byte : Z).

(** [driver_connect] of modbus_tcp.c connects only when there is no connection. *)
Definition driver_connect : CM OS () :=
  c ← get; if is_connected c then mret () else neu_conn_connect os.

Definition run_op (op : conn_op) : CM OS () :=
  match op with
  | OpSend bytes => neu_conn_send os bytes;; mret ()
  | OpRecv len => neu_conn_recv os len;; mret ()
  | OpClear n => neu_conn_clear_recv_buffer os n
  | OpConnect => neu_conn_connect os
  | OpDriverConnect => driver_connect
  | OpDisconnect => neu_conn_disconnect os
  | OpStop => neu_conn_stop os
  | OpStart => neu_conn_start
  | OpReconfig p => neu_conn_reconfig os p
  | OpConsume fn => neu_conn_stream_consume os (λ _ l, (fn l, ())) ();; mret ()
  | OpWait fn n_byte => neu_conn_wait_msg os (λ _ l, (fn l, ())) () n_byte;; mret ()
  | OpAccept => neu_conn_tcp_server_accept os;; mret ()
  | OpCloseClient f => neu_conn_tcp_server_close_client os f;; mret ()
  | OpServerSend f bytes => neu_conn_tcp_server_send os f bytes;; mret ()
  | OpServerRecv f len => neu_conn_tcp_server_recv os f len;; mret ()
  | OpServerConsume f fn => neu_conn_stream_tcp_server_consume os f (λ _ l, (fn l, ())) ();; mret ()
  | OpServerWait f fn n_byte => neu_conn_tcp_server_wait_msg os f (λ _ l, (fn l, ())) () n_byte;; mret ()
  end.

(** What the callers keep to: operations of the type of the connection;
    [neu_conn_connect] only when there is no connection; a consumer returns a number
    of bytes or -1; the server variant of the wait asks for no more than the buffer
    holds; with [cl], the connection stays a client. *)
Definition permitted (cl : bool) s (op : conn_op) : Prop :=
  let client := is_client (c_param (s_conn s)) = true in
  let server := is_tcp_server (c_param (s_conn s)) = true in
  match op with
  | OpSend _ | OpRecv _ | OpWait _ _ => client
  | OpConsume fn => client ∧ ∀ l, -1 <= fn l
  | OpConnect => is_connected (s_conn s) = false
  | OpClear _ | OpDriverConnect | OpDisconnect | OpStop | OpStart => True
  | OpReconfig p => supported p = true ∧ (cl = true → is_client p = true)
  | OpAccept | OpCloseClient _ | OpServerSend _ _ | OpServerRecv _ _ => server
  | OpServerConsume _ fn => server ∧ ∀ l, -1 <= fn l
  | OpServerWait _ fn n_byte => server ∧ n_byte <= 8192 ∧ need_fits (λ (_ : ()) l, (fn l, ()))
  end.

(** The fuel of the one loop that the operating system alone ends: the calls of
    [recv] that clear the line, no more than there are bytes. *)
Definition enough (queued : Z → OS → nat) s (op : conn_op) : Prop :=
  match op with OpClear n => (queued (fd (s_conn s)) (s_os s) < n)%nat | _ => True end.

Lemma wp_drop {A} (m : CM OS A) (P : cst OS → Prop) s : wp m (λ _ s', P s') s → wp (m;; mret ()) (λ _ s', P s') s.
Proof. intros Hm. wp_step. eapply wp_mono; [done|]. intros a s' Hs'. by wp_step. Qed.

Lemma driver_connect_ok cl base s : st_ok cl base s → wp driver_connect (λ _ s', st_ok cl base s') s.
Proof.
  intros Hok. unfold driver_connect. wp_steps. destruct (is_connected (s_conn s)) eqn:Hc; [by wp_steps|].
  eapply wp_mono; [apply (connect_ok os fds cl base); [done|by intros ?]|]. by intros [] s' [? _].
Qed.

Lemma op_ok cl base s op :
  st_ok cl base s → permitted cl s op →
  (∀ n, op = OpClear n → is_Some (neu_conn_clear_recv_buffer os n s)) →
  wp (run_op op) (λ _ s', st_ok cl base s') s.
Proof.
  intros Hok. pose proof (server_not_client _ _ _ _ _ Hok) as Hsrv. destruct op; cbn [run_op permitted]; intros Hp Hcl.
  - apply wp_drop. by apply (send_ok os fds cl base).
  - apply wp_drop. eapply wp_mono; [by apply (recv_ok os fds cl base)|]. by intros r s' [? _].
  - destruct (Hcl n eq_refl) as [[[] s'] E]. unfold wp. rewrite E. by eapply (clear_ok os fds).
  - eapply wp_mono; [apply (connect_ok os fds cl base); [done|by intros ?]|]. by intros [] s' [? _].
  - by apply driver_connect_ok.
  - eapply wp_mono; [by apply (disconnect_ok os fds cl base)|]. by intros [] s' [? _].
  - by apply conn_stop_ok.
  - unfold neu_conn_start. wp_steps. apply (st_ok_stop fds cl base (St (with_bytes (s_conn s) 0 0) (s_os s) (s_calls s))).
    by apply st_ok_bytes.
  - destruct Hp. by apply reconfig_ok.
  - destruct Hp as [Hp Hfn]. apply wp_drop. eapply wp_mono; [apply (stream_consume_ok fds cl base); [done| | |done]|].
    + intros s' Hok'. eapply wp_mono; [by apply (disconnect_ok os fds cl base)|]. intros [] s2 [? (? & _)]. done.
    + by apply recv_ok.
    + by intros r s' [? _].
  - apply wp_drop. by apply (wait_msg_ok os fds cl base).
  - specialize (Hsrv Hp) as ->. apply wp_drop. by apply (accept_ok os fds base).
  - apply wp_drop. eapply wp_mono; [by apply (close_client_ok os fds cl base)|]. by intros r s' [? _].
  - specialize (Hsrv Hp) as ->. apply wp_drop. by apply (server_send_ok os fds base).
  - specialize (Hsrv Hp) as ->. apply wp_drop. eapply wp_mono; [by apply (server_recv_ok os fds base)|]. by intros r s' [? _].
  - destruct Hp as [Hp Hfn]. specialize (Hsrv Hp) as ->. apply wp_drop.
    eapply wp_mono; [apply (stream_consume_ok fds false base); [done| | |done]|].
    + intros s' Hok'. apply wp_bind. eapply wp_mono; [by apply (close_client_ok os fds false base)|]. intros r s2 ?. by wp_steps.
    + by apply server_recv_ok.
    + by intros r s' [? _].
  - destruct Hp as (Hp & Hn & Hfit). specialize (Hsrv Hp) as ->. apply wp_drop. by apply server_wait_ok.
Qed.

(** Clearing the line ends when the bytes that have come in do. *)
Lemma clear_returns queued n s :
  FiniteQueue os queued → (queued (fd (s_conn s)) (s_os s) < n)%nat →
  is_Some (neu_conn_clear_recv_buffer os n s).
Proof using.
  intros Hq Hn. unfold neu_conn_clear_recv_buffer, mbind, CM_bind, get. destruct (negb _); [by eexists|].
  destruct (c_param _); try by eexists. revert Hn. generalize (fd (s_conn s)). intros f Hn. revert s Hn.
  induction n as [|n IH]; intros s Hn; [lia|]. cbn [clear_loop]. unfold mbind, CM_bind, sys.
  destruct (os_recv os f 256 MSG_DONTWAIT (s_os s)) as [[[ret bytes] e] o] eqn:E.
  destruct (Z.gtb_spec ret 0); [|by eexists]. apply IH. pose proof (queue_recv f _ _ _ _ _ E). cbn. lia.
Qed.

(** The states of a connection made by a process with the descriptors of [o]. *)
Inductive conn_reachable (cl : bool) (o : OS) : cst OS → Prop :=
  | reach_new p s : supported p = true → (cl = true → is_client p = true) →
      neu_conn_new os p o = Some ((), s) → conn_reachable cl o s
  | reach_op s op s' : conn_reachable cl o s → permitted cl s op → run_op op s = Some ((), s') →
      conn_reachable cl o s'.

Lemma st_ok_forget base s cl : st_ok cl base s → st_ok false base s.
Proof. intros [Ho Hsh Hb Hoff Hcl]. by split. Qed.

Lemma reachable_st_ok cl o s :
  0 ∈ fds o → (∀ x, x ∈ fds o → 0 <= x) → conn_reachable cl o s → st_ok cl (fds o) s.
Proof.
  intros H0 Hpos. induction 1 as [p s Hs Hcl Hnew|s op s' _ IH Hp Hrun].
  - destruct (new_ok o p Hs H0 Hpos) as (s' & Hnew' & Hok). rewrite Hnew in Hnew'. injection Hnew' as <-.
    destruct cl; [by rewrite Hcl in Hok|by eapply st_ok_forget].
  - refine (wp_result _ _ _ _ _ (op_ok cl _ s op IH Hp _) Hrun). intros n ->. by eexists.
Qed.

(** C10: In every history of a connection that is a TCP server, a TCP client or a
    serial line, with any changes between them, made of operations that keep to
    [permitted] ([neu_conn_connect] only without a connection, which its callers test
    and [connect_twice_leaks] breaks; the server variant of the wait for no more than
    the buffer, which [server_wait_overflows] breaks; operations of the type of the
    connection; consumers that return a number of bytes or -1): each next such
    operation returns, clearing the line if no more bytes have come in than
    the calls it may take; the process has the descriptors that it had before and those
    that the connection holds, each once and none of them among the former; and when
    the connection is destroyed, the process has exactly the descriptors it had. *)
Theorem descriptors_kept `{Hq : !FiniteQueue os queued} cl o s :
  0 ∈ fds o → (∀ x, x ∈ fds o → 0 <= x) → conn_reachable cl o s →
  (∀ op, permitted cl s op → enough queued s op → is_Some (run_op op s)) ∧
  fds (s_os s) = fds o ∪ list_to_set (held (s_conn s)) ∧ NoDup (held (s_conn s)) ∧
  (∀ x, x ∈ held (s_conn s) → x ∉ fds o) ∧
  ∃ s', neu_conn_destory os s = Some ((), s') ∧ fds (s_os s') = fds o.
Proof.
  intros H0 Hpos Hr. pose proof (reachable_st_ok _ _ _ H0 Hpos Hr) as Hok.
  pose proof (ok_own _ _ _ _ _ Hok) as Ho. destruct (destory_ok _ _ _ Hok) as (s' & Hd & Hf & _).
  split_and!; [|apply Ho|apply Ho| |by exists s'].
  - intros op Hp He. eapply wp_returns, op_ok; [done|done|]. intros n ->. by eapply clear_returns.
  - intros x Hx. by apply (own_apart _ _ _ Ho).
Qed.


(** C20: In every history of [permitted] operations, the counter of clients of a TCP
    server is the number of occupied slots, which hold different open descriptors
    and are no more than the maximum of links; a client that is accepted always finds
    a slot. *)
Theorem server_counts_clients cl o s ip port timeout max_link :
  0 ∈ fds o → (∀ x, x ∈ fds o → 0 <= x) → conn_reachable cl o s →
  c_param (s_conn s) = TcpServer ip port timeout max_link →
  n_client (s_conn s) = Z.of_nat (length (open_clients (s_conn s))) ∧
  n_client (s_conn s) <= Z.max 0 max_link ∧ NoDup (open_clients (s_conn s)) ∧
  (∀ x, x ∈ open_clients (s_conn s) → x ∈ fds (s_os s)) ∧ is_Some (neu_conn_tcp_server_accept os s).
Proof.
  intros H0 Hpos Hr Hp. pose proof (st_ok_forget _ _ _ (reachable_st_ok _ _ _ H0 Hpos Hr)) as Hok.
  destruct (server_slots fds _ _ _ _ _ _ Hp Hok) as (Hlen & Hpc & Hn & Ho).
  split_and!; [done| | | |by eapply wp_returns, (accept_ok os fds)].
  - rewrite Hn. unfold open_clients. pose proof (length_filter (λ x, 0 < x) (clients (s_conn s))). lia.
  - by apply (own_nodup _ _ _), NoDup_app in Ho as (_ & _ & ?).
  - intros x Hx. rewrite (own_all _ _ _ Ho). set_solver.
Qed.

(** *** Streams over several calls *)

(** Calls of [neu_conn_stream_consume] that have received the given bytes. *)
Inductive feeds {Ctx} (fn : Ctx → list Z → Z * Ctx) : Ctx → cst OS → list Z → Ctx → cst OS → Prop :=
  | feeds_done ctx s : feeds fn ctx s [] ctx s
  | feeds_more ctx s ret bytes s0 r ctx1 s1 more ctx' s' :
      neu_conn_recv os (buf_size (s_conn s) - offset (s_conn s)) s = Some ((ret, bytes), s0) → 0 < ret →
      neu_conn_stream_consume os fn ctx s = Some ((r, ctx1), s1) →
      feeds fn ctx1 s1 more ctx' s' → feeds fn ctx s (bytes ++ more) ctx' s'.

Lemma consumer_bound {Ctx} (fn : Ctx → list Z → Z * Ctx) : consumer_ok fn → ∀ ctx l, -1 <= (fn ctx l).1.
Proof. intros Hfn ctx l. pose proof (used_range fn Hfn ctx l). lia. Qed.

Lemma client_consume_ok {Ctx} cl base (fn : Ctx → list Z → Z * Ctx) ctx s :
  is_client (c_param (s_conn s)) = true → consumer_ok fn → st_ok cl base s →
  wp (neu_conn_stream_consume os fn ctx) (λ r s', st_ok cl base s' ∧ c_param (s_conn s') = c_param (s_conn s) ∧
    ∀ ret bytes s1, neu_conn_recv os (buf_size (s_conn s) - offset (s_conn s)) s = Some ((ret, bytes), s1) → 0 < ret →
      r = (ret, (drain fn ctx (waiting (s_conn s) ++ bytes)).1) ∧
      waiting (s_conn s') = (drain fn ctx (waiting (s_conn s) ++ bytes)).2) s.
Proof.
  intros Hc Hfn Hok. eapply wp_mono; [apply (stream_consume_ok fds cl base); [by apply consumer_bound| | |done]|].
  - intros s' Hok'. eapply wp_mono; [by apply (disconnect_ok os fds cl base)|]. intros [] s2 [? (? & _)]. done.
  - by apply recv_ok.
  - intros r s' (Hok' & Hp' & Hd). split_and!; [done|done|by apply Hd].
Qed.

(** C12: The consumer of a stream sees the bytes in order and once, whatever the
    portions in which they arrive. For a consumer that never refuses (never -1),
    uses no more than there is, decides independently of the bytes behind those it
    uses and leaves its state when it uses none ([consumer_ok]), and that wanted
    more before, as it does when nothing waits: after calls of
    [neu_conn_stream_consume] on a client that have received some bytes, the state
    of the consumer and the bytes that wait are those of the consumer run on all
    bytes at once, those that waited before and those received; no more than the
    buffer holds wait; and the next call returns. *)
Theorem stream_in_order {Ctx} cl o (fn : Ctx → list Z → Z * Ctx) ctx s bytes ctx' s' :
  0 ∈ fds o → (∀ x, x ∈ fds o → 0 <= x) → conn_reachable cl o s → is_client (c_param (s_conn s)) = true →
  consumer_ok fn → drain fn ctx (waiting (s_conn s)) = (ctx, waiting (s_conn s)) → feeds fn ctx s bytes ctx' s' →
  (ctx', waiting (s_conn s')) = drain fn ctx (waiting (s_conn s) ++ bytes) ∧
  Z.of_nat (length (waiting (s_conn s'))) <= 8192 ∧ is_Some (neu_conn_stream_consume os fn ctx' s').
Proof.
  intros H0 Hpos Hr Hc Hfn Hdr Hf. pose proof (reachable_st_ok _ _ _ H0 Hpos Hr) as Hok. clear Hr.
  induction Hf as [ctx s|ctx s ret bytes s0 r ctx1 s1 more ctx' s' Hrecv Hret Hcons _ IH] in Hok, Hc, Hdr |- *.
  - rewrite app_nil_r. split_and!; [done| |by eapply wp_returns, client_consume_ok].
    unfold waiting. rewrite length_take. pose proof (ok_offset _ _ _ _ _ Hok). lia.
  - destruct (wp_result _ _ _ _ _ (client_consume_ok cl _ fn ctx s Hc Hfn Hok) Hcons) as (Hok1 & Hp1 & Hd).
    destruct (Hd _ _ _ Hrecv Hret) as [Hr Hw]. injection Hr as -> ->. rewrite <-Hp1 in Hc.
    destruct IH as (Heq & ? & ?); [done|rewrite Hw; by apply drain_again|done|]. split_and!; [|done|done].
    rewrite Heq, Hw, app_assoc. by rewrite <-(drain_app fn Hfn).
Qed.
End life.

(** ** Concrete runs *)

Definition after (r : option (() * cst (net (list Z)))) : cst (net (list Z)) :=
  match r with Some (_, s) => s | None => St (conn_zero (TcpClient "" 0 0)) echo_start [] end.

(** A client that has sent five bytes, which come back. *)
Definition demo_client : cst (net (list Z)) := after (neu_conn_new echo_ops (TcpClient "10.0.0.1" 502 3000) echo_start).
Definition demo_sent : cst (net (list Z)) := after (run_op echo_ops (OpSend [1; 2; 3; 4; 5]) demo_client).

Lemma demo_sent_reachable : conn_reachable echo_ops true echo_start demo_sent.
Proof.
  apply reach_op with demo_client (OpSend [1; 2; 3; 4; 5]).
  - apply reach_new with (TcpClient "10.0.0.1" 502 3000); [done|done|]. vm_compute. reflexivity.
  - vm_compute. reflexivity.
  - vm_compute. reflexivity.
Qed.

Lemma descriptors_kept_witness :
  (∀ op, permitted true demo_sent op → enough echo_queued demo_sent op → is_Some (run_op echo_ops op demo_sent)) ∧
  net_fds (s_os demo_sent) = net_fds echo_start ∪ list_to_set (held (s_conn demo_sent)) ∧
  NoDup (held (s_conn demo_sent)) ∧ (∀ x, x ∈ held (s_conn demo_sent) → x ∉ net_fds echo_start) ∧
  ∃ s', neu_conn_destory echo_ops demo_sent = Some ((), s') ∧ net_fds (s_os s') = net_fds echo_start.
Proof.
  apply (descriptors_kept echo_ops net_fds true echo_start demo_sent);
    [apply echo_start_fds|apply echo_start_fds|exact demo_sent_reachable].
Defined.


Example demo_session : in_session (s_conn demo_sent) = Some 3 ∧ s_calls demo_sent = [Connected 3].
Proof. split; vm_compute; reflexivity. Qed.

(** A server with one client. *)
Definition demo_listening : cst (net (list Z)) := after (neu_conn_new echo_ops (TcpServer "0.0.0.0" 502 0 2) echo_start).
Definition demo_serving : cst (net (list Z)) := after (run_op echo_ops OpAccept demo_listening).

Lemma server_counts_clients_witness :
  n_client (s_conn demo_serving) = Z.of_nat (length (open_clients (s_conn demo_serving))) ∧
  n_client (s_conn demo_serving) <= Z.max 0 2 ∧ NoDup (open_clients (s_conn demo_serving)) ∧
  (∀ x, x ∈ open_clients (s_conn demo_serving) → x ∈ net_fds (s_os demo_serving)) ∧
  is_Some (neu_conn_tcp_server_accept echo_ops demo_serving).
Proof.
  apply (server_counts_clients echo_ops net_fds false echo_start demo_serving "0.0.0.0" 502 0 2);
    [apply echo_start_fds|apply echo_start_fds| |vm_compute; reflexivity].
  apply reach_op with demo_listening OpAccept; [|vm_compute; reflexivity..].
  apply reach_new with (TcpServer "0.0.0.0" 502 0 2); [done|done|]. vm_compute. reflexivity.
Defined.

(** A consumer of frames of two bytes, which it collects. *)
Definition demo_fn (ctx : list (list Z)) (l : list Z) : Z * list (list Z) :=
  match l with a :: b :: _ => (2, ctx ++ [[a; b]]) | _ => (0, ctx) end.

Lemma demo_fn_ok : consumer_ok demo_fn.
Proof. split; intros ctx [|a [|b l]]; cbn; try done; try lia. Qed.

Definition demo_consumed := neu_conn_stream_consume echo_ops demo_fn [] demo_sent.

Lemma stream_in_order_witness :
  ∃ ctx' s', demo_consumed = Some ((5, ctx'), s') ∧ ctx' = [[1; 2]; [3; 4]] ∧ waiting (s_conn s') = [5] ∧
  (ctx', waiting (s_conn s')) = drain demo_fn [] (waiting (s_conn demo_sent) ++ [1; 2; 3; 4; 5] ++ []) ∧
  Z.of_nat (length (waiting (s_conn s'))) <= 8192 ∧ is_Some (neu_conn_stream_consume echo_ops demo_fn ctx' s').
Proof.
  set (s1 := match demo_consumed with Some (_, s) => s | None => demo_sent end).
  exists [[1; 2]; [3; 4]], s1. split; [vm_compute; reflexivity|]. split; [done|]. split; [vm_compute; reflexivity|].
  apply (stream_in_order echo_ops net_fds true echo_start demo_fn [] demo_sent ([1; 2; 3; 4; 5] ++ []) [[1; 2]; [3; 4]] s1);
    [apply echo_start_fds|apply echo_start_fds|exact demo_sent_reachable|vm_compute; reflexivity|exact demo_fn_ok|
     vm_compute; reflexivity|].
  eapply feeds_more; [vm_compute; reflexivity|lia|vm_compute; reflexivity|apply feeds_done].
Defined.

(** ** What goes wrong outside of the histories above *)

(** A connection with [UdpTo] opens two sockets and keeps one. *)
Example udp_to_leaks :
  ∃ s s' s'', neu_conn_new echo_ops (UdpTo "10.0.0.1" 0 0) echo_start = Some ((), s) ∧
    neu_conn_connect echo_ops s = Some ((), s') ∧ neu_conn_destory echo_ops s' = Some ((), s'') ∧
    net_fds (s_os s'') = net_fds echo_start ∪ {[3]}.
Proof. do 3 eexists. split; [vm_compute; reflexivity|]. split; [vm_compute; reflexivity|]. split; vm_compute; reflexivity. Qed.

(** [neu_conn_connect] does not look whether there is a connection. *)
Example connect_twice_leaks :
  ∃ s' s'', neu_conn_connect echo_ops demo_sent = Some ((), s') ∧ neu_conn_destory echo_ops s' = Some ((), s'') ∧
    net_fds (s_os s'') = net_fds echo_start ∪ {[3]}.
Proof. do 2 eexists. split; [vm_compute; reflexivity|]. split; vm_compute; reflexivity. Qed.

(** The server variant of [neu_conn_wait_msg] receives as much as it is asked for,
    whatever the size of the buffer. *)
Definition demo_flood : cst (net (list Z)) :=
  St (s_conn demo_serving) {| net_fds := net_fds (s_os demo_serving); net_link := replicate (Z.to_nat 9000) 7 |} [].
Example server_wait_overflows :
  neu_conn_tcp_server_wait_msg echo_ops 4 (λ (ctx : ()) l, (0, 0, ctx)) () 9000 demo_flood = None.
Proof. vm_compute. reflexivity. Qed.

(** Mark and space parity leave a flag that the other parities do not clear: a line
    that was set to mark parity and is set to odd parity still has mark parity. *)
Lemma stick_parity_kept tty t :
  Z.testbit (c_cflag (tty_options tty t)) 30 =
  match tty_parity tty with
  | NEU_CONN_TTY_PARITY_MARK | NEU_CONN_TTY_PARITY_SPACE => true
  | _ => Z.testbit (c_cflag t) 30
  end.
Proof.
  unfold tty_options, set_parity, set_flow, set_stop, data_bits.
  destruct (tty_parity tty), (tty_flow tty), (tty_stop tty), (tty_data tty); cbn [c_cflag];
    rewrite ?Z.lor_spec, ?Z.ldiff_spec, ?Z.lor_spec, ?Z.ldiff_spec, ?Z.lor_spec, ?Z.ldiff_spec, ?Z.lor_spec, ?Z.ldiff_spec;
    destruct (Z.testbit (c_cflag t) 30); vm_compute; reflexivity.
Qed.

(** The parity bits that are set otherwise. *)
Lemma parity_bits tty t :
  Z.testbit (c_cflag (tty_options tty t)) 8 = negb (match tty_parity tty with NEU_CONN_TTY_PARITY_NONE => true | _ => false end) ∧
  (tty_parity tty ≠ NEU_CONN_TTY_PARITY_NONE →
   Z.testbit (c_cflag (tty_options tty t)) 9 =
     match tty_parity tty with NEU_CONN_TTY_PARITY_ODD | NEU_CONN_TTY_PARITY_MARK => true | _ => false end).
Proof.
  unfold tty_options, set_parity, set_flow, set_stop, data_bits.
  destruct (tty_parity tty), (tty_flow tty), (tty_stop tty), (tty_data tty); cbn [c_cflag]; (split; [|intros ?; try done]);
    rewrite ?Z.lor_spec, ?Z.ldiff_spec, ?Z.lor_spec, ?Z.ldiff_spec, ?Z.lor_spec, ?Z.ldiff_spec, ?Z.lor_spec, ?Z.ldiff_spec;
    destruct (Z.testbit (c_cflag t) 8), (Z.testbit (c_cflag t) 9); vm_compute; reflexivity.
Qed.
