(* ===== verification/ConnectionDriver.v ===== *)
(** * The driver over its connection

    The operations of connection.c as the connection of the request engine.  On any
    operating system and network that reach the embedded simulator as the class
    [SimPeer] states, a Modbus TCP driver that polls over connection.c publishes the
    registers of the simulator, whether its connection is up or has still to be made.
    The network of ConnectionNet.v is an instance. *)

From S2P Require Import Prelude NeuTypes Tag ProtocolBuf Modbus ModbusPoint ModbusPlan.
From S2P Require Import ModbusStack ModbusValue ModbusReq Simulator SimulatorOk SimulatorServe SimulatorDriver.
From S2P Require Import Connection ConnectionOk ConnectionNet.

(** ** The interface of the request engine *)

Section ops.
Context {OS : Type} (os : os_ops OS) (calls : OS → nat).

(** A process that has been aborted does nothing any more. *)
Definition live {A} (dead : A) (m : CM OS A) (c : option (cst OS)) : A * option (cst OS) :=
  match c with
  | Some s => match m s with Some (a, s') => (a, Some s') | None => (dead, None) end
  | None => (dead, None)
  end.

(** [calls] bounds the calls of [recv] that clear the line. *)
Definition connection_ops : conn_ops (option (cst OS)) conn_param := {|
  ModbusReq.neu_conn_send := λ c bytes, live (-1) (neu_conn_send os bytes) c;
  ModbusReq.neu_conn_recv := λ c n, live (-1, []) (neu_conn_recv os n) c;
  ModbusReq.neu_conn_tcp_server_send := λ c f bytes, live (-1) (neu_conn_tcp_server_send os f bytes) c;
  ModbusReq.neu_conn_tcp_server_recv := λ c f n, live (-1, []) (neu_conn_tcp_server_recv os f n) c;
  ModbusReq.neu_conn_is_connected := λ c, match c with Some s => is_connected (s_conn s) | None => false end;
  ModbusReq.neu_conn_disconnect := λ c, (live () (neu_conn_disconnect os) c).2;
  ModbusReq.neu_conn_clear_recv_buffer := λ c,
    (live () (λ s, neu_conn_clear_recv_buffer os (calls (s_os s)) s) c).2;
  ModbusReq.neu_conn_reconfig := λ c p, (live () (neu_conn_reconfig os p) c).2;
|}.
End ops.

(** The same driver with the line to the simulator for its connection. *)
Definition over_link {Conn Param} (plugin : neu_plugin Conn Param) (l : sim_link) : neu_plugin sim_link unit := {|
  conn := l; stack := stack plugin; plugin_group_data := plugin_group_data plugin; cmd_idx := cmd_idx plugin;
  is_server := is_server plugin; client_fd := client_fd plugin; endianess := endianess plugin;
  endianess_64 := endianess_64 plugin; address_base := address_base plugin; max_retries := max_retries plugin;
  plugin_check_header := plugin_check_header plugin; degradation := degradation plugin;
  degrade_cycle := degrade_cycle plugin; backup := backup plugin; current_backup := current_backup plugin;
  first_attempt_done := first_attempt_done plugin; param := (); param_backup := (); out := out plugin |}.

(** ** A network with the simulator

    What the driver relies on of the operating system and of the network.  [sim] is
    the simulator that listens at [ip] and [port], and [line f] the connection that
    ends at the descriptor [f], if it leads to the simulator: its buffer for this
    client and the bytes on their way back.  A descriptor is free and a connection is
    accepted; what is sent arrives in one piece and is answered before the driver
    receives; bytes are received in order, as many as asked for if they are there
    and the call waits for all. *)

Definition with_stream (l : sim_link) (bytes : list Z) : sim_link :=
  {| lk_sim := lk_sim l; lk_cb := lk_cb l; lk_stream := bytes; lk_answers := lk_answers l |}.

Class SimPeer {OS} (os : os_ops OS) (fds : OS → gset Z) (sim : OS → sim_ctx_t)
    (line : Z → OS → option sim_link) (ip : string) (port : Z) := {
  peer_posix :: Posix os fds;
  peer_ip : inet_pton4 os ip || inet_pton6 os ip = true;
  peer_socket v o : 0 <= (os_socket os v SOCK_STREAM false o).1 ∧
    sim (os_socket os v SOCK_STREAM false o).2 = sim o;
  peer_setsockopt f x o : sim (os_setsockopt os f x o) = sim o;
  peer_connect f o : f ∈ fds o →
    ∃ errno o' l, os_connect os f ip port o = (0, errno, o') ∧ line f o' = Some l ∧
      lk_sim l = sim o ∧ lk_cb l = cycle_buf_zero ∧ lk_stream l = [];
  peer_send f frame flag o l : line f o = Some l →
    ∃ errno o', os_send os f frame flag o = ((link_send l frame).1, errno, o') ∧
      line f o' = Some (link_send l frame).2;
  peer_recv_all f n o l : line f o = Some l → 0 < n <= Z.of_nat (length (lk_stream l)) →
    ∃ errno o', os_recv os f n MSG_WAITALL o = (n, take (Z.to_nat n) (lk_stream l), errno, o') ∧
      line f o' = Some (with_stream l (drop (Z.to_nat n) (lk_stream l)));
  peer_recv_some f n o l : line f o = Some l → 0 < n →
    ∃ ret bytes errno o', os_recv os f n MSG_DONTWAIT o = (ret, bytes, errno, o') ∧
      (ret <= 0 ∧ lk_stream l = [] ∧ line f o' = Some l ∨
       0 < ret <= Z.of_nat (length (lk_stream l)) ∧
       line f o' = Some (with_stream l (drop (Z.to_nat ret) (lk_stream l))));
}.

Section polling.
Context {OS : Type} (os : os_ops OS) (fds : OS → gset Z) (sim : OS → sim_ctx_t).
Context (line : Z → OS → option sim_link) (ip : string) (port : Z).
Context `{Hpeer : !SimPeer os fds sim line ip port}.
(** Enough calls of [recv] to clear the line. *)
Context (calls : OS → nat).
Context (calls_enough : ∀ f o l, line f o = Some l → (length (lk_stream l) < calls o)%nat).
Implicit Types (s : cst OS) (l : sim_link).

(** ** The line to the simulator *)

(** A blocking TCP client of the simulator that is not stopped, and its line: a new
    one if it is not connected. *)
Record ready s l : Prop := {
  ready_param : ∃ t, c_param (s_conn s) = TcpClient ip port t;
  ready_block : block (s_conn s) = true;
  ready_runs : stop (s_conn s) = false;
  ready_line : is_connected (s_conn s) = true → line (fd (s_conn s)) (s_os s) = Some l;
  ready_new : is_connected (s_conn s) = false →
    lk_sim l = sim (s_os s) ∧ lk_cb l = cycle_buf_zero ∧ lk_stream l = [];
}.

Lemma link_clear_empty l : lk_stream l = [] → link_clear l = l.
Proof. intros E. unfold link_clear. rewrite <-E. by destruct l. Qed.

Lemma clear_all n f s l :
  line f (s_os s) = Some l → (length (lk_stream l) < n)%nat →
  ∃ o', clear_loop os n f s = Some ((), St (s_conn s) o' (s_calls s)) ∧ line f o' = Some (link_clear l).
Proof.
  revert s l. induction n as [|n IH]; intros s l Hl Hn; [lia|]. cbn [clear_loop].
  unfold mbind, CM_bind, sys.
  destruct (peer_recv_some f 256 (s_os s) l Hl ltac:(lia)) as (ret & bytes & e & o' & -> & Hcase).
  destruct (Z.gtb_spec ret 0) as [Hret|Hret].
  - destruct Hcase as [(? & _)|[Hle Ho']]; [lia|].
    destruct (IH (St (s_conn s) o' (s_calls s)) _ Ho') as (o2 & Hloop & Ho2).
    { cbn [with_stream lk_stream]. rewrite length_drop. lia. }
    exists o2. by split.
  - destruct Hcase as [(_ & Hst & Ho')|[? _]]; [|lia]. exists o'. split; [done|].
    by rewrite link_clear_empty.
Qed.

Lemma send_connected s l frame l' :
  ready s l → is_connected (s_conn s) = true → 0 < Z.of_nat (length frame) < 2147483648 →
  link_send l frame = (Z.of_nat (length frame), l') →
  ∃ s', neu_conn_send os frame s = Some (Z.of_nat (length frame), s') ∧ ready s' l' ∧
    is_connected (s_conn s') = true.
Proof.
  intros [(t & Hp) Hb Hr Hli _] Hc Hlen Hsend. specialize (Hli Hc).
  destruct (peer_send (fd (s_conn s)) frame MSG_NONE (s_os s) l Hli) as (e & o' & Hos & Ho').
  rewrite Hsend in Hos, Ho'. cbn [fst snd] in Hos, Ho'.
  assert (send_loop os (length frame + 13) frame 0 0 0 s =
    Some ((Z.of_nat (length frame), e), St (s_conn s) o' (s_calls s))) as Hloop.
  { replace (length frame + 13)%nat with (S (length frame + 12)) by lia. cbn [send_loop]. destruct (Z.ltb_spec 0 (Z.of_nat (length frame))); [|lia].
    unfold mbind, CM_bind, get. rewrite Hp, Hb. unfold sys. change (Z.to_nat 0) with 0%nat. rewrite drop_0, Hos.
    assert (s32 (Z.of_nat (length frame)) = Z.of_nat (length frame)) as -> by zlia.
    destruct (Z.gtb_spec (Z.of_nat (length frame)) 0); [|lia]. rewrite Z.add_0_l, Z.eqb_refl. done. }
  unfold neu_conn_send, mbind, CM_bind, get. rewrite Hr, Hc. cbn [negb when]. unfold mret, CM_ret. rewrite Hc, Hloop.
  destruct (Z.eqb_spec (Z.of_nat (length frame)) (-1)); [lia|]. cbn [andb when]. unfold mret, CM_ret. cbn [s_conn].
  assert ((Z.of_nat (length frame) >? 0) = true) as Hg by lia. rewrite Hg. cbn [andb].
  destruct (callback_trigger (s_conn s)); cbn [negb when]; unfold mbind, CM_bind, call, modify, mret, CM_ret;
    cbn [s_conn s_os s_calls]; rewrite Hg; cbn [when s_conn s_os s_calls];
    (eexists; split; [reflexivity|]; split; [|done]; split; cbn; [by exists t|done|done|done|by rewrite Hc]).
Qed.

Lemma send_offline s l frame :
  ready s l → is_connected (s_conn s) = false →
  ∃ s1 l1, ready s1 l1 ∧ is_connected (s_conn s1) = true ∧ lk_sim l1 = lk_sim l ∧
    lk_cb l1 = cycle_buf_zero ∧ lk_stream l1 = [] ∧ neu_conn_send os frame s = neu_conn_send os frame s1.
Proof.
  intros [(t & Hp) Hb Hr _ Hnew] Hc. destruct (Hnew Hc) as (Hsim & _ & _).
  pose proof (posix_socket (negb (is_ipv4 os ip)) SOCK_STREAM false (s_os s)) as Hgot.
  destruct (peer_socket (negb (is_ipv4 os ip)) (s_os s)) as [Hf Hs1].
  destruct (os_socket os (negb (is_ipv4 os ip)) SOCK_STREAM false (s_os s)) as [f o1] eqn:Eo. cbn [fst snd] in *.
  destruct Hgot as [[-> _]|(_ & _ & Hfds)]; [lia|].
  set (x := SO_TIMEO (t / 1000) (t mod 1000 * 1000)).
  destruct (peer_connect f (os_setsockopt os f x o1)) as (e & o3 & l1 & Hcon & Hl1 & Hs2 & Hcb & Hst).
  { rewrite posix_setsockopt, Hfds. set_solver. }
  rewrite peer_setsockopt, Hs1 in Hs2.
  set (s1 := St (with_link (s_conn s) true f) o3 (s_calls s)).
  assert (conn_connect os s = Some ((), s1)) as Hconn.
  { unfold conn_connect, mbind, CM_bind, get. rewrite Hp. unfold connect_tcp_client, mbind, CM_bind, get, sys.
    rewrite Hb. cbn [negb]. rewrite Eo. cbn [when].
    unfold set_timeout, sys_. cbn [s_conn s_os s_calls]. fold x. unfold is_ipv4, is_ipv6. rewrite peer_ip.
    cbn [s_conn s_os s_calls]. rewrite Hcon. cbn [andb orb negb]. done. }
  exists s1, l1. split_and!; [|done|congruence|done|done|].
  - split; cbn; [by exists t|done|done|done|done].
  - unfold neu_conn_send, mbind, CM_bind, get. cbn [s_conn s1 with_link stop is_connected]. rewrite Hr, Hc. cbn [negb when].
    rewrite Hconn. done.
Qed.

Lemma recv_connected s l n bytes l' :
  ready s l → is_connected (s_conn s) = true → 0 < n → link_recv l n = (n, bytes, l') →
  ∃ s', neu_conn_recv os n s = Some ((n, bytes), s') ∧ ready s' l' ∧ is_connected (s_conn s') = true.
Proof.
  intros [(t & Hp) Hb Hr Hli _] Hc Hn Hrecv. specialize (Hli Hc). unfold link_recv in Hrecv.
  injection Hrecv as Hlen <- <-. rewrite length_take in Hlen.
  destruct (peer_recv_all (fd (s_conn s)) n (s_os s) l Hli ltac:(lia)) as (e & o' & Hos & Ho').
  unfold neu_conn_recv, mbind, CM_bind, get. rewrite Hr, Hp, Hb. unfold sys. rewrite Hos.
  destruct (Z.leb_spec n 0); [lia|]. cbn [andb when]. unfold mret, CM_ret.
  destruct (Z.gtb_spec n 0); [|lia]. cbn [when]. unfold modify. cbn [s_conn s_os s_calls].
  eexists; split; [reflexivity|]. split; [|done]. split; cbn; [by exists t|done|done|done|by rewrite Hc].
Qed.

(** What the simulator answers comes through the connection. *)
Lemma connection_answers s l frame resp :
  ready s l → 0 < Z.of_nat (length frame) < 2147483648 → (6 < length resp)%nat →
  (∀ l', lk_sim l' = lk_sim l → lk_cb l' = lk_cb l ∨ lk_cb l' = cycle_buf_zero →
     answers link_ops MODBUS_PROTOCOL_TCP l' frame resp) →
  answers (connection_ops os calls) MODBUS_PROTOCOL_TCP (Some s) frame resp.
Proof using Hpeer calls_enough.
  intros Hs Hfl Hrl Hans.
  assert (∃ s1 l1, ready s1 (link_clear l1) ∧ is_connected (s_conn s1) = true ∧
    answers link_ops MODBUS_PROTOCOL_TCP l1 frame resp ∧
    live (-1) (neu_conn_send os frame)
      (live () (λ s, neu_conn_clear_recv_buffer os (calls (s_os s)) s) (Some s)).2 =
    live (-1) (neu_conn_send os frame) (Some s1)) as (s1 & l1 & Hs1 & Hc1 & (ret & l2 & Hsend & Hret & Hr) & Heq).
  { destruct (is_connected (s_conn s)) eqn:Hc.
    - pose proof Hs as [(t & Hp) Hb Hr Hli Hnew]. specialize (Hli Hc).
      destruct (clear_all (calls (s_os s)) (fd (s_conn s)) s l Hli (calls_enough _ _ _ Hli)) as (o' & Hcl & Ho').
      exists (St (s_conn s) o' (s_calls s)), l.
      split_and!; [split; cbn; [by exists t|done|done|done|by rewrite Hc]|done|apply Hans; auto|]. cbn [live].
      unfold neu_conn_clear_recv_buffer, mbind, CM_bind, get. rewrite Hc, Hp. cbn [negb]. by rewrite Hcl.
    - destruct (send_offline s l frame Hs Hc) as (s1 & l1 & Hs1 & Hc1 & Hsim & Hcb & Hst & Heq).
      exists s1, l1. rewrite link_clear_empty by done. split_and!; [done|done|apply Hans; auto|]. cbn [live].
      unfold neu_conn_clear_recv_buffer, mbind, CM_bind, get. rewrite Hc. cbn [negb]. unfold mret, CM_ret. cbn [snd live]. by rewrite Heq. }
  cbn [ModbusReq.neu_conn_send ModbusReq.neu_conn_clear_recv_buffer link_ops] in Hsend.
  destruct Hr as (l3 & l4 & Hr1 & Hr2). cbn [ModbusReq.neu_conn_recv link_ops] in Hr1, Hr2.
  assert (ret = Z.of_nat (length frame)) as ->.
  { unfold link_send in Hsend. destruct (client_read _ _ _ _) as [[[]]|]; [by injection Hsend|]. injection Hsend as <- _. lia. }
  destruct (send_connected s1 _ frame l2 Hs1 Hc1 Hfl Hsend) as (s2 & Hsend2 & Hs2 & Hc2).
  destruct (recv_connected s2 l2 6 (take 6 resp) l3 Hs2 Hc2 ltac:(lia) Hr1) as (s3 & Hrecv3 & Hs3 & Hc3).
  destruct (recv_connected s3 l3 (Z.of_nat (length resp) - 6) (drop 6 resp) l4 Hs3 Hc3 ltac:(lia) Hr2)
    as (s4 & Hrecv4 & _).
  exists (Z.of_nat (length frame)), (Some s2). unfold connection_ops. cbn [ModbusReq.neu_conn_send ModbusReq.neu_conn_clear_recv_buffer ModbusReq.neu_conn_recv].
  split; [rewrite Heq; cbn [live]; by rewrite Hsend2|]. split; [lia|].
  exists (Some s3), (Some s4). cbn [live]. rewrite Hrecv3. split; [done|]. cbn [live]. by rewrite Hrecv4.
Qed.

(** ** Polling *)

Lemma poll_answered_over_connection (plugin : neu_plugin (option (cst OS)) conn_param) c l (s : sim_ctx_t) gd cmd :
  conn plugin = Some c → ready c l → polls_simulator (over_link plugin l) s gd cmd →
  answers (connection_ops os calls) (protocol (stack plugin)) (conn plugin)
    (cmd_request (stack plugin) cmd) (cmd_response (stack plugin) cmd (sim_mem (hold_regs s))).
Proof using Hpeer calls_enough.
  intros Hc Hready [Hcl Hbk Htcp Hseq (Hsim & Hs & Hpend) Hcur Har Hsl Hst Hn Hrange Hnum]. cbn in Htcp, Hsim, Hpend.
  rewrite Hc, Htcp. apply (connection_answers c l); [done| | |].
  - unfold cmd_request. rewrite Htcp, length_frame_of, length_app. cbn [length framing_room]. rewrite length_app, !length_be_store. lia.
  - apply Nat2Z.inj_lt. unfold cmd_response, read_response. rewrite Htcp, length_frame_of, length_app. cbn [length framing_room]. lia.
  - intros l' Hl Hcb. assert (link_idle s l') as Hidle.
    { split; [by rewrite Hl|]. split; [done|]. destruct Hcb as [-> | ->]; [done|apply pending_zero]. }
    rewrite <-Htcp. by apply (poll_answered (over_link plugin l')).
Qed.

(** C13: A poll over a connection of connection.c. For every operating system and
    network that behave as [SimPeer] states towards the simulator (a descriptor is
    free, the connection is accepted, a frame arrives in one piece and is answered
    before the driver receives, bytes come in order), a driver whose connection is a
    blocking TCP client of connection.c, connected to the simulator or not yet, polls
    a planned command of numeric tags on holding registers, with the sequence number
    of its reads below 65535 ([polls_simulator]): the connection is made if there is
    none, bytes left over on the line are dropped, the frame is sent, the answer is
    received in two portions, and the poll publishes for every tag of the command the
    value of the tag's registers in the simulator. *)
Theorem poll_over_connection (plugin : neu_plugin (option (cst OS)) conn_param) c l (s : sim_ctx_t) gd cmd g max_byte :
  conn plugin = Some c → ready c l → polls_simulator (over_link plugin l) s gd cmd →
  cmd_planned max_byte cmd →
  ∃ plugin' g' ups,
    check_modbus_read_result (connection_ops os calls) plugin g cmd = Some (plugin', g', false) ∧
    out plugin' = out plugin ++ (EvUpdate <$> ups) ∧
    Forall2 (reports (endianess plugin) (endianess_64 plugin) (sim_mem (hold_regs s)) (gd_group gd))
      (rc_tags cmd) ups.
Proof using Hpeer calls_enough.
  intros Hc Hready Hps Hplan. pose proof (poll_answered_over_connection _ _ _ _ _ _ Hc Hready Hps) as Hans.
  destruct Hps as [Hcl Hbk Htcp Hseq Hidle Hcur Har Hsl Hst Hn Hrange Hnum].
  destruct (command_answered (connection_ops os calls) plugin g cmd gd (sim_mem (hold_regs s)) max_byte)
    as (plugin' & g' & ups & Hchk & Hout & Hrep & _); try done.
  - by rewrite Har.
  - by exists plugin', g', ups.
Qed.
End polling.

(** ** A concrete run *)

(** A network on which every socket leads to the simulator, which sees a new client
    when a connection is made. *)
Definition fresh_link (l : sim_link) : sim_link :=
  {| lk_sim := lk_sim l; lk_cb := cycle_buf_zero; lk_stream := []; lk_answers := [] |}.

Definition sim_net_ops : os_ops (net sim_link) := net_ops link_send link_recv fresh_link.
Definition net_calls (o : net sim_link) : nat := S (length (lk_stream (net_link o))).
Definition net_line (f : Z) (o : net sim_link) : option sim_link :=
  if decide (f ∈ net_fds o) then Some (net_link o) else None.

Lemma net_line_Some f o l : net_line f o = Some l → f ∈ net_fds o ∧ l = net_link o.
Proof. unfold net_line. case_decide; [|done]. by intros [= <-]. Qed.

#[export] Instance sim_net_peer ip port :
  SimPeer sim_net_ops net_fds (λ o, lk_sim (net_link o)) net_line ip port.
Proof.
  split; cbn.
  - apply net_posix. intros l n. cbn. rewrite length_take. lia.
  - done.
  - intros _ o. split; [apply new_fd_fresh|done].
  - done.
  - intros f o Hf. rewrite decide_True by done. do 3 eexists. split; [done|]. unfold net_line. cbn.
    by rewrite decide_True.
  - intros f frame _ o l [Hf ->]%net_line_Some. unfold net_send. rewrite decide_True by done.
    destruct (link_send _ _) as [ret l']. do 2 eexists. split; [done|]. unfold net_line. cbn. by rewrite decide_True.
  - intros f n o l [Hf ->]%net_line_Some Hn. unfold net_recv, link_recv. rewrite decide_True by done.
    rewrite length_take, Nat.min_l by lia. rewrite Z2Nat.id by lia. destruct (Z.eqb_spec n 0); [lia|].
    do 2 eexists. split; [done|]. unfold net_line. cbn. by rewrite decide_True.
  - intros f n o l [Hf ->]%net_line_Some Hn. unfold net_recv, link_recv. rewrite decide_True by done.
    set (k := Z.of_nat _). assert (k = Z.min n (Z.of_nat (length (lk_stream (net_link o))))) as Hk.
    { unfold k. rewrite length_take. lia. }
    destruct (Z.eqb_spec k 0) as [E|E]; do 4 eexists; (split; [done|]).
    + left. split; [lia|]. split; [destruct (lk_stream (net_link o)); [done|cbn in Hk; lia]|].
      unfold net_line. by rewrite decide_True.
    + right. split; [lia|]. unfold net_line. cbn. rewrite decide_True by done.
      do 2 f_equal. rewrite Hk. destruct (Z.min_spec n (Z.of_nat (length (lk_stream (net_link o))))) as [[_ ->]|[Hle ->]];
        [done|]. rewrite Nat2Z.id, !drop_ge by lia. done.
Qed.

Lemma net_calls_enough f o l : net_line f o = Some l → (length (lk_stream l) < net_calls o)%nat.
Proof. intros [_ ->]%net_line_Some. unfold net_calls. lia. Qed.

(** A new connection on this network. *)
Definition demo_net : net sim_link :=
  {| net_fds := {[0; 1; 2]}; net_link := {| lk_sim := demo_sim; lk_cb := cycle_buf_zero; lk_stream := []; lk_answers := [] |} |}.
Definition demo_neu_conn : neu_conn := {|
  c_param := TcpClient "127.0.0.1" 1502 3000; is_connected := false; stop := false; connection_ok := false;
  callback_trigger := false; fd := 0; block := true; send_bytes := 0; recv_bytes := 0; clients := [];
  n_client := 0; is_listen := false; buf := replicate (Z.to_nat 8192) 0; buf_size := 8192; offset := 0;
  udp_act_port := 0 |}.
Definition demo_conn : cst (net sim_link) := St demo_neu_conn demo_net [].

Example demo_conn_new : neu_conn_new sim_net_ops (TcpClient "127.0.0.1" 1502 3000) demo_net = Some ((), demo_conn).
Proof. reflexivity. Qed.

Definition demo_conn_driver : neu_plugin (option (cst (net sim_link))) conn_param := {|
  conn := Some demo_conn; stack := stack demo_driver; plugin_group_data := plugin_group_data demo_driver;
  cmd_idx := cmd_idx demo_driver; is_server := is_server demo_driver; client_fd := client_fd demo_driver;
  endianess := endianess demo_driver; endianess_64 := endianess_64 demo_driver;
  address_base := address_base demo_driver; max_retries := max_retries demo_driver;
  plugin_check_header := plugin_check_header demo_driver; degradation := degradation demo_driver;
  degrade_cycle := degrade_cycle demo_driver; backup := backup demo_driver;
  current_backup := current_backup demo_driver; first_attempt_done := first_attempt_done demo_driver;
  param := TcpClient "127.0.0.1" 1502 3000; param_backup := TcpClient "127.0.0.1" 1502 3000;
  out := out demo_driver |}.

Lemma demo_conn_ready :
  ready (λ o, lk_sim (net_link o)) net_line "127.0.0.1" 1502 demo_conn (net_link demo_net).
Proof. split; [by exists 3000|done|done|done|done]. Qed.

Lemma demo_conn_polls : polls_simulator (over_link demo_conn_driver (net_link (s_os demo_conn))) demo_sim demo_gd demo_read_cmd.
Proof.
  destruct demo_polls as [H1 H2 H3 H4 H5 H6 H7 H8 H9 H10 H11 H12].
  split; [exact H1|exact H2|exact H3|exact H4|exact H5|exact H6|exact H7|exact H8|exact H9|exact H10|exact H11|exact H12].
Qed.

Lemma poll_over_connection_witness :
  ∃ plugin' g' ups,
    check_modbus_read_result (connection_ops sim_net_ops net_calls) demo_conn_driver slave_state_zero demo_read_cmd =
      Some (plugin', g', false) ∧
    out plugin' = [] ++ (EvUpdate <$> ups) ∧
    Forall2 (reports MODBUS_CDAB MODBUS_LL (sim_mem (hold_regs demo_sim)) "g") (rc_tags demo_read_cmd) ups.
Proof.
  apply (poll_over_connection sim_net_ops net_fds (λ o, lk_sim (net_link o)) net_line "127.0.0.1" 1502 net_calls
    net_calls_enough demo_conn_driver demo_conn (net_link demo_net) demo_sim demo_gd demo_read_cmd slave_state_zero 250);
    [reflexivity|exact demo_conn_ready|exact demo_conn_polls|exact demo_planned].
Defined.
